(* ===== verification/_CoqProject ===== *)
-Q . S2P
Prelude.v
Utf8.v
Device.v
Runs.v
Bitmap.v
Allocator.v
SuperBlock.v
Mft.v
Journal.v
FileRecord.v
Btree.v
GalleonFs.v
FileManager.v
KernelMemory.v
Paging.v
Mmio.v
BootFrames.v
Process.v
Scheduler.v
Ide.v
Storage.v
Api.v
Syscall.v
Elf.v
ElfMemory.v
ElfArch.v
ElfReloc.v
ElfLoad.v
ElfInstr.v
ElfExec.v
Ext4Base.v
Ext4Cache.v
Ext4Inode.v
Ext4Extents.v
Ext4BlockMap.v
Ext4File.v
Ext4Path.v
Ext4Dir.v
Ext4Resolve.v
Ext4Journal.v
Ext4Fs.v
Ext4Image.v
