(* ===== verification/Prelude.v ===== *)
(** * PrismaOS verification development

    A model of the storage stack, the memory managers, the scheduler, the
    object and system-call layers, the ELF library and the ext4 reader of
    PrismaOS, translated from the Rust sources under [src/], with the theorems
    that say what each part does.

    ** The program and its parts

    - [crates/galleon2]: a filesystem. A volume has a superblock, a cluster
      bitmap, a table of 1024-byte file records (MFT), a journal and a B+ tree
      per directory. [GalleonFilesystem] puts them together and [FileManager]
      offers operations by name.
    - [drivers/ide]: the driver under it, which moves sectors through I/O ports.
    - [crates/lib_kernel/src/memory]: the frame bitmap, the page tables whose
      frames come from it, the boot-time bump allocator, the window of device
      memory that is mapped through the page tables, DMA buffers.
    - [crates/lib_kernel/src/scheduler]: processes, per-CPU run queues, policies
      and the context switch, driven by the timer interrupt.
    - [crates/lib_kernel/src/api], [events.rs]: kernel objects behind
      capabilities, event delivery, and the system calls on them.
    - [crates/lib_kernel/src/syscall]: a second system-call layer, entered by
      the SYSCALL instruction through an assembly stub.
    - [crates/Statue]: an ELF library. It parses a file, loads its segments
      through an allocator, relocates them and interprets the instructions.
    - [ext4-view-rs]: a reader of ext4 filesystems. A block cache is over the
      storage; inodes, the blocks of a file, directories and paths are over the
      cache; the journal replaces blocks, and [Ext4] offers operations on paths.

    ** Files

    - [Prelude]: results, the state monad, machine integers, bytes, tactics.
      [Utf8]: the UTF-8 decoder of the standard library.
    - [Device]: the sector device as a class, [SectorDev] with [SectorDevLaws],
      and a RAM disk instance for the witnesses.
    - [Runs], [Bitmap], [Allocator]: [allocation.rs].
    - [SuperBlock]: [super_block.rs], [lib.rs] and the superblock of
      [galleon_fs.rs]. [Mft]: [mft.rs]. [Journal]: [journal.rs].
      [FileRecord]: [file_record.rs]. [Btree]: [btree.rs].
    - [GalleonFs]: [galleon_fs.rs], [fs.rs]. [FileManager]: [file.rs],
      [types/pathbuf.rs].
    - [KernelMemory], [Paging], [Mmio], [BootFrames]: [memory/addr.rs],
      [memory/frame_allocator.rs], [memory/paging.rs], [memory/mmio.rs],
      [memory/mod.rs].
    - [Process], [Scheduler]: [scheduler/*.rs], [time.rs], and the scheduling
      part of the timer interrupt.
    - [Ide]: [drivers/ide/src] and the port loops of [api/commands.rs].
    - [Storage]: the filesystem on the driver on the bus.
    - [Api]: [api/mod.rs], [api/objects.rs], [api/syscalls.rs], [events.rs],
      [memory/dma.rs] and the header check of [elf/mod.rs].
    - [Syscall]: [syscall/mod.rs], [syscall/handlers.rs], [syscall/entry.rs].
    - [Elf]: the formats of [Statue] ([header.rs], [program.rs], [section.rs],
      [symbol.rs]). [ElfMemory]: [memory.rs]. [ElfArch]: [arch.rs].
      [ElfReloc]: [relocation.rs]. [ElfLoad]: [loader.rs]. [ElfInstr]:
      [instruction.rs]. [ElfExec]: [execution.rs].
    - [Ext4Base]: the superblock, the descriptors and checksums of
      [ext4-view-rs]. [Ext4Cache]: [block_cache.rs]. [Ext4Inode]: [inode.rs],
      [iters.rs]. [Ext4Extents], [Ext4BlockMap]: [iters/extents.rs],
      [iters/file_blocks]. [Ext4File]: [file.rs]. [Ext4Path]: [path.rs].
      [Ext4Dir]: the directory files. [Ext4Resolve]: [resolve.rs].
      [Ext4Journal]: [journal]. [Ext4Fs]: [lib.rs]. [Ext4Image]: an example
      storage, on which the theorems about loading are applied.

    ** How code is translated

    A function of the source is a definition of the same name where the name is
    free. A [struct] is a record, an [enum] an inductive type; statics are
    fields of the component's state. A stateful function is a program in the
    monad [M S E A]. Its result is [Ok], [Err], [Panic] (checked arithmetic,
    slices, page faults: [kernel/GNUmakefile] builds the dev profile unless
    told otherwise, and that profile checks overflow) or [Hang] (a loop without
    exit, or a spin lock that the same flow of control already holds). An
    integer is a [Z] with its width written out at each operation. Console
    output is left out.

    Code outside [src/] is a class argument with laws: the ATA bus ([AtaBus],
    [AtaFast], [AtaClean] in [Ide]), the address types of the x86_64 crate
    ([BootFrames], [Api]), the room on the kernel heap ([KernelHeap] in [Api]),
    the CRC routine and the storage of the ext4 reader
    ([Crc], [Ext4Read] in [Ext4Base]). Each class has an executable instance,
    on which the witnesses run. The results of the [cpuid] instruction and the
    addresses that the global allocator gives to vectors are arguments.

    Parts meet at classes: the filesystem is proved against [SectorDev], which
    the driver implements; the upper layers of the ext4 reader are proved
    against [BlockReader], which its cache implements; the ELF loader is proved
    against the allocators' trait, [MemoryAllocator].

    ** What the theorems show

    - Storage: the driver implements the sector device on every ATA bus that
      keeps up with it; it finds the ATA drives where the error register is clear
      after IDENTIFY, and takes a drive for a packet device of size 0 where it is
      not; where it finds them, a file created on a fresh volume reads back through
      the ports ([Ide], [Storage]).
    - Filesystem: the allocator implements an abstract contract on who holds
      which cluster, the answers of its operations included; searches return
      exactly the first or best fit; byte formats round trip; an index node
      implements a queue of entries per name; the journal writes only
      to its area and the one sector behind it.
    - Memory: the frame bitmap implements a set of free frames, the page tables
      a finite map from pages to frames; regions of device memory stay mapped
      and apart.
    - Scheduling: an operation keeps the invariant or does not return, and a
      condition on the state decides which; under priority scheduling without
      arrivals every waiting process is served.
    - Objects: access needs a grant; delivery of an event and the outcome of a
      system call are described exactly. The entry stub keeps the registers of
      the caller, and the error codes of the second layer mean what they say.
    - ELF: parsing is safe on all bytes and inverts the layout of the format;
      loading builds the image; the interpreter takes the steps of the RISC-V
      instruction set, except for instructions that are named and whose effect
      is stated, and terminates; the three compose to the run of a file.
    - ext4: reads through the cache are reads of the storage; an open file is an
      array with a cursor; lookup finds exactly the entries, in hashed
      directories too, whose entries are placed by a separate definition of the
      half-MD4 hash; resolution is a walk along the names; the journal gives the
      committed contents up to the end of the log or the first damage; loading a
      storage and reading a path gives the content of the file.
    - Defects: where the code does not do what it means to, a theorem states
      what it does instead (records the reader loops on, a volume that does not
      mount, names that are lost, locks taken twice, frames that stay free, an
      extent tree that is walked forever, a path that panics).

    ** Bounds and fuel

    Volumes have 145 to 1044480 clusters: below, the system
    area does not fit; above, the sector count of the bitmap exceeds the [u8] it is cast to. The
    driver's polling loops stop at the limit of the source, [POLL_LIMIT]. The
    attribute loop of a record has fuel, and [Mft.record_deserialize_fuel] shows
    that a parse still running when it ends never ends. The interpreter loop
    of [ElfExec] has as many turns ([ENOUGH]) as the limit on instructions and
    the width of the instruction pointer leave room for, and is shown to end
    before. The iterators of the ext4 reader loop on what the storage says: they
    have a fuel argument, and a theorem about a result says that a number exists
    from which every fuel gives it. Resolution makes at most 1001 rounds, the
    bound of the source.

    ** Not modelled

    - Instructions that touch only machine state: descriptor tables, model
      specific registers, translation-buffer invalidation.
    - Console, logging, fonts, the panic screen; the boot sequence and the shell
      of [kernel/src], which call the parts above between lines of output.
    - The heap ([memory/allocator.rs]), which wraps a third-party allocator,
      but for its size and the panic when it is full ([Api]).
    - Concurrency between CPUs and interrupts inside a critical section: one
      flow of control runs at a time.
    - [process/mod.rs], which nothing refers to, the executors
      ([executor/], [Luminal]), which run futures over third-party queues,
      [smp.rs], the driver registry, the older entry stub
      ([api/syscall_entry.rs]) and segment loading of [elf/mod.rs].
    - The drivers other than IDE, and [galleonfs], on which no crate depends.
    - Of [ext4-view-rs] and [Statue]: display, comparison and conversion
      implementations, and reading of files of a host system. *)

From stdpp Require Export base tactics list list_numbers numbers gmap sorting.
#[global] Open Scope Z_scope.

(** ** Results: how a Rust call ends

    [Ok] and [Err] are the two constructors of Rust's [Result]; [Panic] is a
    Rust panic (slice index out of range, [unwrap] on [None], arithmetic
    overflow in the dev profile the kernel is built with), which aborts the
    kernel ([panic = "abort"]); [Hang] is a call that does not return, an
    endless loop or a lock that is never released. *)
Inductive res (E A : Type) : Type :=
  | Ok (a : A)
  | Err (e : E)
  | Panic
  | Hang.
Arguments Ok {E A} a.
Arguments Err {E A} e.
Arguments Panic {E A}.
Arguments Hang {E A}.

Definition rbind {E A B} (m : res E A) (k : A → res E B) : res E B :=
  match m with
  | Ok a => k a
  | Err e => Err e
  | Panic => Panic
  | Hang => Hang
  end.

Definition map_err {E F A} (f : E → F) (m : res E A) : res F A :=
  match m with
  | Ok a => Ok a
  | Err e => Err (f e)
  | Panic => Panic
  | Hang => Hang
  end.

Definition is_ok {E A} (m : res E A) : bool :=
  match m with Ok _ => true | _ => false end.

(** State threaded through calls; an [Err] or a [Panic] keeps the state reached. *)
Definition M (S E A : Type) : Type := S → res E A * S.

Definition mok {S E A} (a : A) : M S E A := λ s, (Ok a, s).
Definition merr {S E A} (e : E) : M S E A := λ s, (Err e, s).
Definition mbindM {S E A B} (m : M S E A) (k : A → M S E B) : M S E B := λ s,
  match m s with
  | (Ok a, s') => k a s'
  | (Err e, s') => (Err e, s')
  | (Panic, s') => (Panic, s')
  | (Hang, s') => (Hang, s')
  end.
Definition mlift {S E A} (r : res E A) : M S E A := λ s, (r, s).
Definition mget {S E} : M S E S := λ s, (Ok s, s).
Definition mput {S E} (s : S) : M S E unit := λ _, (Ok tt, s).
Definition mmod {S E} (f : S → S) : M S E unit := λ s, (Ok tt, f s).

(** Run a computation on a part of the state. *)
Definition zoom {S T E A} (get : S → T) (set : T → S → S) (m : M T E A) : M S E A := λ s,
  let '(r, t) := m (get s) in (r, set t s).

(** [for x in xs { body(x)? }] *)
Fixpoint mfor {S E A} (xs : list A) (body : A → M S E unit) : M S E unit :=
  match xs with
  | [] => mok tt
  | x :: xs => mbindM (body x) (λ _, mfor xs body)
  end.

Declare Scope rust_scope.
Delimit Scope rust_scope with rust.
Notation "'let?' x ':=' m 'in' k" := (rbind m (λ x, k))
  (at level 10, x pattern, m at level 100, k at level 200) : rust_scope.
Notation "'let!' x ':=' m 'in' k" := (mbindM m (λ x, k))
  (at level 10, x pattern, m at level 100, k at level 200) : rust_scope.
#[global] Open Scope rust_scope.

(** ** Machine integers

    A [w]-bit unsigned integer is a [Z] in [0 .. 2^w - 1]. Additions,
    subtractions and multiplications panic when the result leaves that range. *)
Definition in_u (w z : Z) : Prop := 0 ≤ z < 2 ^ w.
Definition chk {E} (w z : Z) : res E Z :=
  if bool_decide (0 ≤ z < 2 ^ w) then Ok z else Panic.

Definition add64 {E} (a b : Z) : res E Z := chk 64 (a + b).
Definition sub64 {E} (a b : Z) : res E Z := chk 64 (a - b).
Definition mul64 {E} (a b : Z) : res E Z := chk 64 (a * b).
Definition add32 {E} (a b : Z) : res E Z := chk 32 (a + b).
Definition add16 {E} (a b : Z) : res E Z := chk 16 (a + b).

(** [x as u8], [x as u16], [x as u32] truncate. *)
Definition as_u8 (z : Z) : Z := z `mod` 2 ^ 8.
Definition as_u16 (z : Z) : Z := z `mod` 2 ^ 16.
Definition as_u32 (z : Z) : Z := z `mod` 2 ^ 32.
Definition wrap64 (z : Z) : Z := z `mod` 2 ^ 64.
Definition U64_MAX : Z := 2 ^ 64 - 1.

(** The value of a [w]-bit word read as a signed integer ([as i8], [as i32], [as i64]). *)
Definition as_signed (w z : Z) : Z := if z <? 2 ^ (w - 1) then z else z - 2 ^ w.

Definition saturating_sub (a b : Z) : Z := Z.max 0 (a - b).

Definition zlen {A} (l : list A) : Z := Z.of_nat (length l).

(** ** Bytes and slices *)
Definition byte_ok (b : Z) : Prop := 0 ≤ b < 256.
Abbreviation bytes_ok := (Forall byte_ok).

(** [to_le_bytes] of an [n]-byte integer and [from_le_bytes]. *)
Definition le_bytes (n : nat) (z : Z) : list Z := Z_to_little_endian (Z.of_nat n) 8 z.
Definition le_dec (bs : list Z) : Z := little_endian_to_Z 8 bs.

Definition zeros (n : nat) : list Z := replicate n 0.

(** [&data[off..off+n]] where the range is known to be inside. *)
Definition field {A} (off n : nat) (data : list A) : list A := take n (drop off data).

(** [data[off..off+src.len()].copy_from_slice(src)] where the range is known to be inside. *)
Definition put {A} (off : nat) (src data : list A) : list A :=
  take off data ++ src ++ drop (off + length src) data.

#[global] Arguments le_bytes : simpl never.
#[global] Arguments le_dec : simpl never.
#[global] Arguments zeros : simpl never.
#[global] Arguments field : simpl never.
#[global] Arguments put : simpl never.

(** [&data[a..b]] with Rust's bounds check. *)
Definition slice {E A} (a b : Z) (data : list A) : res E (list A) :=
  if bool_decide (0 ≤ a ≤ b ∧ b ≤ zlen data)
  then Ok (field (Z.to_nat a) (Z.to_nat (b - a)) data) else Panic.

(** [data[off..off+src.len()].copy_from_slice(src)] with Rust's bounds check. *)
Definition put_at {E A} (off : Z) (src data : list A) : res E (list A) :=
  if bool_decide (0 ≤ off ∧ off + zlen src ≤ zlen data)
  then Ok (put (Z.to_nat off) src data) else Panic.

(** [while data.len() % 8 != 0 { data.push(0) }] *)
Definition pad8_len (n : nat) : nat := ((8 - n mod 8) mod 8)%nat.
Definition pad8 (data : list Z) : list Z := data ++ zeros (pad8_len (length data)).

Fixpoint find_index {A} (f : A → bool) (l : list A) : option nat :=
  match l with
  | [] => None
  | x :: l => if f x then Some 0%nat else S <$> find_index f l
  end.

(** ** Automation *)

Create Rewrite HintDb len.
#[export] Hint Rewrite @length_app @length_take @length_drop @length_replicate @length_fmap
  @length_insert @length_cons @length_nil : len.

(** Lengths: rewrite with the [len] database and close with [lia]. *)
Ltac len := autorewrite with len; cbn [length]; try lia.

(** [Forall] over explicit lists. *)
Ltac forall_list :=
  repeat first [assumption | apply Forall_app_2 | apply Forall_cons_2 | apply Forall_nil_2]; try done.

(** [lia] with quotients and remainders by constants. *)
Ltac dlia := Z.to_euclidean_division_equations; lia.

Lemma length_le_bytes n z : length (le_bytes n z) = n.
Proof. apply Nat2Z.inj. apply length_Z_to_little_endian. lia. Qed.

Lemma length_zeros n : length (zeros n) = n.
Proof. apply length_replicate. Qed.

#[export] Hint Rewrite length_le_bytes length_zeros : len.

Lemma zlen_app {A} (x y : list A) : zlen (x ++ y) = zlen x + zlen y.
Proof. unfold zlen. rewrite length_app. lia. Qed.

Lemma zlen_nonneg {A} (x : list A) : 0 ≤ zlen x.
Proof. unfold zlen. lia. Qed.

Lemma le_bytes_ok n z : bytes_ok (le_bytes n z).
Proof. apply (Z_to_little_endian_bound (Z.of_nat n) 8 z); lia. Qed.

Lemma zeros_ok n : bytes_ok (zeros n).
Proof. apply Forall_replicate. unfold byte_ok; lia. Qed.

(** Decoding what was encoded gives the value back when it fits. *)
Lemma le_dec_bytes n z : 0 ≤ z < 2 ^ (Z.of_nat n * 8) → le_dec (le_bytes n z) = z.
Proof.
  intros Hz. unfold le_dec, le_bytes.
  rewrite little_endian_to_Z_to_little_endian by lia. by apply Z.mod_small.
Qed.

Lemma le_dec_bytes_mod n z : le_dec (le_bytes n z) = z `mod` 2 ^ (Z.of_nat n * 8).
Proof. unfold le_dec, le_bytes. by rewrite little_endian_to_Z_to_little_endian by lia. Qed.

Lemma le_bytes_dec bs : bytes_ok bs → le_bytes (length bs) (le_dec bs) = bs.
Proof. intros H. unfold le_bytes, le_dec. by apply Z_to_little_endian_to_Z. Qed.

Lemma le_dec_bound bs : bytes_ok bs → 0 ≤ le_dec bs < 2 ^ (zlen bs * 8).
Proof. intros H. apply little_endian_to_Z_bound; [lia|done]. Qed.

(** A check for concrete bytes. *)
Lemma bytes_ok_forallb bs : forallb (λ b, (0 <=? b) && (b <? 256)) bs = true → bytes_ok bs.
Proof.
  rewrite forallb_forall, Forall_forall. intros Hb b Hin. apply list_elem_of_In, Hb in Hin. unfold byte_ok. lia.
Qed.

Section fields.
Context {A : Type}.
Implicit Types (x y data src : list A).

Lemma length_field off n data :
  (off + n ≤ length data)%nat → length (field off n data) = n.
Proof. unfold field. len. Qed.

Lemma length_put off src data :
  (off + length src ≤ length data)%nat → length (put off src data) = length data.
Proof. unfold put. len. Qed.

(** Reading past a prefix. *)
Lemma field_app_skip off n x y :
  (length x ≤ off)%nat → field off n (x ++ y) = field (off - length x) n y.
Proof. intros H. unfold field. by rewrite drop_app_ge. Qed.

(** Reading a prefix. *)
Lemma field_app_hit n x y : length x = n → field 0 n (x ++ y) = x.
Proof. intros <-. unfold field. rewrite drop_0. by rewrite take_app_length. Qed.

Lemma field_app_last n x : length x = n → field 0 n x = x.
Proof. intros <-. unfold field. rewrite drop_0. by apply take_ge. Qed.

Lemma field_app_l off n x y :
  (off + n ≤ length x)%nat → field off n (x ++ y) = field off n x.
Proof.
  intros H. unfold field. rewrite drop_app_le by lia. rewrite take_app_le; [done|]. len.
Qed.

(** Reading back a field that was just written. *)
Lemma field_put_same off n src data :
  length src = n → (off + n ≤ length data)%nat → field off n (put off src data) = src.
Proof.
  intros <- H. unfold put.
  rewrite field_app_skip by len. rewrite length_take, Nat.min_l, Nat.sub_diag by lia.
  by rewrite field_app_hit.
Qed.

(** A write leaves the other fields alone. *)
Lemma field_put_other o n off src data :
  (off + length src ≤ length data)%nat →
  (o + n ≤ off ∨ off + length src ≤ o)%nat →
  field o n (put off src data) = field o n data.
Proof.
  intros Hin [H|H]; unfold put.
  - rewrite field_app_l by len. unfold field.
    rewrite <-(take_drop off data) at 2. rewrite drop_app_le by len.
    rewrite take_app_le; [done|len].
  - rewrite field_app_skip by len. rewrite field_app_skip by len.
    unfold field. rewrite drop_drop. do 2 f_equal. len.
Qed.

Lemma field_full n data : length data = n → field 0 n data = data.
Proof. intros <-. unfold field. rewrite drop_0. by apply take_ge. Qed.

Lemma lookup_field off n data i :
  field off n data !! i = if decide (i < n)%nat then data !! (off + i)%nat else None.
Proof.
  unfold field. case_decide.
  - rewrite lookup_take_lt by done. apply lookup_drop.
  - apply lookup_take_ge. lia.
Qed.

Lemma lookup_put_new off src data i :
  (off ≤ length data)%nat → (off ≤ i < off + length src)%nat →
  put off src data !! i = src !! (i - off)%nat.
Proof.
  intros H Hi. unfold put. rewrite lookup_app_r by len. rewrite length_take, Nat.min_l by lia.
  by rewrite lookup_app_l by lia.
Qed.

Lemma lookup_put_old off src data i :
  (off + length src ≤ length data)%nat → (i < off ∨ off + length src ≤ i)%nat →
  put off src data !! i = data !! i.
Proof.
  intros H [Hi|Hi]; unfold put.
  - rewrite lookup_app_l by len. by apply lookup_take_lt.
  - rewrite lookup_app_r by len. rewrite lookup_app_r by len. rewrite lookup_drop.
    f_equal. len.
Qed.
End fields.

(** Lengths known by instance resolution: nested writes to a buffer are resolved
    without leaving arithmetic side conditions. *)
Class Len {A} (l : list A) (n : nat) : Prop := len_eq : length l = n.
#[export] Hint Mode Len + ! - : typeclass_instances.
#[global] Typeclasses Opaque put field zeros le_bytes.

#[export] Instance Len_le_bytes n z : Len (le_bytes n z) n.
Proof. apply length_le_bytes. Qed.
#[export] Instance Len_zeros n : Len (zeros n) n.
Proof. apply length_zeros. Qed.
#[export] Instance Len_nil {A} : Len (@nil A) 0.
Proof. done. Qed.
#[export] Instance Len_cons {A} (x : A) l n : Len l n → Len (x :: l) (S n).
Proof. unfold Len. cbn. by intros ->. Qed.
#[export] Instance Len_app {A} (x y : list A) n m : Len x n → Len y m → Len (x ++ y) (n + m).
Proof. unfold Len. intros <- <-. apply length_app. Qed.
#[export] Instance Len_put {A} off (src data : list A) k n :
  Len src k → Len data n → TCEq (off + k <=? n)%nat true → Len (put off src data) n.
Proof.
  unfold Len. intros Hs Hd E. apply TCEq_eq, Nat.leb_le in E. rewrite length_put; [done|]. by rewrite Hs, Hd.
Qed.

Lemma field_field {A} a b o n (l : list A) : (o + n ≤ b)%nat → field o n (field a b l) = field (a + o) n l.
Proof.
  intros H. unfold field. rewrite skipn_firstn_comm, take_take, drop_drop. f_equal. lia.
Qed.

Lemma find_index_Some {A} (f : A → bool) l i :
  find_index f l = Some i → ∃ x, l !! i = Some x ∧ f x = true.
Proof.
  revert i. induction l as [|y l IH]; intros i; cbn; [done|].
  destruct (f y) eqn:E; [intros [= <-]; by exists y|].
  destruct (find_index f l) as [j|]; [|done]. intros [= <-]. by apply IH.
Qed.

Lemma field_put_hit {A} off n (src data : list A) N :
  Len src n → Len data N → TCEq (off + n <=? N)%nat true → field off n (put off src data) = src.
Proof. intros Hs Hd E. apply TCEq_eq, Nat.leb_le in E. apply field_put_same; [done|by rewrite Hd]. Qed.

Lemma field_put_miss {A} o n off (src data : list A) k N :
  Len src k → Len data N → TCEq (off + k <=? N)%nat true →
  TCEq ((o + n <=? off) || (off + k <=? o))%nat true →
  field o n (put off src data) = field o n data.
Proof.
  intros Hs Hd E E'. apply TCEq_eq, Nat.leb_le in E. apply TCEq_eq, orb_true_iff in E'.
  rewrite !Nat.leb_le in E'. apply field_put_other; rewrite ?Hs, ?Hd; done.
Qed.

(** Writing at the end of what is already written. *)
Lemma put_tail off src pre n :
  length pre = off → (length src ≤ n)%nat →
  put off src (pre ++ zeros n) = (pre ++ src) ++ zeros (n - length src).
Proof.
  intros <- Hn. unfold put, zeros. rewrite take_app_length, drop_app_add, drop_replicate.
  by rewrite app_assoc.
Qed.

Lemma zeros_app n m : zeros n ++ zeros m = zeros (n + m).
Proof. symmetry. apply replicate_add. Qed.

Lemma field_app_at {A} off n (x y z : list A) :
  length x = off → length y = n → field off n (x ++ y ++ z) = y.
Proof. intros <- <-. unfold field. by rewrite drop_app_length, take_app_length. Qed.

Lemma drop_at {A} off (x y : list A) : length x = off → drop off (x ++ y) = y.
Proof. intros <-. apply drop_app_length. Qed.

(** [fields] resolves the reads of a serialized value: through a [put], past a
    prefix, or at the front of a concatenation. *)
Ltac field_step :=
  match goal with
  | |- context [field ?o ?n (put ?o ?src ?data)] => erewrite (field_put_hit o n src data) by apply _
  | |- context [field ?o ?n (put ?off ?src ?data)] => erewrite (field_put_miss o n off src data) by apply _
  | |- context [field 0 ?n (?x ++ ?y)] => rewrite (field_app_hit n x y) by len
  | |- context [field ?o ?n (?x ++ ?y)] =>
      rewrite (field_app_skip o n x y) by len; autorewrite with len; cbn [Nat.sub length]
  | |- context [field 0 ?n ?x] => rewrite (field_full n x) by len
  end.
Ltac fields := repeat field_step.

(** Unfold one step of a result or state computation. *)
Ltac mstep := cbn [rbind mbindM mok merr mlift mget mput mmod map_err fst snd].

Lemma chk_ok {E} w z : 0 ≤ z < 2 ^ w → @chk E w z = Ok z.
Proof. intros H. unfold chk. by rewrite bool_decide_eq_true_2. Qed.

Lemma chk_panic {E} w z : ¬ (0 ≤ z < 2 ^ w) → @chk E w z = Panic.
Proof. intros H. unfold chk. by rewrite bool_decide_eq_false_2. Qed.

Lemma chk_inv {E} w z v : @chk E w z = Ok v → v = z ∧ 0 ≤ z < 2 ^ w.
Proof. unfold chk. case_bool_decide; [|done]. by intros [= <-]. Qed.

(** Bit operations stay in the width. *)
Lemma in_u_bits w z : 0 ≤ w → in_u w z ↔ 0 ≤ z ∧ ∀ i, w ≤ i → Z.testbit z i = false.
Proof.
  intros Hw. unfold in_u. split; [intros [H0 Hz]|intros [H0 Hz]].
  - split; [done|]. intros i Hi. apply (Z.bounded_iff_bits_nonneg w z); lia.
  - split; [done|]. apply (Z.bounded_iff_bits_nonneg w z); [lia..|]. done.
Qed.

Lemma in_u_lor w a b : 0 ≤ w → in_u w a → in_u w b → in_u w (Z.lor a b).
Proof.
  intros Hw. rewrite !in_u_bits by done. intros [Ha Ha'] [Hb Hb']. split; [by apply Z.lor_nonneg|].
  intros i Hi. by rewrite Z.lor_spec, Ha', Hb'.
Qed.

Lemma in_u_lxor w a b : 0 ≤ w → in_u w a → in_u w b → in_u w (Z.lxor a b).
Proof.
  intros Hw. rewrite !in_u_bits by done. intros [Ha Ha'] [Hb Hb']. split; [by apply Z.lxor_nonneg|].
  intros i Hi. by rewrite Z.lxor_spec, Ha', Hb'.
Qed.

Lemma in_u_land w a b : 0 ≤ w → in_u w a → in_u w (Z.land a b).
Proof.
  intros Hw. rewrite !in_u_bits by done. intros [Ha Ha']. split; [apply Z.land_nonneg; by left|].
  intros i Hi. by rewrite Z.land_spec, Ha'.
Qed.

Lemma in_u_ldiff w a b : 0 ≤ w → in_u w a → in_u w (Z.ldiff a b).
Proof.
  intros Hw. rewrite !in_u_bits by done. intros [Ha Ha']. split; [apply Z.ldiff_nonneg; by left|].
  intros i Hi. by rewrite Z.ldiff_spec, Ha'.
Qed.

Lemma in_u_wrap64 z : in_u 64 (wrap64 z).
Proof. unfold in_u, wrap64. apply Z.mod_pos_bound. lia. Qed.

Lemma slice_ok {E A} a b (data : list A) :
  0 ≤ a ≤ b → b ≤ zlen data →
  @slice E A a b data = Ok (field (Z.to_nat a) (Z.to_nat (b - a)) data).
Proof. intros ??. unfold slice. by rewrite bool_decide_eq_true_2. Qed.

Lemma put_at_ok {E A} off (src data : list A) :
  0 ≤ off → off + zlen src ≤ zlen data →
  @put_at E A off src data = Ok (put (Z.to_nat off) src data).
Proof. intros ??. unfold put_at. by rewrite bool_decide_eq_true_2. Qed.

Lemma put_at_cases {E A} off (src data : list A) :
  @put_at E A off src data = Panic ∨
  @put_at E A off src data = Ok (put (Z.to_nat off) src data) ∧ 0 ≤ off ∧ off + zlen src ≤ zlen data.
Proof. unfold put_at. case_bool_decide; [right|left]; tauto. Qed.

Lemma slice_at {E A} a b (x y z : list A) :
  zlen x = a → zlen y = b - a → @slice E A a b (x ++ y ++ z) = Ok y.
Proof.
  unfold zlen. intros Hx Hy. rewrite slice_ok.
  - f_equal. apply field_app_at; lia.
  - lia.
  - unfold zlen. rewrite !length_app. lia.
Qed.

Lemma slice_rest {E A} a (x y : list A) :
  zlen x = a → @slice E A a (zlen (x ++ y)) (x ++ y) = Ok y.
Proof.
  unfold zlen. intros Hx. rewrite length_app, slice_ok.
  - f_equal. unfold field. rewrite drop_at by lia. apply take_ge. lia.
  - lia.
  - unfold zlen. rewrite length_app. lia.
Qed.

Lemma pad8_len_mod n : ((n + pad8_len n) mod 8 = 0)%nat.
Proof.
  unfold pad8_len.
  pose proof (Nat.div_mod_eq n 8). pose proof (Nat.mod_upper_bound n 8 ltac:(lia)).
  destruct (decide (n mod 8 = 0)%nat) as [E|E].
  - rewrite E. cbn. rewrite Nat.add_0_r. done.
  - rewrite (Nat.mod_small (8 - n mod 8) 8) by lia.
    replace (n + (8 - n mod 8))%nat with ((n / 8 + 1) * 8)%nat by lia.
    apply Nat.Div0.mod_mul.
Qed.

Lemma pad8_bounds data : zlen data ≤ zlen (pad8 data) ≤ zlen data + 7 ∧ zlen (pad8 data) `mod` 8 = 0.
Proof.
  assert (pad8_len (length data) < 8)%nat as Hlt by (apply Nat.mod_upper_bound; lia).
  assert (zlen (pad8 data) = Z.of_nat (length data + pad8_len (length data))) as ->.
  { unfold zlen, pad8. len. }
  split; [unfold zlen; lia|].
  change 8 with (Z.of_nat 8). rewrite <-Nat2Z.inj_mod, pad8_len_mod. done.
Qed.

Lemma pad8_len_lt n : (pad8_len n < 8)%nat.
Proof. apply Nat.mod_upper_bound. lia. Qed.

Lemma join_fmap_cons {A B} (f : A → list B) x l : mjoin (f <$> x :: l) = f x ++ mjoin (f <$> l).
Proof. done. Qed.

Lemma take_app_take {A} n (x y : list A) : take n (take n x ++ y) = take n (x ++ y).
Proof.
  destruct (decide (length x ≤ n)%nat); [by rewrite (take_ge x)|].
  rewrite !take_app_le by len. rewrite take_take. by rewrite Nat.min_id.
Qed.

(** ** One step of a computation, by its first part *)
Lemma bind_ok {S E A B} (m : M S E A) (k : A → M S E B) s a s' :
  m s = (Ok a, s') → mbindM m k s = k a s'.
Proof. unfold mbindM. by intros ->. Qed.

Lemma bind_hang {S E A B} (m : M S E A) (k : A → M S E B) s :
  (m s).1 = Hang → (mbindM m k s).1 = Hang.
Proof. unfold mbindM. destruct (m s) as [[] ?]; cbn; congruence. Qed.

Lemma bind_panic {S E A B} (m : M S E A) (k : A → M S E B) s :
  (m s).1 = Panic → (mbindM m k s).1 = Panic.
Proof. unfold mbindM. destruct (m s) as [[] ?]; cbn; congruence. Qed.

Lemma bindM_inv {S E A B} (m : M S E A) (k : A → M S E B) s b s' :
  mbindM m k s = (Ok b, s') → ∃ a s1, m s = (Ok a, s1) ∧ k a s1 = (Ok b, s').
Proof. unfold mbindM. destruct (m s) as [[] ?]; [|done..]. eauto. Qed.

(** ** Computations that keep an invariant

    From a state with [I], the computation ends, in a state with [I] however it ends, and a value it returns
    satisfies [Q]. *)
Definition ends {E A} (Q : A → Prop) (r : res E A) : Prop :=
  match r with Ok a => Q a | Hang => False | _ => True end.

Definition keeps {S E A} (I : S → Prop) (Q : A → Prop) (m : M S E A) : Prop :=
  ∀ s, I s → I (m s).2 ∧ ends Q (m s).1.

Create HintDb keeps.

Lemma ends_add64 {E} a b : ends (in_u 64) (@add64 E a b).
Proof. unfold add64, chk. case_bool_decide; done. Qed.

Lemma ends_bind {E A B} Q (R : B → Prop) (m : res E A) (k : A → res E B) : ends Q m → (∀ a, Q a → ends R (k a)) → ends R (rbind m k).
Proof. destruct m; cbn; auto. Qed.

Section keeps.
Context {S E : Type} (I : S → Prop).

Lemma keeps_bind {A B} Q (R : B → Prop) (m : M S E A) (k : A → M S E B) :
  keeps I Q m → (∀ a, Q a → keeps I R (k a)) → keeps I R (mbindM m k).
Proof.
  intros Hm Hk s Hs. destruct (Hm s Hs) as [Hi Hq]. unfold mbindM. destruct (m s) as [[a|e| |] s']; cbn in *; [|done..].
  by apply Hk.
Qed.

Lemma keeps_ok {A} (Q : A → Prop) a : Q a → keeps I Q (mok a : M S E A).
Proof. by intros Hq s Hs. Qed.

Lemma keeps_err {A} (Q : A → Prop) e : keeps I Q (merr e : M S E A).
Proof. by intros s Hs. Qed.

Lemma keeps_lift {A} (Q : A → Prop) (r : res E A) : ends Q r → keeps I Q (mlift r).
Proof. by intros Hq s Hs. Qed.

Lemma keeps_get : keeps I I (mget : M S E S).
Proof. by intros s Hs. Qed.

Lemma keeps_put s : I s → keeps I (λ _, True) (mput s : M S E unit).
Proof. by intros Hi s' _. Qed.

Lemma keeps_mod f : (∀ s, I s → I (f s)) → keeps I (λ _, True) (mmod f : M S E unit).
Proof. intros Hf s Hs. split; [by apply Hf|done]. Qed.

Lemma keeps_zoom {T A} (J : T → Prop) (Q : A → Prop) (get : S → T) (set : T → S → S) (m : M T E A) :
  keeps J Q m → (∀ s, I s → J (get s)) → (∀ t s, I s → J t → I (set t s)) → keeps I Q (zoom get set m).
Proof.
  intros Hm Hg Hset s Hs. destruct (Hm (get s) (Hg s Hs)) as [Hj Hq]. unfold zoom. destruct (m (get s)). split; [by apply Hset|done].
Qed.

Lemma keeps_if {A} (Q : A → Prop) (b : bool) (m n : M S E A) :
  (b = true → keeps I Q m) → (b = false → keeps I Q n) → keeps I Q (if b then m else n).
Proof. destruct b; auto. Qed.
End keeps.

(** ** Loops over the state *)
Lemma mfor_app {S E A} (xs ys : list A) (body : A → M S E unit) s :
  mfor (xs ++ ys) body s = mbindM (mfor xs body) (λ _, mfor ys body) s.
Proof.
  revert s. induction xs as [|x xs IH]; intros s; [done|].
  cbn [app mfor]. unfold mbindM.
  destruct (body x s) as [[[]| | |] s']; [apply IH|done..].
Qed.

(** An invariant kept by every iteration that returns normally or fails. *)
Lemma mfor_inv {S E A} (P : S → Prop) (xs : list A) (body : A → M S E unit) s :
  (∀ x s, x ∈ xs → P s → P (body x s).2) → P s → P (mfor xs body s).2.
Proof.
  revert s. induction xs as [|x xs IH]; intros s Hb Hs; [done|].
  cbn [mfor]. unfold mbindM.
  pose proof (Hb x s ltac:(left) Hs) as H'.
  destruct (body x s) as [[[]| | |] s']; try done.
  apply IH; [|done]. intros y s0 ?. apply Hb. by right.
Qed.

(** A method of [self : X] that also uses the world [W]. *)
Definition on_world {X W E A} (m : M W E A) : M (X * W) E A := λ '(x, w),
  let '(r, w') := m w in (r, (x, w')).
Definition get_self {X W E} : M (X * W) E X := λ '(x, w), (Ok x, (x, w)).
Definition set_self {X W E} (x : X) : M (X * W) E unit := λ '(_, w), (Ok tt, (x, w)).
