(* ===== verification/Utf8.v ===== *)
(** * UTF-8 as the standard library checks it

    The decoder behind [String::from_utf8], [String::from_utf8_lossy] and
    [str::from_utf8], used by the names of galleon2 and the string tables of
    ELF files. *)

From S2P Require Import Prelude.

(** ** Steps

    One character, or one maximal invalid prefix, at the front of the bytes:
    how many bytes it takes and whether it is valid. *)
Definition between (lo hi b : Z) : bool := (lo <=? b) && (b <=? hi).
Definition is_cont (b : Z) : bool := between 0x80 0xBF b.

Definition utf8_step (bs : list Z) : nat * bool :=
  match bs with
  | [] => (0%nat, true)
  | b0 :: rest =>
      if b0 <? 0x80 then (1%nat, true)
      else if between 0xC2 0xDF b0 then
        match rest with
        | b1 :: _ => if is_cont b1 then (2%nat, true) else (1%nat, false)
        | [] => (1%nat, false)
        end
      else if between 0xE0 0xEF b0 then
        let lo := if b0 =? 0xE0 then 0xA0 else 0x80 in
        let hi := if b0 =? 0xED then 0x9F else 0xBF in
        match rest with
        | b1 :: rest =>
            if between lo hi b1 then
              match rest with
              | b2 :: _ => if is_cont b2 then (3%nat, true) else (2%nat, false)
              | [] => (2%nat, false)
              end
            else (1%nat, false)
        | [] => (1%nat, false)
        end
      else if between 0xF0 0xF4 b0 then
        let lo := if b0 =? 0xF0 then 0x90 else 0x80 in
        let hi := if b0 =? 0xF4 then 0x8F else 0xBF in
        match rest with
        | b1 :: rest =>
            if between lo hi b1 then
              match rest with
              | b2 :: rest =>
                  if is_cont b2 then
                    match rest with
                    | b3 :: _ => if is_cont b3 then (4%nat, true) else (3%nat, false)
                    | [] => (3%nat, false)
                    end
                  else (2%nat, false)
              | [] => (2%nat, false)
              end
            else (1%nat, false)
        | [] => (1%nat, false)
        end
      else (1%nat, false)
  end.

(** ** [String::from_utf8_lossy]; every step takes at least one byte *)
Fixpoint utf8_lossy (fuel : nat) (bs : list Z) : list Z :=
  match fuel, bs with
  | S fuel, _ :: _ =>
      let '(n, valid) := utf8_step bs in
      (if valid then take n bs else [0xEF; 0xBF; 0xBD]) ++ utf8_lossy fuel (drop n bs)
  | _, _ => []
  end.
Definition from_utf8_lossy (bs : list Z) : list Z := utf8_lossy (length bs) bs.

(** ** [String::from_utf8]: every step valid *)
Fixpoint utf8_valid (fuel : nat) (bs : list Z) : bool :=
  match fuel, bs with
  | S fuel, _ :: _ => let '(n, valid) := utf8_step bs in valid && utf8_valid fuel (drop n bs)
  | _, _ => true
  end.
Definition from_utf8 (bs : list Z) : option (list Z) := if utf8_valid (length bs) bs then Some bs else None.

Lemma from_utf8_lossy_ascii bs : Forall (λ b, 0 ≤ b < 128) bs → from_utf8_lossy bs = bs.
Proof.
  unfold from_utf8_lossy. induction 1 as [|b bs Hb _ IH]; [done|]. cbn [length utf8_lossy utf8_step].
  rewrite (proj2 (Z.ltb_lt b 0x80)) by lia. cbn [take drop app]. by rewrite take_0, drop_0, IH.
Qed.
