(* ===== verification/Device.v ===== *)
(** * The sector device under the filesystem

    The filesystem crate [galleon2] reaches the disk only through three
    functions of the IDE driver ([drivers/ide/src/lib.rs]):
    [ide_read_sectors], [ide_write_sectors] and [return_drive_size_bytes].
    This file states them as an interface, [SectorDev], with the laws the
    filesystem relies on, [SectorDevLaws], and gives an executable RAM disk
    that satisfies the laws, on which the witnesses are evaluated. *)

From S2P Require Import Prelude.

(** [IdeError] *)
Inductive IdeError : Type :=
  | IdeDriveNotFound
  | IdeDriveFault
  | IdeStatusError
  | IdeDataNotReady
  | IdeLbaOutOfRange
  | IdeTimeout
  | IdeInvalidParameter
  | IdeBufferTooSmall.

(** [FilesystemError] *)
Inductive FilesystemError : Type :=
  | Ide (e : IdeError)
  | InvalidBootBlock
  | DriveNotFound
  | InsufficientSpace
  | InvalidParameter
  | WriteError.

#[export] Instance IdeError_eq_dec : EqDecision IdeError.
Proof. solve_decision. Defined.
#[export] Instance FilesystemError_eq_dec : EqDecision FilesystemError.
Proof. solve_decision. Defined.

(** [impl From<IdeError> for FilesystemError], which [?] applies. *)
Definition from_ide (e : IdeError) : FilesystemError :=
  match e with
  | IdeDriveNotFound => DriveNotFound
  | _ => Ide e
  end.

(** The driver's operations on a device state [D]. A read takes the buffer the
    caller passes and returns what the buffer holds afterwards. *)
Class SectorDev (D : Type) := {
  dev_read : Z → Z → Z → list Z → D → res IdeError (list Z) * D;
  dev_write : Z → Z → Z → list Z → D → res IdeError unit * D;
  dev_size : Z → D → res IdeError Z;
}.

(** What a sector device promises, in terms of the sectors it holds.

    [sector d drive lba] is the content of a sector, [capacity d drive] the
    number of sectors of a drive that is present ([None] when it is not). *)
Class SectorDevLaws (D : Type) `{SectorDev D} := {
  sector : D → Z → Z → list Z;
  capacity : D → Z → option Z;

  sector_length d drive lba : length (sector d drive lba) = 512%nat;
  capacity_bound d drive c : capacity d drive = Some c → 0 ≤ c ≤ 2 ^ 28;

  (** a read inside the drive fills the first [n * 512] bytes of the buffer and
      keeps the disk *)
  dev_read_spec d drive n lba buf c :
    0 ≤ drive ≤ 3 → capacity d drive = Some c →
    0 < n < 256 → 0 ≤ lba → lba + n ≤ c → n * 512 ≤ zlen buf →
    ∃ d', dev_read drive n lba buf d =
          (Ok (mjoin (sector d drive <$> seqZ lba n) ++ drop (Z.to_nat (n * 512)) buf), d') ∧
          (∀ dr a, sector d' dr a = sector d dr a) ∧
          (∀ dr, capacity d' dr = capacity d dr);

  (** a write inside the drive stores the first [n * 512] bytes of the buffer,
      sector by sector, and keeps the other sectors *)
  dev_write_spec d drive n lba buf c :
    0 ≤ drive ≤ 3 → capacity d drive = Some c →
    0 < n < 256 → 0 ≤ lba → lba + n ≤ c → n * 512 ≤ zlen buf →
    ∃ d', dev_write drive n lba buf d = (Ok tt, d') ∧
          (∀ a, lba ≤ a < lba + n →
                sector d' drive a = field (Z.to_nat ((a - lba) * 512)) 512 buf) ∧
          (∀ dr a, dr ≠ drive ∨ a < lba ∨ lba + n ≤ a → sector d' dr a = sector d dr a) ∧
          (∀ dr, capacity d' dr = capacity d dr);

  (** the size in bytes, as IDENTIFY reported it *)
  dev_size_spec d drive c :
    0 ≤ drive ≤ 3 → capacity d drive = Some c → dev_size drive d = Ok (c * 512);
}.

(** The driver's calls as the filesystem makes them, with the error converted by [?]. *)
Section calls.
Context {D : Type} `{SectorDev D}.

Definition ide_read_sectors (drive n lba : Z) (buf : list Z) : M D FilesystemError (list Z) :=
  λ d, let '(r, d') := dev_read drive n lba buf d in (map_err from_ide r, d').

Definition ide_write_sectors (drive n lba : Z) (buf : list Z) : M D FilesystemError unit :=
  λ d, let '(r, d') := dev_write drive n lba buf d in (map_err from_ide r, d').

Definition return_drive_size_bytes (drive : Z) : M D FilesystemError Z :=
  λ d, (map_err from_ide (dev_size drive d), d).
End calls.

(** Reads and writes inside the drive, lifted to the filesystem's error type. *)
Section call_lemmas.
Context {D : Type} `{SectorDevLaws D}.

Lemma ide_read_sectors_spec d drive n lba buf c :
  0 ≤ drive ≤ 3 → capacity d drive = Some c →
  0 < n < 256 → 0 ≤ lba → lba + n ≤ c → n * 512 ≤ zlen buf →
  ∃ d', ide_read_sectors drive n lba buf d =
        (Ok (mjoin (sector d drive <$> seqZ lba n) ++ drop (Z.to_nat (n * 512)) buf), d') ∧
        (∀ dr a, sector d' dr a = sector d dr a) ∧
        (∀ dr, capacity d' dr = capacity d dr).
Proof.
  intros. unfold ide_read_sectors.
  edestruct dev_read_spec as (d' & -> & ?); eauto.
Qed.

Lemma ide_write_sectors_spec d drive n lba buf c :
  0 ≤ drive ≤ 3 → capacity d drive = Some c →
  0 < n < 256 → 0 ≤ lba → lba + n ≤ c → n * 512 ≤ zlen buf →
  ∃ d', ide_write_sectors drive n lba buf d = (Ok tt, d') ∧
        (∀ a, lba ≤ a < lba + n →
              sector d' drive a = field (Z.to_nat ((a - lba) * 512)) 512 buf) ∧
        (∀ dr a, dr ≠ drive ∨ a < lba ∨ lba + n ≤ a → sector d' dr a = sector d dr a) ∧
        (∀ dr, capacity d' dr = capacity d dr).
Proof.
  intros. unfold ide_write_sectors.
  edestruct dev_write_spec as (d' & -> & ?); eauto.
Qed.
End call_lemmas.

(** ** A RAM disk

    Sectors that were never written read as zeros. The argument checks are the
    driver's, in its order. *)
Record RamDisk := mkRam {
  ram_capacity : gmap Z Z;
  ram_sectors : gmap (Z * Z) (list Z);
}.

Definition ram_sector (d : RamDisk) (drive lba : Z) : list Z :=
  take 512 (default [] (ram_sectors d !! (drive, lba)) ++ zeros 512).

Definition ram_cap (d : RamDisk) (drive : Z) : option Z :=
  match ram_capacity d !! drive with
  | Some c => if bool_decide (0 ≤ c ≤ 2 ^ 28) then Some c else None
  | None => None
  end.

Fixpoint ram_store (drive lba : Z) (n : nat) (buf : list Z) (m : gmap (Z * Z) (list Z)) :
    gmap (Z * Z) (list Z) :=
  match n with
  | O => m
  | S n => <[(drive, lba) := take 512 buf]> (ram_store drive (lba + 1) n (drop 512 buf) m)
  end.

Definition ram_read (drive n lba : Z) (buf : list Z) (d : RamDisk) : res IdeError (list Z) * RamDisk :=
  if bool_decide (3 < drive) then (Err IdeInvalidParameter, d) else
  match ram_cap d drive with
  | None => (Err IdeDriveNotFound, d)
  | Some c =>
      if bool_decide (zlen buf < n * 512) then (Err IdeBufferTooSmall, d) else
      if bool_decide (lba + n ≤ c)
      then (Ok (mjoin (ram_sector d drive <$> seqZ lba n) ++ drop (Z.to_nat (n * 512)) buf), d)
      else (Err IdeStatusError, d)
  end.

Definition ram_write (drive n lba : Z) (buf : list Z) (d : RamDisk) : res IdeError unit * RamDisk :=
  if bool_decide (3 < drive) then (Err IdeInvalidParameter, d) else
  match ram_cap d drive with
  | None => (Err IdeDriveNotFound, d)
  | Some c =>
      if bool_decide (zlen buf < n * 512) then (Err IdeBufferTooSmall, d) else
      if bool_decide (2 ^ 28 ≤ lba) then (Err IdeLbaOutOfRange, d) else
      if bool_decide (lba + n ≤ c)
      then (Ok tt, mkRam (ram_capacity d) (ram_store drive lba (Z.to_nat n) buf (ram_sectors d)))
      else (Err IdeStatusError, d)
  end.

Definition ram_size (drive : Z) (d : RamDisk) : res IdeError Z :=
  match ram_cap d drive with
  | Some c => Ok (c * 512)
  | None => Err IdeDriveNotFound
  end.

#[export] Instance ram_dev : SectorDev RamDisk := {
  dev_read := ram_read;
  dev_write := ram_write;
  dev_size := ram_size;
}.

Lemma ram_store_lookup drive lba n buf m a :
  lba ≤ a < lba + Z.of_nat n →
  ram_store drive lba n buf m !! (drive, a) = Some (field (Z.to_nat ((a - lba) * 512)) 512 buf).
Proof.
  revert lba buf. induction n as [|n IH]; intros lba buf Ha; [lia|].
  cbn [ram_store]. destruct (decide (a = lba)) as [->|Hne].
  - rewrite lookup_insert_eq, Z.sub_diag. done.
  - rewrite lookup_insert_ne by congruence. rewrite IH by lia. f_equal. unfold field.
    rewrite drop_drop. do 2 f_equal. lia.
Qed.

Lemma ram_store_other drive lba n buf m dr a :
  dr ≠ drive ∨ a < lba ∨ lba + Z.of_nat n ≤ a →
  ram_store drive lba n buf m !! (dr, a) = m !! (dr, a).
Proof.
  revert lba buf. induction n as [|n IH]; intros lba buf Ha; [done|].
  cbn [ram_store]. rewrite lookup_insert_ne by (intros [= ??]; lia). apply IH. lia.
Qed.

#[export] Instance ram_laws : SectorDevLaws RamDisk.
Proof.
  refine {| sector := ram_sector; capacity := ram_cap |}.
  - intros. unfold ram_sector. len.
  - intros d drive c. unfold ram_cap. destruct (_ !! _); [|done].
    case_bool_decide; [|done]. by intros [= <-].
  - intros d drive n lba buf c ? Hc ????. exists d. split; [|done].
    cbn. unfold ram_read. rewrite Hc. by rewrite !bool_decide_eq_false_2, bool_decide_eq_true_2 by lia.
  - intros d drive n lba buf c ? Hc ????.
    eexists. split; [|split; [|split]].
    + cbn. unfold ram_write. rewrite Hc.
      assert (c ≤ 2 ^ 28).
      { revert Hc. unfold ram_cap. destruct (_ !! _); [|done].
        case_bool_decide; [|done]. intros [= <-]. lia. }
      by rewrite !bool_decide_eq_false_2, bool_decide_eq_true_2 by lia.
    + intros a Ha. unfold ram_sector. cbn [ram_sectors].
      rewrite ram_store_lookup by lia. cbn [from_option id].
      rewrite take_app_le by (rewrite length_field; unfold zlen in *; lia).
      apply take_ge. rewrite length_field; unfold zlen in *; lia.
    + intros dr a Ha. unfold ram_sector. cbn [ram_sectors]. by rewrite ram_store_other by lia.
    + done.
  - intros d drive c _ Hc. cbn. unfold ram_size. by rewrite Hc.
Defined.

(** ** Runs of sectors *)

(** Two device states with the same sectors. *)
Definition same_disk {D} `{SectorDevLaws D} (d d' : D) : Prop :=
  (∀ dr a, sector d' dr a = sector d dr a) ∧ (∀ dr, capacity d' dr = capacity d dr).

(** Only the sectors [lba .. lba + n] of [drive] may differ. *)
Definition only_sectors {D} `{SectorDevLaws D} (drive lba n : Z) (d d' : D) : Prop :=
  (∀ dr a, dr ≠ drive ∨ a < lba ∨ lba + n ≤ a → sector d' dr a = sector d dr a) ∧
  (∀ dr, capacity d' dr = capacity d dr).

(** The bytes of [n] sectors from [lba] on. *)
Definition sectors_at {D} `{SectorDevLaws D} (d : D) (drive lba n : Z) : list Z :=
  mjoin (sector d drive <$> seqZ lba n).

(** The sectors lie inside a drive that is present. *)
Definition on_drive {D} `{SectorDevLaws D} (d : D) (drive lba n : Z) : Prop :=
  0 ≤ drive ≤ 3 ∧ 0 ≤ lba ∧ ∃ c, capacity d drive = Some c ∧ lba + n ≤ c.

Section sector_runs.
Context {D : Type} `{SectorDevLaws D}.
Implicit Types d : D.

#[global] Instance same_disk_preorder : PreOrder (same_disk (D:=D)).
Proof. split; [by split|]. intros x y z [] []. split; congruence. Qed.

#[global] Instance only_sectors_preorder drive lba n : PreOrder (only_sectors (D:=D) drive lba n).
Proof.
  split; [by split|]. intros x y z [Hs Hc] [Hs' Hc']. split; [|congruence].
  intros dr a Ha. rewrite Hs', Hs; done.
Qed.

Lemma same_disk_only drive lba n d d' : same_disk d d' → only_sectors drive lba n d d'.
Proof. intros [Hs Hc]. split; auto. Qed.

Lemma length_sectors d dr l : length (mjoin (sector d dr <$> l)) = (length l * 512)%nat.
Proof.
  induction l as [|a l IH]; [done|]. rewrite join_fmap_cons, length_app, IH, sector_length. cbn. lia.
Qed.

Lemma length_sectors_at d dr lba n : 0 ≤ n → zlen (sectors_at d dr lba n) = n * 512.
Proof. intros Hn. unfold zlen, sectors_at. rewrite length_sectors, length_seqZ. lia. Qed.

Lemma same_disk_sectors d d' dr l :
  same_disk d d' → mjoin (sector d' dr <$> l) = mjoin (sector d dr <$> l).
Proof. intros [Hs _]. f_equal. apply list_fmap_ext. auto. Qed.

Lemma sectors_at_same d d' dr lba n : same_disk d d' → sectors_at d' dr lba n = sectors_at d dr lba n.
Proof. apply same_disk_sectors. Qed.

Lemma sectors_at_other d d' drive lba n dr lba' n' :
  only_sectors drive lba n d d' → dr ≠ drive ∨ lba' + n' ≤ lba ∨ lba + n ≤ lba' →
  sectors_at d' dr lba' n' = sectors_at d dr lba' n'.
Proof.
  intros [Hs _] Hout. unfold sectors_at. f_equal. apply list_fmap_ext. intros i a Ha.
  apply list_elem_of_lookup_2, elem_of_seqZ in Ha. apply Hs. lia.
Qed.

Lemma on_drive_only drive lba n d d' dr a k :
  only_sectors drive lba n d d' → on_drive d dr a k → on_drive d' dr a k.
Proof. intros [_ Hc] (? & ? & c & ? & ?). split_and!; try lia. exists c. by rewrite Hc. Qed.

Lemma on_drive_same d d' dr a k : same_disk d d' → on_drive d dr a k → on_drive d' dr a k.
Proof. intros [_ Hc] (? & ? & c & ? & ?). split_and!; try lia. exists c. by rewrite Hc. Qed.

(** Sectors [a .. a + n] hold, one after the other, the bytes they were written from. *)
Lemma sectors_written d dr n : ∀ a bm,
  length bm = (n * 512)%nat →
  (∀ x, a ≤ x < a + Z.of_nat n → sector d dr x = field (Z.to_nat ((x - a) * 512)) 512 bm) →
  mjoin (sector d dr <$> seqZ a (Z.of_nat n)) = bm.
Proof.
  induction n as [|n IH]; intros a bm Hl Hs.
  - destruct bm; [done|]. cbn in Hl. lia.
  - rewrite seqZ_cons by lia. rewrite join_fmap_cons.
    rewrite (Hs a) by lia. replace (Z.pred (Z.of_nat (S n))) with (Z.of_nat n) by lia.
    rewrite (IH (Z.succ a) (drop 512 bm)).
    + rewrite Z.sub_diag. unfold field. apply take_drop.
    + rewrite length_drop. lia.
    + intros x Hx. rewrite Hs by lia. unfold field. rewrite drop_drop. do 2 f_equal. lia.
Qed.

(** Reading and writing a buffer of exactly [n] sectors. *)
Lemma read_exact d drive n lba buf :
  on_drive d drive lba n → 0 < n < 256 → zlen buf = n * 512 →
  ∃ d', ide_read_sectors drive n lba buf d = (Ok (sectors_at d drive lba n), d') ∧ same_disk d d'.
Proof.
  intros (Hd & Hl & c & Hc & Hin) Hn Hb.
  destruct (ide_read_sectors_spec d drive n lba buf c) as (d' & E & Hs); try done; try lia.
  exists d'. split; [|done]. rewrite E, drop_ge, app_nil_r; [done|]. unfold zlen in Hb. lia.
Qed.

Lemma write_exact d drive n lba buf :
  on_drive d drive lba n → 0 < n < 256 → zlen buf = n * 512 →
  ∃ d', ide_write_sectors drive n lba buf d = (Ok tt, d') ∧
    sectors_at d' drive lba n = buf ∧ only_sectors drive lba n d d'.
Proof.
  intros (Hd & Hl & c & Hc & Hin) Hn Hb.
  destruct (ide_write_sectors_spec d drive n lba buf c) as (d' & E & Hw & Ho & Hcap); try done; try lia.
  exists d'. split; [done|]. split; [|done]. unfold zlen in Hb.
  pose proof (sectors_written d' drive (Z.to_nat n) lba buf) as Hsw.
  rewrite Z2Nat.id in Hsw by lia. apply Hsw; [lia|]. intros x Hx. apply Hw. lia.
Qed.
End sector_runs.

(** ** The world

    The device, and the counters the crate keeps in [static mut] variables:
    [NEXT_RECORD] of [MftManager::allocate_record], [NEXT_VCN] of
    [BTreeManager::allocate_vcn] and [COUNTER] of the journal's
    [get_timestamp]. *)
Record World (D : Type) := mkWorld {
  w_dev : D;
  w_next_record : Z;
  w_next_vcn : Z;
  w_counter : Z;
}.
Arguments mkWorld {D} _ _ _ _.
Arguments w_dev {D} _.
Arguments w_next_record {D} _.
Arguments w_next_vcn {D} _.
Arguments w_counter {D} _.

Definition w_set_dev {D} (d : D) (w : World D) : World D :=
  mkWorld d (w_next_record w) (w_next_vcn w) (w_counter w).

(** A call on the device. *)
Definition on_dev {D E A} (m : M D E A) : M (World D) E A := λ w,
  let '(r, d') := m (w_dev w) in (r, w_set_dev d' w).

(** The values the statics are initialised with. *)
Definition boot_world {D} (d : D) : World D := mkWorld d 16 1 0.
