(* ===== verification/Runs.v ===== *)
(** * Cluster runs and run lists ([crates/galleon2/src/allocation.rs])

    [ClusterRun] is a contiguous range of clusters, [RunList] the extents of a
    file. The operations are translated with Rust's overflow checks, so a panic
    is a result; the lemmas say when there is none. *)

From S2P Require Import Prelude Device.

Abbreviation fsres := (res FilesystemError).

Definition CLUSTER_SIZE : Z := 4096.
Definition SECTORS_PER_CLUSTER : Z := CLUSTER_SIZE / 512.

(** ** [ClusterRun] *)
Record ClusterRun := mkRun { start_cluster : Z; cluster_count : Z }.

#[export] Instance ClusterRun_eq_dec : EqDecision ClusterRun.
Proof. solve_decision. Defined.

Definition end_cluster (r : ClusterRun) : fsres Z :=
  let? s := add64 (start_cluster r) (cluster_count r) in sub64 s 1.

Definition contains_cluster (r : ClusterRun) (cluster : Z) : fsres bool :=
  if bool_decide (start_cluster r ≤ cluster)
  then let? e := end_cluster r in Ok (bool_decide (cluster ≤ e))
  else Ok false.

Definition overlaps (r other : ClusterRun) : fsres bool :=
  let? e := end_cluster r in
  if bool_decide (e < start_cluster other) then Ok false
  else let? oe := end_cluster other in Ok (negb (bool_decide (oe < start_cluster r))).

Definition can_merge (r other : ClusterRun) : fsres bool :=
  let? e := end_cluster r in
  let? e1 := add64 e 1 in
  if bool_decide (e1 = start_cluster other) then Ok true
  else let? oe := end_cluster other in
       let? oe1 := add64 oe 1 in
       Ok (bool_decide (oe1 = start_cluster r)).

Definition merge (r other : ClusterRun) : fsres (option ClusterRun) :=
  let? can := can_merge r other in
  if can : bool then
    let start := Z.min (start_cluster r) (start_cluster other) in
    let? e := end_cluster r in
    let? oe := end_cluster other in
    let? d := sub64 (Z.max e oe) start in
    let? count := add64 d 1 in
    Ok (Some (mkRun start count))
  else Ok None.

(** ** [RunList] *)
Record RunList := mkRunList { runs : list ClusterRun; total_clusters : Z }.

Definition run_list_new : RunList := mkRunList [] 0.

(** [sort_by_key(|r| r.start_cluster)], a stable sort. *)
Fixpoint insert_by_key (r : ClusterRun) (l : list ClusterRun) : list ClusterRun :=
  match l with
  | [] => [r]
  | x :: l' => if bool_decide (start_cluster r ≤ start_cluster x) then r :: l
               else x :: insert_by_key r l'
  end.
Definition sort_by_key (l : list ClusterRun) : list ClusterRun := foldr insert_by_key [] l.

(** One iteration of the merging loop: into the last merged run, or after it. *)
Definition merge_into (merged : list ClusterRun) (run : ClusterRun) : fsres (list ClusterRun) :=
  match last merged with
  | Some l =>
      let? m := merge l run in
      match m with
      | Some merged_run => Ok (removelast merged ++ [merged_run])
      | None => Ok (merged ++ [run])
      end
  | None => Ok (merged ++ [run])
  end.

Fixpoint merge_runs (merged l : list ClusterRun) : fsres (list ClusterRun) :=
  match l with
  | [] => Ok merged
  | run :: l => let? merged' := merge_into merged run in merge_runs merged' l
  end.

Definition sort_and_merge (rl : RunList) : fsres RunList :=
  let? merged := merge_runs [] (sort_by_key (runs rl)) in
  Ok (mkRunList merged (total_clusters rl)).

Definition add_run (rl : RunList) (run : ClusterRun) : fsres RunList :=
  let? total := add64 (total_clusters rl) (cluster_count run) in
  sort_and_merge (mkRunList (runs rl ++ [run]) total).

Definition remove_run (rl : RunList) (run : ClusterRun) : fsres (RunList * bool) :=
  match find_index (λ r, bool_decide (r = run)) (runs rl) with
  | Some pos =>
      let? total := sub64 (total_clusters rl) (cluster_count run) in
      Ok (mkRunList (take pos (runs rl) ++ drop (S pos) (runs rl)) total, true)
  | None => Ok (rl, false)
  end.

(** [find_cluster]: the loop with its running [vcn]. *)
Fixpoint find_cluster_from (vcn : Z) (l : list ClusterRun) (virtual_cluster : Z) : fsres (option Z) :=
  match l with
  | [] => Ok None
  | run :: l =>
      let? next := add64 vcn (cluster_count run) in
      if bool_decide (vcn ≤ virtual_cluster < next)
      then let? c := add64 (start_cluster run) (virtual_cluster - vcn) in Ok (Some c)
      else find_cluster_from next l virtual_cluster
  end.
Definition find_cluster (rl : RunList) (virtual_cluster : Z) : fsres (option Z) :=
  find_cluster_from 0 (runs rl) virtual_cluster.

Definition get_total_size (rl : RunList) : fsres Z := mul64 (total_clusters rl) CLUSTER_SIZE.

Definition run_bytes (r : ClusterRun) : list Z :=
  le_bytes 8 (start_cluster r) ++ le_bytes 8 (cluster_count r).

Definition run_list_serialize (rl : RunList) : list Z :=
  le_bytes 4 (as_u32 (zlen (runs rl))) ++ mjoin (run_bytes <$> runs rl).

(** The reading loop, [i] from the number of runs already read; the length was
    checked, so the slices are inside. *)
Fixpoint read_runs (data : list Z) (i n : nat) (acc : list ClusterRun) (total : Z) :
    fsres (list ClusterRun * Z) :=
  match n with
  | O => Ok (acc, total)
  | S n =>
      let offset := (4 + i * 16)%nat in
      let start := le_dec (field offset 8 data) in
      let count := le_dec (field (offset + 8) 8 data) in
      let? total' := add64 total count in
      read_runs data (S i) n (acc ++ [mkRun start count]) total'
  end.

Definition run_list_deserialize (data : list Z) : fsres RunList :=
  if bool_decide (zlen data < 4) then Err InvalidParameter else
  let run_count := le_dec (field 0 4 data) in
  if bool_decide (zlen data < 4 + run_count * 16) then Err InvalidParameter else
  let? (rs, total) := read_runs data 0 (Z.to_nat run_count) [] 0 in
  Ok (mkRunList rs total).

(** ** What the runs denote *)

(** A run whose clusters are all 64-bit cluster numbers, and the clusters it covers. *)
Definition run_ok (r : ClusterRun) : Prop :=
  0 ≤ start_cluster r ∧ 0 < cluster_count r ∧ start_cluster r + cluster_count r < 2 ^ 64.
Definition in_run (r : ClusterRun) (c : Z) : Prop :=
  start_cluster r ≤ c < start_cluster r + cluster_count r.
Definition in_runs (l : list ClusterRun) (c : Z) : Prop := Exists (λ r, in_run r c) l.
Definition run_clusters (r : ClusterRun) : list Z := seqZ (start_cluster r) (cluster_count r).

Definition sum_counts (l : list ClusterRun) : Z := foldr (λ r n, cluster_count r + n) 0 l.

(** Sorted runs that neither touch nor overlap: the normal form of a run list. *)
Fixpoint separated (lo : Z) (l : list ClusterRun) : Prop :=
  match l with
  | [] => True
  | r :: l => lo < start_cluster r ∧ run_ok r ∧ separated (start_cluster r + cluster_count r) l
  end.

Definition runlist_inv (rl : RunList) : Prop :=
  separated (-1) (runs rl) ∧ total_clusters rl = sum_counts (runs rl).

Definition disjoint_runs (a b : ClusterRun) : Prop := ∀ c, ¬ (in_run a c ∧ in_run b c).

(** ** Lemmas *)

Definition run_end (r : ClusterRun) : Z := start_cluster r + cluster_count r.

Ltac runs_unfold := unfold run_ok, in_run, run_end in *; cbn [start_cluster cluster_count] in *.

Lemma end_cluster_ok r : run_ok r → end_cluster r = Ok (run_end r - 1).
Proof.
  runs_unfold. intros. unfold end_cluster, add64, sub64.
  rewrite chk_ok by lia. cbn [rbind]. by rewrite chk_ok by lia.
Qed.

Lemma contains_cluster_ok r c :
  run_ok r → contains_cluster r c = Ok (bool_decide (in_run r c)).
Proof.
  intros Hr. unfold contains_cluster. rewrite end_cluster_ok by done. cbn [rbind].
  runs_unfold. repeat case_bool_decide; try done; lia.
Qed.

Lemma overlaps_ok a b :
  run_ok a → run_ok b →
  overlaps a b = Ok (bool_decide (start_cluster b < run_end a ∧ start_cluster a < run_end b)).
Proof.
  intros Ha Hb. unfold overlaps. rewrite !end_cluster_ok by done. cbn [rbind].
  runs_unfold. repeat case_bool_decide; try done; lia.
Qed.

Lemma can_merge_ok a b :
  run_ok a → run_ok b →
  can_merge a b = Ok (bool_decide (run_end a = start_cluster b ∨ run_end b = start_cluster a)).
Proof.
  intros Ha Hb. unfold can_merge, add64. rewrite !end_cluster_ok by done. cbn [rbind].
  runs_unfold. rewrite !chk_ok by lia. cbn [rbind].
  repeat case_bool_decide; try done; lia.
Qed.

Lemma merge_ok a b :
  run_ok a → run_ok b →
  merge a b = Ok (if bool_decide (run_end a = start_cluster b ∨ run_end b = start_cluster a)
                  then Some (mkRun (Z.min (start_cluster a) (start_cluster b))
                                   (cluster_count a + cluster_count b))
                  else None).
Proof.
  intros Ha Hb. unfold merge, add64, sub64.
  rewrite can_merge_ok, !end_cluster_ok by done. cbn [rbind].
  case_bool_decide as Hadj; [|done].
  runs_unfold. rewrite !chk_ok by lia. cbn [rbind]. rewrite chk_ok by lia. cbn [rbind].
  do 3 f_equal. lia.
Qed.

(** Sorted runs that do not overlap but may touch: a list before merging. *)
Fixpoint sorted_disjoint (lo : Z) (l : list ClusterRun) : Prop :=
  match l with
  | [] => True
  | r :: l => lo ≤ start_cluster r ∧ run_ok r ∧ sorted_disjoint (run_end r) l
  end.

Lemma separated_weaken lo lo' l : lo' ≤ lo → separated lo l → separated lo' l.
Proof. destruct l; cbn; [done|]. intros ? (?&?&?). split_and!; auto; lia. Qed.

Lemma separated_sorted lo l : separated lo l → sorted_disjoint (lo + 1) l.
Proof.
  revert lo. induction l as [|r l IH]; intros lo; cbn; [done|]. intros (?&?&Hl).
  split_and!; [lia|done|]. apply IH in Hl. destruct l; cbn in *; [done|].
  destruct Hl as (?&?&?). unfold run_end. split_and!; auto; lia.
Qed.

Lemma separated_snoc lo l r x :
  separated lo (l ++ [r]) → run_ok x → run_end r < start_cluster x →
  separated lo (l ++ [r; x]).
Proof.
  revert lo. induction l as [|y l IH]; intros lo; cbn.
  - intros (?&?&_) ??. unfold run_end in *. split_and!; auto.
  - intros (?&?&?) ??. split_and!; auto.
Qed.

Lemma separated_extend lo l r n :
  separated lo (l ++ [r]) → 0 ≤ n → run_end r + n < 2 ^ 64 →
  separated lo (l ++ [mkRun (start_cluster r) (cluster_count r + n)]).
Proof.
  revert lo. induction l as [|y l IH]; intros lo; cbn.
  - intros (?&?&_) ??. runs_unfold. split_and!; auto; lia.
  - intros (?&?&?) ??. split_and!; auto.
Qed.

Lemma separated_last_ok lo l r : separated lo (l ++ [r]) → run_ok r.
Proof. revert lo. induction l as [|y l IH]; intros lo; cbn; intros (?&?&?); eauto. Qed.

Lemma sum_counts_nil : sum_counts [] = 0.
Proof. done. Qed.
Lemma sum_counts_cons r l : sum_counts (r :: l) = cluster_count r + sum_counts l.
Proof. done. Qed.
Lemma sum_counts_app l k : sum_counts (l ++ k) = sum_counts l + sum_counts k.
Proof. induction l as [|r l IH]; [done|]. cbn [app]. rewrite !sum_counts_cons, IH. lia. Qed.

Lemma in_runs_app l k c : in_runs (l ++ k) c ↔ in_runs l c ∨ in_runs k c.
Proof. apply Exists_app. Qed.
Lemma in_runs_cons r l c : in_runs (r :: l) c ↔ in_run r c ∨ in_runs l c.
Proof. apply Exists_cons. Qed.
Lemma in_runs_nil c : in_runs [] c ↔ False.
Proof. apply Exists_nil. Qed.

(** The merging loop puts a sorted list in normal form and keeps what it covers. *)
Lemma merge_runs_spec rest : ∀ lo pre l,
  separated lo (pre ++ [l]) → sorted_disjoint (run_end l) rest →
  ∃ out, merge_runs (pre ++ [l]) rest = Ok out ∧ separated lo out ∧
         (∀ c, in_runs out c ↔ in_runs (pre ++ [l]) c ∨ in_runs rest c) ∧
         sum_counts out = sum_counts (pre ++ [l]) + sum_counts rest.
Proof.
  induction rest as [|x rest IH]; intros lo pre l Hs Hr.
  - exists (pre ++ [l]). cbn. split_and!; auto; [|lia].
    intros c. rewrite in_runs_nil. tauto.
  - destruct Hr as (Hx & Hxok & Hr). pose proof (separated_last_ok _ _ _ Hs) as Hl.
    cbn [merge_runs]. unfold merge_into. rewrite last_snoc, removelast_last.
    rewrite merge_ok by done. cbn [rbind]. case_bool_decide as Hadj; cbn [rbind].
    + assert (run_end l = start_cluster x) as Hlx by (runs_unfold; lia).
      replace (Z.min _ _) with (start_cluster l) by (runs_unfold; lia).
      destruct (IH lo pre (mkRun (start_cluster l) (cluster_count l + cluster_count x)))
        as (out & -> & ? & Hin & Hsum).
      * apply separated_extend; [done|runs_unfold; lia..].
      * replace (run_end (mkRun _ _)) with (run_end x) by (runs_unfold; lia). done.
      * exists out. split_and!; auto.
        -- intros c. rewrite Hin, !in_runs_app, !in_runs_cons, !in_runs_nil.
           assert (in_run (mkRun (start_cluster l) (cluster_count l + cluster_count x)) c
                   ↔ in_run l c ∨ in_run x c) as -> by (runs_unfold; lia). tauto.
        -- rewrite Hsum, !sum_counts_app, !sum_counts_cons, !sum_counts_nil. cbn [cluster_count]. lia.
    + rewrite <-app_assoc. cbn [app].
      replace (pre ++ [l; x]) with ((pre ++ [l]) ++ [x]) by (by rewrite <-app_assoc).
      destruct (IH lo (pre ++ [l]) x) as (out & -> & ? & Hin & Hsum); [|done|].
      { rewrite <-app_assoc. apply separated_snoc; [done..|]. lia. }
      exists out. split_and!; auto.
      * intros c. rewrite Hin, !in_runs_app, !in_runs_cons, !in_runs_nil. tauto.
      * rewrite Hsum, !sum_counts_app, !sum_counts_cons, !sum_counts_nil. cbn [cluster_count]. lia.
Qed.

(** Where the stable sort puts a run appended to a list in normal form. *)
Fixpoint place (r : ClusterRun) (l : list ClusterRun) : list ClusterRun :=
  match l with
  | [] => [r]
  | x :: l' => if bool_decide (start_cluster x ≤ start_cluster r) then x :: place r l' else r :: l
  end.

Lemma sorted_disjoint_weaken lo lo' l : lo' ≤ lo → sorted_disjoint lo l → sorted_disjoint lo' l.
Proof. destruct l; cbn; [done|]. intros ? (?&?&?). split_and!; auto; lia. Qed.

Lemma sort_by_key_snoc lo l r :
  sorted_disjoint lo l → sort_by_key (l ++ [r]) = place r l.
Proof.
  unfold sort_by_key. rewrite foldr_app. cbn [foldr insert_by_key].
  revert lo. induction l as [|x l IH]; intros lo; cbn [foldr sorted_disjoint place]; [done|].
  intros (_ & Hx & Hl). rewrite (IH _ Hl).
  case_bool_decide as Hxr.
  - destruct l as [|y l]; cbn.
    + by rewrite bool_decide_eq_true_2 by lia.
    + destruct Hl as (?&?&?). case_bool_decide; cbn.
      * rewrite bool_decide_eq_true_2; [done|]. runs_unfold; lia.
      * by rewrite bool_decide_eq_true_2.
  - assert (place r l = r :: l) as ->.
    { destruct l as [|y l]; [done|]. cbn. destruct Hl as (?&?&?).
      rewrite bool_decide_eq_false_2; [done|]. runs_unfold; lia. }
    cbn. rewrite bool_decide_eq_false_2 by lia. f_equal.
    destruct l as [|y l]; [done|]. cbn. destruct Hl as (?&?&?).
    rewrite bool_decide_eq_true_2; [done|]. runs_unfold; lia.
Qed.

(** Runs that share no cluster lie on one side of each other. *)
Lemma disjoint_runs_sides a b :
  run_ok a → run_ok b → disjoint_runs a b →
  run_end a ≤ start_cluster b ∨ run_end b ≤ start_cluster a.
Proof.
  intros Ha Hb Hd. destruct (decide (run_end a ≤ start_cluster b)); [by left|].
  right. destruct (decide (run_end b ≤ start_cluster a)); [done|].
  exfalso. apply (Hd (Z.max (start_cluster a) (start_cluster b))). runs_unfold; lia.
Qed.

Lemma place_spec lo r l :
  sorted_disjoint lo l → lo ≤ start_cluster r → run_ok r → Forall (disjoint_runs r) l →
  sorted_disjoint lo (place r l) ∧ (∀ c, in_runs (place r l) c ↔ in_runs l c ∨ in_run r c) ∧
  sum_counts (place r l) = sum_counts l + cluster_count r.
Proof.
  revert lo. induction l as [|x l IH]; intros lo Hl Hlo Hr Hd; cbn [place].
  - split_and!; cbn; auto.
    + intros c. rewrite in_runs_cons, in_runs_nil. tauto.
    + lia.
  - destruct Hl as (? & Hx & Hl). inversion Hd as [|?? Hdx Hdl]; subst.
    apply disjoint_runs_sides in Hdx; [|done..].
    case_bool_decide.
    + destruct (IH (run_end x)) as (Hs & Hin & Hsum); [done|runs_unfold; lia|done..|].
      split_and!; [by split_and!| |].
      * intros c. rewrite !in_runs_cons, Hin. tauto.
      * rewrite !sum_counts_cons, Hsum. lia.
    + split_and!; [|intros c; rewrite !in_runs_cons; tauto
                   |rewrite !sum_counts_cons; lia].
      cbn. split_and!; auto. runs_unfold; lia.
Qed.

Lemma sorted_disjoint_sum lo l :
  sorted_disjoint lo l → 0 ≤ sum_counts l ∧ (l ≠ [] → lo + sum_counts l < 2 ^ 64).
Proof.
  revert lo. induction l as [|r l IH]; intros lo; [done|].
  cbn [sorted_disjoint]. intros (? & Hr & Hl). apply IH in Hl as [? Hb].
  rewrite sum_counts_cons. split; [runs_unfold; lia|]. intros _.
  destruct l as [|y l]; [rewrite sum_counts_nil; runs_unfold; lia|].
  specialize (Hb ltac:(done)). runs_unfold; lia.
Qed.

Lemma separated_Forall lo l : separated lo l → Forall run_ok l.
Proof. revert lo. induction l as [|r l IH]; intros lo; cbn; [done|]. intros (?&?&?). eauto. Qed.

Lemma add_run_ok rl run :
  runlist_inv rl → run_ok run → Forall (disjoint_runs run) (runs rl) →
  ∃ rl', add_run rl run = Ok rl' ∧ runlist_inv rl' ∧
         (∀ c, in_runs (runs rl') c ↔ in_runs (runs rl) c ∨ in_run run c) ∧
         total_clusters rl' = total_clusters rl + cluster_count run.
Proof.
  intros [Hs Ht] Hr Hd. apply separated_sorted in Hs. change (-1 + 1) with 0 in Hs.
  destruct (place_spec 0 run (runs rl)) as (Hp & Hin & Hsum); [done|runs_unfold; lia|done..|].
  destruct (sorted_disjoint_sum _ _ Hp) as [? Hb].
  destruct (place run (runs rl)) as [|x p] eqn:Ep.
  { destruct (runs rl); cbn in Ep; [done|]. case_bool_decide; done. }
  specialize (Hb ltac:(done)).
  pose proof (sorted_disjoint_sum _ _ Hs) as [? _].
  unfold add_run, add64. rewrite chk_ok by (runs_unfold; lia). cbn [rbind].
  unfold sort_and_merge. cbn [runs total_clusters].
  rewrite (sort_by_key_snoc 0) by done. rewrite Ep.
  cbn [merge_runs]. unfold merge_into at 1. cbn [last app rbind].
  destruct Hp as (? & Hxok & Hp).
  destruct (merge_runs_spec p (-1) [] x) as (out & Hm & ? & Hino & Hsumo); [|done|].
  { cbn. split_and!; auto. lia. }
  cbn [app] in Hm. rewrite Hm. cbn [rbind].
  eexists. split; [done|]. unfold runlist_inv. cbn [runs total_clusters]. split_and!; auto.
  - rewrite Hsumo, sum_counts_app. cbn [app]. rewrite sum_counts_nil.
    rewrite sum_counts_cons in Hsum. rewrite sum_counts_cons, sum_counts_nil. lia.
  - intros c. rewrite Hino, <-Hin. cbn [app]. rewrite !in_runs_cons, in_runs_nil. tauto.
Qed.

Lemma separated_remove lo l i r :
  separated lo l → l !! i = Some r →
  separated lo (take i l ++ drop (S i) l) ∧
  (∀ c, in_runs (take i l ++ drop (S i) l) c ↔ in_runs l c ∧ ¬ in_run r c) ∧
  sum_counts l = sum_counts (take i l ++ drop (S i) l) + cluster_count r.
Proof.
  revert lo i. induction l as [|x l IH]; intros lo i Hs Hi; [done|].
  destruct Hs as (? & Hx & Hl).
  assert (∀ lo c, separated lo l → in_runs l c → lo < c) as Hlow.
  { clear. induction l as [|y l IH]; intros lo c; cbn [separated].
    - by rewrite in_runs_nil.
    - intros (? & Hy & Hl). rewrite in_runs_cons. intros [|Hc]; [runs_unfold; lia|].
      apply (IH _ _ Hl) in Hc. runs_unfold; lia. }
  destruct i as [|i]; cbn in Hi; [injection Hi as ->|].
  - cbn [take drop app]. rewrite drop_0. split_and!.
    + eapply separated_weaken; [|done]. runs_unfold; lia.
    + intros c. rewrite in_runs_cons. pose proof (Hlow _ c Hl) as Hc. runs_unfold.
      split; [intros Hin; split; [by right|]; apply Hc in Hin; lia|].
      intros [[?|?] ?]; [lia|done].
    + rewrite sum_counts_cons. lia.
  - cbn [take drop app]. destruct (IH _ _ Hl Hi) as (Hs & Hin & Hsum). split_and!.
    + by split_and!.
    + intros c. rewrite !in_runs_cons, Hin. pose proof (Hlow _ c Hl) as Hc.
      assert (in_run r c → in_runs l c) as Hrl.
      { intros Hrc. apply Exists_exists. exists r. split; [|done].
        by eapply list_elem_of_lookup_2. }
      split; [intros [Hxc|[? ?]]|intros [[?|?] ?]]; try tauto.
      split; [by left|]. intros Hrc. apply Hrl, Hc in Hrc. runs_unfold; lia.
    + rewrite !sum_counts_cons, Hsum. lia.
Qed.

Lemma remove_run_ok rl run :
  runlist_inv rl →
  ∃ rl' b, remove_run rl run = Ok (rl', b) ∧ runlist_inv rl' ∧
    (b = true → run ∈ runs rl ∧ ∀ c, in_runs (runs rl') c ↔ in_runs (runs rl) c ∧ ¬ in_run run c) ∧
    (b = false → rl' = rl ∧ run ∉ runs rl).
Proof.
  intros [Hs Ht]. unfold remove_run.
  destruct (find_index _ _) as [i|] eqn:Ei.
  - apply find_index_Some in Ei as (r & Hi & Hr). apply bool_decide_eq_true in Hr. subst r.
    destruct (separated_remove _ _ _ _ Hs Hi) as (Hs' & Hin & Hsum).
    pose proof (separated_sorted _ _ Hs) as Hd. pose proof (separated_sorted _ _ Hs') as Hd'.
    apply sorted_disjoint_sum in Hd as [? Hb]. apply sorted_disjoint_sum in Hd' as [? _].
    assert (runs rl ≠ []) as Hne by (intros E; by rewrite E in Hi). specialize (Hb Hne).
    assert (run_ok run) as Hr.
    { apply separated_Forall in Hs. rewrite Forall_lookup in Hs. eauto. }
    unfold sub64. rewrite chk_ok by (runs_unfold; lia). cbn [rbind].
    eexists _, true. split; [done|]. unfold runlist_inv. cbn [runs total_clusters].
    split_and!; [done|lia| |done]. intros _. split; [by eapply list_elem_of_lookup_2|done].
  - exists rl, false. split; [done|]. split; [by split|]. split; [done|]. intros _. split; [done|].
    intros Hin. clear -Ei Hin. induction (runs rl) as [|x l IH]; [by apply not_elem_of_nil in Hin|].
    cbn in Ei. case_bool_decide as E; [done|].
    apply elem_of_cons in Hin as [->|Hin]; [done|].
    destruct (find_index _ l) eqn:El; [done|]. by apply IH.
Qed.

(** The virtual-to-physical map as a list: the clusters of the runs, in order. *)
Lemma find_cluster_from_ok l : ∀ lo vcn v,
  sorted_disjoint lo l → 0 ≤ vcn → vcn + sum_counts l < 2 ^ 64 → vcn ≤ v →
  find_cluster_from vcn l v = Ok (mjoin (run_clusters <$> l) !! Z.to_nat (v - vcn)).
Proof.
  induction l as [|r l IH]; intros lo vcn v Hl Hv Hsum Hle; [done|].
  destruct Hl as (? & Hr & Hl). rewrite sum_counts_cons in Hsum.
  pose proof (sorted_disjoint_sum _ _ Hl) as [? _].
  cbn [find_cluster_from]. unfold add64 at 1. rewrite chk_ok by (runs_unfold; lia). cbn [rbind].
  rewrite join_fmap_cons. unfold run_clusters at 1.
  assert (0 ≤ cluster_count r) by (runs_unfold; lia).
  case_bool_decide as Hin.
  - unfold add64. rewrite chk_ok by (runs_unfold; lia). cbn [rbind].
    rewrite lookup_app_l by (rewrite length_seqZ; lia).
    rewrite lookup_seqZ_lt by lia. do 2 f_equal. lia.
  - rewrite (IH (run_end r)) by (try done; runs_unfold; lia). f_equal.
    rewrite lookup_app_r by (rewrite length_seqZ; lia). f_equal. rewrite length_seqZ. lia.
Qed.

(** ** Serialization *)
Definition u64_run (r : ClusterRun) : Prop := in_u 64 (start_cluster r) ∧ in_u 64 (cluster_count r).

Lemma length_run_bytes r : length (run_bytes r) = 16%nat.
Proof. unfold run_bytes. len. Qed.

Lemma length_runs_bytes l : length (mjoin (run_bytes <$> l)) = (16 * length l)%nat.
Proof.
  induction l as [|r l IH]; [done|]. rewrite join_fmap_cons, length_app, length_run_bytes, IH. len.
Qed.
#[export] Hint Rewrite length_run_bytes length_runs_bytes : len.

(** Reading the fields of the [i]-th run of a serialized list. *)
Lemma field_runs_bytes (pre : list ClusterRun) r post o n hd tl :
  length hd = 4%nat → (o + n ≤ 16)%nat →
  field (4 + length pre * 16 + o) n (hd ++ mjoin (run_bytes <$> (pre ++ r :: post)) ++ tl) =
  field o n (run_bytes r).
Proof.
  intros Hh Ho. rewrite field_app_skip by lia.
  rewrite fmap_app, join_app. rewrite <-!app_assoc.
  rewrite field_app_skip by len. rewrite join_fmap_cons, <-app_assoc.
  rewrite field_app_l by len. f_equal. len.
Qed.

Lemma run_bytes_start r : u64_run r → le_dec (field 0 8 (run_bytes r)) = start_cluster r.
Proof. intros [H _]. unfold run_bytes. fields. by apply le_dec_bytes. Qed.
Lemma run_bytes_count r : u64_run r → le_dec (field 8 8 (run_bytes r)) = cluster_count r.
Proof. intros [_ H]. unfold run_bytes. fields. by apply le_dec_bytes. Qed.

Lemma read_runs_ok post : ∀ pre hd tl,
  length hd = 4%nat → Forall u64_run post → 
  sum_counts (pre ++ post) < 2 ^ 64 → Forall (λ r, 0 ≤ cluster_count r) pre →
  read_runs (hd ++ mjoin (run_bytes <$> (pre ++ post)) ++ tl) (length pre) (length post) pre
            (sum_counts pre) = Ok (pre ++ post, sum_counts (pre ++ post)).
Proof.
  induction post as [|r post IH]; intros pre hd tl Hh Hu Hsum Hpos.
  - cbn [length read_runs]. by rewrite app_nil_r.
  - inversion Hu as [|?? Hr Hu']; subst. cbn [length read_runs].
    assert (0 ≤ sum_counts pre) as Hp.
    { clear -Hpos. induction Hpos; [done|]. rewrite sum_counts_cons. lia. }
    assert (0 ≤ sum_counts post) as Hp'.
    { clear -Hu'. induction Hu' as [|? ? [? []]]; [done|]. rewrite sum_counts_cons. lia. }
    pose proof (field_runs_bytes pre r post 0 8 hd tl Hh ltac:(lia)) as H0.
    pose proof (field_runs_bytes pre r post 8 8 hd tl Hh ltac:(lia)) as H8.
    rewrite Nat.add_0_r in H0. rewrite H0, H8, run_bytes_start, run_bytes_count by done.
    destruct Hr as [Hs Hc]. unfold in_u in *.
    rewrite sum_counts_app, sum_counts_cons in Hsum.
    unfold add64. rewrite chk_ok by lia. cbn [rbind].
    replace (mkRun (start_cluster r) (cluster_count r)) with r by (by destruct r).
    specialize (IH (pre ++ [r]) hd tl).
    rewrite <-!app_assoc in IH. cbn [app] in IH. rewrite length_app in IH. cbn in IH.
    rewrite Nat.add_1_r in IH.
    replace (sum_counts pre + cluster_count r) with (sum_counts (pre ++ [r]))
      by (rewrite sum_counts_app, sum_counts_cons, sum_counts_nil; lia).
    rewrite IH; auto.
    + rewrite sum_counts_app, sum_counts_cons. lia.
    + apply Forall_app. split; [done|]. constructor; [lia|done].
Qed.

(** ** Properties *)

(** Merging two well-formed runs never panics; it yields a run exactly when the two are
    adjacent, and that run is well formed, covers precisely the clusters of the two, and counts
    as many. *)
Theorem merge_exact a b :
  run_ok a → run_ok b →
  ∃ o, merge a b = Ok o ∧
    match o with
    | Some m => run_ok m ∧ cluster_count m = cluster_count a + cluster_count b ∧
                (∀ c, in_run m c ↔ in_run a c ∨ in_run b c)
    | None => run_end a ≠ start_cluster b ∧ run_end b ≠ start_cluster a
    end.
Proof.
  intros Ha Hb. rewrite merge_ok by done. eexists; split; [done|].
  case_bool_decide as H; [|tauto]. runs_unfold. split_and!; lia.
Qed.

Lemma merge_exact_witness :
  ∃ o, merge (mkRun 15 3) (mkRun 10 5) = Ok o ∧ o = Some (mkRun 10 8).
Proof.
  destruct (merge_exact (mkRun 15 3) (mkRun 10 5)) as (o & H & _); [by repeat split|by repeat split|].
  exists o. split; [exact H|]. vm_compute in H. congruence.
Defined.

(** Adding a run that shares no cluster with the list never panics, keeps the list in normal
    form (sorted, merged, [total_clusters] the sum of the counts) and covers exactly the old
    clusters and the new ones. *)
Theorem add_run_exact rl run :
  runlist_inv rl → run_ok run → Forall (disjoint_runs run) (runs rl) →
  ∃ rl', add_run rl run = Ok rl' ∧ runlist_inv rl' ∧
         (∀ c, in_runs (runs rl') c ↔ in_runs (runs rl) c ∨ in_run run c) ∧
         total_clusters rl' = total_clusters rl + cluster_count run.
Proof. apply add_run_ok. Qed.

Lemma add_run_exact_witness :
  ∃ rl', add_run (mkRunList [mkRun 10 5] 5) (mkRun 15 3) = Ok rl' ∧ rl' = mkRunList [mkRun 10 8] 8.
Proof.
  destruct (add_run_exact (mkRunList [mkRun 10 5] 5) (mkRun 15 3)) as (rl' & H & _).
  - by repeat split.
  - by repeat split.
  - constructor; [|constructor]. intros c. unfold in_run; cbn. lia.
  - exists rl'. split; [exact H|]. vm_compute in H. congruence.
Defined.

(** [find_cluster] computes the virtual-to-physical map: on a list in normal form it returns
    the cluster at that position of the runs laid end to end, and [None] past their end. *)
Theorem find_cluster_reference rl v :
  runlist_inv rl → 0 ≤ v →
  find_cluster rl v = Ok (mjoin (run_clusters <$> runs rl) !! Z.to_nat v).
Proof.
  intros [Hs Ht] Hv. apply separated_sorted in Hs. unfold find_cluster.
  destruct (runs rl) as [|r l] eqn:E; [done|]. rewrite <-E in *.
  rewrite (find_cluster_from_ok _ 0) by (try done; try lia;
    apply sorted_disjoint_sum in Hs as [? Hb]; rewrite E in Hb |- *; specialize (Hb ltac:(done)); lia).
  by rewrite Z.sub_0_r.
Qed.

Lemma find_cluster_reference_witness :
  find_cluster (mkRunList [mkRun 10 5; mkRun 20 3] 8) 5 = Ok (Some 20).
Proof. rewrite find_cluster_reference; [reflexivity|by repeat split|lia]. Defined.

(** A run list survives serialization: [deserialize] of the serialized bytes, whatever
    follows them, gives the list back. *)
Theorem run_list_roundtrip rl tl :
  Forall u64_run (runs rl) → zlen (runs rl) < 2 ^ 32 →
  total_clusters rl = sum_counts (runs rl) → sum_counts (runs rl) < 2 ^ 64 →
  run_list_deserialize (run_list_serialize rl ++ tl) = Ok rl.
Proof.
  intros Hu Hlen Ht Hsum. unfold run_list_deserialize, run_list_serialize, zlen.
  rewrite <-app_assoc. rewrite bool_decide_eq_false_2 by len.
  rewrite field_app_hit by len. unfold zlen in Hlen.
  rewrite le_dec_bytes_mod. unfold as_u32. rewrite !Z.mod_small by (cbn in *; lia).
  rewrite bool_decide_eq_false_2 by len. rewrite Nat2Z.id.
  pose proof (read_runs_ok (runs rl) [] (le_bytes 4 (Z.of_nat (length (runs rl)))) tl) as H.
  cbn [app length] in H. rewrite sum_counts_nil in H.
  rewrite H by (try done; len). cbn [rbind]. rewrite <-Ht. by destruct rl.
Qed.

Lemma run_list_roundtrip_witness :
  run_list_deserialize (run_list_serialize (mkRunList [mkRun 10 5; mkRun 20 3] 8) ++ [7]) =
  Ok (mkRunList [mkRun 10 5; mkRun 20 3] 8).
Proof. apply run_list_roundtrip; [repeat constructor; done|done|done|done]. Defined.

(** Adding an extent below the existing ones reorders the file: the cluster that held virtual
    cluster 0 of a file is renumbered when a run with a smaller start is added. *)
Theorem add_run_renumbers :
  ∃ rl run rl', runlist_inv rl ∧ run_ok run ∧ Forall (disjoint_runs run) (runs rl) ∧
    add_run rl run = Ok rl' ∧ find_cluster rl 0 ≠ find_cluster rl' 0.
Proof.
  exists (mkRunList [mkRun 10 2] 2), (mkRun 5 2), (mkRunList [mkRun 5 2; mkRun 10 2] 4).
  split_and!; try (by repeat split); try (by vm_compute).
  constructor; [|constructor]. intros c. unfold in_run; cbn. lia.
Qed.

(** The empty run: the crate's own test expects [contains_cluster] to answer [false]; the
    computation of the end underflows. *)
Lemma empty_run_contains_panics : contains_cluster (mkRun 0 0) 0 = Panic.
Proof. reflexivity. Qed.
