(* ===== verification/Bitmap.v ===== *)
(** * The cluster bitmap ([ClusterBitmap], [crates/galleon2/src/allocation.rs])

    One bit per cluster, bit set = used. The bitmap is loaded from the disk on
    first use, changed in memory and written back by [flush_bitmap]. The state
    of an operation is the bitmap object and the device. *)

From S2P Require Import Prelude Device Runs.

(** [AllocationStrategy] *)
Inductive AllocationStrategy : Type := FirstFit | BestFit | NextFit.

(** [ClusterBitmap] *)
Record ClusterBitmap := mkBitmap {
  cb_drive : Z;
  cb_bitmap_start_sector : Z;
  cb_bitmap_size_sectors : Z;
  cb_total_clusters : Z;
  cb_clusters_per_sector : Z;
  cb_cached_bitmap : option (list Z);
  cb_dirty : bool;
}.

Definition cb_set_cache (bm : option (list Z)) (dirty : bool) (cb : ClusterBitmap) : ClusterBitmap :=
  mkBitmap (cb_drive cb) (cb_bitmap_start_sector cb) (cb_bitmap_size_sectors cb)
           (cb_total_clusters cb) (cb_clusters_per_sector cb) bm dirty.

Definition cluster_bitmap_new (drive bitmap_start_sector total : Z) : fsres ClusterBitmap :=
  let? bits := add64 total 7 in
  let bytes_needed := bits / 8 in
  let? b := add64 bytes_needed 511 in
  Ok (mkBitmap drive bitmap_start_sector (b / 512) total (512 * 8) None false).

(** [bitmap[byte_index] & (1 << bit_index) == 0] *)
Definition bit_is_free (b bit : Z) : bool := bool_decide (Z.land b (Z.shiftl 1 bit) = 0).

(** Byte and bit of a cluster; [None] when [byte_index >= bitmap.len()]. *)
Definition cluster_byte (bm : list Z) (cluster : Z) : option Z := bm !! Z.to_nat (cluster / 8).

Section bitmap.
Context {D : Type} `{SectorDev D}.

Abbreviation BM := (M (ClusterBitmap * D) FilesystemError).

(** The chunked read of [load_bitmap], two sectors at a time; [n] bounds the
    sectors left, and every iteration reads at least one. *)
Fixpoint load_chunks (n : nat) (cb : ClusterBitmap) (sectors_read : Z) (bitmap_data : list Z) :
    M D FilesystemError (list Z) :=
  match n with
  | O => mok bitmap_data
  | S n =>
      if bool_decide (sectors_read < cb_bitmap_size_sectors cb) then
        let sectors_to_read := Z.min 2 (cb_bitmap_size_sectors cb - sectors_read) in
        let! lba := mlift (add64 (cb_bitmap_start_sector cb) sectors_read) in
        let! chunk := ide_read_sectors (cb_drive cb) (as_u8 sectors_to_read) (as_u32 lba)
                        (zeros (Z.to_nat (sectors_to_read * 512))) in
        load_chunks n cb (sectors_read + sectors_to_read) (bitmap_data ++ chunk)
      else mok bitmap_data
  end.

Definition load_bitmap : BM unit :=
  let! cb := get_self in
  match cb_cached_bitmap cb with
  | Some _ => mok tt
  | None =>
      let! bm := on_world (load_chunks (Z.to_nat (cb_bitmap_size_sectors cb)) cb 0 []) in
      set_self (cb_set_cache (Some bm) false cb)
  end.

Definition flush_bitmap : BM unit :=
  let! cb := get_self in
  if cb_dirty cb then
    match cb_cached_bitmap cb with
    | Some bm =>
        let! _ := on_world (ide_write_sectors (cb_drive cb) (as_u8 (cb_bitmap_size_sectors cb))
                              (as_u32 (cb_bitmap_start_sector cb)) bm) in
        set_self (cb_set_cache (Some bm) false cb)
    | None => mok tt
    end
  else mok tt.

Definition is_cluster_free (cluster : Z) : BM bool :=
  let! cb := get_self in
  if bool_decide (cb_total_clusters cb ≤ cluster) then mok false else
  let! _ := load_bitmap in
  let! cb := get_self in
  match cb_cached_bitmap cb with
  | Some bm =>
      match cluster_byte bm cluster with
      | Some b => mok (bit_is_free b (cluster `mod` 8))
      | None => mok false
      end
  | None => merr InvalidParameter
  end.

(** The common body of [set_cluster_used] and [set_cluster_free]: [f] is the
    update of the byte. *)
Definition update_cluster (f : Z → Z → Z) (cluster : Z) : BM unit :=
  let! cb := get_self in
  if bool_decide (cb_total_clusters cb ≤ cluster) then merr InvalidParameter else
  let! _ := load_bitmap in
  let! cb := get_self in
  match cb_cached_bitmap cb with
  | Some bm =>
      match cluster_byte bm cluster with
      | Some b =>
          set_self (cb_set_cache (Some (<[Z.to_nat (cluster / 8) := f b (cluster `mod` 8)]> bm)) true cb)
      | None => merr InvalidParameter
      end
  | None => merr InvalidParameter
  end.

(** [bitmap[byte_index] |= 1 << bit_index] *)
Definition set_cluster_used : Z → BM unit :=
  update_cluster (λ b bit, Z.lor b (Z.shiftl 1 bit)).

(** [bitmap[byte_index] &= !(1 << bit_index)] *)
Definition set_cluster_free : Z → BM unit :=
  update_cluster (λ b bit, Z.land b (Z.lxor 255 (Z.shiftl 1 bit))).
End bitmap.

(** ** The searches, over the cached bytes

    [cluster] is the loop counter, [n] the clusters left; [cur] and [cnt] are
    [current_start] and [current_count]. *)
Fixpoint first_fit_loop (bm : list Z) (count cluster : Z) (n : nat) (cur : option Z) (cnt : Z) :
    option ClusterRun :=
  match n with
  | O => None
  | S n =>
      match cluster_byte bm cluster with
      | None => None
      | Some b =>
          if bit_is_free b (cluster `mod` 8) then
            let start := default cluster cur in
            let cnt' := match cur with None => 1 | Some _ => cnt + 1 end in
            if bool_decide (count ≤ cnt') then Some (mkRun start count)
            else first_fit_loop bm count (cluster + 1) n (Some start) cnt'
          else first_fit_loop bm count (cluster + 1) n None 0
      end
  end.

(** The test both places of [find_best_fit] make when a free run ends. *)
Definition better (count : Z) (best : option ClusterRun) (cur : option Z) (cnt : Z) : option ClusterRun :=
  match cur with
  | Some start =>
      if bool_decide (count ≤ cnt) then
        match best with
        | None => Some (mkRun start cnt)
        | Some r => if bool_decide (cnt < cluster_count r) then Some (mkRun start cnt) else best
        end
      else best
  | None => best
  end.

Fixpoint best_fit_loop (bm : list Z) (count cluster : Z) (n : nat) (best : option ClusterRun)
    (cur : option Z) (cnt : Z) : option ClusterRun :=
  match n with
  | O => better count best cur cnt
  | S n =>
      match cluster_byte bm cluster with
      | None => better count best cur cnt
      | Some b =>
          if bit_is_free b (cluster `mod` 8) then
            best_fit_loop bm count (cluster + 1) n best (Some (default cluster cur))
              (match cur with None => 1 | Some _ => cnt + 1 end)
          else best_fit_loop bm count (cluster + 1) n (better count best cur cnt) None 0
      end
  end.

Fixpoint free_count_loop (bm : list Z) (cluster : Z) (n : nat) (free_count : Z) : Z :=
  match n with
  | O => free_count
  | S n =>
      let free := match cluster_byte bm cluster with
                  | Some b => bit_is_free b (cluster `mod` 8)
                  | None => false
                  end in
      free_count_loop bm (cluster + 1) n (if free then free_count + 1 else free_count)
  end.

Definition find_first_fit (cb : ClusterBitmap) (count : Z) : fsres (option ClusterRun) :=
  match cb_cached_bitmap cb with
  | Some bm => Ok (first_fit_loop bm count 0 (Z.to_nat (cb_total_clusters cb)) None 0)
  | None => Err InvalidParameter
  end.

Definition find_best_fit (cb : ClusterBitmap) (count : Z) : fsres (option ClusterRun) :=
  match cb_cached_bitmap cb with
  | Some bm =>
      match best_fit_loop bm count 0 (Z.to_nat (cb_total_clusters cb)) None None 0 with
      | Some run => Ok (Some (mkRun (start_cluster run) count))
      | None => Ok None
      end
  | None => Err InvalidParameter
  end.

Definition find_next_fit (cb : ClusterBitmap) (count : Z) : fsres (option ClusterRun) :=
  find_first_fit cb count.

Section bitmap_ops.
Context {D : Type} `{SectorDev D}.

Abbreviation BM := (M (ClusterBitmap * D) FilesystemError).

Definition find_free_clusters (count : Z) (strategy : AllocationStrategy) : BM (option ClusterRun) :=
  let! _ := load_bitmap in
  let! cb := get_self in
  mlift (match strategy with
         | FirstFit => find_first_fit cb count
         | BestFit => find_best_fit cb count
         | NextFit => find_next_fit cb count
         end).

Definition mark_run_used (run : ClusterRun) : BM unit :=
  let! _ := mlift (add64 (start_cluster run) (cluster_count run)) in
  mfor (run_clusters run) set_cluster_used.

Definition mark_run_free (run : ClusterRun) : BM unit :=
  let! _ := mlift (add64 (start_cluster run) (cluster_count run)) in
  mfor (run_clusters run) set_cluster_free.

Definition get_free_cluster_count : BM Z :=
  let! _ := load_bitmap in
  let! cb := get_self in
  match cb_cached_bitmap cb with
  | Some bm => mok (free_count_loop bm 0 (Z.to_nat (cb_total_clusters cb)) 0)
  | None => merr InvalidParameter
  end.
End bitmap_ops.

(** ** The abstract bitmap

    [free bm c] is what the bytes say of cluster [c]; clusters past the bytes
    are not free. *)
Definition free (bm : list Z) (c : Z) : bool :=
  match cluster_byte bm c with
  | Some b => bit_is_free b (c `mod` 8)
  | None => false
  end.

Lemma bit_is_free_testbit b k : 0 ≤ k → bit_is_free b k = negb (Z.testbit b k).
Proof.
  intros Hk. unfold bit_is_free. rewrite Z.shiftl_1_l.
  destruct (Z.testbit b k) eqn:Hb; cbn.
  - apply bool_decide_eq_false_2. intros E.
    apply (f_equal (λ x, Z.testbit x k)) in E.
    rewrite Z.land_spec, Hb, Z.pow2_bits_true, Z.bits_0 in E by done. done.
  - apply bool_decide_eq_true_2. apply Z.bits_inj_iff. intros j.
    rewrite Z.land_spec, Z.bits_0. destruct (decide (j = k)) as [->|Hne].
    + by rewrite Hb.
    + rewrite Z.pow2_bits_false by done. apply andb_false_r.
Qed.

Lemma free_insert_byte bm c b b' c' :
  0 ≤ c → 0 ≤ c' → cluster_byte bm c = Some b →
  free (<[Z.to_nat (c / 8) := b']> bm) c' =
  if bool_decide (c' / 8 = c / 8) then bit_is_free b' (c' `mod` 8) else free bm c'.
Proof.
  intros Hc Hc' Hb. unfold free, cluster_byte in *.
  assert (0 ≤ c / 8) by (apply Z.div_pos; lia). assert (0 ≤ c' / 8) by (apply Z.div_pos; lia).
  case_bool_decide as E.
  - rewrite E. rewrite list_lookup_insert_eq; [done|]. by eapply lookup_lt_Some.
  - rewrite list_lookup_insert_ne; [done|]. lia.
Qed.

Lemma same_byte_same_cluster c c' :
  c' / 8 = c / 8 → (c' `mod` 8 = c `mod` 8 ↔ c' = c).
Proof.
  intros Hd. pose proof (Z.div_mod c 8). pose proof (Z.div_mod c' 8). split; [lia|]. by intros ->.
Qed.

Lemma free_set_used bm c b c' :
  0 ≤ c → 0 ≤ c' → cluster_byte bm c = Some b →
  free (<[Z.to_nat (c / 8) := Z.lor b (Z.shiftl 1 (c `mod` 8))]> bm) c' =
  free bm c' && negb (bool_decide (c' = c)).
Proof.
  intros Hc Hc' Hb. rewrite (free_insert_byte bm c b) by done.
  pose proof (Z.mod_pos_bound c 8). pose proof (Z.mod_pos_bound c' 8).
  case_bool_decide as E.
  - unfold free. unfold cluster_byte in *. rewrite E, Hb.
    rewrite !bit_is_free_testbit by lia. rewrite Z.lor_spec, Z.shiftl_1_l, Z.pow2_bits_eqb by lia.
    rewrite negb_orb. f_equal. f_equal. apply same_byte_same_cluster in E.
    case_bool_decide; [apply Z.eqb_eq|apply Z.eqb_neq]; lia.
  - rewrite (bool_decide_eq_false_2 (c' = c)) by (intros ->; done). by rewrite andb_true_r.
Qed.

Lemma free_set_free bm c b c' :
  0 ≤ c → 0 ≤ c' → cluster_byte bm c = Some b →
  free (<[Z.to_nat (c / 8) := Z.land b (Z.lxor 255 (Z.shiftl 1 (c `mod` 8)))]> bm) c' =
  free bm c' || bool_decide (c' = c).
Proof.
  intros Hc Hc' Hb. rewrite (free_insert_byte bm c b) by done.
  pose proof (Z.mod_pos_bound c 8). pose proof (Z.mod_pos_bound c' 8).
  case_bool_decide as E.
  - unfold free. unfold cluster_byte in *. rewrite E, Hb.
    rewrite !bit_is_free_testbit by lia.
    rewrite Z.land_spec, Z.lxor_spec, Z.shiftl_1_l, Z.pow2_bits_eqb by lia.
    change 255 with (Z.ones 8). rewrite Z.ones_spec_low by lia.
    rewrite negb_andb. f_equal.
    replace (negb (xorb true _)) with (c `mod` 8 =? c' `mod` 8) by (by destruct (_ =? _)).
    apply same_byte_same_cluster in E.
    case_bool_decide; [apply Z.eqb_eq|apply Z.eqb_neq]; lia.
  - rewrite (bool_decide_eq_false_2 (c' = c)) by (intros ->; done). by rewrite orb_false_r.
Qed.

(** The byte updates keep bytes bytes. *)
Lemma lor_byte b k : byte_ok b → 0 ≤ k < 8 → byte_ok (Z.lor b (Z.shiftl 1 k)).
Proof.
  intros [Hb Hb'] Hk. unfold byte_ok. rewrite Z.shiftl_1_l.
  assert (0 ≤ Z.lor b (2 ^ k)) by (apply Z.lor_nonneg; lia).
  split; [done|]. change 256 with (2 ^ 8).
  apply Z.bounded_iff_bits_nonneg'; [lia|done|]. intros l Hl.
  rewrite Z.lor_spec, Z.pow2_bits_false by lia. rewrite orb_false_r.
  apply (Z.bounded_iff_bits_nonneg' 8 b); lia.
Qed.

Lemma land_byte b m : byte_ok b → 0 ≤ m → byte_ok (Z.land b m).
Proof.
  intros [Hb Hb'] Hm. unfold byte_ok.
  assert (0 ≤ Z.land b m) by (apply Z.land_nonneg; lia).
  split; [done|]. change 256 with (2 ^ 8).
  apply Z.bounded_iff_bits_nonneg'; [lia|done|]. intros l Hl.
  rewrite Z.land_spec. replace (Z.testbit b l) with false; [done|].
  symmetry. apply (Z.bounded_iff_bits_nonneg' 8 b); lia.
Qed.

(** ** First fit *)

(** [count] free clusters from [s] on, inside the disk. *)
Definition window (bm : list Z) (total s count : Z) : Prop :=
  0 ≤ s ∧ s + count ≤ total ∧ ∀ c, s ≤ c < s + count → free bm c = true.

(** Past the bytes no cluster is free. *)
Lemma free_beyond bm c c' : cluster_byte bm c = None → 0 ≤ c ≤ c' → free bm c' = false.
Proof.
  unfold free, cluster_byte. intros Hn Hc. apply lookup_ge_None in Hn.
  assert (c / 8 ≤ c' / 8) by (apply Z.div_le_mono; lia).
  assert (0 ≤ c / 8) by (apply Z.div_pos; lia).
  rewrite (lookup_ge_None_2 bm); [done|]. lia.
Qed.

Lemma first_fit_loop_spec bm count total : ∀ n cluster cur cnt,
  0 < count → cluster + Z.of_nat n = total → 0 ≤ cluster →
  (* [cur] starts the free run of [cnt] clusters that ends at [cluster] *)
  default cluster cur + cnt = cluster → 0 ≤ cnt < count → (cur = None → cnt = 0) →
  0 ≤ default cluster cur →
  (∀ c, default cluster cur ≤ c < cluster → free bm c = true) →
  (∀ s, window bm total s count → default cluster cur ≤ s) →
  match first_fit_loop bm count cluster n cur cnt with
  | Some r => cluster_count r = count ∧ window bm total (start_cluster r) count ∧
              ∀ s, window bm total s count → start_cluster r ≤ s
  | None => ∀ s, ¬ window bm total s count
  end.
Proof.
  induction n as [|n IH]; intros cluster cur cnt Hcount Hn Hcl Hstart Hcnt Hnone Hs0 Hfree Hmin.
  - cbn. intros s Hw. pose proof (Hmin _ Hw). destruct Hw as (?&?&?). lia.
  - cbn [first_fit_loop]. destruct (cluster_byte bm cluster) as [b|] eqn:Eb.
    + assert (bit_is_free b (cluster `mod` 8) = free bm cluster) as Hf by (unfold free; by rewrite Eb).
      rewrite Hf. destruct (free bm cluster) eqn:Ef.
      * set (start := default cluster cur) in *.
        set (cnt' := match cur with None => 1 | Some _ => cnt + 1 end).
        assert (cnt' = cnt + 1) as Hc'.
        { unfold cnt'. destruct cur; [done|]. specialize (Hnone eq_refl). lia. }
        assert (∀ c, start ≤ c < cluster + 1 → free bm c = true) as Hfree'.
        { intros c Hc. destruct (decide (c = cluster)) as [->|]; [done|]. apply Hfree. lia. }
        case_bool_decide as Hdone.
        -- cbn [cluster_count start_cluster]. split_and!; [done| |done].
           split_and!; [done|lia|]. intros c Hc. apply Hfree'. lia.
        -- apply IH; cbn [default from_option id]; try done; try lia.
      * assert (∀ s, window bm total s count → cluster + 1 ≤ s) as Hmin'.
        { intros s Hw. pose proof (Hmin _ Hw) as Hm. destruct Hw as (?&?&Hw).
          destruct (decide (cluster + 1 ≤ s)); [done|].
          assert (free bm cluster = true) by (apply Hw; lia). congruence. }
        apply IH; cbn [default from_option id]; try done; try lia.
    + intros s Hw. pose proof (Hmin _ Hw) as Hm. destruct Hw as (?&?&Hw).
      assert (free bm (s + count - 1) = true) as E by (apply Hw; lia).
      rewrite (free_beyond bm cluster) in E; [done|done|lia].
Qed.

Lemma find_first_fit_spec cb bm count :
  0 < count → 0 ≤ cb_total_clusters cb → cb_cached_bitmap cb = Some bm →
  ∃ o, find_first_fit cb count = Ok o ∧
  match o with
  | Some r => cluster_count r = count ∧ window bm (cb_total_clusters cb) (start_cluster r) count ∧
              ∀ s, window bm (cb_total_clusters cb) s count → start_cluster r ≤ s
  | None => ∀ s, ¬ window bm (cb_total_clusters cb) s count
  end.
Proof.
  intros Hc Ht Hbm. unfold find_first_fit. rewrite Hbm. eexists. split; [done|].
  apply first_fit_loop_spec; cbn [default from_option id]; try done; try lia.
  intros s Hw. apply Hw.
Qed.

(** ** Best fit *)

(** A maximal range of free clusters. *)
Definition maximal (bm : list Z) (total s n : Z) : Prop :=
  0 ≤ s ∧ 0 < n ∧ s + n ≤ total ∧ (∀ c, s ≤ c < s + n → free bm c = true) ∧
  (s = 0 ∨ free bm (s - 1) = false) ∧ (s + n = total ∨ free bm (s + n) = false).

(** [best] is a smallest maximal range of at least [count] clusters among those
    that end at or before [upto]. *)
Definition best_ok (bm : list Z) (total count upto : Z) (best : option ClusterRun) : Prop :=
  match best with
  | Some r => maximal bm total (start_cluster r) (cluster_count r) ∧ count ≤ cluster_count r ∧
              ∀ s n, maximal bm total s n → s + n ≤ upto → count ≤ n → cluster_count r ≤ n
  | None => ∀ s n, maximal bm total s n → s + n ≤ upto → n < count
  end.

(** A maximal range that ends inside or at the end of another is that other. *)
Lemma maximal_unique bm total s n s' n' :
  maximal bm total s n → maximal bm total s' n' → s < s' + n' ≤ s + n → s' = s ∧ n' = n.
Proof.
  intros (H1 & H2 & H3 & Hf & Hl & Hr) (H1' & H2' & H3' & Hf' & Hl' & Hr') Hov.
  assert (s' + n' = s + n) as He.
  { destruct (decide (s' + n' = s + n)); [done|]. destruct Hr' as [|Hr']; [lia|].
    rewrite Hf in Hr' by lia. done. }
  assert (s' = s) as ->; [|lia].
  destruct (Z.lt_trichotomy s' s) as [Hlt|[|Hgt]]; [|done|].
  - destruct Hl as [|Hl]; [lia|]. rewrite Hf' in Hl by lia. done.
  - destruct Hl' as [|Hl']; [lia|]. rewrite Hf in Hl' by lia. done.
Qed.

Lemma better_ok bm total count start cnt best cur cluster :
  start = default cluster cur → start + cnt = cluster → (cur = None ↔ cnt = 0) → 0 ≤ cnt →
  0 ≤ start → cluster ≤ total → (∀ c, start ≤ c < cluster → free bm c = true) →
  (start = 0 ∨ free bm (start - 1) = false) → (cluster = total ∨ free bm cluster = false) →
  best_ok bm total count start best →
  best_ok bm total count cluster (better count best cur cnt).
Proof.
  intros Hstart Hsum Hcur Hcnt Hs0 Htot Hfree Hl Hr Hbest.
  destruct cur as [st|]; cbn [default from_option id] in Hstart.
  - subst st. assert (0 < cnt) by (destruct (decide (cnt = 0)) as [E|]; [apply Hcur in E; done|lia]).
    assert (maximal bm total start cnt) as Hmax.
    { split_and!; auto; try lia; [|by rewrite Hsum]. intros c Hc. apply Hfree. lia. }
    assert (∀ s n, maximal bm total s n → s + n ≤ cluster → s + n ≤ start ∨ n = cnt) as Hold.
    { intros s n Hm Hle. destruct (decide (s + n ≤ start)); [by left|right].
      eapply maximal_unique; [exact Hmax|exact Hm|lia]. }
    unfold better. case_bool_decide as Hc; [destruct best as [r|]; [case_bool_decide as Hlt|]|];
      unfold best_ok in *; cbn [start_cluster cluster_count].
    + destruct Hbest as (?&?&Hb). split_and!; auto. intros s n Hm Hle Hcn.
      destruct (Hold s n Hm Hle) as [Ho|]; [|lia]. specialize (Hb s n Hm Ho Hcn). lia.
    + destruct Hbest as (?&?&Hb). split_and!; auto. intros s n Hm Hle Hcn.
      destruct (Hold s n Hm Hle) as [Ho|]; [|lia]. by apply (Hb s).
    + split_and!; auto. intros s n Hm Hle Hcn.
      destruct (Hold s n Hm Hle) as [Ho|]; [|lia]. specialize (Hbest s n Hm Ho). lia.
    + destruct best as [r|].
      * destruct Hbest as (?&?&Hb). split_and!; auto. intros s n Hm Hle Hcn.
        destruct (Hold s n Hm Hle) as [Ho|]; [|lia]. by apply (Hb s).
      * intros s n Hm Hle. destruct (Hold s n Hm Hle) as [Ho|]; [|lia]. by apply (Hbest s).
  - cbn [better]. by rewrite Hstart in Hbest.
Qed.

Lemma best_ok_skip bm total count cluster best :
  free bm cluster = false → best_ok bm total count cluster best →
  best_ok bm total count (cluster + 1) best.
Proof.
  intros Hf. assert (∀ s n, maximal bm total s n → s + n ≤ cluster + 1 → s + n ≤ cluster) as Hs.
  { intros s n (?&?&?&Hm&_) Hle. destruct (decide (s + n ≤ cluster)); [done|].
    rewrite Hm in Hf by lia. done. }
  destruct best as [r|]; unfold best_ok.
  - intros (?&?&Hb). split_and!; [done..|]. intros s n Hm Hle. apply (Hb s n); auto.
  - intros Hb s n Hm Hle. apply (Hb s); auto.
Qed.

Lemma best_ok_end bm total count cluster best :
  cluster_byte bm cluster = None → 0 ≤ cluster →
  best_ok bm total count cluster best → best_ok bm total count total best.
Proof.
  intros Hn Hc. assert (∀ s n, maximal bm total s n → s + n ≤ cluster) as Hs.
  { intros s n (?&?&?&Hm&_). destruct (decide (s + n ≤ cluster)); [done|].
    assert (free bm (s + n - 1) = true) as E by (apply Hm; lia).
    rewrite (free_beyond bm cluster) in E; [done|done|lia]. }
  destruct best as [r|]; unfold best_ok.
  - intros (?&?&Hb). split_and!; auto. intros. eauto.
  - intros Hb s n Hm Hle. apply (Hb s); auto.
Qed.

Lemma best_fit_loop_spec bm count total : ∀ n cluster best cur cnt,
  cluster + Z.of_nat n = total → 0 ≤ cluster →
  default cluster cur + cnt = cluster → (cur = None ↔ cnt = 0) → 0 ≤ cnt →
  0 ≤ default cluster cur →
  (∀ c, default cluster cur ≤ c < cluster → free bm c = true) →
  (default cluster cur = 0 ∨ free bm (default cluster cur - 1) = false) →
  best_ok bm total count (default cluster cur) best →
  best_ok bm total count total (best_fit_loop bm count cluster n best cur cnt).
Proof.
  induction n as [|n IH]; intros cluster best cur cnt Hn Hcl Hsum Hcur Hcnt Hs0 Hfree Hl Hbest.
  - cbn [best_fit_loop]. assert (cluster = total) as -> by lia.
    eapply better_ok; eauto; lia.
  - cbn [best_fit_loop]. destruct (cluster_byte bm cluster) as [b|] eqn:Eb.
    + assert (bit_is_free b (cluster `mod` 8) = free bm cluster) as Hf by (unfold free; by rewrite Eb).
      rewrite Hf. destruct (free bm cluster) eqn:Ef.
      * set (start := default cluster cur) in *.
        replace (match cur with None => 1 | Some _ => cnt + 1 end) with (cnt + 1)
          by (destruct cur; [done|]; assert (cnt = 0) by (by apply Hcur); lia).
        apply IH; cbn [default from_option id]; auto; try lia.
        -- split; [done|lia].
        -- intros c Hc. destruct (decide (c = cluster)) as [->|]; [done|]. apply Hfree. lia.
      * apply IH; cbn [default from_option id]; auto; try lia; try done.
        -- right. by replace (cluster + 1 - 1) with cluster by lia.
        -- apply best_ok_skip; [done|]. eapply better_ok; eauto; lia.
    + eapply best_ok_end; [done..|]. eapply better_ok; eauto; try lia.
      right. by eapply free_beyond.
Qed.

Lemma find_best_fit_spec cb bm count :
  0 ≤ cb_total_clusters cb → cb_cached_bitmap cb = Some bm →
  ∃ o, find_best_fit cb count = Ok o ∧
  match o with
  | Some r => cluster_count r = count ∧
      ∃ n, maximal bm (cb_total_clusters cb) (start_cluster r) n ∧ count ≤ n ∧
           ∀ s' n', maximal bm (cb_total_clusters cb) s' n' → count ≤ n' → n ≤ n'
  | None => ∀ s n, maximal bm (cb_total_clusters cb) s n → n < count
  end.
Proof.
  intros Ht Hbm. unfold find_best_fit. rewrite Hbm.
  pose proof (best_fit_loop_spec bm count (cb_total_clusters cb)
                (Z.to_nat (cb_total_clusters cb)) 0 None None 0) as H.
  cbn [default from_option id] in H.
  assert (best_ok bm (cb_total_clusters cb) count 0 None) as H0.
  { intros s n (?&?&?&_) Hle. lia. }
  specialize (H ltac:(lia) ltac:(lia) ltac:(lia) ltac:(done) ltac:(lia) ltac:(lia)
                ltac:(intros; lia) ltac:(by left) H0).
  destruct (best_fit_loop _ _ _ _ _ _ _) as [r|]; eexists; (split; [done|]); unfold best_ok in H.
  - destruct H as (Hm & Hc & Hb). split; [done|]. exists (cluster_count r). split_and!; auto.
    intros s' n' Hm' Hc'. apply (Hb s'); auto. apply Hm'.
  - intros s n Hm. apply (H s); [done|]. apply Hm.
Qed.

(** ** The operations on the device *)

Section bitmap_spec.
Context {D : Type} `{SectorDevLaws D}.
Implicit Types (cb : ClusterBitmap) (d : D).

(** The bitmap bytes on the disk, and the bytes the object stands for. *)
Definition disk_bitmap cb d : list Z :=
  mjoin (sector d (cb_drive cb) <$> seqZ (cb_bitmap_start_sector cb) (cb_bitmap_size_sectors cb)).
Definition view cb d : list Z := default (disk_bitmap cb d) (cb_cached_bitmap cb).

(** The bitmap area lies inside the drive and holds a bit for every cluster;
    what is cached has the size of the area, and agrees with the disk unless
    it is marked dirty. *)
Record bitmap_wf cb d : Prop := {
  wf_drive : 0 ≤ cb_drive cb ≤ 3;
  wf_start : 0 ≤ cb_bitmap_start_sector cb;
  wf_size : 0 ≤ cb_bitmap_size_sectors cb;
  wf_total : 0 ≤ cb_total_clusters cb ≤ cb_bitmap_size_sectors cb * 4096;
  wf_area : ∃ c, capacity d (cb_drive cb) = Some c ∧
                 cb_bitmap_start_sector cb + cb_bitmap_size_sectors cb ≤ c;
  wf_cache : zlen (view cb d) = cb_bitmap_size_sectors cb * 512;
  wf_clean : cb_dirty cb = false → view cb d = disk_bitmap cb d;
}.

Lemma length_disk_bitmap cb d :
  0 ≤ cb_bitmap_size_sectors cb → zlen (disk_bitmap cb d) = cb_bitmap_size_sectors cb * 512.
Proof. intros. unfold disk_bitmap, zlen. rewrite length_sectors, length_seqZ. lia. Qed.

Lemma same_disk_bitmap cb d d' : same_disk d d' → disk_bitmap cb d' = disk_bitmap cb d.
Proof. apply same_disk_sectors. Qed.

Lemma load_chunks_spec cb : ∀ n d rd acc c,
  0 ≤ cb_drive cb ≤ 3 → 0 ≤ cb_bitmap_start_sector cb →
  capacity d (cb_drive cb) = Some c →
  cb_bitmap_start_sector cb + cb_bitmap_size_sectors cb ≤ c →
  0 ≤ rd ≤ cb_bitmap_size_sectors cb → cb_bitmap_size_sectors cb - rd ≤ Z.of_nat n →
  ∃ d', load_chunks n cb rd acc d =
        (Ok (acc ++ mjoin (sector d (cb_drive cb) <$>
                     seqZ (cb_bitmap_start_sector cb + rd) (cb_bitmap_size_sectors cb - rd))), d') ∧
        same_disk d d'.
Proof.
  intros n. induction n as [|n IH]; intros d rd acc c Hd Hst Hc Hcap Hrd Hn.
  - exists d. split; [|done]. cbn [load_chunks]. replace (_ - rd) with 0 by lia.
    cbn. by rewrite app_nil_r.
  - cbn [load_chunks]. case_bool_decide as Hlt.
    2: { exists d. split; [|done]. replace (_ - rd) with 0 by lia. cbn. by rewrite app_nil_r. }
    pose proof (capacity_bound _ _ _ Hc) as Hb.
    set (k := Z.min 2 (cb_bitmap_size_sectors cb - rd)).
    assert (0 < k ≤ 2) as Hk by lia.
    unfold mbindM at 1, mlift, add64. rewrite chk_ok by lia.
    unfold mbindM at 1. unfold as_u8, as_u32. rewrite !Z.mod_small by lia.
    destruct (ide_read_sectors_spec d (cb_drive cb) k (cb_bitmap_start_sector cb + rd)
                (zeros (Z.to_nat (k * 512))) c) as (d1 & -> & Hs1 & Hc1); try lia; [done| |].
    { unfold zlen. len. }
    rewrite (drop_ge (zeros _)) by len. rewrite app_nil_r.
    destruct (IH d1 (rd + k) (acc ++ mjoin (sector d (cb_drive cb) <$>
                seqZ (cb_bitmap_start_sector cb + rd) k)) c) as (d' & -> & Hs'); auto; try lia.
    { by rewrite Hc1. }
    exists d'. split; [|by transitivity d1].
    rewrite (same_disk_sectors d d1) by done.
    rewrite <-app_assoc, <-join_app, <-fmap_app. do 6 f_equal.
    replace (cb_bitmap_size_sectors cb - rd) with (k + (cb_bitmap_size_sectors cb - (rd + k))) by lia.
    rewrite seqZ_app by lia. do 2 f_equal. lia.
Qed.

Lemma load_bitmap_spec cb d :
  bitmap_wf cb d →
  ∃ d', load_bitmap (cb, d) =
          (Ok tt, (cb_set_cache (Some (view cb d)) (cb_dirty cb && bool_decide (is_Some (cb_cached_bitmap cb))) cb, d')) ∧
        same_disk d d'.
Proof.
  intros [Hd Hst Hsz Htot (c & Hc & Hcap) Hca Hcl]. unfold load_bitmap, mbindM, get_self, view.
  destruct (cb_cached_bitmap cb) as [bm|] eqn:Eb.
  - exists d. split; [|done]. rewrite bool_decide_eq_true_2 by eauto. rewrite andb_true_r.
    cbn. destruct cb; cbn in *. by subst.
  - destruct (load_chunks_spec cb (Z.to_nat (cb_bitmap_size_sectors cb)) d 0 [] c) as (d' & Hl & Hs);
      auto; try lia.
    exists d'. split; [|done]. unfold on_world. rewrite Hl. cbn [app].
    rewrite Z.add_0_r, Z.sub_0_r.
    rewrite bool_decide_eq_false_2 by (by intros []). by rewrite andb_false_r.
Qed.

Lemma bitmap_wf_same cb d d' : same_disk d d' → bitmap_wf cb d → bitmap_wf cb d'.
Proof.
  intros Hs [Hd Hst Hsz Htot (c & Hc & Hcap) Hca Hcl]. unfold view in *.
  split; try done.
  - exists c. split; [|done]. destruct Hs as [_ Hs]. by rewrite Hs.
  - unfold view. by rewrite (same_disk_bitmap cb d d') by done.
  - unfold view. by rewrite (same_disk_bitmap cb d d') by done.
Qed.

Lemma bitmap_wf_cache cb d bm b :
  bitmap_wf cb d → zlen bm = cb_bitmap_size_sectors cb * 512 →
  (b = false → bm = disk_bitmap cb d) → bitmap_wf (cb_set_cache (Some bm) b cb) d.
Proof. intros [Hd Hst Hsz Htot Ha Hca Hcl] Hl Hb. split; try done. Qed.

Lemma update_cluster_spec f cb d c :
  bitmap_wf cb d → 0 ≤ c < cb_total_clusters cb →
  ∃ b d', cluster_byte (view cb d) c = Some b ∧
    update_cluster f c (cb, d) =
      (Ok tt, (cb_set_cache (Some (<[Z.to_nat (c / 8) := f b (c `mod` 8)]> (view cb d))) true cb, d')) ∧
    same_disk d d' ∧
    bitmap_wf (cb_set_cache (Some (<[Z.to_nat (c / 8) := f b (c `mod` 8)]> (view cb d))) true cb) d'.
Proof.
  intros Hwf Hc. destruct (load_bitmap_spec _ _ Hwf) as (d' & Hl & Hs).
  pose proof (wf_cache _ _ Hwf) as Hca. pose proof (wf_total _ _ Hwf) as Ht. unfold zlen in Hca.
  destruct (cluster_byte (view cb d) c) as [b|] eqn:Eb.
  2: { unfold cluster_byte in Eb. apply lookup_ge_None in Eb.
       assert (c / 8 < cb_bitmap_size_sectors cb * 512) by (apply Z.div_lt_upper_bound; lia). lia. }
  exists b, d'. split; [done|]. split; [|split; [done|]].
  - unfold update_cluster, mbindM, get_self. rewrite bool_decide_eq_false_2 by lia.
    rewrite Hl. cbn [cb_set_cache cb_cached_bitmap]. by rewrite Eb.
  - apply bitmap_wf_cache; [by eapply bitmap_wf_same| |done]. unfold zlen. len.
Qed.

(** A cluster outside the disk is refused before anything is touched. *)
Lemma update_cluster_range f cb d c :
  cb_total_clusters cb ≤ c → update_cluster f c (cb, d) = (Err InvalidParameter, (cb, d)).
Proof. intros Hc. unfold update_cluster, mbindM, get_self. by rewrite bool_decide_eq_true_2. Qed.

Lemma view_set_cache bm b cb d : view (cb_set_cache (Some bm) b cb) d = bm.
Proof. done. Qed.

Lemma is_cluster_free_spec cb d c :
  bitmap_wf cb d → 0 ≤ c →
  ∃ cb' d', is_cluster_free c (cb, d) =
      (Ok (bool_decide (c < cb_total_clusters cb) && free (view cb d) c), (cb', d')) ∧
    same_disk d d' ∧ bitmap_wf cb' d' ∧ view cb' d' = view cb d ∧
    ∃ bm b, cb' = cb_set_cache bm b cb.
Proof.
  intros Hwf Hc. unfold is_cluster_free, mbindM, get_self.
  case_bool_decide as Hr.
  - exists cb, d. rewrite bool_decide_eq_false_2 by lia. split_and!; try done.
    exists (cb_cached_bitmap cb), (cb_dirty cb). by destruct cb.
  - destruct (load_bitmap_spec _ _ Hwf) as (d' & -> & Hs).
    eexists _, d'. split; [|split; [exact Hs|split; [|split; [apply view_set_cache|eauto]]]].
    + cbn [cb_set_cache cb_cached_bitmap]. rewrite (bool_decide_eq_true_2 (c < _)) by lia. cbn [andb].
      unfold free. by destruct (cluster_byte _ _).
    + apply bitmap_wf_cache; [by eapply bitmap_wf_same|apply (wf_cache _ _ Hwf)|].
      intros Hb. rewrite (same_disk_bitmap cb d d') by done.
      destruct (cb_dirty cb) eqn:Ed; [|by apply (wf_clean _ _ Hwf)].
      unfold view. destruct (cb_cached_bitmap cb); [|done].
      rewrite bool_decide_eq_true_2 in Hb by eauto. done.
Qed.

(** A loop of cluster updates of one kind: [g old c'] is the freedom of a
    cluster after the update of [c']. *)
Section loops.
Context (f : Z → Z → Z) (g : Z → Z → bool → bool).
Hypothesis update_free : ∀ bm c b c',
  0 ≤ c → 0 ≤ c' → cluster_byte bm c = Some b →
  free (<[Z.to_nat (c / 8) := f b (c `mod` 8)]> bm) c' = g c c' (free bm c').

Lemma update_loop_spec (cs : list Z) : ∀ cb d,
  bitmap_wf cb d → Forall (λ c, 0 ≤ c < cb_total_clusters cb) cs → cs ≠ [] →
  ∃ bm d', mfor cs (update_cluster f) (cb, d) = (Ok tt, (cb_set_cache (Some bm) true cb, d')) ∧
    same_disk d d' ∧ bitmap_wf (cb_set_cache (Some bm) true cb) d' ∧
    ∀ c', 0 ≤ c' → free bm c' = foldl (λ v c, g c c' v) (free (view cb d) c') cs.
Proof.
  induction cs as [|c cs IH]; intros cb d Hwf Hcs Hne; [done|].
  inversion Hcs as [|?? Hc Hcs']; subst.
  destruct (update_cluster_spec f cb d c Hwf Hc) as (b & d1 & Eb & Hu & Hs1 & Hwf1).
  cbn [mfor]. unfold mbindM at 1. rewrite Hu.
  destruct cs as [|c2 cs].
  - eexists _, d1. cbn [mfor]. split_and!; [done|done|done|].
    intros c' Hc'. cbn [foldl]. apply update_free; [lia|done|done].
  - edestruct (IH _ _ Hwf1 Hcs' ltac:(done)) as (bm & d' & -> & Hs' & Hwf' & Hf).
    exists bm, d'. split_and!; [done|by transitivity d1|done|].
    intros c' Hc'. rewrite (Hf c' Hc'), view_set_cache. cbn [foldl].
    by rewrite (update_free (view cb d) c b c') by (done || lia).
Qed.
End loops.

Lemma foldl_used (cs : list Z) (c' : Z) v :
  foldl (λ v c, v && negb (bool_decide (c' = c))) v cs = v && negb (bool_decide (c' ∈ cs)).
Proof.
  revert v. induction cs as [|c cs IH]; intros v; cbn.
  - by rewrite andb_true_r.
  - rewrite IH. destruct v; cbn; [|done]. rewrite <-negb_orb. f_equal.
    rewrite <-bool_decide_or. apply bool_decide_ext. by rewrite elem_of_cons.
Qed.

Lemma foldl_freed (cs : list Z) (c' : Z) v :
  foldl (λ v c, v || bool_decide (c' = c)) v cs = v || bool_decide (c' ∈ cs).
Proof.
  revert v. induction cs as [|c cs IH]; intros v; cbn.
  - by rewrite orb_false_r.
  - rewrite IH. destruct v; cbn; [done|].
    rewrite <-bool_decide_or. apply bool_decide_ext. by rewrite elem_of_cons.
Qed.

(** The clusters of [run] are inside the disk. *)
Definition run_inside cb (run : ClusterRun) : Prop :=
  run_ok run ∧ run_end run ≤ cb_total_clusters cb.

#[global] Instance in_run_dec run c : Decision (in_run run c).
Proof. unfold in_run. apply _. Defined.

Lemma elem_of_run_clusters run c : c ∈ run_clusters run ↔ in_run run c.
Proof. unfold run_clusters, in_run. by rewrite elem_of_seqZ. Qed.

Lemma run_inside_clusters cb run :
  run_inside cb run →
  Forall (λ c, 0 ≤ c < cb_total_clusters cb) (run_clusters run) ∧ run_clusters run ≠ [].
Proof.
  intros [Hr He]. split.
  - apply Forall_forall. intros c Hc. apply elem_of_run_clusters in Hc. runs_unfold. lia.
  - intros E. assert (start_cluster run ∈ run_clusters run) as Hin
      by (apply elem_of_run_clusters; runs_unfold; lia).
    rewrite E in Hin. by apply not_elem_of_nil in Hin.
Qed.

Lemma mark_run_used_spec cb d run :
  bitmap_wf cb d → run_inside cb run →
  ∃ bm d', mark_run_used run (cb, d) = (Ok tt, (cb_set_cache (Some bm) true cb, d')) ∧
    same_disk d d' ∧ bitmap_wf (cb_set_cache (Some bm) true cb) d' ∧
    ∀ c, 0 ≤ c → free bm c = free (view cb d) c && negb (bool_decide (in_run run c)).
Proof.
  intros Hwf Hin. destruct (run_inside_clusters _ _ Hin) as [Hcs Hne].
  unfold mark_run_used. unfold mbindM at 1, mlift, add64.
  rewrite chk_ok by (destruct Hin as [Hr ?]; runs_unfold; lia).
  edestruct (update_loop_spec (λ b bit, Z.lor b (Z.shiftl 1 bit)) (λ c c' v, v && negb (bool_decide (c' = c)))
               free_set_used
               (run_clusters run) cb d) as (bm & d' & Hm & Hs & Hwf' & Hf); eauto.
  exists bm, d'. split_and!; [exact Hm|done|done|]. intros c Hc. rewrite Hf, foldl_used by done.
  do 2 f_equal. apply bool_decide_ext, elem_of_run_clusters.
Qed.

Lemma mark_run_free_spec cb d run :
  bitmap_wf cb d → run_inside cb run →
  ∃ bm d', mark_run_free run (cb, d) = (Ok tt, (cb_set_cache (Some bm) true cb, d')) ∧
    same_disk d d' ∧ bitmap_wf (cb_set_cache (Some bm) true cb) d' ∧
    ∀ c, 0 ≤ c → free bm c = free (view cb d) c || bool_decide (in_run run c).
Proof.
  intros Hwf Hin. destruct (run_inside_clusters _ _ Hin) as [Hcs Hne].
  unfold mark_run_free. unfold mbindM at 1, mlift, add64.
  rewrite chk_ok by (destruct Hin as [Hr ?]; runs_unfold; lia).
  edestruct (update_loop_spec (λ b bit, Z.land b (Z.lxor 255 (Z.shiftl 1 bit))) (λ c c' v, v || bool_decide (c' = c))
               free_set_free
               (run_clusters run) cb d) as (bm & d' & Hm & Hs & Hwf' & Hf); eauto.
  exists bm, d'. split_and!; [exact Hm|done|done|]. intros c Hc. rewrite Hf, foldl_freed by done.
  f_equal. apply bool_decide_ext, elem_of_run_clusters.
Qed.

(** Writing the bitmap back: the disk holds the cached bytes, no other sector changes. *)
Lemma flush_bitmap_spec cb d :
  bitmap_wf cb d → 0 < cb_bitmap_size_sectors cb < 256 →
  ∃ cb' d', flush_bitmap (cb, d) = (Ok tt, (cb', d')) ∧ bitmap_wf cb' d' ∧
    view cb' d' = view cb d ∧ disk_bitmap cb' d' = view cb d ∧
    cb' = cb_set_cache (cb_cached_bitmap cb) (cb_dirty cb && bool_decide (cb_cached_bitmap cb = None)) cb ∧
    (∀ dr, capacity d' dr = capacity d dr) ∧
    (∀ dr a, dr ≠ cb_drive cb ∨ a < cb_bitmap_start_sector cb ∨
             cb_bitmap_start_sector cb + cb_bitmap_size_sectors cb ≤ a →
             sector d' dr a = sector d dr a).
Proof.
  intros Hwf Hsz. destruct Hwf as [Hd Hst Hsz0 Htot (c & Hc & Hcap) Hca Hcl] eqn:E. clear E.
  unfold flush_bitmap, mbindM, get_self.
  destruct (cb_dirty cb) eqn:Ed; [destruct (cb_cached_bitmap cb) as [bm|] eqn:Eb|].
  - pose proof (capacity_bound _ _ _ Hc) as Hb.
    unfold view in Hca. rewrite Eb in Hca. cbn in Hca.
    unfold as_u8, as_u32. rewrite !Z.mod_small by lia. unfold on_world.
    destruct (ide_write_sectors_spec d (cb_drive cb) (cb_bitmap_size_sectors cb)
                (cb_bitmap_start_sector cb) bm c) as (d' & -> & Hw & Ho & Hc'); try done; try lia.
    assert (disk_bitmap cb d' = bm) as Hdb.
    { unfold disk_bitmap. rewrite <-(Z2Nat.id (cb_bitmap_size_sectors cb)) by lia.
      apply sectors_written; [unfold zlen in Hca; lia|]. intros x Hx. apply Hw. lia. }
    eexists _, d'. split; [done|]. split_and!.
    + split; try done. by exists c; rewrite Hc'.
    + unfold view. cbn. by rewrite Eb.
    + unfold view. rewrite Eb. exact Hdb.
    + by rewrite bool_decide_eq_false_2.
    + done.
    + intros dr a Ha. apply Ho. lia.
  - exists cb, d. split; [done|].
    assert (view cb d = disk_bitmap cb d) as Hv by (unfold view; by rewrite Eb).
    split_and!; try done. destruct cb; cbn in *. by subst.
  - exists cb, d. split; [done|]. specialize (Hcl eq_refl).
    split_and!; try done. destruct cb; cbn in *. by subst.
Qed.
End bitmap_spec.

Lemma free_count_loop_spec bm : ∀ n cluster acc,
  free_count_loop bm cluster n acc =
  acc + zlen (filter (λ c, free bm c = true) (seqZ cluster (Z.of_nat n))).
Proof.
  intros n. induction n as [|n IH]; intros cluster acc; cbn [free_count_loop].
  - change (seqZ cluster (Z.of_nat 0)) with (@nil Z). rewrite filter_nil. unfold zlen. cbn [length]. lia.
  - rewrite IH. rewrite (seqZ_cons cluster) by lia.
    replace (Z.pred (Z.of_nat (S n))) with (Z.of_nat n) by lia. rewrite filter_cons.
    change (match cluster_byte bm cluster with Some b => bit_is_free b (cluster `mod` 8) | None => false end)
      with (free bm cluster).
    replace (cluster + 1) with (Z.succ cluster) by lia.
    destruct (free bm cluster); case_decide; try done; unfold zlen; cbn [length]; lia.
Qed.

(** A small disk for the witnesses: one drive of 64 sectors, a bitmap of one
    sector at sector 1 for 40 clusters, clusters 0-3 and 6 used. *)
Definition demo_disk : RamDisk := mkRam {[0 := 64]} ∅.
Definition demo_bitmap : ClusterBitmap :=
  mkBitmap 0 1 1 40 4096 (Some (79 :: zeros 511)) true.

Lemma demo_bitmap_wf : bitmap_wf demo_bitmap demo_disk.
Proof.
  split; cbn -[zeros]; try lia; try done.
  exists 64. by vm_compute.
Qed.

(** ** Properties *)

(** First fit is exact. A search for [count > 0] clusters returns the lowest position at which
    [count] consecutive clusters are free inside the disk, and [None] only if there is none. *)
Theorem find_first_fit_exact cb bm count :
  0 < count → 0 ≤ cb_total_clusters cb → cb_cached_bitmap cb = Some bm →
  ∃ o, find_first_fit cb count = Ok o ∧
  match o with
  | Some r => cluster_count r = count ∧ window bm (cb_total_clusters cb) (start_cluster r) count ∧
              ∀ s, window bm (cb_total_clusters cb) s count → start_cluster r ≤ s
  | None => ∀ s, ¬ window bm (cb_total_clusters cb) s count
  end.
Proof. apply find_first_fit_spec. Qed.

Lemma find_first_fit_exact_witness :
  ∃ o, find_first_fit demo_bitmap 3 = Ok o ∧ o = Some (mkRun 7 3).
Proof.
  destruct (find_first_fit_exact demo_bitmap (79 :: zeros 511) 3) as (o & E & _);
    [lia|cbn; lia|reflexivity|].
  exists o. split; [exact E|]. vm_compute in E. congruence.
Defined.

(** Best fit is exact. The run returned lies at the start of a maximal free range that is
    long enough, and no maximal free range that is long enough is shorter; [None] only if every
    maximal free range is too short. *)
Theorem find_best_fit_exact cb bm count :
  0 ≤ cb_total_clusters cb → cb_cached_bitmap cb = Some bm →
  ∃ o, find_best_fit cb count = Ok o ∧
  match o with
  | Some r => cluster_count r = count ∧
      ∃ n, maximal bm (cb_total_clusters cb) (start_cluster r) n ∧ count ≤ n ∧
           ∀ s' n', maximal bm (cb_total_clusters cb) s' n' → count ≤ n' → n ≤ n'
  | None => ∀ s n, maximal bm (cb_total_clusters cb) s n → n < count
  end.
Proof. apply find_best_fit_spec. Qed.

Lemma find_best_fit_exact_witness :
  ∃ o, find_best_fit demo_bitmap 2 = Ok o ∧ o = Some (mkRun 4 2).
Proof.
  destruct (find_best_fit_exact demo_bitmap (79 :: zeros 511) 2) as (o & E & _);
    [cbn; lia|reflexivity|].
  exists o. split; [exact E|]. vm_compute in E. congruence.
Defined.

(** [flush_bitmap] truncates the sector count to a byte. For a bitmap of more than 256 sectors
    whose count is not a multiple of 256, the call succeeds and clears [dirty], but the sectors
    past the first [size mod 256] keep their old content. *)
Theorem flush_bitmap_truncates {D} `{SectorDevLaws D} cb (d : D) bm :
  bitmap_wf cb d → cb_dirty cb = true → cb_cached_bitmap cb = Some bm →
  256 < cb_bitmap_size_sectors cb → cb_bitmap_size_sectors cb `mod` 256 ≠ 0 →
  ∃ cb' d', flush_bitmap (cb, d) = (Ok tt, (cb', d')) ∧ cb_dirty cb' = false ∧
    ∀ a, cb_bitmap_start_sector cb + cb_bitmap_size_sectors cb `mod` 256 ≤ a →
         sector d' (cb_drive cb) a = sector d (cb_drive cb) a.
Proof.
  intros [Hd Hst Hsz Htot (c & Hc & Hcap) Hca Hcl] Hdirty Hbm Hbig Hmod.
  pose proof (capacity_bound _ _ _ Hc) as Hb.
  pose proof (Z.mod_pos_bound (cb_bitmap_size_sectors cb) 256 ltac:(lia)) as Hm.
  unfold view in Hca. rewrite Hbm in Hca. cbn in Hca.
  unfold flush_bitmap, mbindM, get_self. rewrite Hdirty, Hbm.
  unfold as_u8, as_u32. change (2 ^ 8) with 256. rewrite (Z.mod_small (cb_bitmap_start_sector cb)) by lia.
  unfold on_world.
  destruct (ide_write_sectors_spec d (cb_drive cb) (cb_bitmap_size_sectors cb `mod` 256)
              (cb_bitmap_start_sector cb) bm c) as (d' & -> & Hw & Ho & Hc'); try done; try lia.
  eexists _, d'. split; [done|]. split; [done|]. intros a Ha. apply Ho. lia.
Qed.

Lemma flush_bitmap_truncates_witness :
  let d := mkRam {[0 := 9000]} ∅ in
  ∃ bm cb' d', zlen bm = 300 * 512 ∧
    flush_bitmap (mkBitmap 0 8 300 1000000 4096 (Some bm) true, d) = (Ok tt, (cb', d')) ∧
    sector d' 0 60 = sector d 0 60.
Proof.
  intros d. assert (∃ bm : list Z, zlen bm = 300 * 512) as [bm Hbm].
  { exists (replicate (Z.to_nat (300 * 512)) 255). unfold zlen. rewrite length_replicate. lia. }
  destruct (flush_bitmap_truncates (mkBitmap 0 8 300 1000000 4096 (Some bm) true) d bm)
    as (cb' & d' & E & _ & Hs); try done.
  - split; cbn; try lia; try done. exists 9000. by vm_compute.
  - exists bm, cb', d'. split; [exact Hbm|]. split; [exact E|]. apply (Hs 60). by vm_compute.
Defined.
