(* ===== verification/Allocator.v ===== *)
(** * The cluster allocator ([ClusterAllocator], [crates/galleon2/src/allocation.rs])

    The allocator finds free clusters in the bitmap, marks them and records, per
    file record number, the runs each file holds. The invariant [alloc_inv] ties
    the three together: what is recorded is marked used, and no cluster belongs
    to two files. *)

From S2P Require Import Prelude Device Runs Bitmap.

(** [ClusterAllocator] *)
Record ClusterAllocator := mkAlloc {
  al_bitmap : ClusterBitmap;
  al_strategy : AllocationStrategy;
  al_allocated_runs : gmap Z RunList;
}.

Definition cluster_allocator_new (bitmap : ClusterBitmap) (strategy : AllocationStrategy) : ClusterAllocator :=
  mkAlloc bitmap strategy ∅.

Definition al_set_runs (m : gmap Z RunList) (al : ClusterAllocator) : ClusterAllocator :=
  mkAlloc (al_bitmap al) (al_strategy al) m.

Section allocator.
Context {D : Type} `{SectorDev D}.

Abbreviation AM := (M (ClusterAllocator * D) FilesystemError).

(** A call on [self.bitmap]. *)
Definition on_bitmap {A} (m : M (ClusterBitmap * D) FilesystemError A) : AM A := λ '(al, d),
  let '(r, (cb, d')) := m (al_bitmap al, d) in
  (r, (mkAlloc cb (al_strategy al) (al_allocated_runs al), d')).

(** [self.allocated_runs.entry(f).or_insert_with(RunList::new).add_run(run)] *)
Definition track_run (file_record_number : Z) (run : ClusterRun) : AM unit :=
  let! al := get_self in
  let rl := default run_list_new (al_allocated_runs al !! file_record_number) in
  let! rl' := mlift (add_run rl run) in
  set_self (al_set_runs (<[file_record_number := rl']> (al_allocated_runs al)) al).

Definition allocate_clusters (file_record_number count : Z) : AM ClusterRun :=
  let! al := get_self in
  let! found := on_bitmap (find_free_clusters count (al_strategy al)) in
  match found with
  | Some run =>
      let! _ := on_bitmap (mark_run_used run) in
      let! _ := track_run file_record_number run in
      let! _ := on_bitmap flush_bitmap in
      mok run
  | None => merr InsufficientSpace
  end.

Definition deallocate_clusters (file_record_number : Z) (run : ClusterRun) : AM unit :=
  let! _ := on_bitmap (mark_run_free run) in
  let! al := get_self in
  let! _ := match al_allocated_runs al !! file_record_number with
            | Some rl =>
                let! (rl', _) := mlift (remove_run rl run) in
                set_self (al_set_runs
                  (match runs rl' with
                   | [] => delete file_record_number (al_allocated_runs al)
                   | _ => <[file_record_number := rl']> (al_allocated_runs al)
                   end) al)
            | None => mok tt
            end in
  on_bitmap flush_bitmap.

Definition deallocate_all_clusters (file_record_number : Z) : AM unit :=
  let! al := get_self in
  match al_allocated_runs al !! file_record_number with
  | Some rl =>
      let! _ := set_self (al_set_runs (delete file_record_number (al_allocated_runs al)) al) in
      let! _ := mfor (runs rl) (λ run, on_bitmap (mark_run_free run)) in
      on_bitmap flush_bitmap
  | None => mok tt
  end.

Definition get_file_runs (al : ClusterAllocator) (file_record_number : Z) : option RunList :=
  al_allocated_runs al !! file_record_number.

(** The loop of [extend_allocation] that tests the clusters after the last run. *)
Fixpoint all_clusters_free (cs : list Z) : AM bool :=
  match cs with
  | [] => mok true
  | c :: cs =>
      let! f := on_bitmap (is_cluster_free c) in
      if f : bool then all_clusters_free cs else mok false
  end.

Definition extend_allocation (file_record_number additional_clusters : Z) : AM ClusterRun :=
  let! al := get_self in
  match al_allocated_runs al !! file_record_number with
  | Some rl =>
      match last (runs rl) with
      | Some last_run =>
          let! e := mlift (end_cluster last_run) in
          let! next_cluster := mlift (add64 e 1) in
          let! _ := mlift (add64 next_cluster additional_clusters) in
          let! can_extend := all_clusters_free (seqZ next_cluster additional_clusters) in
          if can_extend : bool then
            let extended_run := mkRun next_cluster additional_clusters in
            let! _ := on_bitmap (mark_run_used extended_run) in
            let! al := get_self in
            let! _ := match al_allocated_runs al !! file_record_number with
                      | Some rl =>
                          let! rl' := mlift (add_run rl extended_run) in
                          set_self (al_set_runs (<[file_record_number := rl']> (al_allocated_runs al)) al)
                      | None => mok tt
                      end in
            let! _ := on_bitmap flush_bitmap in
            mok extended_run
          else allocate_clusters file_record_number additional_clusters
      | None => allocate_clusters file_record_number additional_clusters
      end
  | None => allocate_clusters file_record_number additional_clusters
  end.

Definition get_total_allocated (al : ClusterAllocator) (file_record_number : Z) : Z :=
  match al_allocated_runs al !! file_record_number with
  | Some rl => total_clusters rl
  | None => 0
  end.

Definition get_free_space : AM Z :=
  let! free_clusters := on_bitmap get_free_cluster_count in
  mlift (mul64 free_clusters CLUSTER_SIZE).

Definition defragment_file (file_record_number : Z) : AM unit :=
  let! al := get_self in
  match al_allocated_runs al !! file_record_number with
  | Some current_runs =>
      let! found := on_bitmap (find_free_clusters (total_clusters current_runs) FirstFit) in
      match found with
      | Some new_run =>
          let! _ := on_bitmap (mark_run_used new_run) in
          let! _ := mfor (runs current_runs) (λ old_run, on_bitmap (mark_run_free old_run)) in
          let! new_run_list := mlift (add_run run_list_new new_run) in
          let! al := get_self in
          let! _ := set_self (al_set_runs (<[file_record_number := new_run_list]> (al_allocated_runs al)) al) in
          on_bitmap flush_bitmap
      | None => mok tt
      end
  | None => mok tt
  end.

Definition read_cluster (cluster : Z) (buffer : list Z) : AM (list Z) :=
  if bool_decide (zlen buffer < CLUSTER_SIZE) then merr InvalidParameter else
  let! al := get_self in
  let! sector_start := mlift (mul64 cluster SECTORS_PER_CLUSTER) in
  on_world (ide_read_sectors (cb_drive (al_bitmap al)) (as_u8 SECTORS_PER_CLUSTER)
              (as_u32 sector_start) buffer).

Definition write_cluster (cluster : Z) (buffer : list Z) : AM unit :=
  if bool_decide (zlen buffer < CLUSTER_SIZE) then merr InvalidParameter else
  let! al := get_self in
  let! sector_start := mlift (mul64 cluster SECTORS_PER_CLUSTER) in
  on_world (ide_write_sectors (cb_drive (al_bitmap al)) (as_u8 SECTORS_PER_CLUSTER)
              (as_u32 sector_start) buffer).
End allocator.

(** ** What the bitmap calls do, in one form

    [effect cb d cb' d' P]: the call kept the geometry, the well-formedness and
    every sector outside the bitmap area, and afterwards cluster [c] is free
    exactly when [P c]. *)
Section effects.
Context {D : Type} `{SectorDevLaws D}.
Implicit Types (cb : ClusterBitmap) (d : D).

Definition geometry cb cb' : Prop := ∃ bm b, cb' = cb_set_cache bm b cb.

Definition outside_kept cb d d' : Prop :=
  (∀ dr, capacity d' dr = capacity d dr) ∧
  (∀ dr a, dr ≠ cb_drive cb ∨ a < cb_bitmap_start_sector cb ∨
           cb_bitmap_start_sector cb + cb_bitmap_size_sectors cb ≤ a →
           sector d' dr a = sector d dr a).

Record effect cb d cb' d' (P : Z → bool) : Prop := {
  ef_wf : bitmap_wf cb' d';
  ef_geometry : geometry cb cb';
  ef_outside : outside_kept cb d d';
  ef_free : ∀ c, 0 ≤ c → free (view cb' d') c = P c;
}.

Lemma same_disk_outside cb d d' : same_disk d d' → outside_kept cb d d'.
Proof. intros [Hs Hc]. split; auto. Qed.

Lemma effect_refl cb d : bitmap_wf cb d → effect cb d cb d (free (view cb d)).
Proof.
  intros Hwf. split; try done. exists (cb_cached_bitmap cb), (cb_dirty cb). by destruct cb.
Qed.

Lemma effect_trans cb d cb1 d1 cb2 d2 P Q :
  effect cb d cb1 d1 P → effect cb1 d1 cb2 d2 Q → effect cb d cb2 d2 Q.
Proof.
  intros [_ (bm & b & ->) [Hc Ho] _] [Hwf (bm' & b' & ->) [Hc' Ho'] Hf]. cbn in *. split; try done.
  - by exists bm', b'.
  - split; [congruence|]. intros dr a Ha. rewrite Ho', Ho; done.
Qed.

Lemma effect_ext cb d cb' d' P Q :
  (∀ c, 0 ≤ c → P c = Q c) → effect cb d cb' d' P → effect cb d cb' d' Q.
Proof. intros E [Hwf Hg Ho Hf]. split; try done. intros c Hc. by rewrite Hf, E. Qed.

Lemma mark_run_used_effect cb d run :
  bitmap_wf cb d → run_inside cb run →
  ∃ cb' d', mark_run_used run (cb, d) = (Ok tt, (cb', d')) ∧
    effect cb d cb' d' (λ c, free (view cb d) c && negb (bool_decide (in_run run c))).
Proof.
  intros Hwf Hin. destruct (mark_run_used_spec cb d run) as (bm & d' & E & Hs & Hwf' & Hf); [done..|].
  eexists _, _. split; [exact E|]. split; [done|by eexists _, _|by apply same_disk_outside|done].
Qed.

Lemma mark_run_free_effect cb d run :
  bitmap_wf cb d → run_inside cb run →
  ∃ cb' d', mark_run_free run (cb, d) = (Ok tt, (cb', d')) ∧
    effect cb d cb' d' (λ c, free (view cb d) c || bool_decide (in_run run c)).
Proof.
  intros Hwf Hin. destruct (mark_run_free_spec cb d run) as (bm & d' & E & Hs & Hwf' & Hf); [done..|].
  eexists _, _. split; [exact E|]. split; [done|by eexists _, _|by apply same_disk_outside|done].
Qed.

Lemma flush_bitmap_effect cb d :
  bitmap_wf cb d → 0 < cb_bitmap_size_sectors cb < 256 →
  ∃ cb' d', flush_bitmap (cb, d) = (Ok tt, (cb', d')) ∧
    effect cb d cb' d' (free (view cb d)) ∧ disk_bitmap cb' d' = view cb' d'.
Proof.
  intros Hwf Hsz. destruct (flush_bitmap_spec cb d) as (cb' & d' & E & Hwf' & Hv & Hdb & Hcb & Hc & Ho); [done..|].
  eexists _, _. split; [exact E|]. split; [|congruence].
  split; [done|by eexists _, _|by split|]. intros c _. by rewrite Hv.
Qed.

Lemma is_cluster_free_effect cb d c :
  bitmap_wf cb d → 0 ≤ c →
  ∃ cb' d', is_cluster_free c (cb, d) = (Ok (bool_decide (c < cb_total_clusters cb) && free (view cb d) c), (cb', d')) ∧
    effect cb d cb' d' (free (view cb d)).
Proof.
  intros Hwf Hc. destruct (is_cluster_free_spec cb d c) as (cb' & d' & E & Hs & Hwf' & Hv & Hg); [done..|].
  eexists _, _. split; [exact E|]. split; [done|done|by apply same_disk_outside|].
  intros c' _. by rewrite Hv.
Qed.
End effects.

(** Every free window lies in a maximal free range. *)
Lemma window_right bm total s n :
  0 < n → window bm total s n →
  ∃ n', n ≤ n' ∧ window bm total s n' ∧ (s + n' = total ∨ free bm (s + n') = false).
Proof.
  remember (Z.to_nat (total - (s + n))) as k eqn:Ek. revert n Ek.
  induction k as [|k IH]; intros n Ek Hn (H0 & Hle & Hf).
  - exists n. split; [lia|]. split; [done|]. lia.
  - destruct (free bm (s + n)) eqn:E.
    + destruct (IH (n + 1)) as (n' & ? & ? & ?); [lia|lia| |exists n'; split; [lia|done]].
      split_and!; [lia..|]. intros c Hc. destruct (decide (c = s + n)) as [->|]; [done|]. apply Hf. lia.
    + exists n. split; [lia|]. split; [done|]. by right.
Qed.

Lemma window_left bm total s n :
  0 < n → window bm total s n →
  ∃ s', s' ≤ s ∧ window bm total s' (s + n - s') ∧ (s' = 0 ∨ free bm (s' - 1) = false).
Proof.
  remember (Z.to_nat s) as k eqn:Ek. revert s n Ek.
  induction k as [|k IH]; intros s n Ek Hn (H0 & Hle & Hf).
  - exists s. replace (s + n - s) with n by lia. split; [lia|]. split; [done|]. lia.
  - destruct (free bm (s - 1)) eqn:E.
    + destruct (IH (s - 1) (n + 1)) as (s' & ? & Hw & ?); [lia|lia| |].
      * split_and!; [lia..|]. intros c Hc. destruct (decide (c = s - 1)) as [->|]; [done|]. apply Hf. lia.
      * exists s'. split; [lia|]. split; [|done]. by replace (s + n - s') with (s - 1 + (n + 1) - s') by lia.
    + exists s. replace (s + n - s) with n by lia. split; [lia|]. split; [done|]. by right.
Qed.

Lemma window_maximal bm total s n :
  0 < n → window bm total s n → ∃ s' n', maximal bm total s' n' ∧ n ≤ n'.
Proof.
  intros Hn Hw. destruct (window_right _ _ _ _ Hn Hw) as (n1 & Hn1 & Hw1 & Hr).
  destruct (window_left bm total s n1) as (s' & Hs' & (H0 & Hle & Hf) & Hl); [lia|done|].
  exists s', (s + n1 - s'). split; [|lia].
  unfold maximal. replace (s' + (s + n1 - s')) with (s + n1) by lia.
  replace (s' + (s + n1 - s')) with (s + n1) in * by lia. split_and!; auto; lia.
Qed.

Section find_effect.
Context {D : Type} `{SectorDevLaws D}.
Implicit Types (cb : ClusterBitmap) (d : D).

(** Whatever the strategy: a free window of the size asked for, or none exists. *)
Lemma find_free_clusters_effect cb d count strategy :
  bitmap_wf cb d → 0 < count →
  ∃ o cb' d', find_free_clusters count strategy (cb, d) = (Ok o, (cb', d')) ∧
    effect cb d cb' d' (free (view cb d)) ∧
    match o with
    | Some r => cluster_count r = count ∧
                window (view cb d) (cb_total_clusters cb) (start_cluster r) count
    | None => ∀ s, ¬ window (view cb d) (cb_total_clusters cb) s count
    end.
Proof.
  intros Hwf Hc. destruct (load_bitmap_spec cb d Hwf) as (d' & El & Hs).
  unfold find_free_clusters, mbindM. rewrite El. cbn [get_self mlift].
  set (cb1 := cb_set_cache _ _ cb).
  assert (effect cb d cb1 d' (free (view cb d))) as He.
  { split; [|by eexists _, _|by apply same_disk_outside|done].
    apply (bitmap_wf_same _ d); [done|]. apply bitmap_wf_cache; [done|apply Hwf|].
    intros Hb. pose proof (wf_clean _ _ Hwf) as Hcl. unfold view in *.
    destruct (cb_cached_bitmap cb) as [bm|]; [|done].
    rewrite bool_decide_eq_true_2, andb_true_r in Hb by eauto. by apply Hcl. }
  pose proof (wf_total _ _ Hwf) as Ht.
  assert (cb_cached_bitmap cb1 = Some (view cb d)) as Hca by done.
  destruct (find_first_fit_spec cb1 (view cb d) count) as (o & Ef & Ho); [lia|cbn; lia|done|].
  destruct (find_best_fit_spec cb1 (view cb d) count) as (o' & Eb & Ho'); [cbn; lia|done|].
  destruct strategy.
  - rewrite Ef. exists o, cb1, d'. split; [done|]. split; [done|].
    destruct o; [|done]. split; apply Ho.
  - rewrite Eb. exists o', cb1, d'. split; [done|]. split; [done|].
    destruct o' as [r|].
    + destruct Ho' as (? & n & (? & ? & ? & Hf & _) & ? & _). split; [done|].
      cbn in *. split_and!; [lia..|]. intros c ?. apply Hf. lia.
    + intros s Hw. apply window_maximal in Hw as (s' & n' & Hm & ?); [|done].
      apply Ho' in Hm. lia.
  - unfold find_next_fit. rewrite Ef. exists o, cb1, d'. split; [done|]. split; [done|].
    destruct o; [|done]. split; apply Ho.
Qed.

Lemma window_inside cb d r count :
  bitmap_wf cb d → 0 < cb_bitmap_size_sectors cb < 256 → 0 < count → cluster_count r = count →
  window (view cb d) (cb_total_clusters cb) (start_cluster r) count → run_inside cb r.
Proof.
  intros Hwf Hsz Hc <- (Hst & Hle & _). pose proof (wf_total _ _ Hwf).
  split; runs_unfold; [|lia]. split_and!; lia.
Qed.
End find_effect.

(** ** The allocator's invariant *)
Section alloc_spec.
Context {D : Type} `{SectorDevLaws D}.
Implicit Types (al : ClusterAllocator) (d : D) (f g c : Z).

(** File [f] holds cluster [c]. *)
Definition owns al f c : Prop :=
  ∃ rl, al_allocated_runs al !! f = Some rl ∧ in_runs (runs rl) c.

Definition cluster_free al d c : bool := free (view (al_bitmap al) d) c.

(** The run lists are in normal form and not empty; every cluster a file holds
    is on the disk and marked used; no two files hold the same cluster. *)
Record alloc_inv al d : Prop := {
  ai_wf : bitmap_wf (al_bitmap al) d;
  ai_size : 0 < cb_bitmap_size_sectors (al_bitmap al) < 256;
  ai_runs : ∀ f rl, al_allocated_runs al !! f = Some rl → runlist_inv rl ∧ runs rl ≠ [];
  ai_used : ∀ f c, owns al f c →
    0 ≤ c < cb_total_clusters (al_bitmap al) ∧ cluster_free al d c = false;
  ai_disjoint : ∀ f g c, owns al f c → owns al g c → f = g;
}.

Abbreviation al_effect al d al' d' P := (effect (al_bitmap al) d (al_bitmap al') d' P).

Lemma on_bitmap_eq {A} (m : M (ClusterBitmap * D) FilesystemError A) al d r cb d' :
  m (al_bitmap al, d) = (r, (cb, d')) →
  on_bitmap m (al, d) = (r, (mkAlloc cb (al_strategy al) (al_allocated_runs al), d')).
Proof. intros E. unfold on_bitmap. by rewrite E. Qed.

Lemma on_bitmap_mk {A} (m : M (ClusterBitmap * D) FilesystemError A) cb st rs d r cb' d' :
  m (cb, d) = (r, (cb', d')) → on_bitmap m (mkAlloc cb st rs, d) = (r, (mkAlloc cb' st rs, d')).
Proof. intros E. unfold on_bitmap. cbn. by rewrite E. Qed.

Lemma owns_insert al f rl g c :
  owns (al_set_runs (<[f := rl]> (al_allocated_runs al)) al) g c ↔
  (g = f ∧ in_runs (runs rl) c) ∨ (g ≠ f ∧ owns al g c).
Proof.
  unfold owns. cbn. destruct (decide (g = f)) as [->|Hne].
  - rewrite lookup_insert_eq. split; [intros (? & [= <-] & ?); auto|].
    intros [[_ ?]|[? _]]; [eauto|done].
  - rewrite lookup_insert_ne by done. split; [eauto|]. intros [[? _]|[_ ?]]; [done|auto].
Qed.

Lemma owns_delete al f g c :
  owns (al_set_runs (delete f (al_allocated_runs al)) al) g c ↔ g ≠ f ∧ owns al g c.
Proof.
  unfold owns. cbn. destruct (decide (g = f)) as [->|Hne].
  - rewrite lookup_delete_eq. split; [by intros (? & ? & ?)|]. by intros [? _].
  - rewrite lookup_delete_ne by done. split; [eauto|]. by intros [_ ?].
Qed.

(** How the invariant is re-established after a call. *)
Lemma alloc_inv_effect al d al' d' P :
  alloc_inv al d → al_effect al d al' d' P →
  (∀ f rl, al_allocated_runs al' !! f = Some rl → runlist_inv rl ∧ runs rl ≠ []) →
  (∀ f c, owns al' f c → 0 ≤ c < cb_total_clusters (al_bitmap al) ∧ P c = false) →
  (∀ f g c, owns al' f c → owns al' g c → f = g) →
  alloc_inv al' d'.
Proof.
  intros [Hwf Hsz Hr Hu Hd] [Hwf' (bm & b & Hg) Ho Hf] Hr' Hu' Hd'.
  split; try done; rewrite ?Hg; try done.
  intros f c Hc. destruct (Hu' f c Hc) as [? HP]. split; [done|].
  unfold cluster_free. rewrite Hf; [done|lia].
Qed.

(** Reading the bitmap changes nothing the invariant speaks about. *)
Lemma alloc_inv_read al d cb d' :
  alloc_inv al d → effect (al_bitmap al) d cb d' (free (view (al_bitmap al) d)) →
  alloc_inv (mkAlloc cb (al_strategy al) (al_allocated_runs al)) d'.
Proof.
  intros Hi He.
  apply (alloc_inv_effect al d (mkAlloc cb (al_strategy al) (al_allocated_runs al)) d' _ Hi He); apply Hi.
Qed.

Lemma in_runs_run l r c : r ∈ l → in_run r c → in_runs l c.
Proof. intros. apply Exists_exists. eauto. Qed.

Lemma in_runs_inv l c : in_runs l c → ∃ r, r ∈ l ∧ in_run r c.
Proof. intros Hc. by apply Exists_exists in Hc. Qed.

(** The runs a file holds are inside the disk. *)
Lemma owned_run_inside al d f rl r :
  alloc_inv al d → al_allocated_runs al !! f = Some rl → r ∈ runs rl →
  run_inside (al_bitmap al) r.
Proof.
  intros Hi Hf Hr. destruct (ai_runs _ _ Hi f rl Hf) as [[Hs _] _].
  apply separated_Forall in Hs. rewrite Forall_forall in Hs. pose proof (Hs r Hr) as Hok.
  split; [done|].
  destruct (ai_used _ _ Hi f (run_end r - 1)) as [Hc _]; [|lia].
  exists rl. split; [done|]. apply (in_runs_run _ r); [done|]. runs_unfold. lia.
Qed.

Lemma runlist_inv_new : runlist_inv run_list_new.
Proof. by split. Qed.

(** [add_run] on the list of file [f], for a run no cluster of which it holds. *)
Lemma add_run_file al d f run :
  alloc_inv al d → run_ok run → (∀ c, in_run run c → ¬ owns al f c) →
  ∃ rl', add_run (default run_list_new (al_allocated_runs al !! f)) run = Ok rl' ∧
    runlist_inv rl' ∧ runs rl' ≠ [] ∧ ∀ c, in_runs (runs rl') c ↔ owns al f c ∨ in_run run c.
Proof.
  intros Hi Hrun Hnew.
  set (rl := default run_list_new (al_allocated_runs al !! f)).
  assert (∀ c, in_runs (runs rl) c ↔ owns al f c) as Hrl.
  { intros c. unfold rl, owns. destruct (al_allocated_runs al !! f) as [rl0|]; cbn.
    - split; [eauto|]. by intros (? & [= <-] & ?).
    - rewrite in_runs_nil. split; [done|]. by intros (? & ? & _). }
  destruct (add_run_ok rl run) as (rl' & E & Hinv & Hin & _); [|done| |].
  - unfold rl. destruct (al_allocated_runs al !! f) as [rl0|] eqn:E; cbn.
    + by apply (ai_runs _ _ Hi f).
    + apply runlist_inv_new.
  - apply Forall_forall. intros r Hr c [Hc Hc']. apply (Hnew c Hc), Hrl. by eapply in_runs_run.
  - exists rl'. split; [done|]. split; [done|]. split.
    + intros E0. assert (in_runs (runs rl') (start_cluster run)) as Hs
        by (apply Hin; right; runs_unfold; lia).
      rewrite E0 in Hs. by apply in_runs_nil in Hs.
    + intros c. by rewrite Hin, Hrl.
Qed.

(** What a successful allocation of [run] to [f] leaves. *)
Definition allocated al d f run al' d' : Prop :=
  alloc_inv al' d' ∧ run_inside (al_bitmap al) run ∧
  (∀ c, in_run run c → cluster_free al d c = true) ∧
  (∀ c, 0 ≤ c → cluster_free al' d' c = cluster_free al d c && negb (bool_decide (in_run run c))) ∧
  (∀ g c, owns al' g c ↔ owns al g c ∨ g = f ∧ in_run run c) ∧
  disk_bitmap (al_bitmap al') d' = view (al_bitmap al') d' ∧
  outside_kept (al_bitmap al) d d' ∧ geometry (al_bitmap al) (al_bitmap al').

(** Marking a free run, recording it for [f] and flushing. *)
Lemma take_run al d f run :
  alloc_inv al d → run_inside (al_bitmap al) run → (∀ c, in_run run c → cluster_free al d c = true) →
  ∃ rl' cb1 d1 cb2 d2,
    mark_run_used run (al_bitmap al, d) = (Ok tt, (cb1, d1)) ∧
    add_run (default run_list_new (al_allocated_runs al !! f)) run = Ok rl' ∧
    flush_bitmap (cb1, d1) = (Ok tt, (cb2, d2)) ∧
    allocated al d f run (mkAlloc cb2 (al_strategy al) (<[f := rl']> (al_allocated_runs al))) d2.
Proof.
  intros Hi Hin Hfree.
  assert (∀ g c, in_run run c → ¬ owns al g c) as Hnew.
  { intros g c Hc Ho. apply (ai_used _ _ Hi) in Ho as [_ Ho]. rewrite Hfree in Ho; done. }
  destruct (add_run_file al d f run) as (rl' & Ea & Hrl & Hne & Hcov); [done|apply Hin|apply Hnew|].
  destruct (mark_run_used_effect (al_bitmap al) d run) as (cb1 & d1 & Em & He1); [apply Hi|done|].
  assert (0 < cb_bitmap_size_sectors cb1 < 256) as Hsz1.
  { destruct He1 as [_ (? & ? & ->) _ _]. apply Hi. }
  destruct (flush_bitmap_effect cb1 d1) as (cb2 & d2 & Ef & He2 & Hdb); [apply He1|done|].
  exists rl', cb1, d1, cb2, d2. split_and!; [done..|].
  assert (He : effect (al_bitmap al) d cb2 d2
                 (λ c, free (view (al_bitmap al) d) c && negb (bool_decide (in_run run c)))).
  { eapply effect_trans; [exact He1|]. eapply effect_ext; [|exact He2]. apply He1. }
  set (al' := mkAlloc cb2 _ _).
  assert (∀ g c, owns al' g c ↔ owns al g c ∨ g = f ∧ in_run run c) as Hown.
  { intros g c. pose proof (owns_insert al f rl' g c) as Ho. unfold owns in *. cbn in *.
    rewrite Ho, Hcov. destruct (decide (g = f)) as [->|]; tauto. }
  split_and!; [|done|done|apply He|done|done|apply He|apply He].
  apply (alloc_inv_effect al d al' d2 _ Hi He).
  - intros g rl. cbn. destruct (decide (g = f)) as [->|].
    + rewrite lookup_insert_eq. by intros [= <-].
    + rewrite lookup_insert_ne by done. apply Hi.
  - intros g c Hc. apply Hown in Hc as [Hc|[-> Hc]].
    + apply (ai_used _ _ Hi) in Hc as [? Hc]. split; [done|]. unfold cluster_free in Hc. by rewrite Hc.
    + destruct Hin. split; [runs_unfold; lia|]. rewrite bool_decide_eq_true_2 by done. apply andb_false_r.
  - intros g1 g2 c H1 H2. apply Hown in H1 as [H1|[-> H1]], H2 as [H2|[-> H2]]; [|by eapply Hnew in H1..|done].
    by apply (ai_disjoint _ _ Hi g1 g2 c).
Qed.

(** What a call that found no room leaves. *)
Definition no_room al d count al' d' : Prop :=
  alloc_inv al' d' ∧ (∀ s, ¬ window (view (al_bitmap al) d) (cb_total_clusters (al_bitmap al)) s count) ∧
  (∀ c, 0 ≤ c → cluster_free al' d' c = cluster_free al d c) ∧
  al_allocated_runs al' = al_allocated_runs al ∧ outside_kept (al_bitmap al) d d' ∧ geometry (al_bitmap al) (al_bitmap al').

Lemma window_free al d r count :
  cluster_count r = count →
  window (view (al_bitmap al) d) (cb_total_clusters (al_bitmap al)) (start_cluster r) count →
  ∀ c, in_run r c → cluster_free al d c = true.
Proof. intros <- (_ & _ & Hf) c Hc. apply Hf. runs_unfold. lia. Qed.

(** [allocated] only looks at what the bitmap says, so a read before it does not matter. *)
Lemma allocated_read al d cb d1 f run al' d' :
  effect (al_bitmap al) d cb d1 (free (view (al_bitmap al) d)) →
  allocated (mkAlloc cb (al_strategy al) (al_allocated_runs al)) d1 f run al' d' →
  allocated al d f run al' d'.
Proof.
  intros [Hwf (bm & b & ->) [Hc Ho] Hf] (Hi & Hin & Hfr & Hfr' & Hown & Hdb & [Hc' Ho'] & (bm' & b' & Hg)).
  assert (∀ c, 0 ≤ c → cluster_free (mkAlloc (cb_set_cache bm b (al_bitmap al)) (al_strategy al) (al_allocated_runs al)) d1 c
                     = cluster_free al d c) as Hsame by exact Hf.
  split_and!; [done|done| | |done|done| |by exists bm', b'].
  - intros c Hr. rewrite <-Hsame; [by apply Hfr|]. destruct Hin as [Hok _]. runs_unfold. lia.
  - intros c H0c. rewrite Hfr', Hsame by done. done.
  - split; [intros; by rewrite Hc', Hc|]. intros dr a Ha. rewrite Ho', Ho; done.
Qed.

Lemma allocate_clusters_ok al d f count :
  alloc_inv al d → 0 < count →
  (∃ run al' d', allocate_clusters f count (al, d) = (Ok run, (al', d')) ∧
     cluster_count run = count ∧ allocated al d f run al' d') ∨
  (∃ al' d', allocate_clusters f count (al, d) = (Err InsufficientSpace, (al', d')) ∧
     no_room al d count al' d').
Proof.
  intros Hi Hc.
  destruct (find_free_clusters_effect (al_bitmap al) d count (al_strategy al))
    as (o & cb & d1 & Ef & He & Ho); [apply Hi|done|].
  pose proof (alloc_inv_read _ _ _ _ Hi He) as Hi1.
  remember (allocate_clusters f count (al, d)) as p eqn:Ep.
  unfold allocate_clusters in Ep. unfold mbindM at 1 in Ep. cbn [get_self] in Ep.
  unfold mbindM at 1 in Ep. rewrite (on_bitmap_eq _ _ _ _ _ _ Ef) in Ep. subst p.
  destruct o as [run|].
  - left. destruct Ho as [Hn Hw]. set (al1 := mkAlloc cb _ _) in *.
    assert (run_inside (al_bitmap al1) run) as Hin.
    { destruct He as [_ (? & ? & ->) _ _].
      by apply (window_inside (al_bitmap al) d run count); [apply Hi|apply Hi|..]. }
    destruct (take_run al1 d1 f run) as (rl' & cb1 & d2 & cb2 & d3 & Em & Ea & Efl & Hal); [done..| |].
    { intros c Hcr. rewrite <-(window_free al d run count Hn Hw c Hcr). apply (ef_free _ _ _ _ _ He).
      destruct Hin as [Hok _]. runs_unfold. lia. }
    exists run, (mkAlloc cb2 (al_strategy al) (<[f := rl']> (al_allocated_runs al))), d3.
    split; [|split; [done|by eapply allocated_read]].
    unfold mbindM at 1. rewrite (on_bitmap_eq _ _ _ _ _ _ Em).
    unfold mbindM, track_run, mbindM, get_self, mlift, set_self.
    cbn [al_allocated_runs al_strategy al1] in *. rewrite Ea. unfold al_set_runs. cbn [al_bitmap al_strategy al_allocated_runs].
    by rewrite (on_bitmap_mk _ _ _ _ _ _ _ _ Efl).
  - right. eexists _, _. split; [reflexivity|]. split_and!; [done|done|apply He|done|apply He|apply He].
Qed.

(** The loop of [extend_allocation]: are all these clusters free? *)
Lemma all_clusters_free_ok cs : ∀ al d,
  alloc_inv al d → Forall (λ c, 0 ≤ c) cs →
  ∃ b cb d', all_clusters_free cs (al, d) = (Ok b, (mkAlloc cb (al_strategy al) (al_allocated_runs al), d')) ∧
    effect (al_bitmap al) d cb d' (free (view (al_bitmap al) d)) ∧
    (b = true ↔ Forall (λ c, c < cb_total_clusters (al_bitmap al) ∧ cluster_free al d c = true) cs).
Proof.
  induction cs as [|c cs IH]; intros al d Hi Hcs.
  - exists true, (al_bitmap al), d. split; [by destruct al|]. split; [apply effect_refl, Hi|]. split; [by constructor|done].
  - apply Forall_cons in Hcs as [Hc Hcs].
    destruct (is_cluster_free_effect (al_bitmap al) d c) as (cb & d1 & E & He); [apply Hi|done|].
    cbn [all_clusters_free]. unfold mbindM. rewrite (on_bitmap_eq _ _ _ _ _ _ E).
    case_bool_decide as Hlt; cbn [andb]; [destruct (free (view (al_bitmap al) d) c) eqn:Ef|].
    2: { exists false, cb, d1. split; [done|]. split; [done|]. split; [done|]. intros [[_ Hfr] _]%Forall_cons. unfold cluster_free in Hfr. congruence. }
    2: { exists false, cb, d1. split; [done|]. split; [done|]. split; [done|]. intros [[? _] _]%Forall_cons. lia. }
    pose proof (alloc_inv_read _ _ _ _ Hi He) as Hi1.
    destruct (IH _ _ Hi1 Hcs) as (b & cb' & d' & El & He' & Hb). exists b, cb', d'.
    split; [exact El|]. split.
    + eapply effect_trans; [exact He|]. eapply effect_ext; [|exact He']. apply He.
    + rewrite Hb, Forall_cons. destruct He as [_ (? & ? & ->) _ Hf].
      assert (∀ y, y ∈ cs → free (view (cb_set_cache x x0 (al_bitmap al)) d1) y = cluster_free al d y) as Hsame.
      { intros y Hy. rewrite Forall_forall in Hcs. apply Hf. by apply Hcs. }
      rewrite !Forall_forall. split.
      * intros Hall. split; [done|]. intros y Hy. destruct (Hall y Hy) as [? Hy']. split; [done|]. rewrite <-Hy'. symmetry. by apply Hsame.
      * intros [_ Hall] y Hy. destruct (Hall y Hy) as [? Hy']. split; [done|]. rewrite <-Hy'. by apply Hsame.
Qed.

(** The last cluster that [f] holds is followed by [count] free ones. *)
Definition room_after al d f count m : Prop :=
  owns al f m ∧ (∀ c, owns al f c → c ≤ m) ∧
  ∀ c, m < c ≤ m + count → c < cb_total_clusters (al_bitmap al) ∧ cluster_free al d c = true.

Lemma separated_last_max lo l r c : separated lo (l ++ [r]) → in_runs (l ++ [r]) c → c < run_end r.
Proof.
  revert lo. induction l as [|x l IH]; intros lo; cbn [app separated].
  - intros _ [Hc|Hc%in_runs_nil]%in_runs_cons; [|done]. runs_unfold. lia.
  - intros (_ & Hx & Hs) [Hc|Hc]%in_runs_cons; [|by eapply IH].
    assert (start_cluster x + cluster_count x < run_end r) as ?; [|runs_unfold; lia]. clear -Hs Hx.
    revert x Hx Hs. induction l as [|y l IH]; intros x Hx; cbn [app separated]; [intros (? & ? & _); runs_unfold; lia|].
    intros (? & Hy & Hs). specialize (IH y Hy Hs). runs_unfold. lia.
Qed.

(** The last run of a file ends with the last cluster it holds. *)
Lemma last_run_max al d f rl r : alloc_inv al d → al_allocated_runs al !! f = Some rl → last (runs rl) = Some r →
  owns al f (run_end r - 1) ∧ ∀ c, owns al f c → c ≤ run_end r - 1.
Proof.
  intros Hi Erl El. destruct (ai_runs _ _ Hi f rl Erl) as [[Hs _] _]. apply last_Some in El as (l & El). rewrite El in Hs.
  pose proof (separated_last_ok _ _ _ Hs) as Hok. split.
  - exists rl. split; [done|]. rewrite El. apply (in_runs_run _ r); [apply elem_of_app; right; by left|]. runs_unfold. lia.
  - intros c (rl' & E & Hc). rewrite Erl in E. injection E as <-. rewrite El in Hc. pose proof (separated_last_max _ _ _ _ Hs Hc). lia.
Qed.

Lemma extend_allocation_ok al d f count :
  alloc_inv al d → 0 < count < 2 ^ 63 →
  (∃ run al' d', extend_allocation f count (al, d) = (Ok run, (al', d')) ∧
     cluster_count run = count ∧ allocated al d f run al' d' ∧ ∀ m, room_after al d f count m → start_cluster run = m + 1) ∨
  (∃ al' d', extend_allocation f count (al, d) = (Err InsufficientSpace, (al', d')) ∧
     no_room al d count al' d').
Proof.
  intros Hi Hc. remember (extend_allocation f count (al, d)) as p eqn:Ep.
  unfold extend_allocation in Ep. unfold mbindM at 1 in Ep. cbn [get_self] in Ep.
  assert (p = allocate_clusters f count (al, d) → (∀ m, ¬ owns al f m) →
    (∃ run al' d', p = (Ok run, (al', d')) ∧ cluster_count run = count ∧ allocated al d f run al' d' ∧
       ∀ m, room_after al d f count m → start_cluster run = m + 1) ∨
    (∃ al' d', p = (Err InsufficientSpace, (al', d')) ∧ no_room al d count al' d')) as Hplain.
  { intros -> Hnone. destruct (allocate_clusters_ok al d f count Hi ltac:(lia)) as [(run & al' & d' & E & Hn & Ha)|Hno]; [left|by right].
    exists run, al', d'. split_and!; try done. intros m (Hm & _). by apply Hnone in Hm. }
  destruct (al_allocated_runs al !! f) as [rl|] eqn:Erl; [|apply Hplain; [done|intros m (rl & E & _); congruence]].
  destruct (last (runs rl)) as [r|] eqn:El; [|exfalso; apply last_None in El; by apply (ai_runs _ _ Hi f rl Erl)].
  clear Hplain. destruct (last_run_max al d f rl r Hi Erl El) as [Hlast Hmax].
  assert (r ∈ runs rl) as Hr by (apply last_Some_elem_of; done).
  destruct (owned_run_inside _ _ _ _ _ Hi Erl Hr) as [Hok Hend].
  pose proof (wf_total _ _ (ai_wf _ _ Hi)). pose proof (ai_size _ _ Hi).
  rewrite (end_cluster_ok r Hok) in Ep. unfold mbindM at 1, mlift at 1 in Ep.
  unfold mbindM at 1, mlift at 1, add64 at 1 in Ep. rewrite chk_ok in Ep by (runs_unfold; lia).
  replace (run_end r - 1 + 1) with (run_end r) in Ep by lia.
  unfold mbindM at 1, mlift at 1, add64 at 1 in Ep. rewrite chk_ok in Ep by (runs_unfold; lia).
  destruct (all_clusters_free_ok (seqZ (run_end r) count) al d) as (b & cb & d1 & Ea & He & Hb); [done| |].
  { apply Forall_seqZ. intros c. runs_unfold. lia. }
  unfold mbindM at 1 in Ep. rewrite Ea in Ep. subst p. pose proof (alloc_inv_read _ _ _ _ Hi He) as Hi1.
  set (al1 := mkAlloc cb _ _) in *.
  destruct b.
  - left. pose proof (proj1 Hb eq_refl) as Hb'. clear Hb. rename Hb' into Hb. rewrite Forall_seqZ in Hb.
    set (run := mkRun (run_end r) count).
    assert (run_inside (al_bitmap al1) run) as Hin.
    { destruct He as [_ (? & ? & Hg) _ _]. unfold al1, run. cbn [al_bitmap]. rewrite Hg.
      specialize (Hb (run_end r + count - 1)). split; runs_unfold; [|cbn]; lia. }
    destruct (take_run al1 d1 f run) as (rl' & cb1 & d2 & cb2 & d3 & Em & Ead & Efl & Hal); [done..| |].
    { intros c Hcr. destruct Hok. unfold run in Hcr. runs_unfold.
      destruct (Hb c) as [_ <-]; [lia|]. apply He. lia. }
    exists run, (mkAlloc cb2 (al_strategy al) (<[f := rl']> (al_allocated_runs al))), d3.
    split; [|split; [done|split; [by eapply allocated_read|]]].
    2: { intros m (Hm & Hm' & _). specialize (Hmax m Hm). specialize (Hm' _ Hlast). unfold run. cbn [start_cluster]. lia. }
    unfold mbindM at 1. fold run. rewrite (on_bitmap_eq _ _ _ _ _ _ Em).
    unfold mbindM, get_self, mlift, set_self.
    cbn [al_allocated_runs al_strategy al1] in *. rewrite Erl in *. cbn [default from_option id] in Ead.
    rewrite Ead. unfold al_set_runs. cbn [al_bitmap al_strategy al_allocated_runs].
    by rewrite (on_bitmap_mk _ _ _ _ _ _ _ _ Efl).
  - destruct (allocate_clusters_ok al1 d1 f count Hi1) as [(run & al' & d' & E & Hn & Hal)|(al' & d' & E & Hno)]; [lia|left|right].
    + exists run, al', d'. split_and!; [done|done|by eapply allocated_read|]. intros m (Hm & Hm' & Hroom). exfalso.
      specialize (Hmax m Hm). specialize (Hm' _ Hlast). assert (m = run_end r - 1) as -> by lia.
      assert (false = true) as Hf; [|done]. apply Hb, Forall_seqZ. intros c Hcc. apply Hroom. lia.
    + exists al', d'. split; [done|]. destruct He as [_ (? & ? & Hg) [Hcc Hoo] Hf].
      destruct Hno as (Hi' & Hw & Hfr & Hrs & [Hcc' Hoo'] & (bm' & b' & Hg')). unfold al1 in *. cbn in *. subst cb.
      split_and!; [done| | |done| |by exists bm', b'].
      * intros s (Hs0 & Hs1 & Hs2). apply (Hw s). split_and!; [done|done|].
        intros c Hcs. rewrite <-(Hs2 c Hcs). apply Hf. lia.
      * intros c Hc0. rewrite Hfr by done. by apply Hf.
      * split; [intros; by rewrite Hcc', Hcc|]. intros dr a Ha. rewrite Hoo', Hoo; done.
Qed.

#[global] Instance in_runs_dec l c : Decision (in_runs l c).
Proof. unfold in_runs. apply _. Defined.

(** Freeing the runs of a list, one after the other. *)
Lemma free_runs_ok l : ∀ cb st rs d,
  bitmap_wf cb d → Forall (run_inside cb) l →
  ∃ cb' d', mfor l (λ run, on_bitmap (mark_run_free run)) (mkAlloc cb st rs, d) =
              (Ok tt, (mkAlloc cb' st rs, d')) ∧
    effect cb d cb' d' (λ c, free (view cb d) c || bool_decide (in_runs l c)).
Proof.
  induction l as [|r l IH]; intros cb st rs d Hwf Hl.
  - exists cb, d. split; [done|]. eapply effect_ext; [|by apply effect_refl].
    intros c _. cbn beta. rewrite (bool_decide_eq_false_2 (in_runs [] c)); [by rewrite orb_false_r|].
    by intros ?%in_runs_nil.
  - apply Forall_cons in Hl as [Hr Hl].
    destruct (mark_run_free_effect cb d r Hwf Hr) as (cb1 & d1 & E & He).
    destruct (IH cb1 st rs d1) as (cb' & d' & El & He').
    + apply He.
    + destruct He as [_ (? & ? & ->) _ _]. exact Hl.
    + exists cb', d'. cbn [mfor]. unfold mbindM. rewrite (on_bitmap_mk _ _ _ _ _ _ _ _ E).
      split; [exact El|]. eapply effect_trans; [exact He|]. eapply effect_ext; [|exact He'].
      intros c Hc. cbn beta. rewrite (ef_free _ _ _ _ _ He c Hc), <-orb_assoc. f_equal.
      rewrite <-bool_decide_or. apply bool_decide_ext. by rewrite in_runs_cons.
Qed.

Lemma file_runs_inside al d f rl :
  alloc_inv al d → al_allocated_runs al !! f = Some rl → Forall (run_inside (al_bitmap al)) (runs rl).
Proof. intros Hi Hf. apply Forall_forall. intros r Hr. by eapply owned_run_inside. Qed.

Lemma owns_runs al f rl c : al_allocated_runs al !! f = Some rl → (owns al f c ↔ in_runs (runs rl) c).
Proof. intros E. unfold owns. rewrite E. split; [by intros (? & [= <-] & ?)|eauto]. Qed.

Lemma deallocate_all_ok al d f :
  alloc_inv al d →
  ∃ al' d', deallocate_all_clusters f (al, d) = (Ok tt, (al', d')) ∧ alloc_inv al' d' ∧
    (∀ g c, owns al' g c ↔ g ≠ f ∧ owns al g c) ∧
    (∀ c, 0 ≤ c → cluster_free al' d' c = true ↔ cluster_free al d c = true ∨ owns al f c) ∧
    outside_kept (al_bitmap al) d d' ∧ geometry (al_bitmap al) (al_bitmap al').
Proof.
  intros Hi. unfold deallocate_all_clusters, mbindM at 1. cbn [get_self].
  destruct (al_allocated_runs al !! f) as [rl|] eqn:Erl.
  2: { exists al, d. assert (∀ c, ¬ owns al f c) as Hn by (intros c (? & ? & _); congruence).
       split_and!; [done|done| | |by apply same_disk_outside|by eapply ef_geometry, effect_refl, Hi].
       - intros g c. split; [|by intros []]. intros Ho. split; [intros ->; by apply (Hn c)|done].
       - intros c _. split; [by left|]. intros [?|?]; [done|by apply Hn in H1]. }
  set (al1 := al_set_runs (delete f (al_allocated_runs al)) al).
  destruct (free_runs_ok (runs rl) (al_bitmap al) (al_strategy al) (delete f (al_allocated_runs al)) d)
    as (cb1 & d1 & E1 & He1); [apply Hi|by eapply file_runs_inside|].
  destruct (flush_bitmap_effect cb1 d1) as (cb2 & d2 & E2 & He2 & Hdb); [apply He1| |].
  { destruct He1 as [_ (? & ? & ->) _ _]. apply Hi. }
  assert (effect (al_bitmap al) d cb2 d2
            (λ c, free (view (al_bitmap al) d) c || bool_decide (in_runs (runs rl) c))) as He.
  { eapply effect_trans; [exact He1|]. eapply effect_ext; [|exact He2]. apply He1. }
  exists (mkAlloc cb2 (al_strategy al) (delete f (al_allocated_runs al))), d2.
  assert (∀ g c, owns (mkAlloc cb2 (al_strategy al) (delete f (al_allocated_runs al))) g c ↔ g ≠ f ∧ owns al g c)
    as Hown by exact (owns_delete al f).
  split_and!; [| |done| |apply He|apply He].
  - unfold mbindM, set_self. fold al1. unfold al1, al_set_runs. by rewrite E1, (on_bitmap_mk _ _ _ _ _ _ _ _ E2).
  - apply (alloc_inv_effect al d (mkAlloc cb2 (al_strategy al) (delete f (al_allocated_runs al))) d2 _ Hi He).
    + intros g rl'. cbn [al_allocated_runs]. intros [_ Hg]%lookup_delete_Some. by apply (ai_runs _ _ Hi g).
    + intros g c [Hne Hg]%Hown. pose proof (ai_used _ _ Hi g c Hg) as [? Hu]. split; [done|].
      unfold cluster_free in Hu. rewrite Hu. cbn [orb]. apply bool_decide_eq_false_2. intros Hc.
      apply Hne, (ai_disjoint _ _ Hi g f c); [done|]. by eapply owns_runs.
    + intros g1 g2 c [_ H1]%Hown [_ H2]%Hown. by apply (ai_disjoint _ _ Hi g1 g2 c).
  - intros c Hc. unfold cluster_free at 1. cbn [al_bitmap]. rewrite (ef_free _ _ _ _ _ He c Hc).
    rewrite orb_true_iff, bool_decide_eq_true. by rewrite (owns_runs al f rl c Erl).
Qed.

Lemma sum_counts_pos lo l : separated lo l → l ≠ [] → 0 < sum_counts l.
Proof.
  intros Hs. apply separated_Forall in Hs. induction Hs as [|r l Hr Hl IH]; [done|]. intros _.
  rewrite sum_counts_cons. destruct l as [|r' l]; [rewrite sum_counts_nil|]; runs_unfold; [lia|].
  specialize (IH ltac:(done)). lia.
Qed.

(** Recording one new run in place of the runs of [f]. *)
Lemma move_file_inv al d f rl run cb' d' :
  alloc_inv al d → al_allocated_runs al !! f = Some rl →
  run_inside (al_bitmap al) run → cluster_count run = total_clusters rl →
  (∀ c, in_run run c → cluster_free al d c = true) →
  effect (al_bitmap al) d cb' d'
    (λ c, (free (view (al_bitmap al) d) c && negb (bool_decide (in_run run c))) || bool_decide (in_runs (runs rl) c)) →
  alloc_inv (mkAlloc cb' (al_strategy al) (<[f := mkRunList [run] (total_clusters rl)]> (al_allocated_runs al))) d'.
Proof.
  intros Hi Erl [Hok Hend] Hn Hfree He. set (al' := mkAlloc cb' _ _).
  assert (∀ g c, owns al' g c ↔ (g = f ∧ in_run run c) ∨ (g ≠ f ∧ owns al g c)) as Hown.
  { intros g c. etransitivity; [exact (owns_insert al f (mkRunList [run] (total_clusters rl)) g c)|].
    cbn [runs]. rewrite in_runs_cons, in_runs_nil. tauto. }
  assert (∀ g c, in_run run c → owns al g c → False) as Hnew.
  { intros g c Hc Ho. apply (ai_used _ _ Hi) in Ho as [_ Ho]. by rewrite (Hfree c Hc) in Ho. }
  apply (alloc_inv_effect al d al' d' _ Hi He).
  - intros g rl'. cbn. destruct (decide (g = f)) as [->|].
    + rewrite lookup_insert_eq. intros [= <-]. split; [|done].
      split; cbn [runs total_clusters separated sum_counts foldr]; [|lia].
      split_and!; [runs_unfold; lia|done|done].
    + rewrite lookup_insert_ne by done. apply Hi.
  - intros g c [[-> Hc]|[Hg Hc]]%Hown.
    + split; [runs_unfold; lia|]. rewrite (bool_decide_eq_true_2 (in_run run c)) by done.
      rewrite andb_false_r. apply bool_decide_eq_false_2. intros Hr%(owns_runs al f rl c Erl). eauto.
    + pose proof (ai_used _ _ Hi g c Hc) as [? Hu]. split; [done|].
      unfold cluster_free in Hu. rewrite Hu. apply bool_decide_eq_false_2.
      intros Hr%(owns_runs al f rl c Erl). by apply Hg, (ai_disjoint _ _ Hi g f c).
  - intros g1 g2 c [[-> Hc1]|[? Hc1]]%Hown [[-> Hc2]|[? Hc2]]%Hown; [done|exfalso; eauto..|].
    by apply (ai_disjoint _ _ Hi g1 g2 c).
Qed.

(** Defragmentation moves the file to a new contiguous run, or changes nothing: the file holds nothing, or there is
    no room for it in one piece. *)
Lemma defragment_file_ok al d f :
  alloc_inv al d →
  ∃ al' d', defragment_file f (al, d) = (Ok tt, (al', d')) ∧ alloc_inv al' d' ∧
    outside_kept (al_bitmap al) d d' ∧ geometry (al_bitmap al) (al_bitmap al') ∧
    (al_allocated_runs al' = al_allocated_runs al ∧ (∀ c, 0 ≤ c → cluster_free al' d' c = cluster_free al d c) ∧
     (∀ rl, al_allocated_runs al !! f = Some rl →
        ∀ s, ¬ window (view (al_bitmap al) d) (cb_total_clusters (al_bitmap al)) s (total_clusters rl)) ∨
     ∃ rl run, al_allocated_runs al !! f = Some rl ∧
       al_allocated_runs al' = <[f := mkRunList [run] (total_clusters rl)]> (al_allocated_runs al) ∧
       cluster_count run = total_clusters rl ∧ run_inside (al_bitmap al) run ∧
       (∀ c, in_run run c → cluster_free al d c = true) ∧
       ∀ c, 0 ≤ c → cluster_free al' d' c = (cluster_free al d c && negb (bool_decide (in_run run c))) || bool_decide (in_runs (runs rl) c)).
Proof.
  intros Hi. remember (defragment_file f (al, d)) as p eqn:Ep.
  unfold defragment_file, mbindM at 1 in Ep. cbn [get_self] in Ep.
  destruct (al_allocated_runs al !! f) as [rl|] eqn:Erl.
  2: { subst p. exists al, d. split_and!; [done|done|by apply same_disk_outside|by eapply ef_geometry, effect_refl, Hi|left; split_and!; [done|done|]]. congruence. }
  destruct (ai_runs _ _ Hi f rl Erl) as [[Hsep Htot] Hne].
  assert (0 < total_clusters rl) as Hpos by (rewrite Htot; by eapply sum_counts_pos).
  destruct (find_free_clusters_effect (al_bitmap al) d (total_clusters rl) FirstFit)
    as (o & cb & d1 & Ef & He & Ho); [apply Hi|done|].
  pose proof (alloc_inv_read _ _ _ _ Hi He) as Hi1.
  unfold mbindM at 1 in Ep. rewrite (on_bitmap_eq _ _ _ _ _ _ Ef) in Ep. subst p.
  destruct o as [run|].
  2: { eexists _, _. split; [reflexivity|]. split_and!; [done|apply He|apply He|left; split_and!; [done|apply He|]]. intros rl' [= <-]. exact Ho. }
  destruct Ho as [Hn Hw]. pose proof (window_free al d run _ Hn Hw) as Hfree.
  assert (run_inside (al_bitmap al) run) as Hin
    by (by apply (window_inside (al_bitmap al) d run (total_clusters rl)); [apply Hi|apply Hi|..]).
  destruct (mark_run_used_effect cb d1 run) as (cb2 & d2 & E2 & He2); [apply He| |].
  { destruct He as [_ (? & ? & ->) _ _]. exact Hin. }
  destruct (free_runs_ok (runs rl) cb2 (al_strategy al) (al_allocated_runs al) d2) as (cb3 & d3 & E3 & He3);
    [apply He2| |].
  { destruct He2 as [_ (? & ? & ->) _ _], He as [_ (? & ? & ->) _ _]. by eapply (file_runs_inside al d). }
  pose proof (effect_trans _ _ _ _ _ _ _ _ He He2) as He12.
  pose proof (effect_trans _ _ _ _ _ _ _ _ He12 He3) as He13.
  destruct (flush_bitmap_effect cb3 d3) as (cb4 & d4 & E4 & He4 & Hdb); [apply He3| |].
  { destruct He13 as [_ (? & ? & ->) _ _]. apply Hi. }
  assert (add_run run_list_new run = Ok (mkRunList [run] (total_clusters rl))) as Ea.
  { destruct Hin as [Hok _]. unfold add_run, run_list_new, add64. cbn [total_clusters].
    rewrite Z.add_0_l, Hn, chk_ok; [done|]. runs_unfold. lia. }
  exists (mkAlloc cb4 (al_strategy al) (<[f := mkRunList [run] (total_clusters rl)]> (al_allocated_runs al))), d4.
  assert (effect (al_bitmap al) d cb4 d4
    (λ c, (free (view (al_bitmap al) d) c && negb (bool_decide (in_run run c))) || bool_decide (in_runs (runs rl) c))) as He14.
  { eapply effect_trans; [exact He13|]. eapply effect_ext; [|exact He4]. intros c Hc. cbn beta.
    by rewrite (ef_free _ _ _ _ _ He13 c Hc), (ef_free _ _ _ _ _ He2 c Hc), (ef_free _ _ _ _ _ He c Hc). }
  split_and!; [| |apply He14|apply He14|right; exists rl, run; split_and!; [done..|apply He14]].
  - unfold mbindM, mlift, get_self, set_self, al_set_runs.
    rewrite (on_bitmap_mk _ _ _ _ _ _ _ _ E2), E3, Ea. cbn [al_bitmap al_strategy al_allocated_runs].
    by rewrite (on_bitmap_mk _ _ _ _ _ _ _ _ E4).
  - by apply (move_file_inv al d f rl run cb4 d4).
Qed.
End alloc_spec.

(** ** The allocator's contract

    Clients see which clusters are free and who holds which cluster. A request
    for clusters takes a run of free ones, for an extension those behind the
    last cluster of the file if they are free; it is refused, with no change,
    only when no free run is long enough. Freeing a file makes its clusters
    free. Defragmenting moves the file to one free run of its size; it stays
    where it is only when there is none or it holds nothing. *)
Inductive AllocOp : Type :=
  | OpAllocate (f count : Z)
  | OpExtend (f count : Z)
  | OpFreeAll (f : Z)
  | OpDefragment (f : Z).

Record Vol := mkVol { v_total : Z; v_free : Z → Prop; v_holds : Z → Z → Prop }.

Definition fits (v : Vol) (run : ClusterRun) : Prop :=
  0 ≤ start_cluster run ∧ run_end run ≤ v_total v ∧ ∀ c, in_run run c → v_free v c.

(** File [f] holds [n] clusters. *)
Definition holds_count (v : Vol) (f n : Z) : Prop := ∃ l, NoDup l ∧ zlen l = n ∧ ∀ c, v_holds v f c ↔ c ∈ l.

Definition last_held (v : Vol) (f m : Z) : Prop := v_holds v f m ∧ ∀ c, v_holds v f c → c ≤ m.

Definition same_vol (v v' : Vol) : Prop :=
  v_total v' = v_total v ∧ (∀ c, v_free v' c ↔ v_free v c) ∧ ∀ g c, v_holds v' g c ↔ v_holds v g c.

(** [f] gets [run] and gives up what is in [old]. *)
Definition moved (v v' : Vol) (f : Z) (run : Z → Prop) (old : Z → Prop) : Prop :=
  v_total v' = v_total v ∧ (∀ c, v_free v' c ↔ v_free v c ∧ ¬ run c ∨ old c) ∧
  ∀ g c, v_holds v' g c ↔ g = f ∧ run c ∨ v_holds v g c ∧ ¬ (g = f ∧ old c).

Inductive abs_step : AllocOp → Vol → fsres (option ClusterRun) → Vol → Prop :=
  | abs_allocate f n run v v' :
      cluster_count run = n → fits v run → moved v v' f (in_run run) (λ _, False) →
      abs_step (OpAllocate f n) v (Ok (Some run)) v'
  | abs_extend f n run v v' :
      cluster_count run = n → fits v run → moved v v' f (in_run run) (λ _, False) →
      (∀ m, last_held v f m → fits v (mkRun (m + 1) n) → run = mkRun (m + 1) n) →
      abs_step (OpExtend f n) v (Ok (Some run)) v'
  | abs_refuse op f n v v' :
      op = OpAllocate f n ∨ op = OpExtend f n → (∀ run, cluster_count run = n → ¬ fits v run) → same_vol v v' →
      abs_step op v (Err InsufficientSpace) v'
  | abs_free f v v' : moved v v' f (λ _, False) (v_holds v f) → abs_step (OpFreeAll f) v (Ok None) v'
  | abs_move f n run v v' :
      holds_count v f n → 0 < n → cluster_count run = n → fits v run → moved v v' f (in_run run) (v_holds v f) →
      abs_step (OpDefragment f) v (Ok None) v'
  | abs_stay f n v v' :
      holds_count v f n → (0 < n → ∀ run, cluster_count run = n → ¬ fits v run) → same_vol v v' →
      abs_step (OpDefragment f) v (Ok None) v'.

Inductive abs_run : list AllocOp → Vol → list (fsres (option ClusterRun)) → Vol → Prop :=
  | abs_run_nil v : abs_run [] v [] v
  | abs_run_cons op ops v a v1 answers v2 :
      abs_step op v a v1 → abs_run ops v1 answers v2 → abs_run (op :: ops) v (a :: answers) v2.

(** Requests for at least one cluster; the end of an extension has to be a 64-bit number. *)
Definition op_ok (op : AllocOp) : Prop :=
  match op with
  | OpAllocate _ n => 0 < n
  | OpExtend _ n => 0 < n < 2 ^ 63
  | _ => True
  end.

Lemma run_clusters_nodup lo l : separated lo l →
  NoDup (l ≫= run_clusters) ∧ zlen (l ≫= run_clusters) = sum_counts l ∧ ∀ c, c ∈ l ≫= run_clusters ↔ in_runs l c.
Proof.
  revert lo. induction l as [|r l IH]; intros lo; cbn [separated].
  - intros _. split; [constructor|]. split; [done|]. intros c. rewrite in_runs_nil. split; [by intros ?%elem_of_nil|done].
  - intros (Hlo & Hok & Hs). destruct (IH _ Hs) as (Hnd & Hlen & Hin). rewrite bind_cons.
    assert (∀ c, in_runs l c → run_end r < c) as Hafter.
    { clear -Hs. change (start_cluster r + cluster_count r) with (run_end r) in Hs. generalize dependent (run_end r). intros lo Hs c. revert lo Hs.
      induction l as [|x l IH]; intros lo; [by intros _ ?%in_runs_nil|]. intros (H1 & H2 & H3) [Hc|Hc]%in_runs_cons; [runs_unfold; lia|].
      specialize (IH _ H3 Hc). runs_unfold. lia. }
    split; [|split].
    + apply NoDup_app. split; [apply NoDup_seqZ|]. split; [|done]. intros c Hc%elem_of_run_clusters Hc'%Hin%Hafter. runs_unfold. lia.
    + rewrite zlen_app, Hlen, sum_counts_cons. unfold run_clusters, zlen. rewrite length_seqZ. runs_unfold. lia.
    + intros c. rewrite elem_of_app, in_runs_cons, Hin, elem_of_run_clusters. done.
Qed.

Section trace.
Context {D : Type} `{SectorDevLaws D}.

(** One request and its answer; [None] is a panic or a loop. *)
Definition alloc_exec (op : AllocOp) (s : ClusterAllocator * D) : option (fsres (option ClusterRun) * (ClusterAllocator * D)) :=
  let go {A} (f : A → option ClusterRun) (r : res FilesystemError A * (ClusterAllocator * D)) :=
    match r with (Panic, _) | (Hang, _) => None | (Ok a, s') => Some (Ok (f a), s') | (Err e, s') => Some (Err e, s') end in
  match op with
  | OpAllocate f n => go Some (allocate_clusters f n s)
  | OpExtend f n => go Some (extend_allocation f n s)
  | OpFreeAll f => go (λ _, None) (deallocate_all_clusters f s)
  | OpDefragment f => go (λ _, None) (defragment_file f s)
  end.

(** The caller goes on after an error. *)
Fixpoint alloc_run (ops : list AllocOp) (s : ClusterAllocator * D) : option (list (fsres (option ClusterRun)) * (ClusterAllocator * D)) :=
  match ops with
  | [] => Some ([], s)
  | op :: ops =>
      match alloc_exec op s with
      | Some (a, s') => match alloc_run ops s' with Some (l, s'') => Some (a :: l, s'') | None => None end
      | None => None
      end
  end.

(** What clients see of an allocator. *)
Definition vol (al : ClusterAllocator) (d : D) : Vol :=
  mkVol (cb_total_clusters (al_bitmap al)) (λ c, 0 ≤ c < cb_total_clusters (al_bitmap al) ∧ cluster_free al d c = true) (owns al).

Lemma fits_window al (d : D) run : fits (vol al d) run → window (view (al_bitmap al) d) (cb_total_clusters (al_bitmap al)) (start_cluster run) (cluster_count run).
Proof. intros (H0s & He & Hf). split_and!; [done|done|]. intros c Hc. by apply Hf. Qed.

Lemma inside_fits al (d : D) run : run_inside (al_bitmap al) run → (∀ c, in_run run c → cluster_free al d c = true) → fits (vol al d) run.
Proof. intros [Hok Hend] Hf. split_and!; [apply Hok|done|]. intros c Hc. split; [runs_unfold; lia|by apply Hf]. Qed.

Lemma geometry_total cb cb' : geometry cb cb' → cb_total_clusters cb' = cb_total_clusters cb.
Proof. by intros (? & ? & ->). Qed.

Lemma allocated_moved al (d : D) f run al' d' :
  allocated al d f run al' d' → fits (vol al d) run ∧ moved (vol al d) (vol al' d') f (in_run run) (λ _, False).
Proof.
  intros (_ & Hin & Hfree & Hfr & Hown & _ & _ & Ht%geometry_total). split; [by apply inside_fits|]. split; [done|]. split.
  - intros c. cbn. rewrite Ht. split.
    + intros [Hc Hf]. rewrite Hfr in Hf by lia. apply andb_true_iff in Hf as [Hf Hn%negb_true_iff%bool_decide_eq_false]. by left.
    + intros [[[Hc Hf] Hn]|[]]. split; [done|]. rewrite Hfr by lia. by rewrite Hf, bool_decide_eq_false_2.
  - intros g c. cbn. rewrite Hown. tauto.
Qed.

Lemma no_room_same al (d : D) n al' d' :
  no_room al d n al' d' → same_vol (vol al d) (vol al' d') ∧ ∀ run, cluster_count run = n → ¬ fits (vol al d) run.
Proof.
  intros (_ & Hw & Hfr & Hr & _ & Ht%geometry_total). split.
  - split; [done|]. split; [|intros g c; cbn; unfold owns; by rewrite Hr].
    intros c. cbn. rewrite Ht. split; intros [Hc Hf]; (split; [done|]); [rewrite <-Hfr by lia|rewrite Hfr by lia]; done.
  - intros run <- Hf%fits_window. by eapply Hw.
Qed.

(** The clusters of a run list, counted. *)
Lemma holds_runs al (d : D) f rl : alloc_inv al d → al_allocated_runs al !! f = Some rl → holds_count (vol al d) f (total_clusters rl) ∧ 0 < total_clusters rl.
Proof.
  intros Hi Erl. destruct (ai_runs _ _ Hi f rl Erl) as [[Hs Ht] Hne]. destruct (run_clusters_nodup _ _ Hs) as (Hnd & Hlen & Hin).
  split; [|rewrite Ht; by eapply sum_counts_pos]. exists (runs rl ≫= run_clusters). split_and!; [done|by rewrite Hlen|].
  intros c. cbn. by rewrite (owns_runs al f rl c Erl), Hin.
Qed.

Lemma holds_nothing al (d : D) f : al_allocated_runs al !! f = None → holds_count (vol al d) f 0.
Proof. intros E. exists []. split_and!; [constructor|done|]. intros c. cbn. split; [intros (? & ? & _); congruence|by intros ?%elem_of_nil]. Qed.

Lemma freed_moved al (d : D) f al' d' :
  (∀ g c, owns al' g c ↔ g ≠ f ∧ owns al g c) → (∀ c, 0 ≤ c → cluster_free al' d' c = true ↔ cluster_free al d c = true ∨ owns al f c) →
  geometry (al_bitmap al) (al_bitmap al') → alloc_inv al d → moved (vol al d) (vol al' d') f (λ _, False) (v_holds (vol al d) f).
Proof.
  intros Hown Hfr Ht%geometry_total Hi. split; [done|]. split.
  - intros c. cbn. rewrite Ht. split.
    + intros [Hc Hf]. apply Hfr in Hf as [Hf|Ho]; [left; tauto|by right|lia].
    + intros [[[Hc Hf] _]|Ho]; [split; [done|]; apply Hfr; [lia|by left]|].
      destruct (ai_used _ _ Hi f c Ho) as [Hc _]. split; [done|]. apply Hfr; [lia|by right].
  - intros g c. cbn. rewrite Hown. split; [intros [Hne Ho]; right; split; [done|tauto]|]. intros [[_ []]|[Ho Hn]]. split; [|done]. intros ->. tauto.
Qed.

Lemma defragment_step al (d : D) f al' d' :
  alloc_inv al d → geometry (al_bitmap al) (al_bitmap al') →
  (al_allocated_runs al' = al_allocated_runs al ∧ (∀ c, 0 ≤ c → cluster_free al' d' c = cluster_free al d c) ∧
   (∀ rl, al_allocated_runs al !! f = Some rl →
      ∀ s, ¬ window (view (al_bitmap al) d) (cb_total_clusters (al_bitmap al)) s (total_clusters rl)) ∨
   ∃ rl run, al_allocated_runs al !! f = Some rl ∧
     al_allocated_runs al' = <[f := mkRunList [run] (total_clusters rl)]> (al_allocated_runs al) ∧
     cluster_count run = total_clusters rl ∧ run_inside (al_bitmap al) run ∧
     (∀ c, in_run run c → cluster_free al d c = true) ∧
     ∀ c, 0 ≤ c → cluster_free al' d' c = (cluster_free al d c && negb (bool_decide (in_run run c))) || bool_decide (in_runs (runs rl) c)) →
  abs_step (OpDefragment f) (vol al d) (Ok None) (vol al' d').
Proof.
  intros Hi Ht%geometry_total [(Er & Hfr & Hw)|(rl & run & Erl & Er & Hn & Hin & Hfree & Hfr)].
  - assert (same_vol (vol al d) (vol al' d')) as Hsame.
    { split; [done|]. split; [|intros g c; cbn; unfold owns; by rewrite Er].
      intros c. cbn. rewrite Ht. split; intros [Hc Hf]; (split; [done|]); [rewrite <-Hfr by lia|rewrite Hfr by lia]; done. }
    destruct (al_allocated_runs al !! f) as [rl|] eqn:Erl.
    + destruct (holds_runs al d f rl Hi Erl) as [Hc Hpos]. apply (abs_stay f _ _ _ Hc); [|done].
      intros _ run Hr Hf%fits_window. rewrite Hr in Hf. by eapply Hw.
    + apply (abs_stay f 0); [by apply holds_nothing|lia|done].
  - destruct (holds_runs al d f rl Hi Erl) as [Hc Hpos]. apply (abs_move f _ run _ _ Hc Hpos Hn); [by apply inside_fits|].
    assert (∀ c, in_run run c → ¬ owns al f c) as Hno by (intros c Hr Ho; apply (ai_used _ _ Hi) in Ho as [_ Ho]; by rewrite (Hfree c Hr) in Ho).
    split; [done|]. split.
    + intros c. cbn. rewrite Ht. rewrite (owns_runs al f rl c Erl). split.
      * intros [Hc0 Hf]. rewrite Hfr in Hf by lia. apply orb_true_iff in Hf as [[Hf Hn']%andb_true_iff|Hf%bool_decide_eq_true]; [|by right].
        apply negb_true_iff, bool_decide_eq_false in Hn'. by left.
      * intros Hcase. assert (0 ≤ c < cb_total_clusters (al_bitmap al)) as Hr0.
        { destruct Hcase as [[[? _] _]|Ho]; [done|]. apply (owns_runs al f rl c Erl) in Ho. apply (ai_used _ _ Hi f c Ho). }
        split; [done|]. rewrite Hfr by lia. destruct Hcase as [[[_ Hf] Hn']|Ho].
        -- by rewrite Hf, (bool_decide_eq_false_2 (in_run run c)).
        -- rewrite (bool_decide_eq_true_2 (in_runs (runs rl) c)) by done. apply orb_true_r.
    + intros g c. cbn. unfold owns at 1. rewrite Er.
      etransitivity; [exact (owns_insert al f (mkRunList [run] (total_clusters rl)) g c)|].
      cbn [runs]. rewrite in_runs_cons, in_runs_nil. split; [|].
      * intros [[-> [Hr|[]]]|[Hne Ho]]; [by left|right; split; [done|tauto]].
      * intros [[-> Hr]|[Ho Hn']]; [left; split; [done|by left]|right]. split; [|done]. intros ->. tauto.
Qed.

Lemma alloc_exec_ok op al (d : D) :
  alloc_inv al d → op_ok op →
  ∃ a al' d', alloc_exec op (al, d) = Some (a, (al', d')) ∧ alloc_inv al' d' ∧
    abs_step op (vol al d) a (vol al' d') ∧ outside_kept (al_bitmap al) d d'.
Proof.
  intros Hi Hop. destruct op as [f n|f n|f|f]; cbn [op_ok alloc_exec] in *.
  - destruct (allocate_clusters_ok al d f n Hi) as [(run & al' & d' & -> & Hn & Ha)|(al' & d' & -> & Ha)]; [lia|..];
      eexists _, al', d'; (split_and!; [done|apply Ha| |apply Ha]).
    + destruct (allocated_moved _ _ _ _ _ _ Ha). by apply abs_allocate.
    + destruct (no_room_same _ _ _ _ _ Ha). eapply abs_refuse; [by left|done..].
  - destruct (extend_allocation_ok al d f n Hi Hop) as [(run & al' & d' & -> & Hn & Ha & Hafter)|(al' & d' & -> & Ha)];
      eexists _, al', d'; (split_and!; [done|apply Ha| |apply Ha]).
    + destruct (allocated_moved _ _ _ _ _ _ Ha). apply abs_extend; try done. intros m [Hm Hmax] (H0m & Hend & Hfits).
      assert (start_cluster run = m + 1) as Es.
      { apply Hafter. split_and!; [done..|]. intros c Hc. destruct (Hfits c) as [? ?]; [runs_unfold; lia|]. cbn in *. split; [lia|done]. }
      destruct run as [st cnt]. cbn in *. by subst.
    + destruct (no_room_same _ _ _ _ _ Ha). eapply abs_refuse; [by right|done..].
  - destruct (deallocate_all_ok al d f Hi) as (al' & d' & -> & Hi' & Hown & Hfr & Ho & Hg).
    eexists _, al', d'. split_and!; [done|done| |done]. apply abs_free. by apply freed_moved.
  - destruct (defragment_file_ok al d f Hi) as (al' & d' & -> & Hi' & Ho & Hg & Hcase).
    eexists _, al', d'. split_and!; [done|done| |done]. by apply defragment_step.
Qed.

Lemma alloc_run_ok ops : ∀ al (d : D),
  alloc_inv al d → Forall op_ok ops →
  ∃ answers al' d', alloc_run ops (al, d) = Some (answers, (al', d')) ∧ alloc_inv al' d' ∧ abs_run ops (vol al d) answers (vol al' d').
Proof.
  induction ops as [|op ops IH]; intros al d Hi Hops.
  - exists [], al, d. split_and!; [done|done|constructor].
  - apply Forall_cons in Hops as [Hop Hops].
    destruct (alloc_exec_ok op al d Hi Hop) as (a & al1 & d1 & E & Hi1 & Ha & _).
    destruct (IH al1 d1) as (l & al' & d' & E' & Hi' & Ha'); [done..|].
    exists (a :: l), al', d'. cbn [alloc_run]. rewrite E, E'. split_and!; [done|done|by econstructor].
Qed.

Lemma alloc_inv_new cb (d : D) st :
  bitmap_wf cb d → 0 < cb_bitmap_size_sectors cb < 256 → alloc_inv (cluster_allocator_new cb st) d.
Proof.
  intros Hwf Hsz. split; [done|done| | |]; unfold owns; cbn.
  - intros f rl. by rewrite lookup_empty.
  - intros f c (rl & Hl & _). by rewrite lookup_empty in Hl.
  - intros f g c (rl & Hl & _). by rewrite lookup_empty in Hl.
Qed.
End trace.

(** A clean bitmap of one sector on the demonstration disk: forty free clusters. *)
Definition fresh_bitmap : ClusterBitmap := mkBitmap 0 1 1 40 4096 None false.
Definition fresh_alloc : ClusterAllocator := cluster_allocator_new fresh_bitmap FirstFit.

Lemma fresh_bitmap_wf : bitmap_wf fresh_bitmap demo_disk.
Proof.
  split; cbn -[zeros]; try lia; try done.
  exists 64. by vm_compute.
Qed.

Lemma fresh_alloc_inv : alloc_inv fresh_alloc demo_disk.
Proof. apply alloc_inv_new; [apply fresh_bitmap_wf|cbn; lia]. Qed.

(** ** Properties *)

(** C15: [allocate_clusters] is correct under every strategy. For [count > 0] it either returns a run of
    [count] clusters that lay inside the disk, were all free and belonged to no file, and which now
    belong to the file and are marked used, in memory and on the disk, every other cluster, file and
    sector unchanged; or it reports [InsufficientSpace], changes nothing, and indeed no [count]
    consecutive clusters are free. It never panics and keeps the invariant. *)
Theorem allocate_clusters_correct {D} `{SectorDevLaws D} al (d : D) f count :
  alloc_inv al d → 0 < count →
  (∃ run al' d', allocate_clusters f count (al, d) = (Ok run, (al', d')) ∧
     cluster_count run = count ∧ allocated al d f run al' d') ∨
  (∃ al' d', allocate_clusters f count (al, d) = (Err InsufficientSpace, (al', d')) ∧
     no_room al d count al' d').
Proof. apply allocate_clusters_ok. Qed.

Lemma allocate_clusters_correct_witness :
  ∃ al' d', allocate_clusters 7 5 (fresh_alloc, demo_disk) = (Ok (mkRun 0 5), (al', d')) ∧
            allocated fresh_alloc demo_disk 7 (mkRun 0 5) al' d'.
Proof.
  destruct (allocate_clusters_correct fresh_alloc demo_disk 7 5)
    as [(run & al' & d' & E & _ & Ha)|(al' & d' & E & _)]; [apply fresh_alloc_inv|lia|..].
  - assert (run = mkRun 0 5) as -> by (apply (f_equal fst) in E; vm_compute in E; congruence).
    by exists al', d'.
  - exfalso. apply (f_equal fst) in E. vm_compute in E. congruence.
Defined.



(** A request for no clusters is granted, and the second one for the same file panics: the empty run that was recorded
    has no last cluster. *)
Example allocate_zero_panics :
  ∃ s, allocate_clusters 1 0 (fresh_alloc, demo_disk) = (Ok (mkRun 0 0), s) ∧ (allocate_clusters 1 0 s).1 = Panic.
Proof. destruct (allocate_clusters 1 0 (fresh_alloc, demo_disk)) as [r s] eqn:E. vm_compute in E. injection E as <- <-. eexists. split; [reflexivity|]. by vm_compute. Qed.

(** [deallocate_clusters] frees clusters the file keeps. When the run passed is held by the file
    but is not one entry of its run list (the list merges adjacent runs), the call succeeds, the
    bitmap and the disk mark the clusters free, and the file still holds them: the invariant is
    broken and the next allocation can give them to another file. *)
Theorem deallocate_clusters_keeps_holder {D} `{SectorDevLaws D} al (d : D) f rl run :
  alloc_inv al d → al_allocated_runs al !! f = Some rl → run_inside (al_bitmap al) run →
  (∀ c, in_run run c → owns al f c) → run ∉ runs rl →
  ∃ al' d', deallocate_clusters f run (al, d) = (Ok tt, (al', d')) ∧
    disk_bitmap (al_bitmap al') d' = view (al_bitmap al') d' ∧
    ∀ c, in_run run c → owns al' f c ∧ cluster_free al' d' c = true.
Proof.
  intros Hi Erl Hin Hown Hnot.
  destruct (mark_run_free_effect (al_bitmap al) d run) as (cb1 & d1 & E1 & He1); [apply Hi|done|].
  destruct (remove_run_ok rl run) as (rl' & b & Er & _ & Ht & Hf); [by apply (ai_runs _ _ Hi f)|].
  destruct (flush_bitmap_effect cb1 d1) as (cb2 & d2 & E2 & He2 & Hdb); [apply He1| |].
  { destruct He1 as [_ (? & ? & ->) _ _]. apply Hi. }
  assert (b = false ∧ rl' = rl) as [-> ->].
  { destruct b; [exfalso|split; [done|by apply Hf]].
    by apply Hnot, Ht. }
  destruct (ai_runs _ _ Hi f rl Erl) as [_ Hne].
  exists (mkAlloc cb2 (al_strategy al) (<[f := rl]> (al_allocated_runs al))), d2. split_and!.
  - unfold deallocate_clusters, mbindM. rewrite (on_bitmap_eq _ _ _ _ _ _ E1).
    cbn [get_self al_allocated_runs]. rewrite Erl. unfold mlift. rewrite Er.
    cbn [set_self]. unfold al_set_runs. cbn [al_bitmap al_strategy].
    destruct (runs rl); [done|]. by rewrite (on_bitmap_mk _ _ _ _ _ _ _ _ E2).
  - exact Hdb.
  - intros c Hc. split.
    + exists rl. cbn. rewrite lookup_insert_eq. split; [done|]. apply (owns_runs al f rl c Erl). auto.
    + assert (0 ≤ c) by (destruct Hin as [Hok _]; runs_unfold; lia).
      unfold cluster_free. cbn [al_bitmap]. rewrite (ef_free _ _ _ _ _ He2), (ef_free _ _ _ _ _ He1) by done.
      rewrite bool_decide_eq_true_2 by done. apply orb_true_r.
Qed.

(** The state after file 1 allocates two clusters and extends by two. *)
Definition merged_alloc : ClusterAllocator :=
  mkAlloc (mkBitmap 0 1 1 40 4096 (Some (15 :: zeros 511)) true) FirstFit {[1 := mkRunList [mkRun 0 4] 4]}.

Lemma merged_alloc_inv : alloc_inv merged_alloc demo_disk.
Proof.
  assert (∀ f c, owns merged_alloc f c → f = 1 ∧ 0 ≤ c < 4) as Hown.
  { intros f c (rl & Hl & Hc). cbn in Hl. apply lookup_singleton_Some in Hl as [<- <-].
    apply in_runs_cons in Hc as [Hc|Hc%in_runs_nil]; [|done].
    unfold in_run in Hc. cbn in Hc. lia. }
  split.
  - split; cbn -[zeros]; try lia; try done. exists 64. by vm_compute.
  - cbn. lia.
  - intros f rl Hl. cbn in Hl. apply lookup_singleton_Some in Hl as [<- <-]. repeat split; done.
  - intros f c [-> Hc]%Hown. cbn. split; [lia|].
    assert (c = 0 ∨ c = 1 ∨ c = 2 ∨ c = 3) as [->|[->|[->| ->]]] by lia; by vm_compute.
  - intros f g c [-> _]%Hown [-> _]%Hown. done.
Qed.

Lemma deallocate_clusters_keeps_holder_witness :
  ∃ al' d', deallocate_clusters 1 (mkRun 2 2) (merged_alloc, demo_disk) = (Ok tt, (al', d')) ∧
    owns al' 1 3 ∧ (allocate_clusters 2 2 (al', d')).1 = Ok (mkRun 2 2).
Proof.
  destruct (deallocate_clusters_keeps_holder merged_alloc demo_disk 1 (mkRunList [mkRun 0 4] 4) (mkRun 2 2))
    as (al' & d' & E & _ & Ho).
  - apply merged_alloc_inv.
  - reflexivity.
  - split; cbn; unfold run_ok, run_end; cbn; lia.
  - intros c Hc. exists (mkRunList [mkRun 0 4] 4). split; [done|]. apply in_runs_cons. left.
    unfold in_run in *. cbn in *. lia.
  - by intros ?%list_elem_of_singleton.
  - exists al', d'. split; [exact E|]. split; [apply Ho; unfold in_run; cbn; lia|].
    vm_compute in E. injection E as <- <-. by vm_compute.
Defined.

(** ** Clusters as data *)
Section cluster_io.
Context {D : Type} `{SectorDevLaws D}.

(** The bytes of a cluster on the allocator's drive. *)
Definition cluster_data (al : ClusterAllocator) (d : D) (c : Z) : list Z :=
  sectors_at d (cb_drive (al_bitmap al)) (c * 8) 8.

Definition cluster_on_disk (al : ClusterAllocator) (d : D) (c : Z) : Prop :=
  on_drive d (cb_drive (al_bitmap al)) (c * 8) 8.

(** The sector number survives the checked multiplication and the cast. *)
Lemma cluster_sector al (d : D) c :
  cluster_on_disk al d c →
  @mul64 FilesystemError c SECTORS_PER_CLUSTER = Ok (c * 8) ∧ as_u32 (c * 8) = c * 8.
Proof.
  intros (_ & Hc & cap & Hcap & Hin). pose proof (capacity_bound _ _ _ Hcap).
  change SECTORS_PER_CLUSTER with 8. unfold mul64, as_u32. rewrite chk_ok, Z.mod_small by lia. done.
Qed.

Lemma read_cluster_ok al (d : D) c buf :
  cluster_on_disk al d c → zlen buf = CLUSTER_SIZE →
  ∃ d', read_cluster c buf (al, d) = (Ok (cluster_data al d c), (al, d')) ∧ same_disk d d'.
Proof.
  intros Hc Hb. destruct (cluster_sector al d c Hc) as [E1 E2].
  unfold read_cluster. rewrite bool_decide_eq_false_2 by lia.
  unfold mbindM, get_self, mlift. rewrite E1, E2.
  destruct (read_exact d (cb_drive (al_bitmap al)) 8 (c * 8) buf Hc) as (d' & E & Hs);
    [lia|unfold CLUSTER_SIZE in Hb; lia|].
  exists d'. split; [|done]. unfold on_world. change (as_u8 SECTORS_PER_CLUSTER) with 8. by rewrite E.
Qed.

Lemma write_cluster_ok al (d : D) c buf :
  cluster_on_disk al d c → zlen buf = CLUSTER_SIZE →
  ∃ d', write_cluster c buf (al, d) = (Ok tt, (al, d')) ∧ cluster_data al d' c = buf ∧
    only_sectors (cb_drive (al_bitmap al)) (c * 8) 8 d d'.
Proof.
  intros Hc Hb. destruct (cluster_sector al d c Hc) as [E1 E2].
  unfold write_cluster. rewrite bool_decide_eq_false_2 by lia.
  unfold mbindM, get_self, mlift. rewrite E1, E2.
  destruct (write_exact d (cb_drive (al_bitmap al)) 8 (c * 8) buf Hc) as (d' & E & Hs & Ho);
    [lia|unfold CLUSTER_SIZE in Hb; lia|].
  exists d'. split; [|done]. unfold on_world. change (as_u8 SECTORS_PER_CLUSTER) with 8. by rewrite E.
Qed.
End cluster_io.

(** A cluster reads back as it was written. Writing 4096 bytes to a cluster of the drive succeeds,
    reading the cluster then returns them, and every other cluster keeps its bytes. *)
Theorem cluster_write_read {D} `{SectorDevLaws D} al (d : D) c buf buf' :
  cluster_on_disk al d c → zlen buf = CLUSTER_SIZE → zlen buf' = CLUSTER_SIZE →
  ∃ d1 d2, write_cluster c buf (al, d) = (Ok tt, (al, d1)) ∧
    read_cluster c buf' (al, d1) = (Ok buf, (al, d2)) ∧
    ∀ c', c' ≠ c → cluster_data al d2 c' = cluster_data al d c'.
Proof.
  intros Hc Hb Hb'. destruct (write_cluster_ok al d c buf Hc Hb) as (d1 & Ew & Hd & Ho).
  destruct (read_cluster_ok al d1 c buf') as (d2 & Er & Hs); [by eapply on_drive_only|done|].
  exists d1, d2. rewrite Hd in Er. split_and!; [done|done|].
  intros c' Hne. unfold cluster_data. rewrite (sectors_at_same d1 d2 _ _ _ Hs).
  apply (sectors_at_other _ _ _ _ _ _ _ _ Ho). lia.
Qed.

Lemma cluster_write_read_witness :
  ∃ d1 d2, write_cluster 3 (replicate (Z.to_nat 4096) 7) (fresh_alloc, demo_disk) = (Ok tt, (fresh_alloc, d1)) ∧
    read_cluster 3 (zeros (Z.to_nat 4096)) (fresh_alloc, d1) = (Ok (replicate (Z.to_nat 4096) 7), (fresh_alloc, d2)).
Proof.
  destruct (cluster_write_read fresh_alloc demo_disk 3 (replicate (Z.to_nat 4096) 7) (zeros (Z.to_nat 4096)))
    as (d1 & d2 & E1 & E2 & _); [|unfold zlen, zeros; by rewrite length_replicate..|by exists d1, d2].
  split_and!; cbn; try lia. exists 64. split; [by vm_compute|lia].
Defined.

(** Defragmentation does not carry the data over. When [defragment_file] moves a file, the run it
    records is made of clusters that were free, and each of them (outside the bitmap area) holds
    after the call exactly the bytes it held before: nothing of the file was copied. *)
Theorem defragment_copies_nothing {D} `{SectorDevLaws D} al (d : D) f al' d' :
  alloc_inv al d → defragment_file f (al, d) = (Ok tt, (al', d')) →
  al_allocated_runs al' ≠ al_allocated_runs al →
  ∃ run, runs <$> al_allocated_runs al' !! f = Some [run] ∧
    ∀ c, in_run run c → cluster_free al d c = true ∧
      (c * 8 + 8 ≤ cb_bitmap_start_sector (al_bitmap al) ∨
       cb_bitmap_start_sector (al_bitmap al) + cb_bitmap_size_sectors (al_bitmap al) ≤ c * 8 →
       cluster_data al d' c = cluster_data al d c).
Proof.
  intros Hi E Hmoved.
  destruct (defragment_file_ok al d f Hi) as (al1 & d1 & E1 & _ & [_ Ho] & _ & Hr).
  rewrite E in E1. injection E1 as <- <-.
  destruct Hr as [[? _]|(rl & run & _ & -> & _ & _ & Hfree & _)]; [done|].
  exists run. split; [by rewrite lookup_insert_eq|]. intros c Hc. split; [by apply Hfree|].
  intros Hout. unfold cluster_data, sectors_at. f_equal. apply list_fmap_ext. intros i a Ha.
  apply list_elem_of_lookup_2, elem_of_seqZ in Ha. apply Ho. lia.
Qed.

Lemma defragment_copies_nothing_witness :
  ∃ al' d', defragment_file 1 (merged_alloc, demo_disk) = (Ok tt, (al', d')) ∧
    runs <$> al_allocated_runs al' !! 1 = Some [mkRun 4 4] ∧
    cluster_data merged_alloc d' 4 = cluster_data merged_alloc demo_disk 4.
Proof.
  destruct (defragment_file 1 (merged_alloc, demo_disk)) as [r [al' d']] eqn:E.
  pose proof E as E0. vm_compute in E0.
  destruct (defragment_copies_nothing merged_alloc demo_disk 1 al' d') as (run & Hr & Hc).
  - apply merged_alloc_inv.
  - rewrite E. by injection E0 as <- _ _.
  - injection E0 as _ <- _. by vm_compute.
  - exists al', d'. split; [by injection E0 as <- _ _|].
    assert (run = mkRun 4 4) as ->. { injection E0 as _ <- _. vm_compute in Hr. congruence. }
    split; [done|]. apply (Hc 4); [unfold in_run|]; cbn; lia.
Defined.
