(* ===== verification/SuperBlock.v ===== *)
(** * Super blocks ([crates/galleon2/src/super_block.rs], [lib.rs], [galleon_fs.rs])

    The legacy super block with its block counters and the calls of [lib.rs]
    that keep it in sector 0 of a drive, and [GalleonSuperBlock], which extends
    the same sector with the layout of the volume. *)

From S2P Require Import Prelude Device Runs.

(** [SuperBlock] *)
Record SuperBlock := mkSuper {
  magic : list Z;
  version : Z;
  block_size : Z;
  total_blocks : Z;
  root_dir_block : Z;
  free_block_count : Z;
  reserved_blocks : Z;
}.

Definition EXPECTED_MAGIC : list Z :=
  [97;119;97;114;101;110;101;115;115;32;97;99;104;105;101;118;
   101;100;46;46;46;32;119;104;97;116;32;97;109;32;73;32;
   97;110;100;32;119;104;121;32;100;111;32;73;32;101;120;
   105;115;116;32;105;110;32;115;116;111;114;97;103;101;63;
   0;0].

Definition super_block_new (bs total root : Z) : SuperBlock :=
  let reserved := if bool_decide (100 < total) then 100 else 1 in
  mkSuper EXPECTED_MAGIC 1 bs total root (saturating_sub total reserved) reserved.

Definition as_sector (sb : SuperBlock) : list Z :=
  put 96 (le_bytes 8 (reserved_blocks sb))
  (put 88 (le_bytes 8 (free_block_count sb))
  (put 80 (le_bytes 8 (root_dir_block sb))
  (put 72 (le_bytes 8 (total_blocks sb))
  (put 68 (le_bytes 4 (block_size sb))
  (put 64 (le_bytes 4 (version sb))
  (put 0 (magic sb) (zeros 512))))))).

Definition from_sector (sector : list Z) : SuperBlock :=
  mkSuper (field 0 64 sector) (le_dec (field 64 4 sector)) (le_dec (field 68 4 sector))
    (le_dec (field 72 8 sector)) (le_dec (field 80 8 sector)) (le_dec (field 88 8 sector))
    (le_dec (field 96 8 sector)).

Definition super_block_is_valid (sector : list Z) : bool :=
  bool_decide (field 0 64 sector = EXPECTED_MAGIC).

Definition sb_set_free (n : Z) (sb : SuperBlock) : SuperBlock :=
  mkSuper (magic sb) (version sb) (block_size sb) (total_blocks sb) (root_dir_block sb) n
    (reserved_blocks sb).

Definition set_free_block_count (sb : SuperBlock) (new_count : Z) : SuperBlock :=
  sb_set_free (Z.min new_count (saturating_sub (total_blocks sb) (reserved_blocks sb))) sb.

Definition sb_allocate_blocks (sb : SuperBlock) (count : Z) : SuperBlock * bool :=
  if bool_decide (count ≤ free_block_count sb)
  then (sb_set_free (free_block_count sb - count) sb, true) else (sb, false).

Definition sb_deallocate_blocks (sb : SuperBlock) (count : Z) : fsres SuperBlock :=
  let? sum := add64 (free_block_count sb) count in
  Ok (sb_set_free (Z.min sum (saturating_sub (total_blocks sb) (reserved_blocks sb))) sb).

(** ** The calls of [lib.rs] *)
Section super_calls.
Context {D : Type} `{SectorDev D}.

Definition write_super_block (drive total bs root : Z) : M D FilesystemError unit :=
  ide_write_sectors drive 1 0 (as_sector (super_block_new bs total root)).

Definition validate_super_block (drive : Z) : M D FilesystemError unit :=
  let! sector := ide_read_sectors drive 1 0 (zeros 512) in
  if super_block_is_valid sector then mok tt else merr InvalidBootBlock.

Definition read_super_block (drive : Z) : M D FilesystemError SuperBlock :=
  let! sector := ide_read_sectors drive 1 0 (zeros 512) in
  if super_block_is_valid sector then mok (from_sector sector) else merr InvalidBootBlock.

Definition update_free_block_count (drive new_free_count : Z) : M D FilesystemError unit :=
  let! sb := read_super_block drive in
  ide_write_sectors drive 1 0 (as_sector (set_free_block_count sb new_free_count)).

Definition allocate_blocks (drive block_count : Z) : M D FilesystemError unit :=
  let! sb := read_super_block drive in
  let '(sb', ok) := sb_allocate_blocks sb block_count in
  if ok then ide_write_sectors drive 1 0 (as_sector sb') else merr InsufficientSpace.

Definition deallocate_blocks (drive block_count : Z) : M D FilesystemError unit :=
  let! sb := read_super_block drive in
  let! sb' := mlift (sb_deallocate_blocks sb block_count) in
  ide_write_sectors drive 1 0 (as_sector sb').

Definition get_filesystem_info (drive : Z) : M D FilesystemError (Z * Z * Z * Z) :=
  let! sb := read_super_block drive in
  mok (version sb, total_blocks sb, free_block_count sb, block_size sb).

Definition has_filesystem (drive : Z) (d : D) : bool * D :=
  let '(r, d') := validate_super_block drive d in (is_ok r, d').
End super_calls.

(** ** [GalleonSuperBlock] *)
Record GalleonSuperBlock := mkGSB {
  legacy_super_block : SuperBlock;
  mft_start_cluster : Z;
  mft_mirror_cluster : Z;
  journal_start_cluster : Z;
  journal_size_clusters : Z;
  bitmap_start_cluster : Z;
  bitmap_size_clusters : Z;
  index_allocation_start : Z;
  gsb_cluster_size : Z;
}.

Definition MFT_RECORD_ROOT : Z := 5.

Definition clamp (lo hi z : Z) : Z := Z.max lo (Z.min hi z).

(** [x / y] panics when [y] is zero. *)
Definition div64 {E} (a b : Z) : res E Z := if bool_decide (b = 0) then Panic else Ok (a / b).

Definition galleon_super_block_new (total cluster_size : Z) : fsres GalleonSuperBlock :=
  let mft_size := clamp 16 256 (total / 128) in
  let mft_start := 16 in
  let mft_mirror := mft_start + mft_size in
  let journal_start := mft_mirror + mft_size / 4 in
  let journal_size := clamp 8 64 (total / 256) in
  let bitmap_start := journal_start + journal_size in
  let? bits := add64 total (8 * cluster_size) in
  let? bits1 := sub64 bits 1 in
  let? q := div64 bits1 (8 * cluster_size) in
  let bitmap_size := Z.max q 1 in
  let? index_start := add64 bitmap_start bitmap_size in
  Ok (mkGSB (super_block_new cluster_size total MFT_RECORD_ROOT) mft_start mft_mirror
        journal_start journal_size bitmap_start bitmap_size index_start cluster_size).

Definition gsb_serialize (g : GalleonSuperBlock) : list Z :=
  put 308 (le_bytes 8 (index_allocation_start g))
  (put 304 (le_bytes 4 (gsb_cluster_size g))
  (put 296 (le_bytes 8 (bitmap_size_clusters g))
  (put 288 (le_bytes 8 (bitmap_start_cluster g))
  (put 280 (le_bytes 8 (journal_size_clusters g))
  (put 272 (le_bytes 8 (journal_start_cluster g))
  (put 264 (le_bytes 8 (mft_mirror_cluster g))
  (put 256 (le_bytes 8 (mft_start_cluster g))
  (as_sector (legacy_super_block g))))))))).

(** The sector is a [[u8; 512]], so the bounds tests of the source never fail. *)
Definition gsb_deserialize (sector : list Z) : fsres GalleonSuperBlock :=
  let legacy := from_sector sector in
  if bool_decide (zlen sector < 256 + 60) then Err InvalidBootBlock else
  let mft_start := le_dec (field 256 8 sector) in
  let mft_mirror := le_dec (field 264 8 sector) in
  let journal_start := le_dec (field 272 8 sector) in
  let journal_size := le_dec (field 280 8 sector) in
  let bitmap_start := le_dec (field 288 8 sector) in
  let bitmap_size := le_dec (field 296 8 sector) in
  let cluster_size := le_dec (field 304 4 sector) in
  let index_start := le_dec (field 308 8 sector) in
  if bool_decide (cluster_size = 0 ∨ 65536 < cluster_size) then Err InvalidBootBlock else
  if bool_decide (mft_start = 0) then Err InvalidBootBlock else
  Ok (mkGSB legacy mft_start mft_mirror journal_start journal_size bitmap_start bitmap_size
        index_start cluster_size).

(** ** Lemmas *)

(** The fields fit their machine types. *)
Record sb_wf (sb : SuperBlock) : Prop := {
  sbw_magic : length (magic sb) = 64%nat;
  sbw_version : in_u 32 (version sb);
  sbw_block_size : in_u 32 (block_size sb);
  sbw_total : in_u 64 (total_blocks sb);
  sbw_root : in_u 64 (root_dir_block sb);
  sbw_free : in_u 64 (free_block_count sb);
  sbw_reserved : in_u 64 (reserved_blocks sb);
}.

(** The free count never exceeds what is not reserved. *)
Definition sb_inv (sb : SuperBlock) : Prop :=
  sb_wf sb ∧ magic sb = EXPECTED_MAGIC ∧
  free_block_count sb ≤ saturating_sub (total_blocks sb) (reserved_blocks sb).

#[export] Instance Len_as_sector sb : Len (magic sb) 64 → Len (as_sector sb) 512.
Proof. intros Hm. unfold as_sector. apply _. Qed.
#[global] Typeclasses Opaque as_sector.

Lemma from_as_sector sb : sb_wf sb → from_sector (as_sector sb) = sb.
Proof.
  intros [Hm Hv Hb Ht Hr Hf Hres]. assert (Len (magic sb) 64) as HM by done.
  unfold from_sector, as_sector. destruct sb. cbn in *.
  f_equal; fields; rewrite ?le_dec_bytes; done.
Qed.

Lemma as_sector_valid sb :
  sb_wf sb → super_block_is_valid (as_sector sb) = bool_decide (magic sb = EXPECTED_MAGIC).
Proof.
  intros Hw. pose proof (from_as_sector sb Hw) as E. apply (f_equal magic) in E.
  cbn [from_sector magic] in E. apply bool_decide_ext. by rewrite E.
Qed.

Lemma super_block_new_inv bs total root :
  in_u 32 bs → in_u 64 total → in_u 64 root → sb_inv (super_block_new bs total root).
Proof.
  unfold in_u. intros Hb Ht Hr. unfold sb_inv. split; [|split; [done|]].
  - unfold super_block_new, saturating_sub. split; cbn; unfold in_u; try done; try lia;
      case_bool_decide; lia.
  - cbn. lia.
Qed.

Lemma sb_set_free_inv sb n :
  sb_inv sb → 0 ≤ n ≤ saturating_sub (total_blocks sb) (reserved_blocks sb) → sb_inv (sb_set_free n sb).
Proof.
  intros ([Hm Hv Hb Ht Hr Hf Hres] & Hmag & Hle) Hn. split; [|by split; cbn; [|lia]].
  split; cbn; try done. unfold saturating_sub, in_u in *. lia.
Qed.

(** What the calls do to the free count; [cap] is what is not reserved. *)
Inductive BlockOp : Type := OpAlloc (n : Z) | OpDealloc (n : Z) | OpSetFree (n : Z).

Definition block_op_ok (op : BlockOp) : Prop :=
  match op with OpAlloc n | OpDealloc n | OpSetFree n => 0 ≤ n < 2 ^ 63 end.

Definition free_after (cap : Z) (op : BlockOp) (free : Z) : Z :=
  match op with
  | OpAlloc n => if bool_decide (n ≤ free) then free - n else free
  | OpDealloc n => Z.min (free + n) cap
  | OpSetFree n => Z.min n cap
  end.

Section super_ops.
Context {D : Type} `{SectorDevLaws D}.

Definition block_exec (drive : Z) (op : BlockOp) : M D FilesystemError unit :=
  match op with
  | OpAlloc n => allocate_blocks drive n
  | OpDealloc n => deallocate_blocks drive n
  | OpSetFree n => update_free_block_count drive n
  end.

(** The calls one after the other; a refusal does not stop the caller. *)
Fixpoint block_run (drive : Z) (ops : list BlockOp) (d : D) : option D :=
  match ops with
  | [] => Some d
  | op :: ops =>
      match block_exec drive op d with
      | (Ok _, d') | (Err InsufficientSpace, d') => block_run drive ops d'
      | _ => None
      end
  end.

(** Drive [drive] holds the super block [sb]. *)
Definition holds_super (d : D) (drive : Z) (sb : SuperBlock) : Prop :=
  0 ≤ drive ≤ 3 ∧ (∃ c, capacity d drive = Some c ∧ 1 ≤ c) ∧ sector d drive 0 = as_sector sb.

Lemma write_sector0 (d : D) drive data :
  0 ≤ drive ≤ 3 → (∃ c, capacity d drive = Some c ∧ 1 ≤ c) → length data = 512%nat →
  ∃ d', ide_write_sectors drive 1 0 data d = (Ok tt, d') ∧ sector d' drive 0 = data ∧
    (∀ dr, capacity d' dr = capacity d dr) ∧
    (∀ dr a, dr ≠ drive ∨ a ≠ 0 → sector d' dr a = sector d dr a).
Proof.
  intros Hd (c & Hc & Hle) Hl.
  destruct (ide_write_sectors_spec d drive 1 0 data c) as (d' & E & Hw & Ho & Hcap); try done; try lia.
  { unfold zlen. lia. }
  exists d'. split; [done|]. split; [|split; [done|]].
  - rewrite Hw by lia. by rewrite Z.sub_diag, field_full.
  - intros dr a Ha. apply Ho. lia.
Qed.

Lemma read_sector0 (d : D) drive :
  0 ≤ drive ≤ 3 → (∃ c, capacity d drive = Some c ∧ 1 ≤ c) →
  ∃ d', ide_read_sectors drive 1 0 (zeros 512) d = (Ok (sector d drive 0), d') ∧
    (∀ dr a, sector d' dr a = sector d dr a) ∧ (∀ dr, capacity d' dr = capacity d dr).
Proof.
  intros Hd (c & Hc & Hle).
  destruct (ide_read_sectors_spec d drive 1 0 (zeros 512) c) as (d' & E & Hs & Hcap); try done; try lia.
  exists d'. split; [|done]. rewrite E. rewrite drop_ge by done.
  change (seqZ 0 1) with [0]. cbn [fmap list_fmap mjoin list_join]. by rewrite !app_nil_r.
Qed.

Lemma read_super_block_ok (d : D) drive sb :
  holds_super d drive sb → sb_inv sb →
  ∃ d', read_super_block drive d = (Ok sb, d') ∧
    (∀ dr a, sector d' dr a = sector d dr a) ∧ (∀ dr, capacity d' dr = capacity d dr).
Proof.
  intros (Hd & Hc & Hs) (Hwf & Hm & _). destruct (read_sector0 d drive Hd Hc) as (d' & E & Hd').
  exists d'. split; [|done]. unfold read_super_block, mbindM. rewrite E, Hs, as_sector_valid by done.
  rewrite bool_decide_eq_true_2 by done. by rewrite from_as_sector.
Qed.

Lemma write_super_ok (d : D) drive sb sb' :
  holds_super d drive sb → sb_wf sb' →
  ∃ d', ide_write_sectors drive 1 0 (as_sector sb') d = (Ok tt, d') ∧ holds_super d' drive sb' ∧
    (∀ dr a, dr ≠ drive ∨ a ≠ 0 → sector d' dr a = sector d dr a).
Proof.
  intros (Hd & Hc & _) Hw.
  destruct (write_sector0 d drive (as_sector sb')) as (d' & E & Hs & Hcap & Ho); [done..| |].
  { apply Len_as_sector, Hw. }
  exists d'. split; [done|]. split; [|done]. split_and!; [lia..| |done]. by rewrite Hcap.
Qed.

Lemma holds_super_same (d d' : D) drive sb :
  (∀ dr a, sector d' dr a = sector d dr a) → (∀ dr, capacity d' dr = capacity d dr) →
  holds_super d drive sb → holds_super d' drive sb.
Proof. intros Hs Hc (Hd & Hcap & Hsec). split_and!; [lia..| |]; [by rewrite Hc|by rewrite Hs]. Qed.

Abbreviation cap_of sb := (saturating_sub (total_blocks sb) (reserved_blocks sb)).

(** One call: the free count moves as specified, nothing else on the disk changes. *)
Lemma block_exec_ok (d : D) drive sb op :
  holds_super d drive sb → sb_inv sb → total_blocks sb < 2 ^ 63 → block_op_ok op →
  ∃ d', (block_exec drive op d = (Ok tt, d') ∨ block_exec drive op d = (Err InsufficientSpace, d')) ∧
    holds_super d' drive (sb_set_free (free_after (cap_of sb) op (free_block_count sb)) sb) ∧
    sb_inv (sb_set_free (free_after (cap_of sb) op (free_block_count sb)) sb) ∧
    (∀ dr a, dr ≠ drive ∨ a ≠ 0 → sector d' dr a = sector d dr a).
Proof.
  intros Hh Hi Ht Hop. destruct (read_super_block_ok d drive sb Hh Hi) as (d1 & Er & Hs1 & Hc1).
  pose proof (holds_super_same d d1 drive sb Hs1 Hc1 Hh) as Hh1.
  assert (0 ≤ free_block_count sb ≤ cap_of sb) as Hf by (destruct Hi as ([] & ? & ?); unfold in_u in *; lia).
  assert (0 ≤ total_blocks sb ∧ 0 ≤ reserved_blocks sb) as [? ?] by (destruct Hi as ([] & ? & ?); unfold in_u in *; lia).
  set (n := free_after (cap_of sb) op (free_block_count sb)).
  assert (0 ≤ n ≤ cap_of sb) as Hn.
  { unfold n. destruct op; cbn in *; try case_bool_decide; unfold saturating_sub in *; lia. }
  pose proof (sb_set_free_inv sb n Hi Hn) as Hi'.
  destruct (write_super_ok d1 drive sb (sb_set_free n sb) Hh1) as (d2 & Ew & Hh2 & Ho2); [apply Hi'|].
  destruct op as [k|k|k]; cbn [block_exec] in *.
  - unfold allocate_blocks, mbindM. rewrite Er. unfold sb_allocate_blocks. cbn [free_after] in *.
    unfold n in *. clear n. case_bool_decide as Hk.
    + exists d2. rewrite Ew. split_and!; [by left|done|done|]. intros dr a Ha. by rewrite Ho2, Hs1.
    + exists d1. assert (sb_set_free (free_block_count sb) sb = sb) as -> by (by destruct sb).
      split_and!; [by right|done|done|]. intros dr a _. apply Hs1.
  - exists d2. split_and!; [left| done|done|intros dr a Ha; by rewrite Ho2, Hs1].
    unfold deallocate_blocks, mbindM. rewrite Er. unfold mlift, sb_deallocate_blocks, add64.
    cbn in Hop. unfold saturating_sub in Hf. rewrite chk_ok by lia. exact Ew.
  - exists d2. split_and!; [left|done|done|intros dr a Ha; by rewrite Ho2, Hs1].
    unfold update_free_block_count, mbindM. rewrite Er. exact Ew.
Qed.

Lemma block_run_ok drive ops : ∀ (d : D) sb,
  holds_super d drive sb → sb_inv sb → total_blocks sb < 2 ^ 63 → Forall block_op_ok ops →
  ∃ d', block_run drive ops d = Some d' ∧
    holds_super d' drive
      (sb_set_free (foldl (λ f op, free_after (cap_of sb) op f) (free_block_count sb) ops) sb) ∧
    sb_inv (sb_set_free (foldl (λ f op, free_after (cap_of sb) op f) (free_block_count sb) ops) sb) ∧
    (∀ dr a, dr ≠ drive ∨ a ≠ 0 → sector d' dr a = sector d dr a).
Proof.
  induction ops as [|op ops IH]; intros d sb Hh Hi Ht Hops.
  - exists d. cbn [foldl]. assert (sb_set_free (free_block_count sb) sb = sb) as -> by (by destruct sb). done.
  - apply Forall_cons in Hops as [Hop Hops].
    destruct (block_exec_ok d drive sb op Hh Hi Ht Hop) as (d1 & E & Hh1 & Hi1 & Ho1).
    destruct (IH d1 _ Hh1 Hi1 Ht Hops) as (d' & E' & Hh' & Hi' & Ho').
    exists d'. cbn [block_run foldl]. split_and!; [destruct E as [-> | ->]; exact E'|exact Hh'|exact Hi'|].
    intros dr a Ha. by rewrite Ho', Ho1.
Qed.
End super_ops.

(** ** The extended super block *)
Record gsb_wf (g : GalleonSuperBlock) : Prop := {
  gw_legacy : sb_wf (legacy_super_block g);
  gw_mft : 0 < mft_start_cluster g < 2 ^ 64;
  gw_mirror : in_u 64 (mft_mirror_cluster g);
  gw_journal : in_u 64 (journal_start_cluster g);
  gw_journal_size : in_u 64 (journal_size_clusters g);
  gw_bitmap : in_u 64 (bitmap_start_cluster g);
  gw_bitmap_size : in_u 64 (bitmap_size_clusters g);
  gw_index : in_u 64 (index_allocation_start g);
  gw_cluster : 0 < gsb_cluster_size g ≤ 65536;
}.

#[export] Instance Len_gsb_serialize g :
  Len (magic (legacy_super_block g)) 64 → Len (gsb_serialize g) 512.
Proof. intros Hm. unfold gsb_serialize. apply _. Qed.
#[global] Typeclasses Opaque gsb_serialize.

(** The extended fields do not touch the legacy ones. *)
Lemma gsb_legacy g : sb_wf (legacy_super_block g) → from_sector (gsb_serialize g) = legacy_super_block g.
Proof.
  intros Hw. rewrite <-(from_as_sector (legacy_super_block g) Hw).
  assert (Len (magic (legacy_super_block g)) 64) as HM by apply Hw.
  unfold from_sector, gsb_serialize. f_equal; fields; done.
Qed.

Lemma gsb_valid g :
  sb_wf (legacy_super_block g) → magic (legacy_super_block g) = EXPECTED_MAGIC →
  super_block_is_valid (gsb_serialize g) = true.
Proof.
  intros Hw Hm. pose proof (gsb_legacy g Hw) as Hl. apply (f_equal magic) in Hl. cbn [from_sector magic] in Hl.
  apply bool_decide_eq_true_2. congruence.
Qed.

Lemma gsb_roundtrip_ok g : gsb_wf g → gsb_deserialize (gsb_serialize g) = Ok g.
Proof.
  intros [Hl Hmft Hmir Hj Hjs Hb Hbs Hi Hcs]. unfold gsb_deserialize.
  rewrite (gsb_legacy g Hl).
  assert (Len (magic (legacy_super_block g)) 64) as HM by apply Hl.
  rewrite bool_decide_eq_false_2.
  2: { unfold zlen. rewrite (len_eq (Len := Len_gsb_serialize g HM)). lia. }
  unfold gsb_serialize. fields. cbv zeta.
  unfold in_u in *. rewrite !le_dec_bytes by lia.
  rewrite !bool_decide_eq_false_2 by lia. by destruct g.
Qed.

Lemma clamp_quarter total :
  4 ≤ clamp 16 256 (total / 128) / 4 ∧ 4 * (clamp 16 256 (total / 128) / 4) ≤ clamp 16 256 (total / 128) ≤ 256.
Proof.
  pose proof (Z.mul_div_le (clamp 16 256 (total / 128)) 4 ltac:(lia)).
  assert (16 ≤ clamp 16 256 (total / 128) ≤ 256) as Hm by (unfold clamp; lia).
  split; [|lia]. apply Z.div_le_lower_bound; lia.
Qed.

(** Where the areas lie, in clusters. *)
Lemma galleon_super_block_new_ok total cs :
  0 ≤ total < 2 ^ 62 → 0 < cs < 2 ^ 32 →
  ∃ g, galleon_super_block_new total cs = Ok g ∧
    legacy_super_block g = super_block_new cs total MFT_RECORD_ROOT ∧
    mft_start_cluster g = 16 ∧
    mft_mirror_cluster g = 16 + clamp 16 256 (total / 128) ∧
    journal_start_cluster g = mft_mirror_cluster g + clamp 16 256 (total / 128) / 4 ∧
    journal_size_clusters g = clamp 8 64 (total / 256) ∧
    bitmap_start_cluster g = journal_start_cluster g + journal_size_clusters g ∧
    bitmap_size_clusters g = Z.max ((total + 8 * cs - 1) / (8 * cs)) 1 ∧
    index_allocation_start g = bitmap_start_cluster g + bitmap_size_clusters g ∧
    gsb_cluster_size g = cs.
Proof.
  intros Ht Hc. unfold galleon_super_block_new, add64, sub64, div64.
  rewrite chk_ok by lia. cbn [rbind]. rewrite chk_ok by lia. cbn [rbind].
  rewrite bool_decide_eq_false_2 by lia. cbn [rbind].
  assert (0 ≤ (total + 8 * cs - 1) / (8 * cs) ≤ total + 8 * cs - 1) as Hq.
  { split; [apply Z.div_pos; lia|apply Z.div_le_upper_bound; nia]. }
  pose proof (clamp_quarter total).
  rewrite chk_ok; [|unfold clamp in *; lia]. cbn [rbind]. eexists. split; [reflexivity|]. cbn. done.
Qed.

Lemma galleon_super_block_new_wf total cs g :
  0 ≤ total < 2 ^ 62 → 0 < cs ≤ 65536 → galleon_super_block_new total cs = Ok g → gsb_wf g.
Proof.
  intros Ht Hc E. destruct (galleon_super_block_new_ok total cs) as (g' & E' & Hl & H1 & H2 & H3 & H4 & H5 & H6 & H7 & H8); [lia..|].
  rewrite E in E'. injection E' as <-.
  assert (0 ≤ (total + 8 * cs - 1) / (8 * cs) ≤ total + 8 * cs - 1) as Hq.
  { split; [apply Z.div_pos; lia|apply Z.div_le_upper_bound; nia]. }
  pose proof (clamp_quarter total).
  assert (16 ≤ clamp 16 256 (total / 128) ≤ 256) by (unfold clamp; lia).
  assert (8 ≤ clamp 8 64 (total / 256) ≤ 64) by (unfold clamp; lia).
  split; unfold in_u; [|lia..].
  rewrite Hl. apply super_block_new_inv; unfold in_u, MFT_RECORD_ROOT; lia.
Qed.

(** Where the areas of a new volume lie. *)
Lemma layout_ok total :
  145 ≤ total < 2 ^ 40 →
  ∃ g, galleon_super_block_new total 4096 = Ok g ∧
    legacy_super_block g = super_block_new 4096 total MFT_RECORD_ROOT ∧
    gsb_cluster_size g = 4096 ∧
    mft_start_cluster g = 16 ∧
    mft_start_cluster g + 16 ≤ mft_mirror_cluster g ∧
    mft_mirror_cluster g + 4 ≤ journal_start_cluster g ∧
    8 ≤ journal_size_clusters g ∧
    journal_start_cluster g + journal_size_clusters g = bitmap_start_cluster g ∧
    total ≤ bitmap_size_clusters g * 4096 * 8 ∧
    bitmap_start_cluster g + bitmap_size_clusters g = index_allocation_start g ∧
    index_allocation_start g + 100 ≤ total.
Proof.
  intros Ht. destruct (galleon_super_block_new_ok total 4096)
    as (g & E & Hl & H1 & H2 & H3 & H4 & H5 & H6 & H7 & H8); [lia..|].
  exists g. split; [done|].
  pose proof (clamp_quarter total) as Hm.
  pose proof (Z.mul_div_le total 128 ltac:(lia)). pose proof (Z.mul_div_le total 256 ltac:(lia)).
  pose proof (Z.mul_div_le (total + 8 * 4096 - 1) (8 * 4096) ltac:(lia)).
  pose proof (Z.mul_succ_div_gt (total + 8 * 4096 - 1) (8 * 4096) ltac:(lia)).
  assert (clamp 16 256 (total / 128) + clamp 16 256 (total / 128) / 4 + clamp 8 64 (total / 256)
          + Z.max ((total + 8 * 4096 - 1) / (8 * 4096)) 1 + 116 ≤ total) as Hsum.
  { unfold clamp in *. lia. }
  assert (total ≤ Z.max ((total + 8 * 4096 - 1) / (8 * 4096)) 1 * 4096 * 8) as Hb by lia.
  assert (16 ≤ clamp 16 256 (total / 128)) by (unfold clamp; lia).
  assert (8 ≤ clamp 8 64 (total / 256)) by (unfold clamp; lia).
  split_and!; first [done|lia].
Qed.

(** ** Properties *)

(** Block accounting refines a counter. On a drive that holds a valid super block, any sequence of
    [allocate_blocks], [deallocate_blocks] and [update_free_block_count] calls succeeds or is refused
    with [InsufficientSpace]; the super block read back afterwards is valid, its free count is the one
    of the counter specification [free_after], never more than what is not reserved, and no other
    sector of any drive has changed. *)
Theorem block_accounting {D} `{SectorDevLaws D} drive ops (d : D) sb :
  holds_super d drive sb → sb_inv sb → total_blocks sb < 2 ^ 63 → Forall block_op_ok ops →
  ∃ d' d'' sb', block_run drive ops d = Some d' ∧ read_super_block drive d' = (Ok sb', d'') ∧
    sb' = sb_set_free (foldl (λ f op, free_after (saturating_sub (total_blocks sb) (reserved_blocks sb)) op f)
                         (free_block_count sb) ops) sb ∧
    sb_inv sb' ∧ (∀ dr a, dr ≠ drive ∨ a ≠ 0 → sector d'' dr a = sector d dr a).
Proof.
  intros Hh Hi Ht Hops. destruct (block_run_ok drive ops d sb Hh Hi Ht Hops) as (d' & E & Hh' & Hi' & Ho).
  destruct (read_super_block_ok d' drive _ Hh' Hi') as (d'' & Er & Hs & _).
  eexists d', d'', _. split_and!; [done|exact Er|done|apply Hi'..|].
  intros dr a Ha. rewrite Hs. by apply Ho.
Qed.

Definition super_disk : RamDisk :=
  (write_super_block 0 1000 4096 5 (mkRam {[0 := 64]} ∅)).2.

Lemma block_accounting_witness :
  ∃ d' d'' sb', block_run 0 [OpAlloc 300; OpAlloc 800; OpDealloc 50; OpSetFree 2000; OpAlloc 1] super_disk = Some d' ∧
    read_super_block 0 d' = (Ok sb', d'') ∧ free_block_count sb' = 899.
Proof.
  destruct (block_accounting 0 [OpAlloc 300; OpAlloc 800; OpDealloc 50; OpSetFree 2000; OpAlloc 1]
              super_disk (super_block_new 4096 1000 5)) as (d' & d'' & sb' & E & Er & -> & _).
  - split_and!; [lia..| |by vm_compute]. exists 64. split; [by vm_compute|lia].
  - apply super_block_new_inv; unfold in_u; lia.
  - cbn. lia.
  - repeat constructor; lia.
  - exists d', d''. eexists. split; [exact E|]. split; [exact Er|by vm_compute].
Defined.

(** The areas of a volume, as first cluster and size: boot area, file table, mirror, journal, bitmap and the clusters
    reserved for indexes. The sizes of table and mirror are not fields of the super block; they are those its
    documentation gives: one cluster in 128, between 16 and 256, and a quarter of that. *)
Definition table_clusters (total : Z) : Z := Z.max 16 (Z.min 256 (total / 128)).
Definition areas (total : Z) (g : GalleonSuperBlock) : list (Z * Z) :=
  [(0, mft_start_cluster g); (mft_start_cluster g, table_clusters total); (mft_mirror_cluster g, table_clusters total / 4);
   (journal_start_cluster g, journal_size_clusters g); (bitmap_start_cluster g, bitmap_size_clusters g);
   (index_allocation_start g, 100)].



(** The extended super block survives a round trip through its sector, which stays a valid legacy
    super block with the same legacy fields. *)
Theorem gsb_roundtrip g :
  gsb_wf g → magic (legacy_super_block g) = EXPECTED_MAGIC →
  gsb_deserialize (gsb_serialize g) = Ok g ∧ length (gsb_serialize g) = 512%nat ∧
  super_block_is_valid (gsb_serialize g) = true ∧ from_sector (gsb_serialize g) = legacy_super_block g.
Proof.
  intros Hw Hm. pose proof (gsb_legacy g (gw_legacy _ Hw)) as Hl. split_and!; [by apply gsb_roundtrip_ok| | |done].
  - apply Len_gsb_serialize, (gw_legacy _ Hw).
  - apply gsb_valid; [apply Hw|done].
Qed.

Lemma gsb_roundtrip_witness :
  ∃ g, galleon_super_block_new 20480 4096 = Ok g ∧ gsb_deserialize (gsb_serialize g) = Ok g.
Proof.
  destruct (galleon_super_block_new_ok 20480 4096) as (g & E & Hl & _); [lia..|].
  exists g. split; [exact E|]. apply (gsb_roundtrip g).
  - by apply (galleon_super_block_new_wf 20480 4096 g); [lia..|].
  - by rewrite Hl.
Defined.
