(* ===== verification/Mft.v ===== *)
(** * The master file table ([crates/galleon2/src/mft.rs])

    Records of 1024 bytes with a header and a list of attributes, their byte
    format, and the manager that reads and writes them a cluster at a time. *)

From S2P Require Import Prelude Device Runs.

Definition MFT_RECORD_SIZE : Z := 1024.

(** [RecordFlags] *)
Record RecordFlags := mkRecordFlags {
  in_use : bool;
  is_directory : bool;
  has_view_index : bool;
}.

Definition record_flags_new : RecordFlags := mkRecordFlags false false false.

Definition flag_if (b : bool) (bit flags : Z) : Z := if b then Z.lor flags bit else flags.

Definition record_flags_to_u16 (f : RecordFlags) : Z :=
  flag_if (has_view_index f) 4 (flag_if (is_directory f) 2 (flag_if (in_use f) 1 0)).

Definition has_bit (value bit : Z) : bool := negb (Z.land value bit =? 0).

Definition record_flags_from_u16 (value : Z) : RecordFlags :=
  mkRecordFlags (has_bit value 1) (has_bit value 2) (has_bit value 4).

(** [MftRecordHeader] *)
Record MftRecordHeader := mkRecHdr {
  signature : list Z;
  update_sequence_offset : Z;
  update_sequence_size : Z;
  log_file_sequence_number : Z;
  sequence_number : Z;
  hard_link_count : Z;
  first_attribute_offset : Z;
  rec_flags : Z;
  bytes_in_use : Z;
  bytes_allocated : Z;
  base_file_record : Z;
  next_attribute_id : Z;
}.

(** [b"FILE"] *)
Definition FILE_SIGNATURE : list Z := [70; 73; 76; 69].

Definition mft_header_new (record_number : Z) : MftRecordHeader :=
  mkRecHdr FILE_SIGNATURE 48 3 0 1 1 56 (record_flags_to_u16 record_flags_new) 56
    (as_u32 MFT_RECORD_SIZE) record_number 0.

Definition mft_header_is_valid (h : MftRecordHeader) : bool :=
  bool_decide (signature h = FILE_SIGNATURE) && bool_decide (bytes_in_use h ≤ bytes_allocated h) &&
  bool_decide (bytes_allocated h = as_u32 MFT_RECORD_SIZE).

Definition hdr_set_usage (next_id in_use : Z) (h : MftRecordHeader) : MftRecordHeader :=
  mkRecHdr (signature h) (update_sequence_offset h) (update_sequence_size h)
    (log_file_sequence_number h) (sequence_number h) (hard_link_count h) (first_attribute_offset h)
    (rec_flags h) in_use (bytes_allocated h) (base_file_record h) next_id.

Definition get_flags (h : MftRecordHeader) : RecordFlags := record_flags_from_u16 (rec_flags h).

Definition set_flags (f : RecordFlags) (h : MftRecordHeader) : MftRecordHeader :=
  mkRecHdr (signature h) (update_sequence_offset h) (update_sequence_size h)
    (log_file_sequence_number h) (sequence_number h) (hard_link_count h) (first_attribute_offset h)
    (record_flags_to_u16 f) (bytes_in_use h) (bytes_allocated h) (base_file_record h)
    (next_attribute_id h).

(** [AttributeType], with its discriminants *)
Inductive AttributeType : Type :=
  | AtStandardInformation | AtFileName | AtData | AtIndexRoot | AtIndexAllocation | AtBitmap.

Definition attr_code (t : AttributeType) : Z :=
  match t with
  | AtStandardInformation => 0x10
  | AtFileName => 0x30
  | AtData => 0x80
  | AtIndexRoot => 0x90
  | AtIndexAllocation => 0xA0
  | AtBitmap => 0xB0
  end.

(** [AttributeHeader], [AttributeData], [Attribute] *)
Record AttributeHeader := mkAttrHdr {
  attr_type : Z;
  attr_length : Z;
  non_resident : bool;
  name_length : Z;
  name_offset : Z;
  attr_flags : Z;
  attribute_id : Z;
}.

Inductive AttributeData : Type :=
  | Resident (content : list Z)
  | NonResident (data_runs : list ClusterRun) (allocated_size real_size initialized_size : Z).

Record Attribute := mkAttr {
  attr_header : AttributeHeader;
  attr_name : list Z;
  attr_data : AttributeData;
}.

Definition new_resident (t : AttributeType) (data : list Z) : fsres Attribute :=
  let? len := add32 24 (as_u32 (zlen data)) in
  Ok (mkAttr (mkAttrHdr (attr_code t) len false 0 24 0 0) [] (Resident data)).

(** [runs.iter().map(|r| r.cluster_count * 4096).sum()] *)
Fixpoint sum_run_bytes (acc : Z) (runs : list ClusterRun) : fsres Z :=
  match runs with
  | [] => Ok acc
  | r :: runs =>
      let? b := mul64 (cluster_count r) 4096 in
      let? acc' := add64 acc b in
      sum_run_bytes acc' runs
  end.

Definition new_non_resident (t : AttributeType) (runs : list ClusterRun) (real_size : Z) : fsres Attribute :=
  let? allocated_size := sum_run_bytes 0 runs in
  Ok (mkAttr (mkAttrHdr (attr_code t) 64 true 0 64 0 0) []
        (NonResident runs allocated_size real_size real_size)).

Definition get_size (a : Attribute) : Z := attr_length (attr_header a).

Definition b2z (b : bool) : Z := if b then 1 else 0.

Definition attr_header_bytes (h : AttributeHeader) : list Z :=
  le_bytes 4 (attr_type h) ++ le_bytes 4 (attr_length h) ++ [b2z (non_resident h)] ++
  [name_length h] ++ le_bytes 2 (name_offset h) ++ le_bytes 2 (attr_flags h) ++
  le_bytes 2 (attribute_id h).

Definition data_run_bytes (r : ClusterRun) : list Z :=
  le_bytes 8 (cluster_count r) ++ le_bytes 8 (start_cluster r).

(** The buffer grows as the fields are written, and is padded to eight bytes. *)
Definition attr_serialize (a : Attribute) : list Z :=
  pad8 (attr_header_bytes (attr_header a) ++
        match attr_data a with
        | Resident content =>
            le_bytes 4 (as_u32 (zlen content)) ++ le_bytes 2 24 ++ le_bytes 2 0 ++ content
        | NonResident runs allocated_size real_size initialized_size =>
            le_bytes 8 0 ++ le_bytes 8 0 ++ le_bytes 2 40 ++ le_bytes 2 0 ++ le_bytes 4 0 ++
            le_bytes 8 allocated_size ++ le_bytes 8 real_size ++ le_bytes 8 initialized_size ++
            mjoin (data_run_bytes <$> runs) ++ [0]
        end).

Definition attr_deserialize (data : list Z) : fsres Attribute :=
  if bool_decide (zlen data < 16) then Err InvalidParameter else
  let h := mkAttrHdr (le_dec (field 0 4 data)) (le_dec (field 4 4 data))
             (negb (bool_decide (nth 8 data 0 = 0))) (nth 9 data 0) (le_dec (field 10 2 data))
             (le_dec (field 12 2 data)) (le_dec (field 14 2 data)) in
  if non_resident h then
    let? allocated := slice 32 40 data in
    let? real := slice 40 48 data in
    let? initialized := slice 48 56 data in
    Ok (mkAttr h [] (NonResident [] (le_dec allocated) (le_dec real) (le_dec initialized)))
  else
    let? content_size := slice 16 20 data in
    let? data_offset := slice 20 22 data in
    let? content := slice (le_dec data_offset) (le_dec data_offset + le_dec content_size) data in
    Ok (mkAttr h [] (Resident content)).

(** [MftRecord] *)
Record MftRecord := mkRecord {
  rec_header : MftRecordHeader;
  rec_attributes : list Attribute;
  record_number : Z;
}.

Definition mft_record_new (n : Z) : MftRecord := mkRecord (mft_header_new n) [] n.

Fixpoint sum_sizes (total : Z) (attrs : list Attribute) : fsres Z :=
  match attrs with
  | [] => Ok total
  | a :: attrs => let? total' := add32 total (get_size a) in sum_sizes total' attrs
  end.

Definition update_bytes_in_use (r : MftRecord) : fsres MftRecord :=
  let? total := sum_sizes (first_attribute_offset (rec_header r)) (rec_attributes r) in
  let? total := add32 total 4 in
  Ok (mkRecord (hdr_set_usage (next_attribute_id (rec_header r)) total (rec_header r))
        (rec_attributes r) (record_number r)).

Definition add_attribute (r : MftRecord) (a : Attribute) : fsres MftRecord :=
  let? next_id := add16 (next_attribute_id (rec_header r)) 1 in
  update_bytes_in_use
    (mkRecord (hdr_set_usage next_id (bytes_in_use (rec_header r)) (rec_header r))
       (rec_attributes r ++ [a]) (record_number r)).

Definition header_bytes (h : MftRecordHeader) : list Z :=
  signature h ++ le_bytes 2 (update_sequence_offset h) ++ le_bytes 2 (update_sequence_size h) ++
  le_bytes 8 (log_file_sequence_number h) ++ le_bytes 2 (sequence_number h) ++
  le_bytes 2 (hard_link_count h) ++ le_bytes 2 (first_attribute_offset h) ++
  le_bytes 2 (rec_flags h) ++ le_bytes 4 (bytes_in_use h) ++ le_bytes 4 (bytes_allocated h) ++
  le_bytes 8 (base_file_record h) ++ le_bytes 2 (next_attribute_id h).

(** The attribute loop of [serialize], from [offset] on; returns where it ended. *)
Fixpoint put_attributes (attrs : list Attribute) (offset : Z) (data : list Z) : fsres (Z * list Z) :=
  match attrs with
  | [] => Ok (offset, data)
  | a :: attrs =>
      let bytes := attr_serialize a in
      let? data' := put_at offset bytes data in
      put_attributes attrs (offset + zlen bytes) data'
  end.

Definition record_serialize (r : MftRecord) : fsres (list Z) :=
  let data := put 0 (header_bytes (rec_header r)) (zeros 1024) in
  let? (offset, data) := put_attributes (rec_attributes r) (first_attribute_offset (rec_header r)) data in
  put_at offset (le_bytes 4 0xFFFFFFFF) data.

Definition header_parse (data : list Z) : MftRecordHeader :=
  mkRecHdr (field 0 4 data) (le_dec (field 4 2 data)) (le_dec (field 6 2 data))
    (le_dec (field 8 8 data)) (le_dec (field 16 2 data)) (le_dec (field 18 2 data))
    (le_dec (field 20 2 data)) (le_dec (field 22 2 data)) (le_dec (field 24 4 data))
    (le_dec (field 28 4 data)) (le_dec (field 32 8 data)) (le_dec (field 40 2 data)).

(** The attribute loop of [deserialize]. Every iteration that goes on with a
    larger offset leaves less to read; one that does not advance repeats for
    ever, so running out of [fuel] is a call that does not return. *)
Fixpoint parse_attributes (fuel : nat) (data : list Z) (limit offset : Z) (acc : list Attribute) :
    fsres (list Attribute) :=
  match fuel with
  | O => Hang
  | S fuel =>
      if bool_decide (offset < limit) then
        let? tag := slice offset (offset + 4) data in
        if bool_decide (le_dec tag = 0xFFFFFFFF) then Ok acc else
        let? rest := slice offset (zlen data) data in
        let? a := attr_deserialize rest in
        parse_attributes fuel data limit (offset + get_size a) (acc ++ [a])
      else Ok acc
  end.

(** Enough fuel for a record: at most 1024 bytes are in use, and every
    iteration but the last consumes at least one. *)
Definition record_fuel : nat := 1026.

Definition record_deserialize (data : list Z) (n : Z) : fsres MftRecord :=
  if bool_decide (zlen data < MFT_RECORD_SIZE) then Err InvalidParameter else
  let h := header_parse data in
  if mft_header_is_valid h then
    let? attrs := parse_attributes record_fuel data (bytes_in_use h) (first_attribute_offset h) [] in
    Ok (mkRecord h attrs n)
  else Err InvalidParameter.

(** [MftManager] *)
Record MftManager := mkMft {
  mft_drive : Z;
  mft_start : Z;
  mft_cluster_size : Z;
}.

Section manager.
Context {D : Type} `{SectorDev D}.

(** Sectors per cluster, first sector and byte offset of a record: the common
    prefix of [read_record] and [write_record]. *)
Definition record_location (mft : MftManager) (n : Z) : fsres (Z * Z * Z) :=
  let records_per_cluster := mft_cluster_size mft / MFT_RECORD_SIZE in
  if bool_decide (records_per_cluster = 0) then Err InvalidParameter else
  let cluster_offset := n / records_per_cluster in
  let record_offset := (n `mod` records_per_cluster) * MFT_RECORD_SIZE in
  let sectors_per_cluster := Z.max (mft_cluster_size mft / 512) 1 in
  let? c := add64 (mft_start mft) cluster_offset in
  let? cluster_sector := mul64 c sectors_per_cluster in
  Ok (sectors_per_cluster, cluster_sector, record_offset).

(** Reads the cluster into the first [cluster_size] bytes of an [AlignedBuf]. *)
Definition read_record_cluster (mft : MftManager) (sectors sector_start : Z) :
    M D FilesystemError (list Z) :=
  let! buf := mlift (slice 0 (mft_cluster_size mft) (zeros 4096)) in
  let! got := ide_read_sectors (mft_drive mft) (as_u8 sectors) (as_u32 sector_start) buf in
  mok (put 0 got (zeros 4096)).

Definition read_record (mft : MftManager) (n : Z) : M D FilesystemError MftRecord :=
  let! (sectors, sector_start, record_offset) := mlift (record_location mft n) in
  let! cluster_data := read_record_cluster mft sectors sector_start in
  let! record_data := mlift (slice record_offset (record_offset + MFT_RECORD_SIZE) cluster_data) in
  mlift (record_deserialize record_data n).

Definition write_record (mft : MftManager) (r : MftRecord) : M D FilesystemError unit :=
  let! (sectors, sector_start, record_offset) := mlift (record_location mft (record_number r)) in
  let! cluster_data := read_record_cluster mft sectors sector_start in
  let! record_data := mlift (record_serialize r) in
  let! cluster_data := mlift (put_at record_offset record_data cluster_data) in
  let! out := mlift (slice 0 (mft_cluster_size mft) cluster_data) in
  ide_write_sectors (mft_drive mft) (as_u8 sectors) (as_u32 sector_start) out.

Definition allocate_record : M (World D) FilesystemError Z := λ w,
  match add64 (w_next_record w) 1 with
  | Ok n => (Ok (w_next_record w), mkWorld (w_dev w) n (w_next_vcn w) (w_counter w))
  | r => (r, w)
  end.
End manager.

(** ** The byte format of attributes *)
Lemma record_flags_roundtrip f : record_flags_from_u16 (record_flags_to_u16 f) = f.
Proof. by destruct f as [[] [] []]. Qed.

Record attr_hdr_ok (h : AttributeHeader) : Prop := {
  ah_type : 0 ≤ attr_type h < 2 ^ 32 - 1;
  ah_length : in_u 32 (attr_length h);
  ah_name_length : in_u 8 (name_length h);
  ah_name_offset : in_u 16 (name_offset h);
  ah_flags : in_u 16 (attr_flags h);
  ah_id : in_u 16 (attribute_id h);
}.

Lemma length_attr_header_bytes h : length (attr_header_bytes h) = 16%nat.
Proof. unfold attr_header_bytes. len. Qed.
#[export] Hint Rewrite length_attr_header_bytes : len.

(** The header fields read back, whatever follows. *)
Lemma attr_header_fields h rest :
  attr_hdr_ok h →
  let data := attr_header_bytes h ++ rest in
  mkAttrHdr (le_dec (field 0 4 data)) (le_dec (field 4 4 data))
     (negb (bool_decide (nth 8 data 0 = 0))) (nth 9 data 0) (le_dec (field 10 2 data))
     (le_dec (field 12 2 data)) (le_dec (field 14 2 data)) = h.
Proof.
  intros [Ht Hl Hn Ho Hf Hi] data.
  assert (nth 8 data 0 = b2z (non_resident h)) as E8.
  { unfold data, attr_header_bytes. rewrite <-!app_assoc. rewrite app_nth2; rewrite length_le_bytes; [|lia].
    rewrite app_nth2; rewrite length_le_bytes; [|lia]. done. }
  assert (nth 9 data 0 = name_length h) as E9.
  { unfold data, attr_header_bytes. rewrite <-!app_assoc. rewrite app_nth2; rewrite length_le_bytes; [|lia].
    rewrite app_nth2; rewrite length_le_bytes; [|lia]. done. }
  rewrite E8, E9. unfold data, attr_header_bytes. rewrite <-!app_assoc.
  destruct h as [t l nr nl no f i].
  cbn [attr_type attr_length non_resident name_length name_offset attr_flags attribute_id] in *.
  unfold in_u in *. f_equal; fields; try (rewrite le_dec_bytes; [done|lia]). by destruct nr.
Qed.

(** A resident attribute as it is stored: its length field counts every byte of it. *)
Record attr_ok (a : Attribute) : Prop := {
  ao_header : attr_hdr_ok (attr_header a);
  ao_name : attr_name a = [];
  ao_resident : non_resident (attr_header a) = false;
  ao_data : ∃ content, attr_data a = Resident content ∧
              attr_length (attr_header a) = 24 + zlen content ∧ (length content mod 8 = 0)%nat;
}.

Lemma pad8_aligned data : (length data mod 8 = 0)%nat → pad8 data = data.
Proof.
  intros E. unfold pad8, pad8_len. rewrite E. cbn. apply app_nil_r.
Qed.

Definition resident_bytes (h : AttributeHeader) (content : list Z) : list Z :=
  attr_header_bytes h ++ le_bytes 4 (zlen content) ++ le_bytes 2 24 ++ le_bytes 2 0 ++ content.

Lemma length_resident_bytes h content : length (resident_bytes h content) = (24 + length content)%nat.
Proof. unfold resident_bytes. len. Qed.
#[export] Hint Rewrite length_resident_bytes : len.

Lemma attr_serialize_resident a content :
  attr_data a = Resident content → 0 ≤ zlen content < 2 ^ 32 →
  attr_serialize a = pad8 (resident_bytes (attr_header a) content).
Proof.
  intros E Hc. unfold attr_serialize. rewrite E. unfold as_u32. by rewrite Z.mod_small.
Qed.

(** Parsing a resident attribute, whatever follows its content. *)
Lemma attr_deserialize_resident h content rest :
  attr_hdr_ok h → non_resident h = false → zlen content < 2 ^ 32 →
  attr_deserialize (resident_bytes h content ++ rest) = Ok (mkAttr h [] (Resident content)).
Proof.
  intros Hh Hr Hc. assert (0 ≤ zlen content) by (unfold zlen; lia).
  unfold attr_deserialize. rewrite bool_decide_eq_false_2 by (unfold zlen; len).
  unfold resident_bytes. rewrite <-app_assoc. rewrite (attr_header_fields h _ Hh). cbv zeta. rewrite Hr.
  rewrite <-!app_assoc.
  rewrite (slice_at 16 20 (attr_header_bytes h)) by (unfold zlen; len). cbn [rbind].
  rewrite (app_assoc (attr_header_bytes h)).
  rewrite (slice_at 20 22 (attr_header_bytes h ++ _)) by (unfold zlen; len). cbn [rbind].
  rewrite !le_dec_bytes by lia.
  rewrite (app_assoc (_ ++ _) (le_bytes 2 24)), (app_assoc ((_ ++ _) ++ _) (le_bytes 2 0)).
  rewrite slice_at by (unfold zlen; len). done.
Qed.

Lemma attr_roundtrip a rest :
  attr_ok a → zlen (attr_serialize a) = get_size a ∧ attr_deserialize (attr_serialize a ++ rest) = Ok a.
Proof.
  intros [Hh Hn Hr (content & Hd & Hl & Hal)].
  assert (0 ≤ zlen content < 2 ^ 32) as Hc.
  { pose proof (ah_length _ Hh) as Hu. unfold in_u in Hu. unfold zlen in *. lia. }
  rewrite (attr_serialize_resident a content Hd Hc). rewrite pad8_aligned.
  2: { len. rewrite Nat.Div0.add_mod, Hal. done. }
  split; [unfold get_size, zlen in *; len|].
  rewrite attr_deserialize_resident by (done || lia). destruct a; cbn in *; by subst.
Qed.

(** ** The byte format of records *)
Definition attrs_bytes (attrs : list Attribute) : list Z := mjoin (attr_serialize <$> attrs).

Definition END_MARKER : list Z := le_bytes 4 0xFFFFFFFF.

Record mft_header_ok (h : MftRecordHeader) : Prop := {
  mh_signature : signature h = FILE_SIGNATURE;
  mh_uso : in_u 16 (update_sequence_offset h);
  mh_uss : in_u 16 (update_sequence_size h);
  mh_lsn : in_u 64 (log_file_sequence_number h);
  mh_seq : in_u 16 (sequence_number h);
  mh_links : in_u 16 (hard_link_count h);
  mh_first : first_attribute_offset h = 56;
  mh_flags : in_u 16 (rec_flags h);
  mh_in_use : 0 ≤ bytes_in_use h ≤ 1024;
  mh_allocated : bytes_allocated h = 1024;
  mh_base : in_u 64 (base_file_record h);
  mh_next : in_u 16 (next_attribute_id h);
}.

Lemma length_FILE_SIGNATURE : length FILE_SIGNATURE = 4%nat.
Proof. done. Qed.
#[export] Hint Rewrite length_FILE_SIGNATURE : len.

Lemma length_header_bytes h : signature h = FILE_SIGNATURE → length (header_bytes h) = 42%nat.
Proof. intros Hs. unfold header_bytes. rewrite Hs. len. Qed.

Lemma header_parse_bytes h rest : mft_header_ok h → header_parse (header_bytes h ++ rest) = h.
Proof.
  intros [Hs ? ? ? ? ? Hf ? ? ? ? ?]. unfold header_parse, header_bytes. rewrite Hs, <-!app_assoc.
  destruct h as [s ? ? ? ? ? ? ? ? ? ? ?]; cbn [signature update_sequence_offset update_sequence_size log_file_sequence_number
    sequence_number hard_link_count first_attribute_offset rec_flags bytes_in_use bytes_allocated
    base_file_record next_attribute_id] in *.
  subst s. unfold in_u in *. f_equal; fields; try done; rewrite le_dec_bytes; done || lia.
Qed.

Lemma mft_header_ok_valid h : mft_header_ok h → mft_header_is_valid h = true.
Proof.
  intros H. unfold mft_header_is_valid. rewrite (mh_signature _ H), (mh_allocated _ H).
  rewrite !bool_decide_eq_true_2; try done. apply H.
Qed.

Lemma attrs_bytes_cons a attrs : attrs_bytes (a :: attrs) = attr_serialize a ++ attrs_bytes attrs.
Proof. done. Qed.

Lemma attrs_bytes_app l k : attrs_bytes (l ++ k) = attrs_bytes l ++ attrs_bytes k.
Proof. unfold attrs_bytes. by rewrite fmap_app, join_app. Qed.

(** The attributes are laid out one after the other when they fit. *)
Lemma put_attributes_ok attrs : ∀ off pre n,
  zlen pre = off → (length (attrs_bytes attrs) ≤ n)%nat →
  put_attributes attrs off (pre ++ zeros n) =
    Ok (off + zlen (attrs_bytes attrs),
        (pre ++ attrs_bytes attrs) ++ zeros (n - length (attrs_bytes attrs))).
Proof.
  induction attrs as [|a attrs IH]; intros off pre n Hoff Hn.
  - cbn [put_attributes]. unfold attrs_bytes. cbn. rewrite app_nil_r, Nat.sub_0_r. f_equal. f_equal. unfold zlen. cbn. lia.
  - rewrite attrs_bytes_cons, length_app in Hn. cbn [put_attributes].
    rewrite put_at_ok by (unfold zlen in *; len). cbn [rbind].
    rewrite put_tail by (unfold zlen in *; lia).
    rewrite IH by (unfold zlen in *; len). rewrite attrs_bytes_cons, <-!app_assoc. f_equal. f_equal.
    + unfold zlen. rewrite length_app. lia.
    + do 4 f_equal. rewrite length_app. lia.
Qed.

Lemma put_attributes_overflow attrs : ∀ off data,
  0 ≤ off → zlen data < off + zlen (attrs_bytes attrs) + 4 →
  (let? (offset, data) := put_attributes attrs off data in put_at offset END_MARKER data) = @Panic FilesystemError _.
Proof.
  induction attrs as [|a attrs IH]; intros off data Hoff Hlt.
  - cbn [put_attributes rbind]. unfold put_at. rewrite bool_decide_eq_false_2; [done|].
    unfold attrs_bytes, zlen in *. cbn in Hlt. intros [_ Hle]. unfold END_MARKER in Hle. rewrite length_le_bytes in Hle. lia.
  - cbn [put_attributes].
    destruct (@put_at_cases FilesystemError _ off (attr_serialize a) data) as [-> | (-> & Hin)]; [done|]. cbn [rbind].
    apply IH; [unfold zlen; lia|]. rewrite attrs_bytes_cons in Hlt. unfold zlen in *.
    rewrite length_put by lia. rewrite length_app in Hlt. lia.
Qed.

(** A record as it is stored. *)
Record record_ok (r : MftRecord) : Prop := {
  ro_header : mft_header_ok (rec_header r);
  ro_attrs : Forall attr_ok (rec_attributes r);
  ro_in_use : bytes_in_use (rec_header r) = 60 + zlen (attrs_bytes (rec_attributes r));
}.

Definition record_bytes (r : MftRecord) : list Z :=
  (header_bytes (rec_header r) ++ zeros 14) ++ attrs_bytes (rec_attributes r) ++ END_MARKER ++
  zeros (964 - length (attrs_bytes (rec_attributes r))).

Lemma record_serialize_ok r :
  signature (rec_header r) = FILE_SIGNATURE → first_attribute_offset (rec_header r) = 56 →
  zlen (attrs_bytes (rec_attributes r)) ≤ 964 →
  record_serialize r = Ok (record_bytes r) ∧ length (record_bytes r) = 1024%nat.
Proof.
  intros Hs Hf Hfit. pose proof (length_header_bytes _ Hs) as Hl. unfold zlen in Hfit.
  set (n := length (attrs_bytes (rec_attributes r))) in *.
  assert (put 0 (header_bytes (rec_header r)) (zeros 1024) = (header_bytes (rec_header r) ++ zeros 14) ++ zeros 968) as E0.
  { change (zeros 1024) with ([] ++ zeros 1024). rewrite put_tail by (done || lia).
    rewrite Hl. cbn [app]. by rewrite <-app_assoc, zeros_app. }
  split.
  - unfold record_serialize. rewrite E0, Hf. cbv zeta. rewrite put_attributes_ok by (unfold zlen; len).
    cbn [rbind]. fold n. rewrite put_at_ok; [|unfold zlen; lia|unfold zlen; len; fold n; lia].
    f_equal. rewrite put_tail.
    + unfold record_bytes. rewrite <-!app_assoc. unfold END_MARKER. rewrite length_le_bytes. do 5 f_equal. lia.
    + len. unfold zlen. fold n. lia.
    + len.
  - unfold record_bytes, END_MARKER. len.
Qed.

Lemma record_serialize_overflow r :
  signature (rec_header r) = FILE_SIGNATURE → first_attribute_offset (rec_header r) = 56 →
  964 < zlen (attrs_bytes (rec_attributes r)) → record_serialize r = Panic.
Proof.
  intros Hs Hf Hbig. unfold record_serialize. rewrite Hf. cbv zeta. apply put_attributes_overflow; [lia|].
  unfold zlen in *. rewrite length_put; len. rewrite length_header_bytes by done. lia.
Qed.

Lemma le_dec_marker : le_dec END_MARKER = 0xFFFFFFFF.
Proof. by vm_compute. Qed.

(** An attribute's type is never the end marker. *)
Lemma attr_tag a rest :
  attr_ok a → ∃ tag tail, attr_serialize a ++ rest = tag ++ tail ∧ zlen tag = 4 ∧ le_dec tag ≠ 0xFFFFFFFF.
Proof.
  intros Ha. destruct (ao_data _ Ha) as (content & Hd & _).
  unfold attr_serialize, pad8, attr_header_bytes. rewrite <-!app_assoc.
  eexists _, _. split; [reflexivity|]. split; [unfold zlen; len|].
  pose proof (ah_type _ (ao_header _ Ha)). rewrite le_dec_bytes by lia. lia.
Qed.

(** Every attribute takes at least its header. *)
Lemma attr_size_pos a : attr_ok a → 24 ≤ zlen (attr_serialize a) ∧ zlen (attr_serialize a) = get_size a.
Proof.
  intros Ha. destruct (attr_roundtrip a [] Ha) as [Hs _]. destruct (ao_data _ Ha) as (content & _ & Hl & _).
  split; [|done]. rewrite Hs. unfold get_size, zlen in *. lia.
Qed.

(** The loop reads stored attributes one by one, whatever follows them. *)
Lemma parse_prefix attrs : ∀ fuel data limit off acc pre rest,
  Forall attr_ok attrs → data = pre ++ attrs_bytes attrs ++ rest → zlen pre = off →
  off + zlen (attrs_bytes attrs) ≤ limit →
  parse_attributes (length attrs + fuel) data limit off acc =
  parse_attributes fuel data limit (off + zlen (attrs_bytes attrs)) (acc ++ attrs).
Proof.
  induction attrs as [|a attrs IH]; intros fuel data limit off acc pre rest Hok Hdata Hoff Hlim.
  - change (zlen (attrs_bytes [])) with 0. by rewrite Z.add_0_r, app_nil_r.
  - apply Forall_cons in Hok as [Ha Hok]. rewrite attrs_bytes_cons, zlen_app in *.
    destruct (attr_size_pos a Ha) as [Hpos Hsz]. pose proof (zlen_nonneg (attrs_bytes attrs)).
    cbn [length Nat.add parse_attributes]. rewrite bool_decide_eq_true_2 by lia.
    rewrite <-app_assoc in Hdata.
    destruct (attr_tag a (attrs_bytes attrs ++ rest) Ha) as (tag & tl & Et & Hl & Hne).
    assert (slice off (off + 4) data = @Ok FilesystemError _ tag) as ->.
    { rewrite Hdata, Et. apply slice_at; lia. }
    cbn [rbind]. rewrite bool_decide_eq_false_2 by done.
    assert (slice off (zlen data) data = @Ok FilesystemError _ (attr_serialize a ++ attrs_bytes attrs ++ rest)) as ->.
    { rewrite Hdata. by apply slice_rest. }
    cbn [rbind]. destruct (attr_roundtrip a (attrs_bytes attrs ++ rest) Ha) as [_ ->]. cbn [rbind].
    rewrite (IH fuel data limit _ _ (pre ++ attr_serialize a) rest Hok).
    + rewrite <-app_assoc. cbn [app]. f_equal. lia.
    + by rewrite Hdata, <-app_assoc.
    + rewrite zlen_app. lia.
    + lia.
Qed.

Lemma parse_attributes_ok attrs fuel data limit off acc pre tail :
  Forall attr_ok attrs → data = pre ++ attrs_bytes attrs ++ END_MARKER ++ tail → zlen pre = off →
  off + zlen (attrs_bytes attrs) < limit → (length attrs < fuel)%nat →
  parse_attributes fuel data limit off acc = Ok (acc ++ attrs).
Proof.
  intros Hok Hdata Hoff Hlim Hfuel.
  replace fuel with (length attrs + S (fuel - length attrs - 1))%nat by lia.
  rewrite (parse_prefix attrs _ data limit off acc pre (END_MARKER ++ tail)) by (done || lia).
  cbn [parse_attributes]. rewrite bool_decide_eq_true_2 by done.
  rewrite Hdata, app_assoc, slice_at; [|rewrite zlen_app; lia|change (zlen END_MARKER) with 4; lia].
  cbn [rbind]. by rewrite le_dec_marker, bool_decide_eq_true_2.
Qed.

Lemma attrs_bytes_count attrs :
  Forall attr_ok attrs → (24 * length attrs ≤ length (attrs_bytes attrs))%nat.
Proof.
  induction 1 as [|a attrs Ha Hall IH]; [done|]. rewrite attrs_bytes_cons, length_app. cbn [length].
  destruct (attr_size_pos a Ha) as [Hs _]. unfold zlen in *. lia.
Qed.

(** Writing a record out and starting to read it back. *)
Lemma record_reread r n :
  mft_header_ok (rec_header r) → zlen (attrs_bytes (rec_attributes r)) ≤ 964 →
  record_serialize r = Ok (record_bytes r) ∧ length (record_bytes r) = 1024%nat ∧
  record_deserialize (record_bytes r) n =
    (let? attrs := parse_attributes record_fuel (record_bytes r) (bytes_in_use (rec_header r)) 56 [] in
     Ok (mkRecord (rec_header r) attrs n)).
Proof.
  intros Hh Hfit. destruct (record_serialize_ok r) as [Es Hl]; [apply Hh|apply Hh|lia|].
  split; [done|]. split; [done|]. unfold record_deserialize.
  rewrite bool_decide_eq_false_2 by (unfold zlen, MFT_RECORD_SIZE; lia).
  assert (header_parse (record_bytes r) = rec_header r) as ->.
  { unfold record_bytes. rewrite <-!app_assoc. by apply header_parse_bytes. }
  cbv zeta. by rewrite (mft_header_ok_valid _ Hh), (mh_first _ Hh).
Qed.

Lemma zlen_head h : signature h = FILE_SIGNATURE → zlen (header_bytes h ++ zeros 14) = 56.
Proof. intros Hs. unfold zlen. len. by rewrite length_header_bytes. Qed.

Lemma record_roundtrip_ok r n :
  record_ok r →
  record_serialize r = Ok (record_bytes r) ∧ length (record_bytes r) = 1024%nat ∧
  record_deserialize (record_bytes r) n = Ok (mkRecord (rec_header r) (rec_attributes r) n).
Proof.
  intros [Hh Ha Hu]. pose proof (mh_in_use _ Hh) as Hb.
  destruct (record_reread r n Hh) as (Es & Hl & ->); [lia|]. split; [done|]. split; [done|].
  rewrite (parse_attributes_ok (rec_attributes r) record_fuel (record_bytes r) _ 56 []
             (header_bytes (rec_header r) ++ zeros 14) _ Ha eq_refl); [done|..].
  - apply zlen_head, Hh.
  - lia.
  - pose proof (attrs_bytes_count _ Ha). unfold record_fuel, zlen in *. lia.
Qed.

(** ** Fuel

    When the attribute loop does not advance it stays where it is for ever;
    otherwise the bytes left decrease. So the fuel of [record_deserialize] is
    enough, and [Hang] is a loop that does not end for any fuel. *)
Lemma parse_attributes_stuck data limit off a :
  ∀ fuel acc rest tag, off < limit → slice off (off + 4) data = @Ok FilesystemError _ tag → le_dec tag ≠ 0xFFFFFFFF →
  slice off (zlen data) data = @Ok FilesystemError _ rest → attr_deserialize rest = Ok a → get_size a = 0 →
  parse_attributes fuel data limit off acc = Hang.
Proof.
  intros fuel. induction fuel as [|fuel IH]; intros acc rest tag Hlt Et Htag Er Ea Hs; [done|].
  cbn [parse_attributes]. rewrite bool_decide_eq_true_2, Et by done. cbn [rbind].
  rewrite bool_decide_eq_false_2, Er by done. cbn [rbind]. rewrite Ea. cbn [rbind].
  rewrite Hs, Z.add_0_r. eauto.
Qed.

Lemma slice_bytes_ok {E} a b data v : bytes_ok data → @slice E _ a b data = Ok v → bytes_ok v.
Proof.
  intros Hd. unfold slice. case_bool_decide; [|done]. intros [= <-]. unfold field.
  by apply Forall_take, Forall_drop.
Qed.

Lemma attr_deserialize_size data a : bytes_ok data → attr_deserialize data = Ok a → 0 ≤ get_size a.
Proof.
  intros Hd E. assert (get_size a = le_dec (field 4 4 data)) as ->.
  { unfold attr_deserialize in E. case_bool_decide; [done|]. cbv zeta in E. cbn [non_resident] in E.
    destruct (negb _); repeat (destruct (slice _ _ data); cbn [rbind] in E; [|done..]); by injection E as <-. }
  apply le_dec_bound. unfold field. by apply Forall_take, Forall_drop.
Qed.

Lemma parse_attributes_fuel data limit : bytes_ok data → ∀ f1 f2 off acc,
  0 ≤ off → limit - off < Z.of_nat f1 → limit - off < Z.of_nat f2 → (0 < f1)%nat → (0 < f2)%nat →
  parse_attributes f1 data limit off acc = parse_attributes f2 data limit off acc.
Proof.
  intros Hd f1. induction f1 as [|f1 IH]; intros f2 off acc Hoff H1 H2 H3 H4; [lia|].
  destruct f2 as [|f2]; [lia|]. cbn [parse_attributes]. case_bool_decide as Hlt; [|done].
  destruct (slice off (off + 4) data) as [tag| | |] eqn:Et; cbn [rbind]; try done.
  case_bool_decide as Htag; [done|].
  destruct (slice off (zlen data) data) as [rest| | |] eqn:Er; cbn [rbind]; try done.
  destruct (attr_deserialize rest) as [a| | |] eqn:Ea; cbn [rbind]; try done.
  pose proof (attr_deserialize_size rest a (slice_bytes_ok _ _ _ _ Hd Er) Ea) as Hs.
  destruct (decide (get_size a = 0)) as [Hz|Hz].
  - rewrite Hz, Z.add_0_r. by erewrite !parse_attributes_stuck.
  - apply IH; lia.
Qed.

(** ** Records on the disk *)
Section manager_spec.
Context {D : Type} `{SectorDevLaws D}.
Implicit Types (mft : MftManager) (d : D).

Definition record_cluster mft n : Z := mft_start mft + n / 4.

(** The bytes stored for record [n]. *)
Definition stored d mft n : list Z :=
  field (Z.to_nat (n `mod` 4 * 1024)) 1024 (sectors_at d (mft_drive mft) (record_cluster mft n * 8) 8).

(** Clusters of 4096 bytes, and the cluster of record [n] lies on the drive. *)
Definition record_on_disk d mft n : Prop :=
  mft_cluster_size mft = 4096 ∧ 0 ≤ mft_start mft ∧ 0 ≤ n ∧
  on_drive d (mft_drive mft) (record_cluster mft n * 8) 8.

Lemma record_location_ok d mft n :
  record_on_disk d mft n →
  record_location mft n = Ok (8, record_cluster mft n * 8, n `mod` 4 * 1024) ∧
  as_u32 (record_cluster mft n * 8) = record_cluster mft n * 8.
Proof.
  intros (Hcs & Hst & Hn & _ & Hl & cap & Hcap & Hin). pose proof (capacity_bound _ _ _ Hcap).
  unfold record_location. rewrite Hcs. change (4096 / MFT_RECORD_SIZE) with 4.
  rewrite bool_decide_eq_false_2 by done. cbv zeta. change (Z.max (4096 / 512) 1) with 8.
  unfold record_cluster in *. unfold add64, mul64, as_u32. rewrite chk_ok by lia. cbn [rbind]. rewrite chk_ok by lia.
  split; [done|]. apply Z.mod_small. lia.
Qed.

Lemma read_record_cluster_ok d mft n :
  record_on_disk d mft n →
  ∃ d', read_record_cluster mft 8 (record_cluster mft n * 8) d =
          (Ok (sectors_at d (mft_drive mft) (record_cluster mft n * 8) 8), d') ∧ same_disk d d'.
Proof.
  intros Hon. destruct (record_location_ok d mft n Hon) as [_ E32]. destruct Hon as (Hcs & _ & _ & Hon).
  destruct (read_exact d (mft_drive mft) 8 (record_cluster mft n * 8) (zeros 4096) Hon) as (d' & E & Hs);
    [lia|unfold zlen; len|].
  exists d'. split; [|done]. unfold read_record_cluster, mbindM, mlift. rewrite Hcs.
  rewrite slice_ok by (unfold zlen; len). rewrite field_full by len.
  change (as_u8 8) with 8. rewrite E32, E. unfold mok. do 2 f_equal.
  pose proof (length_sectors_at d (mft_drive mft) (record_cluster mft n * 8) 8 ltac:(lia)) as Hl. unfold zlen in Hl.
  change (zeros 4096) with ([] ++ zeros 4096). rewrite put_tail by (done || lia). cbn [app].
  replace (_ - _)%nat with 0%nat by lia. apply app_nil_r.
Qed.

Lemma stored_range n : 0 ≤ n → 0 ≤ n `mod` 4 * 1024 ≤ 3072.
Proof. intros. pose proof (Z.mod_pos_bound n 4). lia. Qed.

Lemma read_record_ok d mft n :
  record_on_disk d mft n →
  ∃ d', read_record mft n d = (record_deserialize (stored d mft n) n, d') ∧ same_disk d d'.
Proof.
  intros Hon. destruct (record_location_ok d mft n Hon) as [El _].
  destruct (read_record_cluster_ok d mft n Hon) as (d' & Er & Hs). exists d'. split; [|done].
  unfold read_record. unfold mbindM at 1, mlift at 1. rewrite El. unfold mbindM at 1. rewrite Er.
  unfold mbindM, mlift, MFT_RECORD_SIZE. destruct Hon as (_ & _ & Hn & _). pose proof (stored_range n Hn).
  rewrite slice_ok; [|lia|rewrite length_sectors_at; lia].
  unfold stored. by replace (n `mod` 4 * 1024 + 1024 - n `mod` 4 * 1024) with 1024 by lia.
Qed.

(** Two records do not overlap. *)
Lemma stored_put n m (data cl : list Z) :
  0 ≤ n → 0 ≤ m → m ≠ n → m / 4 = n / 4 → length data = 1024%nat → length cl = 4096%nat →
  field (Z.to_nat (m `mod` 4 * 1024)) 1024 (put (Z.to_nat (n `mod` 4 * 1024)) data cl) =
  field (Z.to_nat (m `mod` 4 * 1024)) 1024 cl.
Proof.
  intros Hn Hm Hne Hq Hd Hc. pose proof (stored_range n Hn). pose proof (stored_range m Hm).
  apply field_put_other; [lia|].
  assert (m `mod` 4 ≠ n `mod` 4) by (pose proof (Z.div_mod m 4); pose proof (Z.div_mod n 4); lia).
  lia.
Qed.

Lemma write_record_ok d mft r data :
  record_on_disk d mft (record_number r) → record_serialize r = Ok data → length data = 1024%nat →
  ∃ d', write_record mft r d = (Ok tt, d') ∧ stored d' mft (record_number r) = data ∧
    (∀ m, 0 ≤ m → m ≠ record_number r → stored d' mft m = stored d mft m) ∧
    only_sectors (mft_drive mft) (record_cluster mft (record_number r) * 8) 8 d d'.
Proof.
  intros Hon Es Hl. set (n := record_number r) in *.
  destruct (record_location_ok d mft n Hon) as [El E32].
  destruct (read_record_cluster_ok d mft n Hon) as (d1 & Er & Hs1).
  pose proof Hon as (Hcs & Hst & Hn & Hod). pose proof (stored_range n Hn) as Hrg.
  set (cl := sectors_at d (mft_drive mft) (record_cluster mft n * 8) 8) in *.
  assert (length cl = 4096%nat) as Hcl.
  { pose proof (length_sectors_at d (mft_drive mft) (record_cluster mft n * 8) 8 ltac:(lia)) as Hz. fold cl in Hz. unfold zlen in Hz. lia. }
  set (out := put (Z.to_nat (n `mod` 4 * 1024)) data cl).
  assert (length out = 4096%nat) as Hout by (unfold out; rewrite length_put; lia).
  destruct (write_exact d1 (mft_drive mft) 8 (record_cluster mft n * 8) out) as (d' & Ew & Hd' & Ho);
    [by eapply on_drive_same|lia|unfold zlen; lia|].
  assert (only_sectors (mft_drive mft) (record_cluster mft n * 8) 8 d d') as Hod'.
  { etransitivity; [by apply same_disk_only|exact Ho]. }
  exists d'. split_and!; [| | |done].
  - unfold write_record. fold n. unfold mbindM at 1, mlift at 1. rewrite El. unfold mbindM at 1. rewrite Er.
    unfold mbindM, mlift. rewrite Es, put_at_ok by (unfold zlen; lia). fold out. rewrite Hcs.
    rewrite slice_ok by (unfold zlen; lia). rewrite field_full by (rewrite Hout; done).
    change (as_u8 8) with 8. by rewrite E32.
  - unfold stored. rewrite Hd'. unfold out. apply field_put_same; lia.
  - intros m Hm Hne. unfold stored. destruct (decide (m / 4 = n / 4)) as [Hq|Hq].
    + unfold record_cluster at 1 2. rewrite Hq. fold (record_cluster mft n). rewrite Hd'. unfold out.
      rewrite stored_put by done. done.
    + f_equal. apply (sectors_at_other _ _ _ _ _ _ _ _ Hod'). unfold record_cluster. lia.
Qed.
End manager_spec.

(** ** Records that cannot be read back *)
Lemma parse_attributes_mono data limit : ∀ fuel off acc,
  parse_attributes fuel data limit off acc ≠ Hang →
  parse_attributes (S fuel) data limit off acc = parse_attributes fuel data limit off acc.
Proof.
  induction fuel as [|fuel IH]; intros off acc Hn; [done|].
  cbn [parse_attributes] in Hn. remember (S fuel) as f1 eqn:Ef. cbn [parse_attributes]. subst f1.
  cbn [parse_attributes]. case_bool_decide; [|done].
  destruct (slice off (off + 4) data) as [tag| | |]; cbn [rbind] in *; try done.
  case_bool_decide; [done|].
  destruct (slice off (zlen data) data) as [rest| | |]; cbn [rbind] in *; try done.
  destruct (attr_deserialize rest) as [a| | |]; cbn [rbind] in *; try done.
  by apply IH.
Qed.

(** Hanging with the record's fuel is hanging with any fuel. *)
Lemma parse_hang_forever data limit off :
  bytes_ok data → 0 ≤ off → limit ≤ 1024 →
  parse_attributes record_fuel data limit off [] = Hang →
  ∀ fuel, parse_attributes fuel data limit off [] = Hang.
Proof.
  intros Hd Hoff Hlim Hh fuel. destruct (decide (record_fuel ≤ fuel)%nat) as [Hge|Hlt].
  - rewrite (parse_attributes_fuel data limit Hd fuel record_fuel); [done|lia|unfold record_fuel in *; lia..].
  - assert (∀ k, parse_attributes (fuel + k) data limit off [] = Hang → parse_attributes fuel data limit off [] = Hang) as Hk.
    { induction k as [|k IHk]; [by rewrite Nat.add_0_r|]. rewrite Nat.add_succ_r. intros E. apply IHk.
      destruct (parse_attributes (fuel + k) data limit off []) eqn:E'; try done;
        rewrite parse_attributes_mono in E; congruence. }
    apply (Hk (record_fuel - fuel)%nat). by replace (fuel + _)%nat with record_fuel by lia.
Qed.

(** A resident attribute whose content needs four bytes of padding. *)
Record attr_odd (a : Attribute) (content : list Z) : Prop := {
  od_header : attr_hdr_ok (attr_header a);
  od_name : attr_name a = [];
  od_resident : non_resident (attr_header a) = false;
  od_data : attr_data a = Resident content;
  od_length : attr_length (attr_header a) = 24 + zlen content;
  od_align : (length content mod 8 = 4)%nat;
}.

Definition phantom_header : AttributeHeader := mkAttrHdr 0 0xFFFFFFFF false 0 0 0 0.
Definition phantom : Attribute := mkAttr phantom_header [] (Resident []).

Lemma attr_serialize_odd a content :
  attr_odd a content → attr_serialize a = resident_bytes (attr_header a) content ++ zeros 4.
Proof.
  intros [Hh Hn Hr Hd Hl Ha]. pose proof (ah_length _ Hh) as Hu. unfold in_u in Hu. pose proof (zlen_nonneg content).
  rewrite (attr_serialize_resident a content Hd) by lia. unfold pad8. f_equal. f_equal.
  rewrite length_resident_bytes. unfold pad8_len. rewrite Nat.Div0.add_mod, Ha. done.
Qed.

(** What the loop finds after such an attribute: padding, then the end marker, read as a header. *)
Lemma phantom_parse k : attr_deserialize (zeros 4 ++ END_MARKER ++ zeros (24 + k)) = Ok phantom.
Proof.
  assert (zeros 4 ++ END_MARKER ++ zeros (24 + k) = attr_header_bytes phantom_header ++ zeros 16 ++ zeros k) as ->.
  { rewrite zeros_app. change (24 + k)%nat with (8 + (16 + k))%nat. rewrite <-zeros_app. by rewrite !app_assoc. }
  unfold attr_deserialize. rewrite bool_decide_eq_false_2 by (unfold zlen; len).
  rewrite (attr_header_fields phantom_header) by (split; cbn; unfold in_u; lia). cbv zeta.
  cbn [non_resident phantom_header]. change (zeros 16) with (zeros 4 ++ zeros 2 ++ zeros 10).
  rewrite <-!app_assoc.
  rewrite (slice_at 16 20) by (unfold zlen; len). cbn [rbind]. rewrite (app_assoc (attr_header_bytes _)).
  rewrite (slice_at 20 22) by (unfold zlen; len). cbn [rbind].
  change (le_dec (zeros 2)) with 0. change (le_dec (zeros 4)) with 0. rewrite slice_ok; [done|lia|apply zlen_nonneg].
Qed.

(** One iteration of the loop. *)
Lemma parse_one fuel data limit off acc pre tag tl a :
  data = pre ++ tag ++ tl → zlen pre = off → zlen tag = 4 → le_dec tag ≠ 0xFFFFFFFF →
  off < limit → attr_deserialize (tag ++ tl) = Ok a →
  parse_attributes (S fuel) data limit off acc = parse_attributes fuel data limit (off + get_size a) (acc ++ [a]).
Proof.
  intros Hdata Hoff Htag Hne Hlim Ha. cbn [parse_attributes]. rewrite bool_decide_eq_true_2 by done.
  assert (slice off (off + 4) data = @Ok FilesystemError _ tag) as ->.
  { rewrite Hdata. apply slice_at; lia. }
  cbn [rbind]. rewrite bool_decide_eq_false_2 by done.
  assert (slice off (zlen data) data = @Ok FilesystemError _ (tag ++ tl)) as ->.
  { rewrite Hdata. by apply slice_rest. }
  cbn [rbind]. by rewrite Ha.
Qed.

(** An iteration that finds length zero is the last one that matters. *)
Lemma parse_stuck fuel data limit off acc pre tag tl a :
  data = pre ++ tag ++ tl → zlen pre = off → zlen tag = 4 → le_dec tag ≠ 0xFFFFFFFF →
  off < limit → attr_deserialize (tag ++ tl) = Ok a → get_size a = 0 →
  parse_attributes fuel data limit off acc = Hang.
Proof.
  intros Hdata Hoff Htag Hne Hlim Ha Hz. apply (parse_attributes_stuck data limit off a fuel acc (tag ++ tl) tag); try done.
  - rewrite Hdata. apply slice_at; lia.
  - rewrite Hdata. by apply slice_rest.
Qed.

Lemma attr_header_tag h : ∃ tl, attr_header_bytes h = le_bytes 4 (attr_type h) ++ tl.
Proof. eexists. reflexivity. Qed.

Lemma parse_odd l a c fuel data limit off acc pre rest :
  Forall attr_ok l → attr_odd a c →
  data = pre ++ attrs_bytes l ++ resident_bytes (attr_header a) c ++ rest → zlen pre = off →
  off + zlen (attrs_bytes l) < limit →
  parse_attributes (length l + S fuel) data limit off acc =
  parse_attributes fuel data limit (off + zlen (attrs_bytes l) + 24 + zlen c) (acc ++ l ++ [a]).
Proof.
  intros Hl Ha Hdata Hoff Hlim. pose proof (od_header _ _ Ha) as Hh.
  pose proof (ah_length _ Hh) as Hu. unfold in_u in Hu. pose proof (od_length _ _ Ha) as Hlen.
  rewrite (parse_prefix l _ data limit off acc pre _ Hl Hdata Hoff) by lia.
  destruct (attr_header_tag (attr_header a)) as [tl Etl].
  rewrite (parse_one fuel data limit _ _ (pre ++ attrs_bytes l) (le_bytes 4 (attr_type (attr_header a)))
             (tl ++ le_bytes 4 (zlen c) ++ le_bytes 2 24 ++ le_bytes 2 0 ++ c ++ rest) a).
  - unfold get_size. rewrite Hlen, <-app_assoc, Z.add_assoc. done.
  - rewrite Hdata. unfold resident_bytes. by rewrite Etl, <-!app_assoc.
  - rewrite zlen_app. lia.
  - unfold zlen. len.
  - pose proof (ah_type _ Hh). rewrite le_dec_bytes; lia.
  - lia.
  - rewrite app_assoc, <-Etl.
    assert (attr_header_bytes (attr_header a) ++ le_bytes 4 (zlen c) ++ le_bytes 2 24 ++ le_bytes 2 0 ++ c ++ rest
            = resident_bytes (attr_header a) c ++ rest) as -> by (unfold resident_bytes; by rewrite <-!app_assoc).
    rewrite attr_deserialize_resident; [|done|apply Ha|lia].
    destruct Ha as [_ Hn _ Hd _ _]. destruct a. cbn in *. by subst.
Qed.

Section odd_record.
Context (r : MftRecord) (l : list Attribute) (a : Attribute) (c : list Z).
Hypothesis Hh : mft_header_ok (rec_header r).
Hypothesis Hl : Forall attr_ok l.
Hypothesis Ha : attr_odd a c.
Hypothesis Hattrs : rec_attributes r = l ++ [a].
Hypothesis Huse : bytes_in_use (rec_header r) = 84 + zlen (attrs_bytes l) + zlen c.
Hypothesis Hfit : zlen (attrs_bytes l) + zlen c ≤ 860.

Abbreviation head := (header_bytes (rec_header r) ++ zeros 14).

Lemma odd_bytes tail_attrs :
  attrs_bytes (l ++ a :: tail_attrs) =
  attrs_bytes l ++ resident_bytes (attr_header a) c ++ zeros 4 ++ attrs_bytes tail_attrs.
Proof. rewrite attrs_bytes_app, attrs_bytes_cons, (attr_serialize_odd a c Ha). by rewrite <-!app_assoc. Qed.

Lemma odd_length : (length l < record_fuel - 3)%nat.
Proof. pose proof (attrs_bytes_count l Hl). pose proof (zlen_nonneg c). unfold record_fuel, zlen in *. lia. Qed.

(** Reading the record once adds the phantom. *)
Lemma odd_read_once n :
  record_serialize r = Ok (record_bytes r) ∧
  record_deserialize (record_bytes r) n = Ok (mkRecord (rec_header r) (l ++ [a; phantom]) n).
Proof.
  assert (zlen (attrs_bytes (rec_attributes r)) = zlen (attrs_bytes l) + 28 + zlen c) as Hz.
  { rewrite Hattrs, odd_bytes. unfold zlen. len. }
  destruct (record_reread r n Hh) as (Es & _ & ->); [lia|]. split; [done|].
  pose proof (zlen_head _ (mh_signature _ Hh)) as Hhead.
  pose proof odd_length. set (k := (964 - length (attrs_bytes (rec_attributes r)) - 24)%nat).
  assert (record_bytes r = head ++ attrs_bytes l ++ resident_bytes (attr_header a) c ++ zeros 4 ++ END_MARKER ++ zeros (24 + k)) as Eb.
  { unfold record_bytes. rewrite Hattrs at 1. rewrite odd_bytes. change (attrs_bytes []) with (@nil Z).
    rewrite app_nil_r, <-!app_assoc. do 7 f_equal. unfold k, zlen in *. lia. }
  replace record_fuel with (length l + S (S (S (record_fuel - length l - 3))))%nat by lia.
  pose proof (zlen_nonneg (attrs_bytes l)). pose proof (zlen_nonneg c).
  rewrite (parse_odd l a c _ _ _ 56 [] head _ Hl Ha Eb Hhead) by lia.
  rewrite (parse_one _ _ _ _ _ (head ++ attrs_bytes l ++ resident_bytes (attr_header a) c) (zeros 4) (END_MARKER ++ zeros (24 + k)) phantom).
  - cbn [parse_attributes]. rewrite bool_decide_eq_false_2; [|cbn; lia].
    cbn [rbind app]. by rewrite <-app_assoc.
  - by rewrite Eb, <-!app_assoc.
  - rewrite zlen_app, Hhead, zlen_app. unfold zlen. len.
  - done.
  - by vm_compute.
  - lia.
  - apply phantom_parse.
Qed.

(** Writing back what was read leaves a record that can no longer be read. *)
Lemma odd_read_twice n :
  let r1 := mkRecord (rec_header r) (l ++ [a; phantom]) (record_number r) in
  record_serialize r1 = Ok (record_bytes r1) ∧ record_deserialize (record_bytes r1) n = Hang.
Proof.
  intros r1.
  assert (attr_serialize phantom = le_bytes 4 0 ++ END_MARKER ++ zeros 8 ++ le_bytes 4 0 ++ le_bytes 2 24 ++ le_bytes 2 0) as Eph by done.
  assert (zlen (attrs_bytes (rec_attributes r1)) = zlen (attrs_bytes l) + 52 + zlen c) as Hz.
  { cbn [rec_attributes r1]. rewrite odd_bytes. unfold zlen. len. change (length (attrs_bytes [phantom])) with 24%nat. lia. }
  destruct (record_reread r1 n Hh) as (Es & _ & ->); [lia|]. split; [done|].
  change (rec_header r1) with (rec_header r).
  pose proof (zlen_head _ (mh_signature _ Hh)) as Hhead.
  set (k := (964 - length (attrs_bytes (rec_attributes r1)))%nat).
  set (tl := le_bytes 4 0 ++ END_MARKER ++ zeros 8 ++ le_bytes 4 0 ++ le_bytes 2 24 ++ le_bytes 2 0 ++ END_MARKER ++ zeros k).
  assert (record_bytes r1 = head ++ attrs_bytes l ++ resident_bytes (attr_header a) c ++ zeros 4 ++ tl) as Eb.
  { unfold record_bytes, tl. fold k. cbn [rec_attributes rec_header r1]. rewrite odd_bytes.
    rewrite attrs_bytes_cons, Eph. change (attrs_bytes []) with (@nil Z). by rewrite app_nil_r, <-!app_assoc. }
  pose proof odd_length. pose proof (zlen_nonneg (attrs_bytes l)). pose proof (zlen_nonneg c).
  replace record_fuel with (length l + S (S (S (record_fuel - length l - 3))))%nat by lia.
  rewrite (parse_odd l a c _ _ _ 56 [] head _ Hl Ha Eb Hhead) by lia.
  assert (∃ x, attr_deserialize (zeros 4 ++ tl) = Ok x ∧ get_size x = 0) as (x & Ex & Hx).
  { unfold attr_deserialize.
    assert (60 ≤ zlen (zeros 4 ++ tl)) by (unfold tl, zlen, END_MARKER, k in *; len).
    rewrite bool_decide_eq_false_2 by lia. cbv zeta. cbn [non_resident].
    change (negb (bool_decide (nth 8 (zeros 4 ++ tl) 0 = 0))) with true. cbv iota.
    rewrite !slice_ok by lia. cbn [rbind]. eexists. split; [reflexivity|]. done. }
  rewrite (parse_stuck _ _ _ _ _ (head ++ attrs_bytes l ++ resident_bytes (attr_header a) c) (zeros 4) tl x).
  - done.
  - by rewrite Eb, <-!app_assoc.
  - rewrite zlen_app, Hhead, zlen_app. unfold zlen. len.
  - done.
  - by vm_compute.
  - lia.
  - done.
  - done.
Qed.
End odd_record.

(** ** Non-resident attributes *)
Lemma le_bytes_S n z : le_bytes (S n) z = z `mod` 256 :: le_bytes n (z / 256).
Proof.
  unfold le_bytes. replace (Z.of_nat (S n)) with (Z.succ (Z.of_nat n)) by lia.
  rewrite Z_to_little_endian_succ by lia. f_equal.
  - rewrite Z.land_ones by lia. done.
  - by rewrite Z.shiftr_div_pow2 by lia.
Qed.

Lemma le_bytes_0 n : le_bytes n 0 = zeros n.
Proof. induction n as [|n IH]; [done|]. rewrite le_bytes_S. change (0 / 256) with 0. rewrite IH. done. Qed.

Lemma le_bytes_high n m z : 0 ≤ z < 2 ^ (Z.of_nat n * 8) → le_bytes (n + m) z = le_bytes n z ++ zeros m.
Proof.
  revert z. induction n as [|n IH]; intros z Hz.
  - assert (z = 0) as -> by (cbn in Hz; lia). apply le_bytes_0.
  - cbn [Nat.add]. rewrite !le_bytes_S. cbn [app]. f_equal. apply IH.
    replace (Z.of_nat (S n) * 8) with (8 + Z.of_nat n * 8) in Hz by lia. rewrite Z.pow_add_r in Hz by lia.
    split; [apply Z.div_pos; lia|]. apply Z.div_lt_upper_bound; lia.
Qed.

(** The runs that follow the 64 bytes a non-resident attribute claims, read as an attribute. *)
Lemma run_as_attribute run k :
  0 ≤ cluster_count run < 2 ^ 32 → (36 ≤ k)%nat →
  ∃ tl a, data_run_bytes run ++ zeros 8 ++ END_MARKER ++ zeros k = le_bytes 4 (cluster_count run) ++ tl ∧
    attr_deserialize (le_bytes 4 (cluster_count run) ++ tl) = Ok a ∧ get_size a = 0.
Proof.
  intros Hc Hk. unfold data_run_bytes. change (le_bytes 8 (cluster_count run)) with (le_bytes (4 + 4) (cluster_count run)).
  rewrite (le_bytes_high 4 4) by (cbn; lia). rewrite <-!app_assoc.
  set (tl := zeros 4 ++ le_bytes 8 (start_cluster run) ++ zeros 8 ++ END_MARKER ++ zeros k).
  exists tl. set (data := le_bytes 4 (cluster_count run) ++ tl).
  assert (64 ≤ zlen data) as Hl by (unfold data, tl, zlen, END_MARKER; len).
  assert (field 4 4 data = zeros 4) as E4 by (unfold data, tl; fields; done).
  assert (field 16 4 data = zeros 4) as E16.
  { unfold data, tl. fields. done. }
  assert (field 20 2 data = zeros 2) as E20.
  { unfold data, tl. fields. done. }
  unfold attr_deserialize. rewrite bool_decide_eq_false_2 by lia. cbv zeta. cbn [non_resident]. rewrite E4.
  destruct (negb (bool_decide (nth 8 data 0 = 0))).
  - rewrite !slice_ok by lia. cbn [rbind]. eexists. split; [done|]. split; [reflexivity|]. done.
  - rewrite (slice_ok 16 20), (slice_ok 20 22) by lia. cbn [rbind].
    change (Z.to_nat 16) with 16%nat. change (Z.to_nat (20 - 16)) with 4%nat.
    change (Z.to_nat 20) with 20%nat. change (Z.to_nat (22 - 20)) with 2%nat. rewrite E16, E20.
    change (le_dec (zeros 2)) with 0. change (le_dec (zeros 4)) with 0. rewrite slice_ok by lia. cbn [rbind].
    eexists. split; [done|]. split; [reflexivity|]. done.
Qed.

(** The first 64 bytes of a non-resident attribute parse, with the length they claim. *)
Lemma attr_deserialize_non_resident h rest :
  attr_hdr_ok h → non_resident h = true → 40 ≤ zlen rest →
  ∃ a, attr_deserialize (attr_header_bytes h ++ rest) = Ok a ∧ get_size a = attr_length h.
Proof.
  intros Hh Hr Hl. unfold attr_deserialize.
  assert (zlen (attr_header_bytes h ++ rest) = 16 + zlen rest) as Hz
    by (unfold zlen; rewrite length_app, length_attr_header_bytes; lia).
  rewrite bool_decide_eq_false_2 by lia. rewrite (attr_header_fields h _ Hh). cbv zeta. rewrite Hr.
  rewrite !slice_ok by lia. cbn [rbind]. eexists. split; [reflexivity|]. done.
Qed.

Definition non_resident_sizes (allocated real initialized : Z) : list Z :=
  le_bytes 8 0 ++ le_bytes 8 0 ++ le_bytes 2 40 ++ le_bytes 2 0 ++ le_bytes 4 0 ++
  le_bytes 8 allocated ++ le_bytes 8 real ++ le_bytes 8 initialized.

Lemma attr_serialize_non_resident h run x y z :
  attr_serialize (mkAttr h [] (NonResident [run] x y z)) =
  attr_header_bytes h ++ non_resident_sizes x y z ++ data_run_bytes run ++ zeros 8.
Proof.
  unfold attr_serialize. cbn [attr_header attr_data fmap list_fmap mjoin list_join]. rewrite app_nil_r.
  unfold pad8, non_resident_sizes. rewrite <-!app_assoc. do 10 f_equal.
Qed.

Lemma non_resident_read_hangs r l a t run size n :
  mft_header_ok (rec_header r) → Forall attr_ok l → new_non_resident t [run] size = Ok a →
  0 ≤ cluster_count run < 2 ^ 32 - 1 → rec_attributes r = l ++ [a] →
  bytes_in_use (rec_header r) = 124 + zlen (attrs_bytes l) → zlen (attrs_bytes l) ≤ 800 →
  record_serialize r = Ok (record_bytes r) ∧ record_deserialize (record_bytes r) n = Hang.
Proof.
  intros Hh Hl Ea Hc Hattrs Huse Hfit.
  unfold new_non_resident in Ea. destruct (sum_run_bytes 0 [run]) as [sz| | |]; [|done..]. cbn [rbind] in Ea.
  injection Ea as <-. set (h := mkAttrHdr (attr_code t) 64 true 0 64 0 0) in *.
  assert (attr_hdr_ok h) as Hok by (split; destruct t; cbn; unfold in_u; lia).
  set (mid := non_resident_sizes sz size size).
  assert (length mid = 48%nat) as Hmid by (unfold mid, non_resident_sizes; len).
  assert (attrs_bytes (rec_attributes r) = attrs_bytes l ++ attr_header_bytes h ++ mid ++ data_run_bytes run ++ zeros 8) as Eattrs.
  { rewrite Hattrs, attrs_bytes_app, attrs_bytes_cons, attr_serialize_non_resident.
    change (attrs_bytes []) with (@nil Z). by rewrite app_nil_r. }
  assert (zlen (attrs_bytes (rec_attributes r)) = zlen (attrs_bytes l) + 88) as Hz.
  { rewrite Eattrs. unfold zlen, data_run_bytes. len. }
  destruct (record_reread r n Hh) as (Es & _ & ->); [lia|]. split; [done|].
  pose proof (zlen_head _ (mh_signature _ Hh)) as Hhead.
  set (k := (964 - length (attrs_bytes (rec_attributes r)))%nat).
  destruct (run_as_attribute run k) as (tl & x & Etl & Ex & Hx); [lia|unfold k, zlen in *; lia|].
  set (head := header_bytes (rec_header r) ++ zeros 14) in *.
  assert (record_bytes r = head ++ attrs_bytes l ++ attr_header_bytes h ++ mid ++ le_bytes 4 (cluster_count run) ++ tl) as Eb.
  { unfold record_bytes. fold k head. rewrite Eattrs, <-Etl. by rewrite <-!app_assoc. }
  pose proof (attrs_bytes_count l Hl) as Hcnt. pose proof (zlen_nonneg (attrs_bytes l)).
  replace record_fuel with (length l + S (record_fuel - length l - 1))%nat
    by (unfold record_fuel, zlen in *; lia).
  rewrite (parse_prefix l _ _ _ 56 [] head _ Hl Eb Hhead) by lia.
  destruct (attr_deserialize_non_resident h (mid ++ le_bytes 4 (cluster_count run) ++ tl) Hok eq_refl) as (y & Ey & Hy).
  { unfold zlen. rewrite length_app. lia. }
  destruct (attr_header_tag h) as [htl Ehtl].
  rewrite (parse_one _ _ _ _ _ (head ++ attrs_bytes l) (le_bytes 4 (attr_type h)) (htl ++ mid ++ le_bytes 4 (cluster_count run) ++ tl) y).
  2: { rewrite Eb, Ehtl. by rewrite <-!app_assoc. }
  2: { rewrite zlen_app. lia. }
  2: { unfold zlen. len. }
  2: { pose proof (ah_type _ Hok). rewrite le_dec_bytes; lia. }
  2: { lia. }
  2: { rewrite app_assoc, <-Ehtl. exact Ey. }
  rewrite Hy. change (attr_length h) with 64.
  rewrite (parse_stuck _ _ _ _ _ (head ++ attrs_bytes l ++ attr_header_bytes h ++ mid) (le_bytes 4 (cluster_count run)) tl x).
  - done.
  - by rewrite Eb, <-!app_assoc.
  - rewrite !zlen_app, Hhead. unfold zlen. len.
  - unfold zlen. len.
  - rewrite le_dec_bytes; lia.
  - lia.
  - done.
  - done.
Qed.

(** ** Properties *)

Definition demo_attr (content : list Z) : Attribute :=
  mkAttr (mkAttrHdr 0x80 (24 + zlen content) false 0 24 0 0) [] (Resident content).
Definition demo_header (usage : Z) : MftRecordHeader :=
  hdr_set_usage 1 usage (set_flags (mkRecordFlags true false false) (mft_header_new 18)).
Definition demo_record (content : list Z) : MftRecord :=
  mkRecord (demo_header (84 + zlen content)) [demo_attr content] 18.
Definition demo_mft : MftManager := mkMft 0 1 4096.
Definition mft_disk : RamDisk := mkRam {[0 := 64]} ∅.

Lemma demo_header_ok usage : 0 ≤ usage ≤ 1024 → mft_header_ok (demo_header usage).
Proof. intros Hu. split; try done; cbn; unfold in_u; lia. Qed.

Lemma demo_hdr_ok content : zlen content < 1000 → attr_hdr_ok (attr_header (demo_attr content)).
Proof. intros Hc. pose proof (zlen_nonneg content). split; cbn [demo_attr attr_header attr_type attr_length name_length name_offset attr_flags attribute_id]; unfold in_u; lia. Qed.

(** C14: MFT records survive the disk. Writing a stored-form record (resident attributes of aligned
    length, within 1024 bytes) succeeds; reading it back gives the same record; the bytes of every
    other record are unchanged, and so is every sector outside the record's cluster. *)
Theorem mft_write_read {D} `{SectorDevLaws D} mft r (d : D) :
  record_on_disk d mft (record_number r) → record_ok r →
  ∃ d1 d2, write_record mft r d = (Ok tt, d1) ∧
    read_record mft (record_number r) d1 = (Ok r, d2) ∧
    (∀ m, 0 ≤ m → m ≠ record_number r → stored d2 mft m = stored d mft m) ∧
    only_sectors (mft_drive mft) (record_cluster mft (record_number r) * 8) 8 d d2.
Proof.
  intros Hon Hok. destruct (record_roundtrip_ok r (record_number r) Hok) as (Es & Hl & Ed).
  destruct (write_record_ok d mft r _ Hon Es Hl) as (d1 & Ew & Hst & Hother & Ho).
  assert (record_on_disk d1 mft (record_number r)) as Hon1.
  { destruct Hon as (? & ? & ? & ?). split_and!; try done. by eapply on_drive_only. }
  destruct (read_record_ok d1 mft _ Hon1) as (d2 & Er & Hs).
  exists d1, d2. rewrite Hst, Ed in Er. split_and!; [done|by destruct r| |].
  - intros m Hm Hne. rewrite <-Hother by done. unfold stored. by rewrite (sectors_at_same d1 d2 _ _ _ Hs).
  - etransitivity; [exact Ho|by apply same_disk_only].
Qed.

Lemma mft_write_read_witness :
  ∃ d1 d2, write_record demo_mft (demo_record (zeros 16)) mft_disk = (Ok tt, d1) ∧
    read_record demo_mft 18 d1 = (Ok (demo_record (zeros 16)), d2).
Proof.
  destruct (mft_write_read demo_mft (demo_record (zeros 16)) mft_disk) as (d1 & d2 & E1 & E2 & _).
  - do 5 (split; [by vm_compute|]). exists 64. by vm_compute.
  - split; [apply demo_header_ok; vm_compute; by split| |by vm_compute].
    constructor; [|constructor]. split; [apply demo_hdr_ok; by vm_compute|done|done|].
    exists (zeros 16). by vm_compute.
  - exists d1, d2. split; [exact E1|exact E2].
Defined.

(** Reading a record ends, or provably never does. For any bytes, [record_deserialize] with its
    fuel returns a record, an error or a panic, and the answer is the same for every larger fuel; it
    is [Hang] only if the attribute loop fails to end for every fuel. *)
Theorem record_deserialize_fuel data n :
  bytes_ok data → mft_header_is_valid (header_parse data) = true →
  (∀ fuel, (record_fuel ≤ fuel)%nat →
     parse_attributes fuel data (bytes_in_use (header_parse data)) (first_attribute_offset (header_parse data)) [] =
     parse_attributes record_fuel data (bytes_in_use (header_parse data)) (first_attribute_offset (header_parse data)) []) ∧
  (record_deserialize data n = Hang →
     ∀ fuel, parse_attributes fuel data (bytes_in_use (header_parse data)) (first_attribute_offset (header_parse data)) [] = Hang).
Proof.
  intros Hd Hv.
  assert (0 ≤ first_attribute_offset (header_parse data)) as H0.
  { apply le_dec_bound. unfold field. by apply Forall_take, Forall_drop. }
  assert (bytes_in_use (header_parse data) ≤ 1024) as Hlim.
  { unfold mft_header_is_valid in Hv. rewrite !andb_true_iff, !bool_decide_eq_true in Hv.
    destruct Hv as [[_ Hle] E]. rewrite E in Hle. done. }
  split.
  - intros fuel Hf. apply parse_attributes_fuel; try done; unfold record_fuel in *; lia.
  - intros Hh. apply parse_hang_forever; try done. unfold record_deserialize in Hh.
    case_bool_decide; [done|]. cbv zeta in Hh. rewrite Hv in Hh. by destruct (parse_attributes record_fuel _ _ _ _).
Qed.

Lemma record_deserialize_fuel_witness :
  parse_attributes 5000 (record_bytes (demo_record (zeros 16)))
    (bytes_in_use (header_parse (record_bytes (demo_record (zeros 16)))))
    (first_attribute_offset (header_parse (record_bytes (demo_record (zeros 16))))) [] = Ok [demo_attr (zeros 16)].
Proof.
  destruct (record_deserialize_fuel (record_bytes (demo_record (zeros 16))) 18) as [Hbig _].
  - apply bytes_ok_forallb. by vm_compute.
  - by vm_compute.
  - rewrite (Hbig 5000%nat) by (apply Nat.leb_le; by vm_compute). by vm_compute.
Defined.

(** Serialization is exact about space. A record whose attributes take at most 964 bytes is laid
    out in 1024 bytes: header, attributes in order, end marker, zeros. A record whose attributes take
    more makes [serialize] panic. *)
Theorem record_serialize_exact r :
  signature (rec_header r) = FILE_SIGNATURE → first_attribute_offset (rec_header r) = 56 →
  if bool_decide (zlen (attrs_bytes (rec_attributes r)) ≤ 964)
  then record_serialize r = Ok (record_bytes r) ∧ length (record_bytes r) = 1024%nat
  else record_serialize r = Panic.
Proof.
  intros Hs Hf. case_bool_decide; [by apply record_serialize_ok|]. apply record_serialize_overflow; auto; lia.
Qed.

Lemma record_serialize_exact_witness :
  record_serialize (demo_record (zeros 900)) = Ok (record_bytes (demo_record (zeros 900))) ∧
  record_serialize (demo_record (zeros 941)) = Panic.
Proof.
  split.
  - pose proof (record_serialize_exact (demo_record (zeros 900)) eq_refl eq_refl) as E.
    rewrite bool_decide_eq_true_2 in E by (vm_compute; done). apply E.
  - pose proof (record_serialize_exact (demo_record (zeros 941)) eq_refl eq_refl) as E.
    rewrite bool_decide_eq_false_2 in E by (vm_compute; intros []; done). exact E.
Defined.

(** Content that is not padded by its own length is lost. When the last attribute is resident and
    its content needs four bytes of padding, reading the record adds an attribute that was never
    written (the padding and the end marker read as a header); writing back what was read, as every
    access-time update does, leaves a record whose reading never ends. *)
Theorem unaligned_record_decays r l a c n :
  mft_header_ok (rec_header r) → Forall attr_ok l → attr_odd a c → rec_attributes r = l ++ [a] →
  bytes_in_use (rec_header r) = 84 + zlen (attrs_bytes l) + zlen c → zlen (attrs_bytes l) + zlen c ≤ 860 →
  ∃ data data', record_serialize r = Ok data ∧
    record_deserialize data n = Ok (mkRecord (rec_header r) (l ++ [a; phantom]) n) ∧
    record_serialize (mkRecord (rec_header r) (l ++ [a; phantom]) n) = Ok data' ∧
    record_deserialize data' n = Hang.
Proof.
  intros Hh Hl Ha Hattrs Huse Hfit.
  destruct (odd_read_once r l a c Hh Hl Ha Hattrs Huse Hfit n) as [E1 E2].
  destruct (odd_read_twice r l a c Hh Hl Ha Huse Hfit n) as [E3 E4].
  eexists _, _. split; [exact E1|]. split; [exact E2|]. split; [exact E3|exact E4].
Qed.

Lemma unaligned_record_decays_witness :
  ∃ data data', record_serialize (demo_record [1; 2; 3; 4]) = Ok data ∧
    record_deserialize data 18 = Ok (mkRecord (demo_header 88) [demo_attr [1; 2; 3; 4]; phantom] 18) ∧
    record_serialize (mkRecord (demo_header 88) [demo_attr [1; 2; 3; 4]; phantom] 18) = Ok data' ∧
    record_deserialize data' 18 = Hang.
Proof.
  apply (unaligned_record_decays (demo_record [1; 2; 3; 4]) [] (demo_attr [1; 2; 3; 4]) [1; 2; 3; 4] 18).
  - apply demo_header_ok. vm_compute. by split.
  - constructor.
  - split; [apply demo_hdr_ok; by vm_compute|done..].
  - done.
  - by vm_compute.
  - by vm_compute.
Defined.

(** A record with a non-resident attribute cannot be read. The attribute claims 64 bytes and takes
    88, so the reader takes its first run for an attribute of length zero and never ends. Every file
    of more than 700 bytes is stored this way. *)
Theorem non_resident_record_hangs r l a t run size n :
  mft_header_ok (rec_header r) → Forall attr_ok l → new_non_resident t [run] size = Ok a →
  0 ≤ cluster_count run < 2 ^ 32 - 1 → rec_attributes r = l ++ [a] →
  bytes_in_use (rec_header r) = 124 + zlen (attrs_bytes l) → zlen (attrs_bytes l) ≤ 800 →
  ∃ data, record_serialize r = Ok data ∧ record_deserialize data n = Hang.
Proof.
  intros Hh Hl Ea Hc Hattrs Huse Hfit.
  destruct (non_resident_read_hangs r l a t run size n Hh Hl Ea Hc Hattrs Huse Hfit). eauto.
Qed.

Lemma non_resident_record_hangs_witness :
  ∃ a data, new_non_resident AtData [mkRun 0 1] 5000 = Ok a ∧
    record_serialize (mkRecord (demo_header 124) [a] 18) = Ok data ∧ record_deserialize data 18 = Hang.
Proof.
  destruct (non_resident_record_hangs
              (mkRecord (demo_header 124) [mkAttr (mkAttrHdr 0x80 64 true 0 64 0 0) [] (NonResident [mkRun 0 1] 4096 5000 5000)] 18)
              [] (mkAttr (mkAttrHdr 0x80 64 true 0 64 0 0) [] (NonResident [mkRun 0 1] 4096 5000 5000))
              AtData (mkRun 0 1) 5000 18) as (data & E1 & E2); [apply demo_header_ok; lia|constructor|done..|].
  eexists _, data. split; [reflexivity|]. split; [exact E1|exact E2].
Defined.
