(* ===== verification/Journal.v ===== *)
(** * The transaction journal ([crates/galleon2/src/journal.rs])

    Log records with their byte format and checksum, the transactions of the
    manager, and the circular journal on the disk. The state of an operation is
    the manager and the world (the device and the timestamp counter). *)

From S2P Require Import Prelude Device Runs.

(** [OperationType], with its discriminants *)
Inductive OperationType : Type :=
  | CreateFile | DeleteFile | WriteData | UpdateMetadata
  | CreateDirectory | DeleteDirectory | MoveFile | SetAttribute.

#[export] Instance OperationType_eq_dec : EqDecision OperationType.
Proof. solve_decision. Defined.

Definition op_code (op : OperationType) : Z :=
  match op with
  | CreateFile => 1 | DeleteFile => 2 | WriteData => 3 | UpdateMetadata => 4
  | CreateDirectory => 5 | DeleteDirectory => 6 | MoveFile => 7 | SetAttribute => 8
  end.

Definition op_of_code (c : Z) : option OperationType :=
  match c with
  | 1 => Some CreateFile | 2 => Some DeleteFile | 3 => Some WriteData | 4 => Some UpdateMetadata
  | 5 => Some CreateDirectory | 6 => Some DeleteDirectory | 7 => Some MoveFile
  | 8 => Some SetAttribute
  | _ => None
  end.

(** [LogRecord] *)
Record LogRecord := mkLog {
  log_sequence : Z;
  operation_type : OperationType;
  target_file_record : Z;
  undo_data : list Z;
  redo_data : list Z;
  log_checksum : Z;
  timestamp : Z;
}.

Definition xor_bytes (acc : Z) (bytes : list Z) : Z := foldl Z.lxor acc bytes.

Definition calculate_checksum (r : LogRecord) : Z :=
  let c := Z.lxor 0 (as_u32 (log_sequence r)) in
  let c := Z.lxor c (as_u32 (Z.shiftr (log_sequence r) 32)) in
  let c := Z.lxor c (op_code (operation_type r)) in
  let c := Z.lxor c (as_u32 (target_file_record r)) in
  let c := Z.lxor c (as_u32 (Z.shiftr (target_file_record r) 32)) in
  xor_bytes (xor_bytes c (undo_data r)) (redo_data r).

Definition verify_checksum (r : LogRecord) : bool := bool_decide (log_checksum r = calculate_checksum r).

(** [b"JRNL"] *)
Definition JRNL : list Z := [74; 82; 78; 76].

Definition log_serialize (r : LogRecord) : list Z :=
  pad8 (JRNL ++ le_bytes 8 (log_sequence r) ++ le_bytes 4 (op_code (operation_type r)) ++
        le_bytes 8 (target_file_record r) ++ le_bytes 4 (as_u32 (zlen (undo_data r))) ++
        le_bytes 4 (as_u32 (zlen (redo_data r))) ++ le_bytes 4 (log_checksum r) ++
        le_bytes 8 (timestamp r) ++ undo_data r ++ redo_data r).

Definition log_deserialize (data : list Z) : fsres LogRecord :=
  if bool_decide (zlen data < 48) then Err InvalidParameter else
  if negb (bool_decide (field 0 4 data = JRNL)) then Err InvalidParameter else
  match op_of_code (le_dec (field 12 4 data)) with
  | None => Err InvalidParameter
  | Some op =>
      let undo_len := le_dec (field 24 4 data) in
      let redo_len := le_dec (field 28 4 data) in
      if bool_decide (zlen data < 44 + undo_len + redo_len) then Err InvalidParameter else
      let? undo := slice 44 (44 + undo_len) data in
      let? redo := slice (44 + undo_len) (44 + undo_len + redo_len) data in
      let r := mkLog (le_dec (field 4 8 data)) op (le_dec (field 16 8 data)) undo redo
                 (le_dec (field 32 4 data)) (le_dec (field 36 8 data)) in
      if verify_checksum r then Ok r else Err InvalidParameter
  end.

(** [TransactionState], [Transaction] *)
Inductive TransactionState : Type := Active | Committed | Aborted.

#[export] Instance TransactionState_eq_dec : EqDecision TransactionState.
Proof. solve_decision. Defined.

Record Transaction := mkTx {
  tx_id : Z;
  tx_state : TransactionState;
  tx_records : list LogRecord;
  tx_start_sequence : Z;
}.

Definition transaction_new (id start : Z) : Transaction := mkTx id Active [] start.

Definition tx_add_record (r : LogRecord) (t : Transaction) : Transaction :=
  match tx_state t with
  | Active => mkTx (tx_id t) Active (tx_records t ++ [r]) (tx_start_sequence t)
  | _ => t
  end.

Definition tx_set_state (s : TransactionState) (t : Transaction) : Transaction :=
  mkTx (tx_id t) s (tx_records t) (tx_start_sequence t).

(** [commit] and [abort] of a transaction *)
Definition tx_commit : Transaction → Transaction := tx_set_state Committed.
Definition tx_abort : Transaction → Transaction := tx_set_state Aborted.

(** [iter_mut().find(p)], then a change of what was found. *)
Fixpoint update_first {A} (p : A → bool) (f : A → A) (l : list A) : option (list A) :=
  match l with
  | [] => None
  | x :: l => if p x then Some (f x :: l) else cons x <$> update_first p f l
  end.

(** [JournalManager] *)
Record JournalManager := mkJournal {
  jm_drive : Z;
  jm_start_sector : Z;
  jm_size_sectors : Z;
  current_sequence : Z;
  active_transactions : list Transaction;
  next_transaction_id : Z;
}.

Definition journal_manager_new (drive start size : Z) : JournalManager :=
  mkJournal drive start size 1 [] 1.

Definition jm_set_txs (l : list Transaction) (j : JournalManager) : JournalManager :=
  mkJournal (jm_drive j) (jm_start_sector j) (jm_size_sectors j) (current_sequence j) l
    (next_transaction_id j).

Definition jm_set_sequence (n : Z) (j : JournalManager) : JournalManager :=
  mkJournal (jm_drive j) (jm_start_sector j) (jm_size_sectors j) n (active_transactions j)
    (next_transaction_id j).

Definition is_tx (id : Z) (t : Transaction) : bool := bool_decide (tx_id t = id).
Definition is_active_tx (id : Z) (t : Transaction) : bool :=
  bool_decide (tx_id t = id) && bool_decide (tx_state t = Active).

(** Where a record of [len] bytes with sequence number [seq] goes:
    [(journal_offset, sectors_needed)]. *)
Definition journal_slot (size_sectors len seq : Z) : fsres (Z * Z) :=
  let sectors_needed := (len + 511 + 511) / 512 in
  let record_size := Z.max len 64 in
  let? bytes := mul64 size_sectors 512 in
  let max_records := bytes / record_size in
  if bool_decide (0 < max_records) then
    let? pos := mul64 (seq `mod` max_records) record_size in
    Ok (pos / 512, sectors_needed)
  else Ok (0, sectors_needed).

Section journal.
Context {D : Type} `{SectorDev D}.

Abbreviation JM := (M (JournalManager * World D) FilesystemError).

Definition get_timestamp : M (World D) FilesystemError Z := λ w,
  match add64 (w_counter w) 1 with
  | Ok c => (Ok c, mkWorld (w_dev w) (w_next_record w) (w_next_vcn w) c)
  | r => (r, w)
  end.

Definition log_record_new (seq : Z) (op : OperationType) (target : Z) (undo redo : list Z) :
    M (World D) FilesystemError LogRecord :=
  let! ts := get_timestamp in
  let r := mkLog seq op target undo redo 0 ts in
  mok (mkLog seq op target undo redo (calculate_checksum r) ts).

Definition begin_transaction : JM Z :=
  let! j := get_self in
  let id := next_transaction_id j in
  let! next := mlift (add64 id 1) in
  let! _ := set_self (mkJournal (jm_drive j) (jm_start_sector j) (jm_size_sectors j)
                        (current_sequence j)
                        (active_transactions j ++ [transaction_new id (current_sequence j)]) next) in
  mok id.

Definition write_log_record (r : LogRecord) : JM unit :=
  let! j := get_self in
  let serialized := log_serialize r in
  if bool_decide (serialized = []) then merr InvalidParameter else
  let! (journal_offset, sectors_needed) :=
    mlift (journal_slot (jm_size_sectors j) (zlen serialized) (log_sequence r)) in
  let! write_sector := mlift (add64 (jm_start_sector j) journal_offset) in
  let! sector_data := mlift (put_at 0 serialized (zeros (Z.to_nat (sectors_needed * 512)))) in
  on_world (on_dev (ide_write_sectors (jm_drive j) (as_u8 sectors_needed) (as_u32 write_sector) sector_data)).

(** [self.current_sequence += 1] *)
Definition next_sequence : JM unit :=
  let! j := get_self in
  let! n := mlift (add64 (current_sequence j) 1) in
  set_self (jm_set_sequence n j).

Definition log_operation (id : Z) (op : OperationType) (target : Z) (undo redo : list Z) : JM unit :=
  let! j := get_self in
  let! record := on_world (log_record_new (current_sequence j) op target undo redo) in
  match update_first (is_active_tx id) (tx_add_record record) (active_transactions j) with
  | None => merr InvalidParameter
  | Some txs =>
      let! _ := set_self (jm_set_txs txs j) in
      let! _ := write_log_record record in
      next_sequence
  end.

(** [b"COMMIT"], [b"ABORT"] *)
Definition COMMIT : list Z := [67; 79; 77; 77; 73; 84].
Definition ABORT : list Z := [65; 66; 79; 82; 84].

(** Ending a transaction: the change of its state and the marker record. *)
Definition end_transaction (f : Transaction → Transaction) (marker : list Z) (id : Z) : JM unit :=
  let! j := get_self in
  match update_first (is_tx id) f (active_transactions j) with
  | None => merr InvalidParameter
  | Some txs =>
      let! _ := set_self (jm_set_txs txs j) in
      let! record := on_world (log_record_new (current_sequence j) UpdateMetadata id [] marker) in
      let! _ := write_log_record record in
      next_sequence
  end.

Definition commit_transaction (id : Z) : JM unit := end_transaction tx_commit COMMIT id.

(** A stub in the source: the undo data are not applied. *)
Definition apply_undo (r : LogRecord) : JM unit := mok tt.

Definition abort_transaction (id : Z) : JM unit :=
  let! j := get_self in
  match List.find (is_tx id) (active_transactions j) with
  | None => merr InvalidParameter
  | Some t =>
      let! _ := mfor (rev (tx_records t)) apply_undo in
      end_transaction tx_abort ABORT id
  end.

Definition read_journal_sector (sector_offset : Z) : JM (list Z) :=
  let! j := get_self in
  let! lba := mlift (add64 (jm_start_sector j) sector_offset) in
  on_world (on_dev (ide_read_sectors (jm_drive j) 1 (as_u32 lba) (zeros 512))).

(** Simplified in the source: every transaction counts as committed. *)
Definition is_transaction_committed (id : Z) : bool := true.

(** The inner loop of [recover]; a record takes at least 48 bytes, so twelve
    rounds cover a sector. *)
Fixpoint recover_sector (fuel : nat) (sector_data : list Z) (offset : Z) : JM unit :=
  match fuel with
  | O => λ s, (Hang, s)
  | S fuel =>
      if bool_decide (offset + 48 ≤ zlen sector_data) then
        let! sig := mlift (slice offset (offset + 4) sector_data) in
        if bool_decide (sig = JRNL) then
          let! rest := mlift (slice offset (zlen sector_data) sector_data) in
          match log_deserialize rest with
          | Ok record =>
              let! _ := if is_transaction_committed (target_file_record record) then mok tt
                        else apply_undo record in
              recover_sector fuel sector_data (offset + zlen (log_serialize record))
          | Err _ => mok tt
          | Panic => λ s, (Panic, s)
          | Hang => λ s, (Hang, s)
          end
        else mok tt
      else mok tt
  end.

Definition recover : JM unit :=
  let! j := get_self in
  mfor (seqZ 0 (jm_size_sectors j)) (λ current_sector,
    let! sector_data := read_journal_sector current_sector in
    recover_sector 12 sector_data 0).

Definition cleanup_completed_transactions (j : JournalManager) : JournalManager :=
  jm_set_txs (filter (λ t, tx_state t = Active) (active_transactions j)) j.
End journal.

(** ** The byte format *)
Lemma op_code_roundtrip op : op_of_code (op_code op) = Some op.
Proof. by destruct op. Qed.

Lemma op_code_bound op : 1 ≤ op_code op ≤ 8.
Proof. destruct op; cbn; lia. Qed.

Record log_ok (r : LogRecord) : Prop := {
  lo_sequence : in_u 64 (log_sequence r);
  lo_target : in_u 64 (target_file_record r);
  lo_undo : zlen (undo_data r) < 2 ^ 32;
  lo_redo : zlen (redo_data r) < 2 ^ 32;
  lo_checksum : in_u 32 (log_checksum r);
  lo_verified : log_checksum r = calculate_checksum r;
  lo_timestamp : in_u 64 (timestamp r);
}.

Definition log_header (r : LogRecord) : list Z :=
  JRNL ++ le_bytes 8 (log_sequence r) ++ le_bytes 4 (op_code (operation_type r)) ++
  le_bytes 8 (target_file_record r) ++ le_bytes 4 (as_u32 (zlen (undo_data r))) ++
  le_bytes 4 (as_u32 (zlen (redo_data r))) ++ le_bytes 4 (log_checksum r) ++ le_bytes 8 (timestamp r).

Lemma length_JRNL : length JRNL = 4%nat.
Proof. done. Qed.
#[export] Hint Rewrite length_JRNL : len.

Lemma length_log_header r : length (log_header r) = 44%nat.
Proof. unfold log_header. len. Qed.
#[export] Hint Rewrite length_log_header : len.

Lemma log_serialize_header r :
  log_serialize r = pad8 (log_header r ++ undo_data r ++ redo_data r).
Proof. unfold log_serialize, log_header. by rewrite <-!app_assoc. Qed.

Lemma log_serialize_length r :
  48 ≤ zlen (log_serialize r) ∧ zlen (undo_data r) + zlen (redo_data r) + 44 ≤ zlen (log_serialize r) ≤
  zlen (undo_data r) + zlen (redo_data r) + 51.
Proof.
  rewrite log_serialize_header.
  destruct (pad8_bounds (log_header r ++ undo_data r ++ redo_data r)) as [Hb Hm].
  assert (zlen (log_header r ++ undo_data r ++ redo_data r) = 44 + zlen (undo_data r) + zlen (redo_data r)) as E
    by (unfold zlen; len).
  rewrite E in Hb. pose proof (zlen_nonneg (undo_data r)). pose proof (zlen_nonneg (redo_data r)).
  split; [|lia]. pose proof (Z.div_mod (zlen (pad8 (log_header r ++ undo_data r ++ redo_data r))) 8). lia.
Qed.

Lemma log_deserialize_bytes r rest :
  log_ok r → log_deserialize (log_serialize r ++ rest) = Ok r.
Proof.
  intros [Hs Ht Hu Hr Hc Hv Hts]. pose proof (zlen_nonneg (undo_data r)). pose proof (zlen_nonneg (redo_data r)).
  pose proof (log_serialize_length r) as [H48 [Hlen _]]. pose proof (zlen_nonneg rest).
  unfold log_deserialize. rewrite bool_decide_eq_false_2 by (rewrite zlen_app; lia).
  assert (zlen (log_serialize r ++ rest) = zlen (log_serialize r) + zlen rest) as Hz by apply zlen_app.
  revert Hz. generalize (zlen (log_serialize r ++ rest)) as tot. intros tot Hz.
  rewrite log_serialize_header in *. unfold pad8 in *. set (pad := zeros _) in *.
  set (data := ((log_header r ++ undo_data r ++ redo_data r) ++ pad) ++ rest).
  assert (data = log_header r ++ undo_data r ++ redo_data r ++ pad ++ rest) as Ed by (unfold data; by rewrite <-!app_assoc).
  assert (field 0 4 data = JRNL ∧ field 4 8 data = le_bytes 8 (log_sequence r) ∧
          field 12 4 data = le_bytes 4 (op_code (operation_type r)) ∧ field 16 8 data = le_bytes 8 (target_file_record r) ∧
          field 24 4 data = le_bytes 4 (as_u32 (zlen (undo_data r))) ∧ field 28 4 data = le_bytes 4 (as_u32 (zlen (redo_data r))) ∧
          field 32 4 data = le_bytes 4 (log_checksum r) ∧ field 36 8 data = le_bytes 8 (timestamp r))
    as (-> & -> & -> & -> & -> & -> & -> & ->).
  { rewrite Ed. unfold log_header. rewrite <-!app_assoc. split_and!; fields; done. }
  rewrite (bool_decide_eq_true_2 (JRNL = JRNL)) by done. cbn [negb].
  pose proof (op_code_bound (operation_type r)). unfold in_u, as_u32 in *. rewrite !Z.mod_small by lia.
  rewrite !le_dec_bytes by lia. rewrite op_code_roundtrip. cbv zeta.
  rewrite bool_decide_eq_false_2 by lia.
  rewrite Ed. rewrite slice_at by (unfold zlen; len). cbn [rbind].
  rewrite app_assoc, slice_at by (unfold zlen; len). cbn [rbind].
  unfold verify_checksum. rewrite bool_decide_eq_true_2; [by destruct r|]. by destruct r.
Qed.

(** ** Where records are written *)
Lemma journal_slot_ok size len seq :
  0 ≤ size < 2 ^ 48 → 0 < len < 2 ^ 48 → 0 ≤ seq →
  ∃ off, journal_slot size len seq = Ok (off, (len + 1022) / 512) ∧ 0 ≤ off ∧
    (Z.max len 64 ≤ size * 512 → off * 512 + Z.max len 64 ≤ size * 512).
Proof.
  intros Hs Hl Hq. unfold journal_slot, mul64. rewrite chk_ok by lia. cbn [rbind].
  replace (len + 511 + 511) with (len + 1022) by lia. set (rs := Z.max len 64).
  assert (0 < rs) as Hrs by lia. case_bool_decide as Hmax.
  - pose proof (Z.mod_pos_bound seq (size * 512 / rs) Hmax) as Hm.
    pose proof (Z.mul_div_le (size * 512) rs Hrs) as Hd.
    assert (seq `mod` (size * 512 / rs) * rs + rs ≤ size * 512) as Hle by nia.
    rewrite chk_ok by nia. cbn [rbind]. eexists. split; [done|].
    pose proof (Z.mul_div_le (seq `mod` (size * 512 / rs) * rs) 512 ltac:(lia)).
    split; [apply Z.div_pos; nia|]. lia.
  - exists 0. split; [done|]. split; [done|]. intros Hle. lia.
Qed.

(** The sectors written are those of the record and at most one more. *)
Lemma sectors_needed_bounds len :
  0 < len → (len + 511) / 512 ≤ (len + 1022) / 512 ≤ (len + 511) / 512 + 1 ∧ 0 < (len + 511) / 512 ∧
  len ≤ (len + 511) / 512 * 512 < len + 512.
Proof. intros Hl. dlia. Qed.

Section journal_spec.
Context {D : Type} `{SectorDevLaws D}.
Implicit Types (j : JournalManager) (w : World D).

(** The journal and the sector after it lie on the drive. *)
Definition journal_on_disk j w : Prop :=
  0 < jm_size_sectors j < 2 ^ 28 ∧ on_drive (w_dev w) (jm_drive j) (jm_start_sector j) (jm_size_sectors j + 1).

(** A record small enough for one write and for the journal. *)
Definition fits_journal j (r : LogRecord) : Prop :=
  zlen (undo_data r) + zlen (redo_data r) ≤ 100000 ∧ Z.max (zlen (log_serialize r)) 64 ≤ jm_size_sectors j * 512 ∧
  0 ≤ log_sequence r.

Definition log_sectors (r : LogRecord) : Z := (zlen (log_serialize r) + 1022) / 512.

Lemma journal_on_disk_dev j w d' :
  only_sectors (jm_drive j) (jm_start_sector j) (jm_size_sectors j + 1) (w_dev w) d' →
  journal_on_disk j w → journal_on_disk j (w_set_dev d' w).
Proof. intros Ho [Hs Hd]. split; [done|]. by eapply on_drive_only. Qed.

Lemma write_log_record_ok j w r :
  journal_on_disk j w → fits_journal j r →
  ∃ off d', journal_slot (jm_size_sectors j) (zlen (log_serialize r)) (log_sequence r) = Ok (off, log_sectors r) ∧
    write_log_record r (j, w) = (Ok tt, (j, w_set_dev d' w)) ∧
    0 ≤ off ∧ off * 512 + zlen (log_serialize r) ≤ jm_size_sectors j * 512 ∧ off + log_sectors r ≤ jm_size_sectors j + 1 ∧
    sectors_at d' (jm_drive j) (jm_start_sector j + off) (log_sectors r) =
      log_serialize r ++ zeros (Z.to_nat (log_sectors r * 512 - zlen (log_serialize r))) ∧
    only_sectors (jm_drive j) (jm_start_sector j + off) (log_sectors r) (w_dev w) d'.
Proof.
  intros [Hsz (Hd & Hst & cap & Hcap & Hin)] (Hlen & Hfit & Hseq). pose proof (log_serialize_length r) as [H48 Hb].
  pose proof (capacity_bound _ _ _ Hcap).
  destruct (journal_slot_ok (jm_size_sectors j) (zlen (log_serialize r)) (log_sequence r)) as (off & Es & Hoff & Hle); [lia..|].
  destruct (sectors_needed_bounds (zlen (log_serialize r))) as (Hq & Hq0 & Hq1); [lia|].
  unfold log_sectors. set (n := (zlen (log_serialize r) + 1022) / 512) in *.
  specialize (Hle Hfit).
  assert (off + n ≤ jm_size_sectors j + 1) as Hend by lia.
  assert (0 < n < 256) as Hn by (unfold n in *; dlia).
  assert (put_at 0 (log_serialize r) (zeros (Z.to_nat (n * 512))) =
          @Ok FilesystemError _ (log_serialize r ++ zeros (Z.to_nat (n * 512 - zlen (log_serialize r))))) as Ep.
  { rewrite put_at_ok; [|lia|unfold zlen in *; len]. f_equal.
    change (zeros (Z.to_nat (n * 512))) with ([] ++ zeros (Z.to_nat (n * 512))).
    rewrite put_tail; [|done|unfold zlen in *; lia]. cbn [app]. do 2 f_equal. unfold zlen. lia. }
  destruct (write_exact (w_dev w) (jm_drive j) n (jm_start_sector j + off)
              (log_serialize r ++ zeros (Z.to_nat (n * 512 - zlen (log_serialize r))))) as (d' & Ew & Hw & Ho).
  { split_and!; try lia. exists cap. split; [done|lia]. }
  { done. }
  { rewrite zlen_app. unfold zlen at 2. rewrite length_zeros. lia. }
  exists off, d'. split_and!; try done; try lia.
  unfold write_log_record, mbindM at 1. cbn [get_self].
  rewrite bool_decide_eq_false_2 by (intros E; rewrite E in H48; unfold zlen in H48; cbn in H48; lia).
  unfold mbindM, mlift. rewrite Es. fold n. unfold add64. rewrite chk_ok by lia. rewrite Ep.
  unfold on_world, on_dev, as_u8, as_u32. rewrite !Z.mod_small by lia. by rewrite Ew.
Qed.

(** ** The operations *)

(** The sectors an operation may change: the journal's and the one after it. *)
Definition journal_only j w w' : Prop :=
  only_sectors (jm_drive j) (jm_start_sector j) (jm_size_sectors j + 1) (w_dev w) (w_dev w') ∧
  w_next_record w' = w_next_record w ∧ w_next_vcn w' = w_next_vcn w.

Definition w_tick w : World D := mkWorld (w_dev w) (w_next_record w) (w_next_vcn w) (w_counter w + 1).

Lemma log_record_new_ok w seq op target undo redo :
  0 ≤ w_counter w < 2 ^ 63 →
  ∃ r, log_record_new seq op target undo redo w = (Ok r, w_tick w) ∧ log_sequence r = seq ∧
    operation_type r = op ∧ target_file_record r = target ∧ undo_data r = undo ∧ redo_data r = redo ∧
    log_checksum r = calculate_checksum r ∧ timestamp r = w_counter w + 1.
Proof.
  intros Hc. unfold log_record_new, mbindM, get_timestamp, add64. rewrite chk_ok by lia.
  eexists. split; [reflexivity|]. done.
Qed.

(** The sectors of a drive hold bytes. *)
Definition dev_bytes (drive : Z) (d : D) : Prop := ∀ a, bytes_ok (sector d drive a).

Lemma log_serialize_bytes r : bytes_ok (undo_data r) → bytes_ok (redo_data r) → bytes_ok (log_serialize r).
Proof.
  intros Hu Hr. unfold log_serialize, pad8. repeat (apply Forall_app; split); try apply le_bytes_ok; try apply zeros_ok; try done.
  apply bytes_ok_forallb. by vm_compute.
Qed.

Lemma sectors_at_bytes (d : D) drive lba n a : bytes_ok (sectors_at d drive lba n) → lba ≤ a < lba + n → bytes_ok (sector d drive a).
Proof.
  intros Hb Ha. unfold sectors_at in Hb. rewrite Forall_forall in *. intros x Hx. apply Hb.
  apply list_elem_of_join. exists (sector d drive a). split; [done|]. apply list_elem_of_fmap_2, elem_of_seqZ. lia.
Qed.

(** Writing a record and taking the next sequence number. *)
Lemma append_record_ok j w r :
  journal_on_disk j w → fits_journal j r → 0 ≤ current_sequence j < 2 ^ 63 →
  ∃ d', (let! _ := write_log_record r in next_sequence) (j, w) =
          (Ok tt, (jm_set_sequence (current_sequence j + 1) j, w_set_dev d' w)) ∧
    only_sectors (jm_drive j) (jm_start_sector j) (jm_size_sectors j + 1) (w_dev w) d' ∧
    (bytes_ok (undo_data r) → bytes_ok (redo_data r) → dev_bytes (jm_drive j) (w_dev w) → dev_bytes (jm_drive j) d').
Proof.
  intros Hj Hf Hs. destruct (write_log_record_ok j w r Hj Hf) as (off & d' & _ & Ew & Hoff & _ & Hend & Hsec & Ho).
  exists d'. split; [|split].
  - unfold mbindM at 1. rewrite Ew. unfold next_sequence, mbindM, get_self, mlift, add64, set_self.
    by rewrite chk_ok by lia.
  - destruct Ho as [Ho Hc]. split; [|done]. intros dr a Ha. apply Ho. lia.
  - intros Hu Hr Hb a. destruct (decide (jm_start_sector j + off ≤ a < jm_start_sector j + off + log_sectors r)) as [Ha|Ha].
    + apply (sectors_at_bytes d' (jm_drive j) (jm_start_sector j + off) (log_sectors r)); [|done]. rewrite Hsec.
      apply Forall_app. split; [by apply log_serialize_bytes|apply zeros_ok].
    + rewrite (proj1 Ho) by lia. apply Hb.
Qed.

Lemma end_transaction_ok f marker j w id txs :
  journal_on_disk j w → 0 ≤ w_counter w < 2 ^ 63 → 0 ≤ current_sequence j < 2 ^ 63 → zlen marker ≤ 13 →
  update_first (is_tx id) f (active_transactions j) = Some txs →
  ∃ d', end_transaction f marker id (j, w) =
          (Ok tt, (jm_set_sequence (current_sequence j + 1) (jm_set_txs txs j), w_set_dev d' (w_tick w))) ∧
    only_sectors (jm_drive j) (jm_start_sector j) (jm_size_sectors j + 1) (w_dev w) d' ∧
    (bytes_ok marker → dev_bytes (jm_drive j) (w_dev w) → dev_bytes (jm_drive j) d').
Proof.
  intros Hj Hc Hs Hm Eu.
  destruct (log_record_new_ok w (current_sequence j) UpdateMetadata id [] marker Hc)
    as (r & En & Hseq & _ & _ & Hu & Hr & _).
  assert (fits_journal (jm_set_txs txs j) r) as Hf.
  { pose proof (log_serialize_length r) as [_ Hl]. rewrite Hu, Hr in Hl. change (zlen (@nil Z)) with 0 in Hl.
    destruct Hj as [Hsz _]. split_and!; [rewrite Hu, Hr; change (zlen (@nil Z)) with 0; lia|cbn [jm_size_sectors jm_set_txs]; lia|rewrite Hseq; lia]. }
  destruct (append_record_ok (jm_set_txs txs j) (w_tick w) r Hj Hf Hs) as (d' & Ea & Ho & Hby).
  exists d'. split; [|split; [done|intros Hmk; apply Hby; [by rewrite Hu|by rewrite Hr]]]. unfold end_transaction. unfold mbindM at 1. cbn [get_self]. rewrite Eu.
  unfold mbindM at 1. cbn [set_self]. unfold mbindM at 1. unfold on_world at 1. rewrite En. exact Ea.
Qed.

Lemma log_operation_ok j w id op target undo redo txs :
  journal_on_disk j w → 0 ≤ w_counter w < 2 ^ 63 → 0 ≤ current_sequence j < 2 ^ 63 →
  zlen undo + zlen redo ≤ 100000 → zlen undo + zlen redo + 51 ≤ jm_size_sectors j * 512 →
  (∀ r, update_first (is_active_tx id) (tx_add_record r) (active_transactions j) = Some (txs r)) →
  ∃ r d', log_operation id op target undo redo (j, w) =
          (Ok tt, (jm_set_sequence (current_sequence j + 1) (jm_set_txs (txs r) j), w_set_dev d' (w_tick w))) ∧
    redo_data r = redo ∧ undo_data r = undo ∧ log_sequence r = current_sequence j ∧
    only_sectors (jm_drive j) (jm_start_sector j) (jm_size_sectors j + 1) (w_dev w) d' ∧
    (bytes_ok undo → bytes_ok redo → dev_bytes (jm_drive j) (w_dev w) → dev_bytes (jm_drive j) d').
Proof.
  intros Hj Hc Hs Hlen Hfit Eu.
  destruct (log_record_new_ok w (current_sequence j) op target undo redo Hc)
    as (r & En & Hseq & _ & _ & Hu & Hr & _).
  assert (fits_journal (jm_set_txs (txs r) j) r) as Hf.
  { pose proof (log_serialize_length r) as [_ Hl]. rewrite Hu, Hr in Hl.
    destruct Hj as [Hsz _]. split_and!; [by rewrite Hu, Hr|cbn [jm_size_sectors jm_set_txs]; lia|rewrite Hseq; lia]. }
  destruct (append_record_ok (jm_set_txs (txs r) j) (w_tick w) r Hj Hf Hs) as (d' & Ea & Ho & Hby). rewrite Hu, Hr in Hby.
  exists r, d'. split_and!; try done. unfold log_operation. unfold mbindM at 1. cbn [get_self].
  unfold mbindM at 1. unfold on_world at 1. rewrite En. rewrite Eu. unfold mbindM at 1. cbn [set_self]. exact Ea.
Qed.

Lemma apply_undo_all l (s : JournalManager * World D) : mfor l apply_undo s = (Ok tt, s).
Proof. induction l as [|r l IH]; [done|]. cbn [mfor]. unfold mbindM, apply_undo at 1. exact IH. Qed.

Lemma find_update_first {A} p (f : A → A) l :
  List.find p l = None ↔ update_first p f l = None.
Proof.
  induction l as [|x l IH]; [done|]. cbn. destruct (p x); [done|]. rewrite IH. by destruct (update_first p f l).
Qed.

Lemma abort_transaction_eq j w id txs :
  update_first (is_tx id) tx_abort (active_transactions j) = Some txs →
  abort_transaction id (j, w) = end_transaction tx_abort ABORT id (j, w).
Proof.
  intros Eu. unfold abort_transaction. unfold mbindM at 1. cbn [get_self].
  destruct (List.find (is_tx id) (active_transactions j)) as [t|] eqn:Ef.
  - unfold mbindM at 1. by rewrite apply_undo_all.
  - apply (find_update_first _ tx_abort) in Ef. congruence.
Qed.

(** ** Recovery *)
Lemma log_deserialize_total data :
  bytes_ok data → (∃ r, log_deserialize data = Ok r) ∨ log_deserialize data = Err InvalidParameter.
Proof.
  intros Hd. unfold log_deserialize. case_bool_decide as H48; [by right|].
  destruct (negb _); [by right|]. destruct (op_of_code _) as [op|]; [|by right]. cbv zeta.
  assert (∀ o n, 0 ≤ le_dec (field o n data)) as Hpos.
  { intros o n. apply le_dec_bound. unfold field. by apply Forall_take, Forall_drop. }
  pose proof (Hpos 24%nat 4%nat). pose proof (Hpos 28%nat 4%nat).
  case_bool_decide as Hlen; [by right|]. rewrite !slice_ok by lia. cbn [rbind].
  destruct (verify_checksum _); [left; eauto|by right].
Qed.

Lemma recover_sector_ok data (s : JournalManager * World D) : bytes_ok data → ∀ fuel off,
  0 ≤ off → zlen data - off < 48 * Z.of_nat fuel → (0 < fuel)%nat →
  recover_sector fuel data off s = (Ok tt, s).
Proof.
  intros Hd fuel. induction fuel as [|fuel IH]; intros off Hoff Hfuel Hpos; [lia|].
  cbn [recover_sector]. case_bool_decide as Hlt; [|done].
  unfold mbindM at 1, mlift at 1. rewrite slice_ok by lia. case_bool_decide; [|done].
  unfold mbindM at 1, mlift at 1. rewrite slice_ok by lia.
  set (rest := field _ _ data).
  assert (bytes_ok rest) as Hr by (unfold rest, field; by apply Forall_take, Forall_drop).
  destruct (log_deserialize_total rest Hr) as [[r ->] | ->]; [|done].
  cbn [is_transaction_committed]. unfold mbindM, mok. pose proof (log_serialize_length r) as [Hl _]. apply IH; lia.
Qed.

Lemma recover_loop_ok j (l : list Z) : ∀ w,
  journal_on_disk j w → (∀ a, bytes_ok (sector (w_dev w) (jm_drive j) a)) →
  Forall (λ a, 0 ≤ a < jm_size_sectors j) l →
  ∃ d', mfor l (λ a, let! sector_data := read_journal_sector a in recover_sector 12 sector_data 0) (j, w) =
          (Ok tt, (j, w_set_dev d' w)) ∧ same_disk (w_dev w) d'.
Proof.
  induction l as [|a l IH]; intros w Hj Hb Hl.
  - exists (w_dev w). split; [by destruct w|done].
  - apply Forall_cons in Hl as [Ha Hl]. pose proof Hj as [Hsz (Hd & Hst & cap & Hcap & Hin)].
    pose proof (capacity_bound _ _ _ Hcap).
    destruct (read_exact (w_dev w) (jm_drive j) 1 (jm_start_sector j + a) (zeros 512)) as (d1 & Er & Hs).
    { split_and!; try lia. exists cap. split; [done|lia]. }
    { lia. }
    { by vm_compute. }
    destruct (IH (w_set_dev d1 w)) as (d' & El & Hs'); [|by cbn; intros; rewrite (proj1 Hs)|done|].
    { split; [done|]. cbn. by eapply on_drive_same; [|apply Hj]. }
    exists d'. split; [|by etransitivity].
    cbn [mfor]. unfold mbindM at 1 2. unfold read_journal_sector, mbindM, get_self, mlift, add64. rewrite chk_ok by lia.
    unfold on_world, on_dev, as_u32. rewrite Z.mod_small by lia. rewrite Er.
    rewrite recover_sector_ok; [exact El| | | |lia]; [|lia|].
    + unfold sectors_at. apply Forall_join. apply Forall_fmap, Forall_forall. intros x _. apply Hb.
    + rewrite length_sectors_at; lia.
Qed.

Lemma recover_ok j w :
  journal_on_disk j w → (∀ a, bytes_ok (sector (w_dev w) (jm_drive j) a)) →
  ∃ d', recover (j, w) = (Ok tt, (j, w_set_dev d' w)) ∧ same_disk (w_dev w) d'.
Proof.
  intros Hj Hb. unfold recover, mbindM at 1. cbn [get_self]. apply recover_loop_ok; [done|done|].
  apply Forall_seqZ. lia.
Qed.

(** ** Sequences of calls *)
Inductive JOp : Type :=
  | JBegin
  | JLog (id : Z) (op : OperationType) (target : Z) (undo redo : list Z)
  | JCommit (id : Z)
  | JAbort (id : Z)
  | JRecover
  | JCleanup.

(** A payload of bytes that the journal can hold. *)
Definition jop_ok (size : Z) (op : JOp) : Prop :=
  match op with
  | JLog _ _ _ undo redo =>
      (bytes_ok undo ∧ bytes_ok redo) ∧ zlen undo + zlen redo ≤ 100000 ∧ zlen undo + zlen redo + 51 ≤ size * 512
  | _ => True
  end.

(** One call; the caller goes on after an error. *)
Definition journal_exec (op : JOp) (s : JournalManager * World D) : option (JournalManager * World D) :=
  let go {A} (r : res FilesystemError A * (JournalManager * World D)) :=
    match r with (Panic, _) | (Hang, _) => None | (_, s') => Some s' end in
  match op with
  | JBegin => go (begin_transaction s)
  | JLog id o target undo redo => go (log_operation id o target undo redo s)
  | JCommit id => go (commit_transaction id s)
  | JAbort id => go (abort_transaction id s)
  | JRecover => go (recover s)
  | JCleanup => Some (cleanup_completed_transactions s.1, s.2)
  end.

Fixpoint journal_run (ops : list JOp) (s : JournalManager * World D) : option (JournalManager * World D) :=
  match ops with
  | [] => Some s
  | op :: ops => match journal_exec op s with Some s' => journal_run ops s' | None => None end
  end.

(** Transactions have distinct identifiers, below the next one to be given out,
    and their records are older than the next sequence number. *)
Record journal_inv j : Prop := {
  ji_ids : NoDup (tx_id <$> active_transactions j);
  ji_next : Forall (λ t, tx_id t < next_transaction_id j) (active_transactions j);
  ji_records : Forall (λ t, Forall (λ r, log_sequence r < current_sequence j) (tx_records t)) (active_transactions j);
}.

(** Room left in the machine counters. *)
Definition counters_below (n : Z) j w : Prop :=
  0 ≤ current_sequence j ≤ n ∧ 0 ≤ next_transaction_id j ≤ n ∧ 0 ≤ w_counter w ≤ n.

Lemma update_first_ids p f l l' :
  (∀ t, tx_id (f t) = tx_id t) → update_first p f l = Some l' → tx_id <$> l' = tx_id <$> l.
Proof.
  intros Hf. revert l'. induction l as [|t l IH]; intros l'; [done|]. cbn [update_first].
  destruct (p t); [intros [= <-]; cbn; by rewrite Hf|].
  destruct (update_first p f l) as [l1|]; [|done]. intros [= <-]. cbn. by rewrite (IH l1).
Qed.

Lemma update_first_Forall {A} (P : A → Prop) p f (l l' : list A) :
  (∀ t, P t → P (f t)) → update_first p f l = Some l' → Forall P l → Forall P l'.
Proof.
  intros Hf. revert l'. induction l as [|t l IH]; intros l'; [done|]. cbn [update_first].
  intros E [Ht Hl]%Forall_cons. destruct (p t); [injection E as <-; constructor; auto|].
  destruct (update_first p f l) as [l1|]; [|done]. injection E as <-. constructor; auto.
Qed.

Lemma update_first_total {A} p (f g : A → A) (l : list A) :
  is_Some (update_first p f l) ↔ is_Some (update_first p g l).
Proof.
  induction l as [|t l IH]; [done|]. cbn [update_first]. destruct (p t); [by split; eauto|].
  rewrite !fmap_is_Some. done.
Qed.

(** Ending a transaction or adding a record to it keeps the invariant. *)
Lemma journal_inv_update j p f txs :
  journal_inv j → (∀ t, tx_id (f t) = tx_id t) →
  (∀ t, Forall (λ r, log_sequence r < current_sequence j + 1) (tx_records t) →
        Forall (λ r, log_sequence r < current_sequence j + 1) (tx_records (f t))) →
  update_first p f (active_transactions j) = Some txs →
  journal_inv (jm_set_sequence (current_sequence j + 1) (jm_set_txs txs j)).
Proof.
  intros [Hi Hn Hr] Hid Hrec Eu. split; cbn.
  - by rewrite (update_first_ids p f _ _ Hid Eu).
  - eapply update_first_Forall; [|exact Eu|exact Hn]. intros t. cbn. by rewrite Hid.
  - eapply (update_first_Forall _ p f); [exact Hrec|exact Eu|].
    eapply Forall_impl; [exact Hr|]. intros t Ht. eapply Forall_impl; [exact Ht|]. cbn. lia.
Qed.

Lemma tx_add_record_seq n r t :
  log_sequence r < n → Forall (λ x, log_sequence x < n) (tx_records t) →
  Forall (λ x, log_sequence x < n) (tx_records (tx_add_record r t)).
Proof.
  intros Hr Ht. unfold tx_add_record. destruct (tx_state t); try done. cbn. apply Forall_app. by repeat constructor.
Qed.

Lemma tx_add_record_id r t : tx_id (tx_add_record r t) = tx_id t.
Proof. unfold tx_add_record. by destruct (tx_state t). Qed.

Definition same_area j j' : Prop :=
  jm_drive j' = jm_drive j ∧ jm_start_sector j' = jm_start_sector j ∧ jm_size_sectors j' = jm_size_sectors j.

(** What every call of a sequence keeps. *)
Definition journal_step_ok n j w j' w' : Prop :=
  journal_on_disk j' w' ∧ journal_inv j' ∧ counters_below (n + 1) j' w' ∧ same_area j j' ∧
  only_sectors (jm_drive j) (jm_start_sector j) (jm_size_sectors j + 1) (w_dev w) (w_dev w').

Lemma journal_step_dev n j w p f txs d' :
  journal_on_disk j w → journal_inv j → counters_below n j w → (∀ t, tx_id (f t) = tx_id t) →
  (∀ t, Forall (λ r, log_sequence r < current_sequence j + 1) (tx_records t) →
        Forall (λ r, log_sequence r < current_sequence j + 1) (tx_records (f t))) →
  update_first p f (active_transactions j) = Some txs →
  only_sectors (jm_drive j) (jm_start_sector j) (jm_size_sectors j + 1) (w_dev w) d' →
  journal_step_ok n j w (jm_set_sequence (current_sequence j + 1) (jm_set_txs txs j)) (w_set_dev d' (w_tick w)).
Proof.
  intros Hj Hi (Hc1 & Hc2 & Hc3) Hid Hrec Eu Ho. split_and!.
  - by apply (journal_on_disk_dev j (w_tick w)).
  - by apply (journal_inv_update j p f).
  - unfold counters_below. cbn. lia.
  - by split_and!.
  - exact Ho.
Qed.

Lemma journal_step_keep n j w w' :
  journal_on_disk j w → journal_inv j → counters_below n j w → w' = w ∨ w' = w_tick w →
  journal_step_ok n j w j w'.
Proof.
  intros Hj Hi (Hc1 & Hc2 & Hc3) Hw.
  assert (w_dev w' = w_dev w ∧ w_counter w ≤ w_counter w' ≤ w_counter w + 1) as [Ed Hcnt]
    by (destruct Hw as [-> | ->]; cbn; split; done || lia).
  unfold journal_step_ok. rewrite Ed. split; [|split; [done|split; [unfold counters_below; lia|split; [by split_and!|done]]]].
  destruct Hj as [? ?]. split; [done|]. by rewrite Ed.
Qed.

Lemma end_transaction_step f marker id n j w :
  journal_on_disk j w → journal_inv j → counters_below n j w → n < 2 ^ 62 → zlen marker ≤ 13 →
  (∀ t, tx_id (f t) = tx_id t ∧ tx_records (f t) = tx_records t) →
  ∃ r j' w', end_transaction f marker id (j, w) = (r, (j', w')) ∧ r ≠ Panic ∧ r ≠ Hang ∧ journal_step_ok n j w j' w' ∧
    (bytes_ok marker → dev_bytes (jm_drive j) (w_dev w) → dev_bytes (jm_drive j) (w_dev w')).
Proof.
  intros Hj Hi Hc Hn Hm Hf.
  destruct (update_first (is_tx id) f (active_transactions j)) as [txs|] eqn:Eu.
  - destruct (end_transaction_ok f marker j w id txs) as (d' & E & Ho & Hby); try done; try (destruct Hc as (? & ? & ?); lia).
    eexists (Ok tt), _, _. split; [exact E|]. split_and!; [done|done| |exact Hby].
    apply (journal_step_dev n j w (is_tx id) f); try done; [apply Hf|]. intros t. by rewrite (proj2 (Hf t)).
  - exists (Err InvalidParameter), j, w. split_and!; [|done|done|apply journal_step_keep; auto|done].
    unfold end_transaction, mbindM at 1. cbn [get_self]. by rewrite Eu.
Qed.

Lemma log_operation_step id op target undo redo n j w :
  journal_on_disk j w → journal_inv j → counters_below n j w → n < 2 ^ 62 →
  zlen undo + zlen redo ≤ 100000 → zlen undo + zlen redo + 51 ≤ jm_size_sectors j * 512 →
  ∃ r j' w', log_operation id op target undo redo (j, w) = (r, (j', w')) ∧ r ≠ Panic ∧ r ≠ Hang ∧
    journal_step_ok n j w j' w' ∧
    (bytes_ok undo → bytes_ok redo → dev_bytes (jm_drive j) (w_dev w) → dev_bytes (jm_drive j) (w_dev w')).
Proof.
  intros Hj Hi Hc Hn Hlen Hfit.
  assert (0 ≤ w_counter w < 2 ^ 63 ∧ 0 ≤ current_sequence j < 2 ^ 63) as [Hw Hs] by (destruct Hc as (? & ? & ?); lia).
  destruct (update_first (is_active_tx id) (λ t, t) (active_transactions j)) as [l0|] eqn:Eu.
  - assert (∀ r, is_Some (update_first (is_active_tx id) (tx_add_record r) (active_transactions j))) as Hsome.
    { intros r. by apply (update_first_total _ (λ t, t)); rewrite Eu. }
    set (txs r := default [] (update_first (is_active_tx id) (tx_add_record r) (active_transactions j))).
    assert (∀ r, update_first (is_active_tx id) (tx_add_record r) (active_transactions j) = Some (txs r)) as Htxs.
    { intros r. unfold txs. by destruct (Hsome r) as [l ->]. }
    destruct (log_operation_ok j w id op target undo redo txs Hj Hw Hs Hlen Hfit Htxs) as (r & d' & E & _ & _ & Hq & Ho & Hby).
    eexists (Ok tt), _, _. split; [exact E|]. split_and!; [done|done| |exact Hby].
    apply (journal_step_dev n j w (is_active_tx id) (tx_add_record r)); try done; [apply tx_add_record_id|].
    intros t. apply tx_add_record_seq. lia.
  - destruct (log_record_new_ok w (current_sequence j) op target undo redo Hw) as (r & En & _).
    exists (Err InvalidParameter), j, (w_tick w). split_and!; [|done|done|apply journal_step_keep; auto|done].
    unfold log_operation. unfold mbindM at 1. cbn [get_self]. unfold mbindM at 1. unfold on_world at 1. rewrite En.
    destruct (update_first (is_active_tx id) (tx_add_record r) (active_transactions j)) eqn:E'; [|done].
    exfalso. apply eq_None_not_Some in Eu. apply Eu. apply (update_first_total _ _ (tx_add_record r)). by rewrite E'.
Qed.

Lemma begin_transaction_step n j w :
  journal_on_disk j w → journal_inv j → counters_below n j w → n < 2 ^ 62 →
  ∃ j', begin_transaction (j, w) = (Ok (next_transaction_id j), (j', w)) ∧ journal_step_ok n j w j' w.
Proof.
  intros Hj [Hi Hx Hr] (Hc1 & Hc2 & Hc3) Hn. eexists. split.
  - unfold begin_transaction, mbindM, get_self, mlift, add64, set_self. rewrite chk_ok by lia. reflexivity.
  - split; [done|]. split; [|by split; [unfold counters_below; cbn; lia|]].
    split; cbn; [|apply Forall_app; split..]; try done.
    + rewrite fmap_app. apply NoDup_app. split_and!; [done| |apply NoDup_singleton].
      intros x (t & -> & Ht)%list_elem_of_fmap Hin%list_elem_of_singleton. rewrite Forall_forall in Hx.
      apply Hx in Ht. cbn in Hin. lia.
    + eapply Forall_impl; [exact Hx|]. cbn. lia.
    + repeat constructor. cbn. lia.
    + repeat constructor.
Qed.

Lemma cleanup_step n j w :
  journal_on_disk j w → journal_inv j → counters_below n j w →
  journal_step_ok n j w (cleanup_completed_transactions j) w.
Proof.
  intros Hj [Hi Hx Hr] (Hc1 & Hc2 & Hc3). split; [done|]. split; [|by split; [unfold counters_below; cbn; lia|]].
  - split; cbn.
    + clear -Hi. induction (active_transactions j) as [|t l IH]; [done|].
      apply NoDup_cons in Hi as [Ht Hl]. rewrite filter_cons. case_decide; [|auto]. cbn. constructor; [|auto].
      intros (t' & E & Hin)%list_elem_of_fmap. apply Ht. rewrite E. apply list_elem_of_fmap_2.
      by apply list_elem_of_filter in Hin as [_ ?].
    + apply Forall_forall. intros t [_ Ht]%list_elem_of_filter. rewrite Forall_forall in Hx. auto.
    + apply Forall_forall. intros t [_ Ht]%list_elem_of_filter. rewrite Forall_forall in Hr. auto.
Qed.

(** Reading changes no sector. *)
Lemma journal_step_read n j w d' :
  journal_on_disk j w → journal_inv j → counters_below n j w → same_disk (w_dev w) d' → journal_step_ok n j w j (w_set_dev d' w).
Proof.
  intros Hj Hi (Hc1 & Hc2 & Hc3) [Hs Hcap].
  assert (only_sectors (jm_drive j) (jm_start_sector j) (jm_size_sectors j + 1) (w_dev w) d') as Ho by (split; [intros; apply Hs|done]).
  split_and!; [by apply journal_on_disk_dev|done|unfold counters_below; cbn; lia|by split_and!|exact Ho].
Qed.

Lemma journal_exec_ok op n j w :
  journal_on_disk j w → journal_inv j → counters_below n j w → n < 2 ^ 62 → jop_ok (jm_size_sectors j) op → dev_bytes (jm_drive j) (w_dev w) →
  ∃ j' w', journal_exec op (j, w) = Some (j', w') ∧ journal_step_ok n j w j' w' ∧ dev_bytes (jm_drive j) (w_dev w').
Proof.
  intros Hj Hi Hc Hn Hop Hby. assert (bytes_ok COMMIT ∧ bytes_ok ABORT) as [HbC HbA] by (split; apply bytes_ok_forallb; by vm_compute).
  destruct op as [|id o target undo redo|id|id| |]; cbn [journal_exec jop_ok] in *.
  - destruct (begin_transaction_step n j w Hj Hi Hc Hn) as (j' & -> & Hs). by exists j', w.
  - destruct Hop as ([Hbu Hbr] & Hl & Hf).
    destruct (log_operation_step id o target undo redo n j w Hj Hi Hc Hn Hl Hf) as ([] & j' & w' & -> & ? & ? & Hs & Hb);
      try done; exists j', w'; auto.
  - destruct (end_transaction_step tx_commit COMMIT id n j w Hj Hi Hc Hn) as ([] & j' & w' & E & ? & ? & Hs & Hb); try done;
      unfold commit_transaction; rewrite E; exists j', w'; auto.
  - destruct (update_first (is_tx id) tx_abort (active_transactions j)) as [txs|] eqn:Eu.
    + rewrite (abort_transaction_eq j w id txs Eu).
      destruct (end_transaction_step tx_abort ABORT id n j w Hj Hi Hc Hn) as ([] & j' & w' & E & ? & ? & Hs & Hb); try done;
        rewrite E; exists j', w'; auto.
    + exists j, w. split; [|split; [by apply journal_step_keep; auto|done]].
      apply (find_update_first (is_tx id) tx_abort) in Eu.
      unfold abort_transaction, mbindM at 1. cbn [get_self]. by rewrite Eu.
  - destruct (recover_ok j w Hj Hby) as (d' & -> & Hs). eexists _, _. split; [reflexivity|]. split; [by apply journal_step_read|].
    intros a. cbn [w_dev w_set_dev]. rewrite (proj1 Hs). apply Hby.
  - eexists _, _. split; [done|]. split; [by apply cleanup_step|done].
Qed.

Lemma journal_run_ok ops : ∀ n j w,
  journal_on_disk j w → journal_inv j → counters_below n j w → n + zlen ops < 2 ^ 62 →
  Forall (jop_ok (jm_size_sectors j)) ops → dev_bytes (jm_drive j) (w_dev w) →
  ∃ j' w', journal_run ops (j, w) = Some (j', w') ∧ journal_inv j' ∧ same_area j j' ∧
    only_sectors (jm_drive j) (jm_start_sector j) (jm_size_sectors j + 1) (w_dev w) (w_dev w').
Proof.
  induction ops as [|op ops IH]; intros n j w Hj Hi Hc Hn Hops Hby.
  - exists j, w. split_and!; try done.
  - apply Forall_cons in Hops as [Hop Hops]. assert (zlen (op :: ops) = 1 + zlen ops) as Hz by (unfold zlen; cbn; lia).
    pose proof (zlen_nonneg ops).
    destruct (journal_exec_ok op n j w Hj Hi Hc) as (j1 & w1 & E & (Hj1 & Hi1 & Hc1 & (A1 & A2 & A3) & Ho1) & Hby1); [lia|done|done|].
    destruct (IH (n + 1) j1 w1 Hj1 Hi1 Hc1) as (j' & w' & E' & Hi' & (B1 & B2 & B3) & Ho'); [lia|by rewrite A3|by rewrite A1|].
    exists j', w'. cbn [journal_run]. rewrite E. split_and!; [done|done|..].
    + split_and!; congruence.
    + rewrite A1, A2, A3 in Ho'. by etransitivity.
Qed.
End journal_spec.

Lemma sectors_at_last {D} `{SectorDevLaws D} (d : D) drive lba n :
  0 < n → sectors_at d drive lba n = sectors_at d drive lba (n - 1) ++ sector d drive (lba + n - 1).
Proof.
  intros Hn. unfold sectors_at. replace n with (Z.of_nat (S (Z.to_nat (n - 1)))) at 1 by lia.
  rewrite seqZ_S, fmap_app, join_app. rewrite Z2Nat.id by lia. f_equal. cbn. rewrite app_nil_r. f_equal. lia.
Qed.

(** ** Properties *)

Definition journal_disk : World RamDisk := boot_world (mkRam {[0 := 200]} ∅).
Definition demo_journal : JournalManager := journal_manager_new 0 10 64.

Lemma demo_journal_on_disk : journal_on_disk demo_journal journal_disk.
Proof. split; [cbn; lia|]. split; [cbn; lia|]. split; [cbn; lia|]. exists 200. split; [by vm_compute|cbn; lia]. Qed.

Lemma demo_journal_bytes : dev_bytes 0 (w_dev journal_disk).
Proof. intros a. change (bytes_ok (take 512 ([] ++ zeros 512))). apply Forall_take, zeros_ok. Qed.

Lemma demo_journal_inv : journal_inv demo_journal.
Proof. split; cbn; constructor. Qed.

(** Log records survive the byte format. A record whose checksum is the computed one, with payloads
    below 4 GiB, is returned by [deserialize] from its serialized bytes, whatever follows them; the
    serialized form is padded to a multiple of eight and takes at least 48 bytes. *)
Theorem log_record_roundtrip r rest :
  log_ok r → log_deserialize (log_serialize r ++ rest) = Ok r ∧ 48 ≤ zlen (log_serialize r) ∧
             zlen (log_serialize r) `mod` 8 = 0.
Proof.
  intros Hr. split; [by apply log_deserialize_bytes|]. split; [apply log_serialize_length|].
  rewrite log_serialize_header. apply pad8_bounds.
Qed.

Definition demo_log : LogRecord :=
  let r := mkLog 511 WriteData 18 [1; 2] [3; 4; 5] 0 7 in mkLog 511 WriteData 18 [1; 2] [3; 4; 5] (calculate_checksum r) 7.

Lemma log_record_roundtrip_witness : log_deserialize (log_serialize demo_log ++ [9]) = Ok demo_log.
Proof. apply (log_record_roundtrip demo_log [9]). split; vm_compute; intuition congruence. Defined.

(** C38: the journal stays within bounds and its book-keeping is sound. From a fresh journal, any sequence
    of begin, log, commit, abort, recover and cleanup calls, in which a logged operation carries at most 100000 bytes
    and fits the journal with its header, runs without a panic; transaction identifiers stay distinct and below the
    next one, every record kept is older than the next sequence number, and no sector is changed other than those of
    the journal and the single sector after it. *)
Theorem journal_confined {D} `{SectorDevLaws D} ops drive start size (w : World D) :
  journal_on_disk (journal_manager_new drive start size) w → dev_bytes drive (w_dev w) → 0 ≤ w_counter w ≤ 2 ^ 61 → zlen ops < 2 ^ 60 →
  Forall (jop_ok size) ops →
  ∃ j' w', journal_run ops (journal_manager_new drive start size, w) = Some (j', w') ∧ journal_inv j' ∧
    only_sectors drive start (size + 1) (w_dev w) (w_dev w').
Proof.
  intros Hj Hby Hc Hn Hops. destruct (journal_run_ok ops (2 ^ 61) (journal_manager_new drive start size) w)
    as (j' & w' & E & Hi & _ & Ho); [done|split; cbn; constructor|unfold counters_below; cbn; lia|lia|done|done|].
  by exists j', w'.
Qed.

Lemma journal_confined_witness :
  ∃ j' w', journal_run [JBegin; JLog 1 WriteData 18 [1] [2]; JCommit 1; JBegin; JAbort 2; JRecover; JCleanup]
             (demo_journal, journal_disk) = Some (j', w') ∧ current_sequence j' = 4 ∧ active_transactions j' = [].
Proof.
  destruct (journal_confined [JBegin; JLog 1 WriteData 18 [1] [2]; JCommit 1; JBegin; JAbort 2; JRecover; JCleanup] 0 10 64 journal_disk)
    as (j' & w' & E & _); [apply demo_journal_on_disk| |cbn; lia|by vm_compute| |].
  - exact demo_journal_bytes.
  - repeat constructor; by vm_compute.
  - exists j', w'. split; [exact E|]. vm_compute in E. by injection E as <- _.
Defined.

(** A record in the last slot erases the sector after the journal. The sector count is rounded up
    twice, so the write is one sector too long; when the record's slot ends the journal, the call
    succeeds and the first sector after the journal, where the cluster bitmap starts, is all zeros. *)
Theorem journal_erases_next_sector {D} `{SectorDevLaws D} j (w : World D) r off :
  journal_on_disk j w → fits_journal j r →
  journal_slot (jm_size_sectors j) (zlen (log_serialize r)) (log_sequence r) = Ok (off, log_sectors r) →
  off + log_sectors r = jm_size_sectors j + 1 →
  ∃ w', write_log_record r (j, w) = (Ok tt, (j, w')) ∧
    sector (w_dev w') (jm_drive j) (jm_start_sector j + jm_size_sectors j) = zeros 512.
Proof.
  intros Hj Hf Es Hend.
  destruct (write_log_record_ok j w r Hj Hf) as (off' & d' & Es' & Ew & Hoff & Hlen & _ & Hsec & _).
  rewrite Es in Es'. injection Es' as <-. exists (w_set_dev d' w). split; [done|]. cbn [w_dev w_set_dev].
  pose proof (log_serialize_length r) as [H48 _]. set (n := log_sectors r) in *.
  assert (0 < n) as Hn by lia.
  pose proof (length_sectors_at d' (jm_drive j) (jm_start_sector j + off) (n - 1) ltac:(lia)) as Hl.
  rewrite sectors_at_last in Hsec by done. apply (f_equal (drop (Z.to_nat ((n - 1) * 512)))) in Hsec.
  rewrite drop_at in Hsec by (unfold zlen in Hl; lia).
  replace (jm_start_sector j + off + n - 1) with (jm_start_sector j + jm_size_sectors j) in Hsec by lia.
  rewrite Hsec. rewrite drop_app_ge by (unfold zlen in *; lia). unfold zeros. rewrite drop_replicate.
  f_equal. unfold zlen in *. lia.
Qed.

Lemma journal_erases_next_sector_witness :
  ∃ w', write_log_record demo_log (demo_journal, journal_disk) = (Ok tt, (demo_journal, w')) ∧
    sector (w_dev w') 0 74 = zeros 512.
Proof.
  apply (journal_erases_next_sector demo_journal journal_disk demo_log 63).
  - apply demo_journal_on_disk.
  - by vm_compute.
  - by vm_compute.
  - by vm_compute.
Defined.

(** Recovery undoes nothing. Whatever bytes the journal holds, [recover] ends with success, every
    sector of the disk is what it was before, and the manager is unchanged: operations of a
    transaction that was never committed stay in place. *)
Theorem recover_undoes_nothing {D} `{SectorDevLaws D} j (w : World D) :
  journal_on_disk j w → (∀ a, bytes_ok (sector (w_dev w) (jm_drive j) a)) →
  ∃ d', recover (j, w) = (Ok tt, (j, w_set_dev d' w)) ∧ same_disk (w_dev w) d'.
Proof. apply recover_ok. Qed.

Lemma recover_undoes_nothing_witness :
  ∃ d', recover (demo_journal, journal_disk) = (Ok tt, (demo_journal, w_set_dev d' journal_disk)) ∧
    same_disk (w_dev journal_disk) d'.
Proof.
  apply (recover_undoes_nothing demo_journal journal_disk).
  - apply demo_journal_on_disk.
  - exact demo_journal_bytes.
Defined.

(** An aborted transaction can still be committed. After a successful [abort_transaction], calling
    [commit_transaction] with the same identifier succeeds and leaves the transaction [Committed]. *)
Theorem commit_after_abort {D} `{SectorDevLaws D} j (w : World D) id t :
  journal_on_disk j w → 0 ≤ w_counter w < 2 ^ 62 → 0 ≤ current_sequence j < 2 ^ 62 →
  List.find (is_tx id) (active_transactions j) = Some t →
  ∃ j1 w1 j2 w2, abort_transaction id (j, w) = (Ok tt, (j1, w1)) ∧
    tx_state <$> List.find (is_tx id) (active_transactions j1) = Some Aborted ∧
    commit_transaction id (j1, w1) = (Ok tt, (j2, w2)) ∧
    tx_state <$> List.find (is_tx id) (active_transactions j2) = Some Committed.
Proof.
  intros Hj Hw Hs Hfind.
  assert (∀ f l, (∀ t, is_tx id (f t) = is_tx id t) → is_Some (List.find (is_tx id) l) →
            ∃ l', update_first (is_tx id) f l = Some l' ∧ List.find (is_tx id) l' = f <$> List.find (is_tx id) l) as Hupd.
  { intros f l Hf. induction l as [|x l IH]; [by intros []|]. cbn. destruct (is_tx id x) eqn:E.
    - intros _. eexists. split; [done|]. cbn. by rewrite Hf, E.
    - intros Hl. destruct (IH Hl) as (l' & -> & El). eexists. split; [done|]. cbn. by rewrite E. }
  destruct (Hupd tx_abort (active_transactions j)) as (txs1 & Eu1 & Ef1); [done|by rewrite Hfind|].
  destruct (end_transaction_ok tx_abort ABORT j w id txs1) as (d1 & E1 & Ho1 & _); [done|lia|lia|by vm_compute|done|].
  set (j1 := jm_set_sequence (current_sequence j + 1) (jm_set_txs txs1 j)) in *.
  set (w1 := w_set_dev d1 (w_tick w)) in *.
  destruct (Hupd tx_commit txs1) as (txs2 & Eu2 & Ef2); [done|by rewrite Ef1, Hfind|].
  assert (journal_on_disk j1 w1) as Hj1 by (by apply (journal_on_disk_dev j (w_tick w))).
  destruct (end_transaction_ok tx_commit COMMIT j1 w1 id txs2 Hj1) as (d2 & E2 & _); [cbn; lia|cbn; lia|by vm_compute|done|].
  eexists j1, w1, _, _. split; [by rewrite (abort_transaction_eq j w id txs1 Eu1)|]. split; [cbn; by rewrite Ef1, Hfind|].
  split; [exact E2|]. cbn. by rewrite Ef2, Ef1, Hfind.
Qed.

Lemma commit_after_abort_witness :
  ∃ j0 w0 j1 w1 j2 w2, begin_transaction (demo_journal, journal_disk) = (Ok 1, (j0, w0)) ∧
    abort_transaction 1 (j0, w0) = (Ok tt, (j1, w1)) ∧ commit_transaction 1 (j1, w1) = (Ok tt, (j2, w2)).
Proof.
  set (j0 := mkJournal 0 10 64 1 [transaction_new 1 1] 2).
  destruct (commit_after_abort j0 journal_disk 1 (transaction_new 1 1)) as (j1 & w1 & j2 & w2 & E1 & _ & E2 & _).
  - apply demo_journal_on_disk.
  - by vm_compute.
  - by vm_compute.
  - done.
  - exists j0, journal_disk, j1, w1, j2, w2. split; [by vm_compute|]. split; [exact E1|exact E2].
Defined.
