(* ===== verification/FileRecord.v ===== *)
(** * File records ([crates/galleon2/src/file_record.rs])

    The standard-information and file-name attributes with their byte formats,
    and the manager that creates, reads, writes and deletes files as MFT
    records under the journal. *)

From S2P Require Import Prelude Device Runs Mft Journal.

(** [get_current_time]: a constant in the source. *)
Definition get_current_time : Z := 0x01D0000000000000.

(** [FileTimes] *)
Record FileTimes := mkTimes {
  creation_time : Z;
  last_access_time : Z;
  last_write_time : Z;
  mft_change_time : Z;
}.

Definition file_times_new : FileTimes :=
  mkTimes get_current_time get_current_time get_current_time get_current_time.

Definition update_access (t : FileTimes) : FileTimes :=
  mkTimes (creation_time t) get_current_time (last_write_time t) (mft_change_time t).

Definition update_write (t : FileTimes) : FileTimes :=
  mkTimes (creation_time t) (last_access_time t) get_current_time get_current_time.

Definition update_metadata (t : FileTimes) : FileTimes :=
  mkTimes (creation_time t) (last_access_time t) (last_write_time t) get_current_time.

(** [FileAttributes] *)
Record FileAttributes := mkFileAttrs {
  readonly : bool;
  hidden : bool;
  system : bool;
  directory : bool;
  archive : bool;
  normal : bool;
  temporary : bool;
  sparse_file : bool;
  reparse_point : bool;
  compressed : bool;
  encrypted : bool;
}.

Definition file_attributes_new_file : FileAttributes :=
  mkFileAttrs false false false false true true false false false false false.

Definition file_attributes_new_directory : FileAttributes :=
  mkFileAttrs false false false true false false false false false false false.

Definition file_attributes_to_u32 (a : FileAttributes) : Z :=
  flag_if (encrypted a) 0x4000 (flag_if (compressed a) 0x800 (flag_if (reparse_point a) 0x400
  (flag_if (sparse_file a) 0x200 (flag_if (temporary a) 0x100 (flag_if (normal a) 0x80
  (flag_if (archive a) 0x20 (flag_if (directory a) 0x10 (flag_if (system a) 0x4
  (flag_if (hidden a) 0x2 (flag_if (readonly a) 0x1 0)))))))))).

Definition file_attributes_from_u32 (v : Z) : FileAttributes :=
  mkFileAttrs (has_bit v 0x1) (has_bit v 0x2) (has_bit v 0x4) (has_bit v 0x10) (has_bit v 0x20)
    (has_bit v 0x80) (has_bit v 0x100) (has_bit v 0x200) (has_bit v 0x400) (has_bit v 0x800)
    (has_bit v 0x4000).

(** [StandardInformation] *)
Record StandardInformation := mkStdInfo {
  si_times : FileTimes;
  si_file_attributes : FileAttributes;
  maximum_versions : Z;
  version_number : Z;
  class_id : Z;
  owner_id : Z;
  security_id : Z;
  quota_charged : Z;
  update_sequence_number : Z;
}.

Definition std_info_new_file : StandardInformation :=
  mkStdInfo file_times_new file_attributes_new_file 0 0 0 0 0 0 0.

Definition std_info_new_directory : StandardInformation :=
  mkStdInfo file_times_new file_attributes_new_directory 0 0 0 0 0 0 0.

Definition std_info_serialize (s : StandardInformation) : list Z :=
  le_bytes 8 (creation_time (si_times s)) ++ le_bytes 8 (last_access_time (si_times s)) ++
  le_bytes 8 (last_write_time (si_times s)) ++ le_bytes 8 (mft_change_time (si_times s)) ++
  le_bytes 4 (file_attributes_to_u32 (si_file_attributes s)) ++
  le_bytes 4 (maximum_versions s) ++ le_bytes 4 (version_number s) ++ le_bytes 4 (class_id s) ++
  le_bytes 4 (owner_id s) ++ le_bytes 4 (security_id s) ++ le_bytes 8 (quota_charged s) ++
  le_bytes 8 (update_sequence_number s).

Definition std_info_deserialize (data : list Z) : fsres StandardInformation :=
  if bool_decide (zlen data < 72) then Err InvalidParameter else
  Ok (mkStdInfo
        (mkTimes (le_dec (field 0 8 data)) (le_dec (field 8 8 data)) (le_dec (field 16 8 data))
           (le_dec (field 24 8 data)))
        (file_attributes_from_u32 (le_dec (field 32 4 data)))
        (le_dec (field 36 4 data)) (le_dec (field 40 4 data)) (le_dec (field 44 4 data))
        (le_dec (field 48 4 data)) (le_dec (field 52 4 data)) (le_dec (field 56 8 data))
        (le_dec (field 64 8 data))).

(** [FileName]; a name is the UTF-8 bytes of the Rust string. *)
Record FileName := mkFileName {
  parent_directory : Z;
  fn_name : list Z;
  namespace : Z;
  fn_file_size : Z;
  fn_allocated_size : Z;
  fn_times : FileTimes;
  fn_file_attributes : FileAttributes;
}.

Definition file_name_new (parent : Z) (name : list Z) (is_dir : bool) : FileName :=
  mkFileName parent name 1 0 0 file_times_new
    (if is_dir then file_attributes_new_directory else file_attributes_new_file).

(** [for byte in name.bytes() { push(byte); push(0) }] *)
Definition widen (name : list Z) : list Z := mjoin ((λ b, [b; 0]) <$> name).

Definition file_name_serialize (f : FileName) : list Z :=
  pad8 (le_bytes 8 (parent_directory f) ++
        le_bytes 8 (creation_time (fn_times f)) ++ le_bytes 8 (last_access_time (fn_times f)) ++
        le_bytes 8 (last_write_time (fn_times f)) ++ le_bytes 8 (mft_change_time (fn_times f)) ++
        le_bytes 8 (fn_allocated_size f) ++ le_bytes 8 (fn_file_size f) ++
        le_bytes 4 (file_attributes_to_u32 (fn_file_attributes f)) ++
        [as_u8 (zlen (fn_name f))] ++ [namespace f] ++ widen (fn_name f)).

(** [name.push(b as char)]: the UTF-8 bytes of the character with code [b]. *)
Definition char_bytes (b : Z) : list Z :=
  if bool_decide (b < 128) then [b] else [192 + b / 64; 128 + b `mod` 64].

(** The loop that reads every other byte from 62 on, as far as the data go. *)
Definition narrow (data : list Z) (n : nat) : list Z :=
  mjoin ((λ i, match data !! (62 + i * 2)%nat with Some b => char_bytes b | None => [] end) <$> seq 0 n).

Definition file_name_deserialize (data : list Z) : fsres FileName :=
  if bool_decide (zlen data < 66) then Err InvalidParameter else
  Ok (mkFileName (le_dec (field 0 8 data)) (narrow data (Z.to_nat (nth 60 data 0))) (nth 61 data 0)
        (le_dec (field 48 8 data)) (le_dec (field 40 8 data))
        (mkTimes (le_dec (field 8 8 data)) (le_dec (field 16 8 data)) (le_dec (field 24 8 data))
           (le_dec (field 32 8 data)))
        (file_attributes_from_u32 (le_dec (field 56 4 data)))).

(** [create_empty_index_root] *)
Definition create_empty_index_root : list Z :=
  [73; 78; 68; 88] ++ le_bytes 4 0 ++ le_bytes 4 16 ++ le_bytes 4 0.

(** [FileRecordManager] *)
Record FileRecordManager := mkFRM {
  frm_mft : MftManager;
  frm_journal : JournalManager;
}.

(** The loop of [update_access_time] and [update_write_time]: the first
    standard-information attribute, if it is resident, is rewritten. *)
Fixpoint update_std_info (f : FileTimes → FileTimes) (attrs : list Attribute) : fsres (list Attribute) :=
  match attrs with
  | [] => Ok []
  | a :: attrs =>
      if bool_decide (attr_type (attr_header a) = attr_code AtStandardInformation) then
        match attr_data a with
        | Resident data =>
            let? s := std_info_deserialize data in
            let s' := mkStdInfo (f (si_times s)) (si_file_attributes s) (maximum_versions s)
                        (version_number s) (class_id s) (owner_id s) (security_id s)
                        (quota_charged s) (update_sequence_number s) in
            Ok (mkAttr (attr_header a) (attr_name a) (Resident (std_info_serialize s')) :: attrs)
        | NonResident _ _ _ _ => Ok (a :: attrs)
        end
      else let? attrs' := update_std_info f attrs in Ok (a :: attrs')
  end.

(** The loop of [write_file]: the first data attribute gets the new content;
    its header stays. *)
Fixpoint replace_data (data : AttributeData) (attrs : list Attribute) : list Attribute :=
  match attrs with
  | [] => []
  | a :: attrs =>
      if bool_decide (attr_type (attr_header a) = attr_code AtData)
      then mkAttr (attr_header a) (attr_name a) data :: attrs
      else a :: replace_data data attrs
  end.

(** The first data attribute. *)
Fixpoint find_data (attrs : list Attribute) : option AttributeData :=
  match attrs with
  | [] => None
  | a :: attrs =>
      if bool_decide (attr_type (attr_header a) = attr_code AtData) then Some (attr_data a)
      else find_data attrs
  end.

Definition rec_set_attrs (attrs : list Attribute) (r : MftRecord) : MftRecord :=
  mkRecord (rec_header r) attrs (record_number r).

Definition rec_set_flags (f : RecordFlags) (r : MftRecord) : MftRecord :=
  mkRecord (set_flags f (rec_header r)) (rec_attributes r) (record_number r).

(** The content [write_file] stores. *)
Definition new_content (data : list Z) : fsres AttributeData :=
  if bool_decide (zlen data ≤ 700) then Ok (Resident data) else
  let? len := add64 (zlen data) 4095 in
  Ok (NonResident [mkRun 0 1] (Z.land len (Z.lxor (2 ^ 64 - 1) 4095)) (zlen data) (zlen data)).

(** The record [create_file] builds. *)
Definition build_file_record (n parent : Z) (name : list Z) (data : option (list Z)) : fsres MftRecord :=
  let r := rec_set_flags (mkRecordFlags true false false) (mft_record_new n) in
  let? std_info_attr := new_resident AtStandardInformation (std_info_serialize std_info_new_file) in
  let? r := add_attribute r std_info_attr in
  let? file_name_attr := new_resident AtFileName (file_name_serialize (file_name_new parent name false)) in
  let? r := add_attribute r file_name_attr in
  match data with
  | Some file_data =>
      let? data_attr := (if bool_decide (zlen file_data ≤ 700) then new_resident AtData file_data
                         else new_non_resident AtData [mkRun 0 1] (zlen file_data)) in
      add_attribute r data_attr
  | None => Ok r
  end.

(** The record [create_directory] builds; the file-name attribute is commented out in the source. *)
Definition build_directory_record (n : Z) : fsres MftRecord :=
  let r := rec_set_flags (mkRecordFlags true true false) (mft_record_new n) in
  let? std_info_attr := new_resident AtStandardInformation (std_info_serialize std_info_new_directory) in
  let? r := add_attribute r std_info_attr in
  let? index_root_attr := new_resident AtIndexRoot create_empty_index_root in
  add_attribute r index_root_attr.

Section file_records.
Context {D : Type} `{SectorDev D}.

Abbreviation FM := (M (FileRecordManager * World D) FilesystemError).

(** Calls on [self.journal_manager] and on [self.mft_manager]. *)
Definition on_journal {A} (m : M (JournalManager * World D) FilesystemError A) : FM A := λ '(f, w),
  let '(r, (j, w')) := m (frm_journal f, w) in (r, (mkFRM (frm_mft f) j, w')).

Definition frm_read_record (n : Z) : FM MftRecord :=
  let! f := get_self in on_world (on_dev (read_record (frm_mft f) n)).

Definition frm_write_record (r : MftRecord) : FM unit :=
  let! f := get_self in on_world (on_dev (write_record (frm_mft f) r)).

Definition create_file (parent : Z) (name : list Z) (data : option (list Z)) : FM Z :=
  let! tx := on_journal begin_transaction in
  let! n := on_world allocate_record in
  let! r := mlift (build_file_record n parent name data) in
  let! _ := match data with
            | Some _ =>
                let! bytes := mlift (record_serialize r) in
                on_journal (log_operation tx CreateFile n [] bytes)
            | None => mok tt
            end in
  let! _ := frm_write_record r in
  let! _ := on_journal (commit_transaction tx) in
  mok n.

(** The name arrives as a raw pointer that the source only prints. *)
Definition create_directory (parent : Z) : FM Z :=
  let! tx := on_journal begin_transaction in
  let! n := on_world allocate_record in
  let! r := mlift (build_directory_record n) in
  let! bytes := mlift (record_serialize r) in
  let! _ := on_journal (log_operation tx CreateDirectory n [] bytes) in
  let! _ := frm_write_record r in
  let! _ := on_journal (commit_transaction tx) in
  mok n.

Definition update_access_time (n : Z) : FM unit :=
  let! r := frm_read_record n in
  let! attrs := mlift (update_std_info update_access (rec_attributes r)) in
  frm_write_record (rec_set_attrs attrs r).

Definition update_write_time (r : MftRecord) : fsres MftRecord :=
  let? attrs := update_std_info update_write (rec_attributes r) in
  Ok (rec_set_attrs attrs r).

Definition read_file (n : Z) : FM (list Z) :=
  let! r := frm_read_record n in
  match find_data (rec_attributes r) with
  | Some (Resident data) =>
      let! _ := update_access_time n in
      mok data
  | Some (NonResident _ _ real_size _) =>
      let! _ := update_access_time n in
      mok (zeros (Z.to_nat real_size))
  | None => merr InvalidParameter
  end.

Definition write_file (n : Z) (data : list Z) : FM unit :=
  let! tx := on_journal begin_transaction in
  let! r := frm_read_record n in
  let! old_record_data := mlift (record_serialize r) in
  let! content := mlift (new_content data) in
  let r := rec_set_attrs (replace_data content (rec_attributes r)) r in
  let! r := mlift (update_write_time r) in
  let! bytes := mlift (record_serialize r) in
  let! _ := on_journal (log_operation tx WriteData n old_record_data bytes) in
  let! _ := frm_write_record r in
  on_journal (commit_transaction tx).

Definition delete_file (n : Z) : FM unit :=
  let! tx := on_journal begin_transaction in
  let! r := frm_read_record n in
  let! old_record_data := mlift (record_serialize r) in
  let flags := get_flags (rec_header r) in
  let new_record := rec_set_flags (mkRecordFlags false (is_directory flags) (has_view_index flags)) r in
  let! bytes := mlift (record_serialize new_record) in
  let! _ := on_journal (log_operation tx DeleteFile n old_record_data bytes) in
  let! _ := frm_write_record new_record in
  on_journal (commit_transaction tx).
End file_records.

(** ** Byte formats *)
Lemma file_attributes_roundtrip a : file_attributes_from_u32 (file_attributes_to_u32 a) = a.
Proof. destruct a as [[] [] [] [] [] [] [] [] [] [] []]; reflexivity. Qed.

Lemma file_attributes_bound a : 0 ≤ file_attributes_to_u32 a < 2 ^ 32.
Proof. destruct a as [[] [] [] [] [] [] [] [] [] [] []]; vm_compute; split; congruence. Qed.

Record std_info_ok (s : StandardInformation) : Prop := {
  sio_creation : in_u 64 (creation_time (si_times s));
  sio_access : in_u 64 (last_access_time (si_times s));
  sio_write : in_u 64 (last_write_time (si_times s));
  sio_change : in_u 64 (mft_change_time (si_times s));
  sio_maxv : in_u 32 (maximum_versions s);
  sio_ver : in_u 32 (version_number s);
  sio_class : in_u 32 (class_id s);
  sio_owner : in_u 32 (owner_id s);
  sio_security : in_u 32 (security_id s);
  sio_quota : in_u 64 (quota_charged s);
  sio_usn : in_u 64 (update_sequence_number s);
}.

Lemma length_std_info s : length (std_info_serialize s) = 72%nat.
Proof. unfold std_info_serialize. len. Qed.

Lemma std_info_roundtrip_ok s : std_info_ok s → std_info_deserialize (std_info_serialize s) = Ok s.
Proof.
  intros []. unfold std_info_deserialize. rewrite bool_decide_eq_false_2 by (unfold zlen; rewrite length_std_info; lia).
  unfold std_info_serialize. destruct s as [[] fa ? ? ? ? ? ? ?].
  cbn [si_times si_file_attributes creation_time last_access_time last_write_time mft_change_time
       maximum_versions version_number class_id owner_id security_id quota_charged update_sequence_number] in *.
  unfold in_u in *. pose proof (file_attributes_bound fa). f_equal. f_equal; [f_equal|..]; fields;
    try (rewrite le_dec_bytes; [done|lia]).
  rewrite le_dec_bytes by lia. apply file_attributes_roundtrip.
Qed.

Record file_name_ok (f : FileName) : Prop := {
  fno_parent : in_u 64 (parent_directory f);
  fno_ascii : Forall (λ b, 0 ≤ b < 128) (fn_name f);
  fno_length : zlen (fn_name f) < 256;
  fno_namespace : in_u 8 (namespace f);
  fno_size : in_u 64 (fn_file_size f);
  fno_allocated : in_u 64 (fn_allocated_size f);
  fno_creation : in_u 64 (creation_time (fn_times f));
  fno_access : in_u 64 (last_access_time (fn_times f));
  fno_write : in_u 64 (last_write_time (fn_times f));
  fno_change : in_u 64 (mft_change_time (fn_times f));
}.

Lemma length_widen name : length (widen name) = (2 * length name)%nat.
Proof. unfold widen. induction name as [|b name IH]; [done|]. rewrite join_fmap_cons. len. Qed.
#[export] Hint Rewrite length_widen : len.

Lemma widen_lookup name i b rest :
  name !! i = Some b → (widen name ++ rest) !! (i * 2)%nat = Some b.
Proof.
  unfold widen. revert i. induction name as [|x name IH]; intros i Hi; [done|].
  rewrite join_fmap_cons. destruct i as [|i]; [done|]. cbn. apply IH. exact Hi.
Qed.

(** Reading every other byte gives an ASCII name back. *)
Lemma narrow_widen pre name rest :
  length pre = 62%nat → Forall (λ b, 0 ≤ b < 128) name →
  narrow (pre ++ widen name ++ rest) (length name) = name.
Proof.
  intros Hpre Hascii. unfold narrow.
  assert ((λ i, match (pre ++ widen name ++ rest) !! (62 + i * 2)%nat with Some b => char_bytes b | None => [] end)
            <$> seq 0 (length name) = (λ b, [b]) <$> name) as ->.
  { apply list_eq. intros i. rewrite !list_lookup_fmap.
    destruct (decide (i < length name)%nat) as [Hi|Hi].
    - rewrite lookup_seq_lt by done. cbn [fmap option_fmap option_map]. rewrite Nat.add_0_l.
      rewrite lookup_app_r by (rewrite Hpre; lia). replace (62 + i * 2 - length pre)%nat with (i * 2)%nat by lia.
      apply lookup_lt_is_Some in Hi as [b Hb]. rewrite (widen_lookup name i b rest Hb), Hb. cbn.
      rewrite Forall_lookup in Hascii. pose proof (Hascii i b Hb). unfold char_bytes.
      rewrite bool_decide_eq_true_2 by lia. done.
    - rewrite lookup_seq_ge by lia. rewrite lookup_ge_None_2 by lia. done. }
  clear. induction name as [|b name IH]; [done|]. rewrite join_fmap_cons, IH. done.
Qed.

Definition file_name_head (f : FileName) : list Z :=
  le_bytes 8 (parent_directory f) ++
  le_bytes 8 (creation_time (fn_times f)) ++ le_bytes 8 (last_access_time (fn_times f)) ++
  le_bytes 8 (last_write_time (fn_times f)) ++ le_bytes 8 (mft_change_time (fn_times f)) ++
  le_bytes 8 (fn_allocated_size f) ++ le_bytes 8 (fn_file_size f) ++
  le_bytes 4 (file_attributes_to_u32 (fn_file_attributes f)).

Lemma length_file_name_head f : length (file_name_head f) = 60%nat.
Proof. unfold file_name_head. len. Qed.

Lemma file_name_serialize_head f :
  file_name_serialize f =
  file_name_head f ++ [as_u8 (zlen (fn_name f)); namespace f] ++ widen (fn_name f) ++
  zeros (pad8_len (62 + 2 * length (fn_name f))).
Proof.
  unfold file_name_serialize, pad8, file_name_head. rewrite <-!app_assoc. cbn [app]. do 11 f_equal.
  len. f_equal.
Qed.

Lemma file_name_serialize_length f :
  zlen (file_name_serialize f) `mod` 8 = 0 ∧ 64 ≤ zlen (file_name_serialize f) ≤ 69 + 2 * zlen (fn_name f).
Proof.
  assert (62 + 2 * zlen (fn_name f) ≤ zlen (file_name_serialize f) ≤ 69 + 2 * zlen (fn_name f)) as Hb.
  { rewrite file_name_serialize_head. pose proof (pad8_len_lt (62 + 2 * length (fn_name f))).
    unfold zlen. len. rewrite length_file_name_head. lia. }
  assert (zlen (file_name_serialize f) `mod` 8 = 0) as Hm by apply pad8_bounds. split; [done|].
  pose proof (zlen_nonneg (fn_name f)). pose proof (Z.div_mod (zlen (file_name_serialize f)) 8). lia.
Qed.

Lemma file_name_roundtrip_ok f :
  file_name_ok f → 2 ≤ zlen (fn_name f) → file_name_deserialize (file_name_serialize f) = Ok f.
Proof.
  intros [Hp Ha Hl Hns Hsz Hal Hc Hac Hw Hch] H2. pose proof (file_attributes_bound (fn_file_attributes f)) as Hfa.
  pose proof (file_name_serialize_length f) as [Hm Hlen].
  unfold file_name_deserialize.
  assert (66 ≤ zlen (file_name_serialize f)) as H66.
  { rewrite file_name_serialize_head. unfold zlen in *. len. rewrite length_file_name_head. lia. }
  rewrite bool_decide_eq_false_2 by lia. rewrite file_name_serialize_head.
  set (rest := zeros _). set (tailb := [as_u8 _; namespace f] ++ widen (fn_name f) ++ rest).
  assert (nth 60 (file_name_head f ++ tailb) 0 = zlen (fn_name f)) as ->.
  { rewrite app_nth2; rewrite length_file_name_head; [|lia]. cbn. unfold as_u8. apply Z.mod_small. unfold zlen in *. lia. }
  assert (nth 61 (file_name_head f ++ tailb) 0 = namespace f) as ->.
  { rewrite app_nth2; rewrite length_file_name_head; [|lia]. done. }
  assert (narrow (file_name_head f ++ tailb) (Z.to_nat (zlen (fn_name f))) = fn_name f) as ->.
  { unfold tailb. rewrite app_assoc. unfold zlen. rewrite Nat2Z.id. apply narrow_widen; [|done].
    rewrite length_app, length_file_name_head. done. }
  unfold file_name_head. rewrite <-!app_assoc. destruct f as [p n ns fs al [t1 t2 t3 t4] fa].
  cbn [parent_directory fn_name namespace fn_file_size fn_allocated_size fn_times fn_file_attributes
       creation_time last_access_time last_write_time mft_change_time] in *.
  unfold in_u in *. f_equal. f_equal; [..|f_equal|]; fields; try (rewrite le_dec_bytes; [done|lia]).
  rewrite le_dec_bytes by lia. apply file_attributes_roundtrip.
Qed.

(** ** Attributes of a stored file *)

(** Standard-information attributes are resident and of their fixed size. *)
Definition std_ok (attrs : list Attribute) : Prop :=
  Forall (λ a, attr_type (attr_header a) = attr_code AtStandardInformation →
               ∃ c, attr_data a = Resident c ∧ length c = 72%nat) attrs.

(** Changing the content of a stored attribute without changing its length. *)
Lemma attr_ok_content a c c' :
  attr_ok a → attr_data a = Resident c → length c' = length c →
  attr_ok (mkAttr (attr_header a) (attr_name a) (Resident c')) ∧
  zlen (attr_serialize (mkAttr (attr_header a) (attr_name a) (Resident c'))) = zlen (attr_serialize a).
Proof.
  intros Ha Ed El. assert (attr_ok (mkAttr (attr_header a) (attr_name a) (Resident c'))) as Ha'.
  { destruct Ha as [Hh Hn Hr (x & Ex & Hl & Hm)]. rewrite Ed in Ex. injection Ex as <-.
    split; cbn; try done. exists c'. unfold zlen in *. rewrite El. done. }
  split; [done|]. destruct (attr_size_pos _ Ha') as [_ ->]. destruct (attr_size_pos _ Ha) as [_ ->]. done.
Qed.

Lemma update_std_info_ok f attrs :
  Forall attr_ok attrs → std_ok attrs →
  ∃ attrs', update_std_info f attrs = Ok attrs' ∧ Forall attr_ok attrs' ∧ std_ok attrs' ∧
    find_data attrs' = find_data attrs ∧ zlen (attrs_bytes attrs') = zlen (attrs_bytes attrs).
Proof.
  induction attrs as [|a attrs IH]; intros Hok Hstd; [by exists []|].
  apply Forall_cons in Hok as [Ha Hok]. apply Forall_cons in Hstd as [Hs Hstd].
  cbn [update_std_info]. case_bool_decide as Et.
  - destruct (Hs Et) as (c & Ec & Hc). rewrite Ec. unfold std_info_deserialize at 1.
    rewrite bool_decide_eq_false_2 by (unfold zlen; lia). cbn [rbind].
    set (s' := mkStdInfo _ _ _ _ _ _ _ _ _).
    destruct (attr_ok_content a c (std_info_serialize s') Ha Ec) as [Ha' Hl']; [by rewrite length_std_info|].
    eexists. split; [done|]. split_and!.
    + by constructor.
    + constructor; [|done]. intros _. exists (std_info_serialize s'). split; [done|apply length_std_info].
    + cbn [find_data attr_header attr_data]. rewrite !Et, !bool_decide_eq_false_2 by done. done.
    + rewrite !attrs_bytes_cons, !zlen_app. lia.
  - destruct (IH Hok Hstd) as (attrs' & E & Hok' & Hstd' & Hf & Hl). rewrite E. cbn [rbind].
    eexists. split; [done|]. split_and!; [by constructor|by constructor|cbn [find_data]; by rewrite Hf|].
    rewrite !attrs_bytes_cons, !zlen_app. lia.
Qed.

Lemma replace_data_ok attrs c c' :
  Forall attr_ok attrs → std_ok attrs → find_data attrs = Some (Resident c) → length c' = length c →
  Forall attr_ok (replace_data (Resident c') attrs) ∧ std_ok (replace_data (Resident c') attrs) ∧
  find_data (replace_data (Resident c') attrs) = Some (Resident c') ∧
  zlen (attrs_bytes (replace_data (Resident c') attrs)) = zlen (attrs_bytes attrs).
Proof.
  induction attrs as [|a attrs IH]; intros Hok Hstd Hf El; [done|].
  apply Forall_cons in Hok as [Ha Hok]. apply Forall_cons in Hstd as [Hs Hstd].
  cbn [replace_data find_data] in *. case_bool_decide as Et.
  - injection Hf as Ed. destruct (attr_ok_content a c c' Ha Ed El) as [Ha' Hl'].
    split_and!; [by constructor| |cbn [find_data attr_header attr_data]; by rewrite bool_decide_eq_true_2|].
    + constructor; [|done]. cbn [attr_header]. rewrite Et. done.
    + rewrite !attrs_bytes_cons, !zlen_app. lia.
  - destruct (IH Hok Hstd Hf El) as (Hok' & Hstd' & Hf' & Hl).
    split_and!; [by constructor|by constructor|cbn [find_data]; by rewrite bool_decide_eq_false_2|].
    rewrite !attrs_bytes_cons, !zlen_app. lia.
Qed.

(** A file record in stored form with this content. *)
Record file_record (r : MftRecord) (n : Z) (content : list Z) : Prop := {
  fr_ok : record_ok r;
  fr_number : record_number r = n;
  fr_std : std_ok (rec_attributes r);
  fr_data : find_data (rec_attributes r) = Some (Resident content);
}.

Lemma file_record_attrs r n c c' attrs' :
  file_record r n c → Forall attr_ok attrs' → std_ok attrs' → find_data attrs' = Some (Resident c') →
  zlen (attrs_bytes attrs') = zlen (attrs_bytes (rec_attributes r)) → file_record (rec_set_attrs attrs' r) n c'.
Proof.
  intros [[Hh Ha Hu] Hn Hs Hd] Ha' Hs' Hd' Hl. split; [|done..]. split; [done|done|].
  change (bytes_in_use (rec_header r) = 60 + zlen (attrs_bytes attrs')). by rewrite Hl.
Qed.

(** The record [create_file] builds is one. *)
Lemma new_resident_ok t data :
  zlen data < 2 ^ 16 → (length data mod 8 = 0)%nat →
  ∃ a, new_resident t data = Ok a ∧ attr_ok a ∧ attr_type (attr_header a) = attr_code t ∧
    attr_data a = Resident data ∧ get_size a = 24 + zlen data.
Proof.
  intros Hl Hm. pose proof (zlen_nonneg data). unfold new_resident, add32, as_u32. rewrite Z.mod_small by lia.
  rewrite chk_ok by lia. cbn [rbind]. eexists. split; [reflexivity|]. split_and!; try done.
  split; cbn [attr_header attr_name attr_data non_resident attr_length attr_type name_length name_offset attr_flags attribute_id]; try done.
  - split; cbn [attr_type attr_length name_length name_offset attr_flags attribute_id]; unfold in_u; try lia. destruct t; cbn; lia.
  - by exists data.
Qed.

Lemma sum_sizes_ok attrs total :
  Forall attr_ok attrs → 0 ≤ total → total + zlen (attrs_bytes attrs) < 2 ^ 32 →
  sum_sizes total attrs = Ok (total + zlen (attrs_bytes attrs)).
Proof.
  revert total. induction attrs as [|a attrs IH]; intros total Hok Ht Hlt.
  - cbn. change (zlen (attrs_bytes [])) with 0. by rewrite Z.add_0_r.
  - apply Forall_cons in Hok as [Ha Hok]. rewrite attrs_bytes_cons, zlen_app in *.
    destruct (attr_size_pos a Ha) as [Hp Hs]. pose proof (zlen_nonneg (attrs_bytes attrs)).
    cbn [sum_sizes]. unfold add32. rewrite chk_ok by lia. cbn [rbind]. rewrite IH by (done || lia).
    f_equal. lia.
Qed.

Lemma add_attribute_ok r a :
  mft_header_ok (rec_header r) → Forall attr_ok (rec_attributes r ++ [a]) →
  next_attribute_id (rec_header r) < 1000 →
  60 + zlen (attrs_bytes (rec_attributes r ++ [a])) ≤ 1024 →
  add_attribute r a =
    Ok (mkRecord (hdr_set_usage (next_attribute_id (rec_header r) + 1)
                    (60 + zlen (attrs_bytes (rec_attributes r ++ [a]))) (rec_header r))
          (rec_attributes r ++ [a]) (record_number r)).
Proof.
  intros Hh Hok Hn Hl. pose proof (mh_next _ Hh) as Hni. unfold in_u in Hni.
  pose proof (zlen_nonneg (attrs_bytes (rec_attributes r ++ [a]))).
  unfold add_attribute, add16. rewrite chk_ok by lia. cbn [rbind]. unfold update_bytes_in_use.
  cbn [rec_header rec_attributes hdr_set_usage first_attribute_offset]. rewrite (mh_first _ Hh).
  rewrite sum_sizes_ok by (done || lia). cbn [rbind]. unfold add32. rewrite chk_ok by lia. cbn [rbind].
  by replace (56 + zlen (attrs_bytes (rec_attributes r ++ [a])) + 4)
    with (60 + zlen (attrs_bytes (rec_attributes r ++ [a]))) by lia.
Qed.

Lemma hdr_set_usage_ok h id usage :
  mft_header_ok h → in_u 16 id → 0 ≤ usage ≤ 1024 → mft_header_ok (hdr_set_usage id usage h).
Proof. intros [] ? ?. by split. Qed.

Lemma attrs_bytes_snoc attrs a : zlen (attrs_bytes (attrs ++ [a])) = zlen (attrs_bytes attrs) + zlen (attr_serialize a).
Proof.
  rewrite attrs_bytes_app, attrs_bytes_cons, !zlen_app. change (zlen (attrs_bytes [])) with 0. lia.
Qed.

Lemma zlen_aligned {A} (l : list A) : zlen l `mod` 8 = 0 → (length l mod 8 = 0)%nat.
Proof. unfold zlen. change 8 with (Z.of_nat 8). rewrite <-Nat2Z.inj_mod. lia. Qed.

(** Adding a stored attribute to a record built so far. *)
Lemma add_attribute_step r a :
  mft_header_ok (rec_header r) → Forall attr_ok (rec_attributes r) → attr_ok a →
  next_attribute_id (rec_header r) < 1000 →
  60 + zlen (attrs_bytes (rec_attributes r)) + zlen (attr_serialize a) ≤ 1024 →
  ∃ r', add_attribute r a = Ok r' ∧ mft_header_ok (rec_header r') ∧
    rec_attributes r' = rec_attributes r ++ [a] ∧ record_number r' = record_number r ∧
    next_attribute_id (rec_header r') = next_attribute_id (rec_header r) + 1 ∧
    bytes_in_use (rec_header r') = 60 + zlen (attrs_bytes (rec_attributes r ++ [a])).
Proof.
  intros Hh Hok Ha Hn Hl. pose proof (mh_next _ Hh) as Hni. unfold in_u in Hni.
  pose proof (zlen_nonneg (attrs_bytes (rec_attributes r ++ [a]))).
  rewrite add_attribute_ok; [|done|forall_list|done|rewrite attrs_bytes_snoc; lia].
  eexists. split; [reflexivity|]. split_and!; try done.
  apply hdr_set_usage_ok; [done|unfold in_u; lia|rewrite attrs_bytes_snoc in *; lia].
Qed.

Abbreviation std_file_bytes := (std_info_serialize std_info_new_file).

Lemma build_file_record_ok n parent name data :
  in_u 64 n → (length data mod 8 = 0)%nat → zlen data ≤ 700 →
  zlen (file_name_serialize (file_name_new parent name false)) + zlen data ≤ 820 →
  ∃ r, build_file_record n parent name (Some data) = Ok r ∧ file_record r n data.
Proof.
  intros Hn Hal H700 Hfit. set (fnb := file_name_serialize _) in *.
  assert (zlen fnb `mod` 8 = 0) as Hfm by apply file_name_serialize_length.
  pose proof (zlen_nonneg data). pose proof (zlen_nonneg fnb).
  destruct (new_resident_ok AtStandardInformation std_file_bytes) as (a1 & E1 & Ha1 & Ht1 & Hd1 & Hs1); [by vm_compute|done|].
  destruct (new_resident_ok AtFileName fnb) as (a2 & E2 & Ha2 & Ht2 & Hd2 & Hs2); [lia|by apply zlen_aligned|].
  destruct (new_resident_ok AtData data) as (a3 & E3 & Ha3 & Ht3 & Hd3 & Hs3); [lia|done|].
  destruct (attr_size_pos a1 Ha1) as [_ L1], (attr_size_pos a2 Ha2) as [_ L2], (attr_size_pos a3 Ha3) as [_ L3].
  change (zlen std_file_bytes) with 72 in Hs1.
  set (r0 := rec_set_flags (mkRecordFlags true false false) (mft_record_new n)).
  assert (mft_header_ok (rec_header r0)) as Hh0 by (split; try done; cbn; unfold in_u; lia).
  destruct (add_attribute_step r0 a1) as (r1 & A1 & Hh1 & At1 & Hn1 & Hi1 & Hu1);
    [done|constructor|done|cbn; lia|change (zlen (attrs_bytes (rec_attributes r0))) with 0; lia|].
  assert (zlen (attrs_bytes (rec_attributes r1)) = 96) as Z1.
  { rewrite At1, attrs_bytes_snoc. change (zlen (attrs_bytes (rec_attributes r0))) with 0. lia. }
  destruct (add_attribute_step r1 a2) as (r2 & A2 & Hh2 & At2 & Hn2 & Hi2 & Hu2);
    [done|rewrite At1; forall_list|done|rewrite Hi1; cbn; lia|lia|].
  assert (zlen (attrs_bytes (rec_attributes r2)) = 120 + zlen fnb) as Z2 by (rewrite At2, attrs_bytes_snoc; lia).
  destruct (add_attribute_step r2 a3) as (r3 & A3 & Hh3 & At3 & Hn3 & Hi3 & Hu3);
    [done|rewrite At2, At1; forall_list|done|rewrite Hi2, Hi1; cbn; lia|lia|].
  exists r3. split.
  - unfold build_file_record. fold r0 fnb. rewrite E1. cbn [rbind]. rewrite A1. cbn [rbind]. rewrite E2. cbn [rbind].
    rewrite A2. cbn [rbind]. rewrite bool_decide_eq_true_2 by done. rewrite E3. exact A3.
  - assert (rec_attributes r3 = [a1; a2; a3]) as Hat by (by rewrite At3, At2, At1).
    split; [split; [done|rewrite Hat; forall_list|by rewrite Hat in *; rewrite Hu3, At2, At1]| | |].
    + by rewrite Hn3, Hn2, Hn1.
    + rewrite Hat. unfold std_ok. rewrite !Forall_cons. split_and!; [..|apply Forall_nil_2].
      * intros _. exists std_file_bytes. by split.
      * rewrite Ht2. done.
      * rewrite Ht3. done.
    + rewrite Hat. cbn [find_data]. rewrite Ht1, Ht2, Ht3. cbn. by rewrite Hd3.
Qed.

(** ** Files on the disk *)
Section file_spec.
Context {D : Type} `{SectorDevLaws D}.
Implicit Types (f : FileRecordManager) (w : World D).

(** Record [n] holds a file with this content. *)
Definition file_at w (mft : MftManager) n content : Prop :=
  ∃ r, file_record r n content ∧ stored (w_dev w) mft n = record_bytes r.

Lemma record_on_disk_only drive lba k (d d' : D) mft n :
  only_sectors drive lba k d d' → record_on_disk d mft n → record_on_disk d' mft n.
Proof. intros Ho (? & ? & ? & ?). split_and!; try done. by eapply on_drive_only. Qed.

Lemma frm_read_ok f w n r content :
  record_on_disk (w_dev w) (frm_mft f) n → file_record r n content → stored (w_dev w) (frm_mft f) n = record_bytes r →
  ∃ d', frm_read_record n (f, w) = (Ok r, (f, w_set_dev d' w)) ∧ same_disk (w_dev w) d'.
Proof.
  intros Hon Hr Hst. destruct (read_record_ok (w_dev w) (frm_mft f) n Hon) as (d' & E & Hs).
  destruct (record_roundtrip_ok r n (fr_ok _ _ _ Hr)) as (_ & _ & Ed). rewrite Hst, Ed in E.
  exists d'. split; [|done]. unfold frm_read_record, mbindM, get_self, on_world, on_dev. rewrite E.
  destruct Hr as [_ <- _ _]. by destruct r.
Qed.

Lemma frm_write_ok f w n r content :
  record_on_disk (w_dev w) (frm_mft f) n → file_record r n content →
  ∃ d', frm_write_record r (f, w) = (Ok tt, (f, w_set_dev d' w)) ∧ stored d' (frm_mft f) n = record_bytes r ∧
    (∀ m, 0 ≤ m → m ≠ n → stored d' (frm_mft f) m = stored (w_dev w) (frm_mft f) m) ∧
    only_sectors (mft_drive (frm_mft f)) (record_cluster (frm_mft f) n * 8) 8 (w_dev w) d'.
Proof.
  intros Hon Hr. destruct (record_roundtrip_ok r n (fr_ok _ _ _ Hr)) as (Es & Hl & _).
  pose proof (fr_number _ _ _ Hr) as Hn. rewrite <-Hn in *.
  destruct (write_record_ok (w_dev w) (frm_mft f) r _ Hon Es Hl) as (d' & E & Hst & Hother & Ho).
  exists d'. split; [|done]. unfold frm_write_record, mbindM, get_self, on_world, on_dev. by rewrite E.
Qed.

Lemma stored_same (d d' : D) mft n : same_disk d d' → stored d' mft n = stored d mft n.
Proof. intros Hs. unfold stored. by rewrite (sectors_at_same d d' _ _ _ Hs). Qed.

(** Reading a stored file returns its content and keeps it, and keeps every other record. *)
Lemma read_file_ok f w n content :
  record_on_disk (w_dev w) (frm_mft f) n → file_at w (frm_mft f) n content →
  ∃ d', read_file n (f, w) = (Ok content, (f, w_set_dev d' w)) ∧ file_at (w_set_dev d' w) (frm_mft f) n content ∧
    (∀ m, 0 ≤ m → m ≠ n → stored d' (frm_mft f) m = stored (w_dev w) (frm_mft f) m) ∧
    only_sectors (mft_drive (frm_mft f)) (record_cluster (frm_mft f) n * 8) 8 (w_dev w) d'.
Proof.
  intros Hon (r & Hr & Hst). destruct (frm_read_ok f w n r content Hon Hr Hst) as (d1 & E1 & Hs1).
  set (w1 := w_set_dev d1 w).
  assert (record_on_disk (w_dev w1) (frm_mft f) n) as Hon1
    by (by eapply (record_on_disk_only 0 0 0); [apply same_disk_only|]).
  assert (stored (w_dev w1) (frm_mft f) n = record_bytes r) as Hst1 by (rewrite <-Hst; by apply stored_same).
  destruct (frm_read_ok f w1 n r content Hon1 Hr Hst1) as (d2 & E2 & Hs2). set (w2 := w_set_dev d2 w1).
  destruct (update_std_info_ok update_access (rec_attributes r)) as (attrs' & Eu & Ha' & Hstd' & Hf' & Hl');
    [apply Hr|apply Hr|].
  pose proof (fr_data _ _ _ Hr) as Hd.
  assert (file_record (rec_set_attrs attrs' r) n content) as Hr'
    by (eapply file_record_attrs; [exact Hr|done|done|by rewrite Hf'|done]).
  assert (record_on_disk (w_dev w2) (frm_mft f) n) as Hon2
    by (by eapply (record_on_disk_only 0 0 0); [apply same_disk_only|]).
  destruct (frm_write_ok f w2 n _ content Hon2 Hr') as (d3 & E3 & Hst3 & Hother & Ho).
  exists d3. split_and!.
  - unfold read_file, update_access_time. unfold mbindM at 1. rewrite E1. fold w1. rewrite Hd.
    unfold mbindM, mlift. rewrite E2. fold w2. rewrite Eu, E3. done.
  - exists (rec_set_attrs attrs' r). done.
  - intros m Hm Hne. rewrite Hother by done. etransitivity; [by apply stored_same|by apply stored_same].
  - etransitivity; [apply same_disk_only; etransitivity; [exact Hs1|exact Hs2]|exact Ho].
Qed.

(** ** Journaled changes *)
Definition has_active (j : JournalManager) (id : Z) : Prop :=
  ∃ t, t ∈ active_transactions j ∧ tx_id t = id ∧ tx_state t = Active.

Lemma update_first_is_Some {A} (p : A → bool) g l x : x ∈ l → p x = true → is_Some (update_first p g l).
Proof.
  induction l as [|y l IH]; intros Hx Hp; [by apply not_elem_of_nil in Hx|]. cbn [update_first].
  destruct (p y) eqn:E; [eauto|]. apply elem_of_cons in Hx as [->|Hx]; [congruence|].
  apply fmap_is_Some. auto.
Qed.

Lemma has_active_found j id g :
  has_active j id → is_Some (update_first (is_active_tx id) g (active_transactions j)) ∧
                    is_Some (update_first (is_tx id) g (active_transactions j)).
Proof.
  intros (t & Ht & Hid & Hst). split; (eapply update_first_is_Some; [exact Ht|]); unfold is_active_tx, is_tx;
    rewrite ?Hid, ?Hst; by rewrite !bool_decide_eq_true_2.
Qed.

Lemma update_first_active id r l l' :
  update_first (is_active_tx id) (tx_add_record r) l = Some l' →
  ∃ t, t ∈ l' ∧ tx_id t = id ∧ tx_state t = Active.
Proof.
  revert l'. induction l as [|t l IH]; intros l'; [done|]. cbn [update_first].
  destruct (is_active_tx id t) eqn:E.
  - intros [= <-]. exists (tx_add_record r t). split; [by left|].
    unfold is_active_tx in E. rewrite andb_true_iff, !bool_decide_eq_true in E. destruct E as [E1 E2].
    unfold tx_add_record. by rewrite E2.
  - destruct (update_first (is_active_tx id) (tx_add_record r) l) as [l1|]; [|done]. intros [= <-].
    destruct (IH l1 eq_refl) as (x & Hx & ?). exists x. split; [by right|done].
Qed.

(** The journal of the manager is usable, with counters at most [b]. *)
Record frm_ok b f w : Prop := {
  fo_disk : journal_on_disk (frm_journal f) w;
  fo_inv : journal_inv (frm_journal f);
  fo_counters : counters_below b (frm_journal f) w;
  fo_bound : b < 2 ^ 62;
  fo_size : 5 ≤ jm_size_sectors (frm_journal f);
}.

(** What a journal call keeps of the manager and of the world. *)
Record journal_kept b f w f' w' : Prop := {
  jk_ok : frm_ok (b + 1) f' w';
  jk_mft : frm_mft f' = frm_mft f;
  jk_area : same_area (frm_journal f) (frm_journal f');
  jk_record : w_next_record w' = w_next_record w;
  jk_disk : only_sectors (jm_drive (frm_journal f)) (jm_start_sector (frm_journal f))
              (jm_size_sectors (frm_journal f) + 1) (w_dev w) (w_dev w');
}.

Lemma step_kept b f w j' w' :
  frm_ok b f w → b + 1 < 2 ^ 62 → journal_step_ok b (frm_journal f) w j' w' → w_next_record w' = w_next_record w →
  journal_kept b f w (mkFRM (frm_mft f) j') w'.
Proof.
  intros [Hd Hi Hc Hb Hs] Hb1 (Hd' & Hi' & Hc' & (A1 & A2 & A3) & Ho) Hr. split; try done.
  split; cbn; try done. by rewrite A3.
Qed.

Lemma journal_begin b f w :
  frm_ok b f w → b + 1 < 2 ^ 62 →
  ∃ f', on_journal begin_transaction (f, w) = (Ok (next_transaction_id (frm_journal f)), (f', w)) ∧
    journal_kept b f w f' w ∧ has_active (frm_journal f') (next_transaction_id (frm_journal f)).
Proof.
  intros Hok Hb. pose proof Hok as [Hd Hi Hc _ Hs].
  destruct (begin_transaction_step b (frm_journal f) w Hd Hi Hc) as (j' & E & Hstep); [lia|].
  exists (mkFRM (frm_mft f) j'). split; [unfold on_journal; by rewrite E|]. split; [by apply step_kept|].
  unfold begin_transaction, mbindM, get_self, mlift, add64, set_self in E.
  destruct (chk 64 (next_transaction_id (frm_journal f) + 1)) as [v| | |]; try done. injection E as <-.
  eexists. split; [cbn; apply elem_of_app; right; by apply list_elem_of_singleton|]. done.
Qed.

Lemma journal_log b f w id op n undo redo :
  frm_ok b f w → b + 1 < 2 ^ 62 → has_active (frm_journal f) id → zlen undo + zlen redo ≤ 2048 →
  ∃ f' w', on_journal (log_operation id op n undo redo) (f, w) = (Ok tt, (f', w')) ∧
    journal_kept b f w f' w' ∧ has_active (frm_journal f') id.
Proof.
  intros Hok Hb Ha Hl. pose proof Hok as [Hd Hi Hc _ Hs]. set (j := frm_journal f) in *.
  set (txs r := default [] (update_first (is_active_tx id) (tx_add_record r) (active_transactions j))).
  assert (∀ r, update_first (is_active_tx id) (tx_add_record r) (active_transactions j) = Some (txs r)) as Htxs.
  { intros r. unfold txs. by destruct (has_active_found j id (tx_add_record r) Ha) as [[l ->] _]. }
  pose proof Hc as (? & ? & ?).
  destruct (log_operation_ok j w id op n undo redo txs) as (r & d' & E & _ & _ & Hq & Ho & _); try done; try lia.
  eexists (mkFRM (frm_mft f) _), _. split; [unfold on_journal; fold j; rewrite E; reflexivity|]. split.
  - apply step_kept; try done. fold j. apply (journal_step_dev b j w (is_active_tx id) (tx_add_record r)); try done.
    + apply tx_add_record_id.
    + intros t. apply tx_add_record_seq. lia.
  - destruct (update_first_active id r _ _ (Htxs r)) as (t & Ht & Hidst). by exists t.
Qed.

Lemma journal_commit b f w id :
  frm_ok b f w → b + 1 < 2 ^ 62 → has_active (frm_journal f) id →
  ∃ f' w', on_journal (commit_transaction id) (f, w) = (Ok tt, (f', w')) ∧ journal_kept b f w f' w'.
Proof.
  intros Hok Hb Ha. pose proof Hok as [Hd Hi Hc _ Hs]. set (j := frm_journal f) in *.
  destruct (has_active_found j id tx_commit Ha) as [_ [txs Eu]]. pose proof Hc as (? & ? & ?).
  destruct (end_transaction_ok tx_commit COMMIT j w id txs) as (d' & E & Ho & _); try done; try lia.
  eexists (mkFRM (frm_mft f) _), _. split; [unfold on_journal, commit_transaction; fold j; rewrite E; reflexivity|].
  apply step_kept; try done. fold j. by apply (journal_step_dev b j w (is_tx id) tx_commit).
Qed.

(** The cluster of record [n] is not part of what journal calls write. *)
Definition apart f n : Prop :=
  mft_drive (frm_mft f) ≠ jm_drive (frm_journal f) ∨
  record_cluster (frm_mft f) n * 8 + 8 ≤ jm_start_sector (frm_journal f) ∨
  jm_start_sector (frm_journal f) + jm_size_sectors (frm_journal f) + 1 ≤ record_cluster (frm_mft f) n * 8.

Lemma journal_kept_stored b f w f' w' n :
  journal_kept b f w f' w' → apart f n → stored (w_dev w') (frm_mft f) n = stored (w_dev w) (frm_mft f) n.
Proof.
  intros Hk Ha. unfold stored. f_equal. apply (sectors_at_other _ _ _ _ _ _ _ _ (jk_disk _ _ _ _ _ Hk)).
  destruct Ha as [Ha|Ha]; [by left|right]. lia.
Qed.

Lemma journal_kept_apart b f w f' w' n : journal_kept b f w f' w' → apart f n → apart f' n.
Proof. intros [_ Hm (A1 & A2 & A3) _ _]. unfold apart. by rewrite Hm, A1, A2, A3. Qed.

Lemma journal_kept_on_disk b f w f' w' n :
  journal_kept b f w f' w' → record_on_disk (w_dev w) (frm_mft f) n → record_on_disk (w_dev w') (frm_mft f') n.
Proof. intros Hk Hon. rewrite (jk_mft _ _ _ _ _ Hk). eapply record_on_disk_only; [apply Hk|done]. Qed.

(** Sectors that journal calls, and writes of record [n], do not touch. *)
Definition outside_journal f dr a : Prop :=
  dr ≠ jm_drive (frm_journal f) ∨ a < jm_start_sector (frm_journal f) ∨
  jm_start_sector (frm_journal f) + jm_size_sectors (frm_journal f) + 1 ≤ a.
Definition outside_record f n dr a : Prop :=
  dr ≠ mft_drive (frm_mft f) ∨ a < record_cluster (frm_mft f) n * 8 ∨ record_cluster (frm_mft f) n * 8 + 8 ≤ a.

(** What an operation on file [n] keeps: the geometry, every other record, and the rest of the disk. *)
Record file_kept f w f' w' n : Prop := {
  fk_mft : frm_mft f' = frm_mft f;
  fk_area : same_area (frm_journal f) (frm_journal f');
  fk_capacity : ∀ dr, capacity (w_dev w') dr = capacity (w_dev w) dr;
  fk_others : ∀ m, 0 ≤ m → m ≠ n → apart f m → stored (w_dev w') (frm_mft f) m = stored (w_dev w) (frm_mft f) m;
  fk_outside : ∀ dr a, outside_journal f dr a → outside_record f n dr a → sector (w_dev w') dr a = sector (w_dev w) dr a;
}.

Lemma file_kept_trans f w f1 w1 f2 w2 n :
  file_kept f w f1 w1 n → file_kept f1 w1 f2 w2 n → file_kept f w f2 w2 n.
Proof.
  intros [M1 (A1 & A2 & A3) C1 O1 S1] [M2 (B1 & B2 & B3) C2 O2 S2]. rewrite M1 in *. split.
  - done.
  - split_and!; congruence.
  - intros dr. by rewrite C2, C1.
  - intros m Hm Hne Ha. rewrite O2, O1; try done. unfold apart in *. by rewrite M1, A1, A2, A3.
  - intros dr a Hj Hr. rewrite S2, S1; try done; [unfold outside_journal in *|unfold outside_record in *];
      by rewrite ?M1, ?A1, ?A2, ?A3.
Qed.

Lemma journal_kept_file b f w f' w' n : journal_kept b f w f' w' → file_kept f w f' w' n.
Proof.
  intros Hk. split; try apply Hk.
  - intros m _ _ Ha. by eapply journal_kept_stored.
  - intros dr a Hj _. apply (jk_disk _ _ _ _ _ Hk). unfold outside_journal in Hj. lia.
Qed.

Lemma frm_ok_dev b f w d' drive lba k :
  only_sectors drive lba k (w_dev w) d' → frm_ok b f w → frm_ok b f (w_set_dev d' w).
Proof.
  intros Ho [[Hsz Hd] Hi Hc Hb Hs]. split; try done. split; [done|]. cbn. by eapply on_drive_only.
Qed.

(** Log the new record, write it, commit. *)
Lemma journaled_write b f w id op n undo r content :
  frm_ok b f w → b + 2 < 2 ^ 62 → has_active (frm_journal f) id → record_on_disk (w_dev w) (frm_mft f) n →
  apart f n → file_record r n content → zlen undo ≤ 1024 →
  ∃ f' w', (let! _ := on_journal (log_operation id op n undo (record_bytes r)) in
            let! _ := frm_write_record r in on_journal (commit_transaction id)) (f, w) = (Ok tt, (f', w')) ∧
    frm_ok (b + 2) f' w' ∧ file_at w' (frm_mft f) n content ∧ file_kept f w f' w' n ∧ w_next_record w' = w_next_record w.
Proof.
  intros Hok Hb Ha Hon Hap Hr Hu.
  destruct (record_roundtrip_ok r n (fr_ok _ _ _ Hr)) as (_ & Hl & _).
  destruct (journal_log b f w id op n undo (record_bytes r) Hok) as (f1 & w1 & E1 & Hk1 & Ha1);
    [lia|done|unfold zlen in *; lia|].
  pose proof (journal_kept_on_disk _ _ _ _ _ _ Hk1 Hon) as Hon1.
  destruct (frm_write_ok f1 w1 n r content Hon1 Hr) as (d2 & E2 & Hst2 & Hother2 & Ho2).
  set (w2 := w_set_dev d2 w1) in *.
  assert (frm_ok (b + 1) f1 w2) as Hok2 by (eapply frm_ok_dev; [exact Ho2|apply Hk1]).
  destruct (journal_commit (b + 1) f1 w2 id Hok2) as (f3 & w3 & E3 & Hk3); [lia|done|].
  pose proof (journal_kept_apart _ _ _ _ _ _ Hk1 Hap) as Hap1.
  exists f3, w3. split_and!.
  - unfold mbindM. by rewrite E1, E2, E3.
  - replace (b + 2) with (b + 1 + 1) by lia. apply Hk3.
  - exists r. split; [done|]. rewrite <-(jk_mft _ _ _ _ _ Hk1).
    by rewrite (journal_kept_stored _ _ _ _ _ _ Hk3 Hap1).
  - eapply file_kept_trans; [by eapply journal_kept_file|]. eapply file_kept_trans; [|by eapply journal_kept_file].
    split; try done; [apply Ho2|intros m Hm Hne _; by apply Hother2|intros dr a _ Hr'; by apply Ho2].
  - rewrite (jk_record _ _ _ _ _ Hk3). apply (jk_record _ _ _ _ _ Hk1).
Qed.

Lemma file_kept_on_disk f w f' w' n m :
  file_kept f w f' w' n → record_on_disk (w_dev w) (frm_mft f) m → record_on_disk (w_dev w') (frm_mft f') m.
Proof.
  intros [M _ C _ _] (? & ? & ? & ? & ? & c & ? & ?). rewrite M. split_and!; try done.
  split_and!; try lia. exists c. by rewrite C.
Qed.

Lemma create_file_ok b f w parent name data :
  frm_ok b f w → b + 3 < 2 ^ 62 → 0 ≤ w_next_record w < 2 ^ 63 →
  record_on_disk (w_dev w) (frm_mft f) (w_next_record w) → apart f (w_next_record w) →
  (length data mod 8 = 0)%nat → zlen data ≤ 700 →
  zlen (file_name_serialize (file_name_new parent name false)) + zlen data ≤ 820 →
  ∃ f' w', create_file parent name (Some data) (f, w) = (Ok (w_next_record w), (f', w')) ∧
    frm_ok (b + 3) f' w' ∧ file_at w' (frm_mft f) (w_next_record w) data ∧
    file_kept f w f' w' (w_next_record w) ∧ w_next_record w' = w_next_record w + 1.
Proof.
  intros Hok Hb Hn Hon Hap Hal H700 Hfit. set (n := w_next_record w) in *.
  destruct (journal_begin b f w Hok) as (f1 & E1 & Hk1 & Ha1); [lia|].
  set (id := next_transaction_id (frm_journal f)) in *.
  set (w1 := mkWorld (w_dev w) (n + 1) (w_next_vcn w) (w_counter w)).
  destruct (build_file_record_ok n parent name data) as (r & Eb & Hr); [unfold in_u; lia|done|done|done|].
  destruct (record_roundtrip_ok r n (fr_ok _ _ _ Hr)) as (Es & _ & _).
  assert (frm_ok (b + 1) f1 w1) as Hok1 by (destruct (jk_ok _ _ _ _ _ Hk1) as [[? ?] ? ? ? ?]; by split).
  destruct (journaled_write (b + 1) f1 w1 id CreateFile n [] r data Hok1) as (f2 & w2 & E2 & Hok2 & Hfile & Hkept & Hnr).
  - lia.
  - done.
  - by apply (journal_kept_on_disk _ _ _ _ _ _ Hk1).
  - by apply (journal_kept_apart _ _ _ _ _ _ Hk1).
  - done.
  - by vm_compute.
  - exists f2, w2. split_and!.
    + unfold create_file. unfold mbindM at 1. rewrite E1. unfold mbindM at 1, on_world at 1, allocate_record at 1, add64.
      rewrite chk_ok by lia. fold n. fold w1. unfold mbindM at 1, mlift at 1. rewrite Eb.
      unfold mbindM in E2 |- *. unfold mlift. rewrite Es.
      destruct (on_journal (log_operation id CreateFile n [] (record_bytes r)) (f1, w1)) as [[[]| | |] [f3 w3]]; try done.
      destruct (frm_write_record r (f3, w3)) as [[[]| | |] [f4 w4]]; try done.
      destruct (on_journal (commit_transaction id) (f4, w4)) as [[[]| | |] [f5 w5]]; try done.
      by injection E2 as <- <-.
    + replace (b + 3) with (b + 1 + 2) by lia. done.
    + by rewrite <-(jk_mft _ _ _ _ _ Hk1).
    + eapply file_kept_trans; [by apply (journal_kept_file b f w f1 w)|]. destruct Hkept. by split.
    + rewrite Hnr. done.
Qed.

(** The start of [write_file] and [delete_file]: a new transaction, the record read. *)
Lemma begin_and_read b f w n content :
  frm_ok b f w → b + 1 < 2 ^ 62 → record_on_disk (w_dev w) (frm_mft f) n → apart f n →
  file_at w (frm_mft f) n content →
  ∃ id f1 w1 r, on_journal begin_transaction (f, w) = (Ok id, (f1, w)) ∧
    frm_read_record n (f1, w) = (Ok r, (f1, w1)) ∧ file_record r n content ∧
    record_serialize r = Ok (record_bytes r) ∧ zlen (record_bytes r) = 1024 ∧
    frm_ok (b + 1) f1 w1 ∧ has_active (frm_journal f1) id ∧ frm_mft f1 = frm_mft f ∧
    record_on_disk (w_dev w1) (frm_mft f1) n ∧ apart f1 n ∧ file_kept f w f1 w1 n.
Proof.
  intros Hok Hb Hon Hap (r & Hr & Hst).
  destruct (journal_begin b f w Hok) as (f1 & E1 & Hk1 & Ha1); [lia|].
  pose proof (jk_mft _ _ _ _ _ Hk1) as HM. rewrite <-HM in Hst.
  pose proof (journal_kept_on_disk _ _ _ _ _ _ Hk1 Hon) as Hon1.
  destruct (frm_read_ok f1 w n r content Hon1 Hr Hst) as (d2 & E2 & Hs2).
  destruct (record_roundtrip_ok r n (fr_ok _ _ _ Hr)) as (Es & Hl & _).
  eexists _, f1, (w_set_dev d2 w), r. split_and!; [exact E1|exact E2|done|done|unfold zlen; lia| |done|done| | |].
  - eapply (frm_ok_dev _ _ _ _ 0 0 0); [by apply same_disk_only|apply Hk1].
  - eapply (record_on_disk_only 0 0 0); [by apply same_disk_only|done].
  - by apply (journal_kept_apart _ _ _ _ _ _ Hk1).
  - eapply file_kept_trans; [by apply (journal_kept_file b f w f1 w)|].
    split; try done; [apply Hs2|intros m _ _ _; by apply stored_same|intros dr a _ _; apply Hs2].
Qed.

Lemma write_file_ok b f w n content data :
  frm_ok b f w → b + 3 < 2 ^ 62 → record_on_disk (w_dev w) (frm_mft f) n → apart f n →
  file_at w (frm_mft f) n content → length data = length content → zlen data ≤ 700 →
  ∃ f' w', write_file n data (f, w) = (Ok tt, (f', w')) ∧ frm_ok (b + 3) f' w' ∧
    file_at w' (frm_mft f) n data ∧ file_kept f w f' w' n.
Proof.
  intros Hok Hb Hon Hap Hf Hlen H700.
  destruct (begin_and_read b f w n content Hok) as (id & f1 & w1 & r & E1 & E2 & Hr & Es & Hl & Hok1 & Ha1 & HM & Hon1 & Hap1 & Hk1);
    [lia|done..|].
  destruct (replace_data_ok (rec_attributes r) content data) as (Ra & Rs & Rd & Rl); [apply Hr|apply Hr|apply Hr|done|].
  destruct (update_std_info_ok update_write _ Ra Rs) as (attrs' & Eu & Ua & Us & Ud & Ul).
  set (r' := rec_set_attrs attrs' r).
  assert (file_record r' n data) as Hr' by (eapply file_record_attrs; [exact Hr|done|done|by rewrite Ud|by rewrite Ul]).
  destruct (record_roundtrip_ok r' n (fr_ok _ _ _ Hr')) as (Es' & _ & _).
  destruct (journaled_write (b + 1) f1 w1 id WriteData n (record_bytes r) r' data Hok1) as (f3 & w3 & E3 & Hok3 & Hfile & Hkept & _);
    [lia|done|done|done|done|lia|].
  exists f3, w3. split_and!.
  - unfold write_file. unfold mbindM at 1. rewrite E1. unfold mbindM at 1. rewrite E2.
    unfold mbindM at 1, mlift at 1. rewrite Es. unfold mbindM at 1, mlift at 1, new_content.
    rewrite bool_decide_eq_true_2 by done. unfold mbindM at 1, mlift at 1, update_write_time.
    cbn [rec_attributes rec_set_attrs]. rewrite Eu. cbn [rbind].
    change (rec_set_attrs attrs' (rec_set_attrs _ r)) with r'. unfold mbindM at 1, mlift at 1. rewrite Es'. exact E3.
  - replace (b + 3) with (b + 1 + 2) by lia. done.
  - by rewrite <-HM.
  - by eapply file_kept_trans.
Qed.

Lemma set_flags_record r n content fl :
  file_record r n content → file_record (rec_set_flags fl r) n content.
Proof.
  intros [[[] Ha Hu] Hn Hs Hd]. split; try done. split; [|done|done]. split; try done. cbn.
  destruct fl as [[] [] []]; by vm_compute.
Qed.

Lemma delete_file_ok b f w n content :
  frm_ok b f w → b + 3 < 2 ^ 62 → record_on_disk (w_dev w) (frm_mft f) n → apart f n →
  file_at w (frm_mft f) n content →
  ∃ f' w', delete_file n (f, w) = (Ok tt, (f', w')) ∧ frm_ok (b + 3) f' w' ∧
    file_at w' (frm_mft f) n content ∧ file_kept f w f' w' n.
Proof.
  intros Hok Hb Hon Hap Hf.
  destruct (begin_and_read b f w n content Hok) as (id & f1 & w1 & r & E1 & E2 & Hr & Es & Hl & Hok1 & Ha1 & HM & Hon1 & Hap1 & Hk1);
    [lia|done..|].
  set (fl := mkRecordFlags false (is_directory (get_flags (rec_header r))) (has_view_index (get_flags (rec_header r)))).
  pose proof (set_flags_record r n content fl Hr) as Hr'.
  destruct (record_roundtrip_ok _ n (fr_ok _ _ _ Hr')) as (Es' & _ & _).
  destruct (journaled_write (b + 1) f1 w1 id DeleteFile n (record_bytes r) (rec_set_flags fl r) content Hok1)
    as (f3 & w3 & E3 & Hok3 & Hfile & Hkept & _); [lia|done|done|done|done|lia|].
  exists f3, w3. split_and!.
  - unfold delete_file. unfold mbindM at 1. rewrite E1. unfold mbindM at 1. rewrite E2.
    unfold mbindM at 1, mlift at 1. rewrite Es. cbv zeta. fold fl.
    unfold mbindM at 1, mlift at 1. rewrite Es'. exact E3.
  - replace (b + 3) with (b + 1 + 2) by lia. done.
  - by rewrite <-HM.
  - by eapply file_kept_trans.
Qed.

(** Reading the same file [k] times. *)
Fixpoint read_times (k : nat) (n : Z) : M (FileRecordManager * World D) FilesystemError (list (list Z)) :=
  match k with
  | O => mok []
  | S k => let! x := read_file n in let! xs := read_times k n in mok (x :: xs)
  end.

Lemma read_times_ok k : ∀ f w n content,
  record_on_disk (w_dev w) (frm_mft f) n → file_at w (frm_mft f) n content →
  ∃ d', read_times k n (f, w) = (Ok (replicate k content), (f, w_set_dev d' w)) ∧
    file_at (w_set_dev d' w) (frm_mft f) n content.
Proof.
  induction k as [|k IH]; intros f w n content Hon Hf.
  - exists (w_dev w). split; [by destruct w|]. by destruct w.
  - destruct (read_file_ok f w n content Hon Hf) as (d1 & E1 & Hf1 & _ & Ho).
    destruct (IH f (w_set_dev d1 w) n content) as (d' & E & Hf'); [by eapply record_on_disk_only|done|].
    exists d'. split; [|done]. cbn [read_times replicate]. unfold mbindM. by rewrite E1, E.
Qed.
End file_spec.

(** ** Properties *)

Definition demo_frm : FileRecordManager := mkFRM (mkMft 0 1 4096) (journal_manager_new 0 100 64).
Definition demo_world : World RamDisk := boot_world (mkRam {[0 := 400]} ∅).

Lemma demo_frm_ok : frm_ok 100 demo_frm demo_world.
Proof.
  split; try (cbn; lia).
  - split; [cbn; lia|]. do 2 (split; [cbn; lia|]). exists 400. split; [by vm_compute|cbn; lia].
  - split; cbn; constructor.
  - unfold counters_below. cbn. lia.
Qed.

Lemma demo_record_on_disk : record_on_disk (w_dev demo_world) (frm_mft demo_frm) 16.
Proof. do 5 (split; [by vm_compute|]). exists 400. by vm_compute. Qed.

Lemma demo_apart : apart demo_frm 16.
Proof. right. left. by vm_compute. Qed.

(** C13: a created file reads back. When the content is a multiple of eight bytes and the record has room,
    [create_file] succeeds and returns the next record number; reading that record any number of times
    returns the content each time. *)
Theorem create_then_read {D} `{SectorDevLaws D} b f (w : World D) parent name data k :
  frm_ok b f w → b + 3 < 2 ^ 62 → 0 ≤ w_next_record w < 2 ^ 63 →
  record_on_disk (w_dev w) (frm_mft f) (w_next_record w) → apart f (w_next_record w) →
  (length data mod 8 = 0)%nat → zlen data ≤ 700 →
  zlen (file_name_serialize (file_name_new parent name false)) + zlen data ≤ 820 →
  ∃ f1 w1 w2, create_file parent name (Some data) (f, w) = (Ok (w_next_record w), (f1, w1)) ∧
    read_times k (w_next_record w) (f1, w1) = (Ok (replicate k data), (f1, w2)) ∧
    w_next_record w1 = w_next_record w + 1 ∧
    ∀ m, 0 ≤ m → m ≠ w_next_record w → apart f m → stored (w_dev w1) (frm_mft f) m = stored (w_dev w) (frm_mft f) m.
Proof.
  intros Hok Hb Hn Hon Hap Hal H700 Hfit.
  destruct (create_file_ok b f w parent name data Hok Hb Hn Hon Hap Hal H700 Hfit) as (f1 & w1 & E1 & Hok1 & Hf1 & Hk & Hnr).
  rewrite <-(fk_mft _ _ _ _ _ Hk) in Hf1.
  destruct (read_times_ok k f1 w1 (w_next_record w) data) as (d' & E2 & _); [by eapply file_kept_on_disk|done|].
  eexists f1, w1, _. split; [exact E1|]. split; [exact E2|]. split; [done|]. apply Hk.
Qed.

Lemma create_then_read_witness :
  ∃ f1 w1 w2, create_file 5 [97; 46; 116; 120; 116] (Some [1; 2; 3; 4; 5; 6; 7; 8]) (demo_frm, demo_world) = (Ok 16, (f1, w1)) ∧
    read_times 3 16 (f1, w1) = (Ok (replicate 3 [1; 2; 3; 4; 5; 6; 7; 8]), (f1, w2)).
Proof.
  destruct (create_then_read 100 demo_frm demo_world 5 [97; 46; 116; 120; 116] [1; 2; 3; 4; 5; 6; 7; 8] 3)
    as (f1 & w1 & w2 & E1 & E2 & _); [apply demo_frm_ok|lia|cbn; lia|apply demo_record_on_disk|apply demo_apart|done|by vm_compute|by vm_compute|].
  exists f1, w1, w2. split; [exact E1|exact E2].
Defined.

(** Rewriting a file with content of the same length works: [write_file] succeeds, the file then reads
    as the new content, and no other record outside the journal changes. *)
Theorem write_then_read {D} `{SectorDevLaws D} b f (w : World D) n content data k :
  frm_ok b f w → b + 3 < 2 ^ 62 → record_on_disk (w_dev w) (frm_mft f) n → apart f n →
  file_at w (frm_mft f) n content → length data = length content → zlen data ≤ 700 →
  ∃ f1 w1 w2, write_file n data (f, w) = (Ok tt, (f1, w1)) ∧
    read_times k n (f1, w1) = (Ok (replicate k data), (f1, w2)) ∧
    ∀ m, 0 ≤ m → m ≠ n → apart f m → stored (w_dev w1) (frm_mft f) m = stored (w_dev w) (frm_mft f) m.
Proof.
  intros Hok Hb Hon Hap Hf Hl H700.
  destruct (write_file_ok b f w n content data Hok Hb Hon Hap Hf Hl H700) as (f1 & w1 & E1 & Hok1 & Hf1 & Hk).
  rewrite <-(fk_mft _ _ _ _ _ Hk) in Hf1.
  destruct (read_times_ok k f1 w1 n data) as (d' & E2 & _); [by eapply file_kept_on_disk|done|].
  eexists f1, w1, _. split; [exact E1|]. split; [exact E2|]. apply Hk.
Qed.

Definition demo_file_record : MftRecord :=
  match build_file_record 16 5 [97; 46; 116; 120; 116] (Some [1; 2; 3; 4; 5; 6; 7; 8]) with
  | Ok r => r
  | _ => mft_record_new 16
  end.

Definition demo_file_world : World RamDisk :=
  w_set_dev (write_record (mkMft 0 1 4096) demo_file_record (w_dev demo_world)).2 demo_world.

Lemma demo_file_at : file_at demo_file_world (frm_mft demo_frm) 16 [1; 2; 3; 4; 5; 6; 7; 8].
Proof.
  exists demo_file_record. split; [|by vm_compute].
  destruct (build_file_record_ok 16 5 [97; 46; 116; 120; 116] [1; 2; 3; 4; 5; 6; 7; 8]) as (r & E & Hr);
    [unfold in_u; lia|done|by vm_compute|by vm_compute|].
  unfold demo_file_record. by rewrite E.
Qed.

Lemma demo_file_frm_ok : frm_ok 100 demo_frm demo_file_world.
Proof.
  split; try (cbn; lia).
  - split; [cbn; lia|]. do 2 (split; [cbn; lia|]). exists 400. split; [by vm_compute|cbn; lia].
  - split; cbn; constructor.
  - unfold counters_below. cbn. lia.
Qed.

Lemma demo_file_on_disk : record_on_disk (w_dev demo_file_world) (frm_mft demo_frm) 16.
Proof. do 5 (split; [by vm_compute|]). exists 400. by vm_compute. Qed.

Lemma write_then_read_witness :
  ∃ f1 w1 w2, write_file 16 [9; 9; 9; 9; 9; 9; 9; 9] (demo_frm, demo_file_world) = (Ok tt, (f1, w1)) ∧
    read_times 2 16 (f1, w1) = (Ok (replicate 2 [9; 9; 9; 9; 9; 9; 9; 9]), (f1, w2)).
Proof.
  destruct (write_then_read 100 demo_frm demo_file_world 16 [1; 2; 3; 4; 5; 6; 7; 8] [9; 9; 9; 9; 9; 9; 9; 9] 2)
    as (f1 & w1 & w2 & E1 & E2 & _);
    [apply demo_file_frm_ok|lia|apply demo_file_on_disk|apply demo_apart|apply demo_file_at|done|by vm_compute|].
  exists f1, w1, w2. split; [exact E1|exact E2].
Defined.

(** A deleted file can still be read. [delete_file] succeeds and clears the in-use flag, but reading
    does not look at it: the content is returned as before. *)
Theorem deleted_file_still_reads {D} `{SectorDevLaws D} b f (w : World D) n content :
  frm_ok b f w → b + 3 < 2 ^ 62 → record_on_disk (w_dev w) (frm_mft f) n → apart f n →
  file_at w (frm_mft f) n content →
  ∃ f1 w1 w2, delete_file n (f, w) = (Ok tt, (f1, w1)) ∧ read_file n (f1, w1) = (Ok content, (f1, w2)).
Proof.
  intros Hok Hb Hon Hap Hf.
  destruct (delete_file_ok b f w n content Hok Hb Hon Hap Hf) as (f1 & w1 & E1 & Hok1 & Hf1 & Hk).
  rewrite <-(fk_mft _ _ _ _ _ Hk) in Hf1.
  destruct (read_file_ok f1 w1 n content) as (d' & E2 & _); [by eapply file_kept_on_disk|done|].
  eexists f1, w1, _. split; [exact E1|exact E2].
Qed.

Lemma deleted_file_still_reads_witness :
  ∃ f1 w1 w2, delete_file 16 (demo_frm, demo_file_world) = (Ok tt, (f1, w1)) ∧
    read_file 16 (f1, w1) = (Ok [1; 2; 3; 4; 5; 6; 7; 8], (f1, w2)).
Proof.
  apply (deleted_file_still_reads 100 demo_frm demo_file_world 16 [1; 2; 3; 4; 5; 6; 7; 8]);
    [apply demo_file_frm_ok|lia|apply demo_file_on_disk|apply demo_apart|apply demo_file_at].
Defined.

(** Reading a small file twice hangs. On an empty volume, a file of four bytes is created and read
    once with its content; the second read never returns. *)
Theorem second_read_hangs :
  ∃ f1 w1 f2 w2, create_file 5 [97] (Some [1; 2; 3; 4]) (demo_frm, demo_world) = (Ok 16, (f1, w1)) ∧
    read_file 16 (f1, w1) = (Ok [1; 2; 3; 4], (f2, w2)) ∧ (read_file 16 (f2, w2)).1 = Hang.
Proof.
  assert (let '(r1, s1) := create_file 5 [97] (Some [1; 2; 3; 4]) (demo_frm, demo_world) in
          let '(r2, s2) := read_file 16 s1 in (r1, r2, (read_file 16 s2).1) = (Ok 16, Ok [1; 2; 3; 4], Hang)) as Hrun by (by vm_compute).
  destruct (create_file 5 [97] (Some [1; 2; 3; 4]) (demo_frm, demo_world)) as [r1 [f1 w1]].
  destruct (read_file 16 (f1, w1)) as [r2 [f2 w2]] eqn:E2.
  injection Hrun as -> -> E3. exists f1, w1, f2, w2. rewrite E2. split; [reflexivity|]. split; [reflexivity|exact E3].
Qed.

(** Growing a file loses the volume's record. [write_file] stores longer content without updating the
    attribute's length, so the reader takes the end of the content for an attribute: after a file of
    eight bytes is rewritten with sixteen zero bytes, reading it never returns. *)
Theorem grown_file_hangs :
  ∃ f1 w1 f2 w2, create_file 5 [97] (Some (zeros 8)) (demo_frm, demo_world) = (Ok 16, (f1, w1)) ∧
    write_file 16 (zeros 16) (f1, w1) = (Ok tt, (f2, w2)) ∧ (read_file 16 (f2, w2)).1 = Hang.
Proof.
  assert (let '(r1, s1) := create_file 5 [97] (Some (zeros 8)) (demo_frm, demo_world) in
          let '(r2, s2) := write_file 16 (zeros 16) s1 in (r1, r2, (read_file 16 s2).1) = (Ok 16, Ok tt, Hang)) as Hrun by (by vm_compute).
  destruct (create_file 5 [97] (Some (zeros 8)) (demo_frm, demo_world)) as [r1 [f1 w1]].
  destruct (write_file 16 (zeros 16) (f1, w1)) as [r2 [f2 w2]] eqn:E2.
  injection Hrun as -> -> E3. exists f1, w1, f2, w2. rewrite E2. split; [reflexivity|]. split; [reflexivity|exact E3].
Qed.

(** File metadata survive their byte format: standard information always, and a file name of two or
    more ASCII characters with its parent, sizes, times and attributes. *)
Theorem metadata_roundtrip s fn :
  std_info_ok s → file_name_ok fn → 2 ≤ zlen (fn_name fn) →
  std_info_deserialize (std_info_serialize s) = Ok s ∧ file_name_deserialize (file_name_serialize fn) = Ok fn.
Proof. intros. split; [by apply std_info_roundtrip_ok|by apply file_name_roundtrip_ok]. Qed.

Lemma metadata_roundtrip_witness :
  std_info_deserialize (std_info_serialize std_info_new_file) = Ok std_info_new_file ∧
  file_name_deserialize (file_name_serialize (file_name_new 5 [97; 98] false)) = Ok (file_name_new 5 [97; 98] false).
Proof.
  apply metadata_roundtrip.
  - split; by vm_compute.
  - split; try (by vm_compute). cbn. forall_list; lia.
  - by vm_compute.
Defined.
