(* ===== verification/Btree.v ===== *)
(** * The directory index of galleon2 ([crates/galleon2/src/btree.rs])

    Index entries, index nodes with their byte formats, and the B+ tree
    manager. On nodes in memory, insertion, removal, lookup and splitting
    implement a finite map; the byte format of entries does not round trip, and
    what follows for a directory on disk is stated exactly. *)

From S2P Require Import Prelude Utf8 Device Runs Mft Journal FileRecord.

(** [Ord for str]: bytewise, a proper prefix is smaller. *)
Fixpoint key_cmp (a b : list Z) : comparison :=
  match a, b with
  | [], [] => Eq
  | [], _ :: _ => Lt
  | _ :: _, [] => Gt
  | x :: a, y :: b => match x ?= y with Eq => key_cmp a b | c => c end
  end.
Definition key_gtb (a b : list Z) : bool := match key_cmp a b with Gt => true | _ => false end.
Definition key_leb (a b : list Z) : bool := negb (key_gtb a b).

(** ** Index entries *)
Definition INDEX_NODE_SIZE : Z := 4096.
Definition INDEX_ENTRY_HEADER_SIZE : Z := 16.

(** [IndexEntryFlags] *)
Record IndexEntryFlags := mkEntryFlags {
  has_sub_node : bool;
  is_last_entry : bool;
}.

Definition entry_flags_new : IndexEntryFlags := mkEntryFlags false false.
Definition entry_flags_to_u8 (f : IndexEntryFlags) : Z :=
  flag_if (is_last_entry f) 2 (flag_if (has_sub_node f) 1 0).
Definition entry_flags_from_u8 (v : Z) : IndexEntryFlags := mkEntryFlags (has_bit v 1) (has_bit v 2).

(** [IndexEntry] *)
Record IndexEntry := mkEntry {
  entry_record : Z;
  entry_length : Z;
  key_length : Z;
  entry_flags : IndexEntryFlags;
  entry_name : option FileName;
  sub_node_vcn : option Z;
  entry_key : list Z;
}.

Definition entry_new_leaf (n : Z) (name : FileName) : fsres IndexEntry :=
  let key := fn_name name in
  let key_len := as_u16 (zlen key) in
  let? l := add16 INDEX_ENTRY_HEADER_SIZE key_len in
  let? l := add16 l (as_u16 (zlen (file_name_serialize name))) in
  Ok (mkEntry n l key_len entry_flags_new (Some name) None key).

Definition entry_new_internal (key : list Z) (vcn : Z) : fsres IndexEntry :=
  let key_len := as_u16 (zlen key) in
  let? l := add16 INDEX_ENTRY_HEADER_SIZE key_len in
  let? l := add16 l 8 in
  Ok (mkEntry 0 l key_len (mkEntryFlags true false) None (Some vcn) key).

Definition entry_new_end_marker : IndexEntry :=
  mkEntry 0 INDEX_ENTRY_HEADER_SIZE 0 (mkEntryFlags false true) None None [].

Definition entry_header_bytes (e : IndexEntry) : list Z :=
  le_bytes 8 (entry_record e) ++ le_bytes 2 (entry_length e) ++ le_bytes 2 (key_length e) ++
  [entry_flags_to_u8 (entry_flags e); 0].

Definition entry_serialize (e : IndexEntry) : list Z :=
  pad8 (entry_header_bytes e ++ entry_key e ++
        (match entry_name e with Some name => file_name_serialize name | None => [] end) ++
        (match sub_node_vcn e with Some vcn => le_bytes 8 vcn | None => [] end)).

Definition entry_deserialize (data : list Z) : fsres (IndexEntry * Z) :=
  if bool_decide (zlen data < INDEX_ENTRY_HEADER_SIZE) then Err InvalidParameter else
  let file_record_number := le_dec (field 0 8 data) in
  let len := le_dec (field 8 2 data) in
  let key_len := le_dec (field 10 2 data) in
  let flags := entry_flags_from_u8 (nth 12 data 0) in
  if bool_decide (zlen data < len) then Err InvalidParameter else
  let? key_bytes := slice INDEX_ENTRY_HEADER_SIZE (INDEX_ENTRY_HEADER_SIZE + key_len) data in
  let key := from_utf8_lossy key_bytes in
  let offset := INDEX_ENTRY_HEADER_SIZE + key_len in
  let? (name, vcn) :=
    if has_sub_node flags then
      if bool_decide (offset + 8 ≤ len) then
        let? bytes := slice offset (offset + 8) data in
        Ok (None, Some (le_dec bytes))
      else Ok (None, None)
    else if negb (is_last_entry flags) then
      if bool_decide (offset < len) then
        let? bytes := slice offset len data in
        match file_name_deserialize bytes with
        | Ok name => Ok (Some name, None)
        | Err _ => Ok (None, None)
        | Panic => Panic
        | Hang => Hang
        end
      else Ok (None, None)
    else Ok (None, None) in
  Ok (mkEntry file_record_number len key_len flags name vcn key, len).

(** ** Index nodes *)

(** [IndexHeader] *)
Record IndexHeader := mkIndexHeader {
  ih_signature : list Z;
  entries_offset : Z;
  index_length : Z;
  allocated_size : Z;
  ih_flags : Z;
  ih_sequence_number : Z;
}.

Definition INDX : list Z := [73; 78; 68; 88].
Definition index_header_new_leaf : IndexHeader := mkIndexHeader INDX 32 32 INDEX_NODE_SIZE 0 1.
Definition index_header_new_internal : IndexHeader := mkIndexHeader INDX 32 32 INDEX_NODE_SIZE 1 1.

Definition index_header_serialize (h : IndexHeader) : list Z :=
  put 17 (le_bytes 2 (ih_sequence_number h))
    (put 16 [ih_flags h]
       (put 12 (le_bytes 4 (allocated_size h))
          (put 8 (le_bytes 4 (index_length h))
             (put 4 (le_bytes 4 (entries_offset h))
                (put 0 (ih_signature h) (zeros 32)))))).

Definition index_header_deserialize (data : list Z) : fsres IndexHeader :=
  if bool_decide (zlen data < 32) then Err InvalidParameter else
  if bool_decide (field 0 4 data = INDX) then
    Ok (mkIndexHeader (field 0 4 data) (le_dec (field 4 4 data)) (le_dec (field 8 4 data))
          (le_dec (field 12 4 data)) (nth 16 data 0) (le_dec (field 17 2 data)))
  else Err InvalidParameter.

Definition is_leaf (h : IndexHeader) : bool := ih_flags h =? 0.

(** [IndexNode] *)
Record IndexNode := mkNode {
  node_header : IndexHeader;
  node_entries : list IndexEntry;
  node_vcn : Z;
}.

Definition node_new_leaf (vcn : Z) : IndexNode := mkNode index_header_new_leaf [entry_new_end_marker] vcn.
Definition node_new_internal (vcn : Z) : IndexNode :=
  mkNode index_header_new_internal [entry_new_end_marker] vcn.

Definition sum_entry_lengths (es : list IndexEntry) : Z := foldr (λ e n, entry_length e + n) 0 es.
Definition calculate_size (n : IndexNode) : Z :=
  entries_offset (node_header n) + sum_entry_lengths (node_entries n).
Definition is_full (n : IndexNode) : bool := INDEX_NODE_SIZE - 512 <? calculate_size n.
Definition is_underflow (n : IndexNode) : bool := calculate_size n <? INDEX_NODE_SIZE / 4.

Definition update_header (n : IndexNode) : IndexNode :=
  let h := node_header n in
  mkNode (mkIndexHeader (ih_signature h) (entries_offset h) (as_u32 (calculate_size n))
            (allocated_size h) (ih_flags h) (ih_sequence_number h))
    (node_entries n) (node_vcn n).

Definition set_entries (es : list IndexEntry) (n : IndexNode) : IndexNode :=
  mkNode (node_header n) es (node_vcn n).

(** [entries.insert(i, x)] for [i <= len] *)
Definition insert_at {A} (i : nat) (x : A) (l : list A) : list A := take i l ++ x :: drop i l.

Definition insert_entry (entry : IndexEntry) (n : IndexNode) : IndexNode :=
  let es := node_entries n in
  let pos := default (length es)
               (find_index (λ e, is_last_entry (entry_flags e) || key_gtb (entry_key e) (entry_key entry)) es) in
  update_header (set_entries (insert_at pos entry es) n).

Definition remove_entry (key : list Z) (n : IndexNode) : option IndexEntry * IndexNode :=
  let es := node_entries n in
  match find_index (λ e, bool_decide (entry_key e = key)) es with
  | Some pos => (es !! pos, update_header (set_entries (take pos es ++ drop (S pos) es) n))
  | None => (None, n)
  end.

Definition find_entry (key : list Z) (n : IndexNode) : option IndexEntry :=
  let es := node_entries n in
  find_index (λ e, bool_decide (entry_key e = key) && negb (is_last_entry (entry_flags e))) es ≫= (es !!.).

(** [entries.insert(entries.len() - 1, entry)] *)
Definition insert_before_last (e : IndexEntry) (es : list IndexEntry) : fsres (list IndexEntry) :=
  let? i := chk 64 (zlen es - 1) in Ok (insert_at (Z.to_nat i) e es).

Fixpoint append_moved (moved es : list IndexEntry) : fsres (list IndexEntry) :=
  match moved with
  | [] => Ok es
  | e :: moved => let? es' := insert_before_last e es in append_moved moved es'
  end.

(** Returns the node that keeps the first half and the new node. *)
Definition node_split (n : IndexNode) : fsres (IndexNode * IndexNode) :=
  let es := node_entries n in
  let mid := (length es / 2)%nat in
  let? new_vcn := add64 (node_vcn n) 1 in
  let new_node := if is_leaf (node_header n) then node_new_leaf new_vcn else node_new_internal new_vcn in
  let? end_pos := chk 64 (zlen es - 1) in
  let end_pos := Z.to_nat end_pos in
  if bool_decide (mid < end_pos)%nat then
    let moved := field mid (end_pos - mid) es in
    let? moved_es := append_moved moved (node_entries new_node) in
    Ok (update_header (set_entries (take mid es ++ drop end_pos es) n),
        update_header (set_entries moved_es new_node))
  else Ok (update_header n, update_header new_node).

(** An entry that does not fit is left out. *)
Fixpoint put_entries (es : list IndexEntry) (offset : Z) (data : list Z) : list Z :=
  match es with
  | [] => data
  | e :: es =>
      let bytes := entry_serialize e in
      if bool_decide (offset + zlen bytes ≤ INDEX_NODE_SIZE)
      then put_entries es (offset + zlen bytes) (put (Z.to_nat offset) bytes data)
      else put_entries es offset data
  end.

Definition node_serialize (n : IndexNode) : list Z :=
  put_entries (node_entries n) (entries_offset (node_header n))
    (put 0 (index_header_serialize (node_header n)) (zeros (Z.to_nat INDEX_NODE_SIZE))).

(** The entry loop of [deserialize]; an entry of length 0 is read again for ever. *)
Fixpoint parse_entries (fuel : nat) (data : list Z) (limit offset : Z) (acc : list IndexEntry) :
    fsres (list IndexEntry) :=
  match fuel with
  | O => Hang
  | S fuel =>
      if bool_decide (offset < limit) then
        let? rest := slice offset (zlen data) data in
        let? (e, size) := entry_deserialize rest in
        if is_last_entry (entry_flags e) then Ok (acc ++ [e])
        else parse_entries fuel data limit (offset + size) (acc ++ [e])
      else Ok acc
  end.

(** An offset behind the node's 4096 bytes ends the loop with a panic, and every
    other iteration that advances takes at least one byte. *)
Definition node_fuel : nat := Z.to_nat 4100.

Definition node_deserialize (data : list Z) (vcn : Z) : fsres IndexNode :=
  if bool_decide (zlen data < INDEX_NODE_SIZE) then Err InvalidParameter else
  let? h := index_header_deserialize data in
  let? es := parse_entries node_fuel data (index_length h) (entries_offset h) [] in
  Ok (mkNode h es vcn).

(** ** The tree manager *)
Record BTreeManager := mkBTree {
  bt_drive : Z;
  root_vcn : Z;
  index_start : Z;
  bt_cluster_size : Z;
}.

(** The child an internal node sends a key to. *)
Fixpoint find_child (key : list Z) (es : list IndexEntry) : option Z :=
  match es with
  | [] => None
  | e :: es =>
      if is_last_entry (entry_flags e) then sub_node_vcn e
      else if key_leb key (entry_key e) then
        match sub_node_vcn e with Some vcn => Some vcn | None => find_child key es end
      else find_child key es
  end.

(** [delete_recursive] goes on past a last entry without a child. *)
Fixpoint delete_child (key : list Z) (es : list IndexEntry) : option Z :=
  match es with
  | [] => None
  | e :: es =>
      if is_last_entry (entry_flags e) || key_leb key (entry_key e) then
        match sub_node_vcn e with Some vcn => Some vcn | None => delete_child key es end
      else delete_child key es
  end.

Definition leaf_listing (es : list IndexEntry) : list (list Z * Z) :=
  (λ e, (entry_key e, entry_record e)) <$>
    filter (λ e, is_last_entry (entry_flags e) = false) es.

Section tree.
Context {D : Type} `{SectorDev D}.

Definition node_sector (bt : BTreeManager) (vcn : Z) : fsres Z :=
  let? cluster_num := add64 (index_start bt) vcn in
  mul64 cluster_num (bt_cluster_size bt / 512).

Definition read_node (bt : BTreeManager) (vcn : Z) : M D FilesystemError IndexNode :=
  let! sector_start := mlift (node_sector bt vcn) in
  let! data := ide_read_sectors (bt_drive bt) (as_u8 (INDEX_NODE_SIZE / 512)) (as_u32 sector_start)
                 (zeros (Z.to_nat INDEX_NODE_SIZE)) in
  mlift (node_deserialize data vcn).

Definition write_node (bt : BTreeManager) (n : IndexNode) : M D FilesystemError unit :=
  let! sector_start := mlift (node_sector bt (node_vcn n)) in
  ide_write_sectors (bt_drive bt) (as_u8 (INDEX_NODE_SIZE / 512)) (as_u32 sector_start) (node_serialize n).

(** The walks down the tree take [depth] nodes at most; a walk that needs more
    than any number does not return. *)
Fixpoint search_from (depth : nat) (bt : BTreeManager) (key : list Z) (vcn : Z) :
    M D FilesystemError (option Z) :=
  match depth with
  | O => mlift Hang
  | S depth =>
      let! node := read_node bt vcn in
      if is_leaf (node_header node) then mok (entry_record <$> find_entry key node)
      else match find_child key (node_entries node) with
           | Some child => search_from depth bt key child
           | None => mok None
           end
  end.

Definition search (depth : nat) (bt : BTreeManager) (key : list Z) : M D FilesystemError (option Z) :=
  search_from depth bt key (root_vcn bt).

Fixpoint insert_recursive (depth : nat) (bt : BTreeManager) (vcn : Z) (key : list Z) (n : Z) (name : FileName) :
    M D FilesystemError unit :=
  match depth with
  | O => mlift Hang
  | S depth =>
      let! node := read_node bt vcn in
      if is_leaf (node_header node) then
        let! entry := mlift (entry_new_leaf n name) in
        write_node bt (insert_entry entry node)
      else match find_child key (node_entries node) with
           | Some child =>
               let! _ := insert_recursive depth bt child key n name in
               let! _ := read_node bt child in
               mok tt
           | None => mok tt
           end
  end.

Definition allocate_vcn : M (World D) FilesystemError Z := λ w,
  match add64 (w_next_vcn w) 1 with
  | Ok n => (Ok (w_next_vcn w), mkWorld (w_dev w) (w_next_record w) n (w_counter w))
  | r => (r, w)
  end.

Definition first_key (n : IndexNode) : fsres (list Z) :=
  match node_entries n with e :: _ => Ok (entry_key e) | [] => Panic end.

Definition split_root : M (BTreeManager * World D) FilesystemError unit :=
  let! bt := get_self in
  let! old_root := on_world (on_dev (read_node bt (root_vcn bt))) in
  let! new_root_vcn := on_world allocate_vcn in
  let! (old_node, new_node) := mlift (node_split old_root) in
  let! new_node_vcn := on_world allocate_vcn in
  let! left_key := mlift (first_key old_node) in
  let! left_entry := mlift (entry_new_internal left_key (node_vcn old_node)) in
  let! right_key := mlift (first_key new_node) in
  let! right_entry := mlift (entry_new_internal right_key new_node_vcn) in
  let new_root := insert_entry right_entry (insert_entry left_entry (node_new_internal new_root_vcn)) in
  let! _ := on_world (on_dev (write_node bt old_node)) in
  let! _ := on_world (on_dev (write_node bt new_node)) in
  let! _ := on_world (on_dev (write_node bt new_root)) in
  set_self (mkBTree (bt_drive bt) new_root_vcn (index_start bt) (bt_cluster_size bt)).

Definition bt_insert (depth : nat) (key : list Z) (n : Z) (name : FileName) :
    M (BTreeManager * World D) FilesystemError unit :=
  let! bt := get_self in
  let! root := on_world (on_dev (read_node bt (root_vcn bt))) in
  let! _ := if is_full root then split_root else mok tt in
  let! bt := get_self in
  on_world (on_dev (insert_recursive depth bt (root_vcn bt) key n name)).

Fixpoint list_recursive (depth : nat) (bt : BTreeManager) (vcn : Z) :
    M D FilesystemError (list (list Z * Z)) :=
  match depth with
  | O => mlift Hang
  | S depth =>
      let! node := read_node bt vcn in
      if is_leaf (node_header node) then mok (leaf_listing (node_entries node))
      else
        (fix children (es : list IndexEntry) : M D FilesystemError (list (list Z * Z)) :=
           match es with
           | [] => mok []
           | e :: es =>
               let! here := match sub_node_vcn e with
                            | Some child => list_recursive depth bt child
                            | None => mok []
                            end in
               let! rest := children es in
               mok (here ++ rest)
           end) (node_entries node)
  end.

Definition list_directory (depth : nat) (bt : BTreeManager) : M D FilesystemError (list (list Z * Z)) :=
  list_recursive depth bt (root_vcn bt).

Fixpoint delete_recursive (depth : nat) (bt : BTreeManager) (vcn : Z) (key : list Z) :
    M D FilesystemError bool :=
  match depth with
  | O => mlift Hang
  | S depth =>
      let! node := read_node bt vcn in
      if is_leaf (node_header node) then
        match remove_entry key node with
        | (Some _, node) => let! _ := write_node bt node in mok true
        | (None, _) => mok false
        end
      else match delete_child key (node_entries node) with
           | Some child => delete_recursive depth bt child key
           | None => mok false
           end
  end.

Definition bt_delete (depth : nat) (bt : BTreeManager) (key : list Z) : M D FilesystemError bool :=
  delete_recursive depth bt (root_vcn bt) key.
End tree.

(** ** The order on keys *)
Definition key_lt (a b : list Z) : Prop := key_cmp a b = Lt.

Lemma key_cmp_refl a : key_cmp a a = Eq.
Proof. induction a as [|x a IH]; [done|]. cbn. by rewrite Z.compare_refl. Qed.

Lemma key_cmp_eq a : ∀ b, key_cmp a b = Eq → a = b.
Proof.
  induction a as [|x a IH]; intros [|y b]; try done. cbn.
  destruct (Z.compare_spec x y); try done. intros E. f_equal; auto.
Qed.

Lemma key_cmp_opp a : ∀ b, key_cmp b a = CompOpp (key_cmp a b).
Proof.
  induction a as [|x a IH]; intros [|y b]; try done. cbn.
  rewrite (Z.compare_antisym x y). destruct (x ?= y); cbn; auto.
Qed.

#[export] Instance key_lt_trans : Transitive key_lt.
Proof.
  unfold key_lt. intros a. induction a as [|x a IH]; [by intros [|y b] [|z c]|].
  intros [|y b] [|z c]; try done. cbn.
  destruct (Z.compare_spec x y), (Z.compare_spec y z), (Z.compare_spec x z); try done; try lia. apply IH.
Qed.

Lemma key_lt_irrefl a : ¬ key_lt a a.
Proof. unfold key_lt. by rewrite key_cmp_refl. Qed.

Lemma key_gtb_lt a b : key_gtb a b = true ↔ key_lt b a.
Proof. unfold key_gtb, key_lt. rewrite (key_cmp_opp a b). by destruct (key_cmp a b). Qed.

Lemma key_not_gtb a b : key_gtb a b = false → a ≠ b → key_lt a b.
Proof.
  unfold key_gtb, key_lt. intros Hg Hne. destruct (key_cmp a b) eqn:E; try done.
  by apply key_cmp_eq in E.
Qed.

(** ** Nodes implement maps *)
Definition entry_plain (e : IndexEntry) : Prop := is_last_entry (entry_flags e) = false ∧ entry_key e ≠ [].
Definition entry_lt (e e' : IndexEntry) : Prop := key_lt (entry_key e) (entry_key e').
Definition node_map (es : list IndexEntry) : gmap (list Z) IndexEntry :=
  list_to_map ((λ e, (entry_key e, e)) <$> es).

(** A node in memory that stands for a map: entries with increasing keys, then the end marker. *)
Definition node_ok (n : IndexNode) (m : gmap (list Z) IndexEntry) : Prop :=
  ∃ es, node_entries n = es ++ [entry_new_end_marker] ∧ StronglySorted entry_lt es ∧
        Forall entry_plain es ∧ m = node_map es.

Lemma find_index_app {A} (f : A → bool) l x r :
  Forall (λ y, f y = false) l → f x = true → find_index f (l ++ x :: r) = Some (length l).
Proof.
  induction 1 as [|y l Hy _ IH]; intros Hx; cbn; [by rewrite Hx|]. by rewrite Hy, IH.
Qed.

Lemma find_index_none {A} (f : A → bool) l : Forall (λ y, f y = false) l → find_index f l = None.
Proof. induction 1 as [|y l Hy _ IH]; [done|]. cbn. by rewrite Hy, IH. Qed.

Lemma keys_nodup es : StronglySorted entry_lt es → NoDup (entry_key <$> es).
Proof.
  induction 1 as [|e es _ IH Hall]; [constructor|]. rewrite fmap_cons. constructor; [|done].
  rewrite list_elem_of_fmap. intros (e' & E & Hin). rewrite Forall_forall in Hall.
  specialize (Hall e' Hin). unfold entry_lt in Hall. rewrite E in Hall. by apply key_lt_irrefl in Hall.
Qed.

Lemma fst_pairs es : ((λ e, (entry_key e, e)) <$> es).*1 = entry_key <$> es.
Proof. rewrite <-list_fmap_compose. done. Qed.

Lemma node_map_lookup es e :
  StronglySorted entry_lt es → e ∈ es → node_map es !! entry_key e = Some e.
Proof.
  intros Hs Hin. apply elem_of_list_to_map_1.
  - rewrite fst_pairs. by apply keys_nodup.
  - apply list_elem_of_fmap. by exists e.
Qed.

Lemma node_map_lookup_none es k : Forall (λ e, entry_key e ≠ k) es ↔ node_map es !! k = None.
Proof.
  unfold node_map. rewrite <-not_elem_of_list_to_map, fst_pairs, list_elem_of_fmap, Forall_forall.
  split; [intros Hall (e & -> & He); by eapply Hall|intros Hno e He <-; apply Hno; by exists e].
Qed.

Lemma node_map_app l r : node_map (l ++ r) = node_map l ∪ node_map r.
Proof. unfold node_map. by rewrite fmap_app, list_to_map_app. Qed.

Lemma node_map_insert l e r :
  node_map l !! entry_key e = None → node_map (l ++ e :: r) = <[entry_key e := e]> (node_map (l ++ r)).
Proof.
  intros Hl. rewrite !node_map_app. change (node_map (e :: r)) with (<[entry_key e := e]> (node_map r)).
  by rewrite insert_union_r.
Qed.

(** Where a sorted list of entries is cut for a key. *)
Lemma sorted_cut es k :
  StronglySorted entry_lt es →
  ∃ l r, es = l ++ r ∧ Forall (λ e, key_gtb (entry_key e) k = false) l ∧ Forall (λ e, key_lt k (entry_key e)) r.
Proof.
  induction 1 as [|e es Hs (l & r & -> & Hl & Hr) Hall]; [by exists [], []|].
  destruct (key_gtb (entry_key e) k) eqn:E.
  - exists [], (e :: l ++ r). split; [done|]. split; [constructor|]. apply key_gtb_lt in E. constructor; [done|].
    eapply Forall_impl; [exact Hall|]. intros e' He'. by etrans.
  - exists (e :: l), r. split; [done|]. split; [by constructor|done].
Qed.

Lemma insert_entry_cut n l r k entry :
  node_entries n = (l ++ r) ++ [entry_new_end_marker] → entry_key entry = k →
  Forall entry_plain l → Forall (λ e, key_gtb (entry_key e) k = false) l → Forall (λ e, key_lt k (entry_key e)) r →
  node_entries (insert_entry entry n) = (l ++ entry :: r) ++ [entry_new_end_marker].
Proof.
  intros E Hk Hp Hl Hr. unfold insert_entry, update_header, set_entries. cbn [node_entries]. rewrite E, <-app_assoc.
  destruct (r ++ [entry_new_end_marker]) as [|e0 r0] eqn:Er; [by destruct r|].
  rewrite find_index_app; cbn [from_option id].
  - unfold insert_at. rewrite take_app_length, drop_app_length, <-Er, <-app_assoc. done.
  - rewrite Hk. apply Forall_forall. intros e He. rewrite Forall_forall in Hp, Hl.
    by rewrite (proj1 (Hp e He)), (Hl e He).
  - rewrite Hk. destruct r as [|e r]; cbn in Er; injection Er as <- <-; [done|].
    apply Forall_cons in Hr as [Hr _]. apply key_gtb_lt in Hr. rewrite Hr. apply orb_true_r.
Qed.

Lemma insert_entry_ok n m entry :
  node_ok n m → entry_plain entry → m !! entry_key entry = None →
  node_ok (insert_entry entry n) (<[entry_key entry := entry]> m).
Proof.
  intros (es & E & Hs & Hp & ->) Hent Hnew.
  destruct (sorted_cut es (entry_key entry) Hs) as (l & r & -> & Hl & Hr).
  apply Forall_app in Hp as [Hpl Hpr]. apply StronglySorted_app in Hs as (Hlr & Hsl & Hsr).
  pose proof Hnew as Hne. rewrite <-node_map_lookup_none in Hne. apply Forall_app in Hne as [Hnl Hnr].
  exists (l ++ entry :: r). split; [by eapply insert_entry_cut|].
  assert (∀ e, e ∈ l → entry_lt e entry) as Hlt.
  { intros e He. rewrite Forall_forall in Hl, Hnl. apply key_not_gtb; auto. }
  split; [|split].
  - apply StronglySorted_app_2; [|done|by constructor].
    intros e1 e2 H1 H2. apply elem_of_cons in H2 as [->|H2]; auto.
  - apply Forall_app. split; [done|]. by constructor.
  - symmetry. apply node_map_insert. by apply node_map_lookup_none.
Qed.

Lemma append_moved_ok moved m : ∀ es,
  zlen es + zlen moved < 2 ^ 63 → append_moved moved (es ++ [m]) = Ok (es ++ moved ++ [m]).
Proof.
  induction moved as [|e moved IH]; intros es Hl; [done|]. cbn [append_moved]. unfold insert_before_last.
  unfold zlen in *. cbn [length] in Hl. rewrite length_app. cbn [length].
  rewrite chk_ok by lia. cbn [rbind]. replace (Z.to_nat _) with (length es) by lia.
  unfold insert_at. rewrite take_app_length, drop_app_length.
  change (e :: [m]) with ([e] ++ [m]). rewrite app_assoc, IH; [by rewrite <-app_assoc|]. len.
Qed.

(** The two halves, and where they are cut. *)
Lemma node_split_ok n es :
  node_entries n = es ++ [entry_new_end_marker] → 0 ≤ node_vcn n < 2 ^ 64 - 1 → zlen es < 2 ^ 62 →
  ∃ l r, node_split n = Ok (l, r) ∧
    node_entries l = take (S (length es) / 2) es ++ [entry_new_end_marker] ∧
    node_entries r = drop (S (length es) / 2) es ++ [entry_new_end_marker] ∧
    node_vcn l = node_vcn n ∧ node_vcn r = node_vcn n + 1 ∧
    ih_flags (node_header l) = ih_flags (node_header n) ∧
    is_leaf (node_header r) = is_leaf (node_header n) ∧
    index_length (node_header l) = as_u32 (calculate_size l) ∧
    index_length (node_header r) = as_u32 (calculate_size r).
Proof.
  intros E Hv Hl. unfold node_split. rewrite E. unfold add64. rewrite chk_ok by lia. cbn [rbind].
  unfold zlen in *. rewrite length_app. cbn [length]. rewrite chk_ok by lia. cbn [rbind].
  replace (Z.to_nat _) with (length es) by lia. rewrite (Nat.add_comm (length es) 1). cbn [Nat.add].
  set (mid := (S (length es) / 2)%nat). assert (mid ≤ S (length es))%nat by (apply Nat.Div0.div_le_upper_bound; lia).
  assert (2 * mid ≤ S (length es))%nat by (apply Nat.Div0.mul_div_le).
  assert (S (length es) < 2 * S mid)%nat by (apply Nat.mul_succ_div_gt; lia).
  set (new := if is_leaf (node_header n) then _ else _).
  assert (node_entries new = [entry_new_end_marker] ∧ node_vcn new = node_vcn n + 1 ∧
          is_leaf (node_header new) = is_leaf (node_header n)) as (En & Evn & Eln).
  { unfold new. by destruct (is_leaf (node_header n)) eqn:El. }
  case_bool_decide as Hm.
  - rewrite En. unfold field.
    rewrite (append_moved_ok _ entry_new_end_marker []) by (unfold zlen; len). cbn [rbind app].
    eexists _, _. split; [reflexivity|]. unfold update_header, set_entries. cbn [node_entries node_vcn node_header ih_flags].
    rewrite take_app_le, drop_app_length by lia.
    rewrite drop_app_le by len. rewrite take_app_le by len. rewrite (take_ge (drop mid es)) by len. auto 10.
  - eexists _, _. split; [reflexivity|]. unfold update_header. cbn [node_entries node_vcn node_header ih_flags].
    rewrite take_ge, drop_ge by lia. auto 10.
Qed.

(** ** Operations on a node, and what they mean *)
Inductive NodeOp :=
  | NInsert (e : IndexEntry)
  | NRemove (key : list Z)
  | NFind (key : list Z).

Definition node_step (op : NodeOp) (n : IndexNode) : option IndexEntry * IndexNode :=
  match op with
  | NInsert e => (None, insert_entry e n)
  | NRemove key => remove_entry key n
  | NFind key => (find_entry key n, n)
  end.

Fixpoint node_run (ops : list NodeOp) (n : IndexNode) : list (option IndexEntry) * IndexNode :=
  match ops with
  | [] => ([], n)
  | op :: ops => let '(o, n) := node_step op n in let '(os, n) := node_run ops n in (o :: os, n)
  end.

(** A node stands for a queue of entries per name, and for an end marker, which has the empty name: a removal of the
    empty name takes it when no entry has that name. *)
Record NodeSpec := mkNodeSpec { queues : gmap (list Z) (list IndexEntry); marked : bool }.

Definition queue (q : NodeSpec) (k : list Z) : list IndexEntry := default [] (queues q !! k).

Definition spec_step (op : NodeOp) (q : NodeSpec) : option IndexEntry * NodeSpec :=
  match op with
  | NInsert e => (None, mkNodeSpec (<[entry_key e := queue q (entry_key e) ++ [e]]> (queues q)) (marked q))
  | NRemove k =>
      match queue q k with
      | e :: r => (Some e, mkNodeSpec (<[k := r]> (queues q)) (marked q))
      | [] => if marked q && bool_decide (k = []) then (Some entry_new_end_marker, mkNodeSpec (queues q) false) else (None, q)
      end
  | NFind k => (head (queue q k), q)
  end.

Fixpoint spec_run (ops : list NodeOp) (q : NodeSpec) : list (option IndexEntry) * NodeSpec :=
  match ops with
  | [] => ([], q)
  | op :: ops => let '(o, q) := spec_step op q in let '(os, q) := spec_run ops q in (o :: os, q)
  end.

(** No end marker is inserted by hand. *)
Definition nop_ok (op : NodeOp) : Prop := match op with NInsert e => is_last_entry (entry_flags e) = false | _ => True end.

Definition entry_le (e e' : IndexEntry) : Prop := key_gtb (entry_key e) (entry_key e') = false.
Definition marker (q : NodeSpec) : list IndexEntry := if marked q then [entry_new_end_marker] else [].

Definition node_stands (n : IndexNode) (q : NodeSpec) : Prop :=
  ∃ es, node_entries n = es ++ marker q ∧ StronglySorted entry_le es ∧
        Forall (λ e, is_last_entry (entry_flags e) = false) es ∧ ∀ k, queue q k = filter (λ e, entry_key e = k) es.

Lemma entry_le_gt e e' k : entry_le e e' → key_gtb (entry_key e) k = true → key_gtb (entry_key e') k = true.
Proof.
  unfold entry_le. intros Hle Hk. destruct (decide (entry_key e = entry_key e')) as [<-|Hne]; [done|].
  apply key_gtb_lt in Hk. apply key_not_gtb in Hle; [|done]. apply key_gtb_lt. by etrans.
Qed.

Lemma sorted_le_cut es k :
  StronglySorted entry_le es →
  ∃ l r, es = l ++ r ∧ Forall (λ e, key_gtb (entry_key e) k = false) l ∧ Forall (λ e, key_gtb (entry_key e) k = true) r.
Proof.
  induction 1 as [|e es Hs (l & r & -> & Hl & Hr) Hall]; [by exists [], []|].
  destruct (key_gtb (entry_key e) k) eqn:E.
  - exists [], (e :: l ++ r). split; [done|]. split; [constructor|]. constructor; [done|].
    eapply Forall_impl; [exact Hall|]. intros e' He'. by eapply entry_le_gt.
  - exists (e :: l), r. split; [done|]. split; [by constructor|done].
Qed.

(** The first entry of a name. *)
Lemma filter_key_split k es e r : filter (λ e, entry_key e = k) es = e :: r →
  ∃ l m, es = l ++ e :: m ∧ entry_key e = k ∧ Forall (λ e, entry_key e ≠ k) l ∧ filter (λ e, entry_key e = k) m = r.
Proof.
  induction es as [|x es IH]; [done|]. rewrite filter_cons. destruct (decide (entry_key x = k)) as [Hx|Hx].
  - intros [= -> <-]. exists [], es. repeat split; [done|constructor].
  - intros E. destruct (IH E) as (l & m & -> & Hk & Hl & Hm). exists (x :: l), m. repeat split; [done|by constructor|done].
Qed.

Lemma filter_key_none k es : filter (λ e, entry_key e = k) es = [] ↔ Forall (λ e, entry_key e ≠ k) es.
Proof.
  split.
  - intros E. apply Forall_forall. intros e He Hk. assert (e ∈ filter (λ e, entry_key e = k) es) as Hin by (by apply list_elem_of_filter).
    rewrite E in Hin. by apply not_elem_of_nil in Hin.
  - induction 1 as [|e es He _ IH]; [done|]. by rewrite filter_cons, decide_False.
Qed.

Lemma queue_insert q k l b k' : queue (mkNodeSpec (<[k := l]> (queues q)) b) k' = if decide (k' = k) then l else queue q k'.
Proof. unfold queue. cbn. destruct (decide (k' = k)) as [->|]; [by rewrite lookup_insert_eq|by rewrite lookup_insert_ne]. Qed.

Lemma insert_entry_stands n q e : node_stands n q → is_last_entry (entry_flags e) = false →
  node_stands (insert_entry e n) (spec_step (NInsert e) q).2.
Proof.
  intros (es & E & Hs & Hp & Hq) He. destruct (sorted_le_cut es (entry_key e) Hs) as (l & r & -> & Hl & Hr).
  apply StronglySorted_app in Hs as (Hlr & Hsl & Hsr). pose proof Hp as [Hpl Hpr]%Forall_app.
  exists (l ++ e :: r). split; [|split; [|split]].
  - unfold insert_entry, update_header, set_entries. cbn [node_entries]. rewrite E, <-app_assoc. set (f := λ x, _ || _).
    assert (Forall (λ x, f x = false) l) as Hfl.
    { rewrite Forall_forall in *. intros x Hx. unfold f. by rewrite Hpl, Hl. }
    assert (insert_at (length l) e (l ++ r ++ marker q) = (l ++ e :: r) ++ marker q) as Hins.
    { unfold insert_at. rewrite take_app_length, drop_app_length, <-app_assoc. done. }
    destruct (r ++ marker q) as [|x t] eqn:Et.
    + rewrite app_nil_r in *. rewrite find_index_none by done. cbn [from_option]. exact Hins.
    + rewrite find_index_app; [exact Hins|done|]. unfold f. destruct r as [|y r].
      * unfold marker in Et. destruct (marked q); [|done]. by injection Et as <- _.
      * injection Et as <- _. apply Forall_cons in Hr as [-> _]. apply orb_true_r.
  - apply StronglySorted_app_2; [|done|constructor; [done|]].
    + intros e1 e2 H1 [->|H2]%elem_of_cons; [|by apply Hlr]. rewrite Forall_forall in Hl. by apply Hl.
    + eapply Forall_impl; [exact Hr|]. intros x Hx. cbn in Hx. unfold entry_le. apply key_gtb_lt in Hx. unfold key_gtb. unfold key_lt in Hx. by rewrite Hx.
  - apply Forall_app. split; [done|by constructor].
  - intros k. cbn [spec_step snd]. rewrite queue_insert, filter_app, filter_cons. destruct (decide (k = entry_key e)) as [->|Hne].
    + rewrite decide_True by done. rewrite Hq, filter_app.
      assert (filter (λ x, entry_key x = entry_key e) r = []) as ->; [|by rewrite app_nil_r].
      apply filter_key_none. eapply Forall_impl; [exact Hr|]. intros x Hx Hk. cbn in Hx. rewrite Hk in Hx.
      apply key_gtb_lt in Hx. by apply key_lt_irrefl in Hx.
    + rewrite decide_False by done. by rewrite Hq, filter_app.
Qed.

Lemma marker_plain q k : k ≠ [] ∨ marked q = false → Forall (λ e, bool_decide (entry_key e = k) = false) (marker q).
Proof. unfold marker. intros Hk. destruct (marked q); [|constructor]. constructor; [|constructor]. apply bool_decide_eq_false_2. cbn. naive_solver. Qed.

Lemma remove_entry_stands n q k : node_stands n q →
  ∃ n', remove_entry k n = ((spec_step (NRemove k) q).1, n') ∧ node_stands n' (spec_step (NRemove k) q).2.
Proof.
  intros Hst. pose proof Hst as (es & E & Hs & Hp & Hq). unfold remove_entry. rewrite E. cbn [spec_step]. rewrite (Hq k).
  destruct (filter (λ e, entry_key e = k) es) as [|e r] eqn:Ef.
  - apply filter_key_none in Ef. assert (Forall (λ e, bool_decide (entry_key e = k) = false) es) as Hf.
    { eapply Forall_impl; [exact Ef|]. intros x Hx. by rewrite bool_decide_eq_false_2. }
    destruct (marked q && bool_decide (k = [])) eqn:Em.
    + apply andb_true_iff in Em as [Em ->%bool_decide_eq_true]. unfold marker. rewrite Em.
      rewrite find_index_app by (done || by rewrite bool_decide_eq_true_2). eexists. split; [cbn [fst]; by rewrite list_lookup_middle|].
      exists es. unfold update_header, set_entries, marker. cbn [node_entries snd marked queues].
      rewrite take_app_length, drop_app_ge by lia. replace (S (length es) - length es)%nat with 1%nat by lia.
      cbn [drop]. split; [done|]. split; [done|]. split; [done|]. exact Hq.
    + rewrite find_index_none; [by exists n|]. apply Forall_app. split; [done|]. apply marker_plain.
      apply andb_false_iff in Em as [Em|Em%bool_decide_eq_false]; auto.
  - destruct (filter_key_split _ _ _ _ Ef) as (l & m & -> & Hek & Hl & Hm). rewrite <-app_assoc. cbn [app].
    rewrite find_index_app; [|eapply Forall_impl; [exact Hl|]; intros x Hx; by rewrite bool_decide_eq_false_2|by rewrite bool_decide_eq_true_2].
    eexists. split; [cbn [fst]; by rewrite list_lookup_middle|]. exists (l ++ m). unfold update_header, set_entries.
    cbn [node_entries snd]. rewrite take_app_length, drop_app_ge by lia. replace (S (length l) - length l)%nat with 1%nat by lia. cbn [drop].
    rewrite <-app_assoc. split; [done|]. apply Forall_app in Hp as [Hpl Hpr]. apply Forall_cons in Hpr as [_ Hpr].
    apply StronglySorted_app in Hs as (Hlr & Hsl & Hsr). apply StronglySorted_inv in Hsr as [Hsr _]. split; [|split].
    + apply StronglySorted_app_2; [|done..]. intros e1 e2 H1 H2. apply Hlr; [done|by right].
    + by apply Forall_app.
    + intros k'. rewrite queue_insert, filter_app. destruct (decide (k' = k)) as [->|Hne].
      * rewrite (proj2 (filter_key_none k l)) by done. done.
      * rewrite Hq, filter_app, filter_cons, decide_False by congruence. done.
Qed.

Lemma find_entry_stands n q k : node_stands n q → find_entry k n = head (queue q k).
Proof.
  intros (es & E & Hs & Hp & Hq). unfold find_entry. rewrite E, (Hq k). set (f := λ e, _ && _).
  destruct (filter (λ e, entry_key e = k) es) as [|e r] eqn:Ef.
  - apply filter_key_none in Ef. rewrite find_index_none; [done|]. apply Forall_app. split.
    + eapply Forall_impl; [exact Ef|]. intros x Hx. unfold f. by rewrite bool_decide_eq_false_2.
    + unfold marker. destruct (marked q); repeat constructor. unfold f. apply andb_false_r.
  - destruct (filter_key_split _ _ _ _ Ef) as (l & m & -> & Hek & Hl & Hm). rewrite <-app_assoc. cbn [app].
    apply Forall_app in Hp as [_ Hp]. apply Forall_cons in Hp as [Hp _]. rewrite find_index_app.
    + cbn. by apply list_lookup_middle.
    + eapply Forall_impl; [exact Hl|]. intros x Hx. unfold f. by rewrite bool_decide_eq_false_2.
    + unfold f. rewrite Hp. by rewrite bool_decide_eq_true_2.
Qed.

Lemma node_run_stands ops : ∀ n q, node_stands n q → Forall nop_ok ops →
  ∃ n', node_run ops n = ((spec_run ops q).1, n') ∧ node_stands n' (spec_run ops q).2.
Proof.
  induction ops as [|op ops IH]; intros n q Hn Hops; [by exists n|]. apply Forall_cons in Hops as [Hop Hops]. cbn [node_run spec_run].
  assert (∃ n1, node_step op n = ((spec_step op q).1, n1) ∧ node_stands n1 (spec_step op q).2) as (n1 & -> & H1).
  { destruct op as [e|k|k]; cbn [node_step nop_ok] in *.
    - eexists. split; [reflexivity|]. by apply insert_entry_stands.
    - by apply remove_entry_stands.
    - exists n. split; [|done]. cbn. by rewrite (find_entry_stands n q). }
  destruct (spec_step op q) as [o q1]. cbn [fst snd] in *. destruct (IH n1 q1 H1 Hops) as (n2 & -> & H2).
  destruct (spec_run ops q1) as [os q2]. by exists n2.
Qed.

Lemma node_new_leaf_ok vcn : node_ok (node_new_leaf vcn) ∅.
Proof. exists []. repeat split; constructor. Qed.

(** ** The byte format *)
Lemma length_entry_header_bytes e : length (entry_header_bytes e) = 14%nat.
Proof. unfold entry_header_bytes. len. Qed.
#[export] Hint Rewrite length_entry_header_bytes : len.

Lemma length_index_header h : length (ih_signature h) = 4%nat → length (index_header_serialize h) = 32%nat.
Proof. intros Hs. unfold index_header_serialize. repeat (rewrite length_put; [|len]); len. all: rewrite Hs; lia. Qed.

Lemma length_put_entries es : ∀ offset data,
  0 ≤ offset → zlen data = INDEX_NODE_SIZE → zlen (put_entries es offset data) = INDEX_NODE_SIZE.
Proof.
  induction es as [|e es IH]; intros offset data H0 Hd; [done|]. cbn [put_entries].
  case_bool_decide as Hfit; [|by apply IH]. pose proof (zlen_nonneg (entry_serialize e)).
  apply IH; [lia|]. unfold zlen in *. rewrite length_put; [done|]. lia.
Qed.

Lemma length_node_serialize n :
  length (ih_signature (node_header n)) = 4%nat → 0 ≤ entries_offset (node_header n) →
  zlen (node_serialize n) = INDEX_NODE_SIZE.
Proof.
  intros Hs Ho. unfold node_serialize. apply length_put_entries; [done|]. unfold zlen.
  rewrite length_put; rewrite ?length_index_header by done; rewrite length_zeros; unfold INDEX_NODE_SIZE; lia.
Qed.

#[export] Instance Len_INDX : Len INDX 4.
Proof. done. Qed.
#[global] Typeclasses Opaque INDX.

(** The header reads back, whatever follows. *)
Lemma index_header_roundtrip h rest :
  ih_signature h = INDX → in_u 32 (entries_offset h) → in_u 32 (index_length h) →
  in_u 32 (allocated_size h) → in_u 16 (ih_sequence_number h) →
  index_header_deserialize (index_header_serialize h ++ rest) = Ok h.
Proof.
  intros Hs Ho Hl Ha Hn. unfold in_u in *. unfold index_header_deserialize.
  assert (length (index_header_serialize h) = 32%nat) as Hlen by (apply length_index_header; by rewrite Hs).
  rewrite bool_decide_eq_false_2 by (unfold zlen; rewrite length_app; lia).
  assert (nth 16 (index_header_serialize h ++ rest) 0 = ih_flags h) as ->.
  { rewrite app_nth1 by lia. unfold index_header_serialize. rewrite Hs. apply nth_lookup_Some.
    rewrite lookup_put_old; [|erewrite !len_eq by apply _; cbn; lia|lia].
    rewrite lookup_put_new; [done|erewrite len_eq by apply _; lia|cbn; lia]. }
  rewrite !(field_app_l _ _ (index_header_serialize h)) by lia.
  unfold index_header_serialize. rewrite Hs.
  fields. rewrite bool_decide_eq_true_2 by done.
  rewrite !le_dec_bytes by lia. destruct h; cbn in *; by subst.
Qed.

(** Two entries that fit, laid out behind the header. *)
Lemma node_serialize_two n e1 e2 :
  node_entries n = [e1; e2] → entries_offset (node_header n) = 32 → length (ih_signature (node_header n)) = 4%nat →
  32 + zlen (entry_serialize e1) + zlen (entry_serialize e2) ≤ INDEX_NODE_SIZE →
  node_serialize n =
    index_header_serialize (node_header n) ++ entry_serialize e1 ++ entry_serialize e2 ++
    zeros (4096 - 32 - length (entry_serialize e1) - length (entry_serialize e2)).
Proof.
  intros He Ho Hs Hfit. unfold node_serialize. rewrite He, Ho. cbn [put_entries].
  pose proof (zlen_nonneg (entry_serialize e1)). pose proof (zlen_nonneg (entry_serialize e2)).
  pose proof (length_index_header _ Hs) as Hh. unfold INDEX_NODE_SIZE in *. unfold zlen in *.
  rewrite !bool_decide_eq_true_2 by lia.
  change (Z.to_nat 4096) with 4096%nat.
  pose proof (put_tail 0 (index_header_serialize (node_header n)) [] 4096 eq_refl ltac:(lia)) as E0.
  cbn [app] in E0. rewrite E0, Hh.
  rewrite put_tail by lia. rewrite put_tail by (rewrite ?length_app; lia).
  by rewrite <-!app_assoc.
Qed.

(** Reading at an entry of length 0 never ends. *)
Lemma parse_entries_stuck data limit offset rest e :
  offset < limit → @slice FilesystemError Z offset (zlen data) data = Ok rest → entry_deserialize rest = Ok (e, 0) →
  is_last_entry (entry_flags e) = false → ∀ fuel acc, parse_entries fuel data limit offset acc = Hang.
Proof.
  intros Hl Hr He Hf fuel. induction fuel as [|fuel IH]; intros acc; [done|]. cbn [parse_entries].
  rewrite bool_decide_eq_true_2 by done. rewrite Hr. cbn [rbind]. rewrite He. cbn [rbind]. rewrite Hf, Z.add_0_r.
  apply IH.
Qed.

(** The bytes of the end marker. *)
Lemma end_marker_bytes : entry_serialize entry_new_end_marker = zeros 8 ++ [16; 0; 0; 0; 2; 0] ++ zeros 2.
Proof. by vm_compute. Qed.

(** What follows the first entry of a node: its length field ends two bytes
    past the bytes it was written with, of which [pad] are padding. *)
Definition behind_entry (pad : nat) (rest : list Z) : list Z :=
  drop 2 (zeros pad ++ (zeros 8 ++ [16; 0; 0; 0; 2; 0] ++ zeros 2) ++ rest).

Lemma length_behind_entry pad rest :
  length (behind_entry pad rest) = (pad + 14 + length rest)%nat.
Proof. unfold behind_entry. len. Qed.

(** An entry of length 0 that is neither internal nor last. *)
Lemma entry_deserialize_empty data key_len flags :
  16 ≤ zlen data → le_dec (field 8 2 data) = 0 → le_dec (field 10 2 data) = key_len → nth 12 data 0 = flags →
  has_bit flags 1 = false → has_bit flags 2 = false → 0 ≤ key_len → 16 + key_len ≤ zlen data →
  ∃ e, entry_deserialize data = Ok (e, 0) ∧ is_last_entry (entry_flags e) = false.
Proof.
  intros Hl E0 E1 E2 Hs Hf Hk Hin. unfold entry_deserialize, INDEX_ENTRY_HEADER_SIZE.
  rewrite bool_decide_eq_false_2 by lia. rewrite E0, E1, E2. rewrite bool_decide_eq_false_2 by lia.
  rewrite slice_ok by lia. cbn [rbind]. unfold entry_flags_from_u8. cbn [has_sub_node is_last_entry].
  rewrite Hs, Hf. cbn [negb]. rewrite bool_decide_eq_false_2 by lia. cbn [rbind]. eexists. split; [reflexivity|done].
Qed.

(** The reader's next step, by the number of padding bytes. *)
Lemma entry_behind pad rest :
  (pad < 8)%nat → 600 ≤ zlen rest ≤ 4000 →
  match pad with
  | 2%nat => entry_deserialize (behind_entry pad rest) = Ok (entry_new_end_marker, 16)
  | 3%nat => entry_deserialize (behind_entry pad rest) = Err InvalidParameter
  | 5%nat => entry_deserialize (behind_entry pad rest) = Panic
  | _ => ∃ e, entry_deserialize (behind_entry pad rest) = Ok (e, 0) ∧ is_last_entry (entry_flags e) = false
  end.
Proof.
  intros Hp Hr. pose proof (length_behind_entry pad rest) as Hl. unfold zlen in Hr.
  assert (zlen (behind_entry pad rest) = Z.of_nat pad + 14 + Z.of_nat (length rest)) as Hz by (unfold zlen; lia).
  destruct pad as [|[|[|[|[|[|[|[|pad]]]]]]]]; [| | | | | | | |lia].
  - apply (entry_deserialize_empty _ 2 0); [lia|reflexivity..|lia|lia].
  - apply (entry_deserialize_empty _ 512 0); [lia|reflexivity..|lia|lia].
  - unfold entry_deserialize, INDEX_ENTRY_HEADER_SIZE. rewrite bool_decide_eq_false_2 by lia.
    change (le_dec (field 8 2 (behind_entry 2 rest))) with 16. change (le_dec (field 10 2 (behind_entry 2 rest))) with 0.
    rewrite bool_decide_eq_false_2 by lia. rewrite slice_ok by lia. done.
  - unfold entry_deserialize, INDEX_ENTRY_HEADER_SIZE. rewrite bool_decide_eq_false_2 by lia.
    change (le_dec (field 8 2 (behind_entry 3 rest))) with 4096. rewrite bool_decide_eq_true_2 by lia. done.
  - apply (entry_deserialize_empty _ 16 0); [lia|reflexivity..|lia|lia].
  - unfold entry_deserialize, INDEX_ENTRY_HEADER_SIZE. rewrite bool_decide_eq_false_2 by lia.
    change (le_dec (field 8 2 (behind_entry 5 rest))) with 0. change (le_dec (field 10 2 (behind_entry 5 rest))) with 4096.
    rewrite bool_decide_eq_false_2 by lia. unfold slice. rewrite bool_decide_eq_false_2 by lia. done.
  - apply (entry_deserialize_empty _ 0 16); [lia|reflexivity..|lia|lia].
  - apply (entry_deserialize_empty _ 0 0); [lia|reflexivity..|lia|lia].
Qed.

Lemma file_name_deserialize_total data :
  (∃ name, file_name_deserialize data = Ok name) ∨ ∃ e, file_name_deserialize data = Err e.
Proof. unfold file_name_deserialize. case_bool_decide; eauto. Qed.

(** A leaf entry, as it is created for a name. *)
Definition leaf_entry (n : Z) (name : FileName) : IndexEntry :=
  mkEntry n (16 + zlen (fn_name name) + zlen (file_name_serialize name)) (zlen (fn_name name))
    entry_flags_new (Some name) None (fn_name name).

Lemma entry_new_leaf_ok n name : zlen (fn_name name) ≤ 255 → entry_new_leaf n name = Ok (leaf_entry n name).
Proof.
  intros Hk. pose proof (zlen_nonneg (fn_name name)). pose proof (file_name_serialize_length name) as [_ HF].
  unfold entry_new_leaf, add16, as_u16, INDEX_ENTRY_HEADER_SIZE. rewrite !Z.mod_small by lia.
  rewrite chk_ok by lia. cbn [rbind]. rewrite chk_ok by lia. done.
Qed.

(** The bytes of a leaf entry before padding, and the padding. *)
Definition leaf_raw (n : Z) (name : FileName) : list Z :=
  entry_header_bytes (leaf_entry n name) ++ fn_name name ++ file_name_serialize name.

Lemma length_leaf_raw n name :
  length (leaf_raw n name) = (14 + length (fn_name name) + length (file_name_serialize name))%nat.
Proof. unfold leaf_raw. len. Qed.

Lemma leaf_entry_serialize n name :
  entry_serialize (leaf_entry n name) = leaf_raw n name ++ zeros (pad8_len (length (leaf_raw n name))).
Proof.
  unfold entry_serialize, pad8. cbn [leaf_entry entry_name sub_node_vcn entry_key]. rewrite app_nil_r. done.
Qed.

(** The key of the entry when it is read: it starts two bytes late. *)
Definition read_key (name : FileName) : list Z :=
  from_utf8_lossy (field 2 (length (fn_name name)) (fn_name name ++ file_name_serialize name)).

Lemma leaf_entry_reads n name rest :
  in_u 64 n → zlen (fn_name name) ≤ 255 → 2 ≤ zlen rest →
  ∃ e, entry_deserialize (leaf_raw n name ++ rest) = Ok (e, 16 + zlen (fn_name name) + zlen (file_name_serialize name)) ∧
    entry_flags e = entry_flags_new ∧ entry_key e = read_key name ∧ entry_record e = n.
Proof.
  intros Hn Hk Hr. unfold in_u in Hn. pose proof (zlen_nonneg (fn_name name)).
  pose proof (file_name_serialize_length name) as [_ HF].
  set (k := zlen (fn_name name)) in *. set (F := zlen (file_name_serialize name)) in *.
  set (data := leaf_raw n name ++ rest).
  assert (zlen data = 14 + k + F + zlen rest) as Hz.
  { unfold data, k, F. rewrite zlen_app. unfold zlen. rewrite length_leaf_raw. lia. }
  assert (le_dec (field 0 8 data) = n ∧ le_dec (field 8 2 data) = 16 + k + F ∧ le_dec (field 10 2 data) = k)
    as (E0 & E8 & E10).
  { unfold data, leaf_raw, entry_header_bytes. rewrite <-!app_assoc.
    cbn [leaf_entry entry_record entry_length key_length]. fold k. fold F.
    split; [|split]; fields; rewrite le_dec_bytes by lia; done. }
  assert (entry_flags_from_u8 (nth 12 data 0) = entry_flags_new) as E12.
  { unfold data, leaf_raw, entry_header_bytes. rewrite <-!app_assoc.
    do 3 (rewrite app_nth2; rewrite length_le_bytes; [|lia]). done. }
  assert (field 16 (Z.to_nat k) data = field 2 (length (fn_name name)) (fn_name name ++ file_name_serialize name)) as Ek.
  { unfold data, leaf_raw. rewrite <-app_assoc. rewrite field_app_skip by len. rewrite length_entry_header_bytes.
    rewrite field_app_l; unfold k, F, zlen in *; [f_equal; lia|len]. }
  unfold entry_deserialize, INDEX_ENTRY_HEADER_SIZE. rewrite bool_decide_eq_false_2 by lia.
  rewrite E0, E8, E10, E12. rewrite bool_decide_eq_false_2 by lia.
  rewrite slice_ok by lia. cbn [rbind entry_flags_new has_sub_node is_last_entry negb].
  rewrite bool_decide_eq_true_2 by lia. rewrite slice_ok by lia. cbn [rbind].
  replace (16 + k - 16) with k by lia. change (Z.to_nat 16) with 16%nat. rewrite Ek. fold (read_key name).
  match goal with |- context [file_name_deserialize ?b] =>
    destruct (file_name_deserialize_total b) as [(fn & E)|(er & E)] end; rewrite E; cbn [rbind];
    eexists; split; [reflexivity|done|reflexivity|done].
Qed.

(** The empty root, as it is initialised, and the root with one name. *)
Definition empty_root (vcn : Z) : IndexNode := update_header (node_new_leaf vcn).
Definition one_name_root (vcn n : Z) (name : FileName) : IndexNode :=
  insert_entry (leaf_entry n name) (empty_root vcn).

Lemma empty_root_reads vcn vcn' : node_deserialize (node_serialize (empty_root vcn)) vcn' = Ok (empty_root vcn').
Proof. by vm_compute. Qed.

Lemma one_name_root_eq vcn n name :
  one_name_root vcn n name =
  mkNode (mkIndexHeader INDX 32 (as_u32 (64 + zlen (fn_name name) + zlen (file_name_serialize name))) 4096 0 1)
    [leaf_entry n name; entry_new_end_marker] vcn.
Proof.
  unfold one_name_root, insert_entry, update_header, calculate_size, set_entries.
  cbn [empty_root update_header node_new_leaf node_header node_entries node_vcn find_index entry_flags is_last_entry
       entry_new_end_marker orb from_option id insert_at take drop app index_header_new_leaf ih_signature
       allocated_size ih_flags ih_sequence_number entries_offset sum_entry_lengths foldr leaf_entry entry_length].
  unfold default, insert_at. cbn [take drop app sum_entry_lengths foldr entry_length leaf_entry entry_new_end_marker].
  unfold INDEX_ENTRY_HEADER_SIZE, INDEX_NODE_SIZE. do 3 f_equal. lia.
Qed.

(** What the reader makes of a root with one name, by the length of the name. *)
Definition one_name_outcome (n : Z) (name : FileName) (r : fsres IndexNode) : Prop :=
  match (length (fn_name name) mod 8)%nat with
  | 0%nat => ∃ node e, r = Ok node ∧ is_leaf (node_header node) = true ∧
               node_entries node = [e; entry_new_end_marker] ∧ entry_flags e = entry_flags_new ∧
               entry_key e = read_key name ∧ entry_record e = n
  | 5%nat => r = Panic
  | 7%nat => r = Err InvalidParameter
  | _ => r = Hang
  end.

Lemma pad_by_name_length n name :
  pad8_len (length (leaf_raw n name)) = ((8 - (length (fn_name name) + 6) mod 8) mod 8)%nat.
Proof.
  rewrite length_leaf_raw. pose proof (file_name_serialize_length name) as [Hm _].
  unfold zlen in Hm. assert (length (file_name_serialize name) mod 8 = 0)%nat as Hm'.
  { apply Nat2Z.inj. rewrite Nat2Z.inj_mod. exact Hm. }
  unfold pad8_len. do 2 f_equal.
  replace (14 + length (fn_name name) + length (file_name_serialize name))%nat
    with ((length (fn_name name) + 6) + (1 * 8 + length (file_name_serialize name)))%nat by lia.
  rewrite Nat.Div0.add_mod, (Nat.Div0.add_mod (1 * 8)), Hm', Nat.Div0.mod_mul, Nat.add_0_r.
  by rewrite Nat.Div0.mod_mod.
Qed.

(** The bytes of a root with one name. *)
Definition one_name_header (name : FileName) : IndexHeader :=
  mkIndexHeader INDX 32 (64 + zlen (fn_name name) + zlen (file_name_serialize name)) 4096 0 1.
Definition one_name_tail (pad : nat) (name : FileName) : list Z :=
  zeros (4034 - pad - length (fn_name name) - length (file_name_serialize name)).

Lemma one_name_root_bytes vcn n name :
  1 ≤ zlen (fn_name name) ≤ 255 →
  let pad := pad8_len (length (leaf_raw n name)) in
  node_serialize (one_name_root vcn n name) =
  index_header_serialize (one_name_header name) ++ leaf_raw n name ++ zeros pad ++
  (zeros 8 ++ [16; 0; 0; 0; 2; 0] ++ zeros 2) ++ one_name_tail pad name.
Proof.
  intros Hk pad. pose proof (file_name_serialize_length name) as [_ HF].
  assert (pad < 8)%nat as Hpad by apply pad8_len_lt. pose proof (length_leaf_raw n name) as Hraw.
  rewrite one_name_root_eq. unfold as_u32. rewrite Z.mod_small by lia. fold (one_name_header name).
  assert (length (entry_serialize (leaf_entry n name)) = length (leaf_raw n name) + pad)%nat as El.
  { by rewrite leaf_entry_serialize, length_app, length_zeros. }
  assert (length (entry_serialize entry_new_end_marker) = 16%nat) as Em by (by rewrite end_marker_bytes).
  rewrite (node_serialize_two _ (leaf_entry n name) entry_new_end_marker).
  - cbn [node_header]. rewrite El, Em, leaf_entry_serialize, end_marker_bytes. fold pad. rewrite <-!app_assoc.
    unfold one_name_tail. rewrite Hraw. repeat (apply (f_equal (app _))). f_equal. lia.
  - done.
  - done.
  - done.
  - unfold zlen in *. rewrite El, Em. unfold INDEX_NODE_SIZE. lia.
Qed.

(** The reader after the header: the first entry, then what is behind it. *)
Lemma one_name_parse vcn vcn' n name :
  in_u 64 n → 1 ≤ zlen (fn_name name) ≤ 255 →
  let pad := pad8_len (length (leaf_raw n name)) in
  let limit := 64 + zlen (fn_name name) + zlen (file_name_serialize name) in
  let data := node_serialize (one_name_root vcn n name) in
  ∃ e, entry_flags e = entry_flags_new ∧ entry_key e = read_key name ∧ entry_record e = n ∧
    @slice FilesystemError Z (limit - 16) (zlen data) data = Ok (behind_entry pad (one_name_tail pad name)) ∧
    node_deserialize data vcn' =
      (let? es := parse_entries (Z.to_nat 4099) data limit (limit - 16) [e] in
       Ok (mkNode (one_name_header name) es vcn')).
Proof.
  intros Hn Hk pad limit data. pose proof (file_name_serialize_length name) as [_ HF].
  pose proof (length_leaf_raw n name) as Hraw.
  assert (pad < 8)%nat as Hpad by apply pad8_len_lt.
  assert (length (index_header_serialize (one_name_header name)) = 32%nat) as Hh by (by apply length_index_header).
  set (tl := (zeros 8 ++ [16; 0; 0; 0; 2; 0] ++ zeros 2) ++ one_name_tail pad name).
  assert (length tl = 4050 - pad - length (fn_name name) - length (file_name_serialize name))%nat as Htl.
  { unfold tl, one_name_tail, zlen in *. len. }
  assert (data = index_header_serialize (one_name_header name) ++ leaf_raw n name ++ zeros pad ++ tl) as Ed
    by (by apply one_name_root_bytes).
  clearbody data.
  destruct (leaf_entry_reads n name (zeros pad ++ tl)) as (e & Ee & Hf & Hek & Her);
    [done|lia|unfold zlen in *; rewrite length_app, length_zeros; lia|].
  exists e. split; [done|]. split; [done|]. split; [done|]. split.
  - assert (data = (index_header_serialize (one_name_header name) ++ leaf_raw n name ++ take 2 (zeros pad ++ tl)) ++
                   behind_entry pad (one_name_tail pad name)) as Ed2.
    { rewrite Ed. unfold behind_entry. fold tl. rewrite <-!app_assoc. by rewrite take_drop. }
    rewrite Ed2. apply slice_rest. unfold limit, zlen in *. len.
  - assert (zlen data = 4096) as Hz by (rewrite Ed; unfold zlen in *; len).
    unfold node_deserialize. rewrite Hz. rewrite bool_decide_eq_false_2 by (unfold INDEX_NODE_SIZE; lia).
    rewrite Ed at 1. rewrite index_header_roundtrip by (done || (unfold in_u; cbn; lia)). cbn [rbind].
    change node_fuel with (S (Z.to_nat 4099)). cbn [one_name_header index_length entries_offset parse_entries].
    fold limit. rewrite bool_decide_eq_true_2 by (unfold limit; lia).
    rewrite Ed at 1 2. rewrite slice_rest by (unfold zlen; by rewrite Hh). cbn [rbind].
    rewrite Ee. cbn [rbind]. rewrite Hf. cbn [entry_flags_new is_last_entry app].
    replace (32 + _) with (limit - 16) by (unfold limit; lia). reflexivity.
Qed.

Lemma one_name_root_reads vcn vcn' n name :
  in_u 64 n → 1 ≤ zlen (fn_name name) ≤ 255 →
  one_name_outcome n name (node_deserialize (node_serialize (one_name_root vcn n name)) vcn').
Proof.
  intros Hn Hk. pose proof (file_name_serialize_length name) as [_ HF].
  destruct (one_name_parse vcn vcn' n name Hn Hk) as (e & Hf & Hek & Her & Hs & ->).
  pose proof (pad_by_name_length n name) as Hpad. pose proof (pad8_len_lt (length (leaf_raw n name))) as Hlt.
  set (pad := pad8_len (length (leaf_raw n name))) in *. clearbody pad.
  set (data := node_serialize _) in *. clearbody data.
  assert (600 ≤ zlen (one_name_tail pad name) ≤ 4000) as Htl by (unfold one_name_tail, zlen in *; len).
  pose proof (entry_behind pad (one_name_tail pad name) Hlt Htl) as Hb.
  pose proof (Nat.Div0.add_mod (length (fn_name name)) 6 8) as Hm. rewrite Hm in Hpad. unfold one_name_outcome.
  assert (length (fn_name name) mod 8 < 8)%nat as Hk8 by (apply Nat.mod_upper_bound; lia).
  set (limit := 64 + _ + _) in *.
  assert (limit - 16 < limit) as Hlim by lia.
  destruct (length (fn_name name) mod 8)%nat as [|[|[|[|[|[|[|[|]]]]]]]]; [| | | | | | | |lia];
    cbn in Hpad; rewrite Hpad in Hb, Hs;
    try (destruct Hb as (e' & He' & Hl'); rewrite (parse_entries_stuck data limit (limit - 16) _ e' Hlim Hs He' Hl'); done).
  all: change (Z.to_nat 4099) with (S (Z.to_nat 4098)); cbn [parse_entries];
    rewrite bool_decide_eq_true_2 by done; rewrite Hs; cbn [rbind]; rewrite Hb; cbn [rbind].
  - cbn [entry_new_end_marker entry_flags is_last_entry rbind]. eexists _, e. split; [reflexivity|]. done.
  - done.
  - done.
Qed.

(** ** The tree on disk *)
Section on_disk.
Context {D : Type} `{SectorDevLaws D}.
Implicit Types d : D.

Definition node_bytes d (bt : BTreeManager) (vcn : Z) : list Z :=
  sectors_at d (bt_drive bt) ((index_start bt + vcn) * 8) 8.

Definition node_on_disk d (bt : BTreeManager) (vcn : Z) : Prop :=
  bt_cluster_size bt = 4096 ∧ 0 ≤ index_start bt ∧ 0 ≤ vcn ∧
  on_drive d (bt_drive bt) ((index_start bt + vcn) * 8) 8.

Lemma node_sector_ok d bt vcn :
  node_on_disk d bt vcn →
  node_sector bt vcn = Ok ((index_start bt + vcn) * 8) ∧ 0 ≤ (index_start bt + vcn) * 8 < 2 ^ 32.
Proof.
  intros (Hc & Hs & Hv & _ & _ & c & Hcap & Hin). pose proof (capacity_bound _ _ _ Hcap).
  unfold node_sector, add64, mul64. rewrite chk_ok by lia. cbn [rbind]. rewrite Hc.
  change (4096 / 512) with 8. rewrite chk_ok by lia. split; [done|lia].
Qed.

Lemma read_node_ok d bt vcn :
  node_on_disk d bt vcn →
  ∃ d', read_node bt vcn d = (node_deserialize (node_bytes d bt vcn) vcn, d') ∧ same_disk d d'.
Proof.
  intros Hon. destruct (node_sector_ok d bt vcn Hon) as [Es Hb]. destruct Hon as (_ & _ & _ & Hd).
  unfold read_node, mbindM, mlift. rewrite Es. unfold as_u32. rewrite Z.mod_small by lia.
  change (as_u8 (INDEX_NODE_SIZE / 512)) with 8.
  destruct (read_exact d (bt_drive bt) 8 ((index_start bt + vcn) * 8) (zeros (Z.to_nat INDEX_NODE_SIZE)))
    as (d' & E & Hsame); [done|lia|by vm_compute|].
  exists d'. split; [|done]. by rewrite E.
Qed.

Lemma write_node_ok d bt n :
  node_on_disk d bt (node_vcn n) → zlen (node_serialize n) = INDEX_NODE_SIZE →
  ∃ d', write_node bt n d = (Ok tt, d') ∧ node_bytes d' bt (node_vcn n) = node_serialize n ∧
    only_sectors (bt_drive bt) ((index_start bt + node_vcn n) * 8) 8 d d'.
Proof.
  intros Hon Hl. destruct (node_sector_ok d bt _ Hon) as [Es Hb]. destruct Hon as (_ & _ & _ & Hd).
  unfold write_node, mbindM, mlift. rewrite Es. unfold as_u32. rewrite Z.mod_small by lia.
  change (as_u8 (INDEX_NODE_SIZE / 512)) with 8.
  by apply write_exact.
Qed.

Lemma node_on_disk_same d d' bt vcn : same_disk d d' → node_on_disk d bt vcn → node_on_disk d' bt vcn.
Proof. intros Hs (? & ? & ? & ?). split_and!; try done. by eapply on_drive_same. Qed.

Lemma node_on_disk_only d d' bt vcn dr a k :
  only_sectors dr a k d d' → node_on_disk d bt vcn → node_on_disk d' bt vcn.
Proof. intros Hs (? & ? & ? & ?). split_and!; try done. by eapply on_drive_only. Qed.

(** An empty directory on disk. *)
Definition empty_directory d (bt : BTreeManager) : Prop :=
  node_on_disk d bt (root_vcn bt) ∧ node_bytes d bt (root_vcn bt) = node_serialize (empty_root (root_vcn bt)).

Lemma length_one_name_root vcn n name : zlen (node_serialize (one_name_root vcn n name)) = INDEX_NODE_SIZE.
Proof. rewrite one_name_root_eq. by apply length_node_serialize. Qed.

(** Inserting a name into an empty directory writes the root with that name. *)
Lemma insert_into_empty depth bt (w : World D) n name :
  empty_directory (w_dev w) bt → zlen (fn_name name) ≤ 255 →
  ∃ d', bt_insert (S depth) (fn_name name) n name (bt, w) = (Ok tt, (bt, w_set_dev d' w)) ∧
    node_on_disk d' bt (root_vcn bt) ∧
    node_bytes d' bt (root_vcn bt) = node_serialize (one_name_root (root_vcn bt) n name) ∧
    only_sectors (bt_drive bt) ((index_start bt + root_vcn bt) * 8) 8 (w_dev w) d'.
Proof.
  intros [Hon Hbytes] Hk. unfold bt_insert, mbindM, get_self, on_world, on_dev.
  destruct (read_node_ok (w_dev w) bt (root_vcn bt) Hon) as (d1 & E1 & Hs1).
  rewrite E1, Hbytes, empty_root_reads.
  change (is_full (empty_root (root_vcn bt))) with false. cbn [mok insert_recursive].
  unfold w_set_dev. cbn [w_dev w_next_record w_next_vcn w_counter]. unfold mbindM.
  destruct (read_node_ok d1 bt (root_vcn bt)) as (d2 & E2 & Hs2); [by eapply node_on_disk_same|].
  assert (node_bytes d1 bt (root_vcn bt) = node_bytes (w_dev w) bt (root_vcn bt)) as Eb by (by apply sectors_at_same).
  rewrite E2, Eb, Hbytes, empty_root_reads.
  change (is_leaf (node_header (empty_root (root_vcn bt)))) with true. cbn match. unfold mlift.
  rewrite entry_new_leaf_ok by done. fold (one_name_root (root_vcn bt) n name).
  assert (node_vcn (one_name_root (root_vcn bt) n name) = root_vcn bt) as Ev by done.
  destruct (write_node_ok d2 bt (one_name_root (root_vcn bt) n name)) as (d3 & E3 & Hb3 & Ho3).
  { rewrite Ev. eapply node_on_disk_same; [|exact Hon]. by etrans. }
  { apply length_one_name_root. }
  rewrite Ev in Hb3, Ho3. rewrite E3. exists d3. split; [done|].
  assert (only_sectors (bt_drive bt) ((index_start bt + root_vcn bt) * 8) 8 (w_dev w) d3) as Ho.
  { etrans; [|exact Ho3]. apply same_disk_only. by etrans. }
  split; [by eapply node_on_disk_only|]. split; [done|done].
Qed.
End on_disk.

(** The key read back differs from the name when the name has no zero byte and
    the parent's number is small: it ends in a zero byte. *)
Lemma read_key_differs name :
  Forall (λ b, 0 < b < 128) (fn_name name) → 1 ≤ zlen (fn_name name) → 0 ≤ parent_directory name < 128 →
  read_key name ≠ fn_name name.
Proof.
  intros Ha Hk Hp. unfold read_key, zlen in *. set (k := length (fn_name name)) in *.
  assert (∃ rest, file_name_serialize name = [parent_directory name; 0] ++ rest) as (rest & ->).
  { rewrite file_name_serialize_head. unfold file_name_head.
    assert (le_bytes 8 (parent_directory name) = parent_directory name :: zeros 7) as ->.
    { replace (parent_directory name) with (le_dec (parent_directory name :: zeros 7)) at 1.
      - change 8%nat with (length (parent_directory name :: zeros 7)). apply le_bytes_dec.
        constructor; [unfold byte_ok; lia|apply zeros_ok].
      - unfold le_dec, zeros. cbn [replicate little_endian_to_Z]. rewrite Z.lor_0_r. done. }
    eexists. rewrite <-!app_assoc. reflexivity. }
  assert (field 2 k (fn_name name ++ [parent_directory name; 0] ++ rest) =
          field 2 k (fn_name name ++ [parent_directory name; 0])) as ->.
  { rewrite app_assoc. apply field_app_l. rewrite length_app. cbn. lia. }
  set (l := field 2 k _).
  assert (l !! (k - 1)%nat = Some 0) as Hlast.
  { unfold l. rewrite lookup_field, decide_True by lia. rewrite lookup_app_r by lia.
    replace (2 + (k - 1) - length (fn_name name))%nat with 1%nat by lia. done. }
  rewrite from_utf8_lossy_ascii.
  - intros E. rewrite E in Hlast. rewrite Forall_lookup in Ha. apply Ha in Hlast. lia.
  - unfold l, field. apply Forall_take, Forall_drop, Forall_app. split; [|forall_list; lia].
    eapply Forall_impl; [exact Ha|]. intros b. cbn. lia.
Qed.

(** Looking up the name of a root with one name. *)
Lemma search_one_name {D} `{SectorDevLaws D} depth bt (d : D) n name :
  node_on_disk d bt (root_vcn bt) → node_bytes d bt (root_vcn bt) = node_serialize (one_name_root (root_vcn bt) n name) →
  in_u 64 n → Forall (λ b, 0 < b < 128) (fn_name name) → 1 ≤ zlen (fn_name name) ≤ 255 →
  0 ≤ parent_directory name < 128 →
  ∃ d', search (S depth) bt (fn_name name) d =
    (match (length (fn_name name) mod 8)%nat with
     | 0%nat => Ok None
     | 5%nat => Panic
     | 7%nat => Err InvalidParameter
     | _ => Hang
     end, d').
Proof.
  intros Hon Hb Hn Ha Hk Hp. destruct (read_node_ok d bt (root_vcn bt) Hon) as (d' & E2 & _).
  exists d'. unfold search. cbn [search_from]. unfold mbindM. rewrite E2, Hb.
  pose proof (one_name_root_reads (root_vcn bt) (root_vcn bt) n name Hn Hk) as Ho. unfold one_name_outcome in Ho.
  destruct (length (fn_name name) mod 8)%nat as [|[|[|[|[|[|[|[|]]]]]]]]; try (rewrite Ho; done).
  destruct Ho as (node & e & -> & -> & Hes & Hf & Hkey & _). unfold find_entry. rewrite Hes. cbn [find_index].
  rewrite Hf, Hkey, bool_decide_eq_false_2 by (apply read_key_differs; (done || lia)).
  cbn. by rewrite andb_false_r.
Qed.

(** ** Properties *)

(** C30: a node in memory is a queue of entries per name. Any sequence of insertions, removals and lookups, of new and
    of known names and of the empty one, gives the answers of the queues: an insertion puts the entry behind those of
    the same name, a lookup finds the first one, a removal takes it, and a removal of the empty name that finds none
    takes the end marker. Entries stay in order. *)
Theorem node_refines_map ops n q :
  node_stands n q → Forall nop_ok ops →
  ∃ n', node_run ops n = ((spec_run ops q).1, n') ∧ node_stands n' (spec_run ops q).2.
Proof. apply node_run_stands. Qed.

(** Two entries of the same name, and a removal of the empty name. *)
Lemma node_refines_map_witness :
  ∃ n', node_run [NInsert (leaf_entry 17 (file_name_new 5 [98] false)); NInsert (leaf_entry 18 (file_name_new 5 [98] false));
                  NFind [98]; NRemove [98]; NFind [98]; NRemove []] (node_new_leaf 0) =
        ([None; None; Some (leaf_entry 17 (file_name_new 5 [98] false)); Some (leaf_entry 17 (file_name_new 5 [98] false));
          Some (leaf_entry 18 (file_name_new 5 [98] false)); Some entry_new_end_marker], n') ∧
        node_stands n' (mkNodeSpec {[ [98] := [leaf_entry 18 (file_name_new 5 [98] false)] ]} false).
Proof.
  set (ops := [NInsert _; _; _; _; _; _]). destruct (node_refines_map ops (node_new_leaf 0) (mkNodeSpec ∅ true)) as (n' & E & H).
  - exists []. repeat split; constructor.
  - repeat constructor.
  - exists n'. assert (spec_run ops (mkNodeSpec ∅ true) =
      ([None; None; Some (leaf_entry 17 (file_name_new 5 [98] false)); Some (leaf_entry 17 (file_name_new 5 [98] false));
        Some (leaf_entry 18 (file_name_new 5 [98] false)); Some entry_new_end_marker],
       mkNodeSpec {[ [98] := [leaf_entry 18 (file_name_new 5 [98] false)] ]} false)) as Es by (vm_compute; reflexivity).
    rewrite Es in E, H. split; [exact E|exact H].
Defined.

(** Splitting a node loses nothing and keeps the order. The two nodes hold disjoint parts of the map
    that together are all of it, every name of the first before every name of the second, with sizes
    that differ by at most one, and both headers state the exact size. *)
Theorem node_split_partitions n m :
  node_ok n m → 0 ≤ node_vcn n < 2 ^ 64 - 1 → zlen (node_entries n) < 2 ^ 62 →
  ∃ l r ml mr, node_split n = Ok (l, r) ∧ node_ok l ml ∧ node_ok r mr ∧ ml ∪ mr = m ∧
    (∀ k1 k2, is_Some (ml !! k1) → is_Some (mr !! k2) → key_lt k1 k2) ∧
    zlen (node_entries r) ≤ zlen (node_entries l) ≤ zlen (node_entries r) + 1 ∧
    is_leaf (node_header l) = is_leaf (node_header n) ∧ is_leaf (node_header r) = is_leaf (node_header n) ∧
    index_length (node_header l) = as_u32 (calculate_size l) ∧
    index_length (node_header r) = as_u32 (calculate_size r).
Proof.
  intros (es & E & Hs & Hp & ->) Hv Hl.
  assert (zlen es < 2 ^ 62) as Hl' by (rewrite E, zlen_app in Hl; unfold zlen in *; lia).
  destruct (node_split_ok n es E Hv Hl') as (l & r & Es & El & Er & _ & _ & Hfl & Hlr & Hil & Hir).
  set (mid := (S (length es) / 2)%nat) in *. rewrite <-(take_drop mid es) in Hs, Hp.
  apply StronglySorted_app in Hs as (Hlt & Hsl & Hsr). apply Forall_app in Hp as [Hpl Hpr].
  exists l, r, (node_map (take mid es)), (node_map (drop mid es)). split; [done|].
  split; [by exists (take mid es)|]. split; [by exists (drop mid es)|].
  split; [by rewrite <-node_map_app, take_drop|]. split.
  { intros k1 k2 [e1 H1%elem_of_list_to_map_2] [e2 H2%elem_of_list_to_map_2].
    apply list_elem_of_fmap in H1 as (x1 & [= -> ->] & H1). apply list_elem_of_fmap in H2 as (x2 & [= -> ->] & H2).
    by apply Hlt. }
  split.
  { rewrite El, Er. unfold zlen. len. unfold mid.
    pose proof (Nat.Div0.mul_div_le (S (length es)) 2). pose proof (Nat.mul_succ_div_gt (S (length es)) 2). lia. }
  split; [unfold is_leaf; by rewrite Hfl|]. done.
Qed.

Lemma node_split_partitions_witness :
  ∃ l r ml mr, node_split (one_name_root 0 17 (file_name_new 5 [97] false)) = Ok (l, r) ∧ node_ok l ml ∧ node_ok r mr ∧
    ml ∪ mr = {[ [97] := leaf_entry 17 (file_name_new 5 [97] false) ]}.
Proof.
  destruct (node_split_partitions (one_name_root 0 17 (file_name_new 5 [97] false))
              {[ [97] := leaf_entry 17 (file_name_new 5 [97] false) ]}) as (l & r & ml & mr & H1 & H2 & H3 & H4 & _).
  - apply (insert_entry_ok (empty_root 0) ∅); [apply (node_new_leaf_ok 0)|by split|done].
  - by vm_compute.
  - by vm_compute.
  - exists l, r, ml, mr. split; [exact H1|]. split; [exact H2|]. split; [exact H3|exact H4].
Defined.

(** A name inserted into a directory is not found again. Insertion into an empty directory on disk
    succeeds, but entries are written with a header of 14 bytes and read with one of 16: when the length
    of the name is a multiple of eight the lookup reports that the name does not exist, and for every
    other length reading the directory fails, panics or never returns. *)
Theorem inserted_name_lost {D} `{SectorDevLaws D} depth bt (w : World D) n name :
  empty_directory (w_dev w) bt → in_u 64 n →
  Forall (λ b, 0 < b < 128) (fn_name name) → 1 ≤ zlen (fn_name name) ≤ 255 → 0 ≤ parent_directory name < 128 →
  ∃ d' d'', bt_insert (S depth) (fn_name name) n name (bt, w) = (Ok tt, (bt, w_set_dev d' w)) ∧
    search (S depth) bt (fn_name name) d' =
      (match (length (fn_name name) mod 8)%nat with
       | 0%nat => Ok None
       | 5%nat => Panic
       | 7%nat => Err InvalidParameter
       | _ => Hang
       end, d'').
Proof.
  intros He Hn Ha Hk Hp. destruct (insert_into_empty depth bt w n name He) as (d' & E & Hon & Hb & _); [lia|].
  destruct (search_one_name depth bt d' n name) as (d'' & E2); try done. by exists d', d''.
Qed.

Definition demo_btree : BTreeManager := mkBTree 0 0 10 4096.
Definition demo_btree_world : World RamDisk :=
  boot_world (write_node demo_btree (empty_root 0) (mkRam {[0 := 400]} ∅)).2.

Lemma demo_empty_directory : empty_directory (w_dev demo_btree_world) demo_btree.
Proof.
  split; [|by vm_compute]. do 3 (split; [done|]). split; [done|]. split; [done|]. exists 400. by vm_compute.
Qed.

Lemma inserted_name_lost_witness :
  ∃ d' d'', bt_insert 1 [97; 46; 98] 16 (file_name_new 5 [97; 46; 98] false) (demo_btree, demo_btree_world) =
      (Ok tt, (demo_btree, w_set_dev d' demo_btree_world)) ∧
    search 1 demo_btree [97; 46; 98] d' = (Hang, d'').
Proof.
  apply (inserted_name_lost 0 demo_btree demo_btree_world 16 (file_name_new 5 [97; 46; 98] false)).
  - apply demo_empty_directory.
  - unfold in_u; lia.
  - cbn. forall_list; lia.
  - by vm_compute.
  - cbn. lia.
Defined.
