(* ===== verification/GalleonFs.v ===== *)
(** * The filesystem facade of galleon2 ([galleon_fs.rs], [fs.rs])

    [GalleonFilesystem] puts the superblock, the file table, the journal, the
    directory index and the allocator together: formatting and mounting a drive,
    and the file operations. *)

From S2P Require Import Prelude Device Runs Bitmap Allocator SuperBlock Mft Journal FileRecord Btree.

(** [impl Clone for JournalManager]: the transactions are not cloned. *)
Definition journal_clone (j : JournalManager) : JournalManager := jm_set_txs [] j.

(** [GalleonFilesystem] *)
Record GalleonFilesystem := mkGfs {
  gfs_super_block : GalleonSuperBlock;
  gfs_mft : MftManager;
  gfs_journal : JournalManager;
  gfs_files : FileRecordManager;
  gfs_btree : BTreeManager;
  gfs_allocator : ClusterAllocator;
  gfs_drive : Z;
}.

(** [FilesystemStats] *)
Record FilesystemStats := mkStats {
  total_space : Z;
  free_space : Z;
  used_space : Z;
  st_cluster_size : Z;
  st_total_clusters : Z;
}.

Section facade.
Context {D : Type} `{SectorDev D}.

(** Two records without attributes: the file table's own and the root directory's. *)
Definition create_system_files (mft : MftManager) : M D FilesystemError unit :=
  let! _ := write_record mft (mft_record_new 0) in
  write_record mft (mft_record_new MFT_RECORD_ROOT).

Definition initialize_btree_root (bt : BTreeManager) : M D FilesystemError unit :=
  write_node bt (update_header (node_new_leaf 0)).

(** Marks the clusters [0 .. system_clusters) used and flushes the bitmap. *)
Definition mark_system_clusters (al : ClusterAllocator) (system_clusters : Z) :
    M D FilesystemError ClusterAllocator := λ d,
  let '(r, (al', d')) :=
    (let! _ := mfor (seqZ 0 system_clusters) (λ c, on_bitmap (set_cluster_used c)) in
     on_bitmap flush_bitmap) (al, d) in
  match r with
  | Ok _ => (Ok al', d')
  | Err e => (Err e, d')
  | Panic => (Panic, d')
  | Hang => (Hang, d')
  end.

Definition format (drive : Z) : M D FilesystemError GalleonFilesystem :=
  let! disk_size_bytes := return_drive_size_bytes drive in
  let cluster_size := 4096 in
  let total := disk_size_bytes / cluster_size in
  if bool_decide (total < 100) then merr InsufficientSpace else
  let! sb := mlift (galleon_super_block_new total cluster_size) in
  let! _ := ide_write_sectors drive 1 0 (gsb_serialize sb) in
  let! bitmap_start_sector := mlift (mul64 (bitmap_start_cluster sb) (cluster_size / 512)) in
  let! bitmap := mlift (cluster_bitmap_new drive bitmap_start_sector total) in
  let! system_clusters := mlift (add64 (index_allocation_start sb) 100) in
  let! allocator := mark_system_clusters (cluster_allocator_new bitmap FirstFit) system_clusters in
  let mft := mkMft drive (mft_start_cluster sb) cluster_size in
  let! journal_start_sector := mlift (mul64 (journal_start_cluster sb) (cluster_size / 512)) in
  let! journal_size_sectors := mlift (mul64 (journal_size_clusters sb) (cluster_size / 512)) in
  let journal := journal_manager_new drive journal_start_sector journal_size_sectors in
  let files := mkFRM mft (journal_clone journal) in
  let btree := mkBTree drive 0 (index_allocation_start sb) cluster_size in
  let! _ := create_system_files mft in
  let! _ := initialize_btree_root btree in
  mok (mkGfs sb mft journal files btree allocator drive).

(** A call on the journal manager alone, in a world. *)
Definition run_journal {A} (m : M (JournalManager * World D) FilesystemError A) (j : JournalManager) :
    M (World D) FilesystemError (A * JournalManager) := λ w,
  let '(r, (j', w')) := m (j, w) in
  match r with
  | Ok a => (Ok (a, j'), w')
  | Err e => (Err e, w')
  | Panic => (Panic, w')
  | Hang => (Hang, w')
  end.

(** [match btree_manager.read_node(0)]: whether the root has to be initialised. *)
Definition root_needs_init (bt : BTreeManager) : M D FilesystemError bool := λ d,
  match read_node bt 0 d with
  | (Ok node, d') => (Ok (negb (is_leaf (node_header node))), d')
  | (Err _, d') => (Ok true, d')
  | (Panic, d') => (Panic, d')
  | (Hang, d') => (Hang, d')
  end.

Definition mount (drive : Z) : M (World D) FilesystemError GalleonFilesystem :=
  if bool_decide (3 < drive) then merr InvalidParameter else
  let! sector := on_dev (ide_read_sectors drive 1 1 (zeros 512)) in
  if negb (super_block_is_valid sector) then merr InvalidBootBlock else
  let! sb := mlift (gsb_deserialize sector) in
  if bool_decide (gsb_cluster_size sb = 0) then merr InvalidBootBlock else
  let sectors_per_cluster := gsb_cluster_size sb / 512 in
  let! bitmap_start := mlift (mul64 (bitmap_start_cluster sb) sectors_per_cluster) in
  let! bitmap := mlift (cluster_bitmap_new drive bitmap_start (total_blocks (legacy_super_block sb))) in
  let allocator := cluster_allocator_new bitmap FirstFit in
  let mft := mkMft drive (mft_start_cluster sb) (gsb_cluster_size sb) in
  let! journal_start := mlift (mul64 (journal_start_cluster sb) sectors_per_cluster) in
  let! journal_size := mlift (mul64 (journal_size_clusters sb) sectors_per_cluster) in
  let! (_, journal) := run_journal recover (journal_manager_new drive journal_start journal_size) in
  let files := mkFRM mft (journal_clone journal) in
  let btree := mkBTree drive 0 (index_allocation_start sb) (gsb_cluster_size sb) in
  let! needs_init := on_dev (root_needs_init btree) in
  let! _ :=
    if needs_init : bool then
      let! _ := on_dev (initialize_btree_root btree) in
      let! _ := on_dev (read_node btree 0) in
      mok tt
    else mok tt in
  mok (mkGfs sb mft journal files btree allocator drive).

(** ** Operations on a mounted filesystem *)
Abbreviation GM := (M (GalleonFilesystem * World D) FilesystemError).

Definition on_files {A} (m : M (FileRecordManager * World D) FilesystemError A) : GM A := λ '(g, w),
  let '(r, (f, w')) := m (gfs_files g, w) in
  (r, (mkGfs (gfs_super_block g) (gfs_mft g) (gfs_journal g) f (gfs_btree g) (gfs_allocator g) (gfs_drive g), w')).

Definition on_btree {A} (m : M (BTreeManager * World D) FilesystemError A) : GM A := λ '(g, w),
  let '(r, (bt, w')) := m (gfs_btree g, w) in
  (r, (mkGfs (gfs_super_block g) (gfs_mft g) (gfs_journal g) (gfs_files g) bt (gfs_allocator g) (gfs_drive g), w')).

Definition on_allocator {A} (m : M (ClusterAllocator * D) FilesystemError A) : GM A := λ '(g, w),
  let '(r, (al, d')) := m (gfs_allocator g, w_dev w) in
  (r, (mkGfs (gfs_super_block g) (gfs_mft g) (gfs_journal g) (gfs_files g) (gfs_btree g) al (gfs_drive g),
       w_set_dev d' w)).

Definition gfs_set_journal (j : JournalManager) (g : GalleonFilesystem) : GalleonFilesystem :=
  mkGfs (gfs_super_block g) (gfs_mft g) j (gfs_files g) (gfs_btree g) (gfs_allocator g) (gfs_drive g).

Definition gfs_create_file (depth : nat) (parent : Z) (name : list Z) (data : option (list Z)) : GM Z :=
  let! file_record := on_files (create_file parent name data) in
  let file_name := file_name_new parent name false in
  let! _ := on_btree (bt_insert depth (fn_name file_name) file_record file_name) in
  mok file_record.

(** The name is passed as the raw parts of a string. *)
Definition gfs_create_directory (depth : nat) (parent : Z) (name : list Z) : GM Z :=
  let! dir_record := on_files (create_directory parent) in
  let file_name := file_name_new parent name true in
  let! _ := on_btree (bt_insert depth (fn_name file_name) dir_record file_name) in
  mok dir_record.

Definition gfs_read_file (file_record : Z) : GM (list Z) := on_files (read_file file_record).
Definition gfs_write_file (file_record : Z) (data : list Z) : GM unit := on_files (write_file file_record data).

(** A method of the directory index that only reads [self]. *)
Definition btree_self {A} (m : BTreeManager → M D FilesystemError A) : GM A :=
  let! g := get_self in on_world (on_dev (m (gfs_btree g))).

Definition gfs_delete_file (depth : nat) (file_record : Z) (name : list Z) : GM unit :=
  let! _ := btree_self (λ bt, bt_delete depth bt name) in
  let! _ := on_allocator (deallocate_all_clusters file_record) in
  on_files (delete_file file_record).

Definition gfs_list_directory (depth : nat) : GM (list (list Z * Z)) := btree_self (list_directory depth).
Definition gfs_find_file (depth : nat) (name : list Z) : GM (option Z) := btree_self (λ bt, search depth bt name).

Definition get_btree_diag (g : GalleonFilesystem) : fsres (Z * Z * Z * Z * Z) :=
  let start := index_allocation_start (gfs_super_block g) in
  let cluster_size := gsb_cluster_size (gfs_super_block g) in
  let? cluster_num := add64 start 0 in
  let? sector_start := mul64 cluster_num (cluster_size / 512) in
  Ok (start, cluster_size, cluster_num, sector_start, 8).

Definition get_stats : GM FilesystemStats :=
  let! free := on_allocator get_free_space in
  let! g := get_self in
  let sb := gfs_super_block g in
  let! total := mlift (mul64 (total_blocks (legacy_super_block sb)) (gsb_cluster_size sb)) in
  let! used := mlift (sub64 total free) in
  mok (mkStats total free used (gsb_cluster_size sb) (total_blocks (legacy_super_block sb))).

(** [if let Err(_) = m { continue; }] *)
Definition ignore_err {S E} (m : M S E unit) : M S E unit := λ s,
  match m s with (Err _, s') => (Ok tt, s') | r => r end.

Definition defragment : GM unit :=
  mfor (seqZ 10 990) (λ file_record, ignore_err (on_allocator (defragment_file file_record))).

Definition sync : GM unit :=
  let! _ := on_allocator (on_bitmap flush_bitmap) in
  let! g := get_self in
  set_self (gfs_set_journal (cleanup_completed_transactions (gfs_journal g)) g).

(** ** [fs.rs] *)

(** The buffer holds 50 sectors. *)
Definition zero_out_sectors (drive start_sector sector_count : Z) : M D IdeError unit := λ d,
  dev_write drive sector_count (as_u32 start_sector) (zeros (50 * 512)) d.

Definition init_fs (drive : Z) : M D FilesystemError unit :=
  let! disk_size_bytes := return_drive_size_bytes drive in
  if bool_decide (disk_size_bytes = 0) then merr DriveNotFound else
  let block_size := 4096 in
  let total := disk_size_bytes / block_size in
  if bool_decide (total < 2) then merr InsufficientSpace else
  let! _ := write_super_block drive total block_size 1 in
  validate_super_block drive.
End facade.

(** ** Formatting *)
Section format_spec.
Context {D : Type} `{SectorDevLaws D}.
Implicit Types d : D.

Lemma mfor_on_bitmap (h : Z → M (ClusterBitmap * D) FilesystemError unit) st rs cs : ∀ cb d,
  mfor cs (λ c, on_bitmap (h c)) (mkAlloc cb st rs, d) =
  (let '(r, (cb', d')) := mfor cs h (cb, d) in (r, (mkAlloc cb' st rs, d'))).
Proof.
  induction cs as [|c cs IH]; intros cb d; [done|]. cbn [mfor]. unfold mbindM.
  destruct (h c (cb, d)) as [r [cb1 d1]] eqn:E.
  rewrite (on_bitmap_mk _ _ _ _ _ _ _ _ E). destruct r as [[]| | |]; [apply IH|done..].
Qed.

(** Marking the first [n] clusters: they are used, the others are as the bitmap on
    disk had them, and only the bitmap's sectors are written. *)
Lemma mark_system_clusters_ok cb st d n :
  bitmap_wf cb d → 0 < cb_bitmap_size_sectors cb < 256 → 0 < n ≤ cb_total_clusters cb → n < 2 ^ 63 →
  ∃ cb' d', mark_system_clusters (cluster_allocator_new cb st) n d = (Ok (cluster_allocator_new cb' st), d') ∧
    bitmap_wf cb' d' ∧ (∃ bm b, cb' = cb_set_cache bm b cb) ∧
    (∀ c, 0 ≤ c → free (view cb' d') c = free (view cb d) c && bool_decide (n ≤ c)) ∧
    disk_bitmap cb' d' = view cb' d' ∧
    only_sectors (cb_drive cb) (cb_bitmap_start_sector cb) (cb_bitmap_size_sectors cb) d d'.
Proof.
  intros Hwf Hsz Hn Hn63.
  assert (run_inside cb (mkRun 0 n)) as Hin by (split; unfold run_ok, run_end; cbn; lia).
  destruct (mark_run_used_spec cb d (mkRun 0 n) Hwf Hin) as (bm & d1 & E1 & Hs1 & Hwf1 & Hfree).
  unfold mark_run_used in E1. unfold mbindM at 1, mlift, add64 in E1.
  cbn [start_cluster cluster_count] in E1. rewrite chk_ok in E1 by lia.
  destruct (flush_bitmap_spec _ _ Hwf1 Hsz) as (cb2 & d2 & E2 & Hwf2 & Hv2 & Hdb2 & Ecb2 & Hc2 & Ho2).
  exists cb2, d2. split; [|split; [done|split; [|split; [|split]]]].
  - unfold mark_system_clusters, mbindM, cluster_allocator_new. rewrite mfor_on_bitmap.
    change (seqZ 0 n) with (run_clusters (mkRun 0 n)). rewrite E1. rewrite (on_bitmap_mk _ _ _ _ _ _ _ _ E2). done.
  - rewrite Ecb2. eexists _, _. reflexivity.
  - intros c Hc. rewrite Hv2, view_set_cache, Hfree by done. f_equal.
    rewrite <-bool_decide_not. apply bool_decide_ext. unfold in_run. cbn. lia.
  - by rewrite Hdb2, Hv2.
  - destruct Hs1 as [Hs1 Hc1]. split; [|intros dr; by rewrite Hc2, Hc1].
    intros dr a Ha. rewrite Ho2, Hs1; [done|]. cbn. lia.
Qed.

Lemma create_system_files_ok d mft :
  record_on_disk d mft 0 → record_on_disk d mft 5 →
  ∃ d', create_system_files mft d = (Ok tt, d') ∧
    stored d' mft 0 = record_bytes (mft_record_new 0) ∧ stored d' mft 5 = record_bytes (mft_record_new 5) ∧
    (∀ n, 0 ≤ n → n ≠ 0 → n ≠ 5 → stored d' mft n = stored d mft n) ∧
    only_sectors (mft_drive mft) (mft_start mft * 8) 16 d d'.
Proof.
  intros R0 R5. unfold create_system_files, mbindM.
  destruct (record_serialize_ok (mft_record_new 0)) as [S0 L0]; [done|done|by vm_compute|].
  destruct (record_serialize_ok (mft_record_new 5)) as [S5 L5]; [done|done|by vm_compute|].
  destruct (write_record_ok d mft (mft_record_new 0) _ R0 S0 L0) as (d1 & E1 & St1 & Hother1 & Ho1).
  assert (record_on_disk d1 mft 5) as R5' by (by eapply record_on_disk_only).
  destruct (write_record_ok d1 mft (mft_record_new 5) _ R5' S5 L5) as (d2 & E2 & St2 & Hother2 & Ho2).
  exists d2. split; [by rewrite E1; unfold MFT_RECORD_ROOT; rewrite E2|].
  split; [rewrite Hother2 by done; exact St1|]. split; [exact St2|]. split; [intros n Hn Hn0 Hn5; by rewrite Hother2, Hother1|].
  destruct Ho1 as [Ho1 Hc1], Ho2 as [Ho2 Hc2]. unfold record_cluster in *. cbn [mft_record_new record_number] in *.
  change (0 / 4) with 0 in *. change (5 / 4) with 1 in *.
  split; [|intros dr; by rewrite Hc2, Hc1]. intros dr a Ha. rewrite Ho2, Ho1 by lia. done.
Qed.

Lemma initialize_btree_root_ok d bt :
  node_on_disk d bt 0 → root_vcn bt = 0 →
  ∃ d', initialize_btree_root bt d = (Ok tt, d') ∧ empty_directory d' bt ∧
    only_sectors (bt_drive bt) (index_start bt * 8) 8 d d'.
Proof.
  intros Hon Hr. destruct (write_node_ok d bt (empty_root 0)) as (d' & E & Hb & Ho); [done|by vm_compute|].
  exists d'. change (node_vcn (empty_root 0)) with 0 in *. rewrite Z.add_0_r in Ho.
  split; [exact E|]. split; [|done]. split; rewrite Hr; [by eapply node_on_disk_only|done].
Qed.

(** The bitmap does not notice writes elsewhere. *)
Lemma bitmap_frame cb d d' drive lba n :
  bitmap_wf cb d → only_sectors drive lba n d d' →
  cb_drive cb ≠ drive ∨ cb_bitmap_start_sector cb + cb_bitmap_size_sectors cb ≤ lba ∨ lba + n ≤ cb_bitmap_start_sector cb →
  bitmap_wf cb d' ∧ view cb d' = view cb d ∧ disk_bitmap cb d' = disk_bitmap cb d.
Proof.
  intros [Hd Hst Hsz Htot (c & Hc & Hcap) Hca Hcl] Ho Hout.
  assert (disk_bitmap cb d' = disk_bitmap cb d) as Eb by (by apply (sectors_at_other _ _ _ _ _ _ _ _ Ho)).
  assert (view cb d' = view cb d) as Ev by (unfold view; by rewrite Eb).
  split; [|by split]. split; try done.
  - exists c. destruct Ho as [_ Hcap']. by rewrite Hcap'.
  - by rewrite Ev.
  - rewrite Ev, Eb. done.
Qed.

(** The bitmap of a volume of [total] clusters. *)
Definition volume_bitmap (drive start total : Z) : ClusterBitmap :=
  mkBitmap drive start (((total + 7) / 8 + 511) / 512) total 4096 None false.

Lemma volume_bitmap_size total :
  0 < total → 0 < ((total + 7) / 8 + 511) / 512 ∧ total ≤ ((total + 7) / 8 + 511) / 512 * 4096 ∧
  (∀ k, total ≤ k * 4096 → ((total + 7) / 8 + 511) / 512 ≤ k).
Proof.
  intros Ht. pose proof (Z.mul_div_le (total + 7) 8 ltac:(lia)). pose proof (Z.mul_succ_div_gt (total + 7) 8 ltac:(lia)).
  set (b := (total + 7) / 8) in *.
  pose proof (Z.mul_div_le (b + 511) 512 ltac:(lia)). pose proof (Z.mul_succ_div_gt (b + 511) 512 ltac:(lia)).
  set (s := (b + 511) / 512) in *. split_and!; [lia|lia|]. intros k Hk. lia.
Qed.

Lemma volume_bitmap_new drive start total :
  0 < total < 2 ^ 40 → cluster_bitmap_new drive start total = Ok (volume_bitmap drive start total).
Proof.
  intros Ht. unfold cluster_bitmap_new, add64. rewrite chk_ok by lia. cbn [rbind].
  assert (0 ≤ (total + 7) / 8 ≤ total + 7) by (split; [apply Z.div_pos|apply Z.div_le_upper_bound]; lia).
  rewrite chk_ok by lia. done.
Qed.

Lemma volume_bitmap_wf d drive start total c :
  0 ≤ drive ≤ 3 → 0 ≤ start → 0 < total → capacity d drive = Some c →
  start + ((total + 7) / 8 + 511) / 512 ≤ c → bitmap_wf (volume_bitmap drive start total) d.
Proof.
  intros Hd Hs Ht Hc Hin. destruct (volume_bitmap_size total Ht) as (Hpos & Hcover & _).
  split; cbn; try lia.
  - by exists c.
  - apply length_disk_bitmap. cbn. lia.
  - done.
Qed.

(** The sectors that formatting writes: the superblock, the first two clusters of the file table, the sectors of the
    bitmap and the cluster of the root of the index. *)
Definition formatted_sector (total : Z) (sb : GalleonSuperBlock) (a : Z) : Prop :=
  a = 0 ∨ 128 ≤ a < 144 ∨
  bitmap_start_cluster sb * 8 ≤ a < bitmap_start_cluster sb * 8 + ((total + 7) / 8 + 511) / 512 ∨
  index_allocation_start sb * 8 ≤ a < index_allocation_start sb * 8 + 8.

(** A volume as it is after formatting [drive] when the disk was [d0]. *)
Record fresh_volume (drive total : Z) d0 d (g : GalleonFilesystem) : Prop := {
  fv_super : galleon_super_block_new total 4096 = Ok (gfs_super_block g);
  fv_sector : sector d drive 0 = gsb_serialize (gfs_super_block g);
  fv_mft : gfs_mft g = mkMft drive 16 4096;
  fv_journal : gfs_journal g = journal_manager_new drive (journal_start_cluster (gfs_super_block g) * 8)
                                 (journal_size_clusters (gfs_super_block g) * 8);
  fv_files : gfs_files g = mkFRM (gfs_mft g) (gfs_journal g);
  fv_btree : gfs_btree g = mkBTree drive 0 (index_allocation_start (gfs_super_block g)) 4096;
  fv_root : empty_directory d (gfs_btree g);
  fv_record0 : stored d (gfs_mft g) 0 = record_bytes (mft_record_new 0);
  fv_record5 : stored d (gfs_mft g) 5 = record_bytes (mft_record_new 5);
  fv_alloc : alloc_inv (gfs_allocator g) d;
  fv_free : ∀ c, 0 ≤ c → cluster_free (gfs_allocator g) d c =
    free (sectors_at d0 drive (bitmap_start_cluster (gfs_super_block g) * 8) (((total + 7) / 8 + 511) / 512)) c &&
    bool_decide (index_allocation_start (gfs_super_block g) + 100 ≤ c);
  fv_bitmap : ∃ bm b, gfs_allocator g = cluster_allocator_new (cb_set_cache bm b
    (volume_bitmap drive (bitmap_start_cluster (gfs_super_block g) * 8) total)) FirstFit;
  fv_flushed : disk_bitmap (al_bitmap (gfs_allocator g)) d = view (al_bitmap (gfs_allocator g)) d;
  fv_capacity : ∀ dr, capacity d dr = capacity d0 dr;
  fv_records : ∀ n, 0 ≤ n < 8 → n ≠ 0 → n ≠ 5 → stored d (gfs_mft g) n = stored d0 (gfs_mft g) n;
  fv_frame : ∀ dr a, dr ≠ drive ∨ ¬ formatted_sector total (gfs_super_block g) a → sector d dr a = sector d0 dr a;
}.

Lemma format_ok d0 drive c total :
  0 ≤ drive ≤ 3 → capacity d0 drive = Some c → total = c * 512 / 4096 → 145 ≤ total ≤ 255 * 4096 →
  ∃ g d, format drive d0 = (Ok g, d) ∧ fresh_volume drive total d0 d g.
Proof.
  intros Hdr Hc Htot Hbound. assert (total * 8 ≤ c) as Hc8.
  { pose proof (Z.mul_div_le (c * 512) 4096 ltac:(lia)). lia. }
  destruct (layout_ok total ltac:(lia)) as (sb & Esb & Hleg & Hcs & Hmft & Hmir & Hjs & Hjz & Hbs & Hbz & Hix & Hend).
  pose proof (galleon_super_block_new_wf total 4096 sb ltac:(lia) ltac:(lia) Esb) as Hwf.
  assert (length (gsb_serialize sb) = 512%nat) as Hlen by (apply Len_gsb_serialize, (gw_legacy _ Hwf)).
  destruct (volume_bitmap_size total ltac:(lia)) as (Hsz & Hcov & Hmin).
  pose proof (Hmin 255 ltac:(lia)) as Hsz255. pose proof (Hmin (bitmap_size_clusters sb * 8) ltac:(lia)) as Hszb.
  set (bsz := ((total + 7) / 8 + 511) / 512) in *.
  destruct (write_exact d0 drive 1 0 (gsb_serialize sb)) as (d1 & E1 & Hb1 & Ho1);
    [split_and!; try lia; exists c; split; [done|lia]|lia|unfold zlen; lia|].
  set (cb := volume_bitmap drive (bitmap_start_cluster sb * 8) total).
  assert (capacity d1 drive = Some c) as Hc1 by (destruct Ho1 as [_ ->]; done).
  assert (bitmap_wf cb d1) as Hwf1 by (apply (volume_bitmap_wf _ _ _ _ c); try done; try lia; fold bsz; lia).
  destruct (mark_system_clusters_ok cb FirstFit d1 (index_allocation_start sb + 100) Hwf1)
    as (cb2 & d2 & E2 & Hwf2 & (bm & b & Ecb2) & Hfree2 & Hdb2 & Ho2); [cbn; fold bsz; lia|cbn; lia|lia|].
  cbn [cb volume_bitmap cb_drive cb_bitmap_start_sector cb_bitmap_size_sectors] in Ho2. fold bsz in Ho2.
  set (mft := mkMft drive (mft_start_cluster sb) 4096).
  assert (capacity d2 drive = Some c) as Hc2 by (destruct Ho2 as [_ ->]; done).
  assert (∀ n, 0 ≤ n ≤ 7 → record_on_disk d2 mft n) as Hrec.
  { intros n Hn. assert (0 ≤ n / 4 ≤ 1) by (clear -Hn; dlia).
    unfold record_on_disk, record_cluster. cbn. split_and!; try lia. split_and!; try lia. exists c. split; [done|lia]. }
  destruct (create_system_files_ok d2 mft) as (d3 & E3 & St0 & St5 & Hother & Ho3); [by apply Hrec|by apply Hrec|].
  set (bt := mkBTree drive 0 (index_allocation_start sb) 4096).
  assert (capacity d3 drive = Some c) as Hc3 by (destruct Ho3 as [_ ->]; done).
  destruct (initialize_btree_root_ok d3 bt) as (d4 & E4 & Hroot & Ho4);
    [split_and!; cbn; try lia; split_and!; cbn; try lia; exists c; split; [done|lia]|done|].
  cbn [mft bt mft_drive mft_start bt_drive index_start] in Ho3, Ho4. rewrite Hmft in Ho3.
  assert (cb_drive cb2 = drive ∧ cb_bitmap_start_sector cb2 = bitmap_start_cluster sb * 8 ∧
          cb_bitmap_size_sectors cb2 = bsz) as (Gd & Gs & Gz) by (by rewrite Ecb2).
  destruct (bitmap_frame cb2 d2 d3 _ _ _ Hwf2 Ho3) as (Hwf3 & Hv3 & Hdb3); [rewrite Gs; right; right; lia|].
  destruct (bitmap_frame cb2 d3 d4 _ _ _ Hwf3 Ho4) as (Hwf4 & Hv4 & Hdb4); [rewrite Gs, Gz; right; left; lia|].
  set (journal := journal_manager_new drive (journal_start_cluster sb * 8) (journal_size_clusters sb * 8)).
  exists (mkGfs sb mft journal (mkFRM mft journal) bt (cluster_allocator_new cb2 FirstFit) drive), d4. split.
  { unfold format, mbindM, mlift, mul64, add64. unfold return_drive_size_bytes at 1.
    rewrite (dev_size_spec _ _ _ Hdr Hc). cbn [map_err]. rewrite <-Htot.
    rewrite bool_decide_eq_false_2 by lia. rewrite Esb, E1. change (4096 / 512) with 8.
    rewrite !(chk_ok 64) by lia. rewrite volume_bitmap_new by lia. fold cb. rewrite E2. fold mft bt. rewrite E3, E4. done. }
  assert (∀ dr a, dr ≠ drive ∨ a = 0 ∨ 0 < a < 128 → sector d4 dr a = sector d1 dr a) as Hlow.
  { intros dr a Ha. rewrite (proj1 Ho4), (proj1 Ho3), (proj1 Ho2); [done|lia..]. }
  split; cbn [gfs_super_block gfs_mft gfs_journal gfs_files gfs_btree gfs_allocator]; try done.
  - rewrite Hlow by lia. unfold sectors_at in Hb1. rewrite <-Hb1. change (seqZ 0 1) with [0]. cbn. by rewrite app_nil_r.
  - unfold mft. by rewrite Hmft.
  - rewrite <-St0. unfold stored. f_equal. apply (sectors_at_other _ _ _ _ _ _ _ _ Ho4).
    unfold record_cluster. cbn [mft mft_start]. change (0 / 4) with 0. lia.
  - rewrite <-St5. unfold stored. f_equal. apply (sectors_at_other _ _ _ _ _ _ _ _ Ho4).
    unfold record_cluster. cbn [mft mft_start]. change (5 / 4) with 1. lia.
  - apply alloc_inv_new; [done|]. rewrite Gz. lia.
  - intros x Hx. unfold cluster_free. cbn [al_bitmap cluster_allocator_new]. rewrite Hv4, Hv3, Hfree2 by done.
    do 2 f_equal. unfold view. cbn [cb volume_bitmap cb_cached_bitmap from_option]. unfold disk_bitmap.
    cbn [cb_drive cb_bitmap_start_sector cb_bitmap_size_sectors volume_bitmap]. fold bsz.
    apply (sectors_at_other _ _ _ _ _ _ _ _ Ho1). cbn [cb volume_bitmap cb_bitmap_start_sector]. lia.
  - exists bm, b. by rewrite Ecb2.
  - cbn [al_bitmap cluster_allocator_new]. by rewrite Hdb4, Hdb3, Hv4, Hv3.
  - intros dr. by rewrite (proj2 Ho4), (proj2 Ho3), (proj2 Ho2), (proj2 Ho1).
  - intros n Hn Hn0 Hn5. assert (0 ≤ n / 4 ≤ 1) by (clear -Hn; dlia). unfold stored at 1. rewrite (sectors_at_other _ _ _ _ _ _ _ _ Ho4) by (unfold record_cluster; cbn; lia).
    fold (stored d3 mft n). rewrite Hother by (done || lia). unfold stored. f_equal.
    rewrite (sectors_at_other _ _ _ _ _ _ _ _ Ho2), (sectors_at_other _ _ _ _ _ _ _ _ Ho1) by (unfold record_cluster; cbn; lia). done.
  - intros dr a Ha. unfold formatted_sector in Ha. fold bsz in Ha. cbn [cb volume_bitmap cb_bitmap_start_sector cb_drive] in Ho2.
    rewrite (proj1 Ho4), (proj1 Ho3), (proj1 Ho2), (proj1 Ho1); [done|lia..].
Qed.

(** ** Operations on a fresh volume *)
Lemma sectors_at_ext d d' dr lba n :
  (∀ a, lba ≤ a < lba + n → sector d' dr a = sector d dr a) → sectors_at d' dr lba n = sectors_at d dr lba n.
Proof.
  intros Hs. unfold sectors_at. f_equal. apply list_fmap_ext. intros i a Ha.
  apply list_elem_of_lookup_2, elem_of_seqZ in Ha. apply Hs. lia.
Qed.

(** Where the areas of a fresh volume lie, for the records of the first sixteen clusters of the table. *)
Lemma fresh_volume_areas drive total d0 d g n :
  fresh_volume drive total d0 d g → 145 ≤ total ≤ 255 * 4096 → 0 ≤ n < 64 →
  record_cluster (gfs_mft g) n * 8 + 8 ≤ jm_start_sector (gfs_journal g) ∧ 0 ≤ record_cluster (gfs_mft g) n ∧
  jm_start_sector (gfs_journal g) + jm_size_sectors (gfs_journal g) + 1 ≤ index_start (gfs_btree g) * 8 ∧
  64 ≤ jm_size_sectors (gfs_journal g) ∧ index_start (gfs_btree g) + 100 ≤ total.
Proof.
  intros Hv Ht Hn. destruct (layout_ok total ltac:(lia)) as (sb & Esb & _ & _ & Hmft & Hmir & Hjs & Hjz & Hbs & Hbz & Hix & Hend).
  rewrite (fv_super _ _ _ _ _ Hv) in Esb. injection Esb as Esb.
  rewrite (fv_journal _ _ _ _ _ Hv), (fv_btree _ _ _ _ _ Hv), (fv_mft _ _ _ _ _ Hv), Esb. unfold record_cluster.
  cbn [mft_start jm_start_sector jm_size_sectors journal_manager_new index_start].
  assert (0 ≤ n / 4 ≤ 15) by (clear -Hn; dlia). lia.
Qed.

(** Formatting leaves the sector alone that mounting reads. *)
Lemma fresh_volume_sector1 drive total d0 d g :
  fresh_volume drive total d0 d g → 145 ≤ total ≤ 255 * 4096 → sector d drive 1 = sector d0 drive 1.
Proof.
  intros Hv Ht. destruct (layout_ok total ltac:(lia)) as (sb & Esb & _ & _ & Hmft & Hmir & Hjs & Hjz & Hbs & Hbz & Hix & Hend).
  rewrite (fv_super _ _ _ _ _ Hv) in Esb. injection Esb as Esb. apply (fv_frame _ _ _ _ _ Hv). right.
  rewrite Esb. unfold formatted_sector. lia.
Qed.

Lemma fresh_volume_drive drive total d0 d g c :
  fresh_volume drive total d0 d g → 0 ≤ drive ≤ 3 → capacity d0 drive = Some c → total = c * 512 / 4096 →
  ∀ lba n, 0 ≤ lba → lba + n ≤ total * 8 → on_drive d drive lba n.
Proof.
  intros Hv Hd Hc Ht lba n Hl Hn. split; [done|]. split; [done|]. exists c.
  rewrite (fv_capacity _ _ _ _ _ Hv). split; [done|]. pose proof (Z.mul_div_le (c * 512) 4096 ltac:(lia)). lia.
Qed.

Lemma fresh_volume_frm_ok drive total d0 g (w : World D) c b :
  fresh_volume drive total d0 (w_dev w) g → 145 ≤ total ≤ 255 * 4096 →
  0 ≤ drive ≤ 3 → capacity d0 drive = Some c → total = c * 512 / 4096 → 1 ≤ b < 2 ^ 62 → 0 ≤ w_counter w ≤ b →
  frm_ok b (gfs_files g) w.
Proof.
  intros Hv Ht Hd Hc Htot Hb Hw. pose proof (fresh_volume_areas _ _ _ _ _ 0 Hv Ht ltac:(lia)) as (H1 & H2 & H3 & H4 & H5).
  pose proof (capacity_bound _ _ _ Hc). pose proof (Z.mul_div_le (c * 512) 4096 ltac:(lia)).
  pose proof (fresh_volume_drive _ _ _ _ _ _ Hv Hd Hc Htot) as Hon.
  pose proof (fv_journal _ _ _ _ _ Hv) as Ej. rewrite (fv_files _ _ _ _ _ Hv). split; cbn [frm_journal].
  - split; [lia|]. assert (jm_drive (gfs_journal g) = drive) as -> by (by rewrite Ej). apply Hon; lia.
  - rewrite Ej. split; constructor.
  - rewrite Ej. unfold counters_below. cbn. lia.
  - lia.
  - lia.
Qed.

(** What the lookup of a name that was just inserted answers. *)
Definition lookup_outcome (name : list Z) : fsres (option Z) :=
  match (length name mod 8)%nat with
  | 0%nat => Ok None
  | 5%nat => Panic
  | 7%nat => Err InvalidParameter
  | _ => Hang
  end.

(** Writing the file's record leaves the index root, and the index root the file's record. *)
Lemma create_on_fresh drive total d0 g (w : World D) c b depth parent name data :
  fresh_volume drive total d0 (w_dev w) g → 145 ≤ total ≤ 255 * 4096 →
  0 ≤ drive ≤ 3 → capacity d0 drive = Some c → total = c * 512 / 4096 → 1 ≤ b → b + 3 < 2 ^ 62 → 0 ≤ w_counter w ≤ b →
  0 ≤ w_next_record w < 64 → zlen name ≤ 255 → (length data mod 8 = 0)%nat → zlen data ≤ 700 →
  zlen (file_name_serialize (file_name_new parent name false)) + zlen data ≤ 820 →
  ∃ g1 w1, gfs_create_file (S depth) parent name (Some data) (g, w) = (Ok (w_next_record w), (g1, w1)) ∧
    record_on_disk (w_dev w1) (frm_mft (gfs_files g1)) (w_next_record w) ∧
    file_at w1 (frm_mft (gfs_files g1)) (w_next_record w) data ∧
    gfs_btree g1 = gfs_btree g ∧ node_on_disk (w_dev w1) (gfs_btree g) 0 ∧
    node_bytes (w_dev w1) (gfs_btree g) 0 = node_serialize (one_name_root 0 (w_next_record w) (file_name_new parent name false)).
Proof.
  intros Hv Ht Hd Hc Htot Hb1 Hb Hw Hn Hname Hal H700 Hfit. set (n := w_next_record w) in *.
  pose proof (fresh_volume_areas _ _ _ _ _ n Hv Ht Hn) as (A1 & A2 & A3 & A4 & A5).
  pose proof (fresh_volume_drive _ _ _ _ _ _ Hv Hd Hc Htot) as Hon.
  pose proof (fv_files _ _ _ _ _ Hv) as Ef. pose proof (fv_mft _ _ _ _ _ Hv) as Em.
  pose proof (fv_btree _ _ _ _ _ Hv) as Eb. pose proof (fv_journal _ _ _ _ _ Hv) as Ej.
  assert (frm_ok b (gfs_files g) w) as Hfrm by (eapply fresh_volume_frm_ok; try done; lia).
  assert (record_on_disk (w_dev w) (frm_mft (gfs_files g)) n) as Hrd.
  { rewrite Ef. cbn [frm_mft]. rewrite Em in *. split; [done|]. split; [done|]. split; [lia|]. apply Hon; lia. }
  destruct (create_file_ok b (gfs_files g) w parent name data) as (f1 & w1 & E1 & Hok1 & Hfile & Hk & _);
    try done; try (unfold n in *; lia).
  { right. left. rewrite Ef. cbn [frm_mft frm_journal]. exact A1. }
  fold n in E1, Hfile, Hk.
  assert (∀ a, index_start (gfs_btree g) * 8 ≤ a → sector (w_dev w1) drive a = sector (w_dev w) drive a) as Hroot.
  { intros a Ha. apply (fk_outside _ _ _ _ _ Hk).
    - right. right. rewrite Ef. cbn [frm_journal]. lia.
    - right. right. rewrite Ef. cbn [frm_mft]. lia. }
  destruct (fv_root _ _ _ _ _ Hv) as [Hron Hrb].
  assert (root_vcn (gfs_btree g) = 0 ∧ bt_drive (gfs_btree g) = drive) as [Er Edr] by (by rewrite Eb).
  assert (empty_directory (w_dev w1) (gfs_btree g)) as Hempty.
  { split.
    - destruct Hron as (P1 & P2 & P3 & P4 & P5 & c' & Hc' & P6). do 5 (split; [done|]).
      exists c'. split; [|done]. by rewrite (fk_capacity _ _ _ _ _ Hk).
    - rewrite <-Hrb. apply sectors_at_ext. rewrite Er, Edr. intros a Ha. apply Hroot. lia. }
  destruct (insert_into_empty depth (gfs_btree g) w1 n (file_name_new parent name false) Hempty) as (d2 & E2 & Hon2 & Hb2 & Ho2);
    [exact Hname|].
  rewrite Er in *. rewrite Edr in Ho2.
  eexists (mkGfs (gfs_super_block g) (gfs_mft g) (gfs_journal g) f1 (gfs_btree g) (gfs_allocator g) (gfs_drive g)), (w_set_dev d2 w1).
  split.
  { unfold gfs_create_file, mbindM, on_files. rewrite E1. unfold on_btree. cbn [gfs_btree]. rewrite E2. done. }
  cbn [gfs_files gfs_btree w_dev w_set_dev]. pose proof (fk_mft _ _ _ _ _ Hk) as Efm.
  split.
  { eapply record_on_disk_only; [exact Ho2|]. by eapply file_kept_on_disk. }
  split; [|by split_and!].
  destruct Hfile as (r & Hr & Hst). exists r. split; [done|]. cbn [w_dev w_set_dev]. rewrite <-Hst, Efm. unfold stored. f_equal.
  apply (sectors_at_other _ _ _ _ _ _ _ _ Ho2). right. left. rewrite Ef. cbn [frm_mft]. lia.
Qed.

Lemma find_on_one_name bt (g : GalleonFilesystem) (w : World D) depth n name :
  gfs_btree g = bt → root_vcn bt = 0 → node_on_disk (w_dev w) bt 0 →
  node_bytes (w_dev w) bt 0 = node_serialize (one_name_root 0 n name) → in_u 64 n →
  Forall (λ b, 0 < b < 128) (fn_name name) → 1 ≤ zlen (fn_name name) ≤ 255 → 0 ≤ parent_directory name < 128 →
  ∃ w', gfs_find_file (S depth) (fn_name name) (g, w) = (lookup_outcome (fn_name name), (g, w')).
Proof.
  intros Eg Er Hon Hb Hn Ha Hk Hp. destruct (search_one_name depth bt (w_dev w) n name) as (d' & E); try done; try (by rewrite Er).
  exists (w_set_dev d' w). unfold gfs_find_file, btree_self, mbindM, get_self, on_world, on_dev. by rewrite Eg, E.
Qed.

(** ** Mounting *)
Lemma mount_read d drive c :
  0 ≤ drive ≤ 3 → capacity d drive = Some c → 2 ≤ c →
  ∃ d', ide_read_sectors drive 1 1 (zeros 512) d = (Ok (sector d drive 1), d') ∧ same_disk d d'.
Proof.
  intros Hd Hc H2. destruct (read_exact d drive 1 1 (zeros 512)) as (d' & E & Hs);
    [split; [done|]; split; [lia|]; exists c; split; [done|lia]|lia|unfold zlen; len|].
  exists d'. split; [|done]. rewrite E. unfold sectors_at. change (seqZ 1 1) with [1]. cbn. by rewrite app_nil_r.
Qed.

Lemma mount_invalid drive (w : World D) c :
  0 ≤ drive ≤ 3 → capacity (w_dev w) drive = Some c → 2 ≤ c →
  super_block_is_valid (sector (w_dev w) drive 1) = false →
  ∃ w', mount drive w = (Err InvalidBootBlock, w').
Proof.
  intros Hd Hc H2 Hv. destruct (mount_read _ _ _ Hd Hc H2) as (d' & E & _).
  exists (w_set_dev d' w). unfold mount. rewrite bool_decide_eq_false_2 by lia. unfold mbindM, on_dev. rewrite E, Hv. done.
Qed.

Lemma journal_on_disk_same j (w : World D) d' :
  same_disk (w_dev w) d' → journal_on_disk j w → journal_on_disk j (w_set_dev d' w).
Proof. intros Hs [Hsz Hon]. split; [done|]. by eapply on_drive_same. Qed.

(** A volume whose superblock is also in the sector that mounting reads: the managers come back as they
    were, the same clusters are free, and the disk is not changed. *)
Lemma mount_fresh drive total d0 g (w : World D) c :
  fresh_volume drive total d0 (w_dev w) g → 145 ≤ total ≤ 255 * 4096 →
  0 ≤ drive ≤ 3 → capacity d0 drive = Some c → total = c * 512 / 4096 → 0 ≤ w_counter w < 2 ^ 61 →
  sector d0 drive 1 = gsb_serialize (gfs_super_block g) → (∀ a, bytes_ok (sector (w_dev w) drive a)) →
  ∃ g' d', mount drive w = (Ok g', w_set_dev d' w) ∧ same_disk (w_dev w) d' ∧
    gfs_super_block g' = gfs_super_block g ∧ gfs_mft g' = gfs_mft g ∧ gfs_journal g' = gfs_journal g ∧
    gfs_files g' = gfs_files g ∧ gfs_btree g' = gfs_btree g ∧ alloc_inv (gfs_allocator g') d' ∧
    ∀ x, 0 ≤ x → cluster_free (gfs_allocator g') d' x = cluster_free (gfs_allocator g) (w_dev w) x.
Proof.
  intros Hv Ht Hd Hc Htot Hw H1 Hbytes. set (sb := gfs_super_block g) in *.
  pose proof (Z.mul_div_le (c * 512) 4096 ltac:(lia)) as Hc8.
  assert (capacity (w_dev w) drive = Some c) as Hcw by (by rewrite (fv_capacity _ _ _ _ _ Hv)).
  destruct (mount_read _ _ _ Hd Hcw ltac:(lia)) as (d1 & E1 & Hs1).
  rewrite (fresh_volume_sector1 drive total d0 _ g Hv Ht), H1 in E1.
  destruct (layout_ok total ltac:(lia)) as (sb' & Esb & Hleg & Hcs & Hmft & Hmir & Hjs & Hjz & Hbs & Hbz & Hix & Hend).
  rewrite (fv_super _ _ _ _ _ Hv) in Esb. injection Esb as Esb. fold sb in Esb. subst sb'.
  pose proof (galleon_super_block_new_wf total 4096 sb ltac:(lia) ltac:(lia) (fv_super _ _ _ _ _ Hv)) as Hwf.
  assert (super_block_is_valid (gsb_serialize sb) = true) as Hvalid.
  { apply gsb_valid; [apply Hwf|by rewrite Hleg]. }
  pose proof (fv_journal _ _ _ _ _ Hv) as Ej. fold sb in Ej.
  destruct (fresh_volume_frm_ok drive total d0 g w c (2 ^ 61) Hv Ht Hd Hc Htot ltac:(lia) ltac:(lia)) as [Hjd _ _ _ _].
  rewrite (fv_files _ _ _ _ _ Hv) in Hjd. cbn [frm_journal] in Hjd.
  destruct (recover_ok (gfs_journal g) (w_set_dev d1 w)) as (d2 & E2 & Hs2).
  { by apply journal_on_disk_same. }
  { intros a. cbn [w_dev w_set_dev]. rewrite (proj1 Hs1). rewrite Ej. apply Hbytes. }
  cbn [w_dev w_set_dev] in Hs2. destruct (fv_root _ _ _ _ _ Hv) as [Hron Hrb]. pose proof (fv_btree _ _ _ _ _ Hv) as Eb. fold sb in Eb.
  assert (same_disk (w_dev w) d2) as Hs12 by (by etrans).
  destruct (read_node_ok d2 (gfs_btree g) 0) as (d3 & E3 & Hs3).
  { eapply node_on_disk_same; [exact Hs12|]. by rewrite Eb in *. }
  assert (node_bytes d2 (gfs_btree g) 0 = node_serialize (empty_root 0)) as Hnb.
  { rewrite Eb in Hrb. cbn [root_vcn] in Hrb. rewrite <-Hrb, Eb. by apply sectors_at_same. }
  rewrite Hnb, empty_root_reads in E3. assert (same_disk (w_dev w) d3) as Hs13 by (by etrans).
  set (cb := volume_bitmap drive (bitmap_start_cluster sb * 8) total).
  eexists (mkGfs sb (gfs_mft g) (gfs_journal g) (gfs_files g) (gfs_btree g) (cluster_allocator_new cb FirstFit) drive), d3.
  split.
  { unfold mount. rewrite bool_decide_eq_false_2 by lia. unfold mbindM, on_dev, mlift, mul64.
    rewrite E1, Hvalid. cbn [negb]. rewrite gsb_roundtrip_ok by done. rewrite Hcs, bool_decide_eq_false_2 by lia.
    change (4096 / 512) with 8. rewrite !(chk_ok 64) by lia. rewrite Hleg.
    change (total_blocks (super_block_new 4096 total MFT_RECORD_ROOT)) with total.
    rewrite volume_bitmap_new by lia. fold cb. rewrite <-Ej. unfold run_journal. rewrite E2. cbn [w_dev w_set_dev].
    rewrite <-Eb. unfold root_needs_init. rewrite E3. change (is_leaf (node_header (empty_root 0))) with true. cbn [negb].
    unfold mok, w_set_dev. cbn [w_next_record w_next_vcn w_counter].
    rewrite (fv_files _ _ _ _ _ Hv), (fv_mft _ _ _ _ _ Hv), Hmft. do 3 f_equal. rewrite Ej. done. }
  split; [done|]. cbn [gfs_super_block gfs_mft gfs_journal gfs_files gfs_btree gfs_allocator]. do 5 (split; [done|]).
  destruct (volume_bitmap_size total ltac:(lia)) as (Hsz & _ & Hmin).
  pose proof (Hmin 255 ltac:(lia)). pose proof (Hmin (bitmap_size_clusters sb * 8) ltac:(lia)). split.
  { apply alloc_inv_new; [|cbn; lia]. apply (volume_bitmap_wf _ _ _ _ c); try done; try lia. by rewrite (proj2 Hs13). }
  intros x Hx. unfold cluster_free. destruct (fv_bitmap _ _ _ _ _ Hv) as (bm & b & Eal). fold sb cb in Eal.
  pose proof (fv_flushed _ _ _ _ _ Hv) as Hfl. rewrite Eal in *. cbn [al_bitmap cluster_allocator_new] in *.
  rewrite <-Hfl. f_equal. transitivity (disk_bitmap cb (w_dev w)); [|done]. by apply (same_disk_bitmap cb).
Qed.

(** ** Volumes that are too small *)
Lemma mark_system_clusters_small cb st d n :
  bitmap_wf cb d → 0 < cb_total_clusters cb < n → n < 2 ^ 63 →
  ∃ d', mark_system_clusters (cluster_allocator_new cb st) n d = (Err InvalidParameter, d') ∧ same_disk d d'.
Proof.
  intros Hwf Hn Hn63. set (k := cb_total_clusters cb) in *.
  assert (run_inside cb (mkRun 0 k)) as Hin by (split; unfold run_ok, run_end; cbn; fold k; lia).
  destruct (mark_run_used_spec cb d (mkRun 0 k) Hwf Hin) as (bm & d1 & E1 & Hs1 & _ & _).
  unfold mark_run_used in E1. unfold mbindM at 1, mlift, add64 in E1.
  cbn [start_cluster cluster_count] in E1. rewrite chk_ok in E1 by lia.
  exists d1. split; [|done]. unfold mark_system_clusters, mbindM, cluster_allocator_new. rewrite mfor_on_bitmap.
  replace n with (k + (1 + (n - k - 1))) by lia. rewrite seqZ_app, mfor_app by lia. unfold mbindM.
  change (seqZ 0 k) with (run_clusters (mkRun 0 k)). rewrite E1.
  rewrite seqZ_app by lia. cbn [app mfor]. unfold mbindM.
  change (seqZ (0 + k) 1) with [0 + k]. cbn [app mfor]. unfold mbindM, set_cluster_used.
  rewrite update_cluster_range by (cbn; fold k; lia). done.
Qed.
End format_spec.

(** ** Properties *)

(** C28: formatting builds a volume. On a drive of 145 to 1044480 clusters [format] succeeds: sector 0 holds
    the superblock, the root directory is empty, the two system records are in the file table, the
    allocator satisfies its invariant with exactly the system clusters added to what the bitmap sectors
    said before. No sector is written other than sector 0, the first two clusters of the file table, the bitmap
    and the cluster of the root directory; the six other records of the two clusters keep their bytes. *)
Theorem format_makes_volume {D} `{SectorDevLaws D} (d0 : D) drive c total :
  0 ≤ drive ≤ 3 → capacity d0 drive = Some c → total = c * 512 / 4096 → 145 ≤ total ≤ 255 * 4096 →
  ∃ g d, format drive d0 = (Ok g, d) ∧ fresh_volume drive total d0 d g.
Proof. apply format_ok. Qed.

Definition demo_drive : RamDisk := mkRam {[0 := 1600]} ∅.

Lemma format_makes_volume_witness : ∃ g d, format 0 demo_drive = (Ok g, d) ∧ fresh_volume 0 200 demo_drive d g.
Proof. apply (format_makes_volume demo_drive 0 1600 200); [lia|by vm_compute|by vm_compute|lia]. Defined.

(** A freshly formatted volume does not mount. [format] writes the superblock to sector 0 and [mount]
    reads sector 1: unless a valid superblock was there before, mounting after formatting reports an
    invalid boot block. *)
Theorem format_then_mount_fails {D} `{SectorDevLaws D} (d0 : D) drive c total n v k :
  0 ≤ drive ≤ 3 → capacity d0 drive = Some c → total = c * 512 / 4096 → 145 ≤ total ≤ 255 * 4096 →
  super_block_is_valid (sector d0 drive 1) = false →
  ∃ g d w, format drive d0 = (Ok g, d) ∧ mount drive (mkWorld d n v k) = (Err InvalidBootBlock, w).
Proof.
  intros Hd Hc Ht Hb Hv. destruct (format_ok d0 drive c total Hd Hc Ht Hb) as (g & d & E & Hf).
  pose proof (Z.mul_div_le (c * 512) 4096 ltac:(lia)).
  destruct (mount_invalid drive (mkWorld d n v k) c) as (w & Em); [done| |lia| |by exists g, d, w].
  - cbn. by rewrite (fv_capacity _ _ _ _ _ Hf).
  - cbn. by rewrite (fresh_volume_sector1 drive total d0 d g Hf Hb).
Qed.

Lemma format_then_mount_fails_witness :
  ∃ g d w, format 0 demo_drive = (Ok g, d) ∧ mount 0 (mkWorld d 16 1 0) = (Err InvalidBootBlock, w).
Proof.
  apply (format_then_mount_fails demo_drive 0 1600 200); [lia|by vm_compute|by vm_compute|lia|by vm_compute].
Defined.

(** C29: mounting gives the volume back where the superblock can be read. If sector 1 also holds the
    superblock, mounting a fresh volume succeeds without changing a sector: all managers are as [format]
    left them, the allocator's invariant holds and the same clusters are free. *)
Theorem mount_restores_volume {D} `{SectorDevLaws D} drive total (d0 : D) g (w : World D) c :
  fresh_volume drive total d0 (w_dev w) g → 145 ≤ total ≤ 255 * 4096 →
  0 ≤ drive ≤ 3 → capacity d0 drive = Some c → total = c * 512 / 4096 → 0 ≤ w_counter w < 2 ^ 61 →
  sector d0 drive 1 = gsb_serialize (gfs_super_block g) → (∀ a, bytes_ok (sector (w_dev w) drive a)) →
  ∃ g' d', mount drive w = (Ok g', w_set_dev d' w) ∧ same_disk (w_dev w) d' ∧
    gfs_super_block g' = gfs_super_block g ∧ gfs_mft g' = gfs_mft g ∧ gfs_journal g' = gfs_journal g ∧
    gfs_files g' = gfs_files g ∧ gfs_btree g' = gfs_btree g ∧ alloc_inv (gfs_allocator g') d' ∧
    ∀ x, 0 ≤ x → cluster_free (gfs_allocator g') d' x = cluster_free (gfs_allocator g) (w_dev w) x.
Proof. apply mount_fresh. Qed.

(** The demonstration drive with the superblock of its volume in sector 1. *)
Definition demo_super : list Z :=
  match @galleon_super_block_new 200 4096 with Ok sb => gsb_serialize sb | _ => [] end.
Definition demo_prepared : RamDisk := mkRam {[0 := 1600]} {[ (0, 1) := demo_super ]}.
Definition demo_formatted : World RamDisk := boot_world (format 0 demo_prepared).2.
Definition demo_all_bytes (d : RamDisk) : bool :=
  forallb (λ bs, forallb (λ b, (0 <=? b) && (b <? 256)) bs) (map_to_list (ram_sectors d)).*2.

Lemma demo_all_bytes_ok d drive a : demo_all_bytes d = true → bytes_ok (ram_sector d drive a).
Proof.
  unfold demo_all_bytes. rewrite forallb_forall. intros Hall. unfold ram_sector. apply Forall_take, Forall_app_2; [|apply zeros_ok].
  destruct (ram_sectors d !! (drive, a)) as [bs|] eqn:E; [|constructor]. cbn. apply bytes_ok_forallb, Hall.
  apply list_elem_of_In, list_elem_of_fmap. exists ((drive, a), bs). split; [done|]. by apply elem_of_map_to_list.
Qed.

Lemma mount_restores_volume_witness :
  ∃ g g' d', fresh_volume 0 200 demo_prepared (w_dev demo_formatted) g ∧
    mount 0 demo_formatted = (Ok g', w_set_dev d' demo_formatted) ∧ gfs_btree g' = gfs_btree g.
Proof.
  destruct (format_ok demo_prepared 0 1600 200) as (g & d & E & Hf); [lia|by vm_compute|by vm_compute|lia|].
  assert (d = w_dev demo_formatted) as Ed by (change (w_dev demo_formatted) with (format 0 demo_prepared).2; by rewrite E).
  rewrite Ed in Hf.
  destruct (mount_restores_volume 0 200 demo_prepared g demo_formatted 1600 Hf)
    as (g' & d' & Em & _ & _ & _ & _ & _ & Eb & _);
    [lia|lia|by vm_compute|by vm_compute|cbn; lia| | |].
  - pose proof (fv_super _ _ _ _ _ Hf) as Es. change (sector demo_prepared 0 1) with (take 512 (demo_super ++ zeros 512)).
    unfold demo_super. rewrite Es. apply take_app_length'. symmetry.
    apply (Len_gsb_serialize (gfs_super_block g)), (gw_legacy _ (galleon_super_block_new_wf 200 4096 _ ltac:(lia) ltac:(lia) Es)).
  - intros a. apply demo_all_bytes_ok. by vm_compute.
  - exists g, g', d'. split; [exact Hf|]. split; [exact Em|exact Eb].
Defined.

(** On a fresh volume a new file can be read by number but not found by name. [create_file] succeeds
    and reading the returned record gives the content; looking the name up reports that it does not exist
    when its length is a multiple of eight, and otherwise fails, panics or never returns. *)
Theorem created_file_not_found {D} `{SectorDevLaws D} drive total (d0 : D) g (w : World D) c b depth parent name data :
  fresh_volume drive total d0 (w_dev w) g → 145 ≤ total ≤ 255 * 4096 →
  0 ≤ drive ≤ 3 → capacity d0 drive = Some c → total = c * 512 / 4096 → 1 ≤ b → b + 3 < 2 ^ 62 → 0 ≤ w_counter w ≤ b →
  0 ≤ w_next_record w < 64 → Forall (λ x, 0 < x < 128) name → 1 ≤ zlen name ≤ 255 → 0 ≤ parent < 128 →
  (length data mod 8 = 0)%nat → zlen data ≤ 700 →
  zlen (file_name_serialize (file_name_new parent name false)) + zlen data ≤ 820 →
  ∃ g1 w1 g2 w2 w3,
    gfs_create_file (S depth) parent name (Some data) (g, w) = (Ok (w_next_record w), (g1, w1)) ∧
    gfs_read_file (w_next_record w) (g1, w1) = (Ok data, (g2, w2)) ∧
    gfs_find_file (S depth) name (g1, w1) = (lookup_outcome name, (g1, w3)).
Proof.
  intros Hv Ht Hd Hc Htot Hb1 Hb Hw Hn Hasc Hname Hpar Hal H700 Hfit.
  destruct (create_on_fresh drive total d0 g w c b depth parent name data)
    as (g1 & w1 & E1 & Hrd & Hfile & Ebt & Hon & Hnb); try done; try lia.
  destruct (read_file_ok (gfs_files g1) w1 (w_next_record w) data Hrd Hfile) as (d2 & E2 & _).
  destruct (find_on_one_name (gfs_btree g) g1 w1 depth (w_next_record w) (file_name_new parent name false))
    as (w3 & E3); try done; try (unfold in_u; lia).
  { by rewrite (fv_btree _ _ _ _ _ Hv). }
  eexists g1, w1, _, _, w3. split; [exact E1|]. split; [|exact E3].
  unfold gfs_read_file, on_files. rewrite E2. reflexivity.
Qed.

Lemma created_file_not_found_witness :
  ∃ g g1 w1 g2 w2 w3,
    gfs_create_file 1 5 [114; 101; 97; 100; 46; 116; 120; 116] (Some (zeros 16)) (g, demo_formatted) = (Ok 16, (g1, w1)) ∧
    gfs_read_file 16 (g1, w1) = (Ok (zeros 16), (g2, w2)) ∧
    gfs_find_file 1 [114; 101; 97; 100; 46; 116; 120; 116] (g1, w1) = (Ok None, (g1, w3)).
Proof.
  destruct (format_ok demo_prepared 0 1600 200) as (g & d & E & Hf); [lia|by vm_compute|by vm_compute|lia|].
  assert (d = w_dev demo_formatted) as Ed by (change (w_dev demo_formatted) with (format 0 demo_prepared).2; by rewrite E).
  rewrite Ed in Hf.
  destruct (created_file_not_found 0 200 demo_prepared g demo_formatted 1600 10 0 5
              [114; 101; 97; 100; 46; 116; 120; 116] (zeros 16) Hf) as (g1 & w1 & g2 & w2 & w3 & E1 & E2 & E3).
  - lia.
  - lia.
  - by vm_compute.
  - by vm_compute.
  - lia.
  - lia.
  - change (w_counter demo_formatted) with 0. lia.
  - change (w_next_record demo_formatted) with 16. lia.
  - clear. forall_list; lia.
  - clear. by vm_compute.
  - lia.
  - clear. by vm_compute.
  - clear. by vm_compute.
  - clear. by vm_compute.
  - change (w_next_record demo_formatted) with 16 in E1, E2.
    change (lookup_outcome [114; 101; 97; 100; 46; 116; 120; 116]) with (@Ok FilesystemError (option Z) None) in E3.
    exists g, g1, w1, g2, w2, w3. split; [exact E1|]. split; [exact E2|exact E3].
Defined.

(** A drive of 100 to 144 clusters passes the size test of [format], which overwrites sector 0 and then
    fails with an invalid parameter, because it marks clusters behind the end of the volume. *)
Theorem format_small_volume {D} `{SectorDevLaws D} (d0 : D) drive c total :
  0 ≤ drive ≤ 3 → capacity d0 drive = Some c → total = c * 512 / 4096 → 100 ≤ total < 145 →
  ∃ sb d, format drive d0 = (Err InvalidParameter, d) ∧ galleon_super_block_new total 4096 = Ok sb ∧
    sector d drive 0 = gsb_serialize sb.
Proof.
  intros Hdr Hc Htot Hb. pose proof (Z.mul_div_le (c * 512) 4096 ltac:(lia)) as Hc8.
  destruct (galleon_super_block_new_ok total 4096) as (sb & Esb & _ & Hmft & Hmir & Hjs & Hjz & Hbs & Hbz & Hix & _); [lia..|].
  pose proof (galleon_super_block_new_wf total 4096 sb ltac:(lia) ltac:(lia) Esb) as Hwf.
  assert (length (gsb_serialize sb) = 512%nat) as Hlen by (apply Len_gsb_serialize, (gw_legacy _ Hwf)).
  assert (clamp 16 256 (total / 128) = 16 ∧ clamp 8 64 (total / 256) = 8) as [C1 C2].
  { assert (0 ≤ total / 128 ≤ 1 ∧ total / 256 = 0) by (clear -Hb; dlia). unfold clamp. lia. }
  assert ((total + 8 * 4096 - 1) / (8 * 4096) = 1) as C3 by (clear -Hb; dlia).
  rewrite C1 in *. rewrite C2, C3 in *. change (16 / 4) with 4 in *.
  destruct (write_exact d0 drive 1 0 (gsb_serialize sb)) as (d1 & E1 & Hb1 & Ho1);
    [split; [lia|]; split; [lia|]; exists c; split; [done|lia]|lia|unfold zlen; lia|].
  destruct (volume_bitmap_size total ltac:(lia)) as (Hsz & _ & Hmin). pose proof (Hmin 1 ltac:(lia)).
  assert (bitmap_wf (volume_bitmap drive (bitmap_start_cluster sb * 8) total) d1) as Hwf1.
  { apply (volume_bitmap_wf _ _ _ _ c); [done|lia|lia|by rewrite (proj2 Ho1)|lia]. }
  destruct (mark_system_clusters_small _ FirstFit d1 (index_allocation_start sb + 100) Hwf1) as (d2 & E2 & Hs2); [cbn; lia|lia|].
  exists sb, d2. split; [|split; [done|]].
  - unfold format, mbindM, mlift, mul64, add64. unfold return_drive_size_bytes at 1.
    rewrite (dev_size_spec _ _ _ Hdr Hc). cbn [map_err]. rewrite <-Htot.
    rewrite bool_decide_eq_false_2 by lia. rewrite Esb, E1. change (4096 / 512) with 8.
    rewrite !(chk_ok 64) by lia. rewrite volume_bitmap_new by lia. by rewrite E2.
  - rewrite (proj1 Hs2). unfold sectors_at in Hb1. rewrite <-Hb1. change (seqZ 0 1) with [0]. cbn. by rewrite app_nil_r.
Qed.

Lemma format_small_volume_witness :
  ∃ sb d, format 0 (mkRam {[0 := 960]} ∅) = (Err InvalidParameter, d) ∧ galleon_super_block_new 120 4096 = Ok sb ∧
    sector d 0 0 = gsb_serialize sb.
Proof. apply (format_small_volume (mkRam {[0 := 960]} ∅) 0 960 120); [lia|by vm_compute|by vm_compute|lia]. Defined.
