(* ===== verification/FileManager.v ===== *)
(** * The file manager of galleon2 ([crates/galleon2/src/file.rs], [types/pathbuf.rs])

    The interface the rest of the kernel uses: operations by name in a current
    directory, over [GalleonFilesystem]. *)

From S2P Require Import Prelude Utf8 Device Runs Bitmap Allocator SuperBlock Mft Journal FileRecord Btree GalleonFs.

(** [PathBuf] *)
Record PathBuf := mkPath { path : list Z }.
Definition SLASH : Z := 47.

Definition path_new (p : list Z) : PathBuf := mkPath p.

Definition path_push (segment : list Z) (p : PathBuf) : PathBuf :=
  let sep := if negb (bool_decide (last (path p) = Some SLASH)) && negb (bool_decide (path p = []))
             then [SLASH] else [] in
  mkPath (path p ++ sep ++ segment).

Definition path_as_str (p : PathBuf) : list Z := path p.

(** [FileManager] *)
Record FileManager := mkFileManager {
  filesystem : GalleonFilesystem;
  current_directory : Z;
}.

Definition file_manager_new (g : GalleonFilesystem) : FileManager := mkFileManager g 5.

Section file_manager.
Context {D : Type} `{SectorDev D}.
Context (depth : nat).
Abbreviation FMM := (M (FileManager * World D) FilesystemError).

Definition on_fs {A} (m : M (GalleonFilesystem * World D) FilesystemError A) : FMM A := λ '(fm, w),
  let '(r, (g, w')) := m (filesystem fm, w) in (r, (mkFileManager g (current_directory fm), w')).

Definition format_drive (drive : Z) : M (World D) FilesystemError FileManager :=
  let! g := on_dev (format drive) in mok (file_manager_new g).

Definition mount_drive (drive : Z) : M (World D) FilesystemError FileManager :=
  let! g := mount drive in mok (file_manager_new g).

Definition fm_create_file (name : list Z) (contents : option (list Z)) : FMM Z :=
  let! fm := get_self in on_fs (gfs_create_file depth (current_directory fm) name contents).

Definition create_file_binary (name data : list Z) : FMM Z :=
  let! fm := get_self in on_fs (gfs_create_file depth (current_directory fm) name (Some data)).

Definition fm_create_directory (name : list Z) : FMM Z :=
  let! fm := get_self in on_fs (gfs_create_directory depth (current_directory fm) name).

Definition read_file_binary (file_record : Z) : FMM (list Z) := on_fs (gfs_read_file file_record).

Definition read_file_text (file_record : Z) : FMM (list Z) :=
  let! data := on_fs (gfs_read_file file_record) in
  match from_utf8 data with Some s => mok s | None => merr InvalidParameter end.

Definition write_file_text (file_record : Z) (content : list Z) : FMM unit :=
  on_fs (gfs_write_file file_record content).
Definition write_file_binary (file_record : Z) (data : list Z) : FMM unit :=
  on_fs (gfs_write_file file_record data).

Definition fm_find_file (name : list Z) : FMM (option Z) := on_fs (gfs_find_file depth name).

Definition fm_delete_file (name : list Z) : FMM unit :=
  let! found := on_fs (gfs_find_file depth name) in
  match found with
  | Some file_record => on_fs (gfs_delete_file depth file_record name)
  | None => merr InvalidParameter
  end.

Definition list_files : FMM (list (list Z * Z)) := on_fs (gfs_list_directory depth).

Definition set_current (dir : Z) : FMM unit :=
  let! fm := get_self in set_self (mkFileManager (filesystem fm) dir).

Definition change_directory (name : list Z) : FMM unit :=
  let! found := on_fs (gfs_find_file depth name) in
  match found with
  | Some dir_record => set_current dir_record
  | None => merr InvalidParameter
  end.

Definition get_current_directory (fm : FileManager) : Z := current_directory fm.
Definition move_to_parent : FMM unit := set_current 5.
Definition fm_get_stats : FMM FilesystemStats := on_fs get_stats.
Definition fm_defragment : FMM unit := on_fs defragment.
Definition fm_sync : FMM unit := on_fs sync.

Definition copy_file (source_name dest_name : list Z) : FMM Z :=
  let! found := fm_find_file source_name in
  match found with
  | Some source_record =>
      let! data := read_file_binary source_record in
      create_file_binary dest_name data
  | None => merr InvalidParameter
  end.

Definition move_file (old_name new_name : list Z) : FMM unit :=
  let! _ := copy_file old_name new_name in fm_delete_file old_name.

Definition get_file_size (file_record : Z) : FMM Z :=
  let! data := read_file_binary file_record in mok (zlen data).

Definition file_exists (name : list Z) : FMM bool :=
  let! found := fm_find_file name in mok (bool_decide (is_Some found)).

Definition append_file_text (file_record : Z) (additional : list Z) : FMM unit :=
  let! existing := read_file_binary file_record in
  write_file_binary file_record (existing ++ additional).

Definition append_file_binary (file_record : Z) (additional : list Z) : FMM unit :=
  let! existing := read_file_binary file_record in
  write_file_binary file_record (existing ++ additional).

Definition truncate_file (file_record new_size : Z) : FMM unit :=
  let! data := read_file_binary file_record in
  if bool_decide (new_size < zlen data)
  then write_file_binary file_record (take (Z.to_nat new_size) data) else mok tt.

(** Path-based and legacy functions; the paths are ignored. *)
Definition create_file_at_path (_ : PathBuf) (name : list Z) (contents : option (list Z)) : FMM Z :=
  fm_create_file name contents.
Definition list_files_at_path (_ : PathBuf) : FMM (list (list Z * Z)) := list_files.
Definition delete_file_at_path (_ : PathBuf) (name : list Z) : FMM unit := fm_delete_file name.

(** A file manager that lives for one call. *)
Definition with_mounted (drive : Z) (m : FMM unit) : M (World D) FilesystemError unit :=
  let! fm := mount_drive drive in
  λ w, let '(r, (_, w')) := m (fm, w) in (r, w').

Definition legacy_create_file (drive : Z) (name : list Z) (contents : option (list Z)) :
    M (World D) FilesystemError unit :=
  with_mounted drive (let! _ := fm_create_file name contents in let! _ := fm_sync in mok tt).

Definition legacy_list_files (_ : Z) (_ : PathBuf) : fsres (list (list Z)) := Ok [].

Definition legacy_delete_file (drive : Z) (name : list Z) : M (World D) FilesystemError unit :=
  with_mounted drive (let! _ := fm_delete_file name in let! _ := fm_sync in mok tt).
End file_manager.
