(* ===== verification/KernelMemory.v ===== *)
(** * Physical memory ([crates/lib_kernel/src/memory/addr.rs], [frame_allocator.rs])

    The memory the kernel reaches through the direct map at [HHDM_OFFSET] is a
    store of 64-bit words, indexed by their virtual address. The frame bitmap
    and the page tables are words of that one store, so a write to one can
    destroy the other. The static variables of the memory subsystem are fields
    of the state. An access below the direct map is a page fault; the direct map
    itself is the boot loader's and stays as it is, so that an edit of a page
    table changes what the tables say and not how the kernel reaches memory. *)

From S2P Require Import Prelude.

(** ** Addresses *)
Definition PHYS_MASK : Z := 0x000FFFFFFFFFF000.
Definition phys_addr_new (addr : Z) : Z := Z.land addr PHYS_MASK.
Definition page_offset (v : Z) : Z := Z.land v 0xFFF.
Definition p4_index (v : Z) : Z := Z.land (Z.shiftr v 39) 0x1FF.
Definition p3_index (v : Z) : Z := Z.land (Z.shiftr v 30) 0x1FF.
Definition p2_index (v : Z) : Z := Z.land (Z.shiftr v 21) 0x1FF.
Definition p1_index (v : Z) : Z := Z.land (Z.shiftr v 12) 0x1FF.

Definition HHDM_OFFSET : Z := 0xFFFF800000000000.
Definition PAGE_SIZE : Z := 4096.

(** [FRAME_BITMAP], [TOTAL_FRAMES], [BITMAP_SIZE] and [KERNEL_PAGE_TABLE] are the static variables. *)
Record KMem := mkKMem {
  k_ram : gmap Z Z;
  FRAME_BITMAP : Z;
  TOTAL_FRAMES : Z;
  BITMAP_SIZE : Z;
  KERNEL_PAGE_TABLE : Z;
}.

Definition k_set_ram (m : gmap Z Z) (s : KMem) : KMem :=
  mkKMem m (FRAME_BITMAP s) (TOTAL_FRAMES s) (BITMAP_SIZE s) (KERNEL_PAGE_TABLE s).

Abbreviation KM := (M KMem Empty_set).

Definition word (s : KMem) (a : Z) : Z := default 0 (k_ram s !! a).

Definition load (a : Z) : KM Z := λ s,
  if bool_decide (a < HHDM_OFFSET) then (Panic, s) else (Ok (word s a), s).
Definition store (a v : Z) : KM unit := λ s,
  if bool_decide (a < HHDM_OFFSET) then (Panic, s) else (Ok tt, k_set_ram (<[a := v]> (k_ram s)) s).

(** The state at boot: the static variables are zero and null. *)
Definition kmem_boot (ram : gmap Z Z) : KMem := mkKMem ram 0 0 0 0.

(** ** [FrameAllocator]: one bit per frame, set when the frame is free *)

(** [!x] on [u64]. *)
Definition not64 (x : Z) : Z := Z.lxor (Z.ones 64) x.

(** [u64::trailing_zeros] *)
Fixpoint pos_trailing_zeros (p : positive) : Z :=
  match p with
  | xO p => 1 + pos_trailing_zeros p
  | _ => 0
  end.
Definition trailing_zeros (x : Z) : Z :=
  match x with
  | Zpos p => pos_trailing_zeros p
  | _ => 64
  end.

(** [*FRAME_BITMAP.add(index)] *)
Definition bitmap_ptr (s : KMem) (index : Z) : Z := FRAME_BITMAP s + 8 * index.

Definition update_frame (f : Z → Z → Z) (frame : Z) : KM unit :=
  let! s := mget in
  if bool_decide (TOTAL_FRAMES s ≤ frame) then mok tt else
  let! w := load (bitmap_ptr s (frame / 64)) in
  store (bitmap_ptr s (frame / 64)) (f w (Z.shiftl 1 (frame `mod` 64))).

Definition mark_free : Z → KM unit := update_frame Z.lor.
Definition mark_used : Z → KM unit := update_frame (λ w bit, Z.land w (not64 bit)).

(** The loop of [alloc_frame] from word [i], [n] words left. *)
Fixpoint alloc_loop (n : nat) (i : Z) : KM (option Z) :=
  match n with
  | O => mok None
  | S n =>
      let! s := mget in
      let! bitmap := load (bitmap_ptr s i) in
      let frame := i * 64 + trailing_zeros bitmap in
      if negb (bitmap =? 0) && bool_decide (frame < TOTAL_FRAMES s) then
        let! _ := mark_used frame in
        mok (Some (phys_addr_new (frame * PAGE_SIZE)))
      else alloc_loop n (i + 1)
  end.

Definition alloc_frame : KM (option Z) :=
  let! s := mget in alloc_loop (Z.to_nat (BITMAP_SIZE s)) 0.

Definition free_frame (addr : Z) : KM unit := mark_free (addr / PAGE_SIZE).

(** An entry of the boot loader's memory map; [me_usable] is the outcome of
    [entry.entry_type == EntryType::USABLE]. *)
Record MemEntry := mkEntry { me_base : Z; me_length : Z; me_usable : bool }.

Fixpoint max_end (max_addr : Z) (entries : list MemEntry) : res Empty_set Z :=
  match entries with
  | [] => Ok max_addr
  | e :: entries =>
      let? end_ := add64 (me_base e) (me_length e) in
      max_end (Z.max max_addr end_) entries
  end.

(** The search for a usable entry that holds the bitmap. *)
Fixpoint place_bitmap (entries : list MemEntry) : KM unit :=
  match entries with
  | [] => mok tt
  | e :: entries =>
      let! s := mget in
      if me_usable e && bool_decide (BITMAP_SIZE s * 8 ≤ me_length e) then
        let! p := mlift (add64 (me_base e) HHDM_OFFSET) in
        let! _ := mmod (λ s, mkKMem (k_ram s) p (TOTAL_FRAMES s) (BITMAP_SIZE s) (KERNEL_PAGE_TABLE s)) in
        let! _ := mfor (seqZ 0 (BITMAP_SIZE s)) (λ i, store (p + 8 * i) (Z.ones 64)) in
        let bitmap_frames := (BITMAP_SIZE s * 8 + PAGE_SIZE - 1) / PAGE_SIZE in
        mfor (seqZ 0 bitmap_frames) (λ i, mark_used (me_base e / PAGE_SIZE + i))
      else place_bitmap entries
  end.

Definition free_entry (e : MemEntry) : KM unit :=
  if me_usable e then
    mfor (seqZ 0 (me_length e / PAGE_SIZE)) (λ i, mark_free (me_base e / PAGE_SIZE + i))
  else mok tt.

Definition frame_allocator_init (entries : list MemEntry) : KM unit :=
  let! max_addr := mlift (max_end 0 entries) in
  let total := max_addr / PAGE_SIZE in
  let! _ := mmod (λ s, mkKMem (k_ram s) (FRAME_BITMAP s) total ((total + 63) / 64) (KERNEL_PAGE_TABLE s)) in
  let! _ := place_bitmap entries in
  mfor entries free_entry.

(** ** Bits of words *)
Lemma testbit_ones64 n : 0 ≤ n < 64 → Z.testbit (Z.ones 64) n = true.
Proof. intros Hn. rewrite Z.testbit_ones_nonneg by lia. lia. Qed.

Lemma testbit_bit b n : 0 ≤ b → Z.testbit (Z.shiftl 1 b) n = bool_decide (n = b).
Proof. intros Hb. rewrite Z.shiftl_1_l, Z.pow2_bits_eqb by done. case_bool_decide; lia. Qed.

Lemma testbit_not64 x n : 0 ≤ n < 64 → Z.testbit (not64 x) n = negb (Z.testbit x n).
Proof. intros Hn. unfold not64. rewrite Z.lxor_spec, testbit_ones64 by done. by destruct (Z.testbit x n). Qed.

(** A word is at most 64 bits wide. *)
Lemma in_u_testbit w x : 0 ≤ w → in_u w x ↔ 0 ≤ x ∧ ∀ n, w ≤ n → Z.testbit x n = false.
Proof.
  intros Hw. unfold in_u. split.
  - intros [H0 Hx]. split; [done|]. intros n Hn.
    destruct (decide (x = 0)) as [->|]; [by rewrite Z.bits_0|].
    apply Z.bits_above_log2; [done|]. apply Z.log2_lt_pow2 in Hx; lia.
  - intros [H0 Hx]. assert (x = x `mod` 2 ^ w) as ->; [|apply Z.mod_pos_bound; lia].
    rewrite <-Z.land_ones by done. apply Z.bits_inj'. intros n Hn. rewrite Z.land_spec.
    destruct (decide (n < w)).
    + rewrite Z.testbit_ones_nonneg by lia. destruct (n <? w) eqn:E; [by rewrite andb_true_r|lia].
    + by rewrite Hx by lia.
Qed.

Lemma pos_trailing_zeros_spec p :
  0 ≤ pos_trailing_zeros p ∧ Z.testbit (Zpos p) (pos_trailing_zeros p) = true ∧
  ∀ n, 0 ≤ n < pos_trailing_zeros p → Z.testbit (Zpos p) n = false.
Proof.
  induction p as [p _|p (H0 & H1 & H2)|]; cbn [pos_trailing_zeros].
  - split; [done|]. split; [done|lia].
  - split; [lia|]. rewrite (Z.add_comm 1), Z.add_1_r. change (Zpos p~0) with (2 * Zpos p).
    rewrite Z.testbit_even_succ by done. split; [done|]. intros n Hn.
    destruct (decide (n = 0)) as [->|]; [apply Z.testbit_even_0|].
    replace n with (Z.succ (n - 1)) by lia. rewrite Z.testbit_even_succ by lia. apply H2. lia.
  - split; [done|]. split; [done|lia].
Qed.

Lemma trailing_zeros_spec x :
  in_u 64 x → x ≠ 0 →
  0 ≤ trailing_zeros x < 64 ∧ Z.testbit x (trailing_zeros x) = true ∧
  ∀ n, 0 ≤ n < trailing_zeros x → Z.testbit x n = false.
Proof.
  intros Hx Hne. destruct x as [|p|p]; [done| |destruct Hx; lia].
  destruct (pos_trailing_zeros_spec p) as (H0 & H1 & H2). split; [|done]. split; [done|].
  apply in_u_testbit in Hx as [_ Hx]; [|done]. apply Z.nle_gt. intros Hge. cbn in Hge.
  by rewrite Hx in H1.
Qed.

(** ** The free frames *)
Definition frame_bit (s : KMem) (f : Z) : bool :=
  Z.testbit (word s (bitmap_ptr s (f / 64))) (f `mod` 64).

Definition frame_free (s : KMem) (f : Z) : Prop := 0 ≤ f < TOTAL_FRAMES s ∧ frame_bit s f = true.

Record kmem_wf (s : KMem) : Prop := {
  kw_mapped : HHDM_OFFSET ≤ FRAME_BITMAP s;
  kw_total : 0 ≤ TOTAL_FRAMES s < 2 ^ 52;
  kw_size : BITMAP_SIZE s = (TOTAL_FRAMES s + 63) / 64;
  kw_words : ∀ i, 0 ≤ i < BITMAP_SIZE s → in_u 64 (word s (bitmap_ptr s i));
}.

(** The address of a word of the bitmap. *)
Definition in_bitmap (s : KMem) (a : Z) : Prop := ∃ i, 0 ≤ i < BITMAP_SIZE s ∧ a = bitmap_ptr s i.

(** Two states with the same static variables whose memory differs in the bitmap at most. *)
Record bitmap_step (s s' : KMem) : Prop := {
  bs_bitmap : FRAME_BITMAP s' = FRAME_BITMAP s;
  bs_total : TOTAL_FRAMES s' = TOTAL_FRAMES s;
  bs_size : BITMAP_SIZE s' = BITMAP_SIZE s;
  bs_kpt : KERNEL_PAGE_TABLE s' = KERNEL_PAGE_TABLE s;
  bs_ram : ∀ a, ¬ in_bitmap s a → word s' a = word s a;
}.

#[export] Instance bitmap_step_refl : Reflexive bitmap_step.
Proof. by intros s. Qed.
#[export] Instance bitmap_step_trans : Transitive bitmap_step.
Proof.
  intros s1 s2 s3 [A1 A2 A3 A4 A5] [B1 B2 B3 B4 B5]. split; try congruence.
  intros a Ha. rewrite B5, A5; [done|done|]. intros (i & Hi & ->). apply Ha. exists i.
  unfold bitmap_ptr in *. rewrite A1, A3 in *. done.
Qed.

Lemma word_set s a v b : word (k_set_ram (<[a := v]> (k_ram s)) s) b = if decide (a = b) then v else word s b.
Proof. unfold word, k_set_ram. cbn [k_ram]. rewrite lookup_insert. by case_decide. Qed.

(** Setting or clearing the bit of one frame. *)
Lemma update_frame_ok op v s f :
  (∀ w b n, 0 ≤ b < 64 → 0 ≤ n < 64 →
     Z.testbit (op w (Z.shiftl 1 b)) n = if decide (n = b) then v else Z.testbit w n) →
  (∀ w b, in_u 64 w → 0 ≤ b < 64 → in_u 64 (op w (Z.shiftl 1 b))) →
  kmem_wf s → 0 ≤ f →
  ∃ s', update_frame op f s = (Ok tt, s') ∧ kmem_wf s' ∧ bitmap_step s s' ∧
    ∀ g, 0 ≤ g < TOTAL_FRAMES s → frame_bit s' g = if decide (g = f) then v else frame_bit s g.
Proof.
  intros Hop Hop64 [Hm Ht Hs Hw] Hf. unfold update_frame, mbindM, mget.
  case_bool_decide as Hlt.
  { exists s. split; [done|]. split; [done|]. split; [done|]. intros g Hg. by rewrite decide_False by lia. }
  assert (0 ≤ f / 64 < BITMAP_SIZE s) as Hi by (rewrite Hs; clear -Hf Hlt Ht; dlia).
  pose proof (Z.mod_pos_bound f 64 ltac:(lia)) as Hb.
  unfold load, store. rewrite !bool_decide_eq_false_2 by (unfold bitmap_ptr; lia).
  set (w := word s (bitmap_ptr s (f / 64))). set (v' := op w _).
  eexists. split; [done|]. split; [|split].
  - split; [done|done|done|]. intros i Hi'. change (bitmap_ptr _ i) with (bitmap_ptr s i).
    rewrite word_set. case_decide; [|by apply Hw]. apply Hop64; [by apply Hw|done].
  - split; [done..|]. intros a Ha. rewrite word_set, decide_False; [done|]. intros <-. apply Ha. by exists (f / 64).
  - intros g Hg. unfold frame_bit. change (bitmap_ptr _ (g / 64)) with (bitmap_ptr s (g / 64)).
    rewrite word_set. pose proof (Z.mod_pos_bound g 64 ltac:(lia)).
    pose proof (Z.div_mod g 64 ltac:(lia)). pose proof (Z.div_mod f 64 ltac:(lia)).
    destruct (decide (g = f)) as [->|Hne].
    + rewrite decide_True by done. unfold v'. rewrite Hop by lia. by rewrite decide_True.
    + destruct (decide (bitmap_ptr s (f / 64) = bitmap_ptr s (g / 64))) as [E|]; [|done].
      unfold bitmap_ptr in E. unfold v'. rewrite Hop by lia. rewrite decide_False by lia.
      unfold w, bitmap_ptr. by replace (g / 64) with (f / 64) by lia.
Qed.

Lemma mark_free_ok s f :
  kmem_wf s → 0 ≤ f →
  ∃ s', mark_free f s = (Ok tt, s') ∧ kmem_wf s' ∧ bitmap_step s s' ∧
    ∀ g, 0 ≤ g < TOTAL_FRAMES s → frame_bit s' g = if decide (g = f) then true else frame_bit s g.
Proof.
  apply update_frame_ok.
  - intros w b n Hb Hn. rewrite Z.lor_spec, testbit_bit by lia. case_decide.
    + rewrite bool_decide_eq_true_2 by done. apply orb_true_r.
    + rewrite bool_decide_eq_false_2 by done. apply orb_false_r.
  - intros w b Hw Hb. rewrite in_u_testbit in * by done. destruct Hw as [Hw0 Hw]. split.
    + apply Z.lor_nonneg. split; [done|]. apply Z.shiftl_nonneg. lia.
    + intros n Hn. rewrite Z.lor_spec, Hw, testbit_bit by lia. by rewrite bool_decide_eq_false_2 by lia.
Qed.

Lemma mark_used_ok s f :
  kmem_wf s → 0 ≤ f →
  ∃ s', mark_used f s = (Ok tt, s') ∧ kmem_wf s' ∧ bitmap_step s s' ∧
    ∀ g, 0 ≤ g < TOTAL_FRAMES s → frame_bit s' g = if decide (g = f) then false else frame_bit s g.
Proof.
  apply (update_frame_ok (λ w bit, Z.land w (not64 bit))).
  - intros w b n Hb Hn. rewrite Z.land_spec, testbit_not64, testbit_bit by lia. case_decide.
    + rewrite bool_decide_eq_true_2 by done. apply andb_false_r.
    + rewrite bool_decide_eq_false_2 by done. apply andb_true_r.
  - intros w b Hw Hb. rewrite in_u_testbit in * by done. destruct Hw as [Hw0 Hw]. split.
    + apply Z.land_nonneg. by left.
    + intros n Hn. by rewrite Z.land_spec, Hw by lia.
Qed.

Lemma frame_free_range s f : frame_free s f → 0 ≤ f < TOTAL_FRAMES s.
Proof. by intros []. Qed.

Lemma frame_of_parts i b : 0 ≤ b < 64 → (i * 64 + b) / 64 = i ∧ (i * 64 + b) `mod` 64 = b.
Proof. intros Hb. dlia. Qed.

Lemma phys_addr_exact f : 0 ≤ f < 2 ^ 40 → phys_addr_new (f * PAGE_SIZE) = f * PAGE_SIZE.
Proof.
  intros Hf. unfold phys_addr_new, PAGE_SIZE. change 4096 with (2 ^ 12). rewrite <-Z.shiftl_mul_pow2 by done.
  change PHYS_MASK with (Z.shiftl (Z.ones 40) 12). rewrite <-Z.shiftl_land, Z.land_ones by done.
  by rewrite Z.mod_small by lia.
Qed.

(** The outcome of an allocation: the lowest free frame, or nothing when no frame is free. *)
Definition alloc_outcome (s : KMem) (r : option Z) (s' : KMem) : Prop :=
  kmem_wf s' ∧ bitmap_step s s' ∧
  match r with
  | Some a => ∃ f, a = phys_addr_new (f * PAGE_SIZE) ∧ frame_free s f ∧ (∀ g, frame_free s g → f ≤ g) ∧
      ∀ g, frame_free s' g ↔ frame_free s g ∧ g ≠ f
  | None => s' = s ∧ ∀ g, ¬ frame_free s g
  end.

Lemma alloc_loop_ok n i s :
  kmem_wf s → 0 ≤ i → Z.of_nat n = BITMAP_SIZE s - i → (∀ g, frame_free s g → i * 64 ≤ g) →
  ∃ r s', alloc_loop n i s = (Ok r, s') ∧ alloc_outcome s r s'.
Proof.
  intros Hwf. revert i. induction n as [|n IH]; intros i Hi Hn Hlow.
  { exists None, s. split; [done|]. do 3 (split; [done|]). intros g Hg. pose proof (Hlow g Hg).
    apply frame_free_range in Hg. pose proof (kw_size _ Hwf). clear -Hg Hn H H0. cbn in Hn. dlia. }
  cbn [alloc_loop]. unfold mbindM, mget, load.
  pose proof (kw_mapped _ Hwf). rewrite bool_decide_eq_false_2 by (unfold bitmap_ptr; lia).
  set (w := word s (bitmap_ptr s i)). assert (in_u 64 w) as Hw by (apply Hwf; lia).
  destruct (negb (w =? 0) && bool_decide (i * 64 + trailing_zeros w < TOTAL_FRAMES s)) eqn:E.
  - apply andb_true_iff in E as [Hne Hlt]. apply negb_true_iff, Z.eqb_neq in Hne. apply bool_decide_eq_true in Hlt.
    destruct (trailing_zeros_spec w Hw Hne) as (Hb & H1 & H2). set (f := i * 64 + trailing_zeros w) in *.
    destruct (frame_of_parts i _ Hb) as [Ei Eb]. fold f in Ei, Eb.
    destruct (mark_used_ok s f Hwf ltac:(lia)) as (s' & -> & Hwf' & Hst & Hbit).
    eexists _, _. split; [done|]. split; [done|]. split; [done|]. exists f. split; [done|]. split; [|split].
    + split; [lia|]. unfold frame_bit. by rewrite Ei, Eb.
    + intros g Hg. pose proof (Hlow g Hg). apply Z.nlt_ge. intros Hgf.
      assert (g / 64 = i ∧ g `mod` 64 < trailing_zeros w) as [Gi Gb] by (clear -H0 Hgf Hb; unfold f in *; dlia).
      destruct Hg as [_ Hg]. unfold frame_bit in Hg. rewrite Gi in Hg. fold w in Hg. rewrite H2 in Hg; [done|].
      split; [|done]. by apply Z.mod_pos_bound.
    + intros g. unfold frame_free. rewrite (bs_total _ _ Hst). split.
      * intros [Hg Hgb]. rewrite Hbit in Hgb by done. by case_decide.
      * intros [[Hg Hgb] Hne']. rewrite Hbit by done. by rewrite decide_False.
  - apply IH; [lia|lia|]. intros g Hg. pose proof (Hlow g Hg). apply Z.nlt_ge. intros Hgi.
    assert (g / 64 = i) as Gi by (clear -H0 Hgi; dlia). destruct Hg as [Hgt Hgb]. unfold frame_bit in Hgb.
    rewrite Gi in Hgb. fold w in Hgb.
    assert (w ≠ 0) as Hne by (intros E0; rewrite E0, Z.bits_0 in Hgb; done).
    destruct (trailing_zeros_spec w Hw Hne) as (Hb & H1 & H2).
    rewrite (proj2 (Z.eqb_neq _ _) Hne) in E. cbn in E. apply bool_decide_eq_false in E.
    pose proof (Z.mod_pos_bound g 64 ltac:(lia)). pose proof (Z.div_mod g 64 ltac:(lia)).
    rewrite H2 in Hgb; [done|]. lia.
Qed.

Lemma alloc_frame_ok s : kmem_wf s → ∃ r s', alloc_frame s = (Ok r, s') ∧ alloc_outcome s r s'.
Proof.
  intros Hwf. unfold alloc_frame, mbindM, mget. apply alloc_loop_ok; [done|done| |].
  - assert (0 ≤ BITMAP_SIZE s); [|lia]. rewrite (kw_size _ Hwf). pose proof (kw_total _ Hwf). clear -H. dlia.
  - intros g Hg. apply frame_free_range in Hg. lia.
Qed.

Lemma free_frame_ok s a :
  kmem_wf s → 0 ≤ a →
  ∃ s', free_frame a s = (Ok tt, s') ∧ kmem_wf s' ∧ bitmap_step s s' ∧
    ∀ g, frame_free s' g ↔ frame_free s g ∨ 0 ≤ g < TOTAL_FRAMES s ∧ g = a / PAGE_SIZE.
Proof.
  intros Hwf Ha. assert (0 ≤ a / PAGE_SIZE) by (apply Z.div_pos; [done|unfold PAGE_SIZE; lia]).
  destruct (mark_free_ok s (a / PAGE_SIZE) Hwf) as (s' & E & Hwf' & Hst & Hbit); [done|].
  exists s'. split; [done|]. do 2 (split; [done|]). intros g. unfold frame_free. rewrite (bs_total _ _ Hst). split.
  - intros [Hg Hgb]. rewrite Hbit in Hgb by done. case_decide; tauto.
  - intros [[Hg Hgb]|[Hg ->]]; (split; [done|]); rewrite Hbit by done; by case_decide.
Qed.

(** Marking a list of frames. *)
Lemma mfor_mark {mark : Z → KM unit} {v : bool} :
  (∀ s f, kmem_wf s → 0 ≤ f → ∃ s', mark f s = (Ok tt, s') ∧ kmem_wf s' ∧ bitmap_step s s' ∧
     ∀ g, 0 ≤ g < TOTAL_FRAMES s → frame_bit s' g = if decide (g = f) then v else frame_bit s g) →
  ∀ (fs : list Z) (frame : Z → Z) s, kmem_wf s → (∀ i, i ∈ fs → 0 ≤ frame i) →
  ∃ s', mfor fs (λ i, mark (frame i)) s = (Ok tt, s') ∧ kmem_wf s' ∧ bitmap_step s s' ∧
    ∀ g, 0 ≤ g < TOTAL_FRAMES s → frame_bit s' g = if decide (g ∈ frame <$> fs) then v else frame_bit s g.
Proof.
  intros Hmark fs frame. induction fs as [|i fs IH]; intros s Hwf Hfs.
  { exists s. split; [done|]. do 2 (split; [done|]). intros g Hg. rewrite decide_False; [done|]. set_solver. }
  cbn [mfor]. unfold mbindM. destruct (Hmark s (frame i) Hwf) as (s1 & -> & Hwf1 & Hst1 & Hb1); [apply Hfs; left|].
  destruct (IH s1 Hwf1) as (s' & -> & Hwf' & Hst & Hb); [intros; apply Hfs; by right|].
  exists s'. split; [done|]. split; [done|]. split; [by etrans|]. intros g Hg.
  rewrite Hb by (by rewrite (bs_total _ _ Hst1)). rewrite Hb1 by done.
  rewrite fmap_cons. destruct (decide (g ∈ frame <$> fs)) as [Hin|Hout].
  - by rewrite decide_True by (by right).
  - apply decide_ext. rewrite elem_of_cons. tauto.
Qed.

Lemma elem_of_frames g start n : g ∈ ((λ i, start + i) <$> seqZ 0 n) ↔ start ≤ g < start + n.
Proof.
  rewrite list_elem_of_fmap. setoid_rewrite elem_of_seqZ. split; [intros (i & -> & ?); lia|].
  intros Hg. exists (g - start). lia.
Qed.

(** ** The refinement: the allocator is a set of free frames *)
Inductive FrameOp : Type := FAlloc | FFree (addr : Z).

Definition frame_op (o : FrameOp) : KM (option Z) :=
  match o with
  | FAlloc => alloc_frame
  | FFree a => let! _ := free_frame a in mok None
  end.

Fixpoint frame_run (ops : list FrameOp) : KM (list (option Z)) :=
  match ops with
  | [] => mok []
  | o :: ops => let! r := frame_op o in let! rs := frame_run ops in mok (r :: rs)
  end.

(** What the allocator of [total] frames promises: it hands out the lowest
    free frame, refuses only when there is none, and takes frames back. *)
Inductive frame_step (total : Z) (F : gset Z) : FrameOp → option Z → gset Z → Prop :=
  | step_alloc f : f ∈ F → (∀ g, g ∈ F → f ≤ g) → frame_step total F FAlloc (Some (f * PAGE_SIZE)) (F ∖ {[f]})
  | step_none : F = ∅ → frame_step total F FAlloc None F
  | step_free a : a / PAGE_SIZE < total → frame_step total F (FFree a) None ({[a / PAGE_SIZE]} ∪ F)
  | step_outside a : total ≤ a / PAGE_SIZE → frame_step total F (FFree a) None F.

Inductive frame_steps (total : Z) : gset Z → list FrameOp → list (option Z) → gset Z → Prop :=
  | steps_nil F : frame_steps total F [] [] F
  | steps_cons F o r F1 ops rs F2 :
      frame_step total F o r F1 → frame_steps total F1 ops rs F2 → frame_steps total F (o :: ops) (r :: rs) F2.

Definition frames_are (s : KMem) (F : gset Z) : Prop := ∀ f, f ∈ F ↔ frame_free s f.

Definition frame_op_ok (o : FrameOp) : Prop := match o with FAlloc => True | FFree a => 0 ≤ a end.

Lemma frame_op_refines o s F :
  kmem_wf s → TOTAL_FRAMES s ≤ 2 ^ 40 → frames_are s F → frame_op_ok o →
  ∃ r s' F', frame_op o s = (Ok r, s') ∧ frame_step (TOTAL_FRAMES s) F o r F' ∧ frames_are s' F' ∧
    kmem_wf s' ∧ bitmap_step s s'.
Proof.
  intros Hwf Ht HF Ho. destruct o as [|a]; cbn [frame_op].
  - destruct (alloc_frame_ok s Hwf) as (r & s' & E & Hwf' & Hst & Hr). destruct r as [a|].
    + destruct Hr as (f & -> & Hf & Hmin & Hg). pose proof (frame_free_range _ _ Hf).
      exists (Some (phys_addr_new (f * PAGE_SIZE))), s', (F ∖ {[f]}). split; [done|]. rewrite phys_addr_exact by lia.
      split; [|split; [|done]].
      * apply step_alloc; [by apply HF|]. intros g Hg'. by apply Hmin, HF.
      * intros g. rewrite elem_of_difference, elem_of_singleton, (HF g), Hg. done.
    + destruct Hr as [-> Hno]. exists None, s, F. split; [done|]. split; [|done].
      apply step_none, leibniz_equiv. intros g. rewrite (HF g). split; [by intros ?%Hno|set_solver].
  - destruct (free_frame_ok s a Hwf Ho) as (s' & E & Hwf' & Hst & Hg). unfold mbindM. rewrite E.
    assert (0 ≤ a / PAGE_SIZE) by (apply Z.div_pos; [done|unfold PAGE_SIZE; lia]).
    destruct (decide (a / PAGE_SIZE < TOTAL_FRAMES s)).
    + eexists _, _, _. split; [done|]. split; [by apply step_free|]. split; [|done].
      intros g. rewrite elem_of_union, elem_of_singleton, (HF g), Hg. intuition lia.
    + eexists _, _, _. split; [done|]. split; [apply step_outside; lia|]. split; [|done].
      intros g. rewrite (HF g), Hg. intuition lia.
Qed.

Lemma frame_run_refines ops s F :
  kmem_wf s → TOTAL_FRAMES s ≤ 2 ^ 40 → frames_are s F → Forall frame_op_ok ops →
  ∃ rs s' F', frame_run ops s = (Ok rs, s') ∧ frame_steps (TOTAL_FRAMES s) F ops rs F' ∧ frames_are s' F' ∧
    kmem_wf s' ∧ bitmap_step s s'.
Proof.
  revert s F. induction ops as [|o ops IH]; intros s F Hwf Ht HF Hops.
  { exists [], s, F. split; [done|]. by split; [constructor|]. }
  apply Forall_cons in Hops as [Ho Hops].
  destruct (frame_op_refines o s F Hwf Ht HF Ho) as (r & s1 & F1 & E1 & Hs1 & HF1 & Hwf1 & Hst1).
  pose proof (bs_total _ _ Hst1) as Et.
  destruct (IH s1 F1 Hwf1 ltac:(lia) HF1 Hops) as (rs & s' & F' & E & Hs & HF' & Hwf' & Hst).
  exists (r :: rs), s', F'. cbn [frame_run]. unfold mbindM. rewrite E1, E. split; [done|].
  split; [|split; [done|]; split; [done|by etrans]]. econstructor; [done|]. by rewrite <-Et.
Qed.

(** ** Initialisation *)
Lemma max_end_ok m es :
  0 ≤ m → Forall (λ e, 0 ≤ me_base e ∧ 0 ≤ me_length e ∧ me_base e + me_length e ≤ 2 ^ 47) es →
  ∃ M, max_end m es = Ok M ∧ m ≤ M ≤ Z.max m (2 ^ 47) ∧ ∀ e, e ∈ es → me_base e + me_length e ≤ M.
Proof.
  revert m. induction es as [|e es IH]; intros m Hm Hes.
  { exists m. split; [done|]. split; [lia|]. intros e He. by apply elem_of_nil in He. }
  apply Forall_cons in Hes as [He Hes]. cbn [max_end]. unfold add64. rewrite chk_ok by lia. cbn [rbind].
  destruct (IH (Z.max m (me_base e + me_length e)) ltac:(lia) Hes) as (M & E & Hb & Hin).
  exists M. split; [done|]. split; [lia|]. intros e' [->|He']%elem_of_cons; [lia|by apply Hin].
Qed.

Lemma fill_ok (n : nat) p v s :
  HHDM_OFFSET ≤ p →
  ∃ m, mfor (seqZ 0 (Z.of_nat n)) (λ i, store (p + 8 * i) v) s = (Ok tt, k_set_ram m s) ∧
    ∀ a, word (k_set_ram m s) a =
      if decide ((a - p) `mod` 8 = 0 ∧ 0 ≤ a - p < 8 * Z.of_nat n) then v else word s a.
Proof.
  intros Hp. induction n as [|n IH].
  { exists (k_ram s). split; [by destruct s|]. intros a. rewrite decide_False by lia. done. }
  destruct IH as (m & E & Hm). replace (Z.of_nat (S n)) with (Z.of_nat n + 1) by lia.
  rewrite seqZ_app by lia. rewrite mfor_app. unfold mbindM at 1. rewrite E. rewrite Z.add_0_l.
  change (seqZ (Z.of_nat n) 1) with [Z.of_nat n]. cbn [mfor]. unfold mbindM, store.
  rewrite bool_decide_eq_false_2 by lia. eexists (<[p + 8 * Z.of_nat n := v]> m). split; [done|]. intros a.
  pose proof (word_set (k_set_ram m s) (p + 8 * Z.of_nat n) v a) as Hw.
  change (word (k_set_ram (<[p + 8 * Z.of_nat n := v]> m) s) a =
          if decide (p + 8 * Z.of_nat n = a) then v else word (k_set_ram m s) a) in Hw.
  rewrite Hw, Hm. repeat case_decide; try done; exfalso; clear Hw Hm E; subst; dlia.
Qed.

(** Where [init] puts the bitmap, all frames are marked free but the bitmap's own. *)
Definition holds_bitmap (size : Z) (e : MemEntry) : Prop := me_usable e = true ∧ size * 8 ≤ me_length e.

Lemma place_bitmap_ok es s :
  0 ≤ TOTAL_FRAMES s < 2 ^ 52 → BITMAP_SIZE s = (TOTAL_FRAMES s + 63) / 64 →
  Forall (λ e, 0 ≤ me_base e < 2 ^ 47) es → Exists (holds_bitmap (BITMAP_SIZE s)) es →
  ∃ e s', e ∈ es ∧ holds_bitmap (BITMAP_SIZE s) e ∧ place_bitmap es s = (Ok tt, s') ∧ kmem_wf s' ∧
    TOTAL_FRAMES s' = TOTAL_FRAMES s ∧ BITMAP_SIZE s' = BITMAP_SIZE s ∧ FRAME_BITMAP s' = me_base e + HHDM_OFFSET ∧
    ∀ g, 0 ≤ g < TOTAL_FRAMES s →
      frame_bit s' g = negb (bool_decide (me_base e / PAGE_SIZE ≤ g <
        me_base e / PAGE_SIZE + (BITMAP_SIZE s * 8 + PAGE_SIZE - 1) / PAGE_SIZE)).
Proof.
  intros Ht Hs. induction es as [|e es IH]; intros Hes Hex; [by apply Exists_nil in Hex|].
  apply Forall_cons in Hes as [He Hes]. cbn [place_bitmap]. unfold mbindM at 1, mget.
  destruct (me_usable e && bool_decide (BITMAP_SIZE s * 8 ≤ me_length e)) eqn:E.
  2: { apply Exists_cons in Hex as [[Hu Hl]|Hex]; [rewrite Hu, bool_decide_eq_true_2 in E by done; done|].
       destruct (IH Hes Hex) as (e' & s' & Hin & Hrest). exists e', s'. split; [by right|done]. }
  apply andb_true_iff in E as [Hu Hl%bool_decide_eq_true]. exists e.
  assert (0 ≤ BITMAP_SIZE s) as Hs0 by (rewrite Hs; clear -Ht; dlia).
  unfold mbindM at 1, mlift, add64. rewrite chk_ok by (unfold HHDM_OFFSET; lia). unfold mbindM at 1, mmod.
  set (s1 := mkKMem _ _ _ _ _). destruct (fill_ok (Z.to_nat (BITMAP_SIZE s)) (me_base e + HHDM_OFFSET) (Z.ones 64) s1 ltac:(lia)) as (m & Ef & Hm).
  rewrite Z2Nat.id in Ef, Hm by done. unfold mbindM. rewrite Ef.
  assert (kmem_wf (k_set_ram m s1)) as Hwf.
  { split; [cbn; lia|done|done|]. intros i Hi. change (BITMAP_SIZE (k_set_ram m s1)) with (BITMAP_SIZE s) in Hi.
    change (bitmap_ptr (k_set_ram m s1) i) with (me_base e + HHDM_OFFSET + 8 * i).
    rewrite Hm, decide_True; [done|]. split; [clear; dlia|lia]. }
  destruct (mfor_mark mark_used_ok (seqZ 0 ((BITMAP_SIZE s * 8 + PAGE_SIZE - 1) / PAGE_SIZE)) (λ i, me_base e / PAGE_SIZE + i) _ Hwf)
    as (s' & E' & Hwf' & [B1 B2 B3 _ _] & Hbit).
  { intros i [Hi _]%elem_of_seqZ. assert (0 ≤ me_base e / PAGE_SIZE) by (apply Z.div_pos; unfold PAGE_SIZE; lia). lia. }
  exists s'. split; [left|]. split; [done|]. split; [done|]. split; [done|].
  do 3 (split; [done|]). intros g Hg. rewrite Hbit by done.
  destruct (decide (g ∈ _)) as [Hin|Hout]; rewrite elem_of_frames in *; [by rewrite bool_decide_eq_true_2|].
  rewrite bool_decide_eq_false_2 by done. unfold frame_bit, bitmap_ptr. cbn [FRAME_BITMAP k_set_ram s1].
  rewrite Hm, decide_True; [by apply testbit_ones64, Z.mod_pos_bound|]. rewrite Hs. clear -Hg. dlia.
Qed.

Lemma free_entries_ok es s :
  kmem_wf s → Forall (λ e, 0 ≤ me_base e) es →
  ∃ s', mfor es free_entry s = (Ok tt, s') ∧ kmem_wf s' ∧ bitmap_step s s' ∧
    ∀ g, 0 ≤ g < TOTAL_FRAMES s → frame_bit s' g = true ↔ frame_bit s g = true ∨
      ∃ e, e ∈ es ∧ me_usable e = true ∧ me_base e / PAGE_SIZE ≤ g < me_base e / PAGE_SIZE + me_length e / PAGE_SIZE.
Proof.
  revert s. induction es as [|e es IH]; intros s Hwf Hes.
  { exists s. split; [done|]. do 2 (split; [done|]). intros g Hg. split; [by left|]. intros [?|(e & He & _)]; [done|].
    by apply elem_of_nil in He. }
  apply Forall_cons in Hes as [He Hes]. cbn [mfor].
  assert (∃ s1, free_entry e s = (Ok tt, s1) ∧ kmem_wf s1 ∧ bitmap_step s s1 ∧
    ∀ g, 0 ≤ g < TOTAL_FRAMES s → frame_bit s1 g = true ↔ frame_bit s g = true ∨
      me_usable e = true ∧ me_base e / PAGE_SIZE ≤ g < me_base e / PAGE_SIZE + me_length e / PAGE_SIZE)
    as (s1 & E1 & Hwf1 & Hst1 & Hb1).
  { unfold free_entry. destruct (me_usable e).
    - destruct (mfor_mark mark_free_ok (seqZ 0 (me_length e / PAGE_SIZE)) (λ i, me_base e / PAGE_SIZE + i) s Hwf)
        as (s1 & E1 & Hwf1 & Hst1 & Hb1).
      { intros i [Hi _]%elem_of_seqZ. assert (0 ≤ me_base e / PAGE_SIZE) by (apply Z.div_pos; unfold PAGE_SIZE; lia). lia. }
      exists s1. split; [done|]. do 2 (split; [done|]). intros g Hg. rewrite Hb1 by done.
      destruct (decide (g ∈ _)) as [Hin|Hout]; rewrite elem_of_frames in *; tauto.
    - exists s. split; [done|]. do 2 (split; [done|]). intros g Hg. split; [by left|]. by intros [?|[? _]]. }
  unfold mbindM. rewrite E1. destruct (IH s1 Hwf1 Hes) as (s' & E & Hwf' & Hst & Hb).
  exists s'. split; [done|]. split; [done|]. split; [by etrans|]. intros g Hg.
  rewrite Hb, Hb1 by (by rewrite ?(bs_total _ _ Hst1)). setoid_rewrite elem_of_cons. split.
  - intros [[?|?]|(e' & ?)]; [by left|right; exists e; tauto|right; exists e'; tauto].
  - intros [?|(e' & [->|?] & ?)]; [tauto..|]. right. exists e'. tauto.
Qed.

(** Entries as the boot loader reports them: page-aligned where usable, and below the size of the direct map. *)
Definition entry_ok (e : MemEntry) : Prop :=
  0 ≤ me_base e ∧ 0 < me_length e ∧ me_base e + me_length e ≤ 2 ^ 47 ∧
  (me_usable e = true → me_base e `mod` PAGE_SIZE = 0 ∧ me_length e `mod` PAGE_SIZE = 0).

Lemma frame_allocator_init_ok es s :
  Forall entry_ok es → ∃ top, max_end 0 es = Ok top ∧
  (Exists (holds_bitmap ((top / PAGE_SIZE + 63) / 64)) es →
   ∃ e s', e ∈ es ∧ frame_allocator_init es s = (Ok tt, s') ∧ kmem_wf s' ∧ TOTAL_FRAMES s' = top / PAGE_SIZE ∧
     FRAME_BITMAP s' = me_base e + HHDM_OFFSET ∧ holds_bitmap (BITMAP_SIZE s') e ∧
     ∀ f, 0 ≤ f < TOTAL_FRAMES s' → frame_free s' f).
Proof.
  intros Hes. destruct (max_end_ok 0 es) as (top & Etop & Hb & Hends); [done| |].
  { eapply Forall_impl; [exact Hes|]. intros e (? & ? & ? & _). lia. }
  exists top. split; [done|]. intros Hex. unfold frame_allocator_init, mbindM at 1, mlift. rewrite Etop.
  unfold mbindM at 1, mmod. set (s1 := mkKMem _ _ _ _ _).
  assert (0 ≤ top / PAGE_SIZE < 2 ^ 52) as Ht by (unfold PAGE_SIZE; clear -Hb; dlia).
  destruct (place_bitmap_ok es s1) as (e & s2 & Hin & [Hu Hl] & E2 & Hwf2 & T2 & S2 & F2 & B2); [done|done| |done|].
  { eapply Forall_impl; [exact Hes|]. intros e (? & ? & ? & _). lia. }
  unfold mbindM. rewrite E2. destruct (free_entries_ok es s2 Hwf2) as (s3 & E3 & Hwf3 & [T31 T32 T33 _ _] & B3).
  { eapply Forall_impl; [exact Hes|]. by intros e' (? & _). }
  exists e, s3. split; [done|]. split; [done|]. split; [done|]. split; [by rewrite T32, T2|]. split; [by rewrite T31, F2|].
  split; [by rewrite T33, S2|]. intros f Hf. split; [done|]. rewrite T32 in Hf. apply B3; [done|].
  rewrite B2 by (by rewrite T2 in Hf). case_bool_decide as Hin'; [|by left]. right. exists e. split; [done|]. split; [done|].
  rewrite Forall_forall in Hes. destruct (Hes e Hin) as (H0 & H1 & H2 & Ha). destruct (Ha Hu) as [Ha1 Ha2].
  cbn [BITMAP_SIZE s1] in *. unfold PAGE_SIZE in *. clear -Hin' Hl Ha2. dlia.
Qed.

(** ** Properties *)

(** C22: the frame allocator implements a set of free frames. Any sequence of allocations and releases runs
    without a fault, each allocation hands out the lowest free frame or reports that none is free, each
    release makes its frame free again, and only words of the bitmap change. *)
Theorem frame_allocator_refines ops s F :
  kmem_wf s → TOTAL_FRAMES s ≤ 2 ^ 40 → frames_are s F → Forall frame_op_ok ops →
  ∃ rs s' F', frame_run ops s = (Ok rs, s') ∧ frame_steps (TOTAL_FRAMES s) F ops rs F' ∧ frames_are s' F' ∧
    kmem_wf s' ∧ bitmap_step s s'.
Proof. apply frame_run_refines. Qed.

Definition demo_kmem : KMem := mkKMem {[HHDM_OFFSET := 6]} HHDM_OFFSET 10 1 0.

Lemma demo_kmem_wf : kmem_wf demo_kmem.
Proof.
  split; [done|done|done|]. intros i Hi. cbn [BITMAP_SIZE demo_kmem] in Hi. replace i with 0 by lia. done.
Qed.

Lemma frame_allocator_refines_witness :
  ∃ rs s' F', frame_run [FAlloc; FFree 20480; FAlloc; FAlloc; FAlloc] demo_kmem = (Ok rs, s') ∧
    frame_steps 10 {[1; 2]} [FAlloc; FFree 20480; FAlloc; FAlloc; FAlloc] rs F' ∧
    rs = [Some 4096; None; Some 8192; Some 20480; None].
Proof.
  destruct (frame_allocator_refines [FAlloc; FFree 20480; FAlloc; FAlloc; FAlloc] demo_kmem {[1; 2]})
    as (rs & s' & F' & E & Hs & _).
  - apply demo_kmem_wf.
  - done.
  - intros f. unfold frame_free. rewrite elem_of_union, !elem_of_singleton. split.
    + by intros [->| ->].
    + intros [Hf Hb]. cbn [TOTAL_FRAMES demo_kmem] in Hf. unfold frame_bit in Hb.
      assert (f = 0 ∨ f = 1 ∨ f = 2 ∨ f = 3 ∨ f = 4 ∨ f = 5 ∨ f = 6 ∨ f = 7 ∨ f = 8 ∨ f = 9) as Hc by lia.
      destruct Hc as [->|[->|[->|[->|[->|[->|[->|[->|[->| ->]]]]]]]]]; vm_compute in Hb; try discriminate Hb; auto.
  - forall_list.
  - exists rs, s', F'. split; [exact E|]. split; [exact Hs|].
    assert ((frame_run [FAlloc; FFree 20480; FAlloc; FAlloc; FAlloc] demo_kmem).1
            = Ok [Some 4096; None; Some 8192; Some 20480; None]) as E' by (by vm_compute).
    rewrite E in E'. by injection E'.
Defined.

(** After initialisation every frame is free. Whatever the memory map says, the frames of reserved
    entries, of the kernel and of the bitmap itself are all marked free, and the first allocation hands
    out frame 0. *)
Theorem init_frees_every_frame es s top :
  Forall entry_ok es → max_end 0 es = Ok top → Exists (holds_bitmap ((top / PAGE_SIZE + 63) / 64)) es →
  ∃ e s', frame_allocator_init es s = (Ok tt, s') ∧ kmem_wf s' ∧ TOTAL_FRAMES s' = top / PAGE_SIZE ∧
    e ∈ es ∧ FRAME_BITMAP s' = me_base e + HHDM_OFFSET ∧ (∀ f, 0 ≤ f < TOTAL_FRAMES s' → frame_free s' f) ∧
    frame_free s' (me_base e / PAGE_SIZE) ∧ ∃ s'', alloc_frame s' = (Ok (Some 0), s'').
Proof.
  intros Hes Etop Hex. destruct (frame_allocator_init_ok es s Hes) as (top' & E & Hinit).
  rewrite Etop in E. injection E as <-. destruct (Hinit Hex) as (e & s' & Hin & Ei & Hwf & Ht & Hp & [Hu Hl] & Hall).
  exists e, s'. split; [done|]. do 5 (split; [done|]).
  assert (0 ≤ me_base e / PAGE_SIZE < TOTAL_FRAMES s') as He.
  { rewrite Ht. destruct (max_end_ok 0 es) as (top' & Etop' & _ & Hends); [done| |].
    { eapply Forall_impl; [exact Hes|]. intros e' (? & ? & ? & _). lia. }
    rewrite Etop in Etop'. injection Etop' as <-. pose proof (Hends e Hin). rewrite Forall_forall in Hes.
    destruct (Hes e Hin) as (? & ? & ? & Ha). destruct (Ha Hu). unfold PAGE_SIZE in *. clear -H H0 H1 H3 H4. dlia. }
  split; [by apply Hall|]. destruct (alloc_frame_ok s' Hwf) as (r & s'' & Ea & _ & _ & Hr).
  exists s''. rewrite Ea. destruct r as [a|].
  - destruct Hr as (f & -> & Hf & Hmin & _). pose proof (Hmin 0 ltac:(apply Hall; lia)).
    apply frame_free_range in Hf. replace f with 0 by lia. done.
  - destruct Hr as [_ Hno]. destruct (Hno 0). apply Hall. lia.
Qed.

(** Frames 0 to 8 reserved, 9 to 15 usable. *)
Definition demo_memory_map : list MemEntry := [mkEntry 0 0x9000 false; mkEntry 0x9000 0x7000 true].

Lemma init_frees_every_frame_witness :
  ∃ e s', frame_allocator_init demo_memory_map (kmem_boot ∅) = (Ok tt, s') ∧ e ∈ demo_memory_map ∧ frame_free s' 3 ∧
    ∃ s'', alloc_frame s' = (Ok (Some 0), s'').
Proof.
  destruct (init_frees_every_frame demo_memory_map (kmem_boot ∅) 0x10000) as (e & s' & E & _ & Ht & Hin & _ & Hall & _ & Ha).
  - unfold entry_ok, PAGE_SIZE. forall_list; cbn; lia.
  - by vm_compute.
  - right. left. by vm_compute.
  - exists e, s'. split; [exact E|]. split; [exact Hin|]. split; [|exact Ha].
    apply Hall. rewrite Ht. change (0x10000 / PAGE_SIZE) with 16. clear. lia.
Defined.
