(* ===== verification/Paging.v ===== *)
(** * Page tables ([crates/lib_kernel/src/memory/paging.rs])

    Four levels of tables of 512 entries, in the memory of [KernelMemory] and
    built from frames of its allocator. [map_page] and [unmap_page] change the
    tables, the methods of the [Mapper] trait walk them. The invalidation of
    the translation buffer ([invlpg]) has no effect on the model. The finite map
    that the tables are shown to implement says to which frame a page is mapped;
    the flags of an entry are not part of it. *)

From S2P Require Import Prelude KernelMemory.

(** ** Entries *)
Definition PRESENT : Z := 1.
Definition WRITABLE : Z := 2.
Definition USER : Z := 4.

Definition is_present (e : Z) : bool := negb (Z.land e PRESENT =? 0).
Definition set_addr (addr flags : Z) : Z := Z.lor (Z.land addr PHYS_MASK) flags.
Definition get_addr (e : Z) : Z := phys_addr_new (Z.land e PHYS_MASK).

Definition ENTRIES_PER_TABLE : Z := 512.

(** The table at a physical address, through the direct map, and its entry [i]. *)
Definition table_ptr (addr : Z) : Z := Z.lor addr HHDM_OFFSET.
Definition entry_ptr (table i : Z) : Z := table + 8 * i.

Definition zero_table (table : Z) : KM unit :=
  mfor (seqZ 0 ENTRIES_PER_TABLE) (λ i, store (entry_ptr table i) 0).

(** ** [OSMapper]; [page_table] is its only field *)
Definition get_or_create_table (entry : Z) : KM (option Z) :=
  let! e := load entry in
  if is_present e then mok (Some (table_ptr (get_addr e)))
  else
    let! frame := alloc_frame in
    match frame with
    | None => mok None
    | Some frame =>
        let table := table_ptr frame in
        let! _ := zero_table table in
        let! _ := store entry (set_addr frame (Z.lor (Z.lor PRESENT WRITABLE) USER)) in
        mok (Some table)
    end.

Definition map_page (page_table virt phys flags : Z) : KM (option unit) :=
  let p4 := table_ptr page_table in
  let! p3 := get_or_create_table (entry_ptr p4 (p4_index virt)) in
  match p3 with
  | None => mok None
  | Some p3 =>
      let! p2 := get_or_create_table (entry_ptr p3 (p3_index virt)) in
      match p2 with
      | None => mok None
      | Some p2 =>
          let! p1 := get_or_create_table (entry_ptr p2 (p2_index virt)) in
          match p1 with
          | None => mok None
          | Some p1 =>
              let! _ := store (entry_ptr p1 (p1_index virt)) (set_addr phys (Z.lor flags PRESENT)) in
              mok (Some tt)
          end
      end
  end.

(** [if !entries[i].is_present() { return ... }], else the table the entry points to. *)
Definition present_table (entry : Z) : KM (option Z) :=
  let! e := load entry in
  mok (if is_present e then Some (table_ptr (get_addr e)) else None).

(** The walk shared by [unmap_page], [unmap], [update_flags] and [translate_page]:
    the address of the last-level entry. *)
Definition walk_p1 (page_table virt : Z) : KM (option Z) :=
  let! p3 := present_table (entry_ptr (table_ptr page_table) (p4_index virt)) in
  match p3 with
  | None => mok None
  | Some p3 =>
      let! p2 := present_table (entry_ptr p3 (p3_index virt)) in
      match p2 with
      | None => mok None
      | Some p2 =>
          let! p1 := present_table (entry_ptr p2 (p2_index virt)) in
          match p1 with
          | None => mok None
          | Some p1 => mok (Some (entry_ptr p1 (p1_index virt)))
          end
      end
  end.

Definition unmap_page (page_table virt : Z) : KM unit :=
  let! p := walk_p1 page_table virt in
  match p with
  | None => mok tt
  | Some p => store p 0
  end.

(** [while]-style loops over consecutive pages; the additions are checked. *)
Fixpoint map_pages (n : nat) (page_table virt phys flags : Z) : KM (option unit) :=
  match n with
  | O => mok (Some tt)
  | S n =>
      let! r := map_page page_table virt (phys_addr_new phys) flags in
      match r with
      | None => mok None
      | Some _ =>
          let! virt' := mlift (add64 virt 0x1000) in
          let! phys' := mlift (add64 phys 0x1000) in
          map_pages n page_table virt' phys' flags
      end
  end.

Definition map_range (page_table virt_start phys_start size flags : Z) : KM (option unit) :=
  let! s := mlift (add64 size 0xFFF) in
  map_pages (Z.to_nat (s / 0x1000)) page_table virt_start phys_start flags.

Fixpoint unmap_pages (n : nat) (page_table virt : Z) : KM unit :=
  match n with
  | O => mok tt
  | S n =>
      let! _ := unmap_page page_table virt in
      let! virt' := mlift (add64 virt 0x1000) in
      unmap_pages n page_table virt'
  end.

Definition unmap_range (page_table virt_start size : Z) : KM unit :=
  let! s := mlift (add64 size 0xFFF) in
  unmap_pages (Z.to_nat (s / 0x1000)) page_table virt_start.

(** [VMM::init]; [cr3] is the value of the register. *)
Definition vmm_init (entries : list MemEntry) (cr3 : Z) : KM Z :=
  let! _ := frame_allocator_init entries in
  let! _ := mmod (λ s, mkKMem (k_ram s) (FRAME_BITMAP s) (TOTAL_FRAMES s) (BITMAP_SIZE s) (Z.land cr3 PHYS_MASK)) in
  mok (Z.land cr3 PHYS_MASK).

(** ** The [Mapper] trait; a page and a frame are their start addresses *)
Inductive MapError : Type := FrameAllocationFailed | PageNotMapped.
Abbreviation MM := (M KMem MapError).

(** A computation that cannot fail, in a method that can. *)
Definition run_km {A} (m : KM A) : MM A := λ s,
  match m s with
  | (Ok a, s') => (Ok a, s')
  | (Err e, s') => match e with end
  | (Panic, s') => (Panic, s')
  | (Hang, s') => (Hang, s')
  end.

Definition map_to_with_table_flags (page_table page frame flags : Z) : MM unit :=
  let! r := run_km (map_page page_table page (phys_addr_new frame) flags) in
  match r with
  | Some _ => mok tt
  | None => merr FrameAllocationFailed
  end.

(** The present last-level entry of a page, with its address. *)
Definition mapped_entry (page_table page : Z) : MM (Z * Z) :=
  let! p := run_km (walk_p1 page_table page) in
  match p with
  | None => merr PageNotMapped
  | Some p =>
      let! e := run_km (load p) in
      if is_present e then mok (p, e) else merr PageNotMapped
  end.

Definition translate_page (page_table page : Z) : MM Z :=
  let! pe := mapped_entry page_table page in mok (get_addr pe.2).

Definition unmap (page_table page : Z) : MM Z :=
  let! pe := mapped_entry page_table page in
  let! _ := run_km (unmap_page page_table page) in
  mok (get_addr pe.2).

Definition update_flags (page_table page flags : Z) : MM unit :=
  let! pe := mapped_entry page_table page in
  run_km (store pe.1 (set_addr (get_addr pe.2) (Z.lor flags PRESENT))).

(** ** Entries: what is stored is read back *)
Lemma mask_testbit n : 0 ≤ n → Z.testbit PHYS_MASK n = bool_decide (12 ≤ n < 52).
Proof.
  intros Hn. change PHYS_MASK with (Z.shiftl (Z.ones 40) 12). rewrite Z.shiftl_spec by done.
  destruct (decide (n < 12)).
  - rewrite Z.testbit_neg_r by lia. by rewrite bool_decide_eq_false_2 by lia.
  - rewrite Z.testbit_ones by lia. case_bool_decide; lia.
Qed.

Lemma mask_idem x : Z.land (Z.land x PHYS_MASK) PHYS_MASK = Z.land x PHYS_MASK.
Proof. by rewrite <-Z.land_assoc, Z.land_diag. Qed.

(** Flags that do not reach into the address. *)
Definition flags_ok (flags : Z) : Prop := Z.land flags PHYS_MASK = 0.

Lemma get_set_addr addr flags :
  flags_ok flags → get_addr (set_addr addr (Z.lor flags PRESENT)) = Z.land addr PHYS_MASK.
Proof.
  intros Hf. unfold get_addr, set_addr, phys_addr_new. rewrite mask_idem, !Z.land_lor_distr_l, mask_idem, Hf.
  change (Z.land PRESENT PHYS_MASK) with 0. by rewrite !Z.lor_0_r.
Qed.

Lemma present_set_addr addr flags : is_present (set_addr addr (Z.lor flags PRESENT)) = true.
Proof.
  unfold is_present, set_addr, PRESENT. apply negb_true_iff, Z.eqb_neq. intros E.
  assert (Z.testbit (Z.land (Z.lor (Z.land addr PHYS_MASK) (Z.lor flags 1)) 1) 0 = true) as Hb.
  { rewrite Z.land_spec, !Z.lor_spec. change (Z.testbit 1 0) with true. by rewrite !orb_true_r. }
  by rewrite E in Hb.
Qed.

Lemma get_addr_table e : get_addr e = Z.land e PHYS_MASK.
Proof. apply mask_idem. Qed.

(** ** The tables as a tree

    [child s a i] is where entry [i] of the table at [a] points; [index l v] is
    the index of address [v] at level [l]; [descend] follows [n] levels down. *)
Definition table_word (s : KMem) (a i : Z) : Z := word s (entry_ptr (table_ptr a) i).

Definition child (s : KMem) (a i : Z) : option Z :=
  if is_present (table_word s a i) then Some (get_addr (table_word s a i)) else None.

Definition index (l : nat) (v : Z) : Z :=
  match l with
  | 4%nat => p4_index v
  | 3%nat => p3_index v
  | 2%nat => p2_index v
  | _ => p1_index v
  end.

Fixpoint descend (n l : nat) (s : KMem) (a v : Z) : option Z :=
  match n with
  | O => Some a
  | S n => match child s a (index l v) with
           | Some b => descend n (pred l) s b v
           | None => None
           end
  end.

Definition translate (s : KMem) (root v : Z) : option Z := descend 4 4 s root v.

(** The page number of a virtual address. *)
Definition page (v : Z) : Z := (v / 4096) `mod` 2 ^ 36.

Definition table_addr (a : Z) : Prop := a `mod` 4096 = 0 ∧ 0 ≤ a < 2 ^ 47.

(** [lv] gives the level of each table. Entries of the upper levels point to tables one level down, each
    table has one parent, and tables, free frames and the frame bitmap are disjoint. *)
Record pt_inv (root : Z) (lv : gmap Z nat) (s : KMem) : Prop := {
  pi_wf : kmem_wf s;
  pi_total : TOTAL_FRAMES s ≤ 2 ^ 35;
  pi_root : lv !! root = Some 4%nat;
  pi_table : ∀ a l, lv !! a = Some l → table_addr a ∧ (1 ≤ l ≤ 4)%nat ∧ ¬ frame_free s (a / 4096);
  pi_child : ∀ a l i b, lv !! a = Some (S (S l)) → 0 ≤ i < 512 → child s a i = Some b → lv !! b = Some (S l);
  pi_inj : ∀ a a' l i i' b, lv !! a = Some (S (S l)) → lv !! a' = Some (S (S l)) → 0 ≤ i < 512 → 0 ≤ i' < 512 →
    child s a i = Some b → child s a' i' = Some b → a = a' ∧ i = i';
  pi_bitmap : ∀ a i, table_addr a → is_Some (lv !! a) ∨ frame_free s (a / 4096) → 0 ≤ i < 512 →
    ¬ in_bitmap s (entry_ptr (table_ptr a) i);
}.

Lemma index_bound l v : 0 ≤ index l v < 512.
Proof.
  assert (∀ x, 0 ≤ Z.land x 0x1FF < 512) as Hx.
  { intros x. change 0x1FF with (Z.ones 9). rewrite Z.land_ones by done. apply Z.mod_pos_bound. done. }
  destruct l as [|[|[|[|[|l]]]]]; apply Hx.
Qed.

Lemma table_ptr_add a : table_addr a → table_ptr a = a + HHDM_OFFSET.
Proof.
  intros [_ Ha]. unfold table_ptr. rewrite <-Z.add_lor_land.
  assert (Z.land a HHDM_OFFSET = 0) as ->; [|lia].
  apply Z.bits_inj'. intros n Hn. rewrite Z.land_spec, Z.bits_0.
  change HHDM_OFFSET with (Z.shiftl (Z.ones 17) 47). rewrite Z.shiftl_spec by done.
  destruct (decide (n < 47)).
  - rewrite (Z.testbit_neg_r _ (n - 47)) by lia. apply andb_false_r.
  - assert (in_u 47 a) as [_ ->]%in_u_testbit; [done|done|lia|done].
Qed.

(** Different entries of tables are different words. *)
Lemma entry_ptr_inj a a' i i' :
  table_addr a → table_addr a' → 0 ≤ i < 512 → 0 ≤ i' < 512 →
  entry_ptr (table_ptr a) i = entry_ptr (table_ptr a') i' → a = a' ∧ i = i'.
Proof.
  intros Ha Ha' Hi Hi'. unfold entry_ptr. rewrite !table_ptr_add by done. intros E.
  destruct Ha as [Hm _], Ha' as [Hm' _]. clear -Hm Hm' Hi Hi' E. dlia.
Qed.

Lemma entry_mapped a i : table_addr a → 0 ≤ i → ¬ entry_ptr (table_ptr a) i < HHDM_OFFSET.
Proof. intros Ha Hi. unfold entry_ptr. rewrite table_ptr_add by done. destruct Ha. lia. Qed.

Lemma frame_table_addr s f : kmem_wf s → TOTAL_FRAMES s ≤ 2 ^ 35 → frame_free s f →
  table_addr (f * 4096) ∧ f * 4096 / 4096 = f ∧ phys_addr_new (f * PAGE_SIZE) = f * 4096.
Proof.
  intros Hwf Ht Hf%frame_free_range. rewrite phys_addr_exact by lia. unfold table_addr, PAGE_SIZE. split; [dlia|].
  split; [apply Z.div_mul; done|done].
Qed.

(** ** Changes outside the bitmap *)
Record ram_step (s s' : KMem) : Prop := {
  rs_bitmap : FRAME_BITMAP s' = FRAME_BITMAP s;
  rs_total : TOTAL_FRAMES s' = TOTAL_FRAMES s;
  rs_size : BITMAP_SIZE s' = BITMAP_SIZE s;
  rs_kpt : KERNEL_PAGE_TABLE s' = KERNEL_PAGE_TABLE s;
  rs_words : ∀ a, in_bitmap s a → word s' a = word s a;
}.

Lemma ram_step_free s s' : kmem_wf s → ram_step s s' → kmem_wf s' ∧ ∀ f, frame_free s' f ↔ frame_free s f.
Proof.
  intros Hwf [E1 E2 E3 E4 Ew].
  assert (∀ i, 0 ≤ i < BITMAP_SIZE s → word s' (bitmap_ptr s' i) = word s (bitmap_ptr s i)) as Hw.
  { intros i Hi. unfold bitmap_ptr at 1. rewrite E1. apply Ew. by exists i. }
  split.
  - destruct Hwf as [H1 H2 H3 H4]. split; [congruence|lia|congruence|]. intros i Hi. rewrite Hw by lia. apply H4. lia.
  - intros f. unfold frame_free. rewrite E2.
    enough (0 ≤ f < TOTAL_FRAMES s → frame_bit s' f = frame_bit s f) as Hb
      by (split; intros [Hf ?]; (split; [done|]); by rewrite ?Hb in * ).
    intros Hf. unfold frame_bit. rewrite Hw; [done|]. rewrite (kw_size _ Hwf). clear -Hf. dlia.
Qed.

Lemma store_ok a v s : ¬ a < HHDM_OFFSET → store a v s = (Ok tt, k_set_ram (<[a := v]> (k_ram s)) s).
Proof. intros Ha. unfold store. by rewrite bool_decide_eq_false_2. Qed.

Lemma load_ok a s : ¬ a < HHDM_OFFSET → load a s = (Ok (word s a), s).
Proof. intros Ha. unfold load. by rewrite bool_decide_eq_false_2. Qed.

Lemma zero_table_ok b s :
  table_addr b →
  ∃ m, zero_table (table_ptr b) s = (Ok tt, k_set_ram m s) ∧
    (∀ i, 0 ≤ i < 512 → table_word (k_set_ram m s) b i = 0) ∧
    ∀ x, (∀ i, 0 ≤ i < 512 → x ≠ entry_ptr (table_ptr b) i) → word (k_set_ram m s) x = word s x.
Proof.
  intros Hb. pose proof (entry_mapped b 0 Hb ltac:(lia)) as Hp. unfold entry_ptr in Hp.
  destruct (fill_ok 512 (table_ptr b) 0 s ltac:(lia)) as (m & E & Hm). exists m. split; [exact E|]. split.
  - intros i Hi. unfold table_word. rewrite Hm, decide_True; [done|]. unfold entry_ptr. clear -Hi. dlia.
  - intros x Hx. rewrite Hm, decide_False; [done|]. intros [H1 H2].
    apply (Hx ((x - table_ptr b) / 8)); [clear -H1 H2; dlia|]. unfold entry_ptr. clear -H1 H2. dlia.
Qed.

(** A new table under an absent entry. *)
Record new_table (root : Z) (lv : gmap Z nat) (s : KMem) (a i b : Z) (l : nat) (s' : KMem) : Prop := {
  nt_inv : pt_inv root (<[b := S l]> lv) s';
  nt_fresh : lv !! b = None;
  nt_child : ∀ a' i', is_Some (lv !! a') → 0 ≤ i' < 512 →
    child s' a' i' = if decide (a' = a ∧ i' = i) then Some b else child s a' i';
  nt_empty : ∀ i', 0 ≤ i' < 512 → child s' b i' = None;
  nt_free : ∀ f, frame_free s' f → frame_free s f;
}.

Lemma get_addr_exact b : table_addr b → get_addr (set_addr b (Z.lor (Z.lor PRESENT WRITABLE) USER)) = b.
Proof.
  intros [Hm Hb]. change (Z.lor (Z.lor PRESENT WRITABLE) USER) with (Z.lor 6 PRESENT).
  rewrite get_set_addr by done. replace b with (b / 4096 * PAGE_SIZE) by (unfold PAGE_SIZE; clear -Hm; dlia).
  apply phys_addr_exact. clear -Hb. dlia.
Qed.

Lemma child_of_word s s' a i : table_word s' a i = table_word s a i → child s' a i = child s a i.
Proof. unfold child. by intros ->. Qed.

Lemma create_table_ok root lv s a i l f s1 :
  pt_inv root lv s → lv !! a = Some (S (S l)) → 0 ≤ i < 512 → child s a i = None →
  kmem_wf s1 → bitmap_step s s1 → frame_free s f → (∀ g, frame_free s1 g ↔ frame_free s g ∧ g ≠ f) →
  ∃ s', (let! _ := zero_table (table_ptr (f * 4096)) in
         let! _ := store (entry_ptr (table_ptr a) i) (set_addr (f * 4096) (Z.lor (Z.lor PRESENT WRITABLE) USER)) in
         mok (Some (table_ptr (f * 4096)))) s1 = (Ok (Some (table_ptr (f * 4096))), s') ∧
    new_table root lv s a i (f * 4096) l s'.
Proof.
  intros Hinv Ha Hi Hnone Hwf1 Hst1 Hf Hfree1. set (b := f * 4096).
  destruct (frame_table_addr s f (pi_wf _ _ _ Hinv) (pi_total _ _ _ Hinv) Hf) as (Hb & Ebf & _). fold b in Hb, Ebf.
  destruct (pi_table _ _ _ Hinv a _ Ha) as (Hta & _ & Hnf).
  assert (lv !! b = None) as Hbn.
  { destruct (lv !! b) as [l'|] eqn:E; [|done]. destruct (pi_table _ _ _ Hinv b _ E) as (_ & _ & []). by rewrite Ebf. }
  assert (a ≠ b) as Hab by (intros ->; congruence).
  destruct (zero_table_ok b s1 Hb) as (m & E2 & Hz & Ho). unfold mbindM. rewrite E2.
  rewrite store_ok by (apply entry_mapped; [done|lia]). set (s2 := k_set_ram m s1) in *.
  set (e := set_addr b _). set (s3 := k_set_ram (<[entry_ptr (table_ptr a) i := e]> (k_ram s2)) s2).
  exists s3. split; [done|].
  (* the words of the memory *)
  assert (∀ a' i', table_addr a' → 0 ≤ i' < 512 → a' ≠ b → table_word s3 a' i' =
            if decide (a' = a ∧ i' = i) then e else table_word s1 a' i') as Hw.
  { intros a' i' Ha' Hi' Hne. unfold table_word, s3. rewrite word_set.
    destruct (decide (a' = a ∧ i' = i)) as [[-> ->]|Hd]; [by rewrite decide_True|].
    rewrite decide_False by (intros [-> ->]%entry_ptr_inj; tauto). apply Ho.
    intros j Hj [-> ->]%entry_ptr_inj; tauto. }
  assert (∀ i', 0 ≤ i' < 512 → table_word s3 b i' = 0) as Hwb.
  { intros i' Hi'. unfold table_word, s3. rewrite word_set.
    rewrite decide_False by (intros [-> ->]%entry_ptr_inj; tauto). by apply Hz. }
  assert (∀ a' i', is_Some (lv !! a') → 0 ≤ i' < 512 → table_word s1 a' i' = table_word s a' i') as Hw1.
  { intros a' i' [l' Hl'] Hi'. apply (bs_ram _ _ Hst1). apply (pi_bitmap _ _ _ Hinv); [|by left; exists l'|done].
    by apply (pi_table _ _ _ Hinv a' l'). }
  assert (ram_step s1 s3) as Hram.
  { split; [done..|]. intros x Hx. unfold s3. rewrite word_set. destruct Hst1 as [B1 B2 B3 _ _].
    assert (in_bitmap s x) as Hx0 by (unfold in_bitmap, bitmap_ptr in *; by rewrite B1, B3 in Hx).
    rewrite decide_False.
    - apply Ho. intros j Hj ->. revert Hx0. apply (pi_bitmap _ _ _ Hinv); [done|right; by rewrite Ebf|done].
    - intros <-. revert Hx0. apply (pi_bitmap _ _ _ Hinv); [done|by left; eexists|done]. }
  destruct (ram_step_free s1 s3 Hwf1 Hram) as [Hwf3 Hfree3].
  assert (∀ a' i', is_Some (lv !! a') → 0 ≤ i' < 512 →
            child s3 a' i' = if decide (a' = a ∧ i' = i) then Some b else child s a' i') as Hch.
  { intros a' i' Hl' Hi'. unfold child. destruct Hl' as [l' Hl'].
    rewrite Hw; [|by apply (pi_table _ _ _ Hinv a' l')|done|intros ->; congruence].
    case_decide; [|by rewrite Hw1 by (done || by exists l')].
    unfold e at 1. change (Z.lor (Z.lor PRESENT WRITABLE) USER) with (Z.lor 6 PRESENT) at 1.
    rewrite present_set_addr. unfold e. by rewrite get_addr_exact. }
  assert (∀ i', 0 ≤ i' < 512 → child s3 b i' = None) as Hchb.
  { intros i' Hi'. unfold child. by rewrite Hwb. }
  split; [|done|done|done|by intros g [Hg _]%Hfree3%Hfree1].
  assert (∀ a' l' i' b', <[b := S l]> lv !! a' = Some (S (S l')) → 0 ≤ i' < 512 → child s3 a' i' = Some b' →
            a' = a ∧ i' = i ∧ b' = b ∧ l' = l ∨ lv !! a' = Some (S (S l')) ∧ child s a' i' = Some b' ∧ lv !! b' = Some (S l')) as Hcase.
  { intros a' l' i' b' Hl' Hi' Hc. destruct (decide (a' = b)) as [->|Hne]; [by rewrite Hchb in Hc|].
    rewrite lookup_insert_ne in Hl' by done. rewrite Hch in Hc by (done || by eexists). case_decide as Hd.
    - destruct Hd as [-> ->]. left. rewrite Ha in Hl'. injection Hl' as ->. by injection Hc as <-.
    - right. split; [done|]. split; [done|]. by apply (pi_child _ _ _ Hinv a' l' i'). }
  split.
  - done.
  - rewrite (rs_total _ _ Hram), (bs_total _ _ Hst1). apply Hinv.
  - rewrite lookup_insert_ne; [apply Hinv|]. intros <-. pose proof (pi_root _ _ _ Hinv). congruence.
  - intros a' l' Hl'. rewrite Hfree3, Hfree1. destruct (decide (a' = b)) as [->|Hne].
    + rewrite lookup_insert_eq in Hl'. injection Hl' as <-. split; [done|]. rewrite Ebf. split; [|tauto].
      destruct (pi_table _ _ _ Hinv a _ Ha) as (_ & ? & _). lia.
    + rewrite lookup_insert_ne in Hl' by done. destruct (pi_table _ _ _ Hinv a' l' Hl') as (? & ? & ?). tauto.
  - intros a' l' i' b' Hl' Hi' Hc. destruct (Hcase a' l' i' b' Hl' Hi' Hc) as [(-> & -> & -> & ->)|(_ & _ & Hb')].
    + apply lookup_insert_eq.
    + rewrite lookup_insert_ne; [done|]. congruence.
  - intros a1 a2 l' i1 i2 b' H1 H2 Hi1 Hi2 Hc1 Hc2.
    destruct (Hcase a1 l' i1 b' H1 Hi1 Hc1) as [(F1 & F2 & F3 & F4)|(G1 & C1 & L1)],
             (Hcase a2 l' i2 b' H2 Hi2 Hc2) as [(E1 & E2' & E3 & E4)|(G2 & C2 & L2)];
      [split; congruence|congruence|congruence|].
    by apply (pi_inj _ _ _ Hinv a1 a2 l' i1 i2 b').
  - intros a' i' Ha' Hor Hi'. destruct Hst1 as [B1 B2 B3 _ _], Hram as [R1 R2 R3 _ _].
    unfold in_bitmap, bitmap_ptr. rewrite R1, R3, B1, B3. apply (pi_bitmap _ _ _ Hinv a' i' Ha'); [|done].
    destruct Hor as [Hl'|Hf']; [|right; apply Hfree3, Hfree1 in Hf'; tauto].
    destruct (decide (a' = b)) as [->|Hne]; [right; by rewrite Ebf|]. rewrite lookup_insert_ne in Hl' by done. by left.
Qed.

(** ** Page numbers *)
Lemma page_indices v :
  page v = p1_index v + 512 * (p2_index v + 512 * (p3_index v + 512 * p4_index v)).
Proof.
  unfold page, p1_index, p2_index, p3_index, p4_index. change 0x1FF with (Z.ones 9). rewrite !Z.land_ones by done.
  change (2 ^ 9) with 512. rewrite !Z.shiftr_div_pow2 by done.
  replace (v / 2 ^ 21) with (v / 4096 / 512) by (by rewrite Z.div_div).
  replace (v / 2 ^ 30) with (v / 4096 / 512 / 512) by (by rewrite !Z.div_div).
  replace (v / 2 ^ 39) with (v / 4096 / 512 / 512 / 512) by (by rewrite !Z.div_div).
  change (2 ^ 12) with 4096. change (2 ^ 36) with (512 * (512 * (512 * 512))).
  by rewrite !Z.rem_mul_r by done.
Qed.

Lemma page_eq v v' :
  page v = page v' ↔ p4_index v = p4_index v' ∧ p3_index v = p3_index v' ∧ p2_index v = p2_index v' ∧ p1_index v = p1_index v'.
Proof.
  rewrite !page_indices. pose proof (index_bound 4 v). pose proof (index_bound 3 v). pose proof (index_bound 2 v).
  pose proof (index_bound 1 v). pose proof (index_bound 4 v'). pose proof (index_bound 3 v'). pose proof (index_bound 2 v').
  pose proof (index_bound 1 v'). cbn [index] in *. lia.
Qed.

(** ** Walks *)
Lemma descend_snoc n l s a v :
  descend (S n) l s a v =
  match descend n l s a v with Some b => child s b (index (l - n) v) | None => None end.
Proof.
  revert l a. induction n as [|n IH]; intros l a.
  { cbn. rewrite Nat.sub_0_r. by destruct (child s a (index l v)). }
  cbn [descend]. destruct (child s a (index l v)) as [b|]; [|done].
  change (match child s b (index (pred l) v) with Some c => descend n (pred (pred l)) s c v | None => None end)
    with (descend (S n) (pred l) s b v).
  rewrite IH. by replace (pred l - n)%nat with (l - S n)%nat by lia.
Qed.

Section walks.
Context (root : Z) (lv : gmap Z nat) (s : KMem) (Hinv : pt_inv root lv s).

(** The table reached after [n] levels is [n] levels down. *)
Lemma descend_level n l a v b :
  lv !! a = Some l → (n < l)%nat → descend n l s a v = Some b → lv !! b = Some (l - n)%nat.
Proof.
  revert l a. induction n as [|n IH]; intros l a Ha Hn Hd.
  { cbn in Hd. injection Hd as <-. by rewrite Nat.sub_0_r. }
  cbn [descend] in Hd. destruct l as [|[|l]]; [lia..|]. destruct (child s a _) as [c|] eqn:Ec; [|done].
  pose proof (pi_child _ _ _ Hinv a l _ c Ha (index_bound _ v) Ec) as Hc.
  apply (IH (S l) c); [done|lia|done].
Qed.

(** A table is reached on one path only. *)
Lemma descend_inj n l a a' v v' b :
  lv !! a = Some l → lv !! a' = Some l → (n < l)%nat →
  descend n l s a v = Some b → descend n l s a' v' = Some b →
  a = a' ∧ ∀ k, (l - n < k ≤ l)%nat → index k v = index k v'.
Proof.
  revert l a a'. induction n as [|n IH]; intros l a a' Ha Ha' Hn Hd Hd'.
  { cbn in Hd, Hd'. split; [congruence|lia]. }
  cbn [descend] in Hd, Hd'. destruct l as [|[|l]]; [lia..|].
  destruct (child s a _) as [c|] eqn:Ec; [|done]. destruct (child s a' _) as [c'|] eqn:Ec'; [|done].
  pose proof (pi_child _ _ _ Hinv a l _ c Ha (index_bound _ v) Ec) as Hc.
  pose proof (pi_child _ _ _ Hinv a' l _ c' Ha' (index_bound _ v') Ec') as Hc'.
  destruct (IH (S l) c c' Hc Hc' ltac:(lia) Hd Hd') as [-> Hk].
  destruct (pi_inj _ _ _ Hinv a a' l _ _ c' Ha Ha' (index_bound _ v) (index_bound _ v') Ec Ec') as [-> Hi].
  split; [done|]. intros k Hk'. destruct (decide (k = S (S l))) as [->|]; [done|]. apply Hk. lia.
Qed.

Lemma same_last_table v v' b :
  descend 3 4 s root v = Some b → descend 3 4 s root v' = Some b → p1_index v = p1_index v' → page v = page v'.
Proof.
  intros Hd Hd' H1. destruct (descend_inj 3 4 root root v v' b) as [_ Hk]; try done; try apply Hinv; [lia|].
  apply page_eq. split; [apply (Hk 4%nat); lia|]. split; [apply (Hk 3%nat); lia|]. split; [apply (Hk 2%nat); lia|done].
Qed.

Lemma same_page_table v v' n : (n ≤ 3)%nat → page v = page v' → descend n 4 s root v' = descend n 4 s root v.
Proof.
  intros Hn (E4 & E3 & E2 & E1)%page_eq. destruct n as [|[|[|[|n]]]]; [..|lia]; cbn [descend index pred]; by rewrite ?E4, ?E3, ?E2.
Qed.
End walks.

(** ** Extending the tree *)
Record pt_ext (root : Z) (lv : gmap Z nat) (s : KMem) (lv' : gmap Z nat) (s' : KMem) : Prop := {
  pe_inv : pt_inv root lv' s';
  pe_sub : lv ⊆ lv';
  pe_keep : ∀ a i b, is_Some (lv !! a) → 0 ≤ i < 512 → child s a i = Some b → child s' a i = Some b;
  pe_trans : ∀ v, translate s' root v = translate s root v;
  pe_free : ∀ f, frame_free s' f → frame_free s f;
}.

Lemma pt_ext_refl root lv s : pt_inv root lv s → pt_ext root lv s lv s.
Proof. by split. Qed.

Lemma pt_ext_trans root lv s lv1 s1 lv2 s2 :
  pt_ext root lv s lv1 s1 → pt_ext root lv1 s1 lv2 s2 → pt_ext root lv s lv2 s2.
Proof.
  intros [A1 A2 A3 A4 A5] [B1 B2 B3 B4 B5]. split; [done|by etrans| | |by intros f ?%B5%A5].
  - intros a i b Ha Hi Hc. apply B3; [by eapply lookup_weaken_is_Some|done|by apply A3].
  - intros v. by rewrite B4.
Qed.

Lemma new_table_descend root lv s a i b l s' :
  pt_inv root lv s → lv !! a = Some (S (S l)) → child s a i = None → new_table root lv s a i b l s' →
  ∀ l' a' v, lv !! a' = Some l' → descend l' l' s' a' v = descend l' l' s a' v.
Proof.
  intros Hinv Ha Hnone [_ Hb Hch Hchb _]. induction l' as [|l' IH]; intros a' v Hl'; [done|].
  cbn [descend pred]. rewrite Hch by (done || apply index_bound || by eexists). case_decide as Hd.
  - destruct Hd as [-> <-]. rewrite Hnone. rewrite Ha in Hl'. injection Hl' as <-. cbn [descend].
    by rewrite Hchb by apply index_bound.
  - destruct (child s a' _) as [c|] eqn:Ec; [|done]. destruct l' as [|l']; [done|]. apply IH.
    apply (pi_child _ _ _ Hinv a' l' (index (S (S l')) v)); [done|apply index_bound|done].
Qed.

Lemma new_table_ext root lv s a i b l s' :
  pt_inv root lv s → lv !! a = Some (S (S l)) → child s a i = None → new_table root lv s a i b l s' →
  pt_ext root lv s (<[b := S l]> lv) s'.
Proof.
  intros Hinv Ha Hnone Hnew. split; [apply Hnew| | | |apply Hnew].
  - apply insert_subseteq, Hnew.
  - intros a' i' c Ha' Hi' Hc. rewrite (nt_child _ _ _ _ _ _ _ _ Hnew) by done.
    rewrite decide_False; [done|]. intros [-> ->]. congruence.
  - intros v. apply (new_table_descend _ _ _ _ _ _ _ _ Hinv Ha Hnone Hnew 4%nat). apply Hinv.
Qed.

(** The outcome of [get_or_create_table]: nothing changed and memory is exhausted, or the table below the entry. *)
Definition table_below (root : Z) (lv : gmap Z nat) (s : KMem) (a i : Z) (l : nat) (r : option Z) (s' : KMem) : Prop :=
  match r with
  | None => s' = s ∧ (∀ f, ¬ frame_free s f) ∧ child s a i = None
  | Some t => ∃ b lv', t = table_ptr b ∧ pt_ext root lv s lv' s' ∧ lv' !! b = Some (S l) ∧ child s' a i = Some b
  end.

Lemma get_or_create_table_ok root lv s a i l :
  pt_inv root lv s → lv !! a = Some (S (S l)) → 0 ≤ i < 512 →
  ∃ r s', get_or_create_table (entry_ptr (table_ptr a) i) s = (Ok r, s') ∧ table_below root lv s a i l r s'.
Proof.
  intros Hinv Ha Hi. destruct (pi_table _ _ _ Hinv a _ Ha) as (Hta & _ & _).
  unfold get_or_create_table, mbindM at 1. rewrite load_ok by (apply entry_mapped; [done|lia]).
  change (word s (entry_ptr (table_ptr a) i)) with (table_word s a i).
  destruct (is_present (table_word s a i)) eqn:Ep.
  { assert (child s a i = Some (get_addr (table_word s a i))) as Hc by (unfold child; by rewrite Ep).
    eexists _, s. split; [done|]. eexists _, lv. split; [done|]. split; [by apply pt_ext_refl|].
    split; [by apply (pi_child _ _ _ Hinv a l i)|done]. }
  assert (child s a i = None) as Hnone by (unfold child; by rewrite Ep).
  destruct (alloc_frame_ok s (pi_wf _ _ _ Hinv)) as (r & s1 & E1 & Hwf1 & Hst1 & Hr).
  unfold mbindM at 1. rewrite E1. destruct r as [fa|].
  - destruct Hr as (f & -> & Hf & _ & Hg).
    destruct (frame_table_addr s f (pi_wf _ _ _ Hinv) (pi_total _ _ _ Hinv) Hf) as (Hb & _ & ->).
    destruct (create_table_ok root lv s a i l f s1 Hinv Ha Hi Hnone Hwf1 Hst1 Hf Hg) as (s' & E & Hnew).
    exists (Some (table_ptr (f * 4096))), s'. split; [exact E|]. exists (f * 4096), (<[f * 4096 := S l]> lv).
    split; [done|]. split; [by eapply new_table_ext|]. split; [apply lookup_insert_eq|].
    rewrite (nt_child _ _ _ _ _ _ _ _ Hnew) by (done || by eexists). by rewrite decide_True.
  - destruct Hr as [-> Hno]. by exists None, s.
Qed.

Lemma descend_keep root lv s lv' s' n l a v b :
  pt_inv root lv s → pt_ext root lv s lv' s' → lv !! a = Some l → (n < l)%nat →
  descend n l s a v = Some b → descend n l s' a v = Some b.
Proof.
  intros Hinv Hext. revert l a. induction n as [|n IH]; intros l a Ha Hn; [done|].
  cbn [descend]. destruct (child s a _) as [c|] eqn:Ec; [|done].
  rewrite (pe_keep _ _ _ _ _ Hext a _ c) by (done || apply index_bound || by eexists).
  destruct l as [|[|l]]; [lia..|]. apply IH; [|cbn; lia].
  by apply (pi_child _ _ _ Hinv a l _ c Ha (index_bound (S (S l)) v)).
Qed.

(** One more level of [map_page]. *)
Lemma map_level root lv s n v a :
  pt_inv root lv s → (n < 3)%nat → descend n 4 s root v = Some a →
  ∃ r s', get_or_create_table (entry_ptr (table_ptr a) (index (4 - n) v)) s = (Ok r, s') ∧
    ∃ lv', pt_ext root lv s lv' s' ∧
    match r with
    | None => ∀ f, ¬ frame_free s' f
    | Some t => ∃ b, t = table_ptr b ∧ descend (S n) 4 s' root v = Some b
    end.
Proof.
  intros Hinv Hn Hd. pose proof (descend_level _ _ _ Hinv n 4 root v a (pi_root _ _ _ Hinv) ltac:(lia) Hd) as Ha.
  replace (4 - n)%nat with (S (S (2 - n))) in Ha at 1 by lia.
  destruct (get_or_create_table_ok root lv s a (index (4 - n) v) _ Hinv Ha (index_bound _ _)) as (r & s' & E & Hr).
  exists r, s'. split; [done|]. destruct r as [t|].
  - destruct Hr as (b & lv' & -> & Hext & Hb & Hc). exists lv'. split; [done|]. exists b. split; [done|].
    assert (descend n 4 s' root v = Some a) as Hd'
      by (apply (descend_keep root lv s lv' s' n 4); try done; [apply Hinv|lia]).
    by rewrite descend_snoc, Hd'.
  - destruct Hr as (-> & Hno & _). exists lv. split; [by apply pt_ext_refl|done].
Qed.

(** ** The last level *)
Definition target (e : Z) : option Z := if is_present e then Some (get_addr e) else None.

Lemma translate_last s root v :
  translate s root v = match descend 3 4 s root v with Some b => child s b (p1_index v) | None => None end.
Proof. apply (descend_snoc 3 4). Qed.

Definition set_entry (a i e : Z) (s : KMem) : KMem := k_set_ram (<[entry_ptr (table_ptr a) i := e]> (k_ram s)) s.

Lemma set_entry_ok root lv s a i e :
  pt_inv root lv s → lv !! a = Some 1%nat → 0 ≤ i < 512 →
  pt_inv root lv (set_entry a i e s) ∧ (∀ f, frame_free (set_entry a i e s) f ↔ frame_free s f) ∧
  (∀ a' i', is_Some (lv !! a') → 0 ≤ i' < 512 →
     child (set_entry a i e s) a' i' = if decide (a' = a ∧ i' = i) then target e else child s a' i').
Proof.
  intros Hinv Ha Hi. destruct (pi_table _ _ _ Hinv a _ Ha) as (Hta & _ & _). set (s' := set_entry a i e s).
  assert (ram_step s s') as Hram.
  { split; [done..|]. intros x Hx. unfold s', set_entry. rewrite word_set, decide_False; [done|].
    intros <-. revert Hx. apply (pi_bitmap _ _ _ Hinv); [done|by left; eexists|done]. }
  destruct (ram_step_free s s' (pi_wf _ _ _ Hinv) Hram) as [Hwf Hfree].
  assert (∀ a' i', is_Some (lv !! a') → 0 ≤ i' < 512 →
     child s' a' i' = if decide (a' = a ∧ i' = i) then target e else child s a' i') as Hch.
  { intros a' i' [l' Hl'] Hi'. destruct (pi_table _ _ _ Hinv a' _ Hl') as (Hta' & _ & _).
    unfold child, target, table_word, s', set_entry. rewrite word_set. case_decide as Hd.
    - apply entry_ptr_inj in Hd as [-> ->]; [|done..]. by rewrite decide_True.
    - rewrite decide_False; [done|]. by intros [-> ->]. }
  assert (∀ a' l' i', lv !! a' = Some (S (S l')) → 0 ≤ i' < 512 → child s' a' i' = child s a' i') as Hup.
  { intros a' l' i' Hl' Hi'. rewrite Hch by (done || by eexists). rewrite decide_False; [done|].
    intros [-> _]. congruence. }
  split; [|done]. split.
  - done.
  - apply Hinv.
  - apply Hinv.
  - intros a' l' Hl'. rewrite Hfree. by apply Hinv.
  - intros a' l' i' b Hl' Hi'. rewrite (Hup a' l') by done. by apply Hinv.
  - intros a1 a2 l' i1 i2 b H1 H2 Hi1 Hi2. rewrite (Hup a1 l'), (Hup a2 l') by done. by apply (pi_inj _ _ _ Hinv a1 a2 l').
  - intros a' i' Ha' Hor Hi'. rewrite Hfree in Hor. by apply (pi_bitmap _ _ _ Hinv).
Qed.

(** Writing the last-level entry of a page changes the translation of that page and of no other. *)
Lemma set_entry_translate root lv s a v e :
  pt_inv root lv s → descend 3 4 s root v = Some a →
  pt_inv root lv (set_entry a (p1_index v) e s) ∧
  (∀ f, frame_free (set_entry a (p1_index v) e s) f ↔ frame_free s f) ∧
  ∀ v', translate (set_entry a (p1_index v) e s) root v' =
    if decide (page v' = page v) then target e else translate s root v'.
Proof.
  intros Hinv Hd. pose proof (descend_level _ _ _ Hinv 3 4 root v a (pi_root _ _ _ Hinv) ltac:(lia) Hd) as Ha.
  change (4 - 3)%nat with 1%nat in Ha.
  destruct (set_entry_ok root lv s a (p1_index v) e Hinv Ha (index_bound 1 v)) as (Hinv' & Hfree & Hch).
  split; [done|]. split; [done|]. intros v'. set (s' := set_entry a (p1_index v) e s) in *. rewrite !translate_last.
  assert (∀ n l a', lv !! a' = Some l → (n < l)%nat → descend n l s' a' v' = descend n l s a' v') as Hdesc.
  { induction n as [|n IH]; intros l a' Hl Hn; [done|]. cbn [descend].
    rewrite Hch by (apply index_bound || by eexists). destruct l as [|[|l]]; [lia..|].
    rewrite decide_False by (intros [-> _]; congruence). destruct (child s a' _) as [c|] eqn:Ec; [|done].
    apply IH; [|cbn; lia]. by apply (pi_child _ _ _ Hinv a' l _ c Hl (index_bound (S (S l)) v')). }
  rewrite Hdesc by (apply Hinv || lia). destruct (decide (page v' = page v)) as [E|Hne].
  - rewrite (same_page_table _ _ v v' 3) by done. rewrite Hd. apply page_eq in E as (_ & _ & _ & E1).
    rewrite Hch by (apply (index_bound 1) || by eexists). by rewrite decide_True.
  - destruct (descend 3 4 s root v') as [b|] eqn:Hd'; [|done].
    pose proof (descend_level _ _ _ Hinv 3 4 root v' b (pi_root _ _ _ Hinv) ltac:(lia) Hd') as Hb.
    rewrite Hch by (apply (index_bound 1) || by eexists). rewrite decide_False; [done|].
    intros [-> E1]. apply Hne. by apply (same_last_table _ _ _ Hinv v' v a).
Qed.

(** ** The operations *)
Lemma map_page_ok root lv s v phys flags :
  pt_inv root lv s → flags_ok flags →
  ∃ r s' lv', map_page root v phys flags s = (Ok r, s') ∧ pt_inv root lv' s' ∧ lv ⊆ lv' ∧
    (∀ f, frame_free s' f → frame_free s f) ∧
    match r with
    | Some _ => ∀ v', translate s' root v' = if decide (page v' = page v) then Some (Z.land phys PHYS_MASK) else translate s root v'
    | None => (∀ f, ¬ frame_free s' f) ∧ ∀ v', translate s' root v' = translate s root v'
    end.
Proof.
  intros Hinv Hfl. unfold map_page, mbindM.
  destruct (map_level root lv s 0 v root Hinv ltac:(lia) eq_refl) as (r1 & s1 & E1 & lv1 & X1 & H1).
  change (index (4 - 0) v) with (p4_index v) in E1. rewrite E1.
  destruct r1 as [t1|]; [|exists None, s1, lv1; split_and!; (done || apply X1)].
  destruct H1 as (b1 & -> & D1).
  destruct (map_level root lv1 s1 1 v b1 (pe_inv _ _ _ _ _ X1) ltac:(lia) D1) as (r2 & s2 & E2 & lv2 & X2 & H2).
  change (index (4 - 1) v) with (p3_index v) in E2. rewrite E2. pose proof (pt_ext_trans _ _ _ _ _ _ _ X1 X2) as X12.
  destruct r2 as [t2|]; [|exists None, s2, lv2; split_and!; (done || apply X12)].
  destruct H2 as (b2 & -> & D2).
  destruct (map_level root lv2 s2 2 v b2 (pe_inv _ _ _ _ _ X2) ltac:(lia) D2) as (r3 & s3 & E3 & lv3 & X3 & H3).
  change (index (4 - 2) v) with (p2_index v) in E3. rewrite E3. pose proof (pt_ext_trans _ _ _ _ _ _ _ X12 X3) as X13.
  destruct r3 as [t3|]; [|exists None, s3, lv3; split_and!; (done || apply X13)].
  destruct H3 as (b3 & -> & D3).
  pose proof (descend_level _ _ _ (pe_inv _ _ _ _ _ X3) 3 4 root v b3 (pi_root _ _ _ (pe_inv _ _ _ _ _ X3)) ltac:(lia) D3) as Hb3.
  destruct (pi_table _ _ _ (pe_inv _ _ _ _ _ X3) b3 _ Hb3) as (Hta & _ & _).
  rewrite store_ok by (apply entry_mapped; [done|apply (index_bound 1)]).
  set (e := set_addr phys (Z.lor flags PRESENT)).
  destruct (set_entry_translate root lv3 s3 b3 v e (pe_inv _ _ _ _ _ X3) D3) as (Hinv' & Hfree & Htr).
  exists (Some tt), (set_entry b3 (p1_index v) e s3), lv3. split; [done|]. split; [done|]. split; [apply X13|].
  split; [intros f ?%Hfree; by apply X13|]. intros v'. rewrite Htr, (pe_trans _ _ _ _ _ X13).
  unfold target, e. by rewrite present_set_addr, get_set_addr.
Qed.

Lemma present_table_ok root lv s a i :
  pt_inv root lv s → is_Some (lv !! a) → 0 ≤ i →
  present_table (entry_ptr (table_ptr a) i) s = (Ok (table_ptr <$> child s a i), s).
Proof.
  intros Hinv [l Ha] Hi. destruct (pi_table _ _ _ Hinv a _ Ha) as (Hta & _ & _). unfold present_table, mbindM.
  rewrite load_ok by (by apply entry_mapped). unfold child, table_word. by destruct (is_present _).
Qed.

Lemma walk_p1_ok root lv s v :
  pt_inv root lv s →
  walk_p1 root v s = (Ok ((λ a, entry_ptr (table_ptr a) (p1_index v)) <$> descend 3 4 s root v), s).
Proof.
  intros Hinv. unfold walk_p1, mbindM. cbn [descend index pred].
  pose proof (pi_root _ _ _ Hinv) as H4. rewrite (present_table_ok root lv) by (done || (by eexists) || apply (index_bound 4)).
  destruct (child s root (p4_index v)) as [b3|] eqn:E3; [|done]. cbn [fmap option_fmap option_map].
  pose proof (pi_child _ _ _ Hinv root 2 _ b3 H4 (index_bound 4 v) E3) as H3.
  rewrite (present_table_ok root lv) by (done || (by eexists) || apply (index_bound 3)).
  destruct (child s b3 (p3_index v)) as [b2|] eqn:E2; [|done]. cbn [fmap option_fmap option_map].
  pose proof (pi_child _ _ _ Hinv b3 1 _ b2 H3 (index_bound 3 v) E2) as H2.
  rewrite (present_table_ok root lv) by (done || (by eexists) || apply (index_bound 2)).
  by destruct (child s b2 (p2_index v)).
Qed.

Lemma unmap_page_ok root lv s v :
  pt_inv root lv s →
  ∃ s', unmap_page root v s = (Ok tt, s') ∧ pt_inv root lv s' ∧ (∀ f, frame_free s' f ↔ frame_free s f) ∧
    ∀ v', translate s' root v' = if decide (page v' = page v) then None else translate s root v'.
Proof.
  intros Hinv. unfold unmap_page, mbindM. rewrite (walk_p1_ok root lv) by done.
  destruct (descend 3 4 s root v) as [a|] eqn:Hd; cbn [fmap option_fmap option_map].
  - pose proof (descend_level _ _ _ Hinv 3 4 root v a (pi_root _ _ _ Hinv) ltac:(lia) Hd) as Ha.
    destruct (pi_table _ _ _ Hinv a _ Ha) as (Hta & _ & _).
    rewrite store_ok by (apply entry_mapped; [done|apply (index_bound 1)]).
    destruct (set_entry_translate root lv s a v 0 Hinv Hd) as (Hinv' & Hfree & Htr). by eexists.
  - exists s. split; [done|]. split; [done|]. split; [done|]. intros v'. case_decide as E; [|done].
    rewrite translate_last, (same_page_table _ _ v v' 3) by done. by rewrite Hd.
Qed.

Lemma mapped_entry_ok root lv s v :
  pt_inv root lv s →
  match translate s root v with
  | None => mapped_entry root v s = (Err PageNotMapped, s)
  | Some p => ∃ a e, mapped_entry root v s = (Ok (entry_ptr (table_ptr a) (p1_index v), e), s) ∧ get_addr e = p ∧
      table_addr a ∧ descend 3 4 s root v = Some a
  end.
Proof.
  intros Hinv. rewrite translate_last. unfold mapped_entry, mbindM, run_km. rewrite (walk_p1_ok root lv) by done.
  destruct (descend 3 4 s root v) as [a|] eqn:Hd; cbn [fmap option_fmap option_map]; [|done].
  pose proof (descend_level _ _ _ Hinv 3 4 root v a (pi_root _ _ _ Hinv) ltac:(lia) Hd) as Ha.
  destruct (pi_table _ _ _ Hinv a _ Ha) as (Hta & _ & _).
  rewrite load_ok by (apply entry_mapped; [done|apply (index_bound 1)]).
  unfold child, table_word. destruct (is_present (word s _)); [|done]. by eexists _, _.
Qed.

Lemma update_flags_ok root lv s v flags p :
  pt_inv root lv s → flags_ok flags → translate s root v = Some p →
  ∃ s', update_flags root v flags s = (Ok tt, s') ∧ pt_inv root lv s' ∧ (∀ f, frame_free s' f ↔ frame_free s f) ∧
    ∀ v', translate s' root v' = translate s root v'.
Proof.
  intros Hinv Hfl Hp. pose proof (mapped_entry_ok root lv s v Hinv) as Hm. rewrite Hp in Hm.
  destruct Hm as (a & e & Em & <- & Hta & Hd). unfold update_flags, mbindM. rewrite Em. cbn [fst snd]. unfold run_km.
  rewrite store_ok by (apply entry_mapped; [done|apply (index_bound 1)]).
  destruct (set_entry_translate root lv s a v (set_addr (get_addr e) (Z.lor flags PRESENT)) Hinv Hd) as (Hinv' & Hfree & Htr).
  eexists. split; [done|]. split; [done|]. split; [done|]. intros v'. rewrite Htr. case_decide as E; [|done].
  unfold target. rewrite present_set_addr, get_set_addr by done. rewrite get_addr_table, mask_idem, <-get_addr_table, <-Hp.
  rewrite !translate_last, (same_page_table _ _ v v' 3) by done. apply page_eq in E as (_ & _ & _ & ->). done.
Qed.

(** ** The refinement: a page table is a finite map from pages to frames *)
Inductive PageOp : Type :=
  | PMap (page frame flags : Z)
  | PUnmap (page : Z)
  | PTranslate (page : Z)
  | PFlags (page flags : Z).

Definition page_op (root : Z) (o : PageOp) : MM (option Z) :=
  match o with
  | PMap v p flags => let! _ := map_to_with_table_flags root v p flags in mok None
  | PUnmap v => let! p := unmap root v in mok (Some p)
  | PTranslate v => let! p := translate_page root v in mok (Some p)
  | PFlags v flags => let! _ := update_flags root v flags in mok None
  end.

(** Every operation in turn, errors included. *)
Fixpoint page_run (root : Z) (ops : list PageOp) (s : KMem) : list (res MapError (option Z)) * KMem :=
  match ops with
  | [] => ([], s)
  | o :: ops => let '(r, s1) := page_op root o s in let '(rs, s2) := page_run root ops s1 in (r :: rs, s2)
  end.

Definition page_op_ok (o : PageOp) : Prop :=
  match o with PMap _ _ flags | PFlags _ flags => flags_ok flags | _ => True end.

Definition mapped (x : option Z) (r : Z → option Z) : res MapError (option Z) :=
  match x with Some p => Ok (r p) | None => Err PageNotMapped end.

(** What a page table promises, as a map from pages to frames and the set of free frames: an operation
    changes its own page only, and mapping fails only when the frames are used up. *)
Inductive page_step (m : gmap Z Z) (F : gset Z) : PageOp → res MapError (option Z) → gmap Z Z → gset Z → Prop :=
  | ps_map v p flags F' :
      F' ⊆ F → page_step m F (PMap v p flags) (Ok None) (<[page v := Z.land p PHYS_MASK]> m) F'
  | ps_full v p flags : page_step m F (PMap v p flags) (Err FrameAllocationFailed) m ∅
  | ps_unmap v : page_step m F (PUnmap v) (mapped (m !! page v) Some) (delete (page v) m) F
  | ps_translate v : page_step m F (PTranslate v) (mapped (m !! page v) Some) m F
  | ps_flags v flags : page_step m F (PFlags v flags) (mapped (m !! page v) (λ _, None)) m F.

Inductive page_steps : gmap Z Z → gset Z → list PageOp → list (res MapError (option Z)) → gmap Z Z → gset Z → Prop :=
  | pss_nil m F : page_steps m F [] [] m F
  | pss_cons m F o r m1 F1 ops rs m2 F2 :
      page_step m F o r m1 F1 → page_steps m1 F1 ops rs m2 F2 → page_steps m F (o :: ops) (r :: rs) m2 F2.

(** The tables of [s] are the map [m], with the frames [F] free. *)
Definition pages_are (root : Z) (s : KMem) (m : gmap Z Z) (F : gset Z) : Prop :=
  (∃ lv, pt_inv root lv s) ∧ (∀ v, translate s root v = m !! page v) ∧ frames_are s F.

Lemma free_frames_exist s : kmem_wf s → ∃ F, frames_are s F.
Proof.
  intros _. exists (list_to_set (filter (λ f, frame_bit s f = true) (seqZ 0 (TOTAL_FRAMES s)))).
  intros f. rewrite elem_of_list_to_set, list_elem_of_filter, elem_of_seqZ. unfold frame_free. rewrite Z.add_0_l. tauto.
Qed.

Lemma page_op_refines root o s m F :
  pages_are root s m F → page_op_ok o →
  ∃ r s' m' F', page_op root o s = (r, s') ∧ page_step m F o r m' F' ∧ pages_are root s' m' F'.
Proof.
  intros ((lv & Hinv) & Hm & HF) Ho. destruct o as [v p flags|v|v|v flags]; cbn [page_op page_op_ok] in *.
  - destruct (map_page_ok root lv s v (phys_addr_new p) flags Hinv Ho) as (r & s' & lv' & E & Hinv' & _ & Hfree & Hr).
    unfold map_to_with_table_flags, mbindM, run_km. rewrite E. destruct r as [[]|].
    + destruct (free_frames_exist s' (pi_wf _ _ _ Hinv')) as [F' HF'].
      eexists _, _, _, F'. split; [done|]. split; [apply ps_map; intros f; rewrite (HF' f), (HF f); apply Hfree|].
      split; [by exists lv'|]. split; [|done]. intros v'. rewrite Hr, Hm, lookup_insert. unfold phys_addr_new. rewrite mask_idem.
      destruct (decide (page v' = page v)), (decide (page v = page v')); congruence.
    + destruct Hr as [Hno Htr]. eexists _, _, _, ∅. split; [done|]. split; [apply ps_full|]. split; [by exists lv'|].
      split; [intros v'; by rewrite Htr|]. intros f. rewrite elem_of_empty. split; [done|apply Hno].
  - unfold unmap, mbindM. pose proof (mapped_entry_ok root lv s v Hinv) as He.
    assert (∀ r s', (∀ v', translate s' root v' = if decide (page v' = page v) then None else translate s root v') →
             pt_inv root lv s' → (∀ f, frame_free s' f ↔ frame_free s f) → r = mapped (m !! page v) Some →
             ∃ r0 s0 m' F', (r, s') = (r0, s0) ∧ page_step m F (PUnmap v) r0 m' F' ∧ pages_are root s0 m' F') as Hend.
    { intros r s' Htr Hinv' Hfree ->. eexists _, _, _, F. split; [done|]. split; [apply ps_unmap|].
      split; [by exists lv|]. split; [|intros f; by rewrite Hfree]. intros v'. rewrite Htr, Hm, lookup_delete.
      destruct (decide (page v' = page v)), (decide (page v = page v')); congruence. }
    rewrite Hm in He. destruct (m !! page v) as [p|] eqn:Ep.
    + destruct He as (a & e & -> & <- & _). unfold run_km.
      destruct (unmap_page_ok root lv s v Hinv) as (s' & -> & Hinv' & Hfree & Htr). by apply Hend.
    + rewrite He. apply Hend; [|done..]. intros v'. case_decide as E; [|done]. by rewrite Hm, E.
  - unfold translate_page, mbindM. pose proof (mapped_entry_ok root lv s v Hinv) as He. rewrite Hm in He.
    exists (mapped (m !! page v) Some), s, m, F. split; [|split; [apply ps_translate|by split; [exists lv|]]].
    destruct (m !! page v); [destruct He as (a & e & -> & <- & _)|rewrite He]; done.
  - destruct (m !! page v) as [p|] eqn:Ep.
    + destruct (update_flags_ok root lv s v flags p Hinv Ho) as (s' & E & Hinv' & Hfree & Htr); [by rewrite Hm|].
      unfold mbindM. rewrite E. exists (Ok None), s', m, F. split; [done|]. split.
      { pose proof (ps_flags m F v flags) as Hs. by rewrite Ep in Hs. }
      split; [by exists lv|]. split; [intros v'; by rewrite Htr|intros f; by rewrite Hfree].
    + pose proof (mapped_entry_ok root lv s v Hinv) as He. rewrite Hm, Ep in He. unfold update_flags, mbindM. rewrite He.
      exists (Err PageNotMapped), s, m, F. split; [done|]. split; [|by split; [exists lv|]].
      pose proof (ps_flags m F v flags) as Hs. by rewrite Ep in Hs.
Qed.

(** ** Properties *)

(** C3: page tables implement a finite map from pages to frames. Any sequence of the operations of the
    [Mapper] trait gives the answers the map gives: a mapped page translates to its frame, mapping,
    unmapping and changing flags affect no other page, unmapped pages are reported, and mapping fails
    only when no frame is free, leaving all translations as they were. *)
Theorem paging_refines_map root ops s m F :
  pages_are root s m F → Forall page_op_ok ops →
  ∃ m' F', page_steps m F ops (page_run root ops s).1 m' F' ∧ pages_are root (page_run root ops s).2 m' F'.
Proof.
  revert s m F. induction ops as [|o ops IH]; intros s m F Hp Hops.
  { exists m, F. split; [constructor|done]. }
  apply Forall_cons in Hops as [Ho Hops]. cbn [page_run].
  destruct (page_op_refines root o s m F Hp Ho) as (r & s1 & m1 & F1 & -> & Hst & Hp1).
  destruct (IH s1 m1 F1 Hp1 Hops) as (m' & F' & Hst' & Hp'). exists m', F'.
  destruct (page_run root ops s1) as [rs s2]. split; [by econstructor|done].
Qed.

(** The bitmap in frame 0, an empty root table in frame 1, frames 2 to 15 free. *)
Definition demo_tables : KMem := mkKMem {[HHDM_OFFSET := 0xFFFC]} HHDM_OFFSET 16 1 4096.

Lemma demo_tables_free f : frame_free demo_tables f ↔ 2 ≤ f < 16.
Proof.
  unfold frame_free, frame_bit. cbn [TOTAL_FRAMES demo_tables]. split.
  - intros [Hf Hb]. assert (f ≠ 0) by (by intros ->). assert (f ≠ 1) by (by intros ->). lia.
  - intros Hf. split; [lia|]. assert (f / 64 = 0 ∧ f `mod` 64 = f) as [-> ->] by dlia.
    change (word demo_tables (bitmap_ptr demo_tables 0)) with (Z.shiftl (Z.ones 14) 2).
    rewrite Z.shiftl_spec, Z.testbit_ones by lia. lia.
Qed.

Lemma demo_tables_ok : pages_are 4096 demo_tables ∅ (list_to_set (seqZ 2 14)).
Proof.
  assert (∀ i, 0 ≤ i → child demo_tables 4096 i = None) as Hc.
  { intros i Hi. unfold child, table_word, word, demo_tables. cbn [k_ram].
    rewrite lookup_singleton_ne; [done|]. unfold entry_ptr. rewrite table_ptr_add by (by unfold table_addr). lia. }
  split; [|split].
  - exists {[4096 := 4%nat]}. split.
    + split; [done|done|done|]. intros i Hi. cbn [BITMAP_SIZE demo_tables] in Hi. by replace i with 0 by lia.
    + done.
    + apply lookup_singleton_eq.
    + intros a l [<- <-]%lookup_singleton_Some. split; [by unfold table_addr|]. split; [lia|].
      rewrite demo_tables_free. change (4096 / 4096) with 1. lia.
    + intros a l i b [<- _]%lookup_singleton_Some Hi. by rewrite Hc by lia.
    + intros a a' l i i' b [<- _]%lookup_singleton_Some _ Hi _. by rewrite Hc by lia.
    + intros a i Ha Hor Hi (j & Hj & E). cbn [BITMAP_SIZE demo_tables] in Hj. unfold bitmap_ptr, entry_ptr in E.
      rewrite table_ptr_add in E by done. cbn [FRAME_BITMAP demo_tables] in E. destruct Ha as [Hm Ha].
      assert (a = 0) as -> by lia. destruct Hor as [[l [[=] _]%lookup_singleton_Some]|Hf%demo_tables_free].
      change (0 / 4096) with 0 in Hf. lia.
  - intros v. rewrite lookup_empty. unfold translate. cbn [descend]. by rewrite Hc by apply index_bound.
  - intros f. rewrite elem_of_list_to_set, elem_of_seqZ, demo_tables_free. done.
Qed.

Lemma paging_refines_map_witness :
  ∃ m' F', page_steps ∅ (list_to_set (seqZ 2 14))
    [PMap 0x7FFF00001000 0xB8000 3; PTranslate 0x7FFF00001000; PUnmap 0x7FFF00001000; PTranslate 0x7FFF00001000]
    [Ok None; Ok (Some 0xB8000); Ok (Some 0xB8000); Err PageNotMapped] m' F'.
Proof.
  destruct (paging_refines_map 4096
    [PMap 0x7FFF00001000 0xB8000 3; PTranslate 0x7FFF00001000; PUnmap 0x7FFF00001000; PTranslate 0x7FFF00001000]
    demo_tables ∅ (list_to_set (seqZ 2 14)) demo_tables_ok) as (m' & F' & Hs & _).
  - clear. forall_list.
  - exists m', F'.
    assert ((page_run 4096 [PMap 0x7FFF00001000 0xB8000 3; PTranslate 0x7FFF00001000; PUnmap 0x7FFF00001000; PTranslate 0x7FFF00001000]
      demo_tables).1 = [Ok None; Ok (Some 0xB8000); Ok (Some 0xB8000); Err PageNotMapped]) as E by (clear; by vm_compute).
    rewrite E in Hs. exact Hs.
Defined.

(** The memory manager starts in a state in which its tables are not safe. After [VMM::init] the frame of
    the active root table is free for allocation, so the condition under which the page tables implement
    a map does not hold for any assignment of levels. *)
Theorem vmm_init_leaves_root_free es cr3 s top :
  Forall entry_ok es → max_end 0 es = Ok top → Exists (holds_bitmap ((top / PAGE_SIZE + 63) / 64)) es →
  0 ≤ Z.land cr3 PHYS_MASK / PAGE_SIZE < top / PAGE_SIZE →
  ∃ s', vmm_init es cr3 s = (Ok (Z.land cr3 PHYS_MASK), s') ∧ KERNEL_PAGE_TABLE s' = Z.land cr3 PHYS_MASK ∧
    frame_free s' (Z.land cr3 PHYS_MASK / PAGE_SIZE) ∧ ∀ lv, ¬ pt_inv (Z.land cr3 PHYS_MASK) lv s'.
Proof.
  intros Hes Etop Hex Hr. destruct (frame_allocator_init_ok es s Hes) as (top' & E & Hinit).
  rewrite Etop in E. injection E as <-. destruct (Hinit Hex) as (e & s1 & _ & Ei & _ & Ht & _ & _ & Hall).
  unfold vmm_init, mbindM. rewrite Ei. eexists. split; [done|]. split; [done|].
  assert (frame_free s1 (Z.land cr3 PHYS_MASK / PAGE_SIZE)) as Hfree by (apply Hall; lia).
  split; [done|]. intros lv Hinv. destruct (pi_table _ _ _ Hinv _ _ (pi_root _ _ _ Hinv)) as (_ & _ & []). exact Hfree.
Qed.

Lemma vmm_init_leaves_root_free_witness :
  ∃ s', vmm_init demo_memory_map 0x2018 (kmem_boot ∅) = (Ok 0x2000, s') ∧ frame_free s' 2 ∧ ∀ lv, ¬ pt_inv 0x2000 lv s'.
Proof.
  destruct (vmm_init_leaves_root_free demo_memory_map 0x2018 (kmem_boot ∅) 0x10000) as (s' & E & _ & Hf & Hno).
  - unfold entry_ok, PAGE_SIZE. forall_list; cbn; lia.
  - by vm_compute.
  - right. left. by vm_compute.
  - by vm_compute.
  - exists s'. split; [exact E|]. split; [exact Hf|exact Hno].
Defined.
