(* ===== verification/Mmio.v ===== *)
(** * Device memory ([crates/lib_kernel/src/memory/mmio.rs])

    A window of virtual addresses, given out from its lower end; each request
    maps the pages of a device into the next part of the window, through the
    kernel's page tables of [Paging.v]. *)

From S2P Require Import Prelude KernelMemory Paging.

(** ** State: the static variables, over the memory of the kernel *)
Record Mmio := mkMmio { mm_mem : KMem; MMIO_LOWER : Z; MMIO_UPPER : Z; MMIO_CURRENT : Z }.

Inductive MmioError : Type := RegionExhausted | MapFailed.

Definition set_mem (k : KMem) (m : Mmio) : Mmio := mkMmio k (MMIO_LOWER m) (MMIO_UPPER m) (MMIO_CURRENT m).
Definition mmio_set_current (c : Z) (m : Mmio) : Mmio := mkMmio (mm_mem m) (MMIO_LOWER m) (MMIO_UPPER m) c.

Abbreviation MIO := (M Mmio MmioError).

Definition on_mem {A} (p : KM A) : MIO A := λ m,
  match p (mm_mem m) with
  | (Ok a, k) => (Ok a, set_mem k m)
  | (Err e, k) => match e with end
  | (Panic, k) => (Panic, set_mem k m)
  | (Hang, k) => (Hang, set_mem k m)
  end.

(** ** Operations *)
Definition mmio_map_range (lower upper : Z) : MIO unit :=
  mmod (λ m, mkMmio (mm_mem m) lower upper lower).

Definition WRITE_THROUGH : Z := 8.
Definition NO_CACHE : Z := 16.
Definition MMIO_FLAGS : Z := Z.lor (Z.lor WRITABLE NO_CACHE) WRITE_THROUGH.

(** The body of the loop: page [i] of a request. *)
Definition map_mmio_page (root virt_addr phys_addr i : Z) : MIO unit :=
  let! off := mlift (mul64 i 0x1000) in
  let! virt := mlift (add64 virt_addr off) in
  let! off := mlift (mul64 i 0x1000) in
  let! phys := mlift (add64 phys_addr off) in
  let! r := on_mem (map_page root virt (phys_addr_new phys) MMIO_FLAGS) in
  match r with Some _ => mok tt | None => merr MapFailed end.

Definition map_mmio (phys_addr size : Z) : MIO Z :=
  let! sz := mlift (add64 size 0xFFF) in
  let pages_needed := sz / 0x1000 in
  let! total_size := mlift (mul64 pages_needed 0x1000) in
  let! m := mget in
  let! top := mlift (add64 (MMIO_CURRENT m) total_size) in
  if bool_decide (MMIO_UPPER m < top) then merr RegionExhausted else
  let virt_addr := MMIO_CURRENT m in
  let root := KERNEL_PAGE_TABLE (mm_mem m) in
  let! _ := mfor (seqZ 0 pages_needed) (map_mmio_page root virt_addr phys_addr) in
  let! m := mget in
  let! c := mlift (add64 (MMIO_CURRENT m) total_size) in
  let! _ := mmod (mmio_set_current c) in
  mok virt_addr.

(** [saturating_sub] *)
Definition mmio_remaining (m : Mmio) : Z := Z.max 0 (MMIO_UPPER m - MMIO_CURRENT m).

(** ** The root table is fixed: no operation on the tables writes [KERNEL_PAGE_TABLE] *)
Definition keeps_root {A} (p : KM A) : Prop := ∀ s, KERNEL_PAGE_TABLE (p s).2 = KERNEL_PAGE_TABLE s.

Create HintDb roots.

Lemma keeps_root_ok {A} (a : A) : keeps_root (mok a).
Proof. done. Qed.

Lemma keeps_root_bind {A B} (p : KM A) (k : A → KM B) :
  keeps_root p → (∀ a, keeps_root (k a)) → keeps_root (mbindM p k).
Proof.
  intros Hp Hk s. unfold mbindM. specialize (Hp s). destruct (p s) as [[a|[]| |] s1]; cbn in *; [|done..].
  by rewrite Hk.
Qed.

Lemma keeps_load a : keeps_root (load a).
Proof. intros s. unfold load. by case_bool_decide. Qed.

Lemma keeps_store a v : keeps_root (store a v).
Proof. intros s. unfold store. by case_bool_decide. Qed.

Lemma keeps_root_get {B} (k : KMem → KM B) : (∀ s, keeps_root (k s)) → keeps_root (mbindM mget k).
Proof. intros Hk s. apply Hk. Qed.

Lemma keeps_mfor {A} (xs : list A) body : (∀ x, keeps_root (body x)) → keeps_root (mfor xs body).
Proof. intros Hb. induction xs as [|x xs IH]; [done|]. cbn [mfor]. by apply keeps_root_bind. Qed.

#[export] Hint Resolve keeps_root_ok keeps_load keeps_store : roots.

Lemma keeps_mark_used f : keeps_root (mark_used f).
Proof. apply keeps_root_get. intros s. case_bool_decide; [done|]. apply keeps_root_bind; auto with roots. Qed.

Lemma keeps_alloc_frame : keeps_root alloc_frame.
Proof.
  apply keeps_root_get. intros s. generalize (Z.to_nat (BITMAP_SIZE s)) 0. clear s.
  induction n as [|n IH]; intros i; [done|]. cbn [alloc_loop]. apply keeps_root_get. intros s.
  apply keeps_root_bind; [auto with roots|]. intros w. destruct (_ && _); [|apply IH].
  apply keeps_root_bind; [apply keeps_mark_used|done].
Qed.

Lemma keeps_table e : keeps_root (get_or_create_table e).
Proof.
  apply keeps_root_bind; [auto with roots|]. intros w. destruct (is_present w); [done|].
  apply keeps_root_bind; [apply keeps_alloc_frame|]. intros [f|]; [|done].
  apply keeps_root_bind; [apply keeps_mfor; auto with roots|]. intros _. apply keeps_root_bind; auto with roots.
Qed.

#[export] Hint Resolve keeps_table : roots.

Lemma keeps_map_page root v p flags : keeps_root (map_page root v p flags).
Proof.
  unfold map_page. apply keeps_root_bind; [auto with roots|]. intros [t|]; [|done].
  apply keeps_root_bind; [auto with roots|]. intros [t2|]; [|done].
  apply keeps_root_bind; [auto with roots|]. intros [t3|]; [|done]. apply keeps_root_bind; auto with roots.
Qed.

(** ** What a window promises *)
Definition mmio_pages (size : Z) : Z := (size + 0xFFF) / 0x1000.

Definition m_translate (m : Mmio) (v : Z) : option Z := translate (mm_mem m) (KERNEL_PAGE_TABLE (mm_mem m)) v.

(** The window is a range of at most [2^48] bytes, and the kernel's tables are well formed. *)
Record mm_ok (m : Mmio) : Prop := {
  mo_lower : 0 ≤ MMIO_LOWER m ≤ MMIO_CURRENT m;
  mo_upper : MMIO_CURRENT m ≤ MMIO_UPPER m < 2 ^ 64;
  mo_span : MMIO_UPPER m - MMIO_LOWER m ≤ 2 ^ 48;
  mo_tables : ∃ lv, pt_inv (KERNEL_PAGE_TABLE (mm_mem m)) lv (mm_mem m);
}.

(** Steps that change only the memory, and there only consume frames. *)
Record mm_step (m m' : Mmio) : Prop := {
  ms_lower : MMIO_LOWER m' = MMIO_LOWER m;
  ms_upper : MMIO_UPPER m' = MMIO_UPPER m;
  ms_free : ∀ f, frame_free (mm_mem m') f → frame_free (mm_mem m) f;
}.

Lemma mm_step_refl m : mm_step m m.
Proof. by split. Qed.

Lemma mm_step_trans m1 m2 m3 : mm_step m1 m2 → mm_step m2 m3 → mm_step m1 m3.
Proof. intros [A1 A2 A3] [B1 B2 B3]. split; [congruence..|auto]. Qed.

(** Two pages of one window are different pages of the tables. *)
Lemma window_pages_differ l u a b :
  u - l ≤ 2 ^ 48 → l ≤ a → a + 4096 ≤ b → b + 4096 ≤ u → page a ≠ page b.
Proof.
  intros Hs Ha Hab Hb E. unfold page in E.
  pose proof (Z.div_mod a 4096 ltac:(lia)). pose proof (Z.mod_pos_bound a 4096 ltac:(lia)).
  pose proof (Z.div_mod b 4096 ltac:(lia)). pose proof (Z.mod_pos_bound b 4096 ltac:(lia)).
  pose proof (Z.div_mod (a / 4096) (2 ^ 36) ltac:(lia)). pose proof (Z.div_mod (b / 4096) (2 ^ 36) ltac:(lia)).
  rewrite E in *. set (qa := a / 4096 / 2 ^ 36) in *. set (qb := b / 4096 / 2 ^ 36) in *.
  assert (b / 4096 - a / 4096 = 2 ^ 36 * (qb - qa)) by lia. assert (1 ≤ b / 4096 - a / 4096 < 2 ^ 36) by lia. lia.
Qed.

Lemma mmio_flags_ok : flags_ok MMIO_FLAGS.
Proof. by vm_compute. Qed.

Lemma map_mmio_page_ok m i phys :
  mm_ok m → 0 ≤ i → MMIO_CURRENT m + (i + 1) * 4096 ≤ MMIO_UPPER m → 0 ≤ phys → phys + i * 4096 < 2 ^ 64 →
  ∃ r m', map_mmio_page (KERNEL_PAGE_TABLE (mm_mem m)) (MMIO_CURRENT m) phys i m = (r, m') ∧ mm_ok m' ∧ mm_step m m' ∧
    MMIO_CURRENT m' = MMIO_CURRENT m ∧ KERNEL_PAGE_TABLE (mm_mem m') = KERNEL_PAGE_TABLE (mm_mem m) ∧
    (∀ v, page v ≠ page (MMIO_CURRENT m + i * 4096) → m_translate m' v = m_translate m v) ∧
    (r = Ok tt ∧ m_translate m' (MMIO_CURRENT m + i * 4096) = Some (Z.land (phys + i * 4096) PHYS_MASK) ∨
     r = Err MapFailed ∧ ∀ f, ¬ frame_free (mm_mem m') f).
Proof.
  intros [Hl Hu Hsp [lv Hinv]] Hi Hfit Hp Hph. unfold map_mmio_page, mbindM, mlift, mul64, add64.
  rewrite !(chk_ok 64) by lia. cbn [fst snd]. unfold on_mem.
  set (root := KERNEL_PAGE_TABLE (mm_mem m)) in *. set (v := MMIO_CURRENT m + i * 4096).
  pose proof (keeps_map_page root v (phys_addr_new (phys + i * 4096)) MMIO_FLAGS (mm_mem m)) as Hroot.
  destruct (map_page_ok root lv (mm_mem m) v (phys_addr_new (phys + i * 4096)) MMIO_FLAGS Hinv mmio_flags_ok)
    as (r & k & lv' & E & Hinv' & _ & Hfree & Hr).
  change (i * 0x1000) with (i * 4096). fold v. rewrite E in *. cbn [snd] in Hroot. fold root in Hroot.
  assert (mm_ok (set_mem k m)) as Hok by (split; cbn; [done..|]; rewrite Hroot; by exists lv').
  assert (∀ v', m_translate (set_mem k m) v' = translate k root v') as Ht by (intros; unfold m_translate; cbn; by rewrite Hroot).
  destruct r as [[]|]; eexists _, _; (split; [done|]); (split; [done|]); (split; [by split|]); (split; [done|]); (split; [done|]).
  - split; [intros v' Hv'; rewrite Ht, Hr; by rewrite decide_False|]. left. split; [done|].
    rewrite Ht, Hr, decide_True by done. unfold phys_addr_new. by rewrite mask_idem.
  - destruct Hr as [Hno Htr]. split; [intros v' _; by rewrite Ht, Htr|]. by right.
Qed.

Lemma map_mmio_loop n i m phys :
  mm_ok m → 0 ≤ i → 0 ≤ phys → MMIO_CURRENT m + (i + Z.of_nat n) * 4096 ≤ MMIO_UPPER m →
  phys + (i + Z.of_nat n) * 4096 < 2 ^ 64 →
  ∃ r m', mfor (seqZ i (Z.of_nat n)) (map_mmio_page (KERNEL_PAGE_TABLE (mm_mem m)) (MMIO_CURRENT m) phys) m = (r, m') ∧
    mm_ok m' ∧ mm_step m m' ∧ MMIO_CURRENT m' = MMIO_CURRENT m ∧
    (∀ v, (∀ j, i ≤ j < i + Z.of_nat n → page v ≠ page (MMIO_CURRENT m + j * 4096)) → m_translate m' v = m_translate m v) ∧
    (r = Ok tt ∧ (∀ j, i ≤ j < i + Z.of_nat n →
        m_translate m' (MMIO_CURRENT m + j * 4096) = Some (Z.land (phys + j * 4096) PHYS_MASK)) ∨
     r = Err MapFailed ∧ ∀ f, ¬ frame_free (mm_mem m') f).
Proof.
  revert i m. induction n as [|n IH]; intros i m Hok Hi Hp Hfit Hph.
  { exists (Ok tt), m. split; [done|]. split; [done|]. split; [apply mm_step_refl|]. split; [done|]. split; [done|]. left. split; [done|lia]. }
  rewrite seqZ_cons by lia. replace (Z.pred (Z.of_nat (S n))) with (Z.of_nat n) by lia. cbn [mfor].
  destruct (map_mmio_page_ok m i phys Hok Hi ltac:(lia) Hp ltac:(lia)) as (r & m1 & E & Hok1 & Hst & Hc & Hroot & Hother & Hr).
  unfold mbindM. rewrite E. destruct Hr as [[-> Hv]|[-> Hno]].
  2: { eexists _, m1. split; [done|]. split; [done|]. split; [done|]. split; [done|]. split; [|by right].
       intros v Hv. apply Hother, Hv. lia. }
  destruct (IH (Z.succ i) m1 Hok1) as (r & m2 & E2 & Hok2 & Hst2 & Hc2 & Hother2 & Hr2); [lia|done|..].
  { rewrite Hc, (ms_upper _ _ Hst). lia. } { lia. }
  rewrite Hc, Hroot in *. exists r, m2. split; [exact E2|]. split; [done|]. split; [by eapply mm_step_trans|]. split; [done|].
  split; [intros v Hv'; rewrite Hother2 by (intros; apply Hv'; lia); apply Hother, Hv'; lia|].
  destruct Hr2 as [[-> Hv2]|[-> Hno]]; [left|by right]. split; [done|]. intros j Hj.
  destruct (decide (j = i)) as [->|Hne]; [|apply Hv2; lia]. rewrite Hother2; [done|]. intros j' Hj'.
  destruct Hok as [Hl Hu Hsp _]. apply (window_pages_differ (MMIO_LOWER m) (MMIO_UPPER m)); lia.
Qed.

(** A request whose sums stay below [2^64]. *)
Definition request_ok (upper : Z) (q : Z * Z) : Prop :=
  0 ≤ q.1 ∧ 0 ≤ q.2 ∧ upper + q.2 + 0xFFF < 2 ^ 64 ∧ q.1 + q.2 + 0xFFF < 2 ^ 64.

(** What the answer [r] to the request [q] means in the state [m]. *)
Definition granted (m : Mmio) (q : Z * Z) (r : res MmioError Z) : Prop :=
  match r with
  | Ok v => MMIO_LOWER m ≤ v ∧ v + mmio_pages q.2 * 4096 ≤ MMIO_CURRENT m ∧
      ∀ j, 0 ≤ j < mmio_pages q.2 → m_translate m (v + j * 4096) = Some (Z.land (q.1 + j * 4096) PHYS_MASK)
  | Err RegionExhausted => MMIO_UPPER m < MMIO_CURRENT m + mmio_pages q.2 * 4096
  | Err MapFailed => ∀ f, ¬ frame_free (mm_mem m) f
  | Panic | Hang => False
  end.

(** A request changes translations only in the free part of the window. *)
Definition outside (m : Mmio) (v : Z) : Prop :=
  ∀ a, MMIO_CURRENT m ≤ a → a + 4096 ≤ MMIO_UPPER m → page v ≠ page a.

Lemma map_mmio_ok m phys size :
  mm_ok m → request_ok (MMIO_UPPER m) (phys, size) →
  ∃ r m', map_mmio phys size m = (r, m') ∧ mm_ok m' ∧ mm_step m m' ∧ MMIO_CURRENT m ≤ MMIO_CURRENT m' ∧
    (∀ v, outside m v → m_translate m' v = m_translate m v) ∧ granted m' (phys, size) r ∧
    (∀ v, r = Ok v → v = MMIO_CURRENT m).
Proof.
  intros Hok (Hp & Hs & Hus & Hps). cbn [fst snd] in *. pose proof Hok as [Hl Hu Hsp Htab].
  assert (0 ≤ mmio_pages size ∧ mmio_pages size * 4096 ≤ size + 0xFFF) as [Hn Hn4] by (unfold mmio_pages; dlia).
  unfold map_mmio, mbindM, mlift, mget, mul64, add64. rewrite (chk_ok 64 (size + _)) by lia. fold (mmio_pages size).
  rewrite (chk_ok 64 (mmio_pages size * 0x1000)), (chk_ok 64 (MMIO_CURRENT m + _)) by lia.
  case_bool_decide as Hfull.
  { exists (Err RegionExhausted), m. split; [done|]. split; [done|]. split; [apply mm_step_refl|]. by split_and!. }
  destruct (map_mmio_loop (Z.to_nat (mmio_pages size)) 0 m phys Hok ltac:(lia) Hp) as (r & m1 & E & Hok1 & Hst & Hc & Hother & Hr); [lia..|].
  rewrite Z2Nat.id, Z.add_0_l in * by done. rewrite E.
  assert (∀ v, outside m v → m_translate m1 v = m_translate m v) as Hout by (intros v Hv; apply Hother; intros j Hj; apply Hv; lia).
  destruct Hr as [[-> Hv]|[-> Hno]].
  2: { exists (Err MapFailed), m1. split; [done|]. split; [done|]. split; [done|]. split; [lia|]. by split_and!. }
  rewrite chk_ok by lia. unfold mmod, mok. eexists _, _. split; [done|].
  pose proof (ms_lower _ _ Hst). pose proof (ms_upper _ _ Hst).
  split; [split; cbn; [lia..|apply Hok1]|]. split; [split; cbn; [done..|apply Hst]|]. split; [cbn; lia|].
  split; [exact Hout|]. split; [|by intros v [= <-]]. cbn [granted fst snd MMIO_LOWER MMIO_CURRENT mmio_set_current].
  split; [lia|]. split; [lia|]. exact Hv.
Qed.

(** A granted request stays granted under later ones. *)
Lemma granted_kept m m' q r :
  mm_ok m → mm_step m m' → MMIO_CURRENT m ≤ MMIO_CURRENT m' →
  (∀ v, outside m v → m_translate m' v = m_translate m v) → granted m q r → granted m' q r.
Proof.
  intros [Hl Hu Hsp _] [Hlow Hup Hfree] Hc Hout. destruct r as [v|[]| |]; cbn [granted]; [|rewrite Hup; lia|intros Hno f ?%Hfree; by eapply Hno|done..].
  intros (Hv & Hend & Htr). rewrite Hlow. split; [done|]. split; [lia|]. intros j Hj. rewrite Hout; [by apply Htr|].
  intros a Ha Hau. apply (window_pages_differ (MMIO_LOWER m) (MMIO_UPPER m)); lia.
Qed.

(** Requests in turn, errors included. *)
Fixpoint mmio_run (qs : list (Z * Z)) (m : Mmio) : list (res MmioError Z) * Mmio :=
  match qs with
  | [] => ([], m)
  | q :: qs => let '(r, m1) := map_mmio q.1 q.2 m in let '(rs, m2) := mmio_run qs m1 in (r :: rs, m2)
  end.

Lemma mmio_run_ok qs m :
  mm_ok m → Forall (request_ok (MMIO_UPPER m)) qs →
  let rs := (mmio_run qs m).1 in let m' := (mmio_run qs m).2 in
  mm_ok m' ∧ mm_step m m' ∧ MMIO_CURRENT m ≤ MMIO_CURRENT m' ∧ (∀ v, outside m v → m_translate m' v = m_translate m v) ∧
  Forall2 (granted m') qs rs ∧ Forall (λ r, ∀ v, r = Ok v → MMIO_CURRENT m ≤ v) rs ∧
  ∀ i j q v v', (i < j)%nat → qs !! i = Some q → rs !! i = Some (Ok v) → rs !! j = Some (Ok v') →
    v + mmio_pages q.2 * 4096 ≤ v'.
Proof.
  revert m. induction qs as [|[p sz] qs IH]; intros m Hok Hqs; cbn [mmio_run fst snd].
  { split; [done|]. split; [apply mm_step_refl|]. split; [done|]. by split_and!. }
  apply Forall_cons in Hqs as [Hq Hqs].
  destruct (map_mmio_ok m p sz Hok Hq) as (r & m1 & -> & Hok1 & Hst & Hc & Hout & Hg & Hrv).
  specialize (IH m1 Hok1). rewrite (ms_upper _ _ Hst) in IH. specialize (IH Hqs).
  destruct (mmio_run qs m1) as [rs m2]. cbn [fst snd] in *. destruct IH as (Hok2 & Hst2 & Hc2 & Hout2 & Hgs & Hge & Hdis).
  split; [done|]. split; [by eapply mm_step_trans|]. split; [lia|]. split.
  { intros v Hv. rewrite Hout2; [by apply Hout|]. intros a Ha. rewrite (ms_upper _ _ Hst). apply Hv. lia. }
  split; [constructor; [by apply (granted_kept m1)|done]|]. split.
  { constructor; [intros v E; rewrite (Hrv v E); lia|]. eapply Forall_impl; [exact Hge|]. intros r' Hr' v E. specialize (Hr' v E). lia. }
  intros [|i] [|j] q v v' Hij Eq Ei Ej; [lia| |lia|by apply (Hdis i j q); [lia|..]].
  cbn in *. injection Eq as <-. injection Ei as ->. rewrite Forall_lookup in Hge. specialize (Hge j _ Ej v' eq_refl).
  destruct Hg as (_ & Hend & _). lia.
Qed.

(** ** Property *)

(** C25: device memory stays where it was mapped. Of any sequence of requests, each answered with an address
    is mapped there to the device's pages at the end of the sequence, the parts given out are disjoint and
    ordered, translations outside the free part of the window are untouched, and a request fails only
    when the window has no room for it or no frame is left for a table. *)
Theorem mmio_regions_kept qs m :
  mm_ok m → Forall (request_ok (MMIO_UPPER m)) qs →
  let rs := (mmio_run qs m).1 in let m' := (mmio_run qs m).2 in
  mm_ok m' ∧ Forall2 (granted m') qs rs ∧
  (∀ i j q v v', (i < j)%nat → qs !! i = Some q → rs !! i = Some (Ok v) → rs !! j = Some (Ok v') →
    v + mmio_pages q.2 * 4096 ≤ v') ∧
  ∀ v, outside m v → m_translate m' v = m_translate m v.
Proof. intros Hok Hqs. destruct (mmio_run_ok qs m Hok Hqs) as (? & _ & _ & ? & ? & _ & ?). by split_and!. Qed.

(** A window of four pages over the tables of [demo_tables]. *)
Definition demo_mmio : Mmio := mkMmio demo_tables 0xFFFFF00000000000 0xFFFFF00000004000 0xFFFFF00000000000.

Lemma demo_mmio_ok : mm_ok demo_mmio.
Proof. split; [by vm_compute..|]. destruct demo_tables_ok as [Hinv _]. exact Hinv. Qed.

Lemma mmio_regions_kept_witness :
  (mmio_run [(0xFEBF0000, 0x1800); (0xFEE00000, 0x400); (0xFEC00000, 0x2000)] demo_mmio).1
    = [Ok 0xFFFFF00000000000; Ok 0xFFFFF00000002000; Err RegionExhausted] ∧
  m_translate (mmio_run [(0xFEBF0000, 0x1800); (0xFEE00000, 0x400); (0xFEC00000, 0x2000)] demo_mmio).2 0xFFFFF00000001000
    = Some 0xFEBF1000.
Proof.
  set (qs := [(0xFEBF0000, 0x1800); (0xFEE00000, 0x400); (0xFEC00000, 0x2000)]).
  assert (Forall (request_ok (MMIO_UPPER demo_mmio)) qs) as Hqs by (unfold qs, request_ok; forall_list; by vm_compute).
  destruct (mmio_regions_kept qs demo_mmio demo_mmio_ok Hqs) as (_ & Hg & _ & _). clear Hqs.
  assert ((mmio_run qs demo_mmio).1 = [Ok 0xFFFFF00000000000; Ok 0xFFFFF00000002000; Err RegionExhausted]) as E by (clear; by vm_compute).
  split; [exact E|]. rewrite E in Hg. generalize dependent (mmio_run qs demo_mmio).2. intros m Hg.
  destruct (Forall2_lookup_lr _ _ _ 0%nat (0xFEBF0000, 0x1800) (Ok 0xFFFFF00000000000) Hg eq_refl eq_refl) as (_ & _ & Ht).
  assert (0 ≤ 1 < mmio_pages 0x1800) as H1 by (clear; by vm_compute). specialize (Ht 1 H1).
  change (0xFFFFF00000000000 + 1 * 4096) with 0xFFFFF00000001000 in Ht. rewrite Ht. clear. by vm_compute.
Defined.
