(* ===== verification/BootFrames.v ===== *)
(** * The boot frame allocator ([BootInfoFrameAllocator], [crates/lib_kernel/src/memory/mod.rs])

    A bump allocator over at most 16 regions of the memory map. The address
    type of the [x86_64] crate is a parameter: its constructor, and the frame
    that contains an address. *)

From S2P Require Import Prelude KernelMemory.

(** What the allocator uses of the [x86_64] crate: addresses below 2^52 are
    valid, and an aligned address starts its own frame. *)
Class X86Phys := {
  x86_phys_new : Z → res Empty_set Z;
  x86_phys_add : Z → Z → res Empty_set Z;
  containing_address : Z → Z;
}.

Class X86PhysLaws `{X86Phys} : Prop := {
  phys_new_valid : ∀ a, 0 ≤ a < 2 ^ 52 → x86_phys_new a = Ok a;
  phys_add_valid : ∀ a n, 0 ≤ a → 0 ≤ n → a + n < 2 ^ 52 → x86_phys_add a n = Ok (a + n);
  containing_aligned : ∀ a, 0 ≤ a < 2 ^ 52 → a `mod` 4096 = 0 → containing_address a = a;
}.

Record BootAlloc := mkBoot {
  memory_regions : list (option (Z * Z));
  region_count : Z;
  current_region : Z;
  next_frame : Z;
}.

Section boot.
Context `{X86Phys}.

Abbreviation BA := (M BootAlloc Empty_set).

(** One memory map entry; its type is not looked at. *)
Definition add_region (e : MemEntry) : BA unit :=
  let! b := mget in
  if bool_decide (0 < me_length e ∧ region_count b < 16) then
    let safe_start := if bool_decide (me_base e < 0x100000) then 0x100000 else me_base e in
    let! end_ := mlift (add64 (me_base e) (me_length e)) in
    if bool_decide (safe_start < end_) then
      let! up := mlift (add64 safe_start 4095) in
      let! start_addr := mlift (x86_phys_new (Z.land up (not64 4095))) in
      let! end_addr := mlift (x86_phys_new (Z.land end_ (not64 4095))) in
      if bool_decide (start_addr < end_addr) then
        mput (mkBoot (<[Z.to_nat (region_count b) := Some (start_addr, end_addr)]> (memory_regions b))
                     (region_count b + 1) (current_region b) (next_frame b))
      else mok tt
    else mok tt
  else mok tt.

Definition boot_init (entries : list MemEntry) : res Empty_set BootAlloc :=
  let? zero := x86_phys_new 0 in
  let '(r, b) := mfor entries add_region (mkBoot (replicate 16 None) 0 0 zero) in
  let? _ := r in
  match memory_regions b !! 0%nat with
  | Some (Some (start, _)) =>
      Ok (if bool_decide (0 < region_count b) then mkBoot (memory_regions b) (region_count b) (current_region b) start else b)
  | _ => Ok b
  end.

(** [memory_regions[i]] *)
Definition region (b : BootAlloc) (i : Z) : res Empty_set (option (Z * Z)) :=
  match memory_regions b !! Z.to_nat i with
  | Some r => Ok r
  | None => Panic
  end.

(** Move to the next region. *)
Definition next_region (b : BootAlloc) : res Empty_set BootAlloc :=
  let c := current_region b + 1 in
  if bool_decide (c < region_count b) then
    let? r := region b c in
    match r with
    | Some (start, _) => Ok (mkBoot (memory_regions b) (region_count b) c start)
    | None => Ok (mkBoot (memory_regions b) (region_count b) c (next_frame b))
    end
  else Ok (mkBoot (memory_regions b) (region_count b) c (next_frame b)).

(** The loop of [allocate_frame]; every iteration but the last moves to the next region. *)
Fixpoint boot_loop (n : nat) : BA (option Z) :=
  match n with
  | O => mlift Hang
  | S n =>
      let! b := mget in
      if bool_decide (current_region b < region_count b) then
        let! r := mlift (region b (current_region b)) in
        match r with
        | Some (_, end_) =>
            if bool_decide (next_frame b < end_) then
              let frame := containing_address (next_frame b) in
              let! next := mlift (x86_phys_add (next_frame b) 4096) in
              let! _ := mput (mkBoot (memory_regions b) (region_count b) (current_region b) next) in
              mok (Some frame)
            else let! b' := mlift (next_region b) in let! _ := mput b' in boot_loop n
        | None => let! b' := mlift (next_region b) in let! _ := mput b' in boot_loop n
        end
      else mok None
  end.

Definition boot_allocate_frame : BA (option Z) :=
  let! b := mget in boot_loop (S (Z.to_nat (region_count b - current_region b))).
End boot.

(** ** The frames of a region, and the frames left *)
Definition region_frames (st en : Z) : list Z := (λ k, st + 4096 * k) <$> seqZ 0 ((en - st) / 4096).

Definition region_ok (r : Z * Z) : Prop :=
  0 ≤ r.1 < r.2 ∧ r.2 < 2 ^ 52 ∧ r.1 `mod` 4096 = 0 ∧ r.2 `mod` 4096 = 0.

(** The allocator holds the regions [rs], is at region [i] of them, and the frames [todo] of that region
    and all frames of the later ones are left. *)
Record boot_inv (rs : list (Z * Z)) (b : BootAlloc) : Prop := {
  bi_regions : memory_regions b = (Some <$> rs) ++ replicate (16 - length rs) None;
  bi_length : (length rs ≤ 16)%nat;
  bi_count : region_count b = zlen rs;
  bi_current : 0 ≤ current_region b;
  bi_ok : Forall region_ok rs;
  bi_next : ∀ st en, rs !! Z.to_nat (current_region b) = Some (st, en) →
    st ≤ next_frame b ≤ en ∧ next_frame b `mod` 4096 = 0;
}.

Definition frames_left (rs : list (Z * Z)) (b : BootAlloc) : list Z :=
  match drop (Z.to_nat (current_region b)) rs with
  | [] => []
  | (_, en) :: later => region_frames (next_frame b) en ++ concat ((λ r, region_frames r.1 r.2) <$> later)
  end.

Lemma region_frames_cons st en :
  st `mod` 4096 = 0 → en `mod` 4096 = 0 → st < en → region_frames st en = st :: region_frames (st + 4096) en.
Proof.
  intros Hs He Hlt. unfold region_frames.
  assert ((en - st) / 4096 = 1 + (en - (st + 4096)) / 4096) as -> by (clear -Hs He; dlia).
  assert (0 ≤ (en - (st + 4096)) / 4096) by (clear -Hs He Hlt; dlia).
  rewrite seqZ_app by lia. change (seqZ 0 1) with [0]. rewrite fmap_app. cbn [fmap list_fmap app]. f_equal; [lia|].
  rewrite <-(fmap_add_seqZ 1 0), <-list_fmap_compose. apply list_fmap_ext. intros i x _. cbn. lia.
Qed.

Lemma region_frames_nil st : region_frames st st = [].
Proof. unfold region_frames. by rewrite Z.sub_diag. Qed.

Section boot_spec.
Context `{X86PhysLaws}.

Lemma region_lookup rs b i :
  boot_inv rs b → 0 ≤ i < zlen rs → region b i = Ok (rs !! Z.to_nat i).
Proof.
  intros [Hr Hl Hc _ _ _] Hi. unfold region. rewrite Hr, lookup_app_l by (unfold zlen in Hi; len).
  rewrite list_lookup_fmap. destruct (lookup_lt_is_Some_2 rs (Z.to_nat i)) as [r Er]; [unfold zlen in Hi; lia|].
  by rewrite Er.
Qed.

Lemma boot_loop_ok rs b n :
  boot_inv rs b → (Z.to_nat (zlen rs - current_region b) < n)%nat →
  ∃ b', boot_loop n b = (Ok (head (frames_left rs b)), b') ∧ boot_inv rs b' ∧ frames_left rs b' = tail (frames_left rs b).
Proof.
  revert b. induction n as [|n IH]; intros b Hinv Hn; [lia|]. cbn [boot_loop]. unfold mbindM at 1, mget.
  pose proof Hinv as [Hr Hl Hc Hcur Hok Hnx].
  case_bool_decide as Hlt.
  2: { assert (frames_left rs b = []) as E by (unfold frames_left; by rewrite drop_ge by (unfold zlen in *; lia)).
       exists b. by rewrite E. }
  unfold mbindM at 1, mlift. rewrite (region_lookup rs) by (done || lia).
  destruct (lookup_lt_is_Some_2 rs (Z.to_nat (current_region b))) as [[st en] Er]; [unfold zlen in *; lia|].
  rewrite Er. destruct (Hnx _ _ Er) as [Hb Ha].
  pose proof (Forall_lookup_1 _ _ _ _ Hok Er) as (Hs1 & Hs2 & Hs3 & Hs4). cbn in Hs1, Hs2, Hs3, Hs4.
  assert (frames_left rs b = region_frames (next_frame b) en ++ concat ((λ r, region_frames r.1 r.2) <$> drop (S (Z.to_nat (current_region b))) rs)) as Hleft.
  { unfold frames_left. by rewrite (drop_S _ _ _ Er). }
  case_bool_decide as Hlt2.
  - unfold mbindM at 1. rewrite phys_add_valid by (lia || (clear -Hs4 Ha Hlt2 Hs2; dlia)).
    unfold mbindM, mput, mok. eexists. split; [rewrite Hleft, region_frames_cons, containing_aligned by (done || lia); done|].
    split.
    + split; [done..|]. cbn [current_region next_frame]. intros st' en' E. rewrite Er in E. injection E as <- <-.
      clear -Hs4 Ha Hlt2 Hb. dlia.
    + rewrite Hleft, (region_frames_cons (next_frame b)) by (done || lia). unfold frames_left. cbn [current_region next_frame].
      by rewrite (drop_S _ _ _ Er).
  - assert (next_frame b = en) as En by lia.
    assert (∃ b1, next_region b = Ok b1 ∧ boot_inv rs b1 ∧ current_region b1 = current_region b + 1 ∧ frames_left rs b1 = frames_left rs b)
      as (b1 & E1 & Hinv1 & Hc1 & Hleft1).
    { unfold next_region. case_bool_decide as Hlt3.
      - rewrite (region_lookup rs) by (done || lia).
        destruct (lookup_lt_is_Some_2 rs (Z.to_nat (current_region b + 1))) as [[st2 en2] Er2]; [unfold zlen in *; lia|].
        rewrite Er2. cbn [rbind]. eexists. split; [done|]. pose proof (Forall_lookup_1 _ _ _ _ Hok Er2) as (? & ? & ? & ?).
        split; [|split; [done|]].
        + split; [done..|cbn; lia|done|]. cbn [current_region next_frame]. intros ? ? E. rewrite Er2 in E. injection E as <- <-. cbn in *. lia.
        + rewrite Hleft, En, region_frames_nil. unfold frames_left. cbn [current_region next_frame].
          replace (Z.to_nat (current_region b + 1)) with (S (Z.to_nat (current_region b))) in * by lia.
          by rewrite (drop_S _ _ _ Er2).
      - eexists. split; [done|]. split; [|split; [done|]].
        + split; [done..|cbn; lia|done|]. cbn [current_region next_frame]. intros ? ? E%lookup_lt_Some. unfold zlen in *. lia.
        + rewrite Hleft, En, region_frames_nil. unfold frames_left. cbn [current_region next_frame].
          rewrite !drop_ge by (unfold zlen in *; lia). done. }
    unfold mbindM. rewrite E1. unfold mput.
    destruct (IH b1 Hinv1 ltac:(lia)) as (b' & E & Hb' & Ht). exists b'. by rewrite E, Ht, Hleft1.
Qed.

Lemma boot_allocate_ok rs b :
  boot_inv rs b →
  ∃ b', boot_allocate_frame b = (Ok (head (frames_left rs b)), b') ∧ boot_inv rs b' ∧ frames_left rs b' = tail (frames_left rs b).
Proof.
  intros Hinv. unfold boot_allocate_frame, mbindM, mget. rewrite (bi_count _ _ Hinv). apply boot_loop_ok; [done|lia].
Qed.

(** The regions [init] takes from the memory map. *)
Definition entry_region (e : MemEntry) : option (Z * Z) :=
  let st := (Z.max (me_base e) 0x100000 + 4095) / 4096 * 4096 in
  let en := (me_base e + me_length e) / 4096 * 4096 in
  if bool_decide (st < en) then Some (st, en) else None.

Definition usable_regions (es : list MemEntry) : list (Z * Z) := take 16 (omap entry_region es).

Lemma align_down x : 0 ≤ x < 2 ^ 64 → Z.land x (not64 4095) = x / 4096 * 4096.
Proof.
  intros Hx. change 4096 with (2 ^ 12). rewrite <-Z.shiftl_mul_pow2, <-Z.shiftr_div_pow2 by done.
  apply Z.bits_inj'. intros n Hn. rewrite Z.land_spec. destruct (decide (n < 12)).
  - rewrite Z.shiftl_spec, (Z.testbit_neg_r _ (n - 12)) by lia.
    rewrite testbit_not64 by lia. change 4095 with (Z.ones 12). rewrite Z.testbit_ones_nonneg by lia.
    destruct (n <? 12) eqn:E; [apply andb_false_r|lia].
  - rewrite Z.shiftl_spec, Z.shiftr_spec by lia. rewrite Z.sub_add. destruct (decide (n < 64)).
    + rewrite testbit_not64 by lia. change 4095 with (Z.ones 12). rewrite Z.testbit_ones_nonneg by lia.
      destruct (n <? 12) eqn:E; [lia|apply andb_true_r].
    + pose proof (proj1 (in_u_testbit 64 x ltac:(lia)) Hx) as [_ Hb]. by rewrite Hb by lia.
Qed.

Definition map_entry_ok (e : MemEntry) : Prop := 0 ≤ me_base e ∧ 0 ≤ me_length e ∧ me_base e + me_length e ≤ 2 ^ 51.

Definition boot_state (rs : list (Z * Z)) (next : Z) : BootAlloc :=
  mkBoot ((Some <$> rs) ++ replicate (16 - length rs) None) (zlen rs) 0 next.

Lemma entry_region_ok e r : map_entry_ok e → entry_region e = Some r → region_ok r.
Proof.
  intros He. unfold entry_region. case_bool_decide as Hlt; [|done]. intros [= <-]. unfold region_ok. cbn [fst snd].
  destruct He as (? & ? & ?). split; [|split; [|split; apply Z.mod_mul; done]]; clear -H1 H2 H3 Hlt; dlia.
Qed.

Lemma add_region_ok e rs :
  map_entry_ok e → (length rs ≤ 16)%nat →
  add_region e (boot_state rs 0) = (Ok tt, boot_state (take 16 (rs ++ option_list (entry_region e))) 0).
Proof.
  intros (H0' & H1' & H2') Hl. unfold add_region, mbindM at 1, mget, boot_state. cbn [region_count memory_regions current_region next_frame].
  assert (entry_region e = None → take 16 (rs ++ option_list (entry_region e)) = rs) as Hnone.
  { intros ->. change (option_list None) with (@nil (Z * Z)). rewrite app_nil_r. by apply take_ge. }
  set (st := (Z.max (me_base e) 0x100000 + 4095) / 4096 * 4096) in *.
  set (en := (me_base e + me_length e) / 4096 * 4096) in *.
  assert ((if bool_decide (me_base e < 0x100000) then 0x100000 else me_base e) = Z.max (me_base e) 0x100000) as Emax
    by (case_bool_decide; lia).
  assert (entry_region e = if bool_decide (st < en) then Some (st, en) else None) as Ee by done.
  rewrite Emax. destruct (bool_decide (0 < me_length e ∧ zlen rs < 16)) eqn:Hc; [apply bool_decide_eq_true in Hc|apply bool_decide_eq_false in Hc].
  - unfold mbindM at 1, mlift, add64 at 1. rewrite chk_ok by lia.
    destruct (bool_decide (Z.max (me_base e) 0x100000 < me_base e + me_length e)) eqn:Hlt;
      [apply bool_decide_eq_true in Hlt|apply bool_decide_eq_false in Hlt].
    + unfold mbindM at 1, add64 at 1. rewrite chk_ok by lia. unfold mbindM at 1. rewrite align_down by lia. fold st.
      assert (0 ≤ st < 2 ^ 52 ∧ 0 ≤ en < 2 ^ 52) as [? ?] by (unfold st, en; clear -H0' H1' H2' Hlt; dlia).
      rewrite phys_new_valid by done. unfold mbindM at 1. rewrite align_down by lia. fold en. rewrite phys_new_valid by done.
      destruct (bool_decide (st < en)) eqn:Hse; [|by rewrite Hnone].
      rewrite Ee. change (option_list (Some (st, en))) with [(st, en)]. rewrite take_ge by (unfold zlen in Hc; len). unfold mput. do 2 f_equal; [|rewrite zlen_app; done].
      rewrite fmap_app, <-app_assoc. unfold zlen. rewrite Nat2Z.id. rewrite insert_app_r_alt by len. rewrite length_fmap, Nat.sub_diag.
      f_equal. rewrite length_app. cbn [length]. replace (16 - length rs)%nat with (S (16 - (length rs + 1))) by (unfold zlen in Hc; lia). done.
    + rewrite Hnone; [done|]. rewrite Ee, bool_decide_eq_false_2; [done|]. unfold st, en. clear -Hlt. dlia.
  - destruct (decide (me_length e = 0)) as [E0|].
    + rewrite Hnone; [done|]. rewrite Ee, bool_decide_eq_false_2; [done|]. unfold st, en. rewrite E0. clear. dlia.
    + unfold zlen in Hc. rewrite take_app_length' by lia. done.
Qed.

Lemma add_regions_ok es rs :
  Forall map_entry_ok es → (length rs ≤ 16)%nat →
  mfor es add_region (boot_state rs 0) = (Ok tt, boot_state (take 16 (rs ++ omap entry_region es)) 0).
Proof.
  revert rs. induction es as [|e es IH]; intros rs Hes Hl.
  { cbn [mfor omap list_omap]. rewrite app_nil_r, take_ge by done. done. }
  apply Forall_cons in Hes as [He Hes]. cbn [mfor]. unfold mbindM. rewrite add_region_ok by done.
  rewrite IH by (done || len). rewrite take_app_take. cbn [omap list_omap].
  destruct (entry_region e) as [r|]; [by rewrite <-app_assoc|].
  change (option_list None) with (@nil (Z * Z)). by rewrite app_nil_r.
Qed.

Lemma boot_init_ok es :
  Forall map_entry_ok es →
  ∃ b, boot_init es = Ok b ∧ boot_inv (usable_regions es) b ∧
    frames_left (usable_regions es) b = concat ((λ r, region_frames r.1 r.2) <$> usable_regions es).
Proof.
  intros Hes. unfold boot_init. rewrite phys_new_valid by done. cbn [rbind].
  pose proof (add_regions_ok es [] Hes ltac:(cbn; lia)) as E.
  change (boot_state [] 0) with (mkBoot (replicate 16 None) 0 0 0) in E. rewrite E. cbn [rbind app]. fold (usable_regions es).
  set (rs := usable_regions es).
  assert (Forall region_ok rs) as Hok.
  { apply Forall_take, Forall_forall. intros r (e & Hin & Er)%list_elem_of_omap. rewrite Forall_forall in Hes.
    by apply (entry_region_ok e); [apply Hes|]. }
  assert (length rs ≤ 16)%nat as Hl by (unfold rs, usable_regions; len).
  destruct rs as [|[st en] rs'] eqn:Ers.
  - cbn [boot_state memory_regions]. eexists. split; [done|]. split; [|done]. by split.
  - cbn [boot_state memory_regions fmap list_fmap app lookup list_lookup]. rewrite bool_decide_eq_true_2 by done.
    eexists. split; [done|]. split; [|done]. split; [done|done|done|done|done|].
    intros st' en' [= <- <-]. cbn [next_frame]. apply Forall_cons in Hok as [(? & ? & ? & ?) _]. cbn in *. lia.
Qed.

(** [n] allocations in a row. *)
Fixpoint boot_allocations (n : nat) (b : BootAlloc) : list (res Empty_set (option Z)) :=
  match n with
  | O => []
  | S n => let '(r, b') := boot_allocate_frame b in r :: boot_allocations n b'
  end.

Lemma boot_allocations_ok rs n b i :
  boot_inv rs b → (i < n)%nat → boot_allocations n b !! i = Some (Ok (frames_left rs b !! i)).
Proof.
  revert b i. induction n as [|n IH]; intros b i Hinv Hi; [lia|]. cbn [boot_allocations].
  destruct (boot_allocate_ok rs b Hinv) as (b' & -> & Hinv' & Ht). destruct i as [|i]; cbn [lookup list_lookup].
  - by destruct (frames_left rs b).
  - rewrite IH by (done || lia). rewrite Ht. by destruct (frames_left rs b).
Qed.
End boot_spec.

(** ** Properties *)

(** The boot allocator hands out the frames of the first sixteen non-empty regions of the memory map
    above 1 MiB, whatever the type of the region, one after the other, each once, and nothing after the last. *)
Theorem boot_allocator_exact `{X86PhysLaws} es n i :
  Forall map_entry_ok es → (i < n)%nat →
  ∃ b, boot_init es = Ok b ∧
    boot_allocations n b !! i = Some (Ok (concat ((λ r, region_frames r.1 r.2) <$> usable_regions es) !! i)).
Proof.
  intros Hes Hi. destruct (boot_init_ok es Hes) as (b & E & Hinv & Hleft). exists b. split; [done|].
  rewrite <-Hleft. by apply boot_allocations_ok.
Qed.

(** Addresses as the crate documents them: at most 52 bits, frames of 4096 bytes. *)
#[export] Instance x86_phys_52 : X86Phys := {|
  x86_phys_new := λ a, if bool_decide (0 ≤ a < 2 ^ 52) then Ok a else Panic;
  x86_phys_add := λ a n, if bool_decide (0 ≤ a + n < 2 ^ 52) then Ok (a + n) else Panic;
  containing_address := λ a, a - a `mod` 4096;
|}.

#[export] Instance x86_phys_52_laws : X86PhysLaws.
Proof.
  split; cbn [x86_phys_new x86_phys_add containing_address x86_phys_52].
  - intros a Ha. by rewrite bool_decide_eq_true_2.
  - intros a n ? ? ?. by rewrite bool_decide_eq_true_2 by lia.
  - intros a _ ->. lia.
Qed.

Lemma boot_allocator_exact_witness :
  ∃ b, boot_init [mkEntry 0 0x102000 false; mkEntry 0x200000 0x3000 true] = Ok b ∧
    boot_allocations 8 b !! 2%nat = Some (Ok (Some 0x200000)).
Proof.
  destruct (boot_allocator_exact [mkEntry 0 0x102000 false; mkEntry 0x200000 0x3000 true] 8 2) as (b & E & Ha).
  - unfold map_entry_ok. forall_list; cbn; lia.
  - lia.
  - exists b. split; [exact E|]. rewrite Ha. by vm_compute.
Defined.
