(* ===== verification/Process.v ===== *)
(** * Processes ([crates/lib_kernel/src/scheduler/process.rs], [switch.rs], [time.rs], identifiers and
      rights of [api/mod.rs])

    A process is a record; its locks and atomics are taken and released inside
    one accessor each, so every accessor is one step on the record. Atomic
    counters wrap at their width. *)

From stdpp Require Import strings pretty.
From S2P Require Import Prelude.

(** ** Rights and capabilities *)
Definition READ : Z := Z.shiftl 1 0.
Definition WRITE : Z := Z.shiftl 1 1.
Definition EXECUTE : Z := Z.shiftl 1 2.
Definition DELETE : Z := Z.shiftl 1 3.
Definition SHARE : Z := Z.shiftl 1 4.
Definition ALL_RIGHTS : Z := U64_MAX.

Definition rights_has (rights right : Z) : bool := negb (Z.land rights right =? 0).
Definition rights_with (rights right : Z) : Z := Z.lor rights right.
Definition rights_without (rights right : Z) : Z := Z.land rights (Z.lxor U64_MAX right).

Record Capability := mkCap { cap_handle : Z; cap_rights : Z; cap_owner : Z }.

(** ** Contexts *)
Record ProcessContext := mkCtx {
  rax : Z; rbx : Z; rcx : Z; rdx : Z; rsi : Z; rdi : Z; rbp : Z; rsp : Z;
  r8 : Z; r9 : Z; r10 : Z; r11 : Z; r12 : Z; r13 : Z; r14 : Z; r15 : Z;
  rip : Z; rflags : Z; cr3 : Z;
}.

Definition process_context_new (entry_point stack_pointer page_table : Z) : ProcessContext :=
  mkCtx 0 0 0 0 0 0 stack_pointer stack_pointer 0 0 0 0 0 0 0 0 entry_point 0x200 page_table.

(** *** The switch, instruction by instruction *)
Inductive Reg : Type :=
  | RAX | RBX | RCX | RDX | RSI | RDI | RBP | RSP | R8 | R9 | R10 | R11 | R12 | R13 | R14 | R15 | RFLAGS | CR3.
#[export] Instance reg_eq_dec : EqDecision Reg.
Proof. solve_decision. Defined.

(** [Save off r] is [mov [rdi + off], r], [Restore r off] is [mov r, [rsi + off]], [LeaResume r] loads the
    address of the label behind the jump. *)
Inductive Instr : Type :=
  | Save (off : Z) (r : Reg)
  | Restore (r : Reg) (off : Z)
  | Mov (dst src : Reg)
  | LeaResume (r : Reg)
  | Push (r : Reg)
  | Pop (r : Reg)
  | Jmp (r : Reg).

(** Registers, the words of the old context, the words pushed, and the target of the jump. *)
Record Cpu := mkCpu {
  c_regs : Reg → Z;
  c_old : Z → Z;
  c_stack : list Z;
  c_jump : option Z;
}.

Definition set_reg (r : Reg) (v : Z) (regs : Reg → Z) : Reg → Z := λ r', if decide (r' = r) then v else regs r'.

Lemma set_reg_eq r v regs : set_reg r v regs r = v.
Proof. unfold set_reg. by rewrite decide_True. Qed.

Lemma set_reg_ne r r' v regs : r' ≠ r → set_reg r v regs r' = regs r'.
Proof. intros. unfold set_reg. by rewrite decide_False. Qed.

(** [new] are the words of the new context; a push or pop moves the stack pointer by one word. *)
Definition exec_instr (resume : Z) (new : Z → Z) (c : Cpu) (i : Instr) : Cpu :=
  match i with
  | Save off r => mkCpu (c_regs c) (λ o, if decide (o = off) then c_regs c r else c_old c o) (c_stack c) (c_jump c)
  | Restore r off => mkCpu (set_reg r (new off) (c_regs c)) (c_old c) (c_stack c) (c_jump c)
  | Mov dst src => mkCpu (set_reg dst (c_regs c src) (c_regs c)) (c_old c) (c_stack c) (c_jump c)
  | LeaResume r => mkCpu (set_reg r resume (c_regs c)) (c_old c) (c_stack c) (c_jump c)
  | Push r => mkCpu (set_reg RSP (wrap64 (c_regs c RSP - 8)) (c_regs c)) (c_old c) (c_regs c r :: c_stack c) (c_jump c)
  | Pop r => mkCpu (set_reg RSP (wrap64 (c_regs c RSP + 8)) (set_reg r (default 0 (head (c_stack c))) (c_regs c)))
               (c_old c) (tail (c_stack c)) (c_jump c)
  | Jmp r => mkCpu (c_regs c) (c_old c) (c_stack c) (Some (c_regs c r))
  end.

Definition context_switch : list Instr := [
  Save 0x00 RAX; Save 0x08 RBX; Save 0x10 RCX; Save 0x18 RDX; Save 0x20 RSI; Save 0x28 RDI; Save 0x30 RBP; Save 0x38 RSP;
  Save 0x40 R8; Save 0x48 R9; Save 0x50 R10; Save 0x58 R11; Save 0x60 R12; Save 0x68 R13; Save 0x70 R14; Save 0x78 R15;
  LeaResume RAX; Save 0x80 RAX;
  Push RFLAGS; Pop RAX; Save 0x88 RAX;
  Mov RAX CR3; Save 0x90 RAX;
  Restore RAX 0x90; Mov CR3 RAX;
  Restore RAX 0x00; Restore RBX 0x08; Restore RCX 0x10; Restore RDX 0x18; Restore RBP 0x30; Restore RSP 0x38;
  Restore R8 0x40; Restore R9 0x48; Restore R10 0x50; Restore R11 0x58; Restore R12 0x60; Restore R13 0x68;
  Restore R14 0x70; Restore R15 0x78;
  Restore R12 0x88; Push R12; Pop RFLAGS;
  Restore R12 0x80;
  Restore RDI 0x28; Restore R13 0x20; Mov RSI R13;
  Jmp R12].

Definition exec (resume : Z) (new : Z → Z) (prog : list Instr) (c : Cpu) : Cpu := foldl (exec_instr resume new) c prog.

(** The words of a context, as the [repr(C)] struct lays them out. *)
Definition context_words (x : ProcessContext) (off : Z) : Z :=
  match off with
  | 0x00 => rax x | 0x08 => rbx x | 0x10 => rcx x | 0x18 => rdx x
  | 0x20 => rsi x | 0x28 => rdi x | 0x30 => rbp x | 0x38 => rsp x
  | 0x40 => r8 x | 0x48 => r9 x | 0x50 => r10 x | 0x58 => r11 x
  | 0x60 => r12 x | 0x68 => r13 x | 0x70 => r14 x | 0x78 => r15 x
  | 0x80 => rip x | 0x88 => rflags x | 0x90 => cr3 x
  | _ => 0
  end.

Record InterruptFrame := mkIFrame {
  if_instruction_pointer : Z; if_code_segment : Z; if_cpu_flags : Z; if_stack_pointer : Z; if_stack_segment : Z;
}.

Definition save_context_on_interrupt (context : ProcessContext) (f : InterruptFrame) : ProcessContext :=
  mkCtx (rax context) (rbx context) (rcx context) (rdx context) (rsi context) (rdi context) (rbp context)
    (if_stack_pointer f) (r8 context) (r9 context) (r10 context) (r11 context) (r12 context) (r13 context)
    (r14 context) (r15 context) (if_instruction_pointer f) (if_cpu_flags f) (cr3 context).

(** ** Processes *)
Inductive ProcessState : Type := Ready | Running | Blocked | Zombie.
#[export] Instance process_state_eq_dec : EqDecision ProcessState.
Proof. solve_decision. Defined.

Inductive BlockReason : Type := IoWait | MutexWait | SemaphoreWait | Sleep | PageFault | IpcWait.

Inductive FileResource : Type := Console | Framebuffer | Socket | SharedMemory.

Record FileDescriptor := mkFd { fd_num : Z; fd_flags : Z; fd_offset : Z; fd_resource : FileResource }.

Record Process := mkProcess {
  p_id : Z;
  p_context : ProcessContext;
  p_state : ProcessState;
  p_priority : Z;
  p_assigned_cpu : Z;
  p_creation_time : Z;
  p_total_runtime : Z;
  p_last_scheduled : Z;
  p_page_table : Z;
  p_stack_base : Z;
  p_heap_base : Z;
  p_name : list Z;
  p_parent_pid : option Z;
  p_exit_code : option Z;
  p_block_reason : option BlockReason;
  p_capability_table : list Capability;
  p_file_descriptors : list (option FileDescriptor);
  p_context_switches : Z;
  p_page_faults : Z;
  p_syscalls : Z;
}.

(** The bytes of an ASCII string. *)
Fixpoint string_bytes (s : string) : list Z :=
  match s with
  | EmptyString => []
  | String c s => Z.of_N (Ascii.N_of_ascii c) :: string_bytes s
  end.

(** [format!("process_{}", id)], cut to 31 bytes, in a zeroed array of 32. *)
Definition process_name (id : Z) : list Z :=
  let name_bytes := string_bytes ("process_" +:+ pretty id) in
  let copy := take 31 name_bytes in
  put 0 copy (zeros 32).

Definition STACK_BASE : Z := 0x7FFFFF000000.
Definition HEAP_BASE : Z := 0x000010000000.

(** [Process::new]; [id] and [now] are the next process id and the tick, the page table is a constant. *)
Definition process_new (id now entry_point priority : Z) : Process :=
  mkProcess id (process_context_new entry_point STACK_BASE 0x1000) Ready priority 0 now 0 0 0x1000 STACK_BASE HEAP_BASE
    (process_name id) None None None [] [] 0 0 0.

Definition set_state (st : ProcessState) (p : Process) : Process :=
  mkProcess (p_id p) (p_context p) st (p_priority p) (p_assigned_cpu p) (p_creation_time p) (p_total_runtime p)
    (p_last_scheduled p) (p_page_table p) (p_stack_base p) (p_heap_base p) (p_name p) (p_parent_pid p) (p_exit_code p)
    (p_block_reason p) (p_capability_table p) (p_file_descriptors p) (p_context_switches p) (p_page_faults p) (p_syscalls p).

Definition set_priority (priority : Z) (p : Process) : Process :=
  mkProcess (p_id p) (p_context p) (p_state p) priority (p_assigned_cpu p) (p_creation_time p) (p_total_runtime p)
    (p_last_scheduled p) (p_page_table p) (p_stack_base p) (p_heap_base p) (p_name p) (p_parent_pid p) (p_exit_code p)
    (p_block_reason p) (p_capability_table p) (p_file_descriptors p) (p_context_switches p) (p_page_faults p) (p_syscalls p).

Definition set_assigned_cpu (cpu : Z) (p : Process) : Process :=
  mkProcess (p_id p) (p_context p) (p_state p) (p_priority p) cpu (p_creation_time p) (p_total_runtime p)
    (p_last_scheduled p) (p_page_table p) (p_stack_base p) (p_heap_base p) (p_name p) (p_parent_pid p) (p_exit_code p)
    (p_block_reason p) (p_capability_table p) (p_file_descriptors p) (p_context_switches p) (p_page_faults p) (p_syscalls p).

Definition set_block_reason (reason : option BlockReason) (p : Process) : Process :=
  mkProcess (p_id p) (p_context p) (p_state p) (p_priority p) (p_assigned_cpu p) (p_creation_time p) (p_total_runtime p)
    (p_last_scheduled p) (p_page_table p) (p_stack_base p) (p_heap_base p) (p_name p) (p_parent_pid p) (p_exit_code p)
    reason (p_capability_table p) (p_file_descriptors p) (p_context_switches p) (p_page_faults p) (p_syscalls p).

Definition set_exit_code (code : option Z) (p : Process) : Process :=
  mkProcess (p_id p) (p_context p) (p_state p) (p_priority p) (p_assigned_cpu p) (p_creation_time p) (p_total_runtime p)
    (p_last_scheduled p) (p_page_table p) (p_stack_base p) (p_heap_base p) (p_name p) (p_parent_pid p) code
    (p_block_reason p) (p_capability_table p) (p_file_descriptors p) (p_context_switches p) (p_page_faults p) (p_syscalls p).

(** [increment_context_switches], [increment_page_faults], [increment_syscalls] *)
Definition set_counters (switches faults syscalls : Z) (p : Process) : Process :=
  mkProcess (p_id p) (p_context p) (p_state p) (p_priority p) (p_assigned_cpu p) (p_creation_time p) (p_total_runtime p)
    (p_last_scheduled p) (p_page_table p) (p_stack_base p) (p_heap_base p) (p_name p) (p_parent_pid p) (p_exit_code p)
    (p_block_reason p) (p_capability_table p) (p_file_descriptors p) switches faults syscalls.
Definition increment_context_switches (p : Process) : Process :=
  set_counters (wrap64 (p_context_switches p + 1)) (p_page_faults p) (p_syscalls p) p.
Definition increment_page_faults (p : Process) : Process :=
  set_counters (p_context_switches p) (wrap64 (p_page_faults p + 1)) (p_syscalls p) p.
Definition increment_syscalls (p : Process) : Process :=
  set_counters (p_context_switches p) (p_page_faults p) (wrap64 (p_syscalls p + 1)) p.

Definition update_runtime (ticks : Z) (p : Process) : Process :=
  mkProcess (p_id p) (p_context p) (p_state p) (p_priority p) (p_assigned_cpu p) (p_creation_time p)
    (wrap64 (p_total_runtime p + ticks)) ticks (p_page_table p) (p_stack_base p) (p_heap_base p) (p_name p) (p_parent_pid p)
    (p_exit_code p) (p_block_reason p) (p_capability_table p) (p_file_descriptors p) (p_context_switches p)
    (p_page_faults p) (p_syscalls p).

Definition set_tables (caps : list Capability) (fds : list (option FileDescriptor)) (p : Process) : Process :=
  mkProcess (p_id p) (p_context p) (p_state p) (p_priority p) (p_assigned_cpu p) (p_creation_time p) (p_total_runtime p)
    (p_last_scheduled p) (p_page_table p) (p_stack_base p) (p_heap_base p) (p_name p) (p_parent_pid p) (p_exit_code p)
    (p_block_reason p) caps fds (p_context_switches p) (p_page_faults p) (p_syscalls p).

Definition add_capability (c : Capability) (p : Process) : Process :=
  set_tables (p_capability_table p ++ [c]) (p_file_descriptors p) p.

Definition has_capability (handle rights : Z) (p : Process) : bool :=
  existsb (λ c, bool_decide (cap_handle c = handle) && rights_has (cap_rights c) rights) (p_capability_table p).

(** The new descriptor's number, and the process with it. *)
Definition allocate_fd (resource : FileResource) (p : Process) : Z * Process :=
  let n := as_u32 (zlen (p_file_descriptors p)) in
  (n, set_tables (p_capability_table p) (p_file_descriptors p ++ [Some (mkFd n 0 0 resource)]) p).

Definition get_fd (fd : Z) (p : Process) : option FileDescriptor := mjoin (p_file_descriptors p !! Z.to_nat fd).

Definition close_fd (fd : Z) (p : Process) : Process :=
  set_tables (p_capability_table p) (<[Z.to_nat fd := None]> (p_file_descriptors p)) p.

(** ** Time *)
Definition increment_tick (ticks : Z) : Z := wrap64 (ticks + 1).
Definition ticks_to_ms (ticks : Z) : Z := ticks.
Definition ms_to_ticks (ms : Z) : Z := ms.

(** ** Descriptors *)
Inductive FdOp : Type := FdOpen (r : FileResource) | FdClose (fd : Z) | FdGet (fd : Z).

Definition fd_op (o : FdOp) (p : Process) : option FileDescriptor * Process :=
  match o with
  | FdOpen r => let '(n, p') := allocate_fd r p in (get_fd n p', p')
  | FdClose fd => (None, close_fd fd p)
  | FdGet fd => (get_fd fd p, p)
  end.

Fixpoint fd_run (ops : list FdOp) (p : Process) : list (option FileDescriptor) * Process :=
  match ops with
  | [] => ([], p)
  | o :: ops => let '(r, p1) := fd_op o p in let '(rs, p2) := fd_run ops p1 in (r :: rs, p2)
  end.

(** What the descriptor table promises: a map of open descriptors and the next number, never reused. *)
Definition fd_spec_op (o : FdOp) (s : gmap Z FileDescriptor * Z) : option FileDescriptor * (gmap Z FileDescriptor * Z) :=
  let '(m, next) := s in
  match o with
  | FdOpen r => let d := mkFd next 0 0 r in (Some d, (<[next := d]> m, next + 1))
  | FdClose fd => (None, (delete fd m, next))
  | FdGet fd => (m !! fd, s)
  end.

Fixpoint fd_spec_run (ops : list FdOp) (s : gmap Z FileDescriptor * Z) :
    list (option FileDescriptor) * (gmap Z FileDescriptor * Z) :=
  match ops with
  | [] => ([], s)
  | o :: ops => let '(r, s1) := fd_spec_op o s in let '(rs, s2) := fd_spec_run ops s1 in (r :: rs, s2)
  end.

Definition fds_are (p : Process) (s : gmap Z FileDescriptor * Z) : Prop :=
  s.2 = zlen (p_file_descriptors p) ∧ ∀ fd, 0 ≤ fd → s.1 !! fd = get_fd fd p.

Definition fd_op_ok (o : FdOp) : Prop := match o with FdOpen _ => True | FdClose fd | FdGet fd => 0 ≤ fd < 2 ^ 32 end.

Lemma fd_op_refines o p s :
  fds_are p s → fd_op_ok o → s.2 < 2 ^ 32 →
  (fd_op o p).1 = (fd_spec_op o s).1 ∧ fds_are (fd_op o p).2 (fd_spec_op o s).2.
Proof.
  destruct s as [m next]. intros [Hn Hm] Ho Hlt. cbn [fst snd] in *. destruct o as [r|fd|fd]; cbn [fd_op fd_spec_op fd_op_ok] in *.
  - unfold allocate_fd. assert (as_u32 (zlen (p_file_descriptors p)) = next) as -> by (unfold as_u32, zlen in *; by rewrite Z.mod_small by lia).
    set (d := mkFd next 0 0 r). cbn [fst snd].
    assert (∀ fd, 0 ≤ fd → get_fd fd (set_tables (p_capability_table p) (p_file_descriptors p ++ [Some d]) p) = <[next := d]> m !! fd) as Hg.
    { intros fd Hfd. unfold get_fd. cbn [p_file_descriptors set_tables]. destruct (decide (fd = next)) as [->|Hne].
      - rewrite lookup_insert_eq, lookup_app_r by (unfold zlen in Hn; lia).
        replace (Z.to_nat next - _)%nat with 0%nat by (unfold zlen in Hn; lia). done.
      - rewrite lookup_insert_ne, Hm by done. unfold get_fd. destruct (decide (fd < next)).
        + by rewrite lookup_app_l by (unfold zlen in Hn; lia).
        + rewrite !lookup_ge_None_2; [done|unfold zlen in Hn; lia|len; unfold zlen in Hn; lia]. }
    split; [rewrite Hg by (unfold zlen in Hn; lia); by rewrite lookup_insert_eq|].
    split; [cbn; unfold zlen in *; len|]. intros fd Hfd. by rewrite Hg.
  - split; [done|]. split; [unfold zlen in *; cbn; len|]. intros fd' Hfd'. cbn [fst snd]. unfold get_fd, close_fd. cbn [p_file_descriptors set_tables].
    destruct (decide (fd' = fd)) as [->|Hne].
    + rewrite lookup_delete_eq. destruct (decide (Z.to_nat fd < length (p_file_descriptors p))%nat).
      * by rewrite list_lookup_insert_eq.
      * by rewrite lookup_ge_None_2 by len.
    + rewrite lookup_delete_ne by done. rewrite list_lookup_insert_ne by lia. by apply Hm.
  - split; [|done]. symmetry. apply Hm. lia.
Qed.

Lemma fd_spec_next o s : (fd_spec_op o s).2.2 ≤ s.2 + 1.
Proof. destruct s as [m next], o; cbn; lia. Qed.

(** ** Properties *)

(** C39: file descriptors of a process behave like a map with fresh numbers. Any sequence of opening, closing
    and looking up answers as the map does: an opened descriptor is found under its number until it is
    closed, a closed one is gone, and numbers are not reused. *)
Theorem fd_table_refines ops p s :
  fds_are p s → Forall fd_op_ok ops → s.2 + zlen ops < 2 ^ 32 →
  (fd_run ops p).1 = (fd_spec_run ops s).1 ∧ fds_are (fd_run ops p).2 (fd_spec_run ops s).2.
Proof.
  revert p s. induction ops as [|o ops IH]; intros p s Hp Hops Hl; [done|].
  apply Forall_cons in Hops as [Ho Hops]. cbn [fd_run fd_spec_run].
  destruct (fd_op_refines o p s Hp Ho) as [E1 H1]; [unfold zlen in Hl; cbn in Hl; lia|]. pose proof (fd_spec_next o s) as Hnext.
  destruct (fd_op o p) as [r p1], (fd_spec_op o s) as [r' s1]. cbn [fst snd] in *. subst r'.
  destruct (IH p1 s1 H1 Hops) as [E2 H2]; [unfold zlen in *; cbn in *; lia|].
  destruct (fd_run ops p1), (fd_spec_run ops s1). cbn [fst snd] in *. by subst.
Qed.

Lemma fd_table_refines_witness :
  (fd_run [FdOpen Console; FdOpen Socket; FdClose 0; FdGet 0; FdGet 1] (process_new 1 0 0x400000 64)).1 =
  (fd_spec_run [FdOpen Console; FdOpen Socket; FdClose 0; FdGet 0; FdGet 1] (∅, 0)).1.
Proof.
  apply (fd_table_refines _ (process_new 1 0 0x400000 64) (∅, 0)).
  - split; [done|]. intros fd _. done.
  - forall_list; cbn; lia.
  - by vm_compute.
Defined.

(** A context switch saves every register, and restores all but two. The registers at the time of the call
    are in the old context, with the resume address as its instruction pointer; the resumed process runs
    at its saved instruction pointer with its saved registers, except that [r12] holds that instruction
    pointer and [r13] its [rsi]. *)
Theorem context_switch_registers resume (x : ProcessContext) regs old stack :
  0 ≤ rsp x < 2 ^ 64 →
  let c := exec resume (context_words x) context_switch (mkCpu regs old stack None) in
  c_old c <$> [0x00; 0x08; 0x10; 0x18; 0x20; 0x28; 0x30; 0x38; 0x40; 0x48; 0x50; 0x58; 0x60; 0x68; 0x70; 0x78; 0x80; 0x88; 0x90] =
    (regs <$> [RAX; RBX; RCX; RDX; RSI; RDI; RBP; RSP; R8; R9; R10; R11; R12; R13; R14; R15]) ++ [resume; regs RFLAGS; regs CR3] ∧
  c_regs c <$> [RAX; RBX; RCX; RDX; RSI; RDI; RBP; RSP; R8; R9; R10; R11; R14; R15; RFLAGS; CR3] =
    [rax x; rbx x; rcx x; rdx x; rsi x; rdi x; rbp x; rsp x; r8 x; r9 x; r10 x; r11 x; r14 x; r15 x; rflags x; cr3 x] ∧
  c_jump c = Some (rip x) ∧ c_stack c = stack ∧ c_regs c R12 = rip x ∧ c_regs c R13 = rsi x.
Proof.
  intros Hx. cbv zeta.
  assert (∀ v, 0 ≤ v < 2 ^ 64 → wrap64 (wrap64 (v - 8) + 8) = v) as Hw.
  { intros v Hv. unfold wrap64. rewrite Zplus_mod_idemp_l, Z.sub_add. by apply Z.mod_small. }
  set (c := exec _ _ _ _).
  assert (c_regs c RSP = rsp x) as Hrsp
    by (transitivity (wrap64 (wrap64 (rsp x - 8) + 8)); [reflexivity|by apply Hw]).
  split; [reflexivity|]. split; [|split_and!; reflexivity].
  cbn [fmap list_fmap]. rewrite Hrsp. reflexivity.
Qed.

Lemma context_switch_registers_witness :
  c_jump (exec 7 (context_words (process_context_new 0x400000 0x8000 0x1000)) context_switch (mkCpu (λ _, 16) (λ _, 0) [] None))
    = Some 0x400000 ∧
  c_regs (exec 7 (context_words (process_context_new 0x400000 0x8000 0x1000)) context_switch (mkCpu (λ _, 16) (λ _, 0) [] None)) R12
    = 0x400000.
Proof.
  destruct (context_switch_registers 7 (process_context_new 0x400000 0x8000 0x1000) (λ _, 16) (λ _, 0) [])
    as (_ & _ & Hj & _ & H12 & _); [cbn; lia|]. split; [exact Hj|exact H12].
Defined.
