(* ===== verification/Scheduler.v ===== *)
(** * The scheduler ([crates/lib_kernel/src/scheduler/cpu.rs], [mod.rs])

    One run queue per CPU, each with four queues and a current process behind
    a spin lock each, and a scheduler with a process table. Processes are
    shared ([Arc]), so the queues and the table hold process ids, and the
    processes are in one heap. Locks are part of the state: taking a spin lock
    that the same flow of control already holds never returns. A guard in the
    condition of [if let] is held to the end of the statement, as the language
    defines for the edition the crate is built with. *)

From S2P Require Import Prelude Process.

(** ** Run queues *)
Inductive QLock : Type := LReady | LHigh | LNormal | LLow | LCurrent.
#[export] Instance qlock_eq_dec : EqDecision QLock.
Proof. solve_decision. Defined.

Record CpuRunQueue := mkQueue {
  q_cpu_id : Z;
  q_ready : list Z;
  q_current : option Z;
  q_high : list Z;
  q_normal : list Z;
  q_low : list Z;
  q_load : Z;
  q_switches : Z;
  q_idle : Z;
  q_active : Z;
  q_last_tick : Z;
  q_held : list QLock;
}.

Definition queue_new (cpu_id : Z) : CpuRunQueue := mkQueue cpu_id [] None [] [] [] 0 0 0 0 0 [].

Abbreviation Heap := (gmap Z Process).
(** A method of a run queue: its state and the processes. *)
Abbreviation QM := (M (CpuRunQueue * Heap) Empty_set).

(** The queue a lock protects. *)
Definition q_list (l : QLock) (q : CpuRunQueue) : list Z :=
  match l with LReady => q_ready q | LHigh => q_high q | LNormal => q_normal q | LLow => q_low q | LCurrent => [] end.
Definition q_set_list (l : QLock) (xs : list Z) (q : CpuRunQueue) : CpuRunQueue :=
  match l with
  | LReady => mkQueue (q_cpu_id q) xs (q_current q) (q_high q) (q_normal q) (q_low q) (q_load q) (q_switches q) (q_idle q) (q_active q) (q_last_tick q) (q_held q)
  | LHigh => mkQueue (q_cpu_id q) (q_ready q) (q_current q) xs (q_normal q) (q_low q) (q_load q) (q_switches q) (q_idle q) (q_active q) (q_last_tick q) (q_held q)
  | LNormal => mkQueue (q_cpu_id q) (q_ready q) (q_current q) (q_high q) xs (q_low q) (q_load q) (q_switches q) (q_idle q) (q_active q) (q_last_tick q) (q_held q)
  | LLow => mkQueue (q_cpu_id q) (q_ready q) (q_current q) (q_high q) (q_normal q) xs (q_load q) (q_switches q) (q_idle q) (q_active q) (q_last_tick q) (q_held q)
  | LCurrent => q
  end.
Definition q_set_current (c : option Z) (q : CpuRunQueue) : CpuRunQueue :=
  mkQueue (q_cpu_id q) (q_ready q) c (q_high q) (q_normal q) (q_low q) (q_load q) (q_switches q) (q_idle q) (q_active q) (q_last_tick q) (q_held q).
Definition q_set_held (h : list QLock) (q : CpuRunQueue) : CpuRunQueue :=
  mkQueue (q_cpu_id q) (q_ready q) (q_current q) (q_high q) (q_normal q) (q_low q) (q_load q) (q_switches q) (q_idle q) (q_active q) (q_last_tick q) h.
Definition q_set_stats (load switches idle active last : Z) (q : CpuRunQueue) : CpuRunQueue :=
  mkQueue (q_cpu_id q) (q_ready q) (q_current q) (q_high q) (q_normal q) (q_low q) load switches idle active last (q_held q).

Definition get_queue : QM CpuRunQueue := λ '(q, h), (Ok q, (q, h)).
Definition mod_queue (f : CpuRunQueue → CpuRunQueue) : QM unit := λ '(q, h), (Ok tt, (f q, h)).

(** A process behind an [Arc]; the heap always holds it. *)
Definition get_proc (pid : Z) : QM Process := λ '(q, h),
  match h !! pid with Some p => (Ok p, (q, h)) | None => (Panic, (q, h)) end.
Definition mod_proc (pid : Z) (f : Process → Process) : QM unit := λ '(q, h),
  match h !! pid with Some p => (Ok tt, (q, <[pid := f p]> h)) | None => (Panic, (q, h)) end.

(** A spin lock held while [body] runs. *)
Definition with_lock {A} (l : QLock) (body : QM A) : QM A :=
  let! q := get_queue in
  if decide (l ∈ q_held q) then mlift Hang else
  let! _ := mod_queue (q_set_held (l :: q_held q)) in
  let! a := body in
  let! _ := mod_queue (λ q', q_set_held (filter (λ l', l' ≠ l) (q_held q')) q') in
  mok a.

Definition update_load : QM unit :=
  let! high_count := with_lock LHigh (let! q := get_queue in mok (zlen (q_high q))) in
  let! normal_count := with_lock LNormal (let! q := get_queue in mok (zlen (q_normal q))) in
  let! low_count := with_lock LLow (let! q := get_queue in mok (zlen (q_low q))) in
  let! ready_count := with_lock LReady (let! q := get_queue in mok (zlen (q_ready q))) in
  let total_load := high_count + normal_count + low_count + ready_count in
  let! current_load := with_lock LCurrent (let! q := get_queue in mok (match q_current q with Some _ => 1 | None => 0 end)) in
  mod_queue (λ q, q_set_stats (as_u32 (total_load + current_load)) (q_switches q) (q_idle q) (q_active q) (q_last_tick q) q).

Definition push_back (l : QLock) (pid : Z) : QM unit :=
  with_lock l (mod_queue (λ q, q_set_list l (q_list l q ++ [pid]) q)).

(** The queue for a priority. *)
Definition priority_queue (priority : Z) : QLock :=
  if bool_decide (priority ≤ 63) then LLow else if bool_decide (priority ≤ 127) then LNormal else LHigh.

Definition add_process (pid : Z) : QM unit :=
  let! q := get_queue in
  let! _ := mod_proc pid (set_assigned_cpu (q_cpu_id q)) in
  let! p := get_proc pid in
  let! _ := push_back (priority_queue (p_priority p)) pid in
  update_load.

(** One queue of [remove_process]: the first entry of the process goes. *)
Definition remove_from (l : QLock) (pid : Z) : QM bool :=
  with_lock l (
    let! q := get_queue in
    match find_index (λ x, x =? pid) (q_list l q) with
    | Some pos => let! _ := mod_queue (q_set_list l (delete pos (q_list l q))) in mok true
    | None => mok false
    end).

(** The guard of the current process lives to the end of the method. *)
Definition remove_process (pid : Z) : QM bool :=
  let! r1 := remove_from LReady pid in
  let! r2 := remove_from LHigh pid in
  let! r3 := remove_from LNormal pid in
  let! r4 := remove_from LLow pid in
  with_lock LCurrent (
    let! q := get_queue in
    let is_current := match q_current q with Some c => c =? pid | None => false end in
    let! _ := (if is_current then mod_queue (q_set_current None) else mok tt) in
    let removed := r1 || r2 || r3 || r4 || is_current in
    let! _ := (if removed then update_load else mok tt) in
    mok removed).

(** [queue.lock().pop_front()] where the guard is already held. *)
Definition pop_front (l : QLock) : QM (option Z) :=
  let! q := get_queue in
  match q_list l q with
  | [] => mok None
  | pid :: rest => let! _ := mod_queue (q_set_list l rest) in mok (Some pid)
  end.

(** [process.set_state(Running); process.increment_context_switches()] and the queue's own count *)
Definition start_running (pid : Z) : QM unit :=
  let! _ := mod_proc pid (set_state Running) in
  mod_proc pid increment_context_switches.
Definition count_switch : QM unit :=
  mod_queue (λ q, q_set_stats (q_load q) (wrap64 (q_switches q + 1)) (q_idle q) (q_active q) (q_last_tick q) q).

Definition get_next_ready_process : QM (option Z) :=
  let! r := with_lock LHigh (pop_front LHigh) in
  match r with Some pid => mok (Some pid) | None =>
  let! r := with_lock LNormal (pop_front LNormal) in
  match r with Some pid => mok (Some pid) | None =>
  let! r := with_lock LLow (pop_front LLow) in
  match r with Some pid => mok (Some pid) | None =>
  with_lock LReady (pop_front LReady) end end end.

Definition round_robin_schedule : QM (option Z) :=
  with_lock LCurrent (
    let! q := get_queue in
    let! running := match q_current q with
                    | Some pid => let! p := get_proc pid in mok (bool_decide (p_state p = Running))
                    | None => mok false
                    end in
    if (running : bool) then mok (q_current q) else
    let! next := get_next_ready_process in
    match next with
    | Some pid =>
        let! _ := start_running pid in
        let! _ := mod_queue (q_set_current (Some pid)) in
        let! _ := count_switch in
        mok (Some pid)
    | None => mok None
    end).

(** One level of [priority_schedule]; the queue's guard is held while the current process is set. *)
Definition schedule_from (l : QLock) : QM (option Z) :=
  with_lock l (
    let! r := pop_front l in
    match r with
    | Some pid =>
        let! _ := start_running pid in
        let! _ := with_lock LCurrent (mod_queue (q_set_current (Some pid))) in
        let! _ := count_switch in
        mok (Some pid)
    | None => mok None
    end).

Definition priority_schedule : QM (option Z) :=
  let! r := schedule_from LHigh in
  match r with Some pid => mok (Some pid) | None =>
  let! r := schedule_from LNormal in
  match r with Some pid => mok (Some pid) | None =>
  schedule_from LLow end end.

Definition realtime_schedule : QM (option Z) :=
  with_lock LCurrent (
    let! q := get_queue in
    let! cur := match q_current q with
                | Some pid => let! p := get_proc pid in mok (Some p)
                | None => mok None
                end in
    let running := match cur with Some p => bool_decide (p_state p = Running) | None => false end in
    let high := match cur with Some p => bool_decide (128 ≤ p_priority p) | None => false end in
    if high && running then mok (q_current q) else
    let! r := with_lock LHigh (
      let! r := pop_front LHigh in
      match r with
      | Some pid =>
          let! _ := start_running pid in
          let! _ := mod_queue (q_set_current (Some pid)) in
          let! _ := count_switch in
          mok (Some pid)
      | None => mok None
      end) in
    match r with
    | Some pid => mok (Some pid)
    | None => if running then mok (q_current q) else get_next_ready_process
    end).

Inductive SchedulingPolicy : Type := RoundRobin | PriorityBased | RealTime.

Definition get_next_process (policy : SchedulingPolicy) : QM (option Z) :=
  match policy with
  | RoundRobin => round_robin_schedule
  | PriorityBased => priority_schedule
  | RealTime => realtime_schedule
  end.

(** The guard of the current process is held while the process is queued again. *)
Definition preempt_current : QM unit :=
  with_lock LCurrent (
    let! q := get_queue in
    let! _ := mod_queue (q_set_current None) in
    match q_current q with
    | Some pid =>
        let! p := get_proc pid in
        if bool_decide (p_state p = Running) then
          let! _ := mod_proc pid (set_state Ready) in
          add_process pid
        else mok tt
    | None => mok tt
    end).

Definition age_processes : QM unit :=
  with_lock LLow (with_lock LNormal (
    let! q := get_queue in
    if q_last_tick q `mod` 100 =? 0 then
      let! r := pop_front LLow in
      match r with
      | Some pid => mod_queue (λ q, q_set_list LNormal (q_normal q ++ [pid]) q)
      | None => mok tt
      end
    else mok tt)).

Definition queue_timer_tick (tick : Z) : QM unit :=
  let! _ := mod_queue (λ q, q_set_stats (q_load q) (q_switches q) (q_idle q) (q_active q) tick q) in
  let! busy := with_lock LCurrent (let! q := get_queue in mok (match q_current q with Some _ => true | None => false end)) in
  let! _ := mod_queue (λ q, if (busy : bool)
                            then q_set_stats (q_load q) (q_switches q) (q_idle q) (wrap64 (q_active q + 1)) (q_last_tick q) q
                            else q_set_stats (q_load q) (q_switches q) (wrap64 (q_idle q + 1)) (q_active q) (q_last_tick q) q) in
  age_processes.

(** One level of [steal_process]: the guard is held while the load is updated. *)
Definition steal_from (l : QLock) : QM (option Z) :=
  with_lock l (
    let! r := pop_front l in
    match r with
    | Some pid => let! _ := update_load in mok (Some pid)
    | None => mok None
    end).

Definition steal_process : QM (option Z) :=
  let! r := steal_from LLow in
  match r with Some pid => mok (Some pid) | None =>
  let! r := steal_from LNormal in
  match r with Some pid => mok (Some pid) | None =>
  steal_from LHigh end end.

(** ** The scheduler *)
Record RwState := mkRw { rw_readers : nat; rw_writer : bool }.
Definition rw_free : RwState := mkRw 0 false.

Inductive SLock : Type := SQueues | SProcesses | SPolicy.

Record SLocks := mkLocks { lk_queues : RwState; lk_processes : RwState; lk_policy : RwState }.
Definition lk_get (l : SLock) (k : SLocks) : RwState :=
  match l with SQueues => lk_queues k | SProcesses => lk_processes k | SPolicy => lk_policy k end.
Definition lk_set (l : SLock) (rw : RwState) (k : SLocks) : SLocks :=
  match l with
  | SQueues => mkLocks rw (lk_processes k) (lk_policy k)
  | SProcesses => mkLocks (lk_queues k) rw (lk_policy k)
  | SPolicy => mkLocks (lk_queues k) (lk_processes k) rw
  end.
Definition no_locks : SLocks := mkLocks rw_free rw_free rw_free.

(** The scalars of [Scheduler], with the static counters it uses: [NEXT_PID] and [SYSTEM_TICKS]. *)
Record SchedConf := mkConf {
  tick_counter : Z;
  cpu_count : Z;
  policy : SchedulingPolicy;
  time_slice_ticks : Z;
  load_balance_enabled : bool;
  last_balance_tick : Z;
  next_pid : Z;
  system_ticks : Z;
}.

Record Sched := mkSched {
  per_cpu_queues : list CpuRunQueue;
  processes : list (option Z);
  s_heap : Heap;
  s_conf : SchedConf;
  s_locks : SLocks;
}.

Inductive SchedulerError : Type := OutOfMemory | InvalidCpuId | ProcessNotFound | InvalidState.
Abbreviation SM := (M Sched SchedulerError).

Definition scheduler_new : Sched :=
  mkSched [] [] ∅ (mkConf 0 1 RoundRobin 10 true 0 1 0) no_locks.

Definition set_queues (qs : list CpuRunQueue) (s : Sched) : Sched := mkSched qs (processes s) (s_heap s) (s_conf s) (s_locks s).
Definition set_processes (ps : list (option Z)) (s : Sched) : Sched := mkSched (per_cpu_queues s) ps (s_heap s) (s_conf s) (s_locks s).
Definition set_heap (h : Heap) (s : Sched) : Sched := mkSched (per_cpu_queues s) (processes s) h (s_conf s) (s_locks s).
Definition set_conf (c : SchedConf) (s : Sched) : Sched := mkSched (per_cpu_queues s) (processes s) (s_heap s) c (s_locks s).
Definition set_lock (l : SLock) (rw : RwState) (s : Sched) : Sched :=
  mkSched (per_cpu_queues s) (processes s) (s_heap s) (s_conf s) (lk_set l rw (s_locks s)).

Definition conf_tick (t : Z) (c : SchedConf) : SchedConf :=
  mkConf t (cpu_count c) (policy c) (time_slice_ticks c) (load_balance_enabled c) (last_balance_tick c) (next_pid c) (system_ticks c).
Definition conf_cpus (n : Z) (c : SchedConf) : SchedConf :=
  mkConf (tick_counter c) n (policy c) (time_slice_ticks c) (load_balance_enabled c) (last_balance_tick c) (next_pid c) (system_ticks c).
Definition conf_policy (p : SchedulingPolicy) (slice : Z) (c : SchedConf) : SchedConf :=
  mkConf (tick_counter c) (cpu_count c) p slice (load_balance_enabled c) (last_balance_tick c) (next_pid c) (system_ticks c).
Definition conf_balanced (t : Z) (c : SchedConf) : SchedConf :=
  mkConf (tick_counter c) (cpu_count c) (policy c) (time_slice_ticks c) (load_balance_enabled c) t (next_pid c) (system_ticks c).
Definition conf_pid (n : Z) (c : SchedConf) : SchedConf :=
  mkConf (tick_counter c) (cpu_count c) (policy c) (time_slice_ticks c) (load_balance_enabled c) (last_balance_tick c) n (system_ticks c).
Definition conf_now (t : Z) (c : SchedConf) : SchedConf :=
  mkConf (tick_counter c) (cpu_count c) (policy c) (time_slice_ticks c) (load_balance_enabled c) (last_balance_tick c) (next_pid c) t.

(** [RwLock::read] and [RwLock::write] of the [spin] crate: readers share, a writer excludes. *)
Definition with_read {A} (l : SLock) (body : SM A) : SM A :=
  let! s := mget in
  if rw_writer (lk_get l (s_locks s)) then mlift Hang else
  let! _ := mmod (set_lock l (mkRw (S (rw_readers (lk_get l (s_locks s)))) false)) in
  let! a := body in
  let! _ := mmod (λ s', set_lock l (mkRw (pred (rw_readers (lk_get l (s_locks s')))) (rw_writer (lk_get l (s_locks s')))) s') in
  mok a.

Definition with_write {A} (l : SLock) (body : SM A) : SM A :=
  let! s := mget in
  if rw_writer (lk_get l (s_locks s)) || negb (rw_readers (lk_get l (s_locks s)) =? 0)%nat then mlift Hang else
  let! _ := mmod (set_lock l (mkRw 0 true)) in
  let! a := body in
  let! _ := mmod (λ s', set_lock l rw_free s') in
  mok a.

(** A method of [queues[i]]; the index is checked. *)
Definition on_queue {A} (i : Z) (m : QM A) : SM A := λ s,
  match per_cpu_queues s !! Z.to_nat i with
  | None => (Panic, s)
  | Some q =>
      let '(r, (q', h')) := m (q, s_heap s) in
      (match r with Ok a => Ok a | Err e => match e with end | Panic => Panic | Hang => Hang end,
       set_heap h' (set_queues (<[Z.to_nat i := q']> (per_cpu_queues s)) s))
  end.

(** A method of a process of the heap. *)
Definition on_proc (pid : Z) (f : Process → Process) : SM unit := λ s,
  match s_heap s !! pid with
  | Some p => (Ok tt, set_heap (<[pid := f p]> (s_heap s)) s)
  | None => (Panic, s)
  end.

(** [tick_counter.fetch_add(1)] *)
Definition next_tick : SM Z :=
  let! s := mget in
  let! _ := mmod (λ s, set_conf (conf_tick (wrap64 (tick_counter (s_conf s) + 1)) (s_conf s)) s) in
  mok (tick_counter (s_conf s)).

(** [ProcessId::new()] *)
Definition new_pid : SM Z :=
  let! s := mget in
  let! _ := mmod (λ s, set_conf (conf_pid (wrap64 (next_pid (s_conf s) + 1)) (s_conf s)) s) in
  mok (next_pid (s_conf s)).

Definition sched_init (n : Z) : SM unit :=
  let! _ := mmod (λ s, set_conf (conf_cpus n (s_conf s)) s) in
  with_write SQueues (mmod (set_queues (queue_new <$> seqZ 0 n))).

(** The first CPU with the lowest load. *)
Fixpoint least_loaded (qs : list CpuRunQueue) (cpu_id min_load best_cpu : Z) : Z :=
  match qs with
  | [] => best_cpu
  | q :: qs => if bool_decide (q_load q < min_load) then least_loaded qs (cpu_id + 1) (q_load q) cpu_id
               else least_loaded qs (cpu_id + 1) min_load best_cpu
  end.

Definition select_cpu_for_new_process : SM Z :=
  let! s := mget in
  if negb (load_balance_enabled (s_conf s)) then mok 0 else
  with_read SQueues (let! s := mget in mok (least_loaded (per_cpu_queues s) 0 (2 ^ 32 - 1) 0)).

(** The first empty slot of the table, or a new one. *)
Definition table_insert (pid : Z) (ps : list (option Z)) : list (option Z) :=
  match find_index (λ x, match x with None => true | Some _ => false end) ps with
  | Some i => <[i := Some pid]> ps
  | None => ps ++ [Some pid]
  end.

Definition create_process (entry_point priority : Z) : SM Z :=
  let! pid := new_pid in
  let! s := mget in
  let p := process_new pid (system_ticks (s_conf s)) entry_point priority in
  let! _ := mmod (λ s, set_heap (<[pid := p]> (s_heap s)) s) in
  with_write SProcesses (
    let! _ := mmod (λ s, set_processes (table_insert pid (processes s)) s) in
    let! target_cpu := select_cpu_for_new_process in
    with_write SQueues (
      let! _ := on_queue target_cpu (add_process pid) in
      mok pid)).

Definition should_balance_load (s : Sched) (current_tick : Z) : bool :=
  load_balance_enabled (s_conf s) &&
  bool_decide (1000 ≤ saturating_sub current_tick (last_balance_tick (s_conf s))).

(** [loads.sort_by_key(|(_, load)| *load)], a stable sort. *)
Fixpoint insert_load (x : Z * Z) (l : list (Z * Z)) : list (Z * Z) :=
  match l with
  | [] => [x]
  | y :: l => if bool_decide (x.2 ≤ y.2) then x :: y :: l else y :: insert_load x l
  end.
Definition sort_loads (l : list (Z * Z)) : list (Z * Z) := foldr insert_load [] l.

Definition balance_load (current_cpu current_tick : Z) : SM unit :=
  let! _ := mmod (λ s, set_conf (conf_balanced current_tick (s_conf s)) s) in
  with_write SQueues (
    let! s := mget in
    if bool_decide (zlen (per_cpu_queues s) ≤ current_cpu) then mok tt else
    let loads := sort_loads (imap (λ i q, (Z.of_nat i, q_load q)) (per_cpu_queues s)) in
    match loads, last loads with
    | (least_cpu, min_load) :: _ :: _, Some (most_cpu, max_load) =>
        let! limit := mlift (add32 min_load 2) in
        if bool_decide (limit < max_load) then
          let! r := on_queue most_cpu steal_process in
          match r with
          | Some pid =>
              let! _ := on_proc pid (set_assigned_cpu least_cpu) in
              on_queue least_cpu (add_process pid)
          | None => mok tt
          end
        else mok tt
    | _, _ => mok tt
    end).

(** [current_cpu_id] is the constant 0. *)
Definition current_cpu_id : Z := 0.

Definition schedule : SM (option Z) :=
  let! tick := next_tick in
  let! s := mget in
  let! _ := (if should_balance_load s tick then balance_load current_cpu_id tick else mok tt) in
  with_read SQueues (
    let! s := mget in
    if bool_decide (current_cpu_id < zlen (per_cpu_queues s)) then
      with_read SPolicy (let! s := mget in on_queue current_cpu_id (get_next_process (policy (s_conf s))))
    else mok None).

(** The first slot that holds the process. *)
Definition get_process (pid : Z) : SM bool :=
  with_read SProcesses (
    let! s := mget in
    mok (existsb (λ x, match x with Some p => p =? pid | None => false end) (processes s))).

Definition block_process (pid : Z) (reason : BlockReason) : SM unit :=
  let! found := get_process pid in
  if negb found then mok tt else
  let! _ := on_proc pid (set_state Blocked) in
  let! _ := on_proc pid (set_block_reason (Some reason)) in
  let! s := mget in
  let cpu_id := match s_heap s !! pid with Some p => p_assigned_cpu p | None => 0 end in
  with_write SQueues (
    let! s := mget in
    if bool_decide (cpu_id < zlen (per_cpu_queues s)) then
      let! _ := on_queue cpu_id (remove_process pid) in mok tt
    else mok tt).

(** [pid % cpu_count] *)
Definition select_cpu_for_process (s : Sched) (pid : Z) : res SchedulerError Z :=
  if bool_decide (cpu_count (s_conf s) = 0) then Panic else Ok (pid `mod` cpu_count (s_conf s)).

Definition unblock_process (pid : Z) : SM unit :=
  let! found := get_process pid in
  if negb found then mok tt else
  let! s := mget in
  match s_heap s !! pid with
  | Some p =>
      if bool_decide (p_state p = Blocked) then
        let! _ := on_proc pid (set_state Ready) in
        let! _ := on_proc pid (set_block_reason None) in
        let! s := mget in
        let! target_cpu := mlift (select_cpu_for_process s pid) in
        let! _ := on_proc pid (set_assigned_cpu target_cpu) in
        with_write SQueues (
          let! s := mget in
          if bool_decide (target_cpu < zlen (per_cpu_queues s)) then on_queue target_cpu (add_process pid)
          else mok tt)
      else mok tt
  | None => mok tt
  end.

Definition terminate_process (pid exit_code : Z) : SM unit :=
  let! found := get_process pid in
  if negb found then mok tt else
  let! _ := on_proc pid (set_state Zombie) in
  let! _ := on_proc pid (set_exit_code (Some exit_code)) in
  with_write SQueues (
    let! s := mget in
    mfor (seqZ 0 (zlen (per_cpu_queues s))) (λ i, let! _ := on_queue i (remove_process pid) in mok tt)).

Definition preempt_current_process (cpu_id : Z) : SM unit :=
  with_read SQueues (
    let! s := mget in
    if bool_decide (cpu_id < zlen (per_cpu_queues s)) then on_queue cpu_id preempt_current else mok tt).

Definition timer_tick (cpu_id : Z) : SM unit :=
  let! tick := next_tick in
  with_read SQueues (
    let! s := mget in
    let! _ := (if bool_decide (cpu_id < zlen (per_cpu_queues s)) then on_queue cpu_id (queue_timer_tick tick) else mok tt) in
    let! s := mget in
    if bool_decide (time_slice_ticks (s_conf s) = 0) then mlift Panic else
    if tick `mod` time_slice_ticks (s_conf s) =? 0 then preempt_current_process cpu_id else mok tt).

Definition configure (p : SchedulingPolicy) (time_slice_ms : Z) : SM unit :=
  let! _ := with_write SPolicy (mmod (λ s, set_conf (conf_policy p (time_slice_ticks (s_conf s)) (s_conf s)) s)) in
  mmod (λ s, set_conf (conf_policy (policy (s_conf s)) time_slice_ms (s_conf s)) s).

Record SchedulerStats := mkStats {
  total_processes : Z; ready_processes : Z; running_processes : Z; blocked_processes : Z; zombie_processes : Z;
  cpu_loads : list Z; total_ticks : Z; total_context_switches : Z;
}.

(** The sum of the counts, checked. *)
Definition get_total_context_switches : SM Z :=
  with_read SQueues (
    let! s := mget in
    mlift (foldl (λ acc q, let? a := acc in add64 a (q_switches q)) (Ok 0) (per_cpu_queues s))).

Definition count_state (st : ProcessState) (s : Sched) : Z :=
  zlen (filter (λ x, (x ≫= λ pid, p_state <$> s_heap s !! pid) = Some st) (processes s)).

Definition sched_get_stats : SM SchedulerStats :=
  with_read SProcesses (
    let! s := mget in
    with_read SQueues (
      let! switches := get_total_context_switches in
      mok (mkStats (zlen (processes s)) (count_state Ready s) (count_state Running s) (count_state Blocked s)
             (count_state Zombie s) (q_load <$> per_cpu_queues s) (tick_counter (s_conf s)) switches))).

(** The timer interrupt of [interrupts.rs]: the system tick, then the scheduler's. *)
Definition timer_interrupt : SM unit :=
  let! _ := mmod (λ s, set_conf (conf_now (increment_tick (system_ticks (s_conf s))) (s_conf s)) s) in
  timer_tick 0.

(** ** What the run queue methods do *)
Definition queue_total (q : CpuRunQueue) : Z :=
  zlen (q_high q) + zlen (q_normal q) + zlen (q_low q) + zlen (q_ready q) + match q_current q with Some _ => 1 | None => 0 end.

Definition with_load (q : CpuRunQueue) : CpuRunQueue :=
  q_set_stats (as_u32 (queue_total q)) (q_switches q) (q_idle q) (q_active q) (q_last_tick q) q.

Lemma update_load_ok q h : q_held q = [] → update_load (q, h) = (Ok tt, (with_load q, h)).
Proof. destruct q. cbn. intros ->. reflexivity. Qed.

(** With any of its locks held, [update_load] does not return. *)
Lemma update_load_hangs l q h : q_held q = [l] → (update_load (q, h)).1 = Hang.
Proof. destruct q. cbn. intros ->. destruct l; reflexivity. Qed.

Definition pushed (pid priority : Z) (q : CpuRunQueue) : CpuRunQueue :=
  let l := priority_queue priority in with_load (q_set_list l (q_list l q ++ [pid]) q).

Lemma add_process_ok pid p q h :
  q_held q = [] → h !! pid = Some p →
  add_process pid (q, h) = (Ok tt, (pushed pid (p_priority p) q, <[pid := set_assigned_cpu (q_cpu_id q) p]> h)).
Proof.
  intros Hh Hp. unfold add_process, mbindM at 1 2, get_queue, mod_proc. rewrite Hp. unfold mbindM at 1, get_proc. rewrite lookup_insert_eq.
  change (p_priority (set_assigned_cpu (q_cpu_id q) p)) with (p_priority p). unfold pushed.
  destruct q. cbn in Hh. subst. destruct (priority_queue (p_priority p)); reflexivity.
Qed.

(** [add_process] with the lock of the current process held. *)
Lemma add_process_hangs pid p q h :
  q_held q = [LCurrent] → h !! pid = Some p → (add_process pid (q, h)).1 = Hang.
Proof.
  intros Hh Hp. unfold add_process, mbindM at 1 2, get_queue, mod_proc. rewrite Hp. unfold mbindM at 1, get_proc. rewrite lookup_insert_eq.
  destruct q. cbn in Hh. subst. by destruct (priority_queue (p_priority _)).
Qed.

(** The processes waiting in a run queue, and those with the current one. *)
Definition queued (q : CpuRunQueue) : list Z := q_ready q ++ q_high q ++ q_normal q ++ q_low q.
Definition members (q : CpuRunQueue) : list Z := queued q ++ option_list (q_current q).

Lemma elem_of_queued pid q : pid ∈ queued q ↔ ∃ l, l ≠ LCurrent ∧ pid ∈ q_list l q.
Proof.
  unfold queued. rewrite !elem_of_app. split.
  - intros [?|[?|[?|?]]]; [by exists LReady|by exists LHigh|by exists LNormal|by exists LLow].
  - intros (l & Hl & Hin). destruct l; cbn in Hin; tauto.
Qed.

Lemma head_queued pid l rest q : l ≠ LCurrent → q_list l q = pid :: rest → pid ∈ queued q.
Proof. intros Hl E. apply elem_of_queued. exists l. rewrite E. split; [done|left]. Qed.

Lemma find_index_pid pid l : find_index (λ x, x =? pid) l = None ↔ pid ∉ l.
Proof.
  induction l as [|x l IH]; cbn; [set_solver|]. rewrite not_elem_of_cons. destruct (x =? pid) eqn:E.
  - apply Z.eqb_eq in E. split; [done|]. intros [? _]. congruence.
  - apply Z.eqb_neq in E. destruct (find_index _ l); cbn.
    + split; [done|]. intros [_ Hl]. by apply IH in Hl.
    + split; [|done]. intros _. split; [congruence|by apply IH].
Qed.

(** The critical section of a lock that is free. *)
Lemma with_lock_free {A} l (body : QM A) q h :
  l ∉ q_held q →
  with_lock l body (q, h) =
  match body (q_set_held (l :: q_held q) q, h) with
  | (Ok a, (q', h')) => (Ok a, (q_set_held (filter (λ l', l' ≠ l) (q_held q')) q', h'))
  | (Err e, s) => (Err e, s)
  | (Panic, s) => (Panic, s)
  | (Hang, s) => (Hang, s)
  end.
Proof.
  intros Hl. unfold with_lock, mbindM, get_queue. rewrite decide_False by done. unfold mod_queue.
  destruct (body _) as [[a|e| |] [q' h']]; done.
Qed.

Lemma remove_from_ok l pid q h :
  q_held q = [] → l ≠ LCurrent →
  ∃ xs, remove_from l pid (q, h) = (Ok (bool_decide (pid ∈ q_list l q)), (q_set_list l xs q, h)) ∧
    (pid ∉ q_list l q → xs = q_list l q).
Proof.
  intros Hh Hl. unfold remove_from. rewrite with_lock_free by (rewrite Hh; set_solver). unfold mbindM, get_queue.
  assert (q_list l (q_set_held (l :: q_held q) q) = q_list l q) as -> by (by destruct l).
  destruct (find_index _ (q_list l q)) as [pos|] eqn:E.
  - exists (delete pos (q_list l q)). assert (pid ∈ q_list l q) as Hin.
    { destruct (decide (pid ∈ q_list l q)) as [|Hn]; [done|]. apply find_index_pid in Hn. congruence. }
    rewrite bool_decide_eq_true_2 by done. split; [|done]. unfold mod_queue, mok. destruct q. cbn in Hh. subst. destruct l; done.
  - exists (q_list l q). apply find_index_pid in E. rewrite bool_decide_eq_false_2 by done. split; [|done].
    destruct q. cbn in Hh. subst. destruct l; done.
Qed.

(** The last part of [remove_process], with the results of the four queues. *)
Definition remove_current (pid : Z) (found : bool) : QM bool :=
  with_lock LCurrent (
    let! q := get_queue in
    let is_current := match q_current q with Some c => c =? pid | None => false end in
    let! _ := (if is_current then mod_queue (q_set_current None) else mok tt) in
    let removed := found || is_current in
    let! _ := (if removed then update_load else mok tt) in
    mok removed).

Lemma remove_process_queues pid q h :
  q_held q = [] →
  ∃ q', q_held q' = [] ∧ q_current q' = q_current q ∧
    (pid ∉ queued q → q' = q) ∧
    remove_process pid (q, h) = remove_current pid (bool_decide (pid ∈ queued q)) (q', h).
Proof.
  intros Hh.
  destruct (remove_from_ok LReady pid q h Hh) as (x1 & E1 & U1); [done|]. set (q1 := q_set_list LReady x1 q) in *.
  destruct (remove_from_ok LHigh pid q1 h Hh) as (x2 & E2 & U2); [done|]. set (q2 := q_set_list LHigh x2 q1) in *.
  destruct (remove_from_ok LNormal pid q2 h Hh) as (x3 & E3 & U3); [done|]. set (q3 := q_set_list LNormal x3 q2) in *.
  destruct (remove_from_ok LLow pid q3 h Hh) as (x4 & E4 & U4); [done|]. set (q4 := q_set_list LLow x4 q3) in *.
  change (q_list LReady q) with (q_ready q) in *. change (q_list LHigh q1) with (q_high q) in *.
  change (q_list LNormal q2) with (q_normal q) in *. change (q_list LLow q3) with (q_low q) in *.
  exists q4. split; [done|]. split; [done|]. split.
  - unfold queued. rewrite !not_elem_of_app. intros (H1 & H2 & H3 & H4). unfold q4, q3, q2, q1. rewrite (U1 H1), (U2 H2), (U3 H3), (U4 H4). by destruct q.
  - unfold remove_process. rewrite (bind_ok _ _ _ _ _ E1), (bind_ok _ _ _ _ _ E2), (bind_ok _ _ _ _ _ E3), (bind_ok _ _ _ _ _ E4).
    unfold remove_current. f_equal. f_equal.
    assert (bool_decide (pid ∈ queued q) =
      bool_decide (pid ∈ q_ready q) || bool_decide (pid ∈ q_high q) || bool_decide (pid ∈ q_normal q) || bool_decide (pid ∈ q_low q)) as ->; [|done].
    rewrite <-!bool_decide_or. apply bool_decide_ext. unfold queued. rewrite !elem_of_app. clear. tauto.
Qed.

Lemma remove_current_absent pid q h :
  q_held q = [] → q_current q ≠ Some pid → remove_current pid false (q, h) = (Ok false, (q, h)).
Proof.
  intros Hh Hc. unfold remove_current. rewrite with_lock_free by (rewrite Hh; set_solver). rewrite Hh.
  unfold mbindM, get_queue. cbn [q_current q_set_held].
  assert (match q_current q with Some c => c =? pid | None => false end = false) as ->.
  { destruct (q_current q) as [c|]; [|done]. apply Z.eqb_neq. congruence. }
  cbn. destruct q. cbn in Hh. by subst.
Qed.

Lemma remove_current_hangs pid found q h :
  q_held q = [] → found = true ∨ q_current q = Some pid → (remove_current pid found (q, h)).1 = Hang.
Proof.
  intros Hh Hc. unfold remove_current. rewrite with_lock_free by (rewrite Hh; set_solver). rewrite Hh.
  unfold mbindM, get_queue. cbn [q_current q_set_held].
  set (c := match q_current q with Some c => c =? pid | None => false end).
  assert (found || c = true) as Hf.
  { destruct Hc as [->|Hc]; [done|]. unfold c. rewrite Hc, Z.eqb_refl. apply orb_true_r. }
  rewrite Hf. destruct c; unfold mod_queue, mok.
  - pose proof (update_load_hangs LCurrent (q_set_current None (q_set_held [LCurrent] q)) h eq_refl) as Hu.
    destruct (update_load _) as [r [q'' h'']]. cbn in Hu. by subst r.
  - pose proof (update_load_hangs LCurrent (q_set_held [LCurrent] q) h eq_refl) as Hu.
    destruct (update_load _) as [r [q'' h'']]. cbn in Hu. by subst r.
Qed.

Lemma elem_of_members pid q :
  pid ∈ members q ↔ pid ∈ queued q ∨ q_current q = Some pid.
Proof.
  unfold members. rewrite elem_of_app. destruct (q_current q) as [c|].
  - change (option_list (Some c)) with [c]. rewrite list_elem_of_singleton.
    assert (Some c = Some pid ↔ pid = c) as -> by (split; congruence). tauto.
  - change (option_list (@None Z)) with (@nil Z). rewrite elem_of_nil.
    assert (None = Some pid ↔ False) as -> by (split; [discriminate|tauto]). tauto.
Qed.

(** Removing a process that is there never returns: the lock of the current process is held when the load
    is updated. Otherwise nothing changes. *)
Lemma remove_process_absent pid q h :
  q_held q = [] → pid ∉ members q → remove_process pid (q, h) = (Ok false, (q, h)).
Proof.
  intros Hh Hn. rewrite elem_of_members in Hn. destruct (remove_process_queues pid q h Hh) as (q' & _ & _ & Hq & ->).
  rewrite bool_decide_eq_false_2 by tauto. rewrite Hq by tauto. apply remove_current_absent; tauto.
Qed.

Lemma remove_process_present pid q h :
  q_held q = [] → pid ∈ members q → (remove_process pid (q, h)).1 = Hang.
Proof.
  intros Hh [Hin|Hc]%elem_of_members; destruct (remove_process_queues pid q h Hh) as (q' & Hh' & Hc' & _ & ->);
    apply remove_current_hangs; try done.
  - left. by apply bool_decide_eq_true_2.
  - right. by rewrite Hc'.
Qed.

(** ** Choosing the next process *)
Definition run_proc (p : Process) : Process := increment_context_switches (set_state Running p).

Definition switched (q : CpuRunQueue) : CpuRunQueue :=
  q_set_stats (q_load q) (wrap64 (q_switches q + 1)) (q_idle q) (q_active q) (q_last_tick q) q.

Lemma start_running_ok pid p q h :
  h !! pid = Some p → start_running pid (q, h) = (Ok tt, (q, <[pid := run_proc p]> h)).
Proof.
  intros Hp. unfold start_running. rewrite (bind_ok _ _ _ tt (q, <[pid := set_state Running p]> h)) by (unfold mod_proc; by rewrite Hp).
  unfold mod_proc. by rewrite lookup_insert_eq, insert_insert_eq.
Qed.

(** The first process of the queues [ls], with its queue. *)
Fixpoint first_of (ls : list QLock) (q : CpuRunQueue) : option (QLock * Z * list Z) :=
  match ls with
  | [] => None
  | l :: ls => match q_list l q with
               | pid :: rest => Some (l, pid, rest)
               | [] => first_of ls q
               end
  end.

Lemma first_of_spec ls q l pid rest :
  first_of ls q = Some (l, pid, rest) → l ∈ ls ∧ q_list l q = pid :: rest.
Proof.
  induction ls as [|l' ls IH]; cbn; [done|]. destruct (q_list l' q) as [|x xs] eqn:E.
  - intros [? ?]%IH. split; [by right|done].
  - intros [= -> -> ->]. split; [left|done].
Qed.

Lemma release_lock l (held : list QLock) : l ∉ held → filter (λ l', l' ≠ l) (l :: held) = held.
Proof.
  intros Hl. rewrite filter_cons_False by naive_solver. induction held as [|x held IH]; [done|].
  apply not_elem_of_cons in Hl as [Hne Hl]. rewrite filter_cons_True by done. by rewrite IH.
Qed.

Lemma pop_front_ok l q h :
  pop_front l (q, h) =
  match q_list l q with
  | [] => (Ok None, (q, h))
  | pid :: rest => (Ok (Some pid), (q_set_list l rest q, h))
  end.
Proof. unfold pop_front, mbindM, get_queue. by destruct (q_list l q). Qed.

Lemma pop_front_locked l held q h :
  q_held q = held → l ∉ held → l ≠ LCurrent →
  with_lock l (pop_front l) (q, h) =
  match q_list l q with
  | [] => (Ok None, (q, h))
  | pid :: rest => (Ok (Some pid), (q_set_list l rest q, h))
  end.
Proof.
  intros <- Hl Hc. rewrite with_lock_free by done. unfold pop_front, mbindM, get_queue.
  assert (q_list l (q_set_held (l :: q_held q) q) = q_list l q) as -> by (by destruct l).
  destruct (q_list l q) as [|pid rest]; unfold mod_queue, mok; cbn [q_held q_set_held].
  - rewrite release_lock by done. by destruct q.
  - assert (q_held (q_set_list l rest (q_set_held (l :: q_held q) q)) = l :: q_held q) as -> by (by destruct l).
    rewrite release_lock by done. by destruct q, l.
Qed.

Lemma get_next_ready_ok held q h :
  q_held q = held → (∀ l, l ≠ LCurrent → l ∉ held) →
  get_next_ready_process (q, h) =
  match first_of [LHigh; LNormal; LLow; LReady] q with
  | Some (l, pid, rest) => (Ok (Some pid), (q_set_list l rest q, h))
  | None => (Ok None, (q, h))
  end.
Proof.
  intros Hh Hl. unfold get_next_ready_process, mbindM. cbn [first_of].
  rewrite (pop_front_locked LHigh held) by (done || by apply Hl). destruct (q_list LHigh q); [|done].
  rewrite (pop_front_locked LNormal held) by (done || by apply Hl). destruct (q_list LNormal q); [|done].
  rewrite (pop_front_locked LLow held) by (done || by apply Hl). destruct (q_list LLow q); [|done].
  rewrite (pop_front_locked LReady held) by (done || by apply Hl). by destruct (q_list LReady q).
Qed.

(** The outcomes of a scheduling decision: the current process goes on, there is nothing to run, a queued
    process becomes the current one, or a process is taken from its queue and returned as it is. *)
Inductive decision (q : CpuRunQueue) (h : Heap) : option Z → CpuRunQueue → Heap → Prop :=
  | d_continue pid : q_current q = Some pid → decision q h (Some pid) q h
  | d_idle : decision q h None q h
  | d_switch l pid rest p : l ≠ LCurrent → q_list l q = pid :: rest → h !! pid = Some p →
      decision q h (Some pid) (switched (q_set_current (Some pid) (q_set_list l rest q))) (<[pid := run_proc p]> h)
  | d_take l pid rest : l ≠ LCurrent → q_list l q = pid :: rest → decision q h (Some pid) (q_set_list l rest q) h.

Lemma round_robin_decision q h :
  q_held q = [] → (∀ pid, pid ∈ members q → is_Some (h !! pid)) →
  ∃ r q' h', round_robin_schedule (q, h) = (Ok r, (q', h')) ∧ decision q h r q' h' ∧
    match q_current q with
    | Some pid => p_state <$> h !! pid = Some Running → r = Some pid
    | None => r = snd ∘ fst <$> first_of [LHigh; LNormal; LLow; LReady] q
    end.
Proof.
  intros Hh Hm. unfold round_robin_schedule. rewrite with_lock_free by (rewrite Hh; set_solver). rewrite Hh.
  unfold mbindM at 1, get_queue. cbn [q_current q_set_held].
  set (q0 := q_set_held [LCurrent] q).
  assert (∃ b : bool, (match q_current q with
     | Some pid => let! p := get_proc pid in mok (bool_decide (p_state p = Running)) | None => mok false end : QM bool) (q0, h) = (Ok b, (q0, h)) ∧
     match q_current q with Some pid => p_state <$> h !! pid = Some Running → b = true | None => b = false end) as (b & Eb & Hb).
  { destruct (q_current q) as [pid|] eqn:Ec; [|by exists false].
    destruct (Hm pid) as [p Hp]; [apply elem_of_members; by right|].
    exists (bool_decide (p_state p = Running)). unfold mbindM, get_proc. rewrite Hp. split; [done|].
    intros [= E]. by rewrite E. }
  rewrite (bind_ok _ _ _ _ _ Eb). destruct b.
  { destruct (q_current q) as [pid|] eqn:Ec; [|done]. unfold mok.
    eexists _, _, _. split; [done|]. cbn [q_held q_set_held q0]. rewrite release_lock by set_solver.
    replace (q_set_held [] q0) with q by (destruct q; cbn in *; by subst). split; [by constructor|done]. }
  assert (get_next_ready_process (q0, h) = match first_of [LHigh; LNormal; LLow; LReady] q with
     | Some (l, pid, rest) => (Ok (Some pid), (q_set_list l rest q0, h)) | None => (Ok None, (q0, h)) end) as Eg.
  { rewrite (get_next_ready_ok [LCurrent]) by (done || set_solver). done. }
  destruct (first_of _ q) as [[[l pid] rest]|] eqn:Ef; rewrite (bind_ok _ _ _ _ _ Eg).
  - apply first_of_spec in Ef as [Hl El]. assert (l ≠ LCurrent) as Hlc by (intros ->; set_solver).
    destruct (Hm pid) as [p Hp]; [apply elem_of_members; left; by eapply head_queued|].
    rewrite (bind_ok _ _ _ _ _ (start_running_ok pid p _ h Hp)). unfold mbindM, mod_queue, count_switch, mok.
    eexists _, _, _. split; [done|]. split; [|destruct (q_current q) eqn:Ec; [|done]].
    + replace (q_set_held _ _) with (switched (q_set_current (Some pid) (q_set_list l rest q))); [by apply (d_switch _ _ l)|].
      destruct q. cbn in Hh. subst. by destruct l.
    + intros Hr. by apply Hb in Hr.
  - unfold mok. eexists _, _, _. split; [done|]. cbn [q_held q_set_held q0]. rewrite release_lock by set_solver.
    replace (q_set_held [] q0) with q by (destruct q; cbn in *; by subst). split; [constructor|].
    destruct (q_current q); [|done]. intros Hr. by apply Hb in Hr.
Qed.

(** One level of [priority_schedule]. *)
Lemma schedule_from_ok l q h :
  q_held q = [] → l ≠ LCurrent → (∀ pid, pid ∈ members q → is_Some (h !! pid)) →
  match q_list l q with
  | [] => schedule_from l (q, h) = (Ok None, (q, h))
  | pid :: rest => ∃ p, h !! pid = Some p ∧ schedule_from l (q, h) =
      (Ok (Some pid), (switched (q_set_current (Some pid) (q_set_list l rest q)), <[pid := run_proc p]> h))
  end.
Proof.
  intros Hh Hl Hm. unfold schedule_from. rewrite with_lock_free by (rewrite Hh; set_solver). rewrite Hh.
  pose proof (pop_front_ok l (q_set_held [l] q) h) as Ep.
  replace (q_list l (q_set_held [l] q)) with (q_list l q) in Ep by (by destruct l).
  destruct (q_list l q) as [|pid rest] eqn:E; rewrite (bind_ok _ _ _ _ _ Ep).
  { unfold mok. cbn [q_held q_set_held]. rewrite release_lock by set_solver. do 2 f_equal. destruct q. cbn in Hh. by subst. }
  destruct (Hm pid) as [p Hp]; [apply elem_of_members; left; by eapply head_queued|]. exists p. split; [done|].
  rewrite (bind_ok _ _ _ _ _ (start_running_ok pid p _ h Hp)). destruct q. cbn in Hh. subst. by destruct l.
Qed.

Lemma priority_decision q h :
  q_held q = [] → (∀ pid, pid ∈ members q → is_Some (h !! pid)) →
  ∃ q' h', priority_schedule (q, h) = (Ok (snd ∘ fst <$> first_of [LHigh; LNormal; LLow] q), (q', h')) ∧
    decision q h (snd ∘ fst <$> first_of [LHigh; LNormal; LLow] q) q' h' ∧
    ∀ l pid rest, first_of [LHigh; LNormal; LLow] q = Some (l, pid, rest) →
      q' = switched (q_set_current (Some pid) (q_set_list l rest q)).
Proof.
  intros Hh Hm. unfold priority_schedule. cbn [first_of].
  assert (∀ l pid rest, l ≠ LCurrent → q_list l q = pid :: rest → ∃ q' h', schedule_from l (q, h) = (Ok (Some pid), (q', h')) ∧
    decision q h (Some pid) q' h' ∧ q' = switched (q_set_current (Some pid) (q_set_list l rest q))) as Hs.
  { intros l pid rest Hl E. pose proof (schedule_from_ok l q h Hh Hl Hm) as H. rewrite E in H. destruct H as (p & Hp & ->).
    eexists _, _. split; [done|]. split; [by apply (d_switch _ _ l)|done]. }
  assert (∀ l, l ≠ LCurrent → q_list l q = [] → schedule_from l (q, h) = (Ok None, (q, h))) as Hn.
  { intros l Hl E. pose proof (schedule_from_ok l q h Hh Hl Hm) as H. by rewrite E in H. }
  destruct (q_list LHigh q) as [|pid rest] eqn:E1.
  2: { destruct (Hs LHigh pid rest) as (q' & h' & E & Hd & Hq); [done..|]. exists q', h'. rewrite (bind_ok _ _ _ _ _ E).
       split; [done|]. split; [done|]. by intros ? ? ? [= <- <- <-]. }
  rewrite (bind_ok _ _ _ _ _ (Hn LHigh ltac:(done) E1)). destruct (q_list LNormal q) as [|pid rest] eqn:E2.
  2: { destruct (Hs LNormal pid rest) as (q' & h' & E & Hd & Hq); [done..|]. exists q', h'. rewrite (bind_ok _ _ _ _ _ E).
       split; [done|]. split; [done|]. by intros ? ? ? [= <- <- <-]. }
  rewrite (bind_ok _ _ _ _ _ (Hn LNormal ltac:(done) E2)). destruct (q_list LLow q) as [|pid rest] eqn:E3.
  2: { destruct (Hs LLow pid rest) as (q' & h' & E & Hd & Hq); [done..|]. exists q', h'. rewrite E.
       split; [done|]. split; [done|]. by intros ? ? ? [= <- <- <-]. }
  rewrite (Hn LLow ltac:(done) E3). exists q, h. split; [done|]. split; [constructor|done].
Qed.

Lemma realtime_decision q h :
  q_held q = [] → (∀ pid, pid ∈ members q → is_Some (h !! pid)) →
  ∃ r q' h', realtime_schedule (q, h) = (Ok r, (q', h')) ∧ decision q h r q' h'.
Proof.
  intros Hh Hm. unfold realtime_schedule. rewrite with_lock_free by (rewrite Hh; set_solver). rewrite Hh.
  unfold mbindM at 1, get_queue. cbn [q_current q_set_held]. set (q0 := q_set_held [LCurrent] q).
  assert (∃ cur, (match q_current q with Some pid => let! p := get_proc pid in mok (Some p) | None => mok None end : QM (option Process)) (q0, h)
      = (Ok cur, (q0, h)) ∧ (q_current q = None → cur = None)) as (cur & Ec & Hcur).
  { destruct (q_current q) as [pid|] eqn:Ec; [|by exists None]. destruct (Hm pid) as [p Hp]; [apply elem_of_members; by right|].
    exists (Some p). unfold mbindM, get_proc. by rewrite Hp. }
  rewrite (bind_ok _ _ _ _ _ Ec).
  set (running := match cur with Some p => bool_decide (p_state p = Running) | None => false end).
  set (high := match cur with Some p => bool_decide (128 ≤ p_priority p) | None => false end).
  assert (∀ b, running = true → b = true → ∃ pid, q_current q = Some pid) as Hrun.
  { intros b Hr _. unfold running in Hr. destruct (q_current q) eqn:E; [by eexists|]. by rewrite Hcur in Hr. }
  assert (q_set_held (filter (λ l', l' ≠ LCurrent) (q_held q0)) q0 = q) as Hrel.
  { cbn [q_held q0 q_set_held]. rewrite release_lock by set_solver. destruct q. cbn in Hh. by subst. }
  destruct (high && running) eqn:Eb.
  { apply andb_true_iff in Eb as [_ Hr]. destruct (Hrun true Hr eq_refl) as [pid Ep]. rewrite Ep. unfold mok. rewrite Hrel.
    eexists _, _, _. split; [done|]. by constructor. }
  unfold mbindM at 1. rewrite with_lock_free by (cbn; set_solver).
  pose proof (pop_front_ok LHigh (q_set_held (LHigh :: q_held q0) q0) h) as Epop.
  change (q_list LHigh (q_set_held (LHigh :: q_held q0) q0)) with (q_high q) in Epop.
  destruct (q_high q) as [|pid rest] eqn:Eh; rewrite (bind_ok _ _ _ _ _ Epop).
  - unfold mok at 1. cbn [q_held q_set_held q0].
    replace (q_set_held _ (q_set_held _ q0)) with q0 by (destruct q; cbn in Hh; subst; reflexivity).
    destruct running eqn:Er.
    + destruct (Hrun true eq_refl eq_refl) as [pid Ep]. rewrite Ep. unfold mok. rewrite Hrel.
      eexists _, _, _. split; [done|]. by constructor.
    + rewrite (get_next_ready_ok [LCurrent]) by (done || set_solver). destruct (first_of _ q0) as [[[l pid] rest]|] eqn:Ef.
      * apply first_of_spec in Ef as [Hl El]. assert (l ≠ LCurrent) as Hlc by (intros ->; set_solver).
        eexists _, _, _. split; [done|]. replace (q_set_held _ _) with (q_set_list l rest q); [apply (d_take _ _ l); [done|by destruct l]|].
        destruct q. cbn in Hh. subst. by destruct l.
      * rewrite Hrel. eexists _, _, _. split; [done|]. constructor.
  - destruct (Hm pid) as [p Hp]; [apply elem_of_members; left; by apply (head_queued pid LHigh rest)|].
    rewrite (bind_ok _ _ _ _ _ (start_running_ok pid p _ h Hp)).
    eexists _, _, _. split; [reflexivity|].
    replace (q_set_held _ _) with (switched (q_set_current (Some pid) (q_set_list LHigh rest q))).
    + by apply (d_switch _ _ LHigh).
    + destruct q. cbn in Hh. by subst.
Qed.

Lemma get_next_process_decision pol q h :
  q_held q = [] → (∀ pid, pid ∈ members q → is_Some (h !! pid)) →
  ∃ r q' h', get_next_process pol (q, h) = (Ok r, (q', h')) ∧ decision q h r q' h'.
Proof.
  intros Hh Hm. destruct pol; cbn [get_next_process].
  - destruct (round_robin_decision q h Hh Hm) as (r & q' & h' & E & Hd & _). by exists r, q', h'.
  - destruct (priority_decision q h Hh Hm) as (q' & h' & E & Hd & _). by eexists _, q', h'.
  - by apply realtime_decision.
Qed.

(** ** Preemption, stealing, ageing *)
Lemma preempt_idle q h : q_held q = [] → q_current q = None → preempt_current (q, h) = (Ok tt, (q, h)).
Proof. intros Hh Hc. destruct q. cbn in Hh, Hc. by subst. Qed.

(** Preempting a running process never returns: it is queued again with the lock of the current process held. *)
Lemma preempt_running q h pid p :
  q_held q = [] → q_current q = Some pid → h !! pid = Some p → p_state p = Running → (preempt_current (q, h)).1 = Hang.
Proof.
  intros Hh Hc Hp Hr. unfold preempt_current. rewrite with_lock_free by (rewrite Hh; set_solver). rewrite Hh.
  unfold mbindM at 1, get_queue. cbn [q_current q_set_held]. rewrite Hc. unfold mbindM at 1, mod_queue.
  unfold mbindM at 1, get_proc. rewrite Hp. rewrite bool_decide_eq_true_2 by done.
  unfold mbindM at 1, mod_proc. rewrite Hp.
  pose proof (add_process_hangs pid (set_state Ready p) (q_set_current None (q_set_held [LCurrent] q)) (<[pid := set_state Ready p]> h)
    eq_refl ltac:(apply lookup_insert_eq)) as Ha.
  destruct (add_process pid _) as [r [q' h']]. cbn in Ha. by subst r.
Qed.

Lemma steal_from_ok l q h :
  q_held q = [] → l ≠ LCurrent →
  (q_list l q = [] → steal_from l (q, h) = (Ok None, (q, h))) ∧ (q_list l q ≠ [] → (steal_from l (q, h)).1 = Hang).
Proof.
  intros Hh Hl. unfold steal_from. rewrite with_lock_free by (rewrite Hh; set_solver). rewrite Hh.
  pose proof (pop_front_ok l (q_set_held [l] q) h) as Ep.
  replace (q_list l (q_set_held [l] q)) with (q_list l q) in Ep by (by destruct l).
  destruct (q_list l q) as [|pid rest] eqn:E; rewrite (bind_ok _ _ _ _ _ Ep); (split; intros Hq; [try discriminate Hq|try done]).
  - unfold mok. cbn [q_held q_set_held]. rewrite release_lock by set_solver. do 2 f_equal. destruct q. cbn in Hh. by subst.
  - pose proof (update_load_hangs l (q_set_list l rest (q_set_held [l] q)) h ltac:(by destruct l)) as Hu. unfold mbindM.
    destruct (update_load _) as [r [q' h']]. cbn in Hu. by subst r.
Qed.

Lemma steal_process_ok q h :
  q_held q = [] →
  (q_low q ++ q_normal q ++ q_high q = [] → steal_process (q, h) = (Ok None, (q, h))) ∧
  (q_low q ++ q_normal q ++ q_high q ≠ [] → (steal_process (q, h)).1 = Hang).
Proof.
  intros Hh. unfold steal_process.
  destruct (steal_from_ok LLow q h Hh) as [L1 L2], (steal_from_ok LNormal q h Hh) as [N1 N2], (steal_from_ok LHigh q h Hh) as [H1 H2]; [done..|].
  cbn [q_list] in *. destruct (q_low q); [rewrite (bind_ok _ _ _ _ _ (L1 eq_refl))|].
  2: { split; [done|]. intros _. apply bind_hang. by apply L2. }
  destruct (q_normal q); [rewrite (bind_ok _ _ _ _ _ (N1 eq_refl))|].
  2: { split; [done|]. intros _. apply bind_hang. by apply N2. }
  destruct (q_high q); [by split|]. split; [done|]. intros _. by apply H2.
Qed.

(** The queue after a tick: one waiting low-priority process may have moved up. *)
Inductive aged (q : CpuRunQueue) : CpuRunQueue → Prop :=
  | aged_same : aged q q
  | aged_up pid rest : q_low q = pid :: rest → aged q (q_set_list LNormal (q_normal q ++ [pid]) (q_set_list LLow rest q)).

Definition ticked (tick : Z) (q : CpuRunQueue) : CpuRunQueue :=
  q_set_stats (q_load q) (q_switches q) (match q_current q with Some _ => q_idle q | None => wrap64 (q_idle q + 1) end)
    (match q_current q with Some _ => wrap64 (q_active q + 1) | None => q_active q end) tick q.

Lemma queue_timer_tick_ok tick q h :
  q_held q = [] → ∃ q', queue_timer_tick tick (q, h) = (Ok tt, (q', h)) ∧ aged (ticked tick q) q'.
Proof.
  intros Hh. destruct q as [i rd c hi no lo ld sw id ac lt held]. cbn in Hh. subst held.
  assert (∀ q, q_held q = [] → q_last_tick q = tick → ∃ q', age_processes (q, h) = (Ok tt, (q', h)) ∧ aged q q') as Hage.
  { clear. intros q Hh Ht. destruct q as [i rd c hi no lo ld sw id ac lt held]. cbn in Hh, Ht. subst held lt.
    unfold age_processes. rewrite with_lock_free by (cbn; set_solver). rewrite with_lock_free by (cbn; set_solver).
    unfold mbindM at 1, get_queue. cbn [q_last_tick q_set_held q_held].
    set (Q := mkQueue i rd c hi no lo ld sw id ac tick []).
    destruct (tick `mod` 100 =? 0); [|exists Q; split; [reflexivity|apply aged_same]].
    destruct lo as [|pid lo]; [exists Q; split; [reflexivity|apply aged_same]|].
    exists (q_set_list LNormal (q_normal Q ++ [pid]) (q_set_list LLow lo Q)). split; [reflexivity|by apply aged_up]. }
  unfold queue_timer_tick. destruct c as [c|].
  - destruct (Hage (mkQueue i rd (Some c) hi no lo ld sw id (wrap64 (ac + 1)) tick []) eq_refl eq_refl) as (q' & E & Ha).
    exists q'. split; [exact E|exact Ha].
  - destruct (Hage (mkQueue i rd None hi no lo ld sw (wrap64 (id + 1)) ac tick []) eq_refl eq_refl) as (q' & E & Ha).
    exists q'. split; [exact E|exact Ha].
Qed.

(** ** The invariant of a run queue *)
Record queue_inv (i : Z) (q : CpuRunQueue) (h : Heap) : Prop := {
  qi_cpu : q_cpu_id q = i;
  qi_held : q_held q = [];
  qi_load : 0 ≤ q_load q;
  qi_nodup : NoDup (members q);
  qi_queued : ∀ pid, pid ∈ queued q → ∃ p, h !! pid = Some p ∧ p_state p = Ready ∧ p_assigned_cpu p = i;
  qi_current : ∀ pid, q_current q = Some pid → ∃ p, h !! pid = Some p ∧ p_state p = Running ∧ p_assigned_cpu p = i;
}.

Lemma qi_member i q h pid :
  queue_inv i q h → pid ∈ members q →
  ∃ p, h !! pid = Some p ∧ p_assigned_cpu p = i ∧ (p_state p = Ready ∨ p_state p = Running).
Proof.
  intros Hq [Hin|Hc]%elem_of_members.
  - destruct (qi_queued _ _ _ Hq pid Hin) as (p & ? & ? & ?). exists p. auto.
  - destruct (qi_current _ _ _ Hq pid Hc) as (p & ? & ? & ?). exists p. auto.
Qed.

(** Only the processes in [P] may have changed, and none appeared or went. *)
Record heap_step (P : Z → Prop) (h h' : Heap) : Prop := {
  hs_same : ∀ pid, ¬ P pid → h' !! pid = h !! pid;
  hs_kept : ∀ pid p, h !! pid = Some p → ∃ p', h' !! pid = Some p' ∧ p_id p' = p_id p ∧ (0 ≤ p_assigned_cpu p → 0 ≤ p_assigned_cpu p');
  hs_old : ∀ pid, is_Some (h' !! pid) → is_Some (h !! pid);
}.

Lemma heap_step_refl P h : heap_step P h h.
Proof. split; [done| |done]. intros pid p Hp. by exists p. Qed.

Lemma heap_step_insert (P : Z → Prop) h pid p p' :
  h !! pid = Some p → P pid → p_id p' = p_id p → (0 ≤ p_assigned_cpu p → 0 ≤ p_assigned_cpu p') → heap_step P h (<[pid := p']> h).
Proof.
  intros Hp Hi Hid Has. split.
  - intros pid' Hne. rewrite lookup_insert_ne; [done|]. by intros <-.
  - intros pid' p0 H0. destruct (decide (pid = pid')) as [<-|Hne].
    + rewrite lookup_insert_eq. exists p'. rewrite Hp in H0. injection H0 as <-. done.
    + rewrite lookup_insert_ne by done. by exists p0.
  - intros pid'. destruct (decide (pid = pid')) as [<-|Hne]; [by eexists|]. by rewrite lookup_insert_ne.
Qed.

Lemma queue_inv_other P i q h h' :
  heap_step P h h' → (∀ pid, pid ∈ members q → ¬ P pid) → queue_inv i q h → queue_inv i q h'.
Proof.
  intros Hs HP [H1 H2 H0 H3 H4 H5]. split; try done; intros pid Hin; rewrite (hs_same _ _ _ Hs).
  - by apply H4.
  - apply HP, elem_of_members. by left.
  - by apply H5.
  - apply HP, elem_of_members. by right.
Qed.

(** The lists of a queue without the head of one of them. *)
Lemma queued_pop l pid rest q :
  l ≠ LCurrent → q_list l q = pid :: rest → queued q ≡ₚ pid :: queued (q_set_list l rest q).
Proof.
  intros Hl E. unfold queued. destruct l; [..|done]; cbn [q_list q_set_list q_ready q_high q_normal q_low] in *; rewrite E; cbn [app]; solve_Permutation.
Qed.

Lemma queued_push l pid q : l ≠ LCurrent → queued (q_set_list l (q_list l q ++ [pid]) q) ≡ₚ pid :: queued q.
Proof.
  intros Hl. unfold queued. destruct l; [..|done]; cbn [q_list q_set_list q_ready q_high q_normal q_low]; solve_Permutation.
Qed.

(** Statistics do not matter to the invariant. *)
Lemma queue_inv_stats i q h a b c d e : 0 ≤ a → queue_inv i q h → queue_inv i (q_set_stats a b c d e q) h.
Proof. intros Ha [H1 H2 H0 H3 H4 H5]. by split. Qed.

Lemma members_current q : members q ≡ₚ option_list (q_current q) ++ queued q.
Proof. unfold members. apply Permutation_app_comm. Qed.

Lemma queue_inv_pushed i q h pid p :
  queue_inv i q h → h !! pid = Some p → p_state p = Ready → pid ∉ members q →
  queue_inv i (pushed pid (p_priority p) q) (<[pid := set_assigned_cpu i p]> h).
Proof.
  intros [H1 H2 H0 H3 H4 H5] Hp Hr Hn. unfold pushed, with_load. set (l := priority_queue (p_priority p)).
  assert (l ≠ LCurrent) as Hl by (unfold l, priority_queue; repeat case_bool_decide; done).
  set (q1 := q_set_list l (q_list l q ++ [pid]) q).
  assert (q_current q1 = q_current q) as Ec by (unfold q1; by destruct l).
  assert (queued q1 ≡ₚ pid :: queued q) as Eq by (by apply queued_push).
  apply queue_inv_stats; [by apply Z.mod_pos_bound|]. split.
  - rewrite <-H1. unfold q1. by destruct l.
  - rewrite <-H2. unfold q1. by destruct l.
  - unfold q1. by destruct l.
  - rewrite members_current, Ec, Eq, <-Permutation_middle. constructor; [|by rewrite <-members_current].
    by rewrite <-members_current.
  - intros pid'. rewrite Eq, elem_of_cons. destruct (decide (pid' = pid)) as [->|Hne].
    + intros _. rewrite lookup_insert_eq. by eexists.
    + intros [?|Hin]; [done|]. rewrite lookup_insert_ne by done. by apply H4.
  - intros pid'. rewrite Ec. intros Hc. rewrite lookup_insert_ne; [by apply H5|].
    intros <-. apply Hn. apply elem_of_members. by right.
Qed.

Lemma decision_inv i q h r q' h' :
  queue_inv i q h → decision q h r q' h' → queue_inv i q' h' ∧ heap_step (λ pid, pid ∈ members q) h h'.
Proof.
  intros Hq Hd. pose proof Hq as [H1 H2 H0 H3 H4 H5]. destruct Hd as [pid Hc| |l pid rest p Hl E Hp|l pid rest Hl E].
  - split; [done|apply heap_step_refl].
  - split; [done|apply heap_step_refl].
  - assert (pid ∈ queued q) as Hin by (by eapply head_queued). destruct (H4 pid Hin) as (p' & Hp' & Hr & Ha).
    rewrite Hp in Hp'. injection Hp' as <-. split; [|apply (heap_step_insert _ _ _ p); [done|apply elem_of_members; by left|done|done]].
    pose proof (queued_pop l pid rest q Hl E) as Eq. unfold members in H3. rewrite Eq in H3. cbn [app] in H3.
    apply NoDup_cons in H3 as [Hnin Hnd]. rewrite elem_of_app in Hnin. apply NoDup_app in Hnd as (Hnd & _ & _).
    apply queue_inv_stats; [by destruct l|]. split.
    + rewrite <-H1. by destruct l.
    + rewrite <-H2. by destruct l.
    + by destruct l.
    + rewrite members_current. change (queued (q_set_current (Some pid) (q_set_list l rest q))) with (queued (q_set_list l rest q)).
      change (option_list (q_current (q_set_current (Some pid) (q_set_list l rest q)))) with [pid]. cbn [app].
      constructor; [tauto|done].
    + intros pid' Hin'. change (pid' ∈ queued (q_set_list l rest q)) in Hin'.
      rewrite lookup_insert_ne by (intros <-; tauto). apply H4. rewrite Eq. by right.
    + intros pid' [= <-]. rewrite lookup_insert_eq. exists (run_proc p). by split.
  - split; [|apply heap_step_refl]. pose proof (queued_pop l pid rest q Hl E) as Eq.
    assert (q_current (q_set_list l rest q) = q_current q) as Ec by (by destruct l). split.
    + rewrite <-H1. by destruct l.
    + rewrite <-H2. by destruct l.
    + by destruct l.
    + unfold members in *. rewrite Eq in H3. cbn [app] in H3. apply NoDup_cons in H3 as [_ H3]. by rewrite Ec.
    + intros pid' Hin'. apply H4. rewrite Eq. by right.
    + intros pid'. rewrite Ec. apply H5.
Qed.

Lemma aged_inv i q h q' : queue_inv i q h → aged q q' → queue_inv i q' h.
Proof.
  intros [H1 H2 H0 H3 H4 H5] [|pid rest E]; [done|]. set (q1 := q_set_list LLow rest q).
  pose proof (queued_pop LLow pid rest q ltac:(done) E) as Eq.
  pose proof (queued_push LNormal pid q1 ltac:(done)) as Eq'. fold q1 in Eq.
  change (q_list LNormal q1) with (q_normal q) in Eq'. rewrite <-Eq in Eq'. split; try done.
  - unfold members in *. by rewrite Eq'.
  - intros pid'. rewrite Eq'. apply H4.
Qed.

(** ** The invariant of the scheduler *)
Record sched_data (s : Sched) : Prop := {
  si_queues : ∀ i q, per_cpu_queues s !! i = Some q → queue_inv (Z.of_nat i) q (s_heap s);
  si_heap : ∀ pid p, s_heap s !! pid = Some p → p_id p = pid ∧ 0 ≤ pid < next_pid (s_conf s) ∧ 0 ≤ p_assigned_cpu p;
  si_table : ∀ pid, Some pid ∈ processes s ↔ is_Some (s_heap s !! pid);
  si_unique : NoDup (omap (λ x, x) (processes s));
  si_cpus : 0 ≤ cpu_count (s_conf s);
}.

(** Between operations no lock is held. *)
Definition sched_inv (s : Sched) : Prop := s_locks s = no_locks ∧ sched_data s.

Lemma scheduler_new_inv : sched_inv scheduler_new.
Proof.
  split; [done|]. split; try done.
  - intros pid. split; [by intros ?%elem_of_nil|]. intros [p Hp]. change (s_heap scheduler_new) with (∅ : Heap) in Hp.
    by rewrite lookup_empty in Hp.
  - apply NoDup_nil_2.
Qed.

(** The process of a queue says which queue. *)
Lemma member_queue s i q pid :
  sched_data s → per_cpu_queues s !! i = Some q → pid ∈ members q →
  ∃ p, s_heap s !! pid = Some p ∧ p_assigned_cpu p = Z.of_nat i ∧ (p_state p = Ready ∨ p_state p = Running).
Proof. intros Hs Hq Hin. apply (qi_member _ q); [by apply Hs|done]. Qed.

(** A method of run queue [i] that keeps the queue's invariant. *)
Lemma on_queue_inv {A} P (m : QM A) s i q a q' h' :
  sched_data s → per_cpu_queues s !! Z.to_nat i = Some q → 0 ≤ i → m (q, s_heap s) = (Ok a, (q', h')) →
  queue_inv i q' h' → heap_step P (s_heap s) h' →
  (∀ j qj pid, per_cpu_queues s !! j = Some qj → j ≠ Z.to_nat i → pid ∈ members qj → ¬ P pid) →
  ∃ s', on_queue i m s = (Ok a, s') ∧ sched_data s' ∧ s_conf s' = s_conf s ∧ s_locks s' = s_locks s ∧
    processes s' = processes s ∧ s_heap s' = h' ∧ per_cpu_queues s' = <[Z.to_nat i := q']> (per_cpu_queues s).
Proof.
  intros [L2 L3 L4 L5 L6] Hq Hi Hm Hinv Hst HP. unfold on_queue. rewrite Hq, Hm. eexists. split; [done|]. split; [|done].
  split; cbn [s_locks per_cpu_queues s_heap s_conf processes set_heap set_queues].
  - intros j q0 Hj. destruct (decide (j = Z.to_nat i)) as [->|Hne].
    + rewrite list_lookup_insert_eq in Hj by (by eapply lookup_lt_Some). injection Hj as <-. by rewrite Z2Nat.id.
    + rewrite list_lookup_insert_ne in Hj by done. apply (queue_inv_other P _ _ (s_heap s)); [done| |by apply L2].
      intros pid. by apply (HP j q0).
  - intros pid p' Hp'. destruct (hs_old _ _ _ Hst pid) as [p Hp]; [by eexists|].
    destruct (hs_kept _ _ _ Hst pid p Hp) as (p'' & Hp'' & Hid & Has). rewrite Hp' in Hp''. injection Hp'' as <-.
    destruct (L3 pid p Hp) as (? & ? & ?). split; [congruence|]. split; [done|by apply Has].
  - intros pid. rewrite L4. split; [|apply Hst]. intros [p Hp]. destruct (hs_kept _ _ _ Hst pid p Hp) as (p' & ? & _). by exists p'.
  - done.
  - done.
Qed.

(** Different run queues hold different processes. *)
Lemma members_disjoint s i j q qj pid :
  sched_data s → per_cpu_queues s !! i = Some q → per_cpu_queues s !! j = Some qj → j ≠ i →
  pid ∈ members qj → pid ∉ members q.
Proof.
  intros Hs Hi Hj Hne Hin Hin'. destruct (member_queue s i q pid Hs Hi Hin') as (p & Hp & Ha & _).
  destruct (member_queue s j qj pid Hs Hj Hin) as (p' & Hp' & Ha' & _). rewrite Hp in Hp'. injection Hp' as <-. lia.
Qed.

Lemma on_queue_hang {A} (m : QM A) s i q :
  per_cpu_queues s !! Z.to_nat i = Some q → (m (q, s_heap s)).1 = Hang → (on_queue i m s).1 = Hang.
Proof. intros Hq Hm. unfold on_queue. rewrite Hq. destruct (m _) as [r [q' h']]. cbn in Hm. by subst r. Qed.

(** ** Locks *)
Lemma sched_data_lock l rw s : sched_data (set_lock l rw s) ↔ sched_data s.
Proof. split; intros [H1 H2 H3 H4 H5]; by split. Qed.

Lemma with_write_ok {A} l (body : SM A) s a s' :
  lk_get l (s_locks s) = rw_free → body (set_lock l (mkRw 0 true) s) = (Ok a, s') →
  with_write l body s = (Ok a, set_lock l rw_free s').
Proof. intros Hl Hb. unfold with_write, mbindM, mget, mmod. rewrite Hl. cbn [rw_writer rw_readers rw_free orb negb Nat.eqb]. by rewrite Hb. Qed.

Lemma with_write_hang {A} l (body : SM A) s :
  lk_get l (s_locks s) = rw_free → (body (set_lock l (mkRw 0 true) s)).1 = Hang → (with_write l body s).1 = Hang.
Proof.
  intros Hl Hb. unfold with_write, mbindM, mget, mmod. rewrite Hl. cbn [rw_writer rw_readers rw_free orb negb Nat.eqb].
  destruct (body _) as [r s']. cbn in Hb. by subst r.
Qed.

Lemma with_write_panic {A} l (body : SM A) s :
  lk_get l (s_locks s) = rw_free → (body (set_lock l (mkRw 0 true) s)).1 = Panic → (with_write l body s).1 = Panic.
Proof.
  intros Hl Hb. unfold with_write, mbindM, mget, mmod. rewrite Hl. cbn [rw_writer rw_readers rw_free orb negb Nat.eqb].
  destruct (body _) as [r s']. cbn in Hb. by subst r.
Qed.

Definition read_locked (l : SLock) (s : Sched) : Sched :=
  set_lock l (mkRw (S (rw_readers (lk_get l (s_locks s)))) false) s.
Definition read_released (l : SLock) (s : Sched) : Sched :=
  set_lock l (mkRw (pred (rw_readers (lk_get l (s_locks s)))) (rw_writer (lk_get l (s_locks s)))) s.

Lemma with_read_ok {A} l (body : SM A) s a s' :
  rw_writer (lk_get l (s_locks s)) = false → body (read_locked l s) = (Ok a, s') →
  with_read l body s = (Ok a, read_released l s').
Proof. intros Hl Hb. unfold with_read, mbindM, mget, mmod. rewrite Hl. unfold read_locked in Hb. by rewrite Hb. Qed.

Lemma with_read_hang {A} l (body : SM A) s :
  rw_writer (lk_get l (s_locks s)) = false → (body (read_locked l s)).1 = Hang → (with_read l body s).1 = Hang.
Proof.
  intros Hl Hb. unfold with_read, mbindM, mget, mmod. rewrite Hl. unfold read_locked in Hb. destruct (body _) as [r s'].
  cbn in Hb. by subst r.
Qed.

Lemma with_read_panic {A} l (body : SM A) s :
  rw_writer (lk_get l (s_locks s)) = false → (body (read_locked l s)).1 = Panic → (with_read l body s).1 = Panic.
Proof.
  intros Hl Hb. unfold with_read, mbindM, mget, mmod. rewrite Hl. unfold read_locked in Hb. destruct (body _) as [r s'].
  cbn in Hb. by subst r.
Qed.

Lemma read_locked_same l s s' :
  s_locks s' = s_locks (read_locked l s) → rw_writer (lk_get l (s_locks s)) = false → s_locks (read_released l s') = s_locks s.
Proof.
  destruct s as [? ? ? ? [[] [] []]], s' as [? ? ? ? [[] [] []]]. destruct l; cbn; intros [= -> -> -> -> -> ->] ->; done.
Qed.

(** ** The table *)
Lemma find_index_split {A} (f : A → bool) (l : list A) i :
  find_index f l = Some i → ∃ l1 x l2, l = l1 ++ x :: l2 ∧ length l1 = i ∧ f x = true.
Proof.
  revert i. induction l as [|y l IH]; intros i; cbn; [done|]. destruct (f y) eqn:E.
  - intros [= <-]. by exists [], y, l.
  - destruct (find_index f l) as [k|]; [|done]. intros [= <-]. destruct (IH k eq_refl) as (l1 & x & l2 & -> & <- & Hx).
    by exists (y :: l1), x, l2.
Qed.

Lemma table_insert_cases pid ps :
  (∃ l1 l2, ps = l1 ++ None :: l2 ∧ table_insert pid ps = l1 ++ Some pid :: l2) ∨ table_insert pid ps = ps ++ [Some pid].
Proof.
  unfold table_insert. destruct (find_index _ ps) as [i|] eqn:E; [left|by right].
  apply find_index_split in E as (l1 & [x|] & l2 & -> & <- & Hx); [done|]. exists l1, l2. split; [done|].
  by rewrite insert_app_r_alt, Nat.sub_diag by lia.
Qed.

Lemma table_insert_elem pid ps pid' : Some pid' ∈ table_insert pid ps ↔ pid' = pid ∨ Some pid' ∈ ps.
Proof.
  destruct (table_insert_cases pid ps) as [(l1 & l2 & -> & ->)| ->].
  - rewrite !elem_of_app, !elem_of_cons. naive_solver.
  - rewrite elem_of_app, list_elem_of_singleton. naive_solver.
Qed.

Lemma table_insert_unique pid ps :
  NoDup (omap (λ x, x) ps) → Some pid ∉ ps → NoDup (omap (λ x : option Z, x) (table_insert pid ps)).
Proof.
  intros Hnd Hn. assert (pid ∉ omap (λ x : option Z, x) ps) as Hn'.
  { intros (x & Hx & ->)%list_elem_of_omap. done. }
  assert (omap (λ x : option Z, x) (table_insert pid ps) ≡ₚ pid :: omap (λ x, x) ps) as ->; [|by constructor].
  destruct (table_insert_cases pid ps) as [(l1 & l2 & -> & ->)| ->]; rewrite !omap_app; cbn [omap list_omap].
  - by rewrite Permutation_middle.
  - by rewrite Permutation_app_comm.
Qed.

(** ** Operations *)
Inductive SOp : Type :=
  | SInit (cpu_count : Z)
  | SCreate (entry_point priority : Z)
  | SSchedule
  | SBlock (pid : Z) (reason : BlockReason)
  | SUnblock (pid : Z)
  | STerminate (pid exit_code : Z)
  | STick (cpu_id : Z)
  | SConfigure (p : SchedulingPolicy) (time_slice : Z).

Definition sched_op (o : SOp) : SM (option Z) :=
  match o with
  | SInit n => let! _ := sched_init n in mok None
  | SCreate entry_point priority => let! pid := create_process entry_point priority in mok (Some pid)
  | SSchedule => schedule
  | SBlock pid reason => let! _ := block_process pid reason in mok None
  | SUnblock pid => let! _ := unblock_process pid in mok None
  | STerminate pid code => let! _ := terminate_process pid code in mok None
  | STick cpu => let! _ := timer_tick cpu in mok None
  | SConfigure p slice => let! _ := configure p slice in mok None
  end.

(** The CPUs balancing would move a process between: least loaded and most loaded, with their loads. *)
Definition balance_plan (s : Sched) : option ((Z * Z) * (Z * Z)) :=
  let loads := sort_loads (imap (λ i q, (Z.of_nat i, q_load q)) (per_cpu_queues s)) in
  match loads, last loads with
  | least :: _ :: _, Some most => Some (least, most)
  | _, _ => None
  end.

(** The process waits in, or runs on, some CPU. *)
Definition enqueued (s : Sched) (pid : Z) : Prop := ∃ i q, per_cpu_queues s !! i = Some q ∧ pid ∈ members q.

(** When an operation does not return. *)
Definition stuck (s : Sched) (o : SOp) : Prop :=
  match o with
  | SInit _ | SConfigure _ _ => False
  | SCreate _ _ => per_cpu_queues s = []
  | SSchedule => should_balance_load s (tick_counter (s_conf s)) = true ∧
      ∃ least most, balance_plan s = Some (least, most) ∧
        (2 ^ 32 ≤ least.2 + 2 ∨ least.2 + 2 < most.2 ∧
         ∃ q, per_cpu_queues s !! Z.to_nat most.1 = Some q ∧ q_low q ++ q_normal q ++ q_high q ≠ [])
  | SBlock pid _ | STerminate pid _ => enqueued s pid
  | SUnblock pid => (∃ p, s_heap s !! pid = Some p ∧ p_state p = Blocked) ∧ cpu_count (s_conf s) = 0
  | STick cpu => time_slice_ticks (s_conf s) = 0 ∨
      tick_counter (s_conf s) `mod` time_slice_ticks (s_conf s) = 0 ∧
      ∃ q pid, per_cpu_queues s !! Z.to_nat cpu = Some q ∧ q_current q = Some pid
  end.

Definition sop_ok (o : SOp) : Prop :=
  match o with
  | SInit n => 0 ≤ n
  | SCreate _ priority => 0 ≤ priority < 256
  | STick cpu => 0 ≤ cpu
  | SConfigure _ slice => 0 ≤ slice
  | _ => True
  end.

Definition not_ok {A} (r : res SchedulerError A) : Prop := r = Hang ∨ r = Panic.

(** The outcome of an operation that returns: the invariant, and at most one new process id. *)
Definition returns (o : SOp) (s : Sched) : Prop :=
  ∃ r s', sched_op o s = (Ok r, s') ∧ sched_inv s' ∧ next_pid (s_conf s) ≤ next_pid (s_conf s') ≤ next_pid (s_conf s) + 1.

Lemma lookup_queue s i : 0 ≤ i < zlen (per_cpu_queues s) → is_Some (per_cpu_queues s !! Z.to_nat i).
Proof. intros Hi. apply lookup_lt_is_Some_2. unfold zlen in Hi. lia. Qed.

Lemma seqZ_lookup_queue n i q : queue_new <$> seqZ 0 n !! i = Some q → q = queue_new (Z.of_nat i).
Proof. intros (z & [-> _]%lookup_seqZ & ->)%fmap_Some. by rewrite Z.add_0_l. Qed.

Lemma sched_init_returns n s : sched_inv s → 0 ≤ n → returns (SInit n) s.
Proof.
  intros [Hl [H1 H2 H3 H4 H5]] Hn. unfold returns, sched_op, sched_init. unfold mbindM at 1 2, mmod.
  rewrite (with_write_ok SQueues _ _ tt (set_lock SQueues (mkRw 0 true) (set_queues (queue_new <$> seqZ 0 n) (set_conf (conf_cpus n (s_conf s)) s))))
    by (cbn; by rewrite ?Hl). eexists _, _. split; [done|]. split; [|cbn; lia].
  split; [cbn; by rewrite Hl|]. split; [|done..].
  cbn [per_cpu_queues s_heap set_lock set_queues set_conf]. intros i q Hq. rewrite list_lookup_fmap in Hq. apply seqZ_lookup_queue in Hq. subst q.
  split; [done|done|done|apply NoDup_nil_2| |done]. intros pid Hin. by apply elem_of_nil in Hin.
Qed.

Lemma configure_returns pol slice s : sched_inv s → returns (SConfigure pol slice) s.
Proof.
  intros [Hl [H1 H2 H3 H4 H5]]. unfold returns, sched_op, configure. unfold mbindM at 1 2, mmod at 1.
  rewrite (with_write_ok SPolicy _ _ tt (set_conf (conf_policy pol (time_slice_ticks (s_conf s)) (s_conf s)) (set_lock SPolicy (mkRw 0 true) s)))
    by (cbn; by rewrite ?Hl). eexists _, _. split; [done|]. split; [|cbn; lia]. split; [cbn; by rewrite Hl|]. by split.
Qed.

Definition in_heap (s : Sched) (pid : Z) : bool := match s_heap s !! pid with Some _ => true | None => false end.

Lemma get_process_ok pid s : sched_inv s → get_process pid s = (Ok (in_heap s pid), s).
Proof.
  intros [Hl Hd]. unfold get_process. rewrite (with_read_ok SProcesses _ _ (in_heap s pid) (read_locked SProcesses s)).
  - f_equal. destruct s. cbn in Hl. by subst.
  - by rewrite Hl.
  - unfold mbindM, mget, mok. do 2 f_equal. change (processes (read_locked SProcesses s)) with (processes s).
    apply eq_true_iff_eq. rewrite existsb_exists. unfold in_heap. split.
    + intros ([x|] & Hin%list_elem_of_In & Hx); [|done]. apply Z.eqb_eq in Hx. subst. by apply Hd in Hin as [p ->].
    + intros Hp. exists (Some pid). split; [|apply Z.eqb_refl]. apply list_elem_of_In, Hd. by destruct (s_heap s !! pid).
Qed.

(** A change to a process that is in no run queue. *)
Lemma on_proc_inv pid f s p :
  sched_data s → s_heap s !! pid = Some p → ¬ enqueued s pid → p_id (f p) = p_id p → 0 ≤ p_assigned_cpu (f p) →
  on_proc pid f s = (Ok tt, set_heap (<[pid := f p]> (s_heap s)) s) ∧ sched_data (set_heap (<[pid := f p]> (s_heap s)) s).
Proof.
  intros [H1 H2 H3 H4 H5] Hp Hn Hid Has. unfold on_proc. rewrite Hp. split; [done|].
  pose proof (heap_step_insert (λ x, x = pid) (s_heap s) pid p (f p) Hp eq_refl Hid (λ _, Has)) as Hst.
  split; cbn [per_cpu_queues s_heap s_conf processes set_heap].
  - intros i q Hq. apply (queue_inv_other _ _ _ _ _ Hst); [|by apply H1]. intros pid' Hin ->. apply Hn. by exists i, q.
  - intros pid' p'. destruct (decide (pid' = pid)) as [->|Hne].
    + rewrite lookup_insert_eq. intros [= <-]. rewrite Hid. destruct (H2 pid p Hp) as (? & ? & _). done.
    + rewrite lookup_insert_ne by done. apply H2.
  - intros pid'. rewrite H3. destruct (decide (pid' = pid)) as [->|Hne].
    + rewrite lookup_insert_eq, Hp. split; by eexists.
    + by rewrite lookup_insert_ne.
  - done.
  - done.
Qed.

Lemma on_queue_absent pid s i q :
  q_held q = [] → per_cpu_queues s !! Z.to_nat i = Some q → pid ∉ members q →
  on_queue i (remove_process pid) s = (Ok false, s).
Proof.
  intros Hd Hq Hn. unfold on_queue. rewrite Hq, remove_process_absent by done.
  do 2 f_equal. rewrite list_insert_id by done. by destruct s.
Qed.


Lemma not_enqueued_unknown s pid : sched_data s → s_heap s !! pid = None → ¬ enqueued s pid.
Proof. intros Hd Hn (i & q & Hq & Hin). destruct (member_queue s i q pid Hd Hq Hin) as (p & Hp & _). congruence. Qed.

(** Two changes in a row to one process. *)
Lemma on_proc_twice pid f g s p :
  s_heap s !! pid = Some p →
  on_proc pid f s = (Ok tt, set_heap (<[pid := f p]> (s_heap s)) s) ∧
  on_proc pid g (set_heap (<[pid := f p]> (s_heap s)) s) = (Ok tt, set_heap (<[pid := g (f p)]> (s_heap s)) s).
Proof.
  intros Hp. unfold on_proc. rewrite Hp. split; [done|]. cbn [s_heap set_heap]. rewrite lookup_insert_eq.
  by rewrite insert_insert_eq.
Qed.

Lemma block_process_step pid reason s :
  sched_inv s →
  (enqueued s pid → (block_process pid reason s).1 = Hang) ∧
  (¬ enqueued s pid → ∃ s', block_process pid reason s = (Ok tt, s') ∧ sched_inv s' ∧ s_conf s' = s_conf s).
Proof.
  intros Hs. pose proof Hs as [Hl Hd]. unfold block_process. rewrite (bind_ok _ _ _ _ _ (get_process_ok pid s Hs)). unfold in_heap.
  destruct (s_heap s !! pid) as [p|] eqn:Hp; cbn [negb].
  2: { split; [by intros ?%not_enqueued_unknown|]. intros _. by exists s. }
  destruct (on_proc_twice pid (set_state Blocked) (set_block_reason (Some reason)) s p Hp) as [E1 E2].
  rewrite (bind_ok _ _ _ _ _ E1), (bind_ok _ _ _ _ _ E2). set (p' := set_block_reason (Some reason) (set_state Blocked p)).
  set (s2 := set_heap (<[pid := p']> (s_heap s)) s). rewrite (bind_ok mget _ s2 s2 s2 eq_refl).
  change (s_heap s2) with (<[pid := p']> (s_heap s)). rewrite lookup_insert_eq.
  change (p_assigned_cpu p') with (p_assigned_cpu p). split.
  - intros (i & q & Hq & Hin). destruct (member_queue s i q pid Hd Hq Hin) as (p0 & Hp0 & Ha & _).
    rewrite Hp in Hp0. injection Hp0 as <-. rewrite Ha. apply with_write_hang; [cbn; by rewrite Hl|].
    unfold mbindM at 1, mget. pose proof (lookup_lt_Some _ _ _ Hq).
    change (per_cpu_queues (set_lock SQueues (mkRw 0 true) s2)) with (per_cpu_queues s).
    rewrite bool_decide_eq_true_2 by (unfold zlen; lia). apply bind_hang.
    apply (on_queue_hang _ _ _ q); [rewrite Nat2Z.id; exact Hq|]. apply remove_process_present; [by apply Hd in Hq as []|done].
  - intros Hn. destruct (si_heap _ Hd pid p Hp) as (_ & _ & Has).
    destruct (on_proc_inv pid (λ _, p') s p Hd Hp Hn eq_refl Has) as [_ Hd2]. fold s2 in Hd2.
    set (s3 := set_lock SQueues (mkRw 0 true) s2).
    assert ((let! s0 := mget in if bool_decide (p_assigned_cpu p < zlen (per_cpu_queues s0)) then
              let! _ := on_queue (p_assigned_cpu p) (remove_process pid) in mok tt else mok tt) s3 = (Ok tt, s3)) as Eb.
    { unfold mbindM at 1, mget. case_bool_decide as Hlt; [|done]. change (per_cpu_queues s3) with (per_cpu_queues s) in Hlt.
      destruct (lookup_queue s (p_assigned_cpu p)) as [q Hq]; [done|].
      assert (q_held q = []) as Hq0 by (by apply Hd in Hq as []).
      rewrite (bind_ok _ _ _ _ _ (on_queue_absent pid s3 _ q Hq0 Hq ltac:(intros Hin; apply Hn; by eexists _, q))). done. }
    rewrite (with_write_ok SQueues _ s2 tt s3 ltac:(cbn; by rewrite Hl) Eb).
    eexists. split; [done|]. split; [|done]. split; [cbn; by rewrite Hl|]. by apply sched_data_lock, sched_data_lock.
Qed.

(** The loop of [terminate_process]. *)
Lemma remove_everywhere pid s (cpus : list Z) :
  (∀ i, i ∈ cpus → is_Some (per_cpu_queues s !! Z.to_nat i)) → (∀ j q, per_cpu_queues s !! j = Some q → q_held q = []) →
  ((∃ i q, i ∈ cpus ∧ per_cpu_queues s !! Z.to_nat i = Some q ∧ pid ∈ members q) →
     (mfor cpus (λ i, let! _ := on_queue i (remove_process pid) in mok tt) s).1 = Hang) ∧
  ((¬ ∃ i q, i ∈ cpus ∧ per_cpu_queues s !! Z.to_nat i = Some q ∧ pid ∈ members q) →
     mfor cpus (λ i, let! _ := on_queue i (remove_process pid) in mok tt) s = (Ok tt, s)).
Proof.
  intros His Hheld. induction cpus as [|j cpus IH].
  { split; [|done]. by intros (i & q & Hi%elem_of_nil & _). }
  destruct IH as [IH1 IH2]; [intros k Hk; apply His; by right|]. cbn [mfor].
  destruct (His j ltac:(left)) as [qj Hj]. pose proof (Hheld _ _ Hj) as H0. destruct (decide (pid ∈ members qj)) as [Hinj|Hnj].
  - split; [|intros []; exists j, qj; split; [left|done]]. intros _.
    apply bind_hang, bind_hang, (on_queue_hang _ _ _ qj Hj). by apply remove_process_present.
  - rewrite (bind_ok _ _ s tt s); [|by rewrite (bind_ok _ _ _ _ _ (on_queue_absent pid s j qj H0 Hj Hnj))]. split.
    + intros (i & q & [->|Hi]%elem_of_cons & Hq & Hin); [congruence|]. apply IH1. by exists i, q.
    + intros Hn. apply IH2. intros (i & q & Hi & Hr). apply Hn. exists i, q. split; [by right|done].
Qed.

Lemma terminate_process_step pid code s :
  sched_inv s →
  (enqueued s pid → (terminate_process pid code s).1 = Hang) ∧
  (¬ enqueued s pid → ∃ s', terminate_process pid code s = (Ok tt, s') ∧ sched_inv s' ∧ s_conf s' = s_conf s).
Proof.
  intros Hs. pose proof Hs as [Hl Hd]. unfold terminate_process. rewrite (bind_ok _ _ _ _ _ (get_process_ok pid s Hs)). unfold in_heap.
  destruct (s_heap s !! pid) as [p|] eqn:Hp; cbn [negb].
  2: { split; [by intros ?%not_enqueued_unknown|]. intros _. by exists s. }
  destruct (on_proc_twice pid (set_state Zombie) (set_exit_code (Some code)) s p Hp) as [E1 E2].
  rewrite (bind_ok _ _ _ _ _ E1), (bind_ok _ _ _ _ _ E2). set (p' := set_exit_code (Some code) (set_state Zombie p)).
  set (s2 := set_heap (<[pid := p']> (s_heap s)) s). set (s3 := set_lock SQueues (mkRw 0 true) s2).
  assert ((let! s0 := mget in mfor (seqZ 0 (zlen (per_cpu_queues s0))) (λ i, let! _ := on_queue i (remove_process pid) in mok tt)) s3
    = mfor (seqZ 0 (zlen (per_cpu_queues s))) (λ i, let! _ := on_queue i (remove_process pid) in mok tt) s3) as Eb by done.
  destruct (remove_everywhere pid s3 (seqZ 0 (zlen (per_cpu_queues s)))) as [Hh Ho].
  { intros i Hi%elem_of_seqZ. apply lookup_queue. change (per_cpu_queues s3) with (per_cpu_queues s). lia. }
  { intros j q Hq. by apply Hd in Hq as []. }
  assert (enqueued s pid ↔ ∃ i q, i ∈ seqZ 0 (zlen (per_cpu_queues s)) ∧ per_cpu_queues s3 !! Z.to_nat i = Some q ∧ pid ∈ members q) as Heq.
  { split.
    - intros (i & q & Hq & Hin). exists (Z.of_nat i), q. rewrite elem_of_seqZ, Nat2Z.id. pose proof (lookup_lt_Some _ _ _ Hq).
      split; [unfold zlen; lia|done].
    - intros (i & q & _ & Hq & Hin). by exists (Z.to_nat i), q. }
  split.
  - intros He%Heq. apply with_write_hang; [cbn; by rewrite Hl|]. fold s3. rewrite Eb. by apply Hh.
  - intros Hn. rewrite Heq in Hn. specialize (Ho Hn). rewrite <-Eb in Ho.
    rewrite (with_write_ok SQueues _ s2 tt s3 ltac:(cbn; by rewrite Hl) Ho). eexists. split; [done|]. split; [|done].
    split; [cbn; by rewrite Hl|]. apply sched_data_lock, sched_data_lock.
    destruct (si_heap _ Hd pid p Hp) as (_ & _ & Has).
    by apply (on_proc_inv pid (λ _, p') s p Hd Hp ltac:(by rewrite Heq) eq_refl Has).
Qed.

(** Adding a process that is in no run queue. *)
Lemma on_queue_add pid s i q p :
  sched_data s → per_cpu_queues s !! Z.to_nat i = Some q → 0 ≤ i →
  s_heap s !! pid = Some p → p_state p = Ready → ¬ enqueued s pid →
  ∃ s', on_queue i (add_process pid) s = (Ok tt, s') ∧ sched_data s' ∧ s_conf s' = s_conf s ∧ s_locks s' = s_locks s ∧
    per_cpu_queues s' = <[Z.to_nat i := pushed pid (p_priority p) q]> (per_cpu_queues s).
Proof.
  intros Hd Hq Hi Hp Hr Hn. pose proof (si_queues _ Hd _ _ Hq) as Hqi. rewrite Z2Nat.id in Hqi by done.
  assert (pid ∉ members q) as Hnm by (intros Hin; apply Hn; by eexists _, q).
  destruct (on_queue_inv (λ x, x = pid) (add_process pid) s i q tt (pushed pid (p_priority p) q) (<[pid := set_assigned_cpu i p]> (s_heap s)))
    as (s' & E & H1 & H2 & H3 & _ & _ & H4); try done.
  - pose proof (add_process_ok pid p q (s_heap s) (qi_held _ _ _ Hqi) Hp) as Ha. by rewrite (qi_cpu _ _ _ Hqi) in Ha.
  - by apply queue_inv_pushed.
  - by apply (heap_step_insert _ _ _ p).
  - intros j qj pid' Hj _ Hin ->. apply Hn. by exists j, qj.
  - by exists s'.
Qed.

Lemma unblock_process_step pid s :
  sched_inv s →
  ((∃ p, s_heap s !! pid = Some p ∧ p_state p = Blocked) ∧ cpu_count (s_conf s) = 0 → (unblock_process pid s).1 = Panic) ∧
  (¬ ((∃ p, s_heap s !! pid = Some p ∧ p_state p = Blocked) ∧ cpu_count (s_conf s) = 0) →
     ∃ s', unblock_process pid s = (Ok tt, s') ∧ sched_inv s' ∧ s_conf s' = s_conf s).
Proof.
  intros Hs. pose proof Hs as [Hl Hd]. unfold unblock_process. rewrite (bind_ok _ _ _ _ _ (get_process_ok pid s Hs)). unfold in_heap.
  destruct (s_heap s !! pid) as [p|] eqn:Hp; cbn [negb].
  2: { split; [by intros [(p & ? & _) _]|]. intros _. by exists s. }
  rewrite (bind_ok mget _ s s s eq_refl), Hp. case_bool_decide as Hb.
  2: { split; [intros [(p0 & [= <-] & ?) _]; done|]. intros _. by exists s. }
  assert (¬ enqueued s pid) as Hn.
  { intros (i & q & Hq & Hin). destruct (member_queue s i q pid Hd Hq Hin) as (p0 & Hp0 & _ & Hst). destruct Hst; congruence. }
  destruct (on_proc_twice pid (set_state Ready) (set_block_reason None) s p Hp) as [E1 E2].
  rewrite (bind_ok _ _ _ _ _ E1), (bind_ok _ _ _ _ _ E2). set (p1 := set_block_reason None (set_state Ready p)).
  set (s1 := set_heap (<[pid := p1]> (s_heap s)) s). rewrite (bind_ok mget _ s1 s1 s1 eq_refl). unfold select_cpu_for_process.
  change (s_conf s1) with (s_conf s). case_bool_decide as Hc.
  { split; [done|]. intros []. split; [by exists p|done]. }
  split; [intros [_ ?]; done|]. intros _. unfold mbindM at 1, mlift. set (t := pid `mod` cpu_count (s_conf s)).
  assert (0 ≤ t) as Ht by (apply Z.mod_pos_bound; pose proof (si_cpus _ Hd); lia).
  assert (s_heap s1 !! pid = Some p1) as Hp1 by (cbn; apply lookup_insert_eq).
  destruct (si_heap _ Hd pid p Hp) as (_ & _ & Has).
  destruct (on_proc_inv pid (λ _, p1) s p Hd Hp Hn eq_refl Has) as [_ Hd1]. fold s1 in Hd1.
  destruct (on_proc_inv pid (set_assigned_cpu t) s1 p1 Hd1 Hp1 Hn eq_refl Ht) as [E3 Hd2]. rewrite (bind_ok _ _ _ _ _ E3).
  set (p2 := set_assigned_cpu t p1) in *. set (s2 := set_heap (<[pid := p2]> (s_heap s1)) s1) in *.
  set (s3 := set_lock SQueues (mkRw 0 true) s2).
  assert (∃ s4, (let! s0 := mget in if bool_decide (t < zlen (per_cpu_queues s0)) then on_queue t (add_process pid) else mok tt) s3 = (Ok tt, s4)
     ∧ sched_data s4 ∧ s_conf s4 = s_conf s ∧ s_locks s4 = s_locks s3) as (s4 & E4 & Hd4 & Hc4 & Hl4).
  { unfold mbindM, mget. assert (sched_data s3) as Hd3 by (by apply sched_data_lock). case_bool_decide as Hlt; [|by exists s3].
    destruct (lookup_queue s3 t) as [q Hq]; [done|].
    destruct (on_queue_add pid s3 t q p2 Hd3 Hq Ht) as (s4 & E4 & H1 & H2 & H3 & _); [cbn; apply lookup_insert_eq|done|done|]. by exists s4. }
  rewrite (with_write_ok SQueues _ s2 tt s4 ltac:(cbn; by rewrite Hl) E4). eexists. split; [done|]. split; [|done].
  split; [|by apply sched_data_lock]. cbn. rewrite Hl4. cbn. by rewrite Hl.
Qed.

Lemma read_lock_id l s : rw_writer (lk_get l (s_locks s)) = false → read_released l (read_locked l s) = s.
Proof. destruct s as [? ? ? ? [[] [] []]], l; cbn; by intros ->. Qed.

Lemma least_loaded_bound qs c m b n :
  0 ≤ b < n → 0 ≤ c → c + zlen qs ≤ n → 0 ≤ least_loaded qs c m b < n.
Proof.
  revert c m b. induction qs as [|q qs IH]; intros c m b Hb Hc Hn; cbn [least_loaded]; [done|].
  unfold zlen in *. cbn [length] in Hn. case_bool_decide; apply IH; lia.
Qed.

Lemma select_cpu_ok s :
  lk_queues (s_locks s) = rw_free →
  ∃ t, select_cpu_for_new_process s = (Ok t, s) ∧ 0 ≤ t ∧ (per_cpu_queues s ≠ [] → t < zlen (per_cpu_queues s)).
Proof.
  intros Hl. unfold select_cpu_for_new_process. rewrite (bind_ok mget _ s s s eq_refl).
  assert (per_cpu_queues s ≠ [] → 1 ≤ zlen (per_cpu_queues s)) as Hne
    by (destruct (per_cpu_queues s); [done|unfold zlen; cbn; lia]).
  destruct (negb _); [exists 0; split; [done|]; split; [lia|intros; specialize (Hne ltac:(done)); lia]|].
  set (t := least_loaded (per_cpu_queues s) 0 (2 ^ 32 - 1) 0). exists t. split.
  - rewrite (with_read_ok SQueues _ s t (read_locked SQueues s)); [|cbn; by rewrite Hl|done]. by rewrite read_lock_id by (cbn; by rewrite Hl).
  - destruct (per_cpu_queues s) as [|q qs] eqn:E; [done|].
    pose proof (least_loaded_bound (q :: qs) 0 (2 ^ 32 - 1) 0 (zlen (q :: qs))) as Hb. fold t in Hb.
    destruct Hb; [unfold zlen; cbn; lia|lia|lia|]. done.
Qed.

Lemma create_process_step entry_point priority s :
  sched_inv s → 0 ≤ next_pid (s_conf s) < 2 ^ 64 - 1 →
  (per_cpu_queues s = [] → (create_process entry_point priority s).1 = Panic) ∧
  (per_cpu_queues s ≠ [] → ∃ t q s', create_process entry_point priority s = (Ok (next_pid (s_conf s)), s') ∧ sched_inv s' ∧
     next_pid (s_conf s') = next_pid (s_conf s) + 1 ∧ per_cpu_queues s !! t = Some q ∧
     per_cpu_queues s' = <[t := pushed (next_pid (s_conf s)) priority q]> (per_cpu_queues s)).
Proof.
  intros [Hl Hd] Hpid. set (pid := next_pid (s_conf s)).
  set (c1 := conf_pid (pid + 1) (s_conf s)).
  assert (new_pid s = (Ok pid, set_conf c1 s)) as E1.
  { unfold new_pid, mbindM, mget, mmod, mok. do 3 f_equal. unfold wrap64. by rewrite Z.mod_small by lia. }
  set (p := process_new pid (system_ticks c1) entry_point priority).
  set (s1 := set_heap (<[pid := p]> (s_heap s)) (set_conf c1 s)).
  set (s2 := set_processes (table_insert pid (processes s)) (set_lock SProcesses (mkRw 0 true) s1)).
  assert (s_heap s !! pid = None) as Hfresh.
  { destruct (s_heap s !! pid) as [p0|] eqn:E; [|done]. destruct (si_heap _ Hd _ _ E) as (_ & ? & _). unfold pid in *. lia. }
  assert (¬ enqueued s2 pid) as Hn by (by apply (not_enqueued_unknown s)).
  assert (sched_data s2) as Hd2.
  { destruct Hd as [D1 D2 D3 D4 D5]. split; cbn [per_cpu_queues s_heap processes s_conf s2 s1 set_heap set_conf set_lock set_processes].
    - intros i q Hq. destruct (D1 i q Hq) as [H1 H2 H0 H3 H4 H5]. split; try done; intros pid' Hin;
        rewrite lookup_insert_ne by (intros <-; apply Hn; exists i, q; split; [done|apply elem_of_members; tauto]); auto.
    - intros pid' p' Hp'. destruct (decide (pid' = pid)) as [->|Hne].
      + rewrite lookup_insert_eq in Hp'. injection Hp' as <-. split; [done|]. cbn. split; [lia|done].
      + rewrite lookup_insert_ne in Hp' by done. destruct (D2 _ _ Hp') as (? & ? & ?). cbn. split; [done|]. split; [unfold pid; lia|done].
    - intros pid'. rewrite table_insert_elem, D3. destruct (decide (pid' = pid)) as [->|Hne].
      + rewrite lookup_insert_eq. split; [by eexists|by left].
      + rewrite lookup_insert_ne by done. tauto.
    - apply table_insert_unique; [done|]. rewrite D3, Hfresh. by intros [].
    - done. }
  destruct (select_cpu_ok s2) as (t & Et & Ht0 & Ht); [cbn; by rewrite Hl|]. change (per_cpu_queues s2) with (per_cpu_queues s) in Ht.
  set (s3 := set_lock SQueues (mkRw 0 true) s2).
  set (body1 := (let! _ := on_queue t (add_process pid) in mok pid) : SM Z).
  set (body2 := (let! _ := mmod (λ s, set_processes (table_insert pid (processes s)) s) in
                 let! target_cpu := select_cpu_for_new_process in
                 with_write SQueues (let! _ := on_queue target_cpu (add_process pid) in mok pid)) : SM Z).
  assert (create_process entry_point priority s = with_write SProcesses body2 s1) as -> by (unfold create_process; by rewrite (bind_ok _ _ _ _ _ E1)).
  assert (body2 (set_lock SProcesses (mkRw 0 true) s1) = with_write SQueues body1 s2) as E2
    by (unfold body2; rewrite (bind_ok (mmod (λ s, set_processes (table_insert pid (processes s)) s)) _ (set_lock SProcesses (mkRw 0 true) s1) tt s2 eq_refl); by rewrite (bind_ok _ _ _ _ _ Et)).
  split.
  - intros Hq. apply with_write_panic; [cbn; by rewrite Hl|]. rewrite E2. apply with_write_panic; [cbn; by rewrite Hl|].
    apply bind_panic. unfold on_queue. change (per_cpu_queues (set_lock SQueues (mkRw 0 true) s2)) with (per_cpu_queues s). by rewrite Hq.
  - intros Hq. destruct (lookup_queue s t) as [q Hqt]; [split; [done|by apply Ht]|].
    destruct (on_queue_add pid s3 t q p) as (s4 & E4 & Hd4 & Hc4 & Hl4 & Hq4); [by apply sched_data_lock|done|done|cbn; apply lookup_insert_eq|done|done|].
    assert (body1 s3 = (Ok pid, s4)) as Eb1 by (unfold body1; by rewrite (bind_ok _ _ _ _ _ E4)).
    rewrite (with_write_ok SQueues _ s2 pid s4 ltac:(cbn; by rewrite Hl) Eb1) in E2.
    rewrite (with_write_ok SProcesses _ s1 pid _ ltac:(cbn; by rewrite Hl) E2).
    exists (Z.to_nat t), q. eexists. split; [done|]. split; [|cbn; rewrite Hc4; done].
    split; [cbn; rewrite Hl4; cbn; by rewrite Hl|]. by apply sched_data_lock, sched_data_lock.
Qed.

Lemma insert_load_perm x l : insert_load x l ≡ₚ x :: l.
Proof.
  induction l as [|y l IH]; cbn [insert_load]; [done|]. case_bool_decide; [done|]. rewrite IH. apply Permutation_swap.
Qed.

Lemma sort_loads_perm l : sort_loads l ≡ₚ l.
Proof. induction l as [|x l IH]; cbn [sort_loads foldr]; [done|]. fold (sort_loads l). by rewrite insert_load_perm, IH. Qed.

Lemma balance_plan_least s least most :
  sched_data s → balance_plan s = Some (least, most) → 0 ≤ least.2.
Proof.
  intros Hd. unfold balance_plan. set (loads := sort_loads _). intros E.
  assert (least ∈ loads) as Hin.
  { destruct loads as [|a [|b l]]; [done..|]. destruct (last (a :: b :: l)); [|done]. injection E as <- _. left. }
  unfold loads in Hin. rewrite sort_loads_perm in Hin. apply elem_of_lookup_imap in Hin as (i & q & -> & Hq). by apply Hd in Hq as [].
Qed.

Lemma balance_plan_most s least most :
  balance_plan s = Some (least, most) → ∃ q, per_cpu_queues s !! Z.to_nat most.1 = Some q ∧ 0 ≤ most.1.
Proof.
  unfold balance_plan. set (loads := sort_loads _). intros E.
  assert (most ∈ loads) as Hin.
  { destruct loads as [|a [|b l]]; [done..|]. destruct (last (a :: b :: l)) as [x|] eqn:El; [|done]. injection E as <- <-.
    by apply last_Some_elem_of. }
  unfold loads in Hin. rewrite sort_loads_perm in Hin. apply elem_of_lookup_imap in Hin as (i & q & -> & Hq).
  exists q. cbn [fst]. rewrite Nat2Z.id. split; [done|lia].
Qed.

(** The body of [balance_load] under the write lock. *)
Lemma balance_load_step cpu tick s :
  sched_inv s → 0 ≤ cpu →
  let blocked := cpu < zlen (per_cpu_queues s) ∧ ∃ least most, balance_plan s = Some (least, most) ∧
        (2 ^ 32 ≤ least.2 + 2 ∨ least.2 + 2 < most.2 ∧
         ∃ q, per_cpu_queues s !! Z.to_nat most.1 = Some q ∧ q_low q ++ q_normal q ++ q_high q ≠ []) in
  (blocked → not_ok (balance_load cpu tick s).1) ∧
  (¬ blocked → ∃ s', balance_load cpu tick s = (Ok tt, s') ∧ sched_inv s' ∧ per_cpu_queues s' = per_cpu_queues s ∧
       s_conf s' = conf_balanced tick (s_conf s) ∧ s_heap s' = s_heap s).
Proof.
  intros [Hl Hd] Hcpu. cbv zeta. unfold balance_load.
  set (s1 := set_conf (conf_balanced tick (s_conf s)) s).
  rewrite (bind_ok (mmod (λ s, set_conf (conf_balanced tick (s_conf s)) s)) _ s tt s1 eq_refl).
  set (s2 := set_lock SQueues (mkRw 0 true) s1).
  assert (sched_data s2) as Hd2 by (destruct Hd; by split).
  set (body := (let! s0 := mget in _) : SM unit).
  assert (body s2 = (if bool_decide (zlen (per_cpu_queues s) ≤ cpu) then mok tt else
    match balance_plan s with
    | Some ((least_cpu, min_load), (most_cpu, max_load)) =>
        let! limit := mlift (add32 min_load 2) in
        if bool_decide (limit < max_load) then
          let! r := on_queue most_cpu steal_process in
          match r with
          | Some pid => let! _ := on_proc pid (set_assigned_cpu least_cpu) in on_queue least_cpu (add_process pid)
          | None => mok tt
          end
        else mok tt
    | None => mok tt
    end) s2) as Eb.
  { unfold body. rewrite (bind_ok mget _ s2 s2 s2 eq_refl). change (per_cpu_queues s2) with (per_cpu_queues s).
    unfold balance_plan. destruct (bool_decide _); [done|]. destruct (sort_loads _) as [|[a b] [|c l]]; [done..|].
    by destruct (last _) as [[x y]|]. }
  split.
  - intros (Hlt & [a b] & [c d] & Hp & Hor). pose proof (balance_plan_least _ _ _ Hd Hp) as Hpos. cbn [fst snd] in *.
    rewrite bool_decide_eq_false_2, Hp in Eb by lia.
    destruct (decide (2 ^ 32 ≤ b + 2)) as [Hov|Hov].
    + right. apply with_write_panic; [cbn; by rewrite Hl|]. fold s2. rewrite Eb. apply bind_panic. unfold mlift, add32. by rewrite chk_panic by lia.
    + destruct Hor as [|(Hlt' & q & Hq & Hne)]; [done|]. left. apply with_write_hang; [cbn; by rewrite Hl|]. fold s2. rewrite Eb.
      unfold mlift, add32. rewrite chk_ok by lia. rewrite (bind_ok _ _ s2 (b + 2) s2 eq_refl). rewrite bool_decide_eq_true_2 by done.
      apply bind_hang, (on_queue_hang _ _ _ q); [done|]. apply steal_process_ok; [by apply Hd in Hq as []|done].
  - intros Hnb. assert (body s2 = (Ok tt, s2)) as Eb2.
    { rewrite Eb. case_bool_decide as Hle; [done|]. destruct (balance_plan s) as [[[a b] [c d]]|] eqn:Hp; [|done].
      pose proof (balance_plan_least _ _ _ Hd Hp) as Hpos. cbn [fst snd] in Hpos.
      destruct (decide (2 ^ 32 ≤ b + 2)) as [Hov|Hov].
      { exfalso. apply Hnb. split; [lia|]. exists (a, b), (c, d). split; [done|by left]. }
      unfold mlift, add32. rewrite chk_ok by lia. rewrite (bind_ok _ _ s2 (b + 2) s2 eq_refl). case_bool_decide as Hlt; [|done].
      destruct (balance_plan_most s (a, b) (c, d) Hp) as (q & Hq & Hc). cbn [fst] in Hq, Hc.
      assert (on_queue c steal_process s2 = (Ok None, s2)) as Es.
      { unfold on_queue. change (per_cpu_queues s2) with (per_cpu_queues s). rewrite Hq.
        assert (q_held q = []) as Hh by (by apply Hd in Hq as []).
        destruct (steal_process_ok q (s_heap s2) Hh) as [-> _].
        - do 2 f_equal. rewrite list_insert_id by done. by destruct s.
        - destruct (decide (q_low q ++ q_normal q ++ q_high q = [])) as [|Hne]; [done|]. exfalso. apply Hnb. split; [lia|].
          exists (a, b), (c, d). split; [done|]. right. cbn. split; [done|]. by exists q. }
      by rewrite (bind_ok _ _ _ _ _ Es). }
    rewrite (with_write_ok SQueues _ s1 tt s2 ltac:(cbn; by rewrite Hl) Eb2). eexists. split; [done|]. split; [|done].
    split; [cbn; by rewrite Hl|]. by apply sched_data_lock.
Qed.

Lemma set_conf_inv c s :
  sched_inv s → next_pid c = next_pid (s_conf s) → cpu_count c = cpu_count (s_conf s) → sched_inv (set_conf c s).
Proof. intros [Hl [H1 H2 H3 H4 H5]] Hp Hc. split; [done|]. split; cbn; rewrite ?Hp, ?Hc; done. Qed.

Lemma next_tick_ok s :
  next_tick s = (Ok (tick_counter (s_conf s)), set_conf (conf_tick (wrap64 (tick_counter (s_conf s) + 1)) (s_conf s)) s).
Proof. done. Qed.

Lemma schedule_step s :
  sched_inv s →
  (stuck s SSchedule → not_ok (schedule s).1) ∧
  (¬ stuck s SSchedule → ∃ r s', schedule s = (Ok r, s') ∧ sched_inv s' ∧ next_pid (s_conf s') = next_pid (s_conf s) ∧
     match per_cpu_queues s !! 0%nat with
     | Some q => ∃ q' h', decision q (s_heap s) r q' h' ∧ get_next_process (policy (s_conf s)) (q, s_heap s) = (Ok r, (q', h')) ∧
         per_cpu_queues s' = <[0%nat := q']> (per_cpu_queues s) ∧ s_heap s' = h'
     | None => r = None
     end).
Proof.
  intros Hs. set (t := tick_counter (s_conf s)). set (s1 := set_conf (conf_tick (wrap64 (t + 1)) (s_conf s)) s).
  assert (sched_inv s1) as Hs1 by (by apply set_conf_inv).
  unfold schedule. rewrite (bind_ok _ _ _ _ _ (next_tick_ok s)). fold t s1. rewrite (bind_ok mget _ s1 s1 s1 eq_refl).
  change (should_balance_load s1 t) with (should_balance_load s t).
  set (rest := with_read SQueues _).
  assert (∀ s2, sched_inv s2 → per_cpu_queues s2 = per_cpu_queues s → s_heap s2 = s_heap s → policy (s_conf s2) = policy (s_conf s) →
    next_pid (s_conf s2) = next_pid (s_conf s) →
    ∃ r s', rest s2 = (Ok r, s') ∧ sched_inv s' ∧ next_pid (s_conf s') = next_pid (s_conf s) ∧
     match per_cpu_queues s !! 0%nat with
     | Some q => ∃ q' h', decision q (s_heap s) r q' h' ∧ get_next_process (policy (s_conf s)) (q, s_heap s) = (Ok r, (q', h')) ∧
         per_cpu_queues s' = <[0%nat := q']> (per_cpu_queues s) ∧ s_heap s' = h'
     | None => r = None
     end) as Hrest.
  { intros s2 [Hl2 Hd2] Hq2 Hh2 Hp2 Hn2. unfold rest. set (s3 := read_locked SQueues s2).
    destruct (per_cpu_queues s !! 0%nat) as [q|] eqn:Hq0.
    - set (s4 := read_locked SPolicy s3). assert (per_cpu_queues s4 !! Z.to_nat 0 = Some q) as Hq4 by (rewrite <-Hq0, <-Hq2; done).
      assert (sched_data s4) as Hd4 by (by apply sched_data_lock, sched_data_lock).
      pose proof (si_queues _ Hd4 _ _ Hq4) as Hqi. change (Z.of_nat (Z.to_nat 0)) with 0 in Hqi.
      destruct (get_next_process_decision (policy (s_conf s)) q (s_heap s4) (qi_held _ _ _ Hqi)) as (r & q' & h' & Eg & Hdec).
      { intros pid Hin. destruct (qi_member _ _ _ _ Hqi Hin) as (p & Hp & _). by exists p. }
      destruct (decision_inv _ _ _ _ _ _ Hqi Hdec) as [Hqi' Hst].
      destruct (on_queue_inv (λ pid, pid ∈ members q) (get_next_process (policy (s_conf s))) s4 0 q r q' h' Hd4 Hq4 ltac:(lia) Eg Hqi' Hst)
        as (s5 & E5 & Hd5 & Hc5 & Hl5 & _ & Hh5 & Hqs5).
      { intros j qj pid Hj Hne Hin. by apply (members_disjoint s4 (Z.to_nat 0) j q qj). }
      assert ((let! s0 := mget in on_queue current_cpu_id (get_next_process (policy (s_conf s0)))) s4 = (Ok r, s5)) as Eb.
      { rewrite (bind_ok mget _ s4 s4 s4 eq_refl). change (s_conf s4) with (s_conf s2). by rewrite Hp2. }
      assert ((let! s0 := mget in if bool_decide (current_cpu_id < zlen (per_cpu_queues s0)) then
         with_read SPolicy (let! s0 := mget in on_queue current_cpu_id (get_next_process (policy (s_conf s0)))) else mok None) s3
         = (Ok r, read_released SPolicy s5)) as Eb3.
      { rewrite (bind_ok mget _ s3 s3 s3 eq_refl). rewrite bool_decide_eq_true_2.
        - by rewrite (with_read_ok SPolicy _ s3 r s5 ltac:(cbn; by rewrite Hl2) Eb).
        - apply lookup_lt_Some in Hq4. change (per_cpu_queues s4) with (per_cpu_queues s3) in Hq4. unfold zlen, current_cpu_id. lia. }
      rewrite (with_read_ok SQueues _ s2 r _ ltac:(cbn; by rewrite Hl2) Eb3).
      eexists r, _. split; [done|]. split; [|split].
      + split; [|by apply sched_data_lock, sched_data_lock]. cbn. rewrite Hl5. cbn. by rewrite Hl2.
      + cbn. rewrite Hc5. done.
      + exists q', h'. change (s_heap s4) with (s_heap s2) in *. rewrite Hh2 in *. split; [done|]. split; [done|]. cbn. rewrite Hqs5, Hh5.
        change (per_cpu_queues s4) with (per_cpu_queues s2). rewrite Hq2. done.
    - assert ((let! s0 := mget in if bool_decide (current_cpu_id < zlen (per_cpu_queues s0)) then
         with_read SPolicy (let! s0 := mget in on_queue current_cpu_id (get_next_process (policy (s_conf s0)))) else mok None) s3
         = (Ok None, s3)) as Eb3.
      { rewrite (bind_ok mget _ s3 s3 s3 eq_refl). rewrite bool_decide_eq_false_2; [done|].
        apply lookup_ge_None in Hq0. change (per_cpu_queues s3) with (per_cpu_queues s2). rewrite Hq2. unfold zlen, current_cpu_id. lia. }
      rewrite (with_read_ok SQueues _ s2 None s3 ltac:(cbn; by rewrite Hl2) Eb3).
      unfold s3. rewrite read_lock_id by (cbn; by rewrite Hl2). by exists None, s2. }
  destruct (should_balance_load s t) eqn:Esb.
  - destruct (balance_load_step current_cpu_id t s1 Hs1 ltac:(done)) as [Hb1 Hb2].
    change (balance_plan s1) with (balance_plan s) in *. change (per_cpu_queues s1) with (per_cpu_queues s) in *. split.
    + intros [_ (least & most & Hp & Hor)]. destruct Hb1 as [Hh|Hh].
      * split; [|by exists least, most]. destruct (balance_plan_most _ _ _ Hp) as (q & Hq%lookup_lt_Some & _). unfold zlen, current_cpu_id. lia.
      * left. by apply bind_hang.
      * right. by apply bind_panic.
    + intros Hn. destruct Hb2 as (s2 & E2 & Hs2 & Hq2 & Hc2 & Hh2).
      { intros [_ (least & most & Hp & Hor)]. apply Hn. split; [done|]. by exists least, most. }
      rewrite (bind_ok _ _ _ _ _ E2). apply Hrest; try done; rewrite Hc2; done.
  - split; [intros [E _]; fold t in E; congruence|]. intros _. rewrite (bind_ok (mok tt) _ s1 tt s1 eq_refl). by apply Hrest.
Qed.

Lemma preempt_current_process_ok cpu s :
  sched_data s → rw_writer (lk_queues (s_locks s)) = false → 0 ≤ cpu →
  ((∃ q pid, per_cpu_queues s !! Z.to_nat cpu = Some q ∧ q_current q = Some pid) → (preempt_current_process cpu s).1 = Hang) ∧
  ((¬ ∃ q pid, per_cpu_queues s !! Z.to_nat cpu = Some q ∧ q_current q = Some pid) → preempt_current_process cpu s = (Ok tt, s)).
Proof.
  intros Hd Hl Hcpu. unfold preempt_current_process. set (s1 := read_locked SQueues s). split.
  - intros (q & pid & Hq & Hc). apply with_read_hang; [done|]. fold s1. rewrite (bind_ok mget _ s1 s1 s1 eq_refl).
    pose proof (lookup_lt_Some _ _ _ Hq). rewrite bool_decide_eq_true_2 by (change (per_cpu_queues s1) with (per_cpu_queues s); unfold zlen; lia).
    apply (on_queue_hang _ _ _ q); [done|]. destruct (si_queues _ Hd _ _ Hq) as [_ Hh _ _ _ Hcur].
    destruct (Hcur pid Hc) as (p & Hp & Hr & _). by apply (preempt_running q _ pid p).
  - intros Hn. assert ((let! s0 := mget in if bool_decide (cpu < zlen (per_cpu_queues s0)) then on_queue cpu preempt_current else mok tt) s1 = (Ok tt, s1)) as Eb.
    { rewrite (bind_ok mget _ s1 s1 s1 eq_refl). case_bool_decide as Hlt; [|done].
      destruct (lookup_queue s1 cpu) as [q Hq]; [done|]. unfold on_queue. rewrite Hq. rewrite preempt_idle.
      - do 2 f_equal. rewrite list_insert_id by done. by destruct s.
      - by apply Hd in Hq as [].
      - destruct (q_current q) as [pid|] eqn:E; [|done]. exfalso. apply Hn. by exists q, pid. }
    rewrite (with_read_ok SQueues _ s tt s1 Hl Eb). unfold s1. by rewrite read_lock_id.
Qed.

Lemma timer_tick_step cpu s :
  sched_inv s → 0 ≤ cpu →
  (stuck s (STick cpu) → not_ok (timer_tick cpu s).1) ∧
  (¬ stuck s (STick cpu) → ∃ s', timer_tick cpu s = (Ok tt, s') ∧ sched_inv s' ∧ next_pid (s_conf s') = next_pid (s_conf s)).
Proof.
  intros Hs Hcpu. set (t := tick_counter (s_conf s)). set (s1 := set_conf (conf_tick (wrap64 (t + 1)) (s_conf s)) s).
  assert (sched_inv s1) as [Hl1 Hd1] by (by apply set_conf_inv).
  unfold timer_tick. rewrite (bind_ok _ _ _ _ _ (next_tick_ok s)). fold t s1. set (s2 := read_locked SQueues s1).
  assert (sched_data s2) as Hd2 by (by apply sched_data_lock).
  set (body := (let! s0 := mget in _) : SM unit).
  assert (∃ s3, (if bool_decide (cpu < zlen (per_cpu_queues s2)) then on_queue cpu (queue_timer_tick t) else mok tt) s2 = (Ok tt, s3) ∧
     sched_data s3 ∧ s_conf s3 = s_conf s1 ∧ s_locks s3 = s_locks s2 ∧
     ((∃ q pid, per_cpu_queues s3 !! Z.to_nat cpu = Some q ∧ q_current q = Some pid) ↔
      (∃ q pid, per_cpu_queues s !! Z.to_nat cpu = Some q ∧ q_current q = Some pid))) as (s3 & E3 & Hd3 & Hc3 & Hl3 & Hcur).
  { case_bool_decide as Hlt; [|by exists s2]. destruct (lookup_queue s2 cpu) as [q Hq]; [done|].
    pose proof (si_queues _ Hd2 _ _ Hq) as Hqi. rewrite Z2Nat.id in Hqi by done.
    destruct (queue_timer_tick_ok t q (s_heap s2) (qi_held _ _ _ Hqi)) as (q' & Eq & Hag).
    destruct (on_queue_inv (λ _, False) (queue_timer_tick t) s2 cpu q tt q' (s_heap s2) Hd2 Hq Hcpu Eq) as (s3 & E3 & H1 & H2 & H3 & _ & _ & H4).
    - apply (aged_inv _ (ticked t q)); [|done]. apply queue_inv_stats; [apply Hqi|done].
    - apply heap_step_refl.
    - intros ? ? ? ? ? ? [].
    - exists s3. split; [done|]. split; [done|]. split; [done|]. split; [done|]. rewrite H4. change (per_cpu_queues s2) with (per_cpu_queues s) in *.
      rewrite list_lookup_insert_eq by (by eapply lookup_lt_Some). assert (q_current q' = q_current q) as Ec by (by destruct Hag).
      split; intros (q0 & pid & E & Hp).
      + injection E as <-. exists q, pid. by rewrite <-Ec.
      + rewrite Hq in E. injection E as <-. exists q', pid. by rewrite Ec. }
  assert (body s2 = (if bool_decide (time_slice_ticks (s_conf s) = 0) then mlift Panic else
    if t `mod` time_slice_ticks (s_conf s) =? 0 then preempt_current_process cpu else mok tt) s3) as Eb.
  { unfold body. rewrite (bind_ok mget _ s2 s2 s2 eq_refl), (bind_ok _ _ _ _ _ E3), (bind_ok mget _ s3 s3 s3 eq_refl), Hc3. done. }
  destruct (preempt_current_process_ok cpu s3 Hd3) as [P1 P2]; [by rewrite Hl3|done|].
  assert (body s2 = (Ok tt, s3) → ∃ s', with_read SQueues body s1 = (Ok tt, s') ∧ sched_inv s' ∧ next_pid (s_conf s') = next_pid (s_conf s)) as Hend.
  { intros E. rewrite (with_read_ok SQueues _ s1 tt s3 ltac:(by rewrite Hl1) E). eexists. split; [done|]. split.
    - split; [|by apply sched_data_lock]. rewrite (read_locked_same SQueues s1 s3); [done|done|by rewrite Hl1].
    - cbn. by rewrite Hc3. }
  split.
  - intros [H0|[Hm He]].
    + right. apply with_read_panic; [by rewrite Hl1|]. fold s2. rewrite Eb. by rewrite bool_decide_eq_true_2.
    + fold t in Hm. destruct (decide (time_slice_ticks (s_conf s) = 0)) as [H0|H0].
      * right. apply with_read_panic; [by rewrite Hl1|]. fold s2. rewrite Eb. by rewrite bool_decide_eq_true_2.
      * left. apply with_read_hang; [by rewrite Hl1|]. fold s2. rewrite Eb, bool_decide_eq_false_2, Hm by done. cbn [Z.eqb].
        apply P1. by apply Hcur.
  - intros Hn. apply Hend. rewrite Eb. rewrite bool_decide_eq_false_2 by (intros H0; apply Hn; by left).
    destruct (t `mod` _ =? 0) eqn:E; [|done]. apply P2. intros He%Hcur. apply Hn. right. split; [by apply Z.eqb_eq|done].
Qed.

(** Every operation either does not return, exactly when [stuck] says so, or keeps the invariant. *)
Lemma sched_op_step o s :
  sched_inv s → 0 ≤ next_pid (s_conf s) < 2 ^ 64 - 1 → sop_ok o →
  (stuck s o → not_ok (sched_op o s).1) ∧ (¬ stuck s o → returns o s).
Proof.
  intros Hs Hp Ho. destruct o as [n|entry prio| |pid reason|pid|pid code|cpu|pol slice]; cbn [stuck sop_ok] in *.
  - split; [done|]. intros _. by apply sched_init_returns.
  - destruct (create_process_step entry prio s Hs Hp) as [H1 H2]. split.
    + intros Hq. right. apply bind_panic. by apply H1.
    + intros Hq. destruct (H2 Hq) as (t & q & s' & E & Hs' & Hn & _). unfold returns, sched_op. rewrite (bind_ok _ _ _ _ _ E).
      eexists _, s'. split; [done|]. split; [done|lia].
  - destruct (schedule_step s Hs) as [H1 H2]. split; [done|]. intros Hn. destruct (H2 Hn) as (r & s' & E & Hs' & Hpid & _).
    exists r, s'. split; [done|]. split; [done|lia].
  - destruct (block_process_step pid reason s Hs) as [H1 H2]. split; [intros He; left; by apply bind_hang, H1|].
    intros He. destruct (H2 He) as (s' & E & Hs' & Hc). unfold returns, sched_op. rewrite (bind_ok _ _ _ _ _ E).
    exists None, s'. split; [done|]. split; [done|]. rewrite Hc. lia.
  - destruct (unblock_process_step pid s Hs) as [H1 H2]. split; [intros He; right; by apply bind_panic, H1|].
    intros He. destruct (H2 He) as (s' & E & Hs' & Hc). unfold returns, sched_op. rewrite (bind_ok _ _ _ _ _ E).
    exists None, s'. split; [done|]. split; [done|]. rewrite Hc. lia.
  - destruct (terminate_process_step pid code s Hs) as [H1 H2]. split; [intros He; left; by apply bind_hang, H1|].
    intros He. destruct (H2 He) as (s' & E & Hs' & Hc). unfold returns, sched_op. rewrite (bind_ok _ _ _ _ _ E).
    exists None, s'. split; [done|]. split; [done|]. rewrite Hc. lia.
  - destruct (timer_tick_step cpu s Hs Ho) as [H1 H2]. split.
    + intros He. destruct (H1 He) as [Hh|Hh]; [left; by apply bind_hang|right; by apply bind_panic].
    + intros He. destruct (H2 He) as (s' & E & Hs' & Hc). unfold returns, sched_op. rewrite (bind_ok _ _ _ _ _ E).
      exists None, s'. split; [done|]. split; [done|]. rewrite Hc. lia.
  - split; [done|]. intros _. by apply configure_returns.
Qed.

(** ** Sequences of operations *)
Fixpoint sched_run (ops : list SOp) : SM (list (option Z)) :=
  match ops with
  | [] => mok []
  | o :: ops => let! r := sched_op o in let! rs := sched_run ops in mok (r :: rs)
  end.

Lemma sched_run_inv ops s rs s' :
  sched_inv s → 0 ≤ next_pid (s_conf s) → next_pid (s_conf s) + zlen ops < 2 ^ 64 → Forall sop_ok ops →
  sched_run ops s = (Ok rs, s') → sched_inv s'.
Proof.
  revert s rs. induction ops as [|o ops IH]; intros s rs Hs Hp Hn Hops E; [by injection E as _ <-|].
  apply Forall_cons in Hops as [Ho Hops]. assert (zlen (o :: ops) = 1 + zlen ops) as El by (unfold zlen; cbn; lia). pose proof (zlen_nonneg ops).
  destruct (sched_op_step o s Hs ltac:(lia) Ho) as [H1 H2]. cbn [sched_run] in E. unfold mbindM in E.
  destruct (sched_op o s) as [[r|e| |] s1] eqn:Eo; try discriminate E.
  destruct H2 as (r' & s1' & E' & Hs1 & Hp1); [intros [?|?]%H1; done|]. rewrite Eo in E'. injection E' as <- <-.
  destruct (sched_run ops s1) as [[rs'| | |] s2] eqn:Er; try discriminate E. injection E as _ <-.
  apply (IH s1 rs'); [done|lia|lia|done|done].
Qed.

(** ** Serving the queues by priority *)
Fixpoint priority_run (n : nat) : QM (list (option Z)) :=
  match n with
  | O => mok []
  | S n => let! r := priority_schedule in let! rs := priority_run n in mok (r :: rs)
  end.

(** The order in which the priority policy serves the waiting processes. *)
Definition service_order (q : CpuRunQueue) : list Z := q_high q ++ q_normal q ++ q_low q.

Lemma first_of_service q :
  match first_of [LHigh; LNormal; LLow] q with
  | Some (l, pid, rest) => l ≠ LCurrent ∧ q_list l q = pid :: rest ∧ service_order q = pid :: service_order (q_set_list l rest q)
  | None => service_order q = []
  end.
Proof.
  unfold service_order. cbn [first_of q_list]. destruct (q_high q) as [|x xs] eqn:E1; [|by cbn; rewrite E1].
  destruct (q_normal q) as [|y ys] eqn:E2; [|by cbn; rewrite E1, E2]. destruct (q_low q) as [|z zs] eqn:E3; [done|]. cbn. by rewrite E1, E2, E3.
Qed.

Lemma priority_run_ok n i q h :
  queue_inv i q h →
  ∃ rs q' h', priority_run n (q, h) = (Ok rs, (q', h')) ∧ queue_inv i q' h' ∧ length rs = n ∧
    (∀ k, (k < n)%nat → rs !! k = Some (service_order q !! k)) ∧ service_order q' = drop n (service_order q).
Proof.
  revert q h. induction n as [|n IH]; intros q h Hq.
  { exists [], q, h. split; [done|]. split; [done|]. split; [done|]. split; [lia|by rewrite drop_0]. }
  destruct (priority_decision q h (qi_held _ _ _ Hq)) as (q1 & h1 & E1 & Hd & Hq1).
  { intros pid Hin. destruct (qi_member _ _ _ _ Hq Hin) as (p & Hp & _). by exists p. }
  destruct (decision_inv _ _ _ _ _ _ Hq Hd) as [Hqi1 _]. destruct (IH q1 h1 Hqi1) as (rs & q' & h' & E & Hqi' & Hl & Hk & Hs).
  pose proof (first_of_service q) as Hf. set (r := snd ∘ fst <$> first_of [LHigh; LNormal; LLow] q) in *.
  exists (r :: rs), q', h'. cbn [priority_run]. rewrite (bind_ok _ _ _ _ _ E1), (bind_ok _ _ _ _ _ E). split; [done|]. split; [done|].
  split; [cbn; lia|]. destruct (first_of _ q) as [[[l pid] rest]|] eqn:Ef; unfold r; cbn [fmap option_fmap option_map snd fst compose].
  - destruct Hf as (Hl' & El & Eo). rewrite (Hq1 _ _ _ eq_refl) in Hk, Hs.
    assert (service_order (switched (q_set_current (Some pid) (q_set_list l rest q))) = service_order (q_set_list l rest q)) as Ex by (by destruct l).
    rewrite Ex in Hk, Hs. rewrite Eo. split.
    + intros [|k] Hlt; [done|]. cbn. apply Hk. lia.
    + by rewrite Hs.
  - assert (q1 = q) as -> by (inversion Hd; subst; try done; unfold r in *; congruence). rewrite Hf in Hk, Hs. split.
    + intros [|k] Hlt; [by rewrite Hf|]. rewrite Hf. cbn. rewrite Hk by lia. done.
    + by rewrite Hs, Hf, !drop_nil.
Qed.

(** One CPU with one new process, waiting in the queue [l]. *)
Definition one_process (l : QLock) (p : Process) : Sched :=
  mkSched [with_load (q_set_list l [1] (queue_new 0))] [Some 1] {[1 := set_assigned_cpu 0 p]}
    (mkConf 0 1 RoundRobin 10 true 0 2 0) no_locks.

Lemma create_first entry_point priority :
  sched_op (SCreate entry_point priority) (set_queues [queue_new 0] scheduler_new) =
  (Ok (Some 1), one_process (priority_queue priority) (process_new 1 0 entry_point priority)).
Proof.
  set (p := process_new 1 0 entry_point priority). set (h := <[1 := p]> ∅ : Heap).
  set (c := mkConf 0 1 RoundRobin 10 true 0 2 0). set (s0 := set_queues [queue_new 0] scheduler_new).
  set (s1 := set_heap h (set_conf c s0)).
  set (s2 := set_processes [Some 1] (set_lock SProcesses (mkRw 0 true) s1)). set (s3 := set_lock SQueues (mkRw 0 true) s2).
  pose proof (add_process_ok 1 p (queue_new 0) h eq_refl ltac:(apply lookup_insert_eq)) as Ha.
  assert (on_queue 0 (add_process 1) s3 = (Ok tt, set_heap (<[1 := set_assigned_cpu 0 p]> h) (set_queues [pushed 1 priority (queue_new 0)] s3))) as Eq.
  { unfold on_queue. change (per_cpu_queues s3 !! Z.to_nat 0) with (Some (queue_new 0)). change (s_heap s3) with h.
    cbv beta iota. rewrite Ha. reflexivity. }
  set (body1 := (let! _ := on_queue 0 (add_process 1) in mok 1) : SM Z).
  set (body2 := (let! _ := mmod (λ s, set_processes (table_insert 1 (processes s)) s) in
                 let! target_cpu := select_cpu_for_new_process in
                 with_write SQueues (let! _ := on_queue target_cpu (add_process 1) in mok 1)) : SM Z).
  assert (create_process entry_point priority s0 = with_write SProcesses body2 s1) as E by reflexivity.
  assert (body2 (set_lock SProcesses (mkRw 0 true) s1) = with_write SQueues body1 s2) as E2 by reflexivity.
  assert (body1 s3 = (Ok 1, set_heap (<[1 := set_assigned_cpu 0 p]> h) (set_queues [pushed 1 priority (queue_new 0)] s3))) as Eb
    by (unfold body1; by rewrite (bind_ok _ _ _ _ _ Eq)).
  rewrite (with_write_ok SQueues _ s2 _ _ eq_refl Eb) in E2. rewrite (with_write_ok SProcesses _ s1 _ _ eq_refl E2) in E.
  unfold sched_op. rewrite (bind_ok _ _ _ _ _ E). unfold one_process, mok, pushed, h. rewrite insert_insert_eq.
  destruct (priority_queue priority); reflexivity.
Qed.


(** A timer interrupt that arrives while the run queues are locked for writing never returns. *)
Lemma timer_interrupt_in_critical_section s : rw_writer (lk_queues (s_locks s)) = true → (timer_interrupt s).1 = Hang.
Proof.
  intros Hw. unfold timer_interrupt, timer_tick, with_read, mbindM, mmod, mget. rewrite next_tick_ok. cbn [s_locks set_conf lk_get]. by rewrite Hw.
Qed.

(** ** Properties *)

(** C5: the scheduler either keeps its invariant or stops for good, and which of the two is decided by a
    condition on its state. The invariant: every process of a run queue is in the process table, waits in
    one queue once, is ready there or running as the current process, and names its queue's CPU; no lock
    is held between operations. An operation fails to return exactly when it has to remove a process that
    is in a run queue, preempt a running process, steal a waiting process, index a missing queue or
    divide by zero. *)
Theorem scheduler_step o s :
  sched_inv s → 0 ≤ next_pid (s_conf s) < 2 ^ 64 - 1 → sop_ok o →
  (stuck s o → not_ok (sched_op o s).1) ∧
  (¬ stuck s o → ∃ r s', sched_op o s = (Ok r, s') ∧ sched_inv s' ∧
     next_pid (s_conf s) ≤ next_pid (s_conf s') ≤ next_pid (s_conf s) + 1).
Proof. apply sched_op_step. Qed.

Lemma scheduler_step_witness :
  (stuck scheduler_new (SCreate 0x400000 64) → not_ok (sched_op (SCreate 0x400000 64) scheduler_new).1) ∧
  ∃ r s', sched_op (SInit 2) scheduler_new = (Ok r, s') ∧ sched_inv s'.
Proof.
  split.
  - apply (scheduler_step (SCreate 0x400000 64) scheduler_new); [apply scheduler_new_inv|by vm_compute|by vm_compute].
  - destruct (scheduler_step (SInit 2) scheduler_new) as [_ H]; [apply scheduler_new_inv|by vm_compute|by vm_compute|].
    destruct (H ltac:(intros [])) as (r & s' & E & Hs & _). exists r, s'. split; [exact E|exact Hs].
Defined.

(** C31: in every state the scheduler reaches from boot, no lock is held; a process is in at most one run queue and
    there at most once, is in the process table, is assigned to the processor of its queue, and is marked ready while
    it waits and running while it is current. *)
Theorem reachable_queues_well_formed ops rs s :
  zlen ops < 2 ^ 64 - 1 → Forall sop_ok ops → sched_run ops scheduler_new = (Ok rs, s) →
  s_locks s = no_locks ∧
  ∀ i q, per_cpu_queues s !! i = Some q → q_held q = [] ∧ NoDup (members q) ∧
    (∀ pid, pid ∈ members q → Some pid ∈ processes s ∧ p_assigned_cpu <$> s_heap s !! pid = Some (Z.of_nat i) ∧
       (∀ j q', per_cpu_queues s !! j = Some q' → pid ∈ members q' → j = i)) ∧
    (∀ pid, pid ∈ queued q → p_state <$> s_heap s !! pid = Some Ready) ∧
    (∀ pid, q_current q = Some pid → p_state <$> s_heap s !! pid = Some Running).
Proof.
  intros Hn Hops E. destruct (sched_run_inv ops scheduler_new rs s scheduler_new_inv ltac:(cbn; lia) ltac:(cbn; lia) Hops E) as [Hl Hd].
  split; [done|]. intros i q Hq. destruct (si_queues _ Hd _ _ Hq) as [_ Hh _ Hnd Hqu Hcu]. split; [done|]. split; [done|]. split; [|split].
  - intros pid Hin. destruct (member_queue s i q pid Hd Hq Hin) as (p & Hp & Ha & _). split; [apply Hd; by exists p|].
    split; [rewrite Hp; cbn; by rewrite Ha|].
    intros j q' Hj Hin'. destruct (member_queue s j q' pid Hd Hj Hin') as (p' & Hp' & Ha' & _). rewrite Hp in Hp'. injection Hp' as <-. lia.
  - intros pid Hin. destruct (Hqu pid Hin) as (p & -> & <- & _). done.
  - intros pid Hin. destruct (Hcu pid Hin) as (p & -> & <- & _). done.
Qed.

Definition demo_ops : list SOp := [SInit 2; SCreate 0x400000 64; SCreate 0x400000 200; SCreate 0x400000 10; SSchedule].

Lemma reachable_queues_well_formed_witness :
  ∃ rs s q, sched_run demo_ops scheduler_new = (Ok rs, s) ∧ per_cpu_queues s !! 0%nat = Some q ∧ NoDup (members q).
Proof.
  assert (zlen demo_ops < 2 ^ 64 - 1) as H1 by (by vm_compute).
  assert (Forall sop_ok demo_ops) as H2 by (unfold demo_ops; forall_list; cbn; lia).
  destruct (sched_run demo_ops scheduler_new) as [[rs| | |] s] eqn:E; try (exfalso; vm_compute in E; discriminate E).
  destruct (per_cpu_queues s !! 0%nat) as [q|] eqn:Eq.
  - exists rs, s, q. split; [reflexivity|]. split; [exact Eq|].
    exact (proj1 (proj2 (proj2 (reachable_queues_well_formed demo_ops rs s H1 H2 E) 0%nat q Eq))).
  - exfalso. assert (per_cpu_queues (sched_run demo_ops scheduler_new).2 !! 0%nat ≠ None) as Hne by (clear; vm_compute; discriminate).
    rewrite E in Hne. exact (Hne Eq).
Defined.

(** C32: under the priority policy every waiting process is served. Consecutive scheduling decisions of a run
    queue hand out its waiting processes in the order high, normal, low priority, first come first served
    in each class, and report that nothing is left only after the last one. *)
Theorem priority_serves_all n i q h :
  queue_inv i q h →
  ∃ rs q' h', priority_run n (q, h) = (Ok rs, (q', h')) ∧ queue_inv i q' h' ∧ length rs = n ∧
    (∀ k, (k < n)%nat → rs !! k = Some (service_order q !! k)) ∧ service_order q' = drop n (service_order q).
Proof. apply priority_run_ok. Qed.

Definition demo_heap : Heap := <[1 := process_new 1 0 0x400000 64]> {[2 := process_new 2 0 0x400000 200]}.
Definition demo_queue : CpuRunQueue := mkQueue 0 [] None [2] [1] [] 2 0 0 0 0 [].

Lemma priority_serves_all_witness :
  ∃ q' h', priority_run 3 (demo_queue, demo_heap) = (Ok [Some 2; Some 1; None], (q', h')).
Proof.
  destruct (priority_serves_all 3 0 demo_queue demo_heap) as (rs & q' & h' & E & _ & Hl & Hk & _).
  - split; [done|done|by vm_compute| | |done].
    + apply (bool_decide_unpack _). by vm_compute.
    + intros pid Hin. assert (pid = 2 ∨ pid = 1) as [->| ->] by (unfold queued in Hin; cbn in Hin; set_solver); by eexists.
  - exists q', h'. rewrite E. do 2 f_equal. apply list_eq_same_length with (n := 3%nat); [done|done|].
    intros k x y Hlt Hx Hy. rewrite Hk in Hx by done. injection Hx as <-.
    destruct k as [|[|[|k]]]; [by injection Hy as <-..|]. clear -Hlt. lia.
Defined.

Lemma sched_run_cons op ops s r s1 rs s2 :
  sched_op op s = (Ok r, s1) → sched_run ops s1 = (Ok rs, s2) → sched_run (op :: ops) s = (Ok (r :: rs), s2).
Proof. intros E1 E2. cbn [sched_run]. by rewrite (bind_ok _ _ _ _ _ E1), (bind_ok _ _ _ _ _ E2). Qed.

Lemma sched_run_hang ops ops' s rs s' :
  sched_run ops s = (Ok rs, s') → (sched_run ops' s').1 = Hang → (sched_run (ops ++ ops') s).1 = Hang.
Proof.
  revert s rs. induction ops as [|op ops IH]; cbn [sched_run app]; intros s rs Hr Hh.
  { by injection Hr as _ <-. }
  unfold mbindM at 1 in Hr. unfold mbindM at 1. destruct (sched_op op s) as [[r| | |] s1]; try done.
  apply bind_hang. destruct (sched_run ops s1) as [[rs1| | |] s2] eqn:E; try (unfold mbindM in Hr; by rewrite E in Hr).
  rewrite (bind_ok _ _ _ _ _ E) in Hr. injection Hr as _ <-. by apply (IH _ _ E).
Qed.

(** The end of a time slice with a running process. *)
Lemma slice_end_hangs s q pid p :
  s_locks s = no_locks → per_cpu_queues s = [q] → q_held q = [] → q_current q = Some pid → s_heap s !! pid = Some p → p_state p = Running →
  time_slice_ticks (s_conf s) ≠ 0 → tick_counter (s_conf s) `mod` time_slice_ticks (s_conf s) = 0 → (timer_tick 0 s).1 = Hang.
Proof.
  intros Hl Hqs Hh Hc Hp Hr Hsl Ht. set (t := tick_counter (s_conf s)) in *.
  destruct (queue_timer_tick_ok t q (s_heap s) Hh) as (q' & Eq & Hag).
  assert (q_held q' = [] ∧ q_current q' = Some pid) as [Hh' Hc'] by (destruct Hag; split; etransitivity; eauto).
  set (s1 := set_conf (conf_tick (wrap64 (t + 1)) (s_conf s)) s). set (s2 := read_locked SQueues s1).
  set (s3 := set_heap (s_heap s) (set_queues [q'] s2)).
  assert (on_queue 0 (queue_timer_tick t) s2 = (Ok tt, s3)) as E3.
  { unfold on_queue. replace (per_cpu_queues s2 !! Z.to_nat 0) with (Some q) by (cbn; by rewrite Hqs).
    change (s_heap s2) with (s_heap s). rewrite Eq. unfold s3. do 2 f_equal. change (per_cpu_queues s2) with (per_cpu_queues s). by rewrite Hqs. }
  unfold timer_tick. rewrite (bind_ok _ _ _ _ _ (next_tick_ok s)). apply with_read_hang; [cbn; by rewrite Hl|]. fold t s1 s2.
  rewrite (bind_ok mget _ s2 s2 s2 eq_refl), bool_decide_eq_true_2 by (change (per_cpu_queues s2) with (per_cpu_queues s); by rewrite Hqs).
  rewrite (bind_ok _ _ _ _ _ E3), (bind_ok mget _ s3 s3 s3 eq_refl).
  change (time_slice_ticks (s_conf s3)) with (time_slice_ticks (s_conf s)). rewrite bool_decide_eq_false_2, Ht by done.
  apply with_read_hang; [done|]. set (s4 := read_locked SQueues s3). rewrite (bind_ok mget _ s4 s4 s4 eq_refl).
  rewrite bool_decide_eq_true_2 by done. apply (on_queue_hang _ _ _ q'); [done|]. by apply (preempt_running q' _ pid p).
Qed.

(** The first process to run blocks the machine within one time slice. After boot with one CPU, creating a
    process of any priority and scheduling it, nine timer ticks return and the tenth never does: preempting
    the process waits for a lock that the preemption itself holds. *)
Theorem first_time_slice_deadlocks entry_point priority :
  is_ok (sched_run ([SInit 1; SCreate entry_point priority; SSchedule] ++ replicate 9 (STick 0)) scheduler_new).1 = true ∧
  (sched_run ([SInit 1; SCreate entry_point priority; SSchedule] ++ replicate 10 (STick 0)) scheduler_new).1 = Hang.
Proof.
  assert (∃ rs s q p, sched_run ([SInit 1; SCreate entry_point priority; SSchedule] ++ replicate 9 (STick 0)) scheduler_new = (Ok rs, s) ∧
    s_locks s = no_locks ∧ per_cpu_queues s = [q] ∧ q_held q = [] ∧ q_current q = Some 1 ∧ s_heap s !! 1 = Some p ∧ p_state p = Running ∧
    time_slice_ticks (s_conf s) ≠ 0 ∧ tick_counter (s_conf s) `mod` time_slice_ticks (s_conf s) = 0)
    as (rs & s & q & p & E & Hl & Hqs & Hh & Hc & Hp & Hr & Hsl & Ht).
  { pose proof (create_first entry_point priority) as Ec. cbn [app]. unfold priority_queue in Ec. repeat case_match; do 4 eexists; (split;
      [eapply sched_run_cons; [reflexivity|]; eapply sched_run_cons; [exact Ec|]; vm_compute; reflexivity|by split_and!]). }
  split; [by rewrite E|]. rewrite (replicate_S_end 9), app_assoc. apply (sched_run_hang _ _ _ _ _ E).
  apply bind_hang, bind_hang. by apply (slice_end_hangs s q 1 p).
Qed.
