(* ===== verification/Ide.v ===== *)
(** * The IDE driver at its ports

    The driver of [drivers/ide/src/lib.rs], with the port routines of
    [lib_kernel/src/api/commands.rs] it calls: drive selection, task file,
    polling, data transfer, identification and the size query, as programs over
    the processor's [in] and [out] instructions.

    The controller and its drives are not code of the repository. They are an
    abstract bus, [AtaBus], whose laws state the register protocol of an ATA
    drive in programmed I/O; [AtaFast] adds the timing the driver relies on, and
    [AtaClean] two register values that the identification relies on although
    the protocol does not promise them. On every bus with [AtaBus] and
    [AtaFast] the driver implements the sector device that the filesystem is
    verified against ([SectorDev] of [Device.v]). An executable drive satisfies
    the laws and carries the witnesses. *)

From S2P Require Import Prelude Device.

(** ** The processor's port instructions

    A 16-bit word moved through the data port is kept as its low and its high
    byte, the order in which the two lie in memory. *)
Class Ports (B : Type) := {
  inb : Z → B → Z * B;
  outb : Z → Z → B → B;
  inw : Z → B → (Z * Z) * B;
  outw : Z → Z * Z → B → B;
}.

(** ** Driver state *)

Definition ATA_SR_BSY : Z := 0x80.
Definition ATA_SR_DF : Z := 0x20.
Definition ATA_SR_DRQ : Z := 0x08.
Definition ATA_SR_ERR : Z := 0x01.
Definition ATA_CMD_READ_PIO : Z := 0x20.
Definition ATA_CMD_WRITE_PIO : Z := 0x30.
Definition ATA_CMD_CACHE_FLUSH : Z := 0xE7.
Definition ATA_CMD_IDENTIFY_PACKET : Z := 0xA1.
Definition ATA_CMD_IDENTIFY : Z := 0xEC.
Definition ATA_IDENT_MODEL : Z := 54.
Definition IDE_ATA : Z := 0.
Definition IDE_ATAPI : Z := 1.
Definition ATA_REG_DATA : Z := 0.
Definition ATA_REG_ERROR : Z := 1.
Definition ATA_REG_SECCOUNT0 : Z := 2.
Definition ATA_REG_LBA0 : Z := 3.
Definition ATA_REG_LBA1 : Z := 4.
Definition ATA_REG_LBA2 : Z := 5.
Definition ATA_REG_HDDEVSEL : Z := 6.
Definition ATA_REG_COMMAND : Z := 7.
Definition ATA_REG_STATUS : Z := 7.
Definition ATA_REG_ALTSTATUS : Z := 0x0C.

Record IDEChannelRegistors := mkRegs { ic_base : Z; ic_ctrl : Z; ic_bmide : Z; ic_n_ien : Z }.

Record IdeDevice := mkIde {
  id_reserved : Z; id_channel : Z; id_drive : Z; id_drive_type : Z; id_signature : Z;
  id_capabilities : Z; id_command_sets : Z; id_size : Z; id_model : list Z;
}.
Definition ide_device_new : IdeDevice := mkIde 0 0 0 0 0 0 0 0 (zeros 41).

(** The driver's statics. *)
Record IdeState := mkIdeState {
  CHANNELS : list IDEChannelRegistors;
  IDE_DEVICES : list IdeDevice;
  IDE_BUF : list Z;
}.
Definition ide_boot : IdeState :=
  mkIdeState [mkRegs 0x1F0 0x3F6 0 0; mkRegs 0x170 0x376 0 0] (replicate 4 ide_device_new) (zeros 2048).

Definition set_devices (ds : list IdeDevice) (s : IdeState) : IdeState := mkIdeState (CHANNELS s) ds (IDE_BUF s).
Definition set_buf (bs : list Z) (s : IdeState) : IdeState := mkIdeState (CHANNELS s) (IDE_DEVICES s) bs.
Definition set_channels (cs : list IDEChannelRegistors) (s : IdeState) : IdeState := mkIdeState cs (IDE_DEVICES s) (IDE_BUF s).

Section driver.
Context {B : Type} `{Ports B}.
Abbreviation IM := (M (IdeState * B) IdeError).

Definition port_in (port : Z) : IM Z := λ '(s, b), let '(v, b') := inb port b in (Ok v, (s, b')).
Definition port_out (port v : Z) : IM unit := λ '(s, b), (Ok tt, (s, outb port v b)).
Definition port_in_word (port : Z) : IM (Z * Z) := λ '(s, b), let '(v, b') := inw port b in (Ok v, (s, b')).
Definition port_out_word (port : Z) (w : Z * Z) : IM unit := λ '(s, b), (Ok tt, (s, outw port w b)).

(** [CHANNELS[channel as usize]], with the index checked. *)
Definition channel_regs (channel : Z) : IM IDEChannelRegistors := λ '(s, b),
  match CHANNELS s !! Z.to_nat channel with
  | Some c => (Ok c, (s, b))
  | None => (Panic, (s, b))
  end.

(** The port of a register, as [ide_read], [ide_write] and [ide_read_buffer] compute it. *)
Definition ide_port (channel reg : Z) : IM Z :=
  let! c := channel_regs channel in
  mlift (if reg <? 0x08 then add16 (ic_base c) reg else add16 (ic_ctrl c) (reg - 0x08)).

Definition ide_read (channel reg : Z) : IM Z := let! p := ide_port channel reg in port_in p.
Definition ide_write (channel reg data : Z) : IM unit := let! p := ide_port channel reg in port_out p data.

(** [insw]: [count] words from the port, one after the other. *)
Fixpoint insw (count : nat) (port : Z) : IM (list Z) :=
  match count with
  | O => mok []
  | S count =>
      let! w := port_in_word port in
      let! r := insw count port in
      mok (w.1 :: w.2 :: r)
  end.

(** [rep outsw]: the words of the buffer to the port. *)
Fixpoint outsw (port : Z) (buffer : list Z) : IM unit :=
  match buffer with
  | lo :: hi :: r => let! _ := port_out_word port (lo, hi) in outsw port r
  | _ => mok tt
  end.

(** [None] is the error, which leaves the buffer as it was. *)
Definition read_port_words_safe (port : Z) (buffer : list Z) : IM (option (list Z)) :=
  if negb (zlen buffer `mod` 2 =? 0) then mok None else
  if 0xFFFFFFFF * 2 <? zlen buffer then mok None else
  let! r := insw (Z.to_nat (zlen buffer / 2)) port in
  mok (Some r).

Definition ide_read_buffer (channel reg : Z) (buffer : list Z) : IM (list Z) :=
  let! p := ide_port channel reg in
  let! r := insw (Z.to_nat (zlen buffer / 2)) p in
  mok (put 0 r buffer).

(** The busy loop; [n] more busy answers are tolerated. *)
Fixpoint poll_loop (n : nat) (channel : Z) (advanced_check : bool) : IM unit :=
  let! status := ide_read channel ATA_REG_STATUS in
  if Z.land status ATA_SR_BSY =? 0 then
    if advanced_check then
      if negb (Z.land status ATA_SR_ERR =? 0) then merr IdeStatusError else
      if negb (Z.land status ATA_SR_DF =? 0) then merr IdeDriveFault else
      if Z.land status ATA_SR_DRQ =? 0 then merr IdeDataNotReady else mok tt
    else mok tt
  else
    match n with
    | O => merr IdeTimeout
    | S n => poll_loop n channel advanced_check
    end.

Definition POLL_LIMIT : nat := Z.to_nat 100000.

Definition ide_polling (channel : Z) (advanced_check : bool) : IM unit :=
  let! _ := ide_read channel ATA_REG_ALTSTATUS in
  poll_loop POLL_LIMIT channel advanced_check.

(** [IDE_DEVICES[i]], with the index checked. *)
Definition get_device (i : Z) : IM IdeDevice := λ '(s, b),
  match IDE_DEVICES s !! Z.to_nat i with
  | Some d => (Ok d, (s, b))
  | None => (Panic, (s, b))
  end.
Definition set_device (i : Z) (d : IdeDevice) : IM unit := λ '(s, b),
  match IDE_DEVICES s !! Z.to_nat i with
  | Some _ => (Ok tt, (set_devices (<[Z.to_nat i := d]> (IDE_DEVICES s)) s, b))
  | None => (Panic, (s, b))
  end.

(** The task file of a command: drive and head, count, three address bytes, the command. *)
Definition issue (channel slavebit head numsects lba command : Z) : IM unit :=
  let! _ := ide_write channel ATA_REG_HDDEVSEL (Z.lor (Z.lor 0xE0 (as_u8 (Z.shiftl slavebit 4))) head) in
  let! _ := ide_write channel ATA_REG_SECCOUNT0 numsects in
  let! _ := ide_write channel ATA_REG_LBA0 (as_u8 lba) in
  let! _ := ide_write channel ATA_REG_LBA1 (as_u8 (Z.shiftr lba 8)) in
  let! _ := ide_write channel ATA_REG_LBA2 (as_u8 (Z.shiftr lba 16)) in
  ide_write channel ATA_REG_COMMAND command.

(** [for sector in 0..numsects] of the read. *)
Fixpoint read_sectors_loop (n : nat) (sector bus : Z) (buf : list Z) : IM (list Z) :=
  match n with
  | O => mok buf
  | S n =>
      let sector_offset := sector * 512 in
      if zlen buf <? sector_offset + 512 then merr IdeBufferTooSmall else
      let! r := read_port_words_safe bus (field (Z.to_nat sector_offset) 512 buf) in
      read_sectors_loop n (sector + 1) bus
        (match r with Some bs => put (Z.to_nat sector_offset) bs buf | None => buf end)
  end.

(** [ide_read_sectors] *)
Definition pio_read_sectors (drive numsects lba : Z) (buf : list Z) : IM (list Z) :=
  if 3 <? drive then merr IdeInvalidParameter else
  let! device := get_device drive in
  if id_reserved device =? 0 then merr IdeDriveNotFound else
  if zlen buf <? numsects * 512 then merr IdeBufferTooSmall else
  let! regs := channel_regs (id_channel device) in
  let head := if 0x10000000 <=? lba then 0 else as_u8 (Z.land (Z.shiftr lba 24) 0x0F) in
  let! _ := issue (id_channel device) (id_drive device) head numsects lba ATA_CMD_READ_PIO in
  let! _ := ide_polling (id_channel device) true in
  read_sectors_loop (Z.to_nat numsects) 0 (ic_base regs) buf.

(** [ide_write_sectors] *)
Definition pio_write_sectors (drive numsects lba : Z) (buf : list Z) : IM unit :=
  if 3 <? drive then merr IdeInvalidParameter else
  let! device := get_device drive in
  if id_reserved device =? 0 then merr IdeDriveNotFound else
  if zlen buf <? numsects * 512 then merr IdeBufferTooSmall else
  let! regs := channel_regs (id_channel device) in
  if 0x10000000 <=? lba then merr IdeLbaOutOfRange else
  let head := as_u8 (Z.land (Z.shiftr lba 24) 0x0F) in
  let! _ := issue (id_channel device) (id_drive device) head numsects lba ATA_CMD_WRITE_PIO in
  let! _ := ide_polling (id_channel device) false in
  let! _ := outsw (ic_base regs) (take (Z.to_nat (numsects * 256 * 2)) buf) in
  let! _ := ide_write (id_channel device) ATA_REG_COMMAND ATA_CMD_CACHE_FLUSH in
  ide_polling (id_channel device) false.

(** The busy loop of [ide_identify]. *)
Fixpoint identify_wait (n : nat) (channel : Z) : IM unit :=
  let! status := ide_read channel ATA_REG_STATUS in
  if Z.land status ATA_SR_BSY =? 0 then mok tt else
  match n with
  | O => merr IdeTimeout
  | S n => identify_wait n channel
  end.

(** The [i]-th word of the identification buffer. *)
Definition buf_word (bs : list Z) (i : nat) : Z := le_dec (field (2 * i) 2 bs).

(** The model string: the bytes of each word swapped, then a zero. *)
Definition model_bytes (bs : list Z) : list Z :=
  mjoin ((λ i, let w := buf_word bs (Z.to_nat (ATA_IDENT_MODEL / 2) + i) in [Z.shiftr w 8; Z.land w 0xFF]) <$> seq 0 20) ++ [0].

(** What [ide_identify] stores for an ATA drive, from its identification block. *)
Definition ata_device (channel drive : Z) (bs : list Z) : IdeDevice :=
  let command_sets := Z.lor (buf_word bs 82) (Z.shiftl (buf_word bs 83) 16) in
  let sectors_28bit := Z.lor (buf_word bs 60) (Z.shiftl (buf_word bs 61) 16) in
  let supports_48bit := negb (Z.land command_sets (Z.shiftl 1 26) =? 0) in
  let sectors_48bit := Z.lor (Z.lor (Z.lor (buf_word bs 100) (Z.shiftl (buf_word bs 101) 16))
                                    (Z.shiftl (buf_word bs 102) 32)) (Z.shiftl (buf_word bs 103) 48) in
  mkIde 1 channel drive IDE_ATA (buf_word bs 0) (buf_word bs 49) command_sets
    (if supports_48bit && (sectors_28bit =? 0xFFFFFFFF) then as_u32 sectors_48bit else sectors_28bit)
    (model_bytes bs).

Definition atapi_device (channel drive : Z) (bs : list Z) : IdeDevice :=
  mkIde 1 channel drive IDE_ATAPI (buf_word bs 0) (buf_word bs 49) 0 0 (model_bytes bs).

Definition ide_identify (channel drive : Z) : IM unit :=
  let! _ := ide_write channel ATA_REG_HDDEVSEL (Z.lor 0xA0 (as_u8 (Z.shiftl drive 4))) in
  let! _ := ide_write channel ATA_REG_COMMAND ATA_CMD_IDENTIFY in
  let! status := ide_read channel ATA_REG_STATUS in
  let device_index := channel * 2 + drive in
  if status =? 0 then
    let! d := get_device device_index in
    let! _ := set_device device_index
      (mkIde 0 (id_channel d) (id_drive d) (id_drive_type d) (id_signature d) (id_capabilities d) (id_command_sets d) (id_size d) (id_model d)) in
    merr IdeDriveNotFound
  else
  let! _ := identify_wait POLL_LIMIT channel in
  let! err := ide_read channel ATA_REG_ERROR in
  let! type_ := (if negb (err =? 0)
                 then let! _ := ide_write channel ATA_REG_COMMAND ATA_CMD_IDENTIFY_PACKET in mok IDE_ATAPI
                 else mok IDE_ATA) in
  let! _ := set_device device_index (mkIde 1 channel drive type_ 0 0 0 0 (zeros 41)) in
  let! bs := ide_read_buffer channel ATA_REG_DATA (zeros 512) in
  let! _ := mmod (λ '(s, b), (set_buf (put 0 bs (IDE_BUF s)) s, b)) in
  set_device device_index (if type_ =? IDE_ATA then ata_device channel drive bs else atapi_device channel drive bs).

Fixpoint identify_all (drives : list Z) : IM unit :=
  match drives with
  | [] => mok tt
  | i :: drives => λ s,
      match ide_identify (i / 2) (i `mod` 2) s with
      | (Ok _, s') | (Err _, s') => identify_all drives s'
      | (Panic, s') => (Panic, s')
      | (Hang, s') => (Hang, s')
      end
  end.

Definition ide_initialize : IM unit :=
  let! _ := mmod (λ '(s, b), (set_channels ((λ c, mkRegs (ic_base c) (ic_ctrl c) (ic_bmide c) 0x02) <$> CHANNELS s) s, b)) in
  let! _ := mmod (λ '(s, b), (set_devices (replicate 4 ide_device_new) s, b)) in
  identify_all [0; 1; 2; 3].

(** [return_drive_size_bytes] *)
Definition ide_drive_size (drive : Z) (d : IdeState * B) : res IdeError Z :=
  if 3 <? drive then Err IdeDriveNotFound else
  match IDE_DEVICES d.1 !! Z.to_nat drive with
  | None => Panic
  | Some device =>
      if id_reserved device =? 0 then Err IdeDriveNotFound else
      if as_u8 (id_drive_type device) =? IDE_ATA then mul64 (id_size device) 512 else Ok 0
  end.
End driver.

(** ** The bus: an ATA controller with up to four drives *)

(** What a drive is doing: waiting for a command, refusing the last one, holding
    bytes for the processor, or taking the bytes of the sectors from [a] on
    ([left] sectors, [got] of the first one). *)
Inductive AtaPhase : Type :=
  | PIdle
  | PFailed
  | PIn (rest : list Z)
  | POut (a left : Z) (got : list Z).

(** The registers of one channel. *)
Record AtaChan := mkChan { tf_count : Z; tf_lba0 : Z; tf_lba1 : Z; tf_lba2 : Z; tf_dev : Z; ch_phase : AtaPhase }.

Definition with_phase (p : AtaPhase) (ch : AtaChan) : AtaChan :=
  mkChan (tf_count ch) (tf_lba0 ch) (tf_lba1 ch) (tf_lba2 ch) (tf_dev ch) p.

Definition tf_write (r v : Z) (ch : AtaChan) : AtaChan :=
  mkChan (if r =? 2 then v else tf_count ch) (if r =? 3 then v else tf_lba0 ch) (if r =? 4 then v else tf_lba1 ch)
    (if r =? 5 then v else tf_lba2 ch) (if r =? 6 then v else tf_dev ch) (ch_phase ch).

(** The 28-bit address, the count (0 stands for 256) and the selected drive. *)
Definition ch_lba (ch : AtaChan) : Z :=
  tf_lba0 ch + 2 ^ 8 * tf_lba1 ch + 2 ^ 16 * tf_lba2 ch + 2 ^ 24 * (tf_dev ch `mod` 16).
Definition ch_count (ch : AtaChan) : Z := if tf_count ch =? 0 then 256 else tf_count ch.
Definition ch_drive (c : Z) (ch : AtaChan) : Z := 2 * c + (tf_dev ch / 16) `mod` 2.

Record Disk := mkDisk { dk_size : Z; dk_identify : list Z; dk_sector : Z → list Z }.

(** A drive of at most 2^28 sectors whose identification block reports its size in words 60 and 61. *)
Record disk_wf (k : Disk) : Prop := {
  dw_size : 0 ≤ dk_size k ≤ 2 ^ 28;
  dw_sector a : length (dk_sector k a) = 512%nat;
  dw_identify : length (dk_identify k) = 512%nat;
  dw_reported_low : field 120 2 (dk_identify k) = le_bytes 2 (dk_size k `mod` 2 ^ 16);
  dw_reported_high : field 122 2 (dk_identify k) = le_bytes 2 (dk_size k / 2 ^ 16);
}.

Definition ata_port (c r : Z) : Z := (if c =? 0 then 0x1F0 else 0x170) + r.
Definition is_chan (c : Z) : Prop := c = 0 ∨ c = 1.

(** A drive that moves data shows DRQ and neither an error nor a fault. *)
Definition status_shows (p : AtaPhase) (k : option Disk) (s : Z) : Prop :=
  match k, p with
  | Some _, (PIn _ | POut _ _ _) => Z.land s 0x08 ≠ 0 ∧ Z.land s 0x01 = 0 ∧ Z.land s 0x20 = 0
  | _, _ => True
  end.

Class AtaView (B : Type) := {
  chan : B → Z → AtaChan;
  disk : B → Z → option Disk;
  busy : B → Z → nat;  (** how many more times the status register answers busy *)
}.

(** A channel is ready for a command. *)
Definition ready {B} `{AtaView B} (b : B) (c : Z) : Prop := ch_phase (chan b c) = PIdle ∧ busy b c = 0%nat.
Definition selected {B} `{AtaView B} (b : B) (c : Z) : option Disk := disk b (ch_drive c (chan b c)).
Definition same_disks {B} `{AtaView B} (b b' : B) : Prop := ∀ dr, disk b' dr = disk b dr.
Definition other_channels {B} `{AtaView B} (c : Z) (b b' : B) : Prop :=
  ∀ c', is_chan c' → c' ≠ c → chan b' c' = chan b c' ∧ busy b' c' = busy b c'.

Class AtaBus (B : Type) `{Ports B, AtaView B} : Prop := {
  ata_disk_wf b dr k : disk b dr = Some k → disk_wf k;

  (** writing a register of the task file *)
  ata_task_file b c r v :
    is_chan c → 2 ≤ r ≤ 6 → 0 ≤ v < 256 → ready b c →
    let b' := outb (ata_port c r) v b in
    chan b' c = tf_write r v (chan b c) ∧ busy b' c = 0%nat ∧ other_channels c b b' ∧ same_disks b b';

  (** commands, accepted when the channel is ready *)
  ata_read b c k :
    is_chan c → ready b c → selected b c = Some k → ch_lba (chan b c) + ch_count (chan b c) ≤ dk_size k →
    let b' := outb (ata_port c 7) 0x20 b in
    chan b' c = with_phase (PIn (mjoin (dk_sector k <$> seqZ (ch_lba (chan b c)) (ch_count (chan b c))))) (chan b c) ∧
    other_channels c b b' ∧ same_disks b b';
  ata_write b c k :
    is_chan c → ready b c → selected b c = Some k → ch_lba (chan b c) + ch_count (chan b c) ≤ dk_size k →
    let b' := outb (ata_port c 7) 0x30 b in
    chan b' c = with_phase (POut (ch_lba (chan b c)) (ch_count (chan b c)) []) (chan b c) ∧ other_channels c b b' ∧ same_disks b b';
  ata_flush b c k :
    is_chan c → ready b c → selected b c = Some k →
    let b' := outb (ata_port c 7) 0xE7 b in
    chan b' c = chan b c ∧ other_channels c b b' ∧ same_disks b b';
  ata_identify b c :
    is_chan c → ready b c →
    let b' := outb (ata_port c 7) 0xEC b in
    match selected b c with
    | Some k => chan b' c = with_phase (PIn (dk_identify k)) (chan b c)
    | None => chan b' c = chan b c ∧ busy b' c = 0%nat
    end ∧ other_channels c b b' ∧ same_disks b b';

  (** the status register *)
  ata_status b c s b' :
    is_chan c → inb (ata_port c 7) b = (s, b') →
    chan b' c = chan b c ∧ other_channels c b b' ∧ same_disks b b' ∧
    match busy b c with
    | S n => Z.land s 0x80 ≠ 0 ∧ busy b' c = n
    | O => (selected b c ≠ None → Z.land s 0x80 = 0) ∧ busy b' c = 0%nat ∧ status_shows (ch_phase (chan b c)) (selected b c) s
    end;

  (** the error register while a drive holds data: reading it changes nothing *)
  ata_error b c bs v b' :
    is_chan c → ch_phase (chan b c) = PIn bs → busy b c = 0%nat → inb (ata_port c 1) b = (v, b') →
    chan b' c = chan b c ∧ busy b' c = 0%nat ∧ other_channels c b b' ∧ same_disks b b';

  (** a port that belongs to no register *)
  ata_unused b p v b' :
    p = 0x3FA ∨ p = 0x37A → inb p b = (v, b') → (∀ c, is_chan c → chan b' c = chan b c ∧ busy b' c = busy b c) ∧ same_disks b b';

  (** the data port; the drive may turn busy after each block of 512 bytes *)
  ata_data_in b c lo hi rest :
    is_chan c → busy b c = 0%nat → ch_phase (chan b c) = PIn (lo :: hi :: rest) →
    ∃ b', inw (ata_port c 0) b = ((lo, hi), b') ∧
      chan b' c = with_phase (if rest is [] then PIdle else PIn rest) (chan b c) ∧ other_channels c b b' ∧ same_disks b b' ∧
      (zlen rest `mod` 512 ≠ 0 → busy b' c = 0%nat);
  ata_data_out b c a left got lo hi k :
    is_chan c → busy b c = 0%nat → ch_phase (chan b c) = POut a left got → (length got < 511)%nat → selected b c = Some k →
    let b' := outw (ata_port c 0) (lo, hi) b in
    other_channels c b b' ∧
    if (length got =? 510)%nat then
      chan b' c = with_phase (if left =? 1 then PIdle else POut (a + 1) (left - 1) []) (chan b c) ∧
      (∀ dr, dr ≠ ch_drive c (chan b c) → disk b' dr = disk b dr) ∧
      ∃ k', selected b' c = Some k' ∧ dk_size k' = dk_size k ∧ dk_identify k' = dk_identify k ∧
        ∀ x, dk_sector k' x = if x =? a then got ++ [lo; hi] else dk_sector k x
    else
      chan b' c = with_phase (POut a left (got ++ [lo; hi])) (chan b c) ∧ same_disks b b' ∧ busy b' c = 0%nat;
}.

(** The timing the driver relies on: a command is answered before the polling
    loop gives up, and the next block is ready as soon as the last one is through. *)
Class AtaFast (B : Type) `{Ports B, AtaView B} : Prop := {
  fast_command b c v : is_chan c → ready b c → (busy (outb (ata_port c 7) v b) c ≤ POLL_LIMIT)%nat;
  fast_in b c w b' : is_chan c → busy b c = 0%nat → inw (ata_port c 0) b = (w, b') → busy b' c = 0%nat;
  fast_out b c w : is_chan c → busy b c = 0%nat → busy (outw (ata_port c 0) w b) c = 0%nat;
}.

(** What the identification relies on beyond the protocol, which gives the error register a meaning only while the status
    shows an error, and which says nothing about a channel without drives: after an accepted IDENTIFY the error register
    reads zero, and where no drive is selected the status register does. *)
Class AtaClean (B : Type) `{Ports B, AtaView B} : Prop := {
  clean_error b c bs v b' : is_chan c → ch_phase (chan b c) = PIn bs → busy b c = 0%nat → inb (ata_port c 1) b = (v, b') → v = 0;
  clean_absent b c v b' : is_chan c → selected b c = None → busy b c = 0%nat → inb (ata_port c 7) b = (v, b') → v = 0;
}.

(** ** The driver on a bus *)
Section on_bus.
Context {B : Type} {HP : Ports B} {HV : AtaView B} {HB : AtaBus B}.
Implicit Types (b : B) (s : IdeState).

(** The static table of channels; initialisation only sets the interrupt flag. *)
Definition chans_ok (s : IdeState) : Prop :=
  ∃ n0 n1, CHANNELS s = [mkRegs 0x1F0 0x3F6 0 n0; mkRegs 0x170 0x376 0 n1].

(** A step on channel [c] that keeps the other channel and the disks. *)
Definition quiet (c : Z) b b' : Prop := other_channels c b b' ∧ same_disks b b'.

#[local] Instance quiet_preorder c : PreOrder (quiet c).
Proof.
  split; [by split|]. intros x y z [H1 H2] [H3 H4]. split.
  - intros c' Hc Hne. destruct (H1 c' Hc Hne), (H3 c' Hc Hne). split; congruence.
  - intros dr. by rewrite H4.
Qed.

Lemma quiet_selected c b b' : quiet c b b' → chan b' c = chan b c → selected b' c = selected b c.
Proof. intros [_ Hd] Hc. unfold selected. by rewrite Hc, Hd. Qed.

Lemma channel_regs_ok s b c : chans_ok s → is_chan c →
  ∃ r, channel_regs c (s, b) = (Ok r, (s, b)) ∧ ic_base r = ata_port c 0.
Proof. intros (n0 & n1 & E) [-> | ->]; unfold channel_regs; rewrite E; by eexists. Qed.

Lemma ide_port_ok s b c r : chans_ok s → is_chan c → 0 ≤ r < 8 → ide_port c r (s, b) = (Ok (ata_port c r), (s, b)).
Proof.
  intros (n0 & n1 & E) Hc Hr. unfold ide_port, mbindM, channel_regs. rewrite E.
  assert ((r <? 8) = true) as -> by lia. unfold add16, mlift, ata_port.
  destruct Hc as [-> | ->]; [change (Z.to_nat 0) with 0%nat|change (Z.to_nat 1) with 1%nat]; cbn [lookup list_lookup ic_base ic_ctrl Z.eqb];
    by rewrite chk_ok by lia.
Qed.

Lemma ide_write_ok s b c r v : chans_ok s → is_chan c → 0 ≤ r < 8 →
  ide_write c r v (s, b) = (Ok tt, (s, outb (ata_port c r) v b)).
Proof. intros. unfold ide_write. by rewrite (bind_ok _ _ _ _ _ (ide_port_ok _ _ _ _ ltac:(done) ltac:(done) ltac:(done))). Qed.

Lemma ide_read_ok s b c r v b' : chans_ok s → is_chan c → 0 ≤ r < 8 → inb (ata_port c r) b = (v, b') →
  ide_read c r (s, b) = (Ok v, (s, b')).
Proof.
  intros ??? E. unfold ide_read. rewrite (bind_ok _ _ _ _ _ (ide_port_ok _ _ _ _ ltac:(done) ltac:(done) ltac:(done))).
  unfold port_in. by rewrite E.
Qed.

(** The register the driver takes for the alternate status is a port of no register. *)
Lemma ide_read_altstatus s b c : chans_ok s → is_chan c →
  ∃ v b', ide_read c ATA_REG_ALTSTATUS (s, b) = (Ok v, (s, b')) ∧ chan b' c = chan b c ∧ busy b' c = busy b c ∧ quiet c b b'.
Proof.
  intros (n0 & n1 & E) Hc. set (p := if c =? 0 then 0x3FA else 0x37A). destruct (inb p b) as [v b'] eqn:Ei.
  exists v, b'. split.
  - unfold ide_read, ide_port, mbindM, channel_regs. rewrite E.
    change (ATA_REG_ALTSTATUS <? 8) with false. unfold add16, mlift, ATA_REG_ALTSTATUS.
    destruct Hc as [-> | ->]; [change (Z.to_nat 0) with 0%nat|change (Z.to_nat 1) with 1%nat]; cbn [lookup list_lookup ic_ctrl];
      rewrite chk_ok by lia; unfold port_in; cbn [Z.add Z.sub Z.opp]; change (inb _ b) with (inb p b); by rewrite Ei.
  - destruct (ata_unused b p v b') as [H1 H2]; [unfold p; destruct (c =? 0); tauto|done|].
    destruct (H1 c Hc). split; [done|]. split; [done|]. split; [|done]. intros c' Hc' _. by apply H1.
Qed.

Lemma dev_select slave head : 0 ≤ slave ≤ 1 → 0 ≤ head < 16 →
  let v := Z.lor (Z.lor 0xE0 (as_u8 (Z.shiftl slave 4))) head in 0 ≤ v < 256 ∧ v `mod` 16 = head ∧ (v / 16) `mod` 2 = slave.
Proof.
  intros Hs Hh. cbn zeta.
  assert (∀ i j, (i < 2)%nat → (j < 16)%nat → (let v := Z.lor (Z.lor 0xE0 (as_u8 (Z.shiftl (Z.of_nat i) 4))) (Z.of_nat j) in
    (0 <=? v) && (v <? 256) && (v `mod` 16 =? Z.of_nat j) && ((v / 16) `mod` 2 =? Z.of_nat i)) = true) as Hall.
  { intros i j Hi Hj. do 2 (destruct i as [|i]; [do 16 (destruct j as [|j]; [done|]); lia|]). lia. }
  specialize (Hall (Z.to_nat slave) (Z.to_nat head)). rewrite !Z2Nat.id in Hall by lia. cbn zeta in Hall. lia.
Qed.

(** The task file is written and the command issued with the channel still idle. *)
Lemma issue_ok s b c slave head n lba cmd :
  chans_ok s → is_chan c → ready b c → 0 ≤ slave ≤ 1 → 0 ≤ head < 16 → 0 ≤ n < 256 →
  ∃ b1, issue c slave head n lba cmd (s, b) = (Ok tt, (s, outb (ata_port c 7) cmd b1)) ∧ ready b1 c ∧ quiet c b b1 ∧
    ch_drive c (chan b1 c) = 2 * c + slave ∧ ch_count (chan b1 c) = (if n =? 0 then 256 else n) ∧
    ch_lba (chan b1 c) = lba `mod` 2 ^ 24 + 2 ^ 24 * head.
Proof.
  intros Hs Hc Hr Hsl Hh Hn. destruct (dev_select slave head Hsl Hh) as (Hv & Hvh & Hvs). cbn zeta in *.
  set (v := Z.lor (Z.lor 0xE0 (as_u8 (Z.shiftl slave 4))) head) in *.
  assert (∀ b0 r x, ready b0 c → 2 ≤ r ≤ 6 → 0 ≤ x < 256 → ∃ b', ide_write c r x (s, b0) = (Ok tt, (s, b')) ∧
    chan b' c = tf_write r x (chan b0 c) ∧ ready b' c ∧ quiet c b0 b') as Hw.
  { intros b0 r x Hr0 Hr' Hx. exists (outb (ata_port c r) x b0). rewrite ide_write_ok by (done || lia). split; [done|].
    destruct (ata_task_file b0 c r x Hc Hr' Hx Hr0) as (E1 & E2 & E3 & E4). split; [done|]. split; [|done]. split; [|done].
    rewrite E1. apply Hr0. }
  assert (∀ z, 0 ≤ as_u8 z < 256) as H8 by (intros; unfold as_u8; apply Z.mod_pos_bound; lia).
  destruct (Hw b 6 v) as (b1 & E1 & C1 & R1 & Q1); [done|lia|done|].
  destruct (Hw b1 2 n) as (b2 & E2 & C2 & R2 & Q2); [done|lia|done|].
  destruct (Hw b2 3 (as_u8 lba)) as (b3 & E3 & C3 & R3 & Q3); [done|lia|done|].
  destruct (Hw b3 4 (as_u8 (Z.shiftr lba 8))) as (b4 & E4 & C4 & R4 & Q4); [done|lia|done|].
  destruct (Hw b4 5 (as_u8 (Z.shiftr lba 16))) as (b5 & E5 & C5 & R5 & Q5); [done|lia|done|].
  exists b5. split.
  { unfold issue. fold v. unfold ATA_REG_HDDEVSEL, ATA_REG_SECCOUNT0, ATA_REG_LBA0, ATA_REG_LBA1, ATA_REG_LBA2, ATA_REG_COMMAND.
    rewrite (bind_ok _ _ _ _ _ E1), (bind_ok _ _ _ _ _ E2), (bind_ok _ _ _ _ _ E3), (bind_ok _ _ _ _ _ E4), (bind_ok _ _ _ _ _ E5).
    apply ide_write_ok; [done|done|lia]. }
  split; [done|]. split; [by repeat (etransitivity; [eassumption|])|].
  rewrite C5, C4, C3, C2, C1. unfold ch_drive, ch_count, ch_lba, tf_write. cbn. rewrite Hvs, Hvh. split; [done|]. split; [done|].
  unfold as_u8. rewrite !Z.shiftr_div_pow2 by lia. change (2 ^ 8) with 256. change (2 ^ 16) with 65536. change (2 ^ 24) with 16777216. dlia.
Qed.

Definition moving (p : AtaPhase) : Prop := match p with PIn _ | POut _ _ _ => True | _ => False end.

Lemma poll_loop_ok n c adv s b :
  chans_ok s → is_chan c → is_Some (selected b c) ∧ (adv = true → moving (ch_phase (chan b c))) → (busy b c ≤ n)%nat →
  ∃ b', poll_loop n c adv (s, b) = (Ok tt, (s, b')) ∧ chan b' c = chan b c ∧ busy b' c = 0%nat ∧ quiet c b b'.
Proof.
  intros Hs Hc. revert b. induction n as [|n IH]; intros b Hadv Hn; destruct (inb (ata_port c 7) b) as [v b'] eqn:Ei;
    destruct (ata_status b c v b' Hc Ei) as (E1 & E2 & E3 & E4); cbn [poll_loop];
    rewrite (bind_ok _ _ _ _ _ (ide_read_ok s b c ATA_REG_STATUS v b' Hs Hc ltac:(unfold ATA_REG_STATUS; lia) Ei));
    unfold ATA_SR_BSY, ATA_SR_ERR, ATA_SR_DF, ATA_SR_DRQ; destruct (busy b c) as [|m] eqn:Eb.
  2: lia.
  1, 2: destruct E4 as (E4 & E5 & E6); destruct Hadv as [[k Hk] Hm]; rewrite E4 by (by rewrite Hk); cbn [Z.eqb]; exists b'; (split; [|done]); destruct adv; [|done];
    specialize (Hm eq_refl); rewrite Hk in E6; cbn in E6; destruct (ch_phase (chan b c)); try done;
    destruct E6 as (E6 & -> & ->); cbn; apply Z.eqb_neq in E6; by rewrite E6.
  destruct E4 as [E4 E5]. apply Z.eqb_neq in E4. rewrite E4. destruct (IH b') as (b2 & -> & H1 & H2 & H3).
  - by rewrite E1, (quiet_selected c b b').
  - lia.
  - exists b2. split; [done|]. rewrite H1, E1. split; [done|]. split; [done|]. by transitivity b'.
Qed.

Lemma poll_loop_timeout n c adv s b :
  chans_ok s → is_chan c → (n < busy b c)%nat → ∃ b', poll_loop n c adv (s, b) = (Err IdeTimeout, (s, b')) ∧ quiet c b b'.
Proof.
  intros Hs Hc. revert b. induction n as [|n IH]; intros b Hn; destruct (inb (ata_port c 7) b) as [v b'] eqn:Ei;
    destruct (ata_status b c v b' Hc Ei) as (E1 & E2 & E3 & E4); cbn [poll_loop];
    rewrite (bind_ok _ _ _ _ _ (ide_read_ok s b c ATA_REG_STATUS v b' Hs Hc ltac:(unfold ATA_REG_STATUS; lia) Ei));
    unfold ATA_SR_BSY; destruct (busy b c) as [|m]; [lia| |lia|];
    destruct E4 as [E4 E5]; apply Z.eqb_neq in E4; rewrite E4; [by exists b'|].
  destruct (IH b') as (b2 & -> & Q); [lia|]. exists b2. split; [done|]. by transitivity b'.
Qed.

Lemma ide_polling_ok c adv s b :
  chans_ok s → is_chan c → is_Some (selected b c) ∧ (adv = true → moving (ch_phase (chan b c))) → (busy b c ≤ POLL_LIMIT)%nat →
  ∃ b', ide_polling c adv (s, b) = (Ok tt, (s, b')) ∧ chan b' c = chan b c ∧ busy b' c = 0%nat ∧ quiet c b b'.
Proof.
  intros Hs Hc Hadv Hb. destruct (ide_read_altstatus s b c Hs Hc) as (v & b1 & E1 & C1 & B1 & Q1).
  destruct (poll_loop_ok POLL_LIMIT c adv s b1 Hs Hc) as (b2 & E2 & C2 & B2 & Q2).
  - by rewrite C1, (quiet_selected c b b1).
  - by rewrite B1.
  - exists b2. unfold ide_polling. rewrite (bind_ok _ _ _ _ _ E1), C2. split; [done|]. split; [done|]. split; [done|]. by transitivity b1.
Qed.

Lemma ide_polling_timeout c adv s b :
  chans_ok s → is_chan c → (POLL_LIMIT < busy b c)%nat → ∃ b', ide_polling c adv (s, b) = (Err IdeTimeout, (s, b')) ∧ quiet c b b'.
Proof.
  intros Hs Hc Hb. destruct (ide_read_altstatus s b c Hs Hc) as (v & b1 & E1 & C1 & B1 & Q1).
  destruct (poll_loop_timeout POLL_LIMIT c adv s b1 Hs Hc) as (b2 & E2 & Q2); [by rewrite B1|].
  exists b2. unfold ide_polling. rewrite (bind_ok _ _ _ _ _ E1). split; [done|]. by transitivity b1.
Qed.

(** *** Data from the drive *)
Definition after_read (rest : list Z) : AtaPhase := match rest with [] => PIdle | _ => PIn rest end.

Lemma port_in_word_ok s b p w b' : inw p b = (w, b') → port_in_word p (s, b) = (Ok w, (s, b')).
Proof. unfold port_in_word. by intros ->. Qed.

(** One block, whatever the timing between blocks. *)
Lemma insw_ok n : ∀ s b c bs rest,
  is_chan c → busy b c = 0%nat → ch_phase (chan b c) = PIn (bs ++ rest) → length bs = (2 * S n)%nat → (2 * S n ≤ 512)%nat →
  zlen rest `mod` 512 = 0 →
  ∃ b', insw (S n) (ata_port c 0) (s, b) = (Ok bs, (s, b')) ∧ chan b' c = with_phase (after_read rest) (chan b c) ∧
    quiet c b b' ∧ (AtaFast B → busy b' c = 0%nat).
Proof.
  induction n as [|n IH]; intros s b c bs rest Hc Hb Hp Hl Hle Hr; destruct bs as [|lo [|hi bs]]; try (cbn in Hl; lia);
    destruct (ata_data_in b c lo hi (bs ++ rest) Hc Hb Hp) as (b1 & E1 & C1 & O1 & D1 & B1);
    cbn [insw]; rewrite (bind_ok _ _ _ _ _ (port_in_word_ok s b _ _ _ E1)).
  - destruct bs; [|cbn in Hl; lia]. exists b1. split; [done|]. split; [by destruct rest|]. split; [done|].
    intros Hf. by apply (fast_in b c (lo, hi) b1).
  - assert (length bs = (2 * S n)%nat) as Hl' by (cbn in Hl; lia). destruct bs as [|x bs]; [done|].
    cbn [app] in C1. destruct (IH s b1 c (x :: bs) rest) as (b2 & E2 & C2 & Q2 & F2).
    + done.
    + apply B1. unfold zlen in *. rewrite length_app, Hl'. rewrite Nat2Z.inj_add, Z.add_mod, Hr by lia. dlia.
    + by rewrite C1.
    + done.
    + lia.
    + done.
    + exists b2. rewrite (bind_ok _ _ _ _ _ E2). split; [done|]. split; [by rewrite C2, C1|]. split; [by transitivity b1|done].
Qed.

Lemma read_block_ok s b c bs rest buf :
  is_chan c → busy b c = 0%nat → ch_phase (chan b c) = PIn (bs ++ rest) → length bs = 512%nat → length buf = 512%nat →
  zlen rest `mod` 512 = 0 →
  ∃ b', read_port_words_safe (ata_port c 0) buf (s, b) = (Ok (Some bs), (s, b')) ∧ chan b' c = with_phase (after_read rest) (chan b c) ∧
    quiet c b b' ∧ (AtaFast B → busy b' c = 0%nat).
Proof.
  intros Hc Hb Hp Hl Hbuf Hr. destruct (insw_ok 255 s b c bs rest) as (b' & E & Hx); try done.
  exists b'. split; [|done]. unfold read_port_words_safe, zlen. rewrite Hbuf.
  change (negb (Z.of_nat 512 `mod` 2 =? 0)) with false. change (0xFFFFFFFF * 2 <? Z.of_nat 512) with false.
  change (Z.to_nat (Z.of_nat 512 / 2)) with (S 255). cbv iota. by rewrite (bind_ok _ _ _ _ _ E).
Qed.

Lemma put_put_next {A} off (x y data : list A) :
  (off + length x + length y ≤ length data)%nat → put (off + length x) y (put off x data) = put off (x ++ y) data.
Proof.
  intros Hl. unfold put. rewrite (app_assoc (take off data)), take_app_length' by len. rewrite <-!app_assoc. do 3 f_equal.
  rewrite drop_app_ge by len. rewrite drop_app_ge by len. rewrite drop_drop. f_equal. len.
Qed.

Lemma read_loop_ok {HF : AtaFast B} secs : ∀ s b c i buf,
  is_chan c → busy b c = 0%nat → Forall (λ x, length x = 512%nat) secs → ch_phase (chan b c) = after_read (mjoin secs) →
  0 ≤ i → (i + zlen secs) * 512 ≤ zlen buf →
  ∃ b', read_sectors_loop (length secs) i (ata_port c 0) buf (s, b) = (Ok (put (Z.to_nat (i * 512)) (mjoin secs) buf), (s, b')) ∧
    ready b' c ∧ chan b' c = with_phase PIdle (chan b c) ∧ quiet c b b'.
Proof.
  induction secs as [|x secs IH]; intros s b c i buf Hc Hb Hall Hp Hi Hl.
  - exists b. split; [|split; [by split|split; [|done]]].
    + cbn. unfold mok, put. cbn. rewrite Nat.add_0_r, take_drop. done.
    + destruct (chan b c); cbn in *. by subst.
  - apply Forall_cons in Hall as [Hx Hall]. unfold zlen in *. cbn [length] in Hl.
    assert (mjoin (x :: secs) = x ++ mjoin secs) as Ej by done. rewrite Ej in Hp.
    assert (length (mjoin secs) = (512 * length secs)%nat) as Hlen.
    { clear -Hall. induction Hall as [|y l Hy _ IH]; [done|]. change (mjoin (y :: l)) with (y ++ mjoin l). rewrite length_app, IH, Hy. cbn [length]. lia. }
    destruct (read_block_ok s b c x (mjoin secs) (field (Z.to_nat (i * 512)) 512 buf)) as (b1 & E1 & C1 & Q1 & F1); try done.
    { rewrite Hp. destruct x; [done|]. done. }
    { apply length_field. lia. }
    { unfold zlen. rewrite Hlen. dlia. }
    assert (length (put (Z.to_nat (i * 512)) x buf) = length buf) as Hlb by (apply length_put; lia).
    destruct (IH s b1 c (i + 1) (put (Z.to_nat (i * 512)) x buf)) as (b2 & E2 & R2 & C2 & Q2); try done.
    { by apply F1. }
    { by rewrite C1. }
    { lia. }
    { rewrite Hlb. lia. }
    exists b2. split; [|split; [done|split; [by rewrite C2, C1|by transitivity b1]]].
    cbn [read_sectors_loop length]. unfold zlen. rewrite (proj2 (Z.ltb_ge _ _)) by lia.
    rewrite (bind_ok _ _ _ _ _ E1), E2, Ej. do 2 f_equal.
    replace (Z.to_nat ((i + 1) * 512)) with (Z.to_nat (i * 512) + length x)%nat by lia. apply put_put_next. lia.
Qed.

(** *** Data to the drive *)

(** The sectors from [a] on hold [data], the rest of the drive is as before. *)
Record wrote (a n : Z) (data : list Z) (k k' : Disk) : Prop := {
  wr_size : dk_size k' = dk_size k;
  wr_identify : dk_identify k' = dk_identify k;
  wr_new x : a ≤ x < a + n → dk_sector k' x = field (Z.to_nat ((x - a) * 512)) 512 data;
  wr_old x : x < a ∨ a + n ≤ x → dk_sector k' x = dk_sector k x;
}.

Definition other_drives (c : Z) b b' : Prop :=
  other_channels c b b' ∧ ∀ dr, dr ≠ ch_drive c (chan b c) → disk b' dr = disk b dr.

Lemma ch_drive_phase c p ch : ch_drive c (with_phase p ch) = ch_drive c ch.
Proof. done. Qed.

Lemma outsw_ok {HF : AtaFast B} n : ∀ s b c a left got bytes k,
  is_chan c → busy b c = 0%nat → ch_phase (chan b c) = POut a left got → selected b c = Some k → 1 ≤ left →
  length bytes = (2 * n)%nat → (length got ≤ 510)%nat → Nat.Even (length got) → Z.of_nat (length got + length bytes) = 512 * left →
  ∃ b' k', outsw (ata_port c 0) bytes (s, b) = (Ok tt, (s, b')) ∧ ready b' c ∧ chan b' c = with_phase PIdle (chan b c) ∧
    other_drives c b b' ∧ selected b' c = Some k' ∧ wrote a left (got ++ bytes) k k'.
Proof.
  induction n as [|n IH]; intros s b c a left got bytes k Hc Hb Hp Hk Hl Hlen Hgot Hev Htot; [lia|].
  destruct bytes as [|lo [|hi bytes]]; try (cbn in Hlen; lia). cbn [length] in *.
  pose proof (ata_data_out b c a left got lo hi k Hc Hb Hp ltac:(lia) Hk) as Ho. cbn zeta in Ho.
  pose proof (fast_out b c (lo, hi) Hc Hb) as Hb1. set (b1 := outw (ata_port c 0) (lo, hi) b) in *.
  assert (outsw (ata_port c 0) (lo :: hi :: bytes) (s, b) = outsw (ata_port c 0) bytes (s, b1)) as -> by done.
  replace (got ++ lo :: hi :: bytes) with ((got ++ [lo; hi]) ++ bytes) by (by rewrite <-app_assoc).
  destruct Ho as [O1 Ho]. destruct (length got =? 510)%nat eqn:E510.
  - apply Nat.eqb_eq in E510. destruct Ho as (C1 & D1 & k1 & K1 & S1 & I1 & W1).
    destruct (left =? 1) eqn:El.
    + apply Z.eqb_eq in El. subst left. destruct bytes as [|? bytes]; [|cbn in Htot; lia]. exists b1, k1. split; [done|].
      split; [split; [by rewrite C1|done]|]. split; [done|]. split; [done|]. split; [done|]. split; [done|done|..].
      * intros x Hx. rewrite W1, (proj2 (Z.eqb_eq _ _)) by lia. replace (Z.to_nat ((x - a) * 512)) with 0%nat by lia.
        rewrite app_nil_r. symmetry. apply field_full. rewrite length_app. cbn. lia.
      * intros x Hx. rewrite W1, (proj2 (Z.eqb_neq _ _)) by lia. done.
    + apply Z.eqb_neq in El. destruct (IH s b1 c (a + 1) (left - 1) [] bytes k1) as (b2 & k2 & E2 & R2 & C2 & [O2 D2] & K2 & [S2 I2 N2 W2]);
        try done; try lia. { by rewrite C1. } { cbn. lia. } { by exists 0%nat. } { cbn. lia. }
      exists b2, k2. split; [done|]. split; [done|]. split; [by rewrite C2, C1|]. split.
      { split.
        - intros c' Hc' Hne. destruct (O1 c' Hc' Hne), (O2 c' Hc' Hne). split; congruence.
        - intros dr Hdr. rewrite D2, D1; [done|done|]. rewrite C1. done. }
      split; [done|]. split; [congruence|congruence|..].
      * intros x Hx. destruct (decide (x = a)) as [->|Hne].
        -- rewrite W2, W1, Z.eqb_refl, Z.sub_diag by lia. cbn [Z.mul Z.to_nat]. rewrite field_app_hit; [done|]. rewrite length_app. cbn. lia.
        -- rewrite N2 by lia. change ([] ++ bytes) with bytes. rewrite field_app_skip by (rewrite length_app; cbn [length]; lia). f_equal. len.
      * intros x Hx. rewrite W2, W1, (proj2 (Z.eqb_neq _ _)) by lia. done.
  - apply Nat.eqb_neq in E510. destruct Ho as (C1 & D1 & _).
    destruct Hev as [g Hg].
    destruct (IH s b1 c a left (got ++ [lo; hi]) bytes k) as (b2 & k2 & E2 & R2 & C2 & [O2 D2] & K2 & W2); try done; try lia.
    { by rewrite C1. } { unfold selected. rewrite C1, D1. exact Hk. } { rewrite length_app. cbn. lia. }
    { exists (S g). rewrite length_app. cbn [length]. lia. } { rewrite length_app. cbn. lia. }
    exists b2, k2. split; [done|]. split; [done|]. split; [by rewrite C2, C1|]. split.
    { split.
      - intros c' Hc' Hne. destruct (O1 c' Hc' Hne), (O2 c' Hc' Hne). split; congruence.
      - intros dr Hdr. rewrite D2, D1; [done|]. rewrite C1. done. }
    split; done.
Qed.

(** *** Sector operations *)

(** [drive] is an ATA drive of [c] sectors that the driver has identified, and both channels are idle. *)
Record drive_ready s b (drive : Z) (k : Disk) : Prop := {
  dr_range : 0 ≤ drive ≤ 3;
  dr_chans : chans_ok s;
  dr_ready0 : ready b 0;
  dr_ready1 : ready b 1;
  dr_disk : disk b drive = Some k;
  dr_device : ∃ dev, IDE_DEVICES s !! Z.to_nat drive = Some dev ∧ id_reserved dev = 1 ∧ id_channel dev = drive / 2 ∧
    id_drive dev = drive `mod` 2 ∧ id_drive_type dev = IDE_ATA ∧ id_size dev = dk_size k;
}.

Lemma drive_channel drive : 0 ≤ drive ≤ 3 → is_chan (drive / 2) ∧ 0 ≤ drive `mod` 2 ≤ 1 ∧ 2 * (drive / 2) + drive `mod` 2 = drive.
Proof. intros. split; [|dlia]. unfold is_chan. dlia. Qed.

Lemma ready_channel s b drive k c : drive_ready s b drive k → is_chan c → ready b c.
Proof. intros [] [-> | ->]; done. Qed.

Lemma head_bits lba : 0 ≤ lba < 2 ^ 28 → 0 ≤ as_u8 (Z.land (Z.shiftr lba 24) 0x0F) < 16 ∧
  lba `mod` 2 ^ 24 + 2 ^ 24 * as_u8 (Z.land (Z.shiftr lba 24) 0x0F) = lba.
Proof.
  intros Hl. rewrite Z.shiftr_div_pow2 by lia. change 0x0F with (Z.ones 4). rewrite Z.land_ones by lia. unfold as_u8.
  change (2 ^ 4) with 16. change (2 ^ 8) with 256. change (2 ^ 24) with 16777216 in *. change (2 ^ 28) with 268435456 in *. dlia.
Qed.

Lemma seqZ_sectors k a n : disk_wf k → 0 ≤ n →
  Forall (λ x, length x = 512%nat) (dk_sector k <$> seqZ a n) ∧ length (dk_sector k <$> seqZ a n) = Z.to_nat n.
Proof.
  intros Hk Hn. split; [|by rewrite length_fmap, length_seqZ]. apply Forall_fmap, Forall_true. intros x. apply Hk.
Qed.

(** The part common to both directions: the command reaches the drive. *)
Lemma command_ok s b drive k n lba cmd head :
  drive_ready s b drive k → 0 < n < 256 → 0 ≤ lba → 0 ≤ head < 16 →
  lba `mod` 2 ^ 24 + 2 ^ 24 * head + n ≤ dk_size k →
  let c := drive / 2 in
  ∃ b1, issue c (drive `mod` 2) head n lba cmd (s, b) = (Ok tt, (s, outb (ata_port c 7) cmd b1)) ∧ ready b1 c ∧ quiet c b b1 ∧
    selected b1 c = Some k ∧ ch_drive c (chan b1 c) = drive ∧ ch_lba (chan b1 c) = lba `mod` 2 ^ 24 + 2 ^ 24 * head ∧ ch_count (chan b1 c) = n.
Proof.
  intros Hd Hn Hl Hh Hin c. destruct (drive_channel drive (dr_range _ _ _ _ Hd)) as (Hc & Hs & Hdr). fold c in Hc, Hdr.
  destruct (issue_ok s b c (drive `mod` 2) head n lba cmd) as (b1 & E1 & R1 & Q1 & D1 & N1 & L1); try done; [apply Hd|by apply (ready_channel s b drive k)|lia|].
  exists b1. split; [done|]. split; [done|]. split; [done|]. rewrite (proj2 (Z.eqb_neq n 0)) in N1 by lia.
  split; [|split; [by rewrite D1|done]]. unfold selected. rewrite D1, Hdr. destruct Q1 as [_ ->]. apply Hd.
Qed.

Lemma get_device_ok s b drive dev : IDE_DEVICES s !! Z.to_nat drive = Some dev → get_device drive (s, b) = (Ok dev, (s, b)).
Proof. unfold get_device. by intros ->. Qed.

(** The sector a read addresses: from 2^28 on the upper bits of the address are dropped. *)
Definition read_address (lba : Z) : Z := if 0x10000000 <=? lba then lba `mod` 2 ^ 24 else lba.

(** The command has reached the drive, which holds the sectors; polling and the data transfer are left. *)
Lemma read_started s b drive k n lba buf :
  drive_ready s b drive k → 0 < n < 256 → 0 ≤ lba → read_address lba + n ≤ dk_size k → n * 512 ≤ zlen buf →
  let c := drive / 2 in
  ∃ b1, pio_read_sectors drive n lba buf (s, b) =
      (let! _ := ide_polling c true in read_sectors_loop (Z.to_nat n) 0 (ata_port c 0) buf) (s, b1) ∧
    quiet c b b1 ∧ ch_phase (chan b1 c) = PIn (mjoin (dk_sector k <$> seqZ (read_address lba) n)) ∧ selected b1 c = Some k ∧
    (AtaFast B → (busy b1 c ≤ POLL_LIMIT)%nat).
Proof.
  intros Hd Hn Hl Hin Hbuf c. destruct (drive_channel drive (dr_range _ _ _ _ Hd)) as (Hc & Hs & Hdr). fold c in Hc, Hdr.
  set (head := if 0x10000000 <=? lba then 0 else as_u8 (Z.land (Z.shiftr lba 24) 0x0F)).
  assert (0 ≤ head < 16 ∧ lba `mod` 2 ^ 24 + 2 ^ 24 * head = read_address lba) as [Hh Ha].
  { unfold head, read_address. destruct (0x10000000 <=? lba) eqn:E; [lia|]. apply head_bits. lia. }
  destruct (command_ok s b drive k n lba ATA_CMD_READ_PIO head Hd Hn Hl Hh ltac:(lia)) as (b1 & E1 & R1 & Q1 & K1 & D1 & L1 & N1).
  fold c in E1, R1, Q1, K1, D1, L1, N1. rewrite Ha in L1.
  destruct (ata_read b1 c k Hc R1 K1) as (C2 & O2 & S2); [by rewrite L1, N1|]. rewrite L1, N1 in C2.
  exists (outb (ata_port c 7) ATA_CMD_READ_PIO b1). split; [|split; [by transitivity b1|split; [|split]]].
  - destruct (channel_regs_ok s b c (dr_chans _ _ _ _ Hd) Hc) as (r & Er & Hr).
    destruct (dr_device _ _ _ _ Hd) as (dev & Hdev & H1 & H2 & H3 & _).
    unfold pio_read_sectors. rewrite (proj2 (Z.ltb_ge 3 drive)) by (pose proof (dr_range _ _ _ _ Hd); lia).
    rewrite (bind_ok _ _ _ _ _ (get_device_ok s b drive dev Hdev)), H1, H2, H3. cbn [Z.eqb]. rewrite (proj2 (Z.ltb_ge _ _)) by lia.
    fold c head. by rewrite (bind_ok _ _ _ _ _ Er), (bind_ok _ _ _ _ _ E1), Hr.
  - unfold ATA_CMD_READ_PIO. by rewrite C2.
  - unfold selected, ATA_CMD_READ_PIO. rewrite C2, S2. apply K1.
  - intros HF. by apply fast_command.
Qed.

Lemma join_blocks secs : Forall (λ x : list Z, length x = 512%nat) secs → length (mjoin secs) = (512 * length secs)%nat.
Proof.
  induction 1 as [|y l Hy _ IH]; [done|]. change (mjoin (y :: l)) with (y ++ mjoin l). rewrite length_app, IH, Hy. cbn [length]. lia.
Qed.

Lemma ready_after s b drive k c b' : drive_ready s b drive k → is_chan c → ready b' c → other_channels c b b' → ready b' 0 ∧ ready b' 1.
Proof.
  intros Hd Hc Hr Ho. unfold ready in *. destruct (dr_ready0 _ _ _ _ Hd), (dr_ready1 _ _ _ _ Hd). destruct Hc as [-> | ->].
  - destruct (Ho 1) as [-> ->]; [by right|done|]. done.
  - destruct (Ho 0) as [-> ->]; [by left|done|]. done.
Qed.

Lemma pio_read_ok {HF : AtaFast B} s b drive k n lba buf :
  drive_ready s b drive k → 0 < n < 256 → 0 ≤ lba → read_address lba + n ≤ dk_size k → n * 512 ≤ zlen buf →
  ∃ b', pio_read_sectors drive n lba buf (s, b) =
        (Ok (mjoin (dk_sector k <$> seqZ (read_address lba) n) ++ drop (Z.to_nat (n * 512)) buf), (s, b')) ∧
        same_disks b b' ∧ ready b' 0 ∧ ready b' 1.
Proof.
  intros Hd Hn Hl Hin Hbuf. pose proof (ata_disk_wf _ _ _ (dr_disk _ _ _ _ Hd)) as Hk. set (secs := dk_sector k <$> seqZ (read_address lba) n).
  destruct (drive_channel drive (dr_range _ _ _ _ Hd)) as (Hc & Hs & Hdr). set (c := drive / 2) in *.
  destruct (read_started s b drive k n lba buf Hd Hn Hl Hin Hbuf) as (b1 & E1 & Q1 & P1 & K1 & F1). fold c in E1, Q1, P1, K1, F1.
  destruct (ide_polling_ok c true s b1 (dr_chans _ _ _ _ Hd) Hc) as (b2 & E2 & C2 & B2 & Q2); [by rewrite P1, K1|by apply F1|].
  destruct (seqZ_sectors k (read_address lba) n Hk ltac:(lia)) as [Hall Hlen]. fold secs in Hall, Hlen, P1.
  pose proof (join_blocks secs Hall) as Hj.
  destruct (read_loop_ok secs s b2 c 0 buf) as (b3 & E3 & R3 & C3 & Q3); try done.
  { rewrite C2, P1. destruct (mjoin secs); [cbn in Hj; lia|done]. }
  { unfold zlen in *. lia. }
  assert (quiet c b b3) as Q by (transitivity b1; [done|by transitivity b2]).
  exists b3. split; [|split; [apply Q|apply (ready_after s b drive k c); [done|done|done|apply Q]]].
  rewrite E1, (bind_ok _ _ _ _ _ E2). rewrite Hlen in E3. rewrite E3. do 2 f_equal. change (Z.to_nat (0 * 512)) with 0%nat.
  unfold put. rewrite take_0, Hj, Hlen. cbn [app Nat.add]. do 2 f_equal. lia.
Qed.

(** Whatever the timing, reading one sector gives its content or a timeout, and changes no disk. *)
Lemma read_one_ok s b drive k lba buf :
  drive_ready s b drive k → 0 ≤ lba → read_address lba < dk_size k → zlen buf = 512 →
  ∃ r d', pio_read_sectors drive 1 lba buf (s, b) = (r, d') ∧ (r = Ok (dk_sector k (read_address lba)) ∨ r = Err IdeTimeout) ∧
    (AtaFast B → r = Ok (dk_sector k (read_address lba))) ∧ d'.1 = s ∧ same_disks b d'.2.
Proof.
  intros Hd Hl Hin Hbuf. pose proof (ata_disk_wf _ _ _ (dr_disk _ _ _ _ Hd)) as Hk.
  destruct (drive_channel drive (dr_range _ _ _ _ Hd)) as (Hc & _ & _). set (c := drive / 2) in *.
  destruct (read_started s b drive k 1 lba buf Hd ltac:(lia) Hl ltac:(lia) ltac:(lia)) as (b1 & E1 & Q1 & P1 & K1 & F1). fold c in E1, Q1, P1, K1, F1.
  change (seqZ (read_address lba) 1) with [read_address lba] in P1. cbn [fmap list_fmap mjoin list_join] in P1.
  destruct (decide (busy b1 c ≤ POLL_LIMIT)%nat) as [Hb|Hb].
  - destruct (ide_polling_ok c true s b1 (dr_chans _ _ _ _ Hd) Hc) as (b2 & E2 & C2 & B2 & Q2); [by rewrite P1, K1|done|].
    destruct (read_block_ok s b2 c (dk_sector k (read_address lba)) [] (field 0 512 buf)) as (b3 & E3 & C3 & Q3 & _);
      [done|done|by rewrite C2|apply Hk|apply length_field; unfold zlen in Hbuf; lia|done|].
    exists (Ok (dk_sector k (read_address lba))), (s, b3). split; [|split; [by left|split; [done|split; [done|]]]].
    + rewrite E1, (bind_ok _ _ _ _ _ E2). change (Z.to_nat 1) with 1%nat. cbn [read_sectors_loop].
      rewrite (proj2 (Z.ltb_ge _ _)) by lia. rewrite (bind_ok _ _ _ _ _ E3). unfold mok, put. change (Z.to_nat (0 * 512)) with 0%nat.
      rewrite take_0, (dw_sector k Hk), drop_ge, app_nil_r; [done|]. unfold zlen in Hbuf. lia.
    + assert (quiet c b b3) as [_ Q] by (transitivity b1; [done|by transitivity b2]). done.
  - destruct (ide_polling_timeout c true s b1 (dr_chans _ _ _ _ Hd) Hc ltac:(lia)) as (b2 & E2 & Q2).
    exists (Err IdeTimeout), (s, b2). split; [by rewrite E1; unfold mbindM; rewrite E2|]. split; [by right|].
    split; [intros HF; by apply F1 in HF|]. split; [done|]. assert (quiet c b b2) as [_ Q] by (by transitivity b1). done.
Qed.

Lemma pio_write_ok {HF : AtaFast B} s b drive k n lba buf :
  drive_ready s b drive k → 0 < n < 256 → 0 ≤ lba → lba + n ≤ dk_size k → n * 512 ≤ zlen buf →
  ∃ b' k', pio_write_sectors drive n lba buf (s, b) = (Ok tt, (s, b')) ∧ ready b' 0 ∧ ready b' 1 ∧
    (∀ dr, dr ≠ drive → disk b' dr = disk b dr) ∧ disk b' drive = Some k' ∧ wrote lba n (take (Z.to_nat (n * 512)) buf) k k'.
Proof.
  intros Hd Hn Hl Hin Hbuf. pose proof (ata_disk_wf _ _ _ (dr_disk _ _ _ _ Hd)) as Hk.
  assert (0 ≤ lba < 2 ^ 28) as Hl28 by (pose proof (dw_size k Hk); lia). destruct (head_bits lba Hl28) as [Hh Ha].
  destruct (drive_channel drive (dr_range _ _ _ _ Hd)) as (Hc & Hs & Hdr). set (c := drive / 2) in *. set (head := as_u8 _) in *.
  destruct (command_ok s b drive k n lba ATA_CMD_WRITE_PIO head Hd Hn Hl Hh ltac:(lia)) as (b1 & E1 & R1 & Q1 & K1 & D1 & L1 & N1).
  fold c in E1, R1, Q1, K1, D1, L1, N1. rewrite Ha in L1.
  destruct (ata_write b1 c k Hc R1 K1) as (C2 & O2 & S2); [by rewrite L1, N1|]. rewrite L1, N1 in C2. pose proof (fast_command b1 c ATA_CMD_WRITE_PIO Hc R1) as F2.
  set (b2 := outb (ata_port c 7) ATA_CMD_WRITE_PIO b1) in *. change (outb (ata_port c 7) 0x30 b1) with b2 in *.
  destruct (ide_polling_ok c false s b2 (dr_chans _ _ _ _ Hd) Hc) as (b3 & E3 & C3 & B3 & Q3); [split; [exists k; unfold selected; rewrite C2, S2; apply K1|done]|done|].
  assert (selected b3 c = Some k) as K3 by (rewrite (quiet_selected c b2 b3) by done; unfold selected; rewrite C2, S2; apply K1).
  set (data := take (Z.to_nat (n * 512)) buf).
  assert (length data = (2 * Z.to_nat (n * 256))%nat) as Hlen by (unfold data, zlen in *; rewrite length_take; lia).
  destruct (outsw_ok (Z.to_nat (n * 256)) s b3 c lba n [] data k) as (b4 & k4 & E4 & R4 & C4 & [O4 D4] & K4 & W4); try done; try lia.
  { by rewrite C3, C2. } { cbn. lia. } { by exists 0%nat. } { rewrite Hlen. cbn. lia. }
  pose proof (ata_flush b4 c k4 Hc R4 K4) as (C5 & O5 & S5). pose proof (fast_command b4 c ATA_CMD_CACHE_FLUSH Hc R4) as F5.
  set (b5 := outb (ata_port c 7) ATA_CMD_CACHE_FLUSH b4) in *. change (outb (ata_port c 7) 0xE7 b4) with b5 in *.
  destruct (ide_polling_ok c false s b5 (dr_chans _ _ _ _ Hd) Hc) as (b6 & E6 & C6 & B6 & Q6); [split; [exists k4; unfold selected; by rewrite C5, S5|done]|done|].
  assert (ch_drive c (chan b3 c) = drive) as D3 by (by rewrite C3, C2, ch_drive_phase, D1).
  assert (∀ dr, disk b3 dr = disk b dr) as Hb3 by (intros dr; destruct Q3 as [_ ->], Q1 as [_ <-]; apply S2).
  assert (∀ dr, disk b6 dr = disk b4 dr) as Hb6 by (intros dr; destruct Q6 as [_ ->]; apply S5).
  assert (other_channels c b b6) as Ho.
  { intros c' Hc' Hne. destruct Q1 as [Q1 _], Q3 as [Q3 _], Q6 as [Q6 _].
    destruct (Q1 c' Hc' Hne), (O2 c' Hc' Hne), (Q3 c' Hc' Hne), (O4 c' Hc' Hne), (O5 c' Hc' Hne), (Q6 c' Hc' Hne). split; congruence. }
  exists b6, k4. split; [|split_and!].
  - destruct (channel_regs_ok s b c (dr_chans _ _ _ _ Hd) Hc) as (r & Er & Hr).
    destruct (dr_device _ _ _ _ Hd) as (dev & Hdev & H1 & H2 & H3 & _).
    unfold pio_write_sectors. rewrite (proj2 (Z.ltb_ge 3 drive)) by (pose proof (dr_range _ _ _ _ Hd); lia).
    rewrite (bind_ok _ _ _ _ _ (get_device_ok s b drive dev Hdev)), H1, H2, H3. cbn [Z.eqb]. rewrite (proj2 (Z.ltb_ge _ _)) by lia.
    fold c. rewrite (bind_ok _ _ _ _ _ Er), (proj2 (Z.leb_gt _ _)) by lia. fold head.
    rewrite (bind_ok _ _ _ _ _ E1), (bind_ok _ _ _ _ _ E3), Hr. replace (n * 256 * 2) with (n * 512) by lia. fold data.
    rewrite (bind_ok _ _ _ _ _ E4).
    rewrite (bind_ok _ _ _ _ _ (ide_write_ok s b4 c ATA_REG_COMMAND ATA_CMD_CACHE_FLUSH (dr_chans _ _ _ _ Hd) Hc ltac:(unfold ATA_REG_COMMAND; lia))).
    exact E6.
  - apply (ready_after s b drive k c); [done|done| |done]. split; [rewrite C6, C5; apply R4|done].
  - apply (ready_after s b drive k c); [done|done| |done]. split; [rewrite C6, C5; apply R4|done].
  - intros dr Hne. rewrite Hb6, D4, Hb3; [done|]. by rewrite D3.
  - rewrite Hb6. unfold selected in K4. by rewrite C4, ch_drive_phase, D3 in K4.
  - done.
Qed.

(** *** Identification *)

Lemma identify_wait_poll n c (d : IdeState * B) : identify_wait n c d = poll_loop n c false d.
Proof.
  revert d. induction n as [|n IH]; intros d; cbn [identify_wait poll_loop]; unfold mbindM;
    destruct (ide_read c ATA_REG_STATUS d) as [[v| | |] d']; try done; by destruct (Z.land v ATA_SR_BSY =? 0).
Qed.

Lemma lor_shift x y n : 0 ≤ n → 0 ≤ x < 2 ^ n → Z.lor x (Z.shiftl y n) = x + y * 2 ^ n.
Proof.
  intros Hn Hx. rewrite <-Z.shiftl_mul_pow2 by done. rewrite <-(Z.add_lor_land x). enough (Z.land x (Z.shiftl y n) = 0) as -> by lia.
  apply Z.bits_inj'. intros i Hi. rewrite Z.land_spec, Z.bits_0. destruct (decide (i < n)).
  - by rewrite (Z.shiftl_spec_low y n i), andb_false_r by done.
  - rewrite <-(Z.mod_small x (2 ^ n)) by done. by rewrite Z.mod_pow2_bits_high by lia.
Qed.

(** The size an identification block reports is the size of the drive. *)
Lemma ata_device_size k c d : disk_wf k → id_size (ata_device c d (dk_identify k)) = dk_size k.
Proof.
  intros Hk. pose proof (dw_size k Hk) as Hs.
  assert (buf_word (dk_identify k) 60 = dk_size k `mod` 2 ^ 16) as E0.
  { unfold buf_word. change (2 * 60)%nat with 120%nat. rewrite (dw_reported_low k Hk). apply le_dec_bytes. dlia. }
  assert (buf_word (dk_identify k) 61 = dk_size k / 2 ^ 16) as E1.
  { unfold buf_word. change (2 * 61)%nat with 122%nat. rewrite (dw_reported_high k Hk). apply le_dec_bytes. dlia. }
  unfold ata_device. cbn [id_size]. rewrite E0, E1, (lor_shift (dk_size k `mod` 2 ^ 16)); [|lia|apply Z.mod_pos_bound; lia].
  replace (dk_size k `mod` 2 ^ 16 + dk_size k / 2 ^ 16 * 2 ^ 16) with (dk_size k) by (pose proof (Z.div_mod (dk_size k) (2 ^ 16)); lia).
  rewrite (proj2 (Z.eqb_neq (dk_size k) _)) by lia. by rewrite andb_false_r.
Qed.

Definition devices_ok s : Prop := length (IDE_DEVICES s) = 4%nat ∧ length (IDE_BUF s) = 2048%nat.

Lemma set_device_ok s b i dev : devices_ok s → 0 ≤ i ≤ 3 →
  set_device i dev (s, b) = (Ok tt, (set_devices (<[Z.to_nat i := dev]> (IDE_DEVICES s)) s, b)).
Proof.
  intros [Hl _] Hi. unfold set_device. destruct (lookup_lt_is_Some_2 (IDE_DEVICES s) (Z.to_nat i)) as [x ->]; [lia|done].
Qed.

Lemma identify_select d : 0 ≤ d ≤ 1 → 0 ≤ Z.lor 0xA0 (as_u8 (Z.shiftl d 4)) < 256 ∧ (Z.lor 0xA0 (as_u8 (Z.shiftl d 4)) / 16) `mod` 2 = d.
Proof. intros Hd. assert (d = 0 ∨ d = 1) as [-> | ->] by lia; by vm_compute. Qed.

(** What identification leaves behind: only the record of that drive and the buffer differ. *)
Definition identified s s' (i : Z) (dev : IdeDevice) : Prop :=
  CHANNELS s' = CHANNELS s ∧ devices_ok s' ∧ IDE_DEVICES s' = <[Z.to_nat i := dev]> (IDE_DEVICES s).

Lemma ide_identify_ok {HF : AtaFast B} {HC : AtaClean B} s b c d :
  chans_ok s → devices_ok s → is_chan c → 0 ≤ d ≤ 1 → ready b c →
  ∃ r s' b' dev, ide_identify c d (s, b) = (r, (s', b')) ∧ (r = Ok tt ∨ r = Err IdeDriveNotFound) ∧ ready b' c ∧ quiet c b b' ∧
    identified s s' (2 * c + d) dev ∧
    match disk b (2 * c + d) with Some k => dev = ata_device c d (dk_identify k) | None => id_reserved dev = 0 end.
Proof.
  intros Hs Hdv Hc Hd Hr. destruct (identify_select d Hd) as [Hv Hsel]. set (v := Z.lor 0xA0 (as_u8 (Z.shiftl d 4))) in *.
  assert (c * 2 + d = 2 * c + d) as Ei by lia. assert (0 ≤ 2 * c + d ≤ 3) as Hi by (destruct Hc; lia).
  destruct (ata_task_file b c 6 v Hc ltac:(lia) Hv Hr) as (C1 & B1 & O1 & S1). set (b1 := outb (ata_port c 6) v b) in *.
  assert (ready b1 c) as R1 by (split; [rewrite C1; apply Hr|done]).
  assert (selected b1 c = disk b (2 * c + d)) as K1 by (unfold selected, ch_drive; rewrite C1, S1; cbn; by rewrite Hsel).
  destruct (ata_identify b1 c Hc R1) as (C2 & O2 & S2). pose proof (fast_command b1 c 0xEC Hc R1) as F2. set (b2 := outb (ata_port c 7) 0xEC b1) in *. rewrite K1 in C2.
  destruct (inb (ata_port c 7) b2) as [st b3] eqn:E3. destruct (ata_status b2 c st b3 Hc E3) as (C3 & O3 & S3 & B3).
  assert (quiet c b b3) as Q3 by (transitivity b1; [done|]; transitivity b2; done).
  unfold ide_identify. fold v. rewrite Ei.
  rewrite (bind_ok _ _ _ _ _ (ide_write_ok s b c ATA_REG_HDDEVSEL v Hs Hc ltac:(unfold ATA_REG_HDDEVSEL; lia))).
  change (outb (ata_port c ATA_REG_HDDEVSEL) v b) with b1.
  rewrite (bind_ok _ _ _ _ _ (ide_write_ok s b1 c ATA_REG_COMMAND ATA_CMD_IDENTIFY Hs Hc ltac:(unfold ATA_REG_COMMAND; lia))).
  change (outb (ata_port c ATA_REG_COMMAND) ATA_CMD_IDENTIFY b1) with b2.
  rewrite (bind_ok _ _ _ _ _ (ide_read_ok s b2 c ATA_REG_STATUS st b3 Hs Hc ltac:(unfold ATA_REG_STATUS; lia) E3)).
  destruct (disk b (2 * c + d)) as [k|] eqn:Ek.
  - assert (selected b2 c = Some k) as K2 by (unfold selected; rewrite C2, S2; exact K1).
    assert (st ≠ 0 ∧ (busy b3 c ≤ POLL_LIMIT)%nat) as [Hst B3'].
    { rewrite K2, C2 in B3. destruct (busy b2 c) as [|m]; [destruct B3 as (_ & B3 & B3' & _)|destruct B3 as (B3' & B3)]; (split; [|lia]); by intros ->. }
    clear B3. apply Z.eqb_neq in Hst. rewrite Hst.
    destruct (poll_loop_ok POLL_LIMIT c false s b3 Hs Hc) as (b4 & E4 & C4 & B4 & Q4); [split; [exists k; unfold selected; by rewrite C3, S3|done]|done|]. rewrite <-identify_wait_poll in E4.
    assert (ch_phase (chan b4 c) = PIn (dk_identify k)) as P4 by (by rewrite C4, C3, C2).
    destruct (inb (ata_port c 1) b4) as [e b5] eqn:E5. destruct (ata_error b4 c _ e b5 Hc P4 B4 E5) as (C5 & B5 & O5 & S5).
    pose proof (clean_error b4 c _ e b5 Hc P4 B4 E5) as ->.
    rewrite (bind_ok _ _ _ _ _ E4), (bind_ok _ _ _ _ _ (ide_read_ok s b4 c ATA_REG_ERROR 0 b5 Hs Hc ltac:(unfold ATA_REG_ERROR; lia) E5)).
    cbn [negb Z.eqb]. rewrite (bind_ok (mok IDE_ATA) _ (s, b5) IDE_ATA (s, b5) eq_refl), (bind_ok _ _ _ _ _ (set_device_ok s b5 _ _ Hdv Hi)).
    set (s1 := set_devices _ s). pose proof (ata_disk_wf _ _ _ Ek) as Hk.
    destruct (insw_ok 255 s1 b5 c (dk_identify k) []) as (b6 & E6 & C6 & Q6 & F6); [done|done|by rewrite app_nil_r, C5|apply Hk|lia|done|].
    assert (ide_read_buffer c ATA_REG_DATA (zeros 512) (s1, b5) = (Ok (dk_identify k), (s1, b6))) as Er.
    { unfold ide_read_buffer. rewrite (bind_ok _ _ _ _ _ (ide_port_ok s1 b5 c ATA_REG_DATA Hs Hc ltac:(unfold ATA_REG_DATA; lia))).
      change (Z.to_nat (zlen (zeros 512) / 2)) with (S 255). rewrite (bind_ok _ _ _ _ _ E6). unfold mok, put. do 2 f_equal.
      rewrite (dw_identify k Hk). rewrite take_0, drop_ge, app_nil_r by (unfold zeros; len). done. }
    rewrite (bind_ok _ _ _ _ _ Er). set (s2 := set_buf (put 0 (dk_identify k) (IDE_BUF s1)) s1).
    rewrite (bind_ok _ _ (s1, b6) tt (s2, b6) eq_refl). cbn [Z.eqb].
    assert (devices_ok s2) as Hdv2.
    { destruct Hdv. split; [cbn; by rewrite length_insert|]. cbn. rewrite length_put; [done|]. rewrite (dw_identify k Hk). lia. }
    change (IDE_ATA =? IDE_ATA) with true. cbv iota. rewrite (set_device_ok s2 b6 _ _ Hdv2 Hi).
    eexists _, _, b6, _. split; [done|]. split; [by left|]. split; [split; [by rewrite C6|by apply F6]|].
    split; [by transitivity b3; [|transitivity b4; [|transitivity b5]]|]. split; [|done]. split; [done|].
    split; [split; [cbn; rewrite !length_insert; apply Hdv|apply Hdv2]|]. cbn. by rewrite list_insert_insert_eq.
  - destruct C2 as [C2 B2]. rewrite B2 in B3. destruct B3 as (_ & B3 & _).
    assert (selected b2 c = None) as K2 by (unfold selected; rewrite C2, S2; exact K1). pose proof (clean_absent b2 c st b3 Hc K2 B2 E3) as ->.
    cbn [Z.eqb]. destruct (lookup_lt_is_Some_2 (IDE_DEVICES s) (Z.to_nat (2 * c + d))) as [dev Hdev]; [destruct Hdv; lia|].
    rewrite (bind_ok _ _ _ _ _ (get_device_ok s b3 _ dev Hdev)), (bind_ok _ _ _ _ _ (set_device_ok s b3 _ _ Hdv Hi)).
    eexists _, _, b3, _. split; [done|]. split; [by right|]. split; [split; [rewrite C3, C2; apply R1|done]|]. split; [done|].
    split; [split; [done|split; [|reflexivity]]|done]. split; [cbn; rewrite length_insert; apply Hdv|apply Hdv].
Qed.

(** *** Drives taken for something else *)
Lemma insw_total n p s b : ∃ bs b', insw n p (s, b) = (Ok bs, (s, b')).
Proof using.
  revert b. induction n as [|n IH]; intros b; [by exists [], b|]. cbn [insw]. unfold mbindM, port_in_word. destruct (inw p b) as [w b1].
  destruct (IH b1) as (bs & b2 & ->). by eexists _, _.
Qed.

(** The status that the driver sees after its IDENTIFY, and the error register when the drive is no longer busy. *)
Definition identify_sees s b (c d st e : Z) : Prop :=
  ∃ b3 s4 b4 b5, inb (ata_port c 7) (outb (ata_port c 7) ATA_CMD_IDENTIFY (outb (ata_port c 6) (Z.lor 0xA0 (as_u8 (Z.shiftl d 4))) b)) = (st, b3) ∧
    identify_wait POLL_LIMIT c (s, b3) = (Ok tt, (s4, b4)) ∧ inb (ata_port c 1) b4 = (e, b5).

(** Whatever the bus does: if the driver sees an answer and a value in the error register, it records a packet device. *)
Lemma identify_packet s b c d st e : chans_ok s → devices_ok s → is_chan c → 0 ≤ d ≤ 1 → identify_sees s b c d st e → st ≠ 0 → e ≠ 0 →
  ∃ s' b' dev, ide_identify c d (s, b) = (Ok tt, (s', b')) ∧ IDE_DEVICES s' !! Z.to_nat (2 * c + d) = Some dev ∧
    id_reserved dev = 1 ∧ id_drive_type dev = IDE_ATAPI ∧ id_size dev = 0.
Proof using.
  intros Hs Hdv Hc Hd (b3 & s4 & b4 & b5 & E3 & E4 & E5) Hst He. apply Z.eqb_neq in Hst, He.
  assert (c * 2 + d = 2 * c + d) as Ei by lia. assert (0 ≤ 2 * c + d ≤ 3) as Hi by (destruct Hc; lia).
  assert (∀ n b b' s', identify_wait n c (s, b) = (Ok tt, (s', b')) → s' = s) as Hsame.
  { clear -Hs Hc. induction n as [|n IH]; intros b b' s'; cbn [identify_wait]; destruct (inb (ata_port c 7) b) as [v b1] eqn:E1;
      rewrite (bind_ok _ _ _ _ _ (ide_read_ok s b c ATA_REG_STATUS v b1 Hs Hc ltac:(unfold ATA_REG_STATUS; lia) E1)); (destruct (_ =? 0); [by intros [= <- <-]|]); [done|apply IH]. }
  apply Hsame in E4 as Es4. subst s4.
  set (b6 := outb (ata_port c 7) ATA_CMD_IDENTIFY_PACKET b5). set (s1 := set_devices (<[Z.to_nat (2 * c + d) := mkIde 1 c d IDE_ATAPI 0 0 0 0 (zeros 41)]> (IDE_DEVICES s)) s).
  destruct (insw_total (Z.to_nat (zlen (zeros 512) / 2)) (ata_port c 0) s1 b6) as (bs & b7 & E7).
  set (s2 := set_buf (put 0 (put 0 bs (zeros 512)) (IDE_BUF s1)) s1).
  assert (length (IDE_DEVICES s2) = 4%nat) as Hl2 by (cbn; rewrite length_insert; apply Hdv).
  exists (set_devices (<[Z.to_nat (2 * c + d) := atapi_device c d (put 0 bs (zeros 512))]> (IDE_DEVICES s2)) s2), b7, (atapi_device c d (put 0 bs (zeros 512))).
  split; [|split; [apply list_lookup_insert_eq; rewrite Hl2; lia|done]]. unfold ide_identify. rewrite Ei.
  rewrite (bind_ok _ _ _ _ _ (ide_write_ok s b c ATA_REG_HDDEVSEL _ Hs Hc ltac:(unfold ATA_REG_HDDEVSEL; lia))).
  rewrite (bind_ok _ _ _ _ _ (ide_write_ok s _ c ATA_REG_COMMAND ATA_CMD_IDENTIFY Hs Hc ltac:(unfold ATA_REG_COMMAND; lia))).
  rewrite (bind_ok _ _ _ _ _ (ide_read_ok s _ c ATA_REG_STATUS st b3 Hs Hc ltac:(unfold ATA_REG_STATUS; lia) E3)), Hst, (bind_ok _ _ _ _ _ E4).
  rewrite (bind_ok _ _ _ _ _ (ide_read_ok s b4 c ATA_REG_ERROR e b5 Hs Hc ltac:(unfold ATA_REG_ERROR; lia) E5)), He. cbn [negb].
  assert ((let! _ := ide_write c ATA_REG_COMMAND ATA_CMD_IDENTIFY_PACKET in mok IDE_ATAPI) (s, b5) = (Ok IDE_ATAPI, (s, b6))) as E6
    by (by rewrite (bind_ok _ _ _ _ _ (ide_write_ok s b5 c ATA_REG_COMMAND ATA_CMD_IDENTIFY_PACKET Hs Hc ltac:(unfold ATA_REG_COMMAND; lia)))).
  rewrite (bind_ok _ _ _ _ _ E6).
  rewrite (bind_ok _ _ _ _ _ (set_device_ok s b6 _ _ Hdv Hi)). fold s1.
  assert (ide_read_buffer c ATA_REG_DATA (zeros 512) (s1, b6) = (Ok (put 0 bs (zeros 512)), (s1, b7))) as Er.
  { unfold ide_read_buffer. rewrite (bind_ok _ _ _ _ _ (ide_port_ok s1 b6 c ATA_REG_DATA Hs Hc ltac:(unfold ATA_REG_DATA; lia))). by rewrite (bind_ok _ _ _ _ _ E7). }
  rewrite (bind_ok _ _ _ _ _ Er). rewrite (bind_ok _ _ (s1, b7) tt (s2, b7) eq_refl). change (IDE_ATAPI =? IDE_ATA) with false. cbv iota.
  unfold set_device. destruct (lookup_lt_is_Some_2 (IDE_DEVICES s2) (Z.to_nat (2 * c + d))) as [x ->]; [lia|done].
Qed.

(** The record of drive [i] tells the truth about the bus. *)
Definition drive_known s b (i : Z) : Prop :=
  ∃ dev, IDE_DEVICES s !! Z.to_nat i = Some dev ∧
    match disk b i with Some k => dev = ata_device (i / 2) (i `mod` 2) (dk_identify k) | None => id_reserved dev = 0 end.

Lemma identify_all_ok {HF : AtaFast B} {HC : AtaClean B} drives : ∀ s b,
  chans_ok s → devices_ok s → (∀ i, i ∈ drives → 0 ≤ i ≤ 3) → ready b 0 → ready b 1 →
  ∃ s' b', identify_all drives (s, b) = (Ok tt, (s', b')) ∧ CHANNELS s' = CHANNELS s ∧ same_disks b b' ∧ ready b' 0 ∧ ready b' 1 ∧
    ∀ i, 0 ≤ i ≤ 3 → i ∈ drives ∨ drive_known s b i → drive_known s' b' i.
Proof.
  induction drives as [|i drives IH]; intros s b Hs Hdv Hin R0 R1.
  { exists s, b. split_and!; try done. intros i Hi [[]%not_elem_of_nil|]; done. }
  assert (0 ≤ i ≤ 3) as Hi by (apply Hin; by left). destruct (drive_channel i Hi) as (Hc & Hd & Hdr).
  destruct (ide_identify_ok s b (i / 2) (i `mod` 2) Hs Hdv Hc Hd) as (r & s1 & b1 & dev & E1 & Hr & R & [O1 S1] & (C1 & D1 & L1) & Hdev);
    [by destruct Hc as [-> | ->]|]. rewrite Hdr in L1, Hdev.
  assert (ready b1 0 ∧ ready b1 1) as [R0' R1'].
  { unfold ready in *. destruct Hc as [Hc|Hc]; rewrite Hc in *.
    - destruct (O1 1) as [-> ->]; [by right|done|]. done.
    - destruct (O1 0) as [-> ->]; [by left|done|]. done. }
  destruct (IH s1 b1) as (s2 & b2 & E2 & C2 & S2 & R02 & R12 & K2); try done.
  { unfold chans_ok. by rewrite C1. } { intros j Hj. apply Hin. by right. }
  exists s2, b2. split_and!; try done.
  - cbn [identify_all]. rewrite E1. by destruct Hr as [-> | ->].
  - by rewrite C2.
  - intros dr. by rewrite S2.
  - intros j Hj Hor. apply K2; [done|]. destruct (decide (j = i)) as [->|Hne].
    + right. exists dev. split; [|by rewrite S1]. rewrite L1. apply list_lookup_insert_eq. destruct Hdv as [-> _]. lia.
    + destruct Hor as [Hj'|(dv & Hl & Hk)]; [apply elem_of_cons in Hj' as [->|]; [done|by left]|].
      right. exists dv. split; [|by rewrite S1]. rewrite L1. rewrite list_lookup_insert_ne by lia. done.
Qed.

Lemma ide_initialize_ok {HF : AtaFast B} {HC : AtaClean B} s b :
  chans_ok s → length (IDE_BUF s) = 2048%nat → ready b 0 → ready b 1 →
  ∃ s' b', ide_initialize (s, b) = (Ok tt, (s', b')) ∧ chans_ok s' ∧ same_disks b b' ∧ ready b' 0 ∧ ready b' 1 ∧
    ∀ i, 0 ≤ i ≤ 3 → drive_known s' b' i.
Proof.
  intros (n0 & n1 & Hs) Hb R0 R1. unfold ide_initialize.
  set (s1 := set_devices (replicate 4 ide_device_new) (set_channels ((λ c, mkRegs (ic_base c) (ic_ctrl c) (ic_bmide c) 0x02) <$> CHANNELS s) s)).
  assert (chans_ok s1) as Hs1 by (exists 2, 2; cbn; by rewrite Hs).
  destruct (identify_all_ok [0; 1; 2; 3] s1 b) as (s2 & b2 & E2 & C2 & S2 & R02 & R12 & K2); try done.
  { intros i Hi. repeat (apply elem_of_cons in Hi as [->|Hi]; [lia|]). by apply not_elem_of_nil in Hi. }
  exists s2, b2. split; [exact E2|]. split; [unfold chans_ok; by rewrite C2|]. split_and!; try done.
  intros i Hi. apply K2; [done|]. left. rewrite !elem_of_cons. lia.
Qed.

(** After initialisation every drive on the bus can be used. *)
Lemma known_ready s b i k : chans_ok s → ready b 0 → ready b 1 → 0 ≤ i ≤ 3 → drive_known s b i → disk b i = Some k → drive_ready s b i k.
Proof.
  intros Hs R0 R1 Hi (dev & Hl & Hdev) Hk. rewrite Hk in Hdev. split; try done. exists dev. subst dev.
  rewrite ata_device_size by (by eapply ata_disk_wf). done.
Qed.

Lemma ide_drive_size_ok s b drive k : drive_ready s b drive k → ide_drive_size drive (s, b) = Ok (dk_size k * 512).
Proof.
  intros Hd. pose proof (dw_size k (ata_disk_wf _ _ _ (dr_disk _ _ _ _ Hd))). destruct (dr_device _ _ _ _ Hd) as (dev & Hl & H1 & _ & _ & H2 & H3).
  unfold ide_drive_size. rewrite (proj2 (Z.ltb_ge _ _)) by (pose proof (dr_range _ _ _ _ Hd); lia). cbn [fst]. rewrite Hl, H1, H2, H3.
  cbn [Z.eqb]. unfold mul64. change (as_u8 IDE_ATA =? IDE_ATA) with true. cbv iota. rewrite chk_ok by lia. done.
Qed.

(** *** The driver as a sector device *)
Definition ready_b b (c : Z) : bool := match ch_phase (chan b c) with PIdle => (busy b c =? 0)%nat | _ => false end.
Definition chans_b s : bool :=
  match CHANNELS s with [mkRegs b0 c0 0 _; mkRegs b1 c1 0 _] => (b0 =? 0x1F0) && (c0 =? 0x3F6) && (b1 =? 0x170) && (c1 =? 0x376) | _ => false end.

Definition ide_capacity (d : IdeState * B) (drive : Z) : option Z :=
  let '(s, b) := d in
  if (0 <=? drive) && (drive <=? 3) && chans_b s && ready_b b 0 && ready_b b 1 then
    match IDE_DEVICES s !! Z.to_nat drive, dk_size <$> disk b drive with
    | Some dev, Some size =>
        if (id_reserved dev =? 1) && (id_channel dev =? drive / 2) && (id_drive dev =? drive `mod` 2) &&
           (id_drive_type dev =? IDE_ATA) && (id_size dev =? size) then Some size else None
    | _, _ => None
    end
  else None.

Definition ide_sector (d : IdeState * B) (drive a : Z) : list Z :=
  match disk d.2 drive with Some k => dk_sector k a | None => zeros 512 end.

Lemma ready_b_spec b c : ready_b b c = true ↔ ready b c.
Proof. unfold ready_b, ready. destruct (ch_phase (chan b c)); rewrite ?Nat.eqb_eq; naive_solver. Qed.

Lemma chans_b_spec s : chans_b s = true ↔ chans_ok s.
Proof.
  unfold chans_b, chans_ok. split.
  - destruct (CHANNELS s) as [|[b0 c0 [] n0] [|[b1 c1 [] n1] []]]; try done. rewrite !andb_true_iff, !Z.eqb_eq.
    intros [[[-> ->] ->] ->]. by exists n0, n1.
  - intros (n0 & n1 & ->). done.
Qed.

Lemma ide_capacity_spec s b drive c :
  ide_capacity (s, b) drive = Some c ↔ ∃ k, drive_ready s b drive k ∧ c = dk_size k.
Proof.
  unfold ide_capacity. split.
  - destruct (_ && _) eqn:E; [|done]. rewrite !andb_true_iff, !Z.leb_le, chans_b_spec, !ready_b_spec in E.
    destruct (IDE_DEVICES s !! Z.to_nat drive) as [dev|] eqn:El; [|done]. destruct (disk b drive) as [k|] eqn:Ek; [|done]. cbn.
    destruct (_ && _) eqn:E'; [|done]. rewrite !andb_true_iff, !Z.eqb_eq in E'. intros [= <-]. exists k. split; [|done].
    split; try tauto. exists dev. tauto.
  - intros (k & [[H1 H2] Hc R0 R1 Hk (dev & Hl & E1 & E2 & E3 & E4 & E5)] & ->). apply chans_b_spec in Hc. apply ready_b_spec in R0, R1.
    apply Z.leb_le in H1, H2. rewrite H1, H2, Hc, R0, R1, Hl, Hk. cbn [andb fmap option_fmap option_map]. by rewrite E1, E2, E3, E4, E5, !Z.eqb_refl.
Qed.

Lemma ide_capacity_same s b b' drive k :
  drive_ready s b drive k → ready b' 0 → ready b' 1 → (∀ dr, dk_size <$> disk b' dr = dk_size <$> disk b dr) →
  ∀ dr, ide_capacity (s, b') dr = ide_capacity (s, b) dr.
Proof.
  intros Hd R0 R1 Hs dr. pose proof (dr_ready0 _ _ _ _ Hd) as R0'. pose proof (dr_ready1 _ _ _ _ Hd) as R1'.
  apply ready_b_spec in R0, R1, R0', R1'. unfold ide_capacity. by rewrite R0, R1, R0', R1', Hs.
Qed.
End on_bus.

(** On a fast bus the driver keeps the promises the filesystem is verified against. *)
#[export] Instance ide_dev {B} `{Ports B} : SectorDev (IdeState * B) := {
  dev_read := pio_read_sectors;
  dev_write := pio_write_sectors;
  dev_size := ide_drive_size;
}.

#[export] Instance ide_laws {B} `{HP : Ports B, HV : AtaView B, HB : !AtaBus B, HF : !AtaFast B} : SectorDevLaws (IdeState * B).
Proof.
  refine {| sector := ide_sector; capacity := ide_capacity |}.
  - intros [s b] drive a. unfold ide_sector. cbn. destruct (disk b drive) as [k|] eqn:E; [|done]. by apply (ata_disk_wf b drive).
  - intros [s b] drive c (k & Hd & ->)%ide_capacity_spec. apply (dw_size k). by apply (ata_disk_wf b drive), Hd.
  - intros [s b] drive n lba buf c Hdr (k & Hd & ->)%ide_capacity_spec Hn Hl Hin Hbuf.
    assert (read_address lba = lba) as Ha.
    { pose proof (dw_size k (ata_disk_wf b drive k (dr_disk _ _ _ _ Hd))). unfold read_address. by rewrite (proj2 (Z.leb_gt _ _)) by lia. }
    destruct (pio_read_ok s b drive k n lba buf Hd Hn Hl) as (b' & E & Hs & R0 & R1); [lia|done|]. exists (s, b').
    split; [|split; [|by apply (ide_capacity_same s b b' drive k); [|done|done|intros dr; rewrite Hs]]].
    + cbn [dev_read ide_dev]. rewrite E, Ha. do 4 f_equal. apply list_fmap_ext. intros i a _. unfold ide_sector. cbn. by rewrite (dr_disk _ _ _ _ Hd).
    + intros dr a. unfold ide_sector. cbn. by rewrite Hs.
  - intros [s b] drive n lba buf c Hdr (k & Hd & ->)%ide_capacity_spec Hn Hl Hin Hbuf.
    destruct (pio_write_ok s b drive k n lba buf Hd Hn Hl Hin Hbuf) as (b' & k' & E & R0 & R1 & Ho & Hk' & W). exists (s, b').
    split; [done|]. split; [|split].
    + intros a Ha. unfold ide_sector. cbn. rewrite Hk', (wr_new _ _ _ _ _ W) by done.
      rewrite <-(take_drop (Z.to_nat (n * 512)) buf) at 2. symmetry. apply field_app_l. rewrite length_take. unfold zlen in *. lia.
    + intros dr a Ha. unfold ide_sector. cbn. destruct (decide (dr = drive)) as [->|Hne]; [|by rewrite Ho].
      rewrite Hk', (dr_disk _ _ _ _ Hd). apply (wr_old _ _ _ _ _ W). lia.
    + apply (ide_capacity_same s b b' drive k); [done|done|done|]. intros dr. destruct (decide (dr = drive)) as [->|Hne]; [|by rewrite Ho].
      rewrite Hk', (dr_disk _ _ _ _ Hd). cbn. f_equal. apply W.
  - intros [s b] drive c Hdr (k & Hd & ->)%ide_capacity_spec. by apply ide_drive_size_ok.
Defined.

(** ** An executable drive

    Sectors that were never written read as zeros. After each command and each
    block the drive answers busy [lat] times. *)
Record SimDisk := mkSimDisk { sd_size : Z; sd_sectors : gmap Z (list Z) }.

Definition sim_capacity (k : SimDisk) : Z := Z.max 0 (Z.min (sd_size k) (2 ^ 28)).
Definition sim_identify (k : SimDisk) : list Z :=
  zeros 120 ++ le_bytes 2 (sim_capacity k `mod` 2 ^ 16) ++ le_bytes 2 (sim_capacity k / 2 ^ 16) ++ zeros 388.
Definition sim_sector (k : SimDisk) (a : Z) : list Z := take 512 (default [] (sd_sectors k !! a) ++ zeros 512).
Definition sim_disk (k : SimDisk) : Disk := mkDisk (sim_capacity k) (sim_identify k) (sim_sector k).
Definition sim_store (a : Z) (bs : list Z) (k : SimDisk) : SimDisk := mkSimDisk (sd_size k) (<[a := bs]> (sd_sectors k)).

Record Sim (lat : nat) := mkSim { sim_chans : AtaChan * AtaChan; sim_busy : nat * nat; sim_disks : gmap Z SimDisk }.
Arguments mkSim {lat} _ _ _.
Arguments sim_chans {lat} _.
Arguments sim_busy {lat} _.
Arguments sim_disks {lat} _.

Definition pair_get {A} (c : Z) (p : A * A) : A := if c =? 0 then p.1 else p.2.
Definition pair_put {A} (c : Z) (x : A) (p : A * A) : A * A := if c =? 0 then (x, p.2) else (p.1, x).

(** The channel and register of a port of a command block. *)
Definition sim_decode (p : Z) : option (Z * Z) :=
  if (0x1F0 <=? p) && (p <=? 0x1F7) then Some (0, p - 0x1F0) else
  if (0x170 <=? p) && (p <=? 0x177) then Some (1, p - 0x170) else None.

Section sim.
Context {lat : nat}.
Implicit Types b : Sim lat.

Definition sim_chan b (c : Z) : AtaChan := pair_get c (sim_chans b).
Definition sim_set (c : Z) (ch : AtaChan) (n : nat) b : Sim lat :=
  mkSim (pair_put c ch (sim_chans b)) (pair_put c n (sim_busy b)) (sim_disks b).

Definition sim_command (c v : Z) b : Sim lat :=
  let ch := sim_chan b c in
  match sim_disks b !! ch_drive c ch with
  | None => b
  | Some sk =>
      let k := sim_disk sk in
      let inside := ch_lba ch + ch_count ch <=? dk_size k in
      let p := if v =? 0x20 then if inside then PIn (mjoin (dk_sector k <$> seqZ (ch_lba ch) (ch_count ch))) else PFailed
               else if v =? 0x30 then if inside then POut (ch_lba ch) (ch_count ch) [] else PFailed
               else if v =? 0xE7 then ch_phase ch
               else if v =? 0xEC then PIn (dk_identify k)
               else PFailed in
      sim_set c (with_phase p ch) lat b
  end.

Definition sim_status (c : Z) b : Z * Sim lat :=
  let ch := sim_chan b c in
  match pair_get c (sim_busy b) with
  | S n => (0x80, sim_set c ch n b)
  | O => (match sim_disks b !! ch_drive c ch, ch_phase ch with
          | None, _ => 0
          | Some _, (PIn _ | POut _ _ _) => 0x58
          | Some _, PIdle => 0x50
          | Some _, PFailed => 0x51
          end, b)
  end.

Definition sim_inb (p : Z) b : Z * Sim lat :=
  match sim_decode p with
  | Some (c, r) =>
      if r =? 7 then sim_status c b else
      if r =? 1 then (match ch_phase (sim_chan b c) with PFailed => 0x04 | _ => 0 end, b) else (0xFF, b)
  | None => (0xFF, b)
  end.

Definition sim_outb (p v : Z) b : Sim lat :=
  match sim_decode p with
  | Some (c, r) =>
      if r =? 7 then sim_command c v b else sim_set c (tf_write r v (sim_chan b c)) (pair_get c (sim_busy b)) b
  | None => b
  end.

Definition sim_inw (p : Z) b : (Z * Z) * Sim lat :=
  match sim_decode p with
  | Some (c, _) =>
      match pair_get c (sim_busy b), ch_phase (sim_chan b c) with
      | O, PIn (lo :: hi :: rest) =>
          ((lo, hi), sim_set c (with_phase (after_read rest) (sim_chan b c)) (if zlen rest `mod` 512 =? 0 then lat else O) b)
      | _, _ => ((0xFF, 0xFF), b)
      end
  | _ => ((0xFF, 0xFF), b)
  end.

Definition sim_outw (p : Z) (w : Z * Z) b : Sim lat :=
  match sim_decode p with
  | Some (c, _) =>
      let ch := sim_chan b c in
      match pair_get c (sim_busy b), ch_phase ch, sim_disks b !! ch_drive c ch with
      | O, POut a more got, Some k =>
          if (length got =? 510)%nat then
            let b' := sim_set c (with_phase (if more =? 1 then PIdle else POut (a + 1) (more - 1) []) ch) lat b in
            mkSim (sim_chans b') (sim_busy b') (<[ch_drive c ch := sim_store a (got ++ [w.1; w.2]) k]> (sim_disks b))
          else sim_set c (with_phase (POut a more (got ++ [w.1; w.2])) ch) O b
      | _, _, _ => b
      end
  | _ => b
  end.

#[export] Instance sim_ports : Ports (Sim lat) := { inb := sim_inb; outb := sim_outb; inw := sim_inw; outw := sim_outw }.
#[export] Instance sim_view : AtaView (Sim lat) :=
  { chan := sim_chan; disk b dr := sim_disk <$> sim_disks b !! dr; busy b c := pair_get c (sim_busy b) }.

Lemma sim_decode_port c r : is_chan c → 0 ≤ r ≤ 7 → sim_decode (ata_port c r) = Some (c, r).
Proof.
  intros [-> | ->] Hr; unfold sim_decode, ata_port; cbn [Z.eqb].
  - rewrite !(proj2 (Z.leb_le _ _)) by lia. cbn. by rewrite Z.add_simpl_l.
  - rewrite (proj2 (Z.leb_gt 496 _)), !(proj2 (Z.leb_le _ _)) by lia. cbn. by rewrite Z.add_simpl_l.
Qed.

Lemma pair_get_put {A} c (x : A) p : pair_get c (pair_put c x p) = x.
Proof. unfold pair_get, pair_put. by destruct (c =? 0). Qed.

Lemma pair_get_other {A} c c' (x : A) p : is_chan c → is_chan c' → c' ≠ c → pair_get c' (pair_put c x p) = pair_get c' p.
Proof. by intros [-> | ->] [-> | ->]. Qed.

Lemma sim_set_other c ch n b : is_chan c → other_channels c b (sim_set c ch n b).
Proof. intros Hc c' Hc' Hne. cbn. unfold sim_chan. cbn. by rewrite !pair_get_other. Qed.

Lemma sim_set_chan c ch n b : chan (sim_set c ch n b) c = ch ∧ busy (sim_set c ch n b) c = n.
Proof. cbn. unfold sim_chan. cbn. by rewrite !pair_get_put. Qed.

Lemma sim_disk_wf k : disk_wf (sim_disk k).
Proof.
  split; cbn.
  - unfold sim_capacity. lia.
  - intros a. unfold sim_sector, zeros. len.
  - unfold sim_identify, zeros. len.
  - unfold sim_identify. by fields.
  - unfold sim_identify. by fields.
Qed.

Lemma sim_command_port c v b : is_chan c → outb (ata_port c 7) v b = sim_command c v b.
Proof. intros Hc. cbn [outb sim_ports]. unfold sim_outb. by rewrite sim_decode_port by (done || lia). Qed.

Lemma sim_selected c b k : selected b c = Some k → ∃ sk, sim_disks b !! ch_drive c (sim_chan b c) = Some sk ∧ k = sim_disk sk.
Proof. intros Hk. apply fmap_Some in Hk as (sk & E & ->). by exists sk. Qed.

(** Setting a channel touches neither the disks nor the other channel. *)
Lemma sim_set_ok c ch n b : is_chan c → let b' := sim_set c ch n b in
  chan b' c = ch ∧ other_channels c b b' ∧ same_disks b b' ∧ busy b' c = n.
Proof. intros Hc. destruct (sim_set_chan c ch n b). split_and!; try done. by apply sim_set_other. Qed.

#[export] Instance sim_bus : AtaBus (Sim lat).
Proof.
  split.
  - intros b dr k Hk. cbn in Hk. apply fmap_Some in Hk as (sk & _ & ->). apply sim_disk_wf.
  - intros b c r v Hc Hr Hv [_ Hb]. cbn [outb sim_ports]. unfold sim_outb. rewrite sim_decode_port by (done || lia).
    rewrite (proj2 (Z.eqb_neq r 7)) by lia. destruct (sim_set_ok c (tf_write r v (sim_chan b c)) (pair_get c (sim_busy b)) b Hc) as (-> & ? & ? & ->).
    done.
  - intros b c k Hc _ Hk Hin. destruct (sim_selected c b k Hk) as (sk & El & ->). rewrite sim_command_port by done. unfold sim_command.
    rewrite El. change (chan b c) with (sim_chan b c) in Hin. rewrite (proj2 (Z.leb_le _ _)) by done. cbn [Z.eqb Pos.eqb].
    destruct (sim_set_ok c (with_phase (PIn (mjoin (dk_sector (sim_disk sk) <$> seqZ (ch_lba (sim_chan b c)) (ch_count (sim_chan b c))))) (sim_chan b c)) lat b Hc)
      as (? & ? & ? & _). done.
  - intros b c k Hc _ Hk Hin. destruct (sim_selected c b k Hk) as (sk & El & ->). rewrite sim_command_port by done. unfold sim_command.
    rewrite El. change (chan b c) with (sim_chan b c) in Hin. rewrite (proj2 (Z.leb_le _ _)) by done. cbn [Z.eqb Pos.eqb].
    destruct (sim_set_ok c (with_phase (POut (ch_lba (sim_chan b c)) (ch_count (sim_chan b c)) []) (sim_chan b c)) lat b Hc) as (? & ? & ? & _). done.
  - intros b c k Hc _ Hk. destruct (sim_selected c b k Hk) as (sk & El & ->). rewrite sim_command_port by done. unfold sim_command. rewrite El. cbn [Z.eqb Pos.eqb].
    destruct (sim_set_ok c (with_phase (ch_phase (sim_chan b c)) (sim_chan b c)) lat b Hc) as (E & ? & ? & _). rewrite E. split; [|done].
    cbn. by destruct (sim_chan b c).
  - intros b c Hc [_ Hb]. rewrite sim_command_port by done. unfold sim_command, selected. change (chan b c) with (sim_chan b c).
    cbn [disk sim_view]. destruct (sim_disks b !! ch_drive c (sim_chan b c)) as [sk|] eqn:El; cbn [fmap option_fmap option_map].
    + cbn [Z.eqb Pos.eqb]. destruct (sim_set_ok c (with_phase (PIn (dk_identify (sim_disk sk))) (sim_chan b c)) lat b Hc) as (-> & ? & ? & _). done.
    + done.
  - intros b c st b' Hc. cbn [inb sim_ports]. unfold sim_inb. rewrite sim_decode_port by (done || lia). cbn [Z.eqb Pos.eqb]. unfold sim_status.
    cbn [busy sim_view]. destruct (pair_get c (sim_busy b)) as [|n] eqn:Eb.
    + intros [= <- <-]. split; [done|]. split; [done|]. split; [done|]. unfold selected. cbn [disk sim_view chan].
      destruct (sim_disks b !! ch_drive c (sim_chan b c)); cbn; [|done]. by destruct (ch_phase (sim_chan b c)).
    + intros [= <- <-]. destruct (sim_set_ok c (sim_chan b c) n b Hc) as (? & ? & ? & ?). done.
  - intros b c bs v b' Hc Hp Hb. cbn [inb sim_ports]. unfold sim_inb. rewrite sim_decode_port by (done || lia). cbn [Z.eqb Pos.eqb].
    change (chan b c) with (sim_chan b c) in Hp. rewrite Hp. by intros [= <- <-].
  - intros b p v b' Hp. cbn [inb sim_ports]. unfold sim_inb. by destruct Hp as [-> | ->]; intros [= <- <-].
  - intros b c lo hi rest Hc Hb Hp. cbn [busy sim_view chan] in Hb, Hp. cbn [inw sim_ports]. unfold sim_inw. rewrite sim_decode_port by (done || lia).
    rewrite Hb, Hp. eexists. split; [done|].
    destruct (sim_set_ok c (with_phase (after_read rest) (sim_chan b c)) (if zlen rest `mod` 512 =? 0 then lat else O) b Hc) as (E & ? & ? & E').
    split; [rewrite E; by destruct rest|]. split; [done|]. split; [done|]. intros Hr. apply Z.eqb_neq in Hr. rewrite E'. by rewrite Hr.
  - intros b c a more got lo hi k Hc Hb Hp Hg Hk. destruct (sim_selected c b k Hk) as (sk & El & ->). cbn [outw sim_ports]. unfold sim_outw.
    rewrite sim_decode_port by (done || lia). cbn [busy sim_view chan] in Hb, Hp. rewrite Hb, Hp, El. cbn [fst snd].
    destruct (length got =? 510)%nat eqn:E.
    + apply Nat.eqb_eq in E. set (ch' := with_phase _ (sim_chan b c)). destruct (sim_set_ok c ch' lat b Hc) as (E1 & E2 & _ & _).
      split; [exact E2|]. split; [exact E1|]. split.
      * intros dr Hne. cbn. rewrite lookup_insert_ne by (by intros <-). done.
      * exists (sim_disk (sim_store a (got ++ [lo; hi]) sk)). split_and!; try done.
        -- unfold selected. cbn [disk sim_view chan]. change (sim_chan (mkSim _ _ _) c) with (chan (sim_set c ch' lat b) c). rewrite E1.
           change (ch_drive c ch') with (ch_drive c (sim_chan b c)). cbn. by rewrite lookup_insert_eq.
        -- intros x. cbn. unfold sim_sector. cbn. destruct (Z.eqb_spec x a) as [->|Hne].
           ++ rewrite lookup_insert_eq. cbn. rewrite take_app_le by len. apply take_ge. len.
           ++ by rewrite lookup_insert_ne.
    + destruct (sim_set_ok c (with_phase (POut a more (got ++ [lo; hi])) (sim_chan b c)) 0 b Hc) as (? & ? & ? & ?). done.
Qed.
End sim.

#[export] Instance sim_clean {lat} : AtaClean (Sim lat).
Proof.
  split.
  - intros b c bs v b' Hc Hp Hb. cbn [inb sim_ports]. unfold sim_inb. rewrite sim_decode_port by (done || lia). cbn [Z.eqb Pos.eqb].
    change (chan b c) with (sim_chan b c) in Hp. rewrite Hp. by intros [= <- <-].
  - intros b c v b' Hc Hk Hb. cbn [inb sim_ports]. unfold sim_inb. rewrite sim_decode_port by (done || lia). cbn [Z.eqb Pos.eqb]. unfold sim_status.
    cbn [busy sim_view] in Hb. rewrite Hb. unfold selected in Hk. cbn [disk sim_view chan] in Hk. apply fmap_None in Hk. rewrite Hk. by intros [= <- <-].
Qed.

#[export] Instance sim_fast : AtaFast (Sim 0).
Proof.
  split.
  - intros b c v Hc [_ Hb]. rewrite sim_command_port by done. unfold sim_command. cbn [busy sim_view] in *. destruct (_ !! _).
    + cbn. rewrite pair_get_put. lia.
    + rewrite Hb. lia.
  - intros b c w b' Hc Hb. cbn [inw sim_ports busy sim_view] in *. unfold sim_inw. rewrite sim_decode_port, Hb by (done || lia).
    destruct (ch_phase (sim_chan b c)) as [| |[|lo [|hi rest]]|]; intros [= <- <-]; try done. cbn. rewrite pair_get_put. by destruct (_ =? _).
  - intros b c w Hc Hb. cbn [outw sim_ports busy sim_view] in *. unfold sim_outw. rewrite sim_decode_port, Hb by (done || lia).
    destruct (ch_phase (sim_chan b c)); try done. destruct (_ !! _); [|done]. destruct (_ =? _)%nat; cbn; by rewrite pair_get_put.
Qed.

(** ** Properties *)

(** C20: on every bus that follows the ATA protocol without pausing between blocks, the driver is a sector device.
    For a drive it has identified, a read inside the drive fills the buffer with the sectors and changes nothing,
    a write stores the buffer in exactly the addressed sectors, and the reported size is the size of the drive. *)
Theorem ide_driver_implements_sectors {B} `{HP : Ports B, HV : AtaView B, HB : !AtaBus B, HF : !AtaFast B}
    (d : IdeState * B) drive c n lba buf :
  ide_capacity d drive = Some c → 0 < n < 256 → 0 ≤ lba → lba + n ≤ c → n * 512 ≤ zlen buf →
  (∃ d', pio_read_sectors drive n lba buf d = (Ok (mjoin (ide_sector d drive <$> seqZ lba n) ++ drop (Z.to_nat (n * 512)) buf), d') ∧
     (∀ dr a, ide_sector d' dr a = ide_sector d dr a) ∧ ∀ dr, ide_capacity d' dr = ide_capacity d dr) ∧
  (∃ d', pio_write_sectors drive n lba buf d = (Ok tt, d') ∧
     (∀ a, lba ≤ a < lba + n → ide_sector d' drive a = field (Z.to_nat ((a - lba) * 512)) 512 buf) ∧
     (∀ dr a, dr ≠ drive ∨ a < lba ∨ lba + n ≤ a → ide_sector d' dr a = ide_sector d dr a) ∧
     ∀ dr, ide_capacity d' dr = ide_capacity d dr) ∧
  ide_drive_size drive d = Ok (c * 512).
Proof.
  intros Hc Hn Hl Hin Hbuf. assert (0 ≤ drive ≤ 3) as Hd by (destruct d; apply ide_capacity_spec in Hc as (k & [] & _); done).
  split; [exact (dev_read_spec (D := IdeState * B) d drive n lba buf c Hd Hc Hn Hl Hin Hbuf)|].
  split; [exact (dev_write_spec (D := IdeState * B) d drive n lba buf c Hd Hc Hn Hl Hin Hbuf)|].
  exact (dev_size_spec (D := IdeState * B) d drive c Hd Hc).
Qed.

Definition demo_chan : AtaChan := mkChan 0 0 0 0 0 PIdle.
Definition demo_bus (lat : nat) : Sim lat :=
  mkSim (demo_chan, demo_chan) (0%nat, 0%nat) {[0 := mkSimDisk 64 {[0 := replicate 512 7; 1 := replicate 512 9]}]}.
Definition demo_ide (lat : nat) : IdeState * Sim lat :=
  (set_devices (<[0%nat := ata_device 0 0 (sim_identify (mkSimDisk 64 ∅))]> (IDE_DEVICES ide_boot)) ide_boot, demo_bus lat).

Lemma ide_driver_implements_sectors_witness :
  (∃ d', pio_read_sectors 0 2 0 (zeros 1024) (demo_ide 0) =
     (Ok (mjoin (ide_sector (demo_ide 0) 0 <$> seqZ 0 2) ++ drop (Z.to_nat (2 * 512)) (zeros 1024)), d')) ∧
  ide_drive_size 0 (demo_ide 0) = Ok (64 * 512).
Proof.
  destruct (ide_driver_implements_sectors (demo_ide 0) 0 64 2 0 (zeros 1024)) as ((d' & E & _) & _ & Es);
    [by vm_compute|lia|lia|lia|by vm_compute|]. split; [|exact Es]. exists d'. exact E.
Defined.

(** C26: initialisation finds the drives. Started on two idle channels of a bus whose error register reads zero after an
    accepted IDENTIFY and whose status register reads zero where there is no drive, it succeeds, keeps every sector, and
    afterwards the driver knows each ATA drive on the bus with its size, and no other. The two register values, which the
    ATA protocol does not promise, are needed: on any bus, when the driver sees some status after IDENTIFY and a value in
    the error register, be it of an ATA drive or of an empty channel, it reports success and takes what it found for a
    packet device of size 0. *)
Theorem initialize_finds_drives {B} `{HP : Ports B, HV : AtaView B, HB : !AtaBus B, HF : !AtaFast B} (s : IdeState) (b : B) :
  chans_ok s → length (IDE_BUF s) = 2048%nat →
  (AtaClean B → ready b 0 → ready b 1 →
   ∃ d', ide_initialize (s, b) = (Ok tt, d') ∧ (∀ dr a, ide_sector d' dr a = ide_sector (s, b) dr a) ∧
     ∀ i, 0 ≤ i ≤ 3 → ide_capacity d' i = dk_size <$> disk b i) ∧
  (∀ c d st e, length (IDE_DEVICES s) = 4%nat → is_chan c → 0 ≤ d ≤ 1 → identify_sees s b c d st e → st ≠ 0 → e ≠ 0 →
   ∃ d', ide_identify c d (s, b) = (Ok tt, d') ∧ ide_drive_size (2 * c + d) d' = Ok 0 ∧ ide_capacity d' (2 * c + d) = None).
Proof.
  intros Hs Hb. split.
  - intros HC R0 R1. destruct (ide_initialize_ok s b Hs Hb R0 R1) as (s' & b' & E & Hs' & Hd & R0' & R1' & Hk).
    exists (s', b'). split; [done|]. split; [intros dr a; unfold ide_sector; cbn; by rewrite Hd|].
    intros i Hi. rewrite <-Hd. destruct (disk b' i) as [k|] eqn:Ek; cbn.
    + apply ide_capacity_spec. exists k. split; [|done]. by apply known_ready; [..|apply Hk|].
    + destruct (ide_capacity (s', b') i) as [c|] eqn:Ec; [|done]. apply ide_capacity_spec in Ec as (k & Hr & _).
      pose proof (dr_disk _ _ _ _ Hr). congruence.
  - intros c d st e Hl Hc Hd Hsee Hst He. destruct (identify_packet s b c d st e Hs (conj Hl Hb) Hc Hd Hsee Hst He) as (s' & b' & dev & E & Hdev & H1 & H2 & H3).
    exists (s', b'). split; [done|]. unfold ide_drive_size. cbn [fst]. rewrite (proj2 (Z.ltb_ge _ _)) by (destruct Hc; lia). rewrite Hdev, H1, H2.
    split; [done|]. destruct (ide_capacity (s', b') (2 * c + d)) as [x|] eqn:Ec; [|done]. apply ide_capacity_spec in Ec as (k & Hr & _).
    destruct (dr_device _ _ _ _ Hr) as (dev' & Hdev' & _ & _ & _ & Ht & _). rewrite Hdev in Hdev'. injection Hdev' as <-. rewrite H2 in Ht. discriminate.
Qed.

Lemma initialize_finds_drives_witness :
  ∃ d', ide_initialize (ide_boot, demo_bus 0) = (Ok tt, d') ∧ ide_capacity d' 0 = Some 64 ∧ ide_capacity d' 1 = None.
Proof.
  destruct (initialize_finds_drives ide_boot (demo_bus 0)) as [Hinit _]; [by exists 0, 0|done|].
  destruct (Hinit sim_clean) as (d' & E & _ & Hc); [done|done|].
  exists d'. split; [exact E|]. rewrite !Hc by lia. clear. by vm_compute.
Defined.

(** Reading past the 28-bit range answers with another sector. For an address from 2^28 on the driver clears the upper
    bits instead of reporting [LbaOutOfRange], as it does when writing, and returns the content of the sector that is left. *)
Theorem read_drops_high_address_bits {B} `{HP : Ports B, HV : AtaView B, HB : !AtaBus B, HF : !AtaFast B}
    (d : IdeState * B) drive c lba buf :
  ide_capacity d drive = Some c → 2 ^ 28 ≤ lba → lba `mod` 2 ^ 24 < c → zlen buf = 512 →
  (∃ d', pio_read_sectors drive 1 lba buf d = (Ok (ide_sector d drive (lba `mod` 2 ^ 24)), d')) ∧
  (pio_write_sectors drive 1 lba buf d).1 = Err IdeLbaOutOfRange.
Proof.
  destruct d as [s b]. intros (k & Hd & ->)%ide_capacity_spec Hl Hin Hbuf.
  assert (read_address lba = lba `mod` 2 ^ 24) as Ha by (unfold read_address; by rewrite (proj2 (Z.leb_le _ _)) by lia).
  destruct (read_one_ok s b drive k lba buf Hd) as (r & d' & E & _ & Hr & _); [lia|lia|done|]. split.
  - exists d'. rewrite E, (Hr _), Ha. unfold ide_sector. cbn. by rewrite (dr_disk _ _ _ _ Hd).
  - destruct (drive_channel drive (dr_range _ _ _ _ Hd)) as (Hc & _ & _).
    destruct (channel_regs_ok s b _ (dr_chans _ _ _ _ Hd) Hc) as (rg & Er & _). destruct (dr_device _ _ _ _ Hd) as (dev & Hdev & H1 & H2 & _).
    unfold pio_write_sectors. rewrite (proj2 (Z.ltb_ge 3 drive)) by (pose proof (dr_range _ _ _ _ Hd); lia).
    rewrite (bind_ok _ _ _ _ _ (get_device_ok s b drive dev Hdev)), H1, H2. cbn [Z.eqb]. rewrite (proj2 (Z.ltb_ge _ _)) by lia.
    rewrite (bind_ok _ _ _ _ _ Er). by rewrite (proj2 (Z.leb_le _ _)) by lia.
Qed.

Lemma read_drops_high_address_bits_witness :
  ∃ d', pio_read_sectors 0 1 (2 ^ 28 + 1) (zeros 512) (demo_ide 0) = (Ok (replicate 512 9), d').
Proof.
  destruct (read_drops_high_address_bits (demo_ide 0) 0 64 (2 ^ 28 + 1) (zeros 512)) as [[d' E] _]; [by vm_compute|lia|by vm_compute|by vm_compute|].
  exists d'. exact E.
Defined.

(** The driver polls once per command and not once per block. Whatever its timing, a drive that follows the protocol
    answers a one-sector read with the sector or the driver times out; but a drive that is busy for one status read between
    blocks makes a two-sector read succeed with wrong data. *)
Theorem multi_sector_read_needs_polling :
  (∀ lat (d : IdeState * Sim lat) drive c lba buf,
     ide_capacity d drive = Some c → 0 ≤ lba < c → zlen buf = 512 →
     ∃ r d', pio_read_sectors drive 1 lba buf d = (r, d') ∧ (r = Ok (ide_sector d drive lba) ∨ r = Err IdeTimeout)) ∧
  ∃ bs d', pio_read_sectors 0 2 0 (zeros 1024) (demo_ide 1) = (Ok bs, d') ∧ ide_capacity (demo_ide 1) 0 = Some 64 ∧
    bs ≠ mjoin (ide_sector (demo_ide 1) 0 <$> seqZ 0 2).
Proof.
  split.
  - intros lat [s b] drive c lba buf (k & Hd & ->)%ide_capacity_spec Hl Hbuf.
    assert (read_address lba = lba) as Ha.
    { pose proof (dw_size k (ata_disk_wf b drive k (dr_disk _ _ _ _ Hd))). unfold read_address. by rewrite (proj2 (Z.leb_gt _ _)) by lia. }
    destruct (read_one_ok s b drive k lba buf Hd) as (r & d' & E & Hr & _); [lia|lia|done|]. exists r, d'. split; [done|].
    rewrite Ha in Hr. unfold ide_sector. cbn [snd]. by rewrite (dr_disk _ _ _ _ Hd).
  - eexists _, _. split; [vm_compute; reflexivity|]. split; [by vm_compute|]. by vm_compute.
Qed.
