(* ===== verification/Storage.v ===== *)
(** * The storage stack: filesystem, IDE driver, ATA bus

    The filesystem of [galleon2] was verified against a sector device, and the
    IDE driver was shown to be one on every ATA bus that keeps up with it. This
    file composes the two: from the first port access of [ide_initialize] to a
    file that is created and read back, with every sector moved through the
    driver's ports. *)

From S2P Require Import Prelude Device Mft FileRecord GalleonFs Ide.

(** C1: the stack works end to end, for small files. On an ATA bus that does not pause between blocks and on which the
    identification works (the error register reads zero after an accepted IDENTIFY, the status register where there is no
    drive), with both channels idle, and for any drive of 145 to 1044480 clusters on it: initialising the driver,
    formatting the drive, creating a file with an ASCII name under a parent below 128 whose content is a multiple of
    eight bytes and fits its record (700 bytes at most), and reading that file back all succeed, and the content is the
    one that was written. *)
Theorem storage_stack_roundtrip {B} `{HP : Ports B, HV : AtaView B, HB : !AtaBus B, HF : !AtaFast B, HC : !AtaClean B}
    (s : IdeState) (b : B) drive k total parent name data :
  chans_ok s → length (IDE_BUF s) = 2048%nat → ready b 0 → ready b 1 →
  0 ≤ drive ≤ 3 → disk b drive = Some k → total = dk_size k * 512 / 4096 → 145 ≤ total ≤ 255 * 4096 →
  Forall (λ x, 0 < x < 128) name → 1 ≤ zlen name ≤ 255 → 0 ≤ parent < 128 →
  (length data mod 8 = 0)%nat → zlen data ≤ 700 → zlen (file_name_serialize (file_name_new parent name false)) + zlen data ≤ 820 →
  ∃ d1 g d2 g1 w1 g2 w2,
    ide_initialize (s, b) = (Ok tt, d1) ∧
    format drive d1 = (Ok g, d2) ∧
    gfs_create_file 1 parent name (Some data) (g, boot_world d2) = (Ok 16, (g1, w1)) ∧
    gfs_read_file 16 (g1, w1) = (Ok data, (g2, w2)).
Proof.
  intros Hs Hbuf R0 R1 Hd Hk Htot Hb Hasc Hname Hpar Hal H700 Hfit.
  destruct (ide_initialize_ok s b Hs Hbuf R0 R1) as (s1 & b1 & E1 & Hs1 & Hdk & R01 & R11 & Hkn).
  assert (capacity (s1, b1) drive = Some (dk_size k)) as Hc.
  { apply ide_capacity_spec. exists k. split; [|done]. apply known_ready; auto. by rewrite Hdk. }
  destruct (format_ok (s1, b1) drive (dk_size k) total Hd Hc Htot Hb) as (g & d2 & E2 & Hf).
  destruct (create_on_fresh drive total (s1, b1) g (boot_world d2) (dk_size k) 1 0 parent name data)
    as (g1 & w1 & E3 & Hrd & Hfile & _); try done; try (cbn; lia).
  destruct (read_file_ok (gfs_files g1) w1 16 data Hrd Hfile) as (w2 & E4 & _).
  eexists (s1, b1), g, d2, g1, w1, _, _. split; [exact E1|]. split; [exact E2|]. split; [exact E3|].
  unfold gfs_read_file, on_files. rewrite E4. reflexivity.
Qed.

Definition stack_bus : Sim 0 := mkSim (demo_chan, demo_chan) (0%nat, 0%nat) {[0 := mkSimDisk 1600 ∅]}.

Lemma storage_stack_roundtrip_witness :
  ∃ d1 g d2 g1 w1 g2 w2,
    ide_initialize (ide_boot, stack_bus) = (Ok tt, d1) ∧ format 0 d1 = (Ok g, d2) ∧
    gfs_create_file 1 5 [114; 101; 97; 100; 46; 116; 120; 116] (Some (zeros 16)) (g, boot_world d2) = (Ok 16, (g1, w1)) ∧
    gfs_read_file 16 (g1, w1) = (Ok (zeros 16), (g2, w2)).
Proof.
  apply (storage_stack_roundtrip ide_boot stack_bus 0 (sim_disk (mkSimDisk 1600 ∅)) 200 5 [114; 101; 97; 100; 46; 116; 120; 116] (zeros 16));
    [by exists 0, 0|done|done|done|lia|done|by vm_compute|lia|by forall_list|by vm_compute|lia|done|by vm_compute|by vm_compute].
Defined.
