(* ===== verification/Api.v ===== *)
(** * Kernel objects, capabilities, events and system calls

    The object registry and its capabilities ([crates/lib_kernel/src/api/mod.rs]),
    the objects themselves ([api/objects.rs]), DMA buffers and their registry
    ([memory/dma.rs]), the event dispatcher ([events.rs]), the ELF header check
    ([elf/mod.rs]) and the system calls on top ([api/syscalls.rs]).

    One record holds the statics of these files. Every lock is taken and given
    back inside one call, none while it is already held, so a call is one step.
    Objects are shared by reference: the registry maps a handle to the object,
    and a method changes it in place.

    The kernel heap ([memory/allocator.rs]) is a parameter, since its allocator
    is the [talc] crate: it says whether a block can be had, and a call that
    asks for one it cannot have panics. It is asked for the blocks whose size
    the caller chooses, the pixels of a buffer and the copy of an ELF file; the
    small blocks of the registries' own entries are assumed to be there. *)

From S2P Require Import Prelude Process.

(** ** Objects *)

Inductive PixelFormat : Type := Rgba8888 | Rgb888 | Bgra8888 | Bgr888.

Inductive InputEvent : Type :=
  | KeyPress (key modifiers : Z)
  | KeyRelease (key modifiers : Z)
  | MouseMove (x y : Z)
  | MousePress (button x y : Z)
  | MouseRelease (button x y : Z).

Record Rect := mkRect { rect_x : Z; rect_y : Z; rect_width : Z; rect_height : Z }.

Record Surface := mkSurface {
  sf_width : Z; sf_height : Z; sf_format : PixelFormat;
  sf_buffer : option Z; sf_committed : bool; sf_damage : list Rect;
}.
Definition surface_new (width height : Z) (format : PixelFormat) : Surface := mkSurface width height format None false [].
Definition attach_buffer (buffer : Z) (s : Surface) : Surface :=
  mkSurface (sf_width s) (sf_height s) (sf_format s) (Some buffer) false (sf_damage s).
Definition commit (s : Surface) : Surface := mkSurface (sf_width s) (sf_height s) (sf_format s) (sf_buffer s) true (sf_damage s).
Definition add_damage (r : Rect) (s : Surface) : Surface :=
  mkSurface (sf_width s) (sf_height s) (sf_format s) (sf_buffer s) (sf_committed s) (sf_damage s ++ [r]).
Definition take_damage (s : Surface) : list Rect * Surface :=
  (sf_damage s, mkSurface (sf_width s) (sf_height s) (sf_format s) (sf_buffer s) (sf_committed s) []).

(** A DMA buffer is shared by reference and known by its number. *)
Record DmaBuffer := mkDma { db_id : Z; db_pages : list Z; db_size : Z; db_pinned : bool; db_ref_count : Z }.

Inductive BufferData : Type := Owned (bytes : list Z) | Dma (id : Z).
Record Buffer := mkBuffer { bf_data : BufferData; bf_width : Z; bf_height : Z; bf_stride : Z; bf_format : PixelFormat }.

Definition bytes_per_pixel (format : PixelFormat) : Z :=
  match format with Rgba8888 | Bgra8888 => 4 | Rgb888 | Bgr888 => 3 end.

(** A block from the kernel heap, which answers whether it has room for it; no bytes need no block, and without room
    [alloc_error_handler] panics. *)
Definition HEAP_SIZE : Z := 128 * 1024 * 1024.
Definition heap_alloc {E} (room : Z → bool) (size : Z) : res E unit := if (size =? 0) || room size then Ok tt else Panic.

Definition buffer_new {E} (room : Z → bool) (width height : Z) (format : PixelFormat) : res E Buffer :=
  let? stride := chk 32 (width * bytes_per_pixel format) in
  let? size := chk 32 (stride * height) in
  let? _ := heap_alloc room size in
  Ok (mkBuffer (Owned (zeros (Z.to_nat size))) width height stride format).

Definition buffer_from_dma (b : DmaBuffer) : Buffer :=
  mkBuffer (Dma (db_id b)) 256 (as_u32 (db_size b) / (256 * 4)) (256 * 4) Rgba8888.

(** [EventStream]: a vector of events. *)
Definition push_event (e : InputEvent) (events : list InputEvent) : list InputEvent := events ++ [e].
Definition poll_event (events : list InputEvent) : option InputEvent * list InputEvent :=
  match last events with
  | Some e => (Some e, take (length events - 1) events)
  | None => (None, events)
  end.
Definition has_events (events : list InputEvent) : bool := match events with [] => false | _ => true end.

Record Display := mkDisplay {
  dp_width : Z; dp_height : Z; dp_refresh_rate : Z; dp_framebuffer : option Z; dp_exclusive_owner : option Z; dp_vsync : bool;
}.
Definition display_new (width height refresh_rate framebuffer : Z) : Display :=
  mkDisplay width height refresh_rate (Some framebuffer) None true.
Definition set_owner (o : option Z) (d : Display) : Display :=
  mkDisplay (dp_width d) (dp_height d) (dp_refresh_rate d) (dp_framebuffer d) o (dp_vsync d).
Definition request_exclusive (requestor : Z) (d : Display) : bool * Display :=
  match dp_exclusive_owner d with None => (true, set_owner (Some requestor) d) | Some _ => (false, d) end.
Definition release_exclusive (requestor : Z) (d : Display) : bool * Display :=
  if bool_decide (dp_exclusive_owner d = Some requestor) then (true, set_owner None d) else (false, d).

(** [Arc<dyn KernelObject>] *)
Inductive KernelObject : Type :=
  | OSurface (s : Surface)
  | OBuffer (b : Buffer)
  | OStream (events : list InputEvent)
  | ODisplay (d : Display).

(** ** State *)
Record EventTypeFilter := mkFilter { ft_keyboard : bool; ft_mouse : bool; ft_display : bool }.
Record EventStreamRegistration := mkReg { sr_stream : Z; sr_process : Z; sr_filter : EventTypeFilter }.
Record PendingEvent := mkPending { pe_event : InputEvent; pe_targets : list Z; pe_timestamp : Z }.

Record Api := mkApi {
  next_handle : Z;
  api_next_pid : Z;
  next_buffer_id : Z;
  api_ticks : Z;
  objects : gmap Z KernelObject;
  capabilities : gmap Z (list Capability);
  dma_heap : gmap Z DmaBuffer;
  dma_buffers : list (option Z);
  streams : list EventStreamRegistration;
  event_counter : Z;
  pending_events : list PendingEvent;
  user_memory : gmap Z Z;
}.

Definition api_boot (mem : gmap Z Z) : Api := mkApi 1 1 1 0 ∅ ∅ ∅ [] [] 0 [] mem.

Definition set_next_handle (h : Z) (a : Api) : Api :=
  mkApi h (api_next_pid a) (next_buffer_id a) (api_ticks a) (objects a) (capabilities a) (dma_heap a) (dma_buffers a)
    (streams a) (event_counter a) (pending_events a) (user_memory a).
Definition set_next_pid (p : Z) (a : Api) : Api :=
  mkApi (next_handle a) p (next_buffer_id a) (api_ticks a) (objects a) (capabilities a) (dma_heap a) (dma_buffers a)
    (streams a) (event_counter a) (pending_events a) (user_memory a).
Definition set_objects (o : gmap Z KernelObject) (a : Api) : Api :=
  mkApi (next_handle a) (api_next_pid a) (next_buffer_id a) (api_ticks a) o (capabilities a) (dma_heap a) (dma_buffers a)
    (streams a) (event_counter a) (pending_events a) (user_memory a).
Definition set_capabilities (c : gmap Z (list Capability)) (a : Api) : Api :=
  mkApi (next_handle a) (api_next_pid a) (next_buffer_id a) (api_ticks a) (objects a) c (dma_heap a) (dma_buffers a)
    (streams a) (event_counter a) (pending_events a) (user_memory a).
Definition set_dma (next : Z) (heap : gmap Z DmaBuffer) (slots : list (option Z)) (a : Api) : Api :=
  mkApi (next_handle a) (api_next_pid a) next (api_ticks a) (objects a) (capabilities a) heap slots
    (streams a) (event_counter a) (pending_events a) (user_memory a).
Definition set_events (st : list EventStreamRegistration) (n : Z) (pe : list PendingEvent) (a : Api) : Api :=
  mkApi (next_handle a) (api_next_pid a) (next_buffer_id a) (api_ticks a) (objects a) (capabilities a) (dma_heap a) (dma_buffers a)
    st n pe (user_memory a).

Inductive RegistryError : Type :=
  | RegistryFull | RegProcessNotFound | HandleNotFound | ObjectNotFound | InsufficientRights.
Inductive DmaError : Type := InvalidSize | DmaOutOfMemory | MappingFailed | BufferNotFound | AccessDenied.

(** ** The registry *)

(** [capabilities.entry(owner)]: push, or insert a vector with one element. *)
Definition grant (c : Capability) (caps : gmap Z (list Capability)) : gmap Z (list Capability) :=
  <[cap_owner c := default [] (caps !! cap_owner c) ++ [c]]> caps.

Definition register_object {E} (object : KernelObject) (owner rights : Z) : M Api E Z :=
  let! a := mget in
  let handle := next_handle a in
  let! _ := mmod (set_next_handle (wrap64 (handle + 1))) in
  let! _ := mmod (λ a, set_objects (<[handle := object]> (objects a)) a) in
  let! _ := mmod (λ a, set_capabilities (grant (mkCap handle rights owner) (capabilities a)) a) in
  mok handle.

(** The first capability of a list for a handle. *)
Definition has_handle (handle : Z) (c : Capability) : bool := cap_handle c =? handle.
Definition find_capability (handle : Z) (caps : list Capability) : option Capability := List.find (has_handle handle) caps.

Definition get_object (handle process required_rights : Z) (a : Api) : res RegistryError KernelObject :=
  match capabilities a !! process with
  | None => Err RegProcessNotFound
  | Some caps =>
      match find_capability handle caps with
      | None => Err HandleNotFound
      | Some c =>
          if negb (rights_has (cap_rights c) required_rights) then Err InsufficientRights else
          match objects a !! handle with
          | None => Err ObjectNotFound
          | Some o => Ok o
          end
      end
  end.

Definition transfer_capability (handle from to rights : Z) : M Api RegistryError unit :=
  let! a := mget in
  match capabilities a !! from with
  | None => merr RegProcessNotFound
  | Some caps =>
      match find_capability handle caps with
      | None => merr HandleNotFound
      | Some c =>
          if negb (rights_has (cap_rights c) SHARE) then merr InsufficientRights else
          mmod (λ a, set_capabilities (grant (mkCap handle rights to) (capabilities a)) a)
      end
  end.

Definition revoke_capability (handle process : Z) : M Api RegistryError unit :=
  let! a := mget in
  match capabilities a !! process with
  | None => merr RegProcessNotFound
  | Some caps =>
      match find_index (has_handle handle) caps with
      | None => merr HandleNotFound
      | Some i => mmod (λ a, set_capabilities (<[process := delete i caps]> (capabilities a)) a)
      end
  end.

(** A method on a registered object. *)
Definition update_object {E} (handle : Z) (f : KernelObject → KernelObject) : M Api E unit :=
  mmod (λ a, set_objects (alter f handle (objects a)) a).

(** ** DMA buffers *)
Definition dma_buffer_new (size : Z) : M Api DmaError Z :=
  if size =? 0 then merr InvalidSize else
  let! up := mlift (add64 size 0xFFF) in
  let page_count := up / 0x1000 in
  let pages := (λ i, 0x100000 + i * 0x1000) <$> seqZ 0 page_count in
  let! a := mget in
  let id := next_buffer_id a in
  let! _ := mput (set_dma (wrap64 (id + 1)) (<[id := mkDma id pages (page_count * 0x1000) true 1]> (dma_heap a)) (dma_buffers a) a) in
  mok id.

Definition register_buffer {E} (id : Z) : M Api E Z :=
  let! _ := mmod (λ a, set_dma (next_buffer_id a) (dma_heap a)
    (match find_index (λ b, match b with None => true | Some _ => false end) (dma_buffers a) with
     | Some i => <[i := Some id]> (dma_buffers a)
     | None => dma_buffers a ++ [Some id]
     end) a) in
  mok id.

Definition add_ref (b : DmaBuffer) : DmaBuffer := mkDma (db_id b) (db_pages b) (db_size b) (db_pinned b) (wrap64 (db_ref_count b + 1)).
Definition release (b : DmaBuffer) : bool * DmaBuffer :=
  (db_ref_count b =? 1, mkDma (db_id b) (db_pages b) (db_size b) (db_pinned b) (wrap64 (db_ref_count b - 1))).

Definition in_slots (id : Z) (slots : list (option Z)) : bool := bool_decide (Some id ∈ slots).

(** The buffer as the registry holds it; its reference count is raised. *)
Definition get_buffer {E} (id : Z) : M Api E (option DmaBuffer) :=
  let! a := mget in
  if in_slots id (dma_buffers a) then
    let! _ := mmod (λ a, set_dma (next_buffer_id a) (alter add_ref id (dma_heap a)) (dma_buffers a) a) in
    mok (add_ref <$> dma_heap a !! id)
  else mok None.

Definition unregister_buffer {E} (id : Z) : M Api E unit :=
  mmod (λ a, set_dma (next_buffer_id a) (dma_heap a)
    (match find_index (λ b, bool_decide (b = Some id)) (dma_buffers a) with
     | Some i => <[i := None]> (dma_buffers a)
     | None => dma_buffers a
     end) a).

Definition create_dma_buffer (size : Z) : M Api DmaError Z :=
  let! id := dma_buffer_new size in
  let! _ := register_buffer id in
  mok id.

Definition map_buffer_to_userspace (buffer_id : Z) : M Api DmaError unit :=
  let! b := get_buffer buffer_id in
  match b with None => merr BufferNotFound | Some _ => mok tt end.

Definition share_buffer_with_process (buffer_id target_process rights : Z) : M Api DmaError Z :=
  let! b := get_buffer buffer_id in
  match b with
  | None => merr BufferNotFound
  | Some b => register_object (OBuffer (buffer_from_dma b)) target_process rights
  end.

(** ** Events *)
Definition FILTER_ALL : EventTypeFilter := mkFilter true true true.
Definition KEYBOARD_ONLY : EventTypeFilter := mkFilter true false false.
Definition MOUSE_ONLY : EventTypeFilter := mkFilter false true false.

Definition filter_matches (f : EventTypeFilter) (e : InputEvent) : bool :=
  match e with
  | KeyPress _ _ | KeyRelease _ _ => ft_keyboard f
  | MouseMove _ _ | MousePress _ _ _ | MouseRelease _ _ _ => ft_mouse f
  end.

Definition register_stream {E} (stream_handle process_id : Z) (f : EventTypeFilter) : M Api E unit :=
  mmod (λ a, set_events (streams a ++ [mkReg stream_handle process_id f]) (event_counter a) (pending_events a) a).

Definition unregister_stream {E} (stream_handle process_id : Z) : M Api E unit :=
  mmod (λ a, set_events (filter (λ r, sr_stream r ≠ stream_handle ∨ sr_process r ≠ process_id) (streams a))
               (event_counter a) (pending_events a) a).

(** The first stream a process has registered. *)
Definition first_stream (process_id : Z) (st : list EventStreamRegistration) : option EventStreamRegistration :=
  List.find (λ r, sr_process r =? process_id) st.

Definition deliver_to_one {E} (event : InputEvent) (process_id : Z) : M Api E unit :=
  let! a := mget in
  match first_stream process_id (streams a) with
  | None => mok tt
  | Some r =>
      match get_object (sr_stream r) process_id WRITE a with
      | Ok (OStream _) => update_object (sr_stream r) (λ o, match o with OStream es => OStream (push_event event es) | o => o end)
      | _ => mok tt
      end
  end.

Definition deliver_to_processes {E} (event : InputEvent) (targets : list Z) : M Api E unit :=
  mfor targets (deliver_to_one event).

Definition dispatch_event {E} (event : InputEvent) : M Api E unit :=
  let! _ := mmod (λ a, set_events (streams a) (wrap64 (event_counter a + 1)) (pending_events a) a) in
  let! a := mget in
  let targets := sr_process <$> filter (λ r, filter_matches (sr_filter r) event) (streams a) in
  match targets with
  | [] => mok tt
  | _ =>
      let! _ := mmod (λ a, set_events (streams a) (event_counter a)
                        (pending_events a ++ [mkPending event targets (api_ticks a)]) a) in
      deliver_to_processes event targets
  end.

Definition process_pending_events {E} : M Api E unit :=
  mmod (λ a, set_events (streams a) (event_counter a) [] a).

Record EventStats := mkEventStats { total_events_dispatched : Z; registered_streams : Z; es_pending_events : Z }.
Definition event_get_stats (a : Api) : EventStats := mkEventStats (event_counter a) (zlen (streams a)) (zlen (pending_events a)).

(** ** The ELF header *)

Inductive ElfError : Type := InvalidMagic | UnsupportedClass | UnsupportedArch | InvalidHeader | LoadError.

Record ElfHeader := mkElf {
  e_ident : list Z; e_type : Z; e_machine : Z; e_version : Z; e_entry : Z; e_phoff : Z; e_shoff : Z; e_flags : Z;
  e_ehsize : Z; e_phentsize : Z; e_phnum : Z; e_shentsize : Z; e_shnum : Z; e_shstrndx : Z;
}.

(** The [repr(C)] structure read from the first 64 bytes. *)
Definition elf_header (data : list Z) : ElfHeader :=
  mkElf (field 0 16 data) (le_dec (field 16 2 data)) (le_dec (field 18 2 data)) (le_dec (field 20 4 data))
    (le_dec (field 24 8 data)) (le_dec (field 32 8 data)) (le_dec (field 40 8 data)) (le_dec (field 48 4 data))
    (le_dec (field 52 2 data)) (le_dec (field 54 2 data)) (le_dec (field 56 2 data)) (le_dec (field 58 2 data))
    (le_dec (field 60 2 data)) (le_dec (field 62 2 data)).

Definition elf_loader_new (data : list Z) : res ElfError ElfHeader :=
  if zlen data <? 64 then Err InvalidHeader else
  let h := elf_header data in
  if bool_decide (field 0 4 (e_ident h) ≠ [0x7f; 0x45; 0x4c; 0x46]) then Err InvalidMagic else
  if bool_decide (e_ident h !! 4%nat ≠ Some 2) then Err UnsupportedClass else
  if negb (e_machine h =? 62) then Err UnsupportedArch else Ok h.

(** ** System calls *)

(** [VirtAddr::new] of the [x86_64] crate: [None] is its panic. *)
Class X86Virt := { virt_addr_new : Z → option Z }.
Class X86VirtLaws `{X86Virt} : Prop := {
  virt_addr_canonical : ∀ a, 0 ≤ a < 2 ^ 47 ∨ 2 ^ 64 - 2 ^ 47 ≤ a < 2 ^ 64 → virt_addr_new a = Some a;
  virt_addr_invalid : ∀ a, 2 ^ 47 ≤ a < 2 ^ 64 - 2 ^ 47 → virt_addr_new a = None;
}.

(** The kernel's allocator: whether it has room for a block of so many bytes, in a given state. The heap is the one
    span of [HEAP_SIZE] bytes it was given. *)
Class KernelHeap := { heap_room : Api → Z → bool }.
Class KernelHeapLaws `{KernelHeap} : Prop := { heap_room_bound : ∀ a n, heap_room a n = true → n ≤ HEAP_SIZE }.

Record SyscallFrame := mkFrame {
  f_rax : Z; f_rbx : Z; f_rcx : Z; f_rdx : Z; f_rsi : Z; f_rdi : Z; f_r8 : Z; f_r9 : Z; f_r10 : Z; f_r11 : Z; f_rsp : Z; f_rbp : Z;
}.
Definition set_rax (v : Z) (f : SyscallFrame) : SyscallFrame :=
  mkFrame v (f_rbx f) (f_rcx f) (f_rdx f) (f_rsi f) (f_rdi f) (f_r8 f) (f_r9 f) (f_r10 f) (f_r11 f) (f_rsp f) (f_rbp f).

Inductive SyscallNumber : Type :=
  | CreateObject | GetObject | CallObject | TransferCapability | RevokeCapability | CreateProcess | LoadElf | StartProcess | Exit.

Definition syscall_try_from (value : Z) : option SyscallNumber :=
  if value =? 0 then Some CreateObject else
  if value =? 1 then Some GetObject else
  if value =? 2 then Some CallObject else
  if value =? 3 then Some TransferCapability else
  if value =? 4 then Some RevokeCapability else
  if value =? 5 then Some CreateProcess else
  if value =? 6 then Some LoadElf else
  if value =? 7 then Some StartProcess else
  if value =? 99 then Some Exit else None.

Definition pixel_format (v : Z) : option PixelFormat :=
  if v =? 0 then Some Rgba8888 else if v =? 1 then Some Rgb888 else
  if v =? 2 then Some Bgra8888 else if v =? 3 then Some Bgr888 else None.

Section syscalls.
Context `{X86Virt} `{KernelHeap}.
Abbreviation AM := (M Api Empty_set).

(** [ProcessId::new()] *)
Definition process_id_new : AM Z :=
  let! a := mget in
  let! _ := mmod (set_next_pid (wrap64 (api_next_pid a + 1))) in
  mok (api_next_pid a).

Definition sys_create_object (f : SyscallFrame) : AM Z :=
  let object_type := f_rbx f in
  let! process_id := process_id_new in
  if object_type =? 0 then
    match pixel_format (f_rsi f) with
    | None => mok U64_MAX
    | Some fmt => register_object (OSurface (surface_new (as_u32 (f_rcx f)) (as_u32 (f_rdx f)) fmt)) process_id ALL_RIGHTS
    end
  else if object_type =? 1 then
    match pixel_format (f_rsi f) with
    | None => mok U64_MAX
    | Some fmt =>
        let! a := mget in
        let! b := mlift (buffer_new (heap_room a) (as_u32 (f_rcx f)) (as_u32 (f_rdx f)) fmt) in
        register_object (OBuffer b) process_id ALL_RIGHTS
    end
  else if object_type =? 2 then register_object (OStream []) process_id ALL_RIGHTS
  else mok U64_MAX.

Definition sys_get_object (f : SyscallFrame) : AM Z :=
  let! process_id := process_id_new in
  let! a := mget in
  mok (if is_ok (get_object (f_rbx f) process_id (f_rcx f) a) then 0 else 1).

Definition sys_call_object (f : SyscallFrame) : AM Z :=
  let handle := f_rbx f in
  let method := f_rcx f in
  let! process_id := process_id_new in
  let! a := mget in
  match get_object handle process_id WRITE a with
  | Ok (OSurface _) =>
      if method =? 0 then
        let! _ := update_object handle (λ o, match o with OSurface s => OSurface (attach_buffer (f_rdx f) s) | o => o end) in mok 0
      else if method =? 1 then
        let! _ := update_object handle (λ o, match o with OSurface s => OSurface (commit s) | o => o end) in mok 0
      else mok U64_MAX
  | Ok (OStream es) => mok (if method =? 0 then if has_events es then 0 else 1 else U64_MAX)
  | _ => mok U64_MAX
  end.

(** A registry call whose error becomes the value 1. *)
Definition as_status (m : M Api RegistryError unit) : AM Z := λ a,
  match m a with
  | (Ok _, a') => (Ok 0, a')
  | (Err _, a') => (Ok 1, a')
  | (Panic, a') => (Panic, a')
  | (Hang, a') => (Hang, a')
  end.

Definition sys_transfer_capability (f : SyscallFrame) : AM Z :=
  as_status (transfer_capability (f_rbx f) (f_rcx f) (f_rdx f) (f_rsi f)).

Definition sys_revoke_capability (f : SyscallFrame) : AM Z := as_status (revoke_capability (f_rbx f) (f_rcx f)).

(** [cli; loop { hlt }] *)
Definition sys_exit (f : SyscallFrame) : AM Z := mlift Hang.

Definition sys_create_process (f : SyscallFrame) : AM Z := process_id_new.

(** A copy of the bytes the caller points to; memory that is not mapped faults. *)
Definition read_user (ptr len : Z) : AM (list Z) :=
  let! a := mget in
  let! _ := mlift (heap_alloc (heap_room a) len) in
  mlift (match mapM (λ i, user_memory a !! i) (seqZ ptr len) with Some bs => Ok bs | None => Panic end).

Definition sys_load_elf (f : SyscallFrame) : AM Z :=
  let elf_data_ptr := f_rcx f in
  let elf_data_len := f_rdx f in
  if (elf_data_ptr =? 0) || (elf_data_len =? 0) then mok U64_MAX else
  let! elf_data := read_user elf_data_ptr elf_data_len in
  match elf_loader_new elf_data with
  | Ok h => mlift (match virt_addr_new (e_entry h) with Some v => Ok v | None => Panic end)
  | _ => mok U64_MAX
  end.

Definition sys_start_process (f : SyscallFrame) : AM Z :=
  mlift (match virt_addr_new (f_rcx f) with Some _ => Ok 0 | None => Panic end).

Definition handle_syscall (f : SyscallFrame) : AM SyscallFrame :=
  match syscall_try_from (f_rax f) with
  | None => mok (set_rax U64_MAX f)
  | Some n =>
      let! result :=
        (match n with
         | CreateObject => sys_create_object f
         | GetObject => sys_get_object f
         | CallObject => sys_call_object f
         | TransferCapability => sys_transfer_capability f
         | RevokeCapability => sys_revoke_capability f
         | CreateProcess => sys_create_process f
         | LoadElf => sys_load_elf f
         | StartProcess => sys_start_process f
         | Exit => sys_exit f
         end) in
      mok (set_rax result f)
  end.

(** A program's system calls, one after the other. *)
Fixpoint syscalls (fs : list SyscallFrame) : AM (list Z) :=
  match fs with
  | [] => mok []
  | f :: fs =>
      let! f' := handle_syscall f in
      let! rs := syscalls fs in
      mok (f_rax f' :: rs)
  end.
End syscalls.

(** ** Streams are stacks *)

(** Polling returns the newest event first. *)
Lemma poll_push e events : poll_event (push_event e events) = (Some e, events).
Proof.
  unfold poll_event, push_event. rewrite last_snoc. f_equal. rewrite length_app. cbn.
  replace (length events + 1 - 1)%nat with (length events) by lia. apply take_app_length.
Qed.

(** Every DMA buffer starts at the same physical page. *)
Lemma dma_buffers_overlap size a id a' :
  0 < size → dma_buffer_new size a = (Ok id, a') → ∃ b, dma_heap a' !! id = Some b ∧ 0x100000 ∈ db_pages b.
Proof.
  intros Hs. unfold dma_buffer_new, add64, chk. rewrite (proj2 (Z.eqb_neq size 0)) by lia. case_bool_decide as Hb; [|done].
  unfold mbindM, mlift, mget, mput, mok. intros [= <- <-]. cbn [dma_heap set_dma]. rewrite lookup_insert_eq. eexists. split; [reflexivity|].
  cbn [db_pages]. apply list_elem_of_fmap. exists 0. split; [done|]. apply elem_of_seqZ. split; [lia|]. apply Z.div_str_pos. lia.
Qed.

(** While a display is owned, only its owner's release changes the owner. *)
Lemma exclusive_owner_kept o r d : dp_exclusive_owner d = Some o →
  request_exclusive r d = (false, d) ∧ (r ≠ o → release_exclusive r d = (false, d)).
Proof.
  intros Ho. unfold request_exclusive, release_exclusive. rewrite Ho. split; [done|]. intros Hne. by rewrite bool_decide_eq_false_2 by congruence.
Qed.

(** ** Where access comes from *)

Inductive RegOp : Type :=
  | RRegister (o : KernelObject) (owner rights : Z)
  | RTransfer (handle from to rights : Z)
  | RRevoke (handle process : Z).

Definition reg_op (op : RegOp) : M Api RegistryError Z :=
  match op with
  | RRegister o owner rights => register_object o owner rights
  | RTransfer h from to rights => let! _ := transfer_capability h from to rights in mok 0
  | RRevoke h p => let! _ := revoke_capability h p in mok 0
  end.

(** Requests are made one after the other, whatever the earlier ones answered. *)
Fixpoint reg_run (ops : list RegOp) (a : Api) : list (res RegistryError Z) * Api :=
  match ops with
  | [] => ([], a)
  | op :: ops =>
      let '(r, a1) := reg_op op a in
      let '(rs, a2) := reg_run ops a1 in (r :: rs, a2)
  end.

Definition History : Type := list (RegOp * res RegistryError Z).

(** [o] was registered and got the number [h]. *)
Definition registered (hist : History) (o : KernelObject) (h : Z) : Prop := ∃ owner rights, (RRegister o owner rights, Ok h) ∈ hist.

(** [p] got [rights] to [h], by registering an object or by a transfer. *)
Definition granted (hist : History) (p h rights : Z) : Prop :=
  (∃ o, (RRegister o p rights, Ok h) ∈ hist) ∨ (∃ from, (RTransfer h from p rights, Ok 0) ∈ hist).

Record registry_inv (hist : History) (a : Api) : Prop := {
  ri_caps p cs c : capabilities a !! p = Some cs → c ∈ cs → cap_owner c = p ∧ granted hist p (cap_handle c) (cap_rights c);
  ri_objects h o : objects a !! h = Some o → registered hist o h;
}.

Lemma granted_mono hist x p h r : granted hist p h r → granted (hist ++ [x]) p h r.
Proof. intros [[o Ho]|[f Hf]]; [left; exists o|right; exists f]; set_solver. Qed.

Lemma registered_mono hist x o h : registered hist o h → registered (hist ++ [x]) o h.
Proof. intros (p & r & Hin). exists p, r. set_solver. Qed.

Lemma registry_inv_mono hist x a : registry_inv hist a → registry_inv (hist ++ [x]) a.
Proof.
  intros [H1 H2]. split.
  - intros p cs c Hp Hc. destruct (H1 p cs c Hp Hc). split; [done|]. by apply granted_mono.
  - intros h o Ho. by apply registered_mono, H2.
Qed.

Lemma grant_inv hist a c :
  registry_inv hist a → granted hist (cap_owner c) (cap_handle c) (cap_rights c) →
  registry_inv hist (set_capabilities (grant c (capabilities a)) a).
Proof.
  intros [H1 H2] Hg. split; [|done]. intros p cs c' Hp Hc. cbn in Hp. unfold grant in Hp.
  destruct (decide (p = cap_owner c)) as [->|Hne]; [|rewrite lookup_insert_ne in Hp by done; by apply (H1 _ cs)].
  rewrite lookup_insert_eq in Hp. injection Hp as <-. apply elem_of_app in Hc as [Hc|Hc].
  - destruct (capabilities a !! cap_owner c) as [cs|] eqn:E; [by apply (H1 _ cs)|by apply not_elem_of_nil in Hc].
  - apply list_elem_of_singleton in Hc as ->. done.
Qed.

Lemma reg_op_inv hist op a r a' : registry_inv hist a → reg_op op a = (r, a') → registry_inv (hist ++ [(op, r)]) a'.
Proof.
  intros Hi Hr. destruct op as [o owner rights|h from to rights|h p]; cbn in Hr.
  - injection Hr as <- <-. set (h := next_handle a). set (x := (RRegister o owner rights, Ok h : res RegistryError Z)).
    apply (grant_inv (hist ++ [x]) (set_objects (<[h := o]> (objects a)) (set_next_handle (wrap64 (h + 1)) a)) (mkCap h rights owner)).
    + destruct (registry_inv_mono _ x _ Hi) as [H1 H2]. split; [exact H1|]. intros h' o' Hl. cbn in Hl.
      destruct (decide (h' = h)) as [->|Hne].
      * rewrite lookup_insert_eq in Hl. injection Hl as <-. exists owner, rights. set_solver.
      * rewrite lookup_insert_ne in Hl by done. by apply H2.
    + left. exists o. cbn. set_solver.
  - unfold transfer_capability, mbindM, mget in Hr. destruct (capabilities a !! from) as [cs|]; [|injection Hr as <- <-; by apply registry_inv_mono].
    destruct (find_capability h cs) as [c|]; [|injection Hr as <- <-; by apply registry_inv_mono].
    destruct (negb (rights_has (cap_rights c) SHARE)); injection Hr as <- <-; [by apply registry_inv_mono|].
    apply (grant_inv _ a (mkCap h rights to)); [by apply registry_inv_mono|]. right. exists from. cbn. set_solver.
  - unfold revoke_capability, mbindM, mget in Hr. destruct (capabilities a !! p) as [cs|] eqn:Ec; [|injection Hr as <- <-; by apply registry_inv_mono].
    destruct (find_index (has_handle h) cs) as [i|]; injection Hr as <- <-; [|by apply registry_inv_mono].
    destruct (registry_inv_mono _ (RRevoke h p, Ok 0) _ Hi) as [H1 H2]. split; [|done]. intros p' cs' c Hp Hc. cbn in Hp.
    destruct (decide (p' = p)) as [->|Hne]; [|rewrite lookup_insert_ne in Hp by done; by apply (H1 _ cs')].
    rewrite lookup_insert_eq in Hp. injection Hp as <-. apply (H1 _ cs); [done|].
    apply list_elem_of_lookup in Hc as [j Hj]. rewrite list_lookup_delete in Hj. case_decide; by apply list_elem_of_lookup_2 in Hj.
Qed.

Lemma reg_run_inv ops : ∀ hist a rs a',
  registry_inv hist a → reg_run ops a = (rs, a') → registry_inv (hist ++ zip ops rs) a'.
Proof.
  induction ops as [|op ops IH]; intros hist a rs a' Hi Hr; cbn in Hr.
  - injection Hr as <- <-. by rewrite app_nil_r.
  - destruct (reg_op op a) as [r a1] eqn:E. destruct (reg_run ops a1) as [rs1 a2] eqn:E'. injection Hr as <- <-.
    cbn [zip_with]. rewrite cons_middle, app_assoc. by apply (IH _ a1); [apply (reg_op_inv _ _ a)|].
Qed.

Lemma find_capability_some h cs c : find_capability h cs = Some c → c ∈ cs ∧ cap_handle c = h.
Proof.
  intros Hf. apply List.find_some in Hf as [Hin Hh]. split; [by apply list_elem_of_In|]. unfold has_handle in Hh. lia.
Qed.

(** ** Event delivery *)

(** The stream that receives the events for a process: its first registration, if the
    process may write to it and it is a stream. *)
Definition inbox (a : Api) (p : Z) : option Z :=
  match first_stream p (streams a) with
  | Some r => match get_object (sr_stream r) p WRITE a with Ok (OStream _) => Some (sr_stream r) | _ => None end
  | None => None
  end.

Definition event_targets (a : Api) (e : InputEvent) : list Z :=
  sr_process <$> filter (λ r, filter_matches (sr_filter r) e) (streams a).

(** How many copies the stream [h] gets. *)
Definition deliveries (a : Api) (targets : list Z) (h : Z) : nat := length (filter (λ p, inbox a p = Some h) targets).

Definition add_events (n : nat) (e : InputEvent) (o : KernelObject) : KernelObject :=
  match o with OStream es => OStream (es ++ replicate n e) | o => o end.

Lemma add_events_0 e o : add_events 0 e o = o.
Proof. destruct o; cbn; by rewrite ?app_nil_r. Qed.

Lemma add_events_S n e o : add_events n e (add_events 1 e o) = add_events (S n) e o.
Proof. destruct o; cbn; [done|done| |done]. by rewrite <-app_assoc. Qed.

(** Adding events to streams keeps what the capabilities allow. *)
Lemma inbox_same a objs p (f : Z → nat) e :
  (∀ h, objs !! h = add_events (f h) e <$> objects a !! h) → inbox (set_objects objs a) p = inbox a p.
Proof.
  intros Ho. unfold inbox. cbn [streams set_objects]. destruct (first_stream p (streams a)) as [r|]; [|done].
  unfold get_object. cbn [capabilities set_objects objects]. destruct (capabilities a !! p) as [cs|]; [|done].
  destruct (find_capability (sr_stream r) cs) as [c|]; [|done]. destruct (negb _); [done|]. rewrite Ho.
  by destruct (objects a !! sr_stream r) as [[]|].
Qed.

Lemma deliver_to_one_ok {E} e p a :
  ∃ objs, deliver_to_one (E := E) e p a = (Ok tt, set_objects objs a) ∧
    ∀ h, objs !! h = add_events (if decide (inbox a p = Some h) then 1 else 0) e <$> objects a !! h.
Proof.
  unfold deliver_to_one, mbindM, mget, inbox. destruct (first_stream p (streams a)) as [r|].
  2: { exists (objects a). split; [by destruct a|]. intros h. rewrite decide_False by done. destruct (objects a !! h); cbn; by rewrite ?add_events_0. }
  destruct (get_object (sr_stream r) p WRITE a) as [[| |es|]| | |] eqn:Eg.
  1, 2, 4, 5, 6, 7: exists (objects a); (split; [by destruct a|]); intros h; rewrite decide_False by done; destruct (objects a !! h); cbn; by rewrite ?add_events_0.
  eexists. split; [reflexivity|]. intros h. destruct (decide (Some (sr_stream r) = Some h)) as [[= <-]|Hne].
  - rewrite lookup_alter_eq. by destruct (objects a !! sr_stream r) as [[]|].
  - rewrite lookup_alter_ne by congruence. destruct (objects a !! h); cbn; by rewrite ?add_events_0.
Qed.

Lemma deliver_ok {E} e targets : ∀ a, ∃ objs,
  deliver_to_processes (E := E) e targets a = (Ok tt, set_objects objs a) ∧
  ∀ h, objs !! h = add_events (deliveries a targets h) e <$> objects a !! h.
Proof.
  induction targets as [|p targets IH]; intros a.
  - exists (objects a). split; [by destruct a|]. intros h. destruct (objects a !! h); cbn; by rewrite ?add_events_0.
  - destruct (deliver_to_one_ok (E := E) e p a) as (o1 & E1 & H1). destruct (IH (set_objects o1 a)) as (o2 & E2 & H2).
    exists o2. unfold deliver_to_processes in *. cbn [mfor]. rewrite (bind_ok _ _ _ _ _ E1), E2. split; [done|]. intros h.
    rewrite H2. cbn [objects set_objects]. rewrite H1. destruct (objects a !! h) as [o|]; [|done]. cbn [fmap option_fmap option_map]. f_equal.
    unfold deliveries. assert (filter (λ p, inbox (set_objects o1 a) p = Some h) targets = filter (λ p, inbox a p = Some h) targets) as ->.
    { apply list_filter_iff. intros q. by rewrite (inbox_same a o1 q _ e H1). }
    rewrite filter_cons. case_decide; cbn [length]; [apply add_events_S|by rewrite add_events_0].
Qed.

(** ** What a system call can do *)

(** The address is not in one of the two canonical halves. *)
Definition non_canonical (v : Z) : Prop := 2 ^ 47 ≤ v < 2 ^ 64 - 2 ^ 47.

(** The state in which a call that made itself a process number goes on. *)
Definition call_state (a : Api) : Api := set_next_pid (wrap64 (api_next_pid a + 1)) a.

(** The calls that take the kernel down: a buffer whose size does not fit 32 bits, a buffer or a copy of an ELF file the
    heap has no room for, and addresses that do not exist. *)
Definition syscall_faults `{KernelHeap} (f : SyscallFrame) (a : Api) : Prop :=
  match syscall_try_from (f_rax f) with
  | Some CreateObject =>
      f_rbx f = 1 ∧ ∃ fmt, pixel_format (f_rsi f) = Some fmt ∧
        let size := as_u32 (f_rcx f) * bytes_per_pixel fmt * as_u32 (f_rdx f) in
        (2 ^ 32 ≤ as_u32 (f_rcx f) * bytes_per_pixel fmt ∨ 2 ^ 32 ≤ size ∨ size ≠ 0 ∧ heap_room (call_state a) size = false)
  | Some LoadElf =>
      f_rcx f ≠ 0 ∧ f_rdx f ≠ 0 ∧
      (heap_room a (f_rdx f) = false ∨ (∃ i, f_rcx f ≤ i < f_rcx f + f_rdx f ∧ user_memory a !! i = None) ∨
       ∃ bs h, mapM (λ i, user_memory a !! i) (seqZ (f_rcx f) (f_rdx f)) = Some bs ∧ elf_loader_new bs = Ok h ∧ non_canonical (e_entry h))
  | Some StartProcess => non_canonical (f_rcx f)
  | _ => False
  end.

Definition frame_ok (f : SyscallFrame) : Prop :=
  in_u 64 (f_rax f) ∧ in_u 64 (f_rbx f) ∧ in_u 64 (f_rcx f) ∧ in_u 64 (f_rdx f) ∧ in_u 64 (f_rsi f).

Lemma as_u32_bound z : 0 ≤ as_u32 z < 2 ^ 32.
Proof. unfold as_u32. apply Z.mod_pos_bound. lia. Qed.

Lemma heap_alloc_outcome {E} room size :
  (size ≠ 0 ∧ room size = false ∧ heap_alloc (E := E) room size = Panic) ∨
  (¬ (size ≠ 0 ∧ room size = false) ∧ heap_alloc (E := E) room size = Ok tt).
Proof.
  unfold heap_alloc. destruct (Z.eqb_spec size 0); cbn [orb]; [by right; split; [intros [? _]|]|].
  destruct (room size); [right; split; [by intros [_ ?]|done]|by left].
Qed.

Lemma buffer_new_outcome {E} room w h fmt : 0 ≤ w → 0 ≤ h →
  let size := w * bytes_per_pixel fmt * h in
  let faults := 2 ^ 32 ≤ w * bytes_per_pixel fmt ∨ 2 ^ 32 ≤ size ∨ size ≠ 0 ∧ room size = false in
  (faults → buffer_new (E := E) room w h fmt = Panic) ∧ (¬ faults → ∃ b, buffer_new (E := E) room w h fmt = Ok b).
Proof.
  intros Hw Hh size faults. assert (0 < bytes_per_pixel fmt) as Hp by (by destruct fmt). unfold buffer_new.
  destruct (decide (w * bytes_per_pixel fmt < 2 ^ 32)) as [H1|H1].
  2: { rewrite chk_panic by nia. split; [done|]. unfold faults. lia. }
  rewrite chk_ok by nia. cbn. fold size. destruct (decide (size < 2 ^ 32)) as [H2|H2].
  2: { rewrite chk_panic by nia. split; [done|]. unfold faults. lia. }
  rewrite chk_ok by (unfold size in *; nia). cbn.
  destruct (heap_alloc_outcome (E := E) room size) as [(H3 & H4 & ->)|(H3 & ->)]; (split; [intros Hf|intros Hf]); try done.
  - exfalso. apply Hf. unfold faults. tauto.
  - exfalso. destruct Hf as [?|[?|?]]; [lia|lia|done].
  - by eexists.
Qed.

Section syscall_outcome.
Context `{HX : X86Virt} {HL : X86VirtLaws} `{HK : KernelHeap}.

Lemma virt_addr_total v : in_u 64 v → (non_canonical v ∧ virt_addr_new v = None) ∨ (¬ non_canonical v ∧ virt_addr_new v = Some v).
Proof.
  unfold in_u, non_canonical. intros Hv. destruct (decide (2 ^ 47 ≤ v < 2 ^ 64 - 2 ^ 47)).
  - left. split; [done|]. by apply virt_addr_invalid.
  - right. split; [done|]. apply virt_addr_canonical. lia.
Qed.

(** User memory holds bytes. *)
Definition memory_ok (a : Api) : Prop := ∀ i v, user_memory a !! i = Some v → byte_ok v.

(** The call returns and leaves the caller's memory alone. *)
Definition finishes {A} (m : M Api Empty_set A) (a : Api) : Prop := ∃ v a', m a = (Ok v, a') ∧ user_memory a' = user_memory a.

Lemma register_finishes o p r a : finishes (register_object o p r) a.
Proof. unfold finishes, register_object, mbindM, mget, mmod, mok. eexists _, _. split; [reflexivity|done]. Qed.

Lemma sys_create_object_outcome f a : f_rax f = 0 →
  (syscall_faults f a → (sys_create_object f a).1 = Panic) ∧ (¬ syscall_faults f a → finishes (sys_create_object f) a).
Proof.
  intros E0. unfold syscall_faults. rewrite E0. cbn [syscall_try_from Z.eqb].
  set (a1 := set_next_pid (wrap64 (api_next_pid a + 1)) a).
  assert (process_id_new a = (Ok (api_next_pid a), a1)) as Ep by done.
  assert (∀ o r, finishes (register_object o (api_next_pid a) r) a1) as Hreg by (intros; apply register_finishes).
  unfold finishes in *. change (user_memory a1) with (user_memory a) in Hreg. unfold sys_create_object. rewrite (bind_ok _ _ _ _ _ Ep).
  destruct (f_rbx f =? 0) eqn:E1; [|destruct (f_rbx f =? 1) eqn:E2].
  - split; [intros [? _]; lia|intros _]. destruct (pixel_format (f_rsi f)); [apply Hreg|by eexists _, _].
  - destruct (pixel_format (f_rsi f)) as [fmt|]; [|split; [intros (_ & ? & [=] & _)|intros _; by eexists _, _]].
    destruct (buffer_new_outcome (E := Empty_set) (heap_room a1) (as_u32 (f_rcx f)) (as_u32 (f_rdx f)) fmt) as [Hp Ho]; [apply as_u32_bound..|].
    unfold mbindM, mget, mlift. split.
    + intros (_ & fmt' & [= <-] & Hbig). by rewrite Hp.
    + intros Hn. destruct Ho as [b ->]; [|apply Hreg]. intros Hb. apply Hn. split; [lia|]. by exists fmt.
  - split; [intros [? _]; lia|intros _]. destruct (f_rbx f =? 2); [apply Hreg|by eexists _, _].
Qed.

Lemma mapM_user mem ptr len : 0 ≤ len →
  (mapM (λ i, mem !! i) (seqZ ptr len) = None ↔ ∃ i, ptr ≤ i < ptr + len ∧ (mem : gmap Z Z) !! i = None).
Proof.
  intros Hl. rewrite mapM_None, Exists_exists. split.
  - intros (i & Hi%elem_of_seqZ & Hn). by exists i.
  - intros (i & Hi & Hn). exists i. split; [by apply elem_of_seqZ|done].
Qed.

Lemma mapM_bytes (mem : gmap Z Z) l bs :
  (∀ i v, mem !! i = Some v → byte_ok v) → mapM (λ i, mem !! i) l = Some bs → bytes_ok bs.
Proof.
  intros Hm E. apply mapM_Some in E. induction E; constructor; eauto.
Qed.

Lemma elf_entry_bound bs h : bytes_ok bs → elf_loader_new bs = Ok h → in_u 64 (e_entry h).
Proof.
  intros Hb. unfold elf_loader_new. destruct (zlen bs <? 64) eqn:El; [done|]. repeat (case_bool_decide; [done|]). destruct (negb _); [done|].
  intros [= <-]. cbn [e_entry elf_header]. apply Z.ltb_ge in El. unfold zlen in El.
  pose proof (le_dec_bound (field 24 8 bs)) as Hd. unfold zlen in Hd. rewrite length_field in Hd by lia. apply Hd.
  unfold field. by apply Forall_take, Forall_drop.
Qed.

Lemma sys_load_elf_outcome f a : f_rax f = 6 → in_u 64 (f_rcx f) → in_u 64 (f_rdx f) → memory_ok a →
  (syscall_faults f a → (sys_load_elf f a).1 = Panic) ∧ (¬ syscall_faults f a → finishes (sys_load_elf f) a).
Proof.
  intros E0 Hp Hl Hm. unfold in_u in Hp, Hl. unfold syscall_faults, finishes, sys_load_elf. rewrite E0. cbn [syscall_try_from Z.eqb Pos.eqb].
  destruct (f_rcx f =? 0) eqn:E1; cbn [orb]; [split; [intros (? & _); lia|intros _; unfold mok; by eexists _, _]|].
  destruct (f_rdx f =? 0) eqn:E2; [split; [intros (_ & ? & _); lia|intros _; unfold mok; by eexists _, _]|].
  unfold mbindM.
  destruct (heap_alloc_outcome (E := Empty_set) (heap_room a) (f_rdx f)) as [(_ & Er & Eh)|(Er & Eh)].
  { unfold read_user, mbindM, mget, mlift. rewrite Eh. split; [done|]. intros Hx. exfalso. apply Hx. split; [lia|]. split; [lia|]. by left. }
  assert (read_user (f_rcx f) (f_rdx f) a = ((match mapM (λ i, user_memory a !! i) (seqZ (f_rcx f) (f_rdx f)) with Some bs => Ok bs | None => Panic end, a) : res Empty_set (list Z) * Api)) as ->
    by (unfold read_user, mbindM, mget, mlift; by rewrite Eh).
  assert (heap_room a (f_rdx f) ≠ false) as Er' by (intros ?; apply Er; lia || (split; [lia|done])).
  unfold mlift, mok. pose proof (mapM_user (user_memory a) (f_rcx f) (f_rdx f) ltac:(lia)) as Hu.
  destruct (mapM (λ i, user_memory a !! i) (seqZ (f_rcx f) (f_rdx f))) as [bs|] eqn:Em.
  - assert (¬ ∃ i, f_rcx f ≤ i < f_rcx f + f_rdx f ∧ user_memory a !! i = None) as Hall by (intros Hx; by apply Hu in Hx).
    pose proof (mapM_bytes _ _ _ Hm Em) as Hb. destruct (elf_loader_new bs) as [h| | |] eqn:Ee.
    2, 3, 4: split; [intros (_ & _ & [?|[?|(? & ? & [= <-] & ? & _)]]); [done|done|congruence]|intros _; eexists _, _; split; reflexivity].
    destruct (virt_addr_total (e_entry h) (elf_entry_bound bs h Hb Ee)) as [[Hn ->]|[Hn ->]].
    + split; [done|]. intros Hx. exfalso. apply Hx. split; [lia|]. split; [lia|]. right. right. by exists bs, h.
    + split; [|intros _; by eexists _, _]. intros (_ & _ & [?|[?|(? & ? & [= <-] & Ee' & Hn')]]); [done|done|]. rewrite Ee in Ee'. injection Ee' as <-. done.
  - split; [done|]. intros Hx. exfalso. apply Hx. split; [lia|]. split; [lia|]. right. left. by apply Hu.
Qed.

Lemma as_status_finishes (m : M Api RegistryError unit) a r a' :
  m a = (r, a') → (∃ u, r = Ok u) ∨ (∃ e, r = Err e) → user_memory a' = user_memory a → finishes (as_status m) a.
Proof. intros E [[u ->]|[e ->]] Hm; unfold finishes, as_status; rewrite E; by eexists _, _. Qed.

(** The calls that neither halt nor can fault. *)
Lemma safe_syscall_finishes f a :
  finishes (sys_get_object f) a ∧ finishes (sys_call_object f) a ∧ finishes (sys_transfer_capability f) a ∧
  finishes (sys_revoke_capability f) a ∧ finishes (sys_create_process f) a.
Proof.
  split_and!.
  - by eexists _, _.
  - unfold finishes, sys_call_object, mbindM at 1. cbn [process_id_new mbindM mget mmod mok].
    match goal with |- context [get_object ?h ?p ?r ?x] => destruct (get_object h p r x) as [[]| | |] end; try (by eexists _, _).
    unfold mbindM, update_object, mmod, mok. destruct (f_rcx f =? 0); [by eexists _, _|]. destruct (f_rcx f =? 1); by eexists _, _.
  - unfold sys_transfer_capability. destruct (transfer_capability (f_rbx f) (f_rcx f) (f_rdx f) (f_rsi f) a) as [r a'] eqn:E.
    apply (as_status_finishes _ _ r a' E); revert E; unfold transfer_capability, mbindM, mget, merr, mmod;
      repeat case_match; intros [= <- <-]; eauto.
  - unfold sys_revoke_capability. destruct (revoke_capability (f_rbx f) (f_rcx f) a) as [r a'] eqn:E.
    apply (as_status_finishes _ _ r a' E); revert E; unfold revoke_capability, mbindM, mget, merr, mmod;
      repeat case_match; intros [= <- <-]; eauto.
  - by eexists _, _.
Qed.

Definition syscall_value (n : SyscallNumber) : Z :=
  match n with
  | CreateObject => 0 | GetObject => 1 | CallObject => 2 | TransferCapability => 3 | RevokeCapability => 4
  | CreateProcess => 5 | LoadElf => 6 | StartProcess => 7 | Exit => 99
  end.

Lemma syscall_try_from_value v n : syscall_try_from v = Some n → v = syscall_value n.
Proof. unfold syscall_try_from. repeat (case_match; [intros [= <-]; cbn; lia|]). done. Qed.

Lemma finishes_frame (m : M Api Empty_set Z) f a : finishes m a →
  ∃ v a', (let! result := m in mok (set_rax result f)) a = (Ok (set_rax v f), a') ∧ user_memory a' = user_memory a.
Proof. intros (v & a' & E & Hm). exists v, a'. by rewrite (bind_ok _ _ _ _ _ E). Qed.

(** ** Objects are out of reach of system calls *)

(** Only processes that already have a number own anything. *)
Definition strangers (a : Api) : Prop := ∀ p, is_Some (capabilities a !! p) → p < api_next_pid a.

Lemma strangers_get a h r : strangers a → get_object h (api_next_pid a) r (set_next_pid (wrap64 (api_next_pid a + 1)) a) = Err RegProcessNotFound.
Proof.
  intros Hs. unfold get_object. cbn [capabilities set_next_pid]. destruct (capabilities a !! api_next_pid a) eqn:E; [|done].
  specialize (Hs (api_next_pid a) ltac:(by rewrite E)). lia.
Qed.

Lemma strangers_register a o r :
  strangers a → 0 ≤ api_next_pid a < 2 ^ 64 - 1 →
  ∃ h a', register_object (E := Empty_set) o (api_next_pid a) r (set_next_pid (wrap64 (api_next_pid a + 1)) a) = (Ok h, a') ∧
    strangers a' ∧ api_next_pid a' = api_next_pid a + 1.
Proof.
  intros Hs Hb. replace (wrap64 (api_next_pid a + 1)) with (api_next_pid a + 1) by (unfold wrap64; by rewrite Z.mod_small by lia).
  unfold register_object, mbindM, mget, mmod, mok. eexists _, _. split; [reflexivity|].
  split; [|done]. intros p Hp. cbn [api_next_pid capabilities set_capabilities set_objects set_next_handle set_next_pid] in *. unfold grant in Hp. cbn [cap_owner] in Hp.
  destruct (decide (p = api_next_pid a)) as [->|Hne]; [lia|]. rewrite lookup_insert_ne in Hp by done. specialize (Hs p Hp). lia.
Qed.

Lemma strangers_caps a a' : strangers a → capabilities a' = capabilities a → api_next_pid a ≤ api_next_pid a' → strangers a'.
Proof. intros Hs Hc Hn p Hp. rewrite Hc in Hp. specialize (Hs p Hp). lia. Qed.

(** What a call without [TransferCapability] does to ownership, and what the two calls that use an object answer. *)
Definition stranger_step (f : SyscallFrame) (a : Api) (v : Z) (a' : Api) : Prop :=
  strangers a' ∧ api_next_pid a ≤ api_next_pid a' ≤ api_next_pid a + 1 ∧ (f_rax f = 1 → v = 1) ∧ (f_rax f = 2 → v = U64_MAX).

Lemma stranger_create f a v a' :
  f_rax f = 0 → strangers a → 0 ≤ api_next_pid a < 2 ^ 64 - 1 → sys_create_object f a = (Ok v, a') → stranger_step f a v a'.
Proof.
  intros E0 Hs Hb. set (a1 := set_next_pid (wrap64 (api_next_pid a + 1)) a).
  assert (process_id_new a = (Ok (api_next_pid a), a1)) as Ep by done.
  assert (api_next_pid a1 = api_next_pid a + 1) as En by (cbn; unfold wrap64; by rewrite Z.mod_small by lia).
  assert (∀ x y, ((Ok x, a1) : res Empty_set Z * Api) = (Ok y, a') → stranger_step f a y a') as Hskip.
  { intros x y [= _ <-]. split; [apply (strangers_caps a); [done|done|lia]|]. split; lia. }
  assert (∀ o r, register_object (E := Empty_set) o (api_next_pid a) r a1 = (Ok v, a') → stranger_step f a v a') as Hreg.
  { intros o r E. destruct (strangers_register a o r Hs Hb) as (h & a2 & E2 & Hs2 & Hn2). fold a1 in E2. rewrite E2 in E. injection E as _ <-.
    split; [done|]. split; lia. }
  unfold sys_create_object. rewrite (bind_ok _ _ _ _ _ Ep). unfold mok. repeat case_match; eauto.
  unfold mbindM, mget, mlift. destruct (buffer_new _ _ _ _); [apply Hreg|done..].
Qed.

Lemma stranger_syscall f a f' a' :
  strangers a → 0 ≤ api_next_pid a < 2 ^ 64 - 1 → f_rax f ≠ 3 → handle_syscall f a = (Ok f', a') → stranger_step f a (f_rax f') a'.
Proof.
  intros Hs Hb H3 E. set (a1 := set_next_pid (wrap64 (api_next_pid a + 1)) a).
  assert (api_next_pid a1 = api_next_pid a + 1) as En by (cbn; unfold wrap64; by rewrite Z.mod_small by lia).
  assert (strangers a1) as Hs1 by (apply (strangers_caps a); [done|done|lia]).
  assert (∀ x, f_rax f ≠ 1 → f_rax f ≠ 2 → capabilities x = capabilities a → api_next_pid x = api_next_pid a → ∀ v, stranger_step f a v x) as Hidle.
  { intros x ?? Hc Hn v. split; [apply (strangers_caps a); [done|done|lia]|]. split; [lia|]. done. }
  unfold handle_syscall in E. destruct (syscall_try_from (f_rax f)) as [n|] eqn:En'.
  2: { injection E as <- <-. apply Hidle; try done; intros Hx; by rewrite Hx in En'. }
  apply syscall_try_from_value in En'. unfold mbindM in E. destruct n; cbn [syscall_value] in En'.
  - destruct (sys_create_object f a) as [[v| | |] a2] eqn:Ec; try done. injection E as <- <-. by apply (stranger_create f a v a2).
  - pose proof (strangers_get a (f_rbx f) (f_rcx f) Hs) as Hg. fold a1 in Hg.
    change (sys_get_object f a) with ((Ok (if is_ok (get_object (f_rbx f) (api_next_pid a) (f_rcx f) a1) then 0 else 1), a1) : res Empty_set Z * Api) in E.
    rewrite Hg in E. injection E as <- <-. split; [done|]. split; [lia|]. split; [done|lia].
  - pose proof (strangers_get a (f_rbx f) WRITE Hs) as Hg. fold a1 in Hg.
    assert (sys_call_object f a = (Ok U64_MAX, a1)) as Ec.
    { unfold sys_call_object. rewrite (bind_ok process_id_new _ a (api_next_pid a) a1 eq_refl), (bind_ok mget _ a1 a1 a1 eq_refl). by rewrite Hg. }
    rewrite Ec in E. injection E as <- <-. split; [done|]. split; [lia|]. split; [lia|done].
  - done.
  - unfold sys_revoke_capability, as_status in E. destruct (revoke_capability (f_rbx f) (f_rcx f) a) as [r a2] eqn:Er.
    assert (api_next_pid a2 = api_next_pid a ∧ ∀ p, is_Some (capabilities a2 !! p) → is_Some (capabilities a !! p)) as [Hn Hc].
    { revert Er. unfold revoke_capability, mbindM, mget, merr, mmod. destruct (capabilities a !! f_rcx f) as [cs|] eqn:Ec; [|by intros [= _ <-]].
      destruct (find_index _ _); intros [= _ <-]; [|done]. split; [done|]. intros p. cbn. destruct (decide (p = f_rcx f)) as [->|Hne].
      - by rewrite Ec.
      - by rewrite lookup_insert_ne. }
    assert (stranger_step f a (f_rax f') a2) as Hst.
    { split; [intros p Hp; apply Hc, Hs in Hp; lia|]. split; [lia|]. split; lia. }
    destruct r; try done; by injection E as _ <-.
  - change (sys_create_process f a) with ((Ok (api_next_pid a), a1) : res Empty_set Z * Api) in E. injection E as <- <-. split; [done|]. split; [lia|]. split; lia.
  - destruct (sys_load_elf f a) as [[v| | |] a2] eqn:Ec; try done. injection E as <- <-.
    assert (a2 = a) as ->; [|apply Hidle; lia || done]. revert Ec. unfold sys_load_elf, mbindM.
    destruct (_ || _); [by intros [= _ <-]|].
    destruct (read_user (f_rcx f) (f_rdx f) a) as [[bs| | |] a2'] eqn:Er; try done.
    assert (a2' = a) as -> by (unfold read_user, mbindM, mget, mlift in Er; destruct (heap_alloc _ _); by injection Er as _ <-).
    unfold mlift, mok. repeat case_match; by intros [= _ <-].
  - unfold sys_start_process, mlift in E. destruct (virt_addr_new (f_rcx f)); [|done]. injection E as <- <-. apply Hidle; lia || done.
  - done.
Qed.

Lemma strangers_run fs : ∀ a rs a' i f r,
  strangers a → 0 ≤ api_next_pid a → api_next_pid a + zlen fs < 2 ^ 64 → Forall (λ f, f_rax f ≠ 3) fs →
  syscalls fs a = (Ok rs, a') → fs !! i = Some f → rs !! i = Some r → (f_rax f = 1 → r = 1) ∧ (f_rax f = 2 → r = U64_MAX).
Proof.
  induction fs as [|g fs IH]; intros a rs a' i f r Hs H0 Hn Hall E Hf Hr; [done|]. unfold zlen in Hn. cbn [length] in Hn.
  apply Forall_cons in Hall as [H3 Hall]. cbn [syscalls] in E. unfold mbindM at 1 in E.
  destruct (handle_syscall g a) as [[g'| | |] a1] eqn:E1; try done.
  destruct (stranger_syscall g a g' a1 Hs ltac:(lia) H3 E1) as (Hs1 & Hn1 & Hg1 & Hg2).
  unfold mbindM in E. destruct (syscalls fs a1) as [[rs1| | |] a2] eqn:E2; try done. injection E as <- _.
  destruct i as [|i]; cbn in Hf, Hr; [by simplify_eq|]. apply (IH a1 rs1 a2 i); try done; unfold zlen; lia.
Qed.
End syscall_outcome.

(** ** Properties *)

(** C21: access has a provenance. After any sequence of registrations, transfers and revocations from boot, whether they
    succeeded or not, a process that can get an object got it in one of two ways: it registered an object under that
    number, or some process transferred the number to it; and the rights given then overlap with the rights asked for.
    The object is one that was registered under that number. *)
Theorem access_needs_grant mem ops rs a h p r o :
  reg_run ops (api_boot mem) = (rs, a) → get_object h p r a = Ok o →
  (∃ rights, rights_has rights r = true ∧
     ((∃ o', (RRegister o' p rights, Ok h) ∈ zip ops rs) ∨ ∃ from, (RTransfer h from p rights, Ok 0) ∈ zip ops rs)) ∧
  ∃ owner rights, (RRegister o owner rights, Ok h) ∈ zip ops rs.
Proof.
  intros Hr Hg. assert (registry_inv [] (api_boot mem)) as Hi by (split; [intros p' cs c Hp|intros h' o' Hl]; cbn in *; set_solver).
  pose proof (reg_run_inv ops [] _ _ _ Hi Hr) as [H1 H2]. cbn [app] in *. unfold get_object in Hg.
  destruct (capabilities a !! p) as [cs|] eqn:Ec; [|done]. destruct (find_capability h cs) as [c|] eqn:Ef; [|done].
  destruct (find_capability_some h cs c Ef) as [Hin Hh]. destruct (negb (rights_has (cap_rights c) r)) eqn:Er; [done|].
  destruct (objects a !! h) as [o'|] eqn:Eo; [|done]. injection Hg as ->. destruct (H1 p cs c Ec Hin) as [_ Hgr]. rewrite Hh in Hgr. split.
  - exists (cap_rights c). split; [by apply negb_false_iff in Er|done].
  - apply (H2 h o Eo).
Qed.

Lemma access_needs_grant_witness :
  ∃ rs a, reg_run [RRegister (OStream []) 7 0xFF; RTransfer 1 7 9 2] (api_boot ∅) = (rs, a) ∧ get_object 1 9 WRITE a = Ok (OStream []) ∧
    ∃ rights, rights_has rights WRITE = true.
Proof.
  eexists _, _. split; [vm_compute; reflexivity|]. split; [by vm_compute|].
  destruct (access_needs_grant ∅ [RRegister (OStream []) 7 0xFF; RTransfer 1 7 9 2] _ _ 1 9 WRITE (OStream []) ltac:(vm_compute; reflexivity) ltac:(by vm_compute))
    as [(rights & Hr & _) _]. by exists rights.
Defined.

(** Event delivery. Dispatching an event always returns; it counts the event, queues it as pending if some
    registration matches, and appends one copy per matching registration to the first stream its process has
    registered, provided that process may write to it. No other object changes: a second stream of the same
    process gets nothing, whatever its filter. *)
Theorem event_delivery_exact e a :
  ∃ objs, dispatch_event (E := Empty_set) e a =
      (Ok tt, set_objects objs (set_events (streams a) (wrap64 (event_counter a + 1))
         (pending_events a ++ match event_targets a e with [] => [] | ts => [mkPending e ts (api_ticks a)] end) a)) ∧
    ∀ h, objs !! h = add_events (deliveries a (event_targets a e) h) e <$> objects a !! h.
Proof.
  unfold dispatch_event. rewrite (bind_ok _ _ a tt (set_events (streams a) (wrap64 (event_counter a + 1)) (pending_events a) a) eq_refl).
  set (a1 := set_events _ _ _ a). rewrite (bind_ok mget _ a1 a1 a1 eq_refl).
  change (sr_process <$> filter (λ r, filter_matches (sr_filter r) e) (streams a1)) with (event_targets a e).
  destruct (event_targets a e) as [|t ts] eqn:Et.
  - exists (objects a). split; [unfold mok; rewrite app_nil_r; by destruct a|]. intros h. destruct (objects a !! h); cbn; by rewrite ?add_events_0.
  - set (a2 := set_events (streams a) (wrap64 (event_counter a + 1)) (pending_events a ++ [mkPending e (t :: ts) (api_ticks a)]) a).
    rewrite (bind_ok _ _ a1 tt a2 eq_refl). destruct (deliver_ok (E := Empty_set) e (t :: ts) a2) as (objs & E & Ho). exists objs.
    split; [exact E|]. exact Ho.
Qed.

(** C27: what a system call can do to the kernel. [Exit] never returns; a call faults exactly when it asks for a buffer
    whose size does not fit 32 bits, for a buffer or a copy of an ELF file the heap has no room for, or names memory or
    an entry point that does not exist; every other call returns with only [rax] changed, as far as the small blocks of
    the registry's entries can be had. A buffer of more than the heap's 128 MiB always faults. *)
Theorem handle_syscall_outcome `{HX : X86Virt} {HL : X86VirtLaws} `{HK : KernelHeap} {HKL : KernelHeapLaws} f a :
  frame_ok f → memory_ok a →
  (f_rax f = 99 → (handle_syscall f a).1 = Hang) ∧
  (∀ fmt, f_rax f = 0 → f_rbx f = 1 → pixel_format (f_rsi f) = Some fmt →
     HEAP_SIZE < as_u32 (f_rcx f) * bytes_per_pixel fmt * as_u32 (f_rdx f) → (handle_syscall f a).1 = Panic) ∧
  (syscall_faults f a → (handle_syscall f a).1 = Panic) ∧
  (f_rax f ≠ 99 → ¬ syscall_faults f a → ∃ v a', handle_syscall f a = (Ok (set_rax v f), a') ∧ user_memory a' = user_memory a).
Proof.
  intros (H0 & H1 & H2 & H3 & H4) Hm. split; [intros E; unfold handle_syscall; by rewrite E|]. split.
  { intros fmt E0 E1 Ef Hbig. unfold handle_syscall. rewrite E0. apply bind_panic, sys_create_object_outcome; [done|].
    unfold syscall_faults. rewrite E0. split; [done|]. exists fmt. split; [done|]. right. right. split; [unfold HEAP_SIZE in Hbig; lia|].
    destruct (heap_room _ _) eqn:Er; [apply heap_room_bound in Er; lia|done]. }
  unfold handle_syscall. destruct (syscall_try_from (f_rax f)) as [n|] eqn:En.
  2: { unfold syscall_faults. rewrite En. split; [done|]. intros _ _. by eexists _, _. }
  pose proof (syscall_try_from_value _ _ En) as Ev. destruct (safe_syscall_finishes f a) as (S1 & S2 & S3 & S4 & S5).
  assert (∀ m : M Api Empty_set Z, (syscall_faults f a → (m a).1 = Panic) → (¬ syscall_faults f a → finishes m a) →
    (syscall_faults f a → ((let! result := m in mok (set_rax result f)) a).1 = Panic) ∧
    (f_rax f ≠ 99 → ¬ syscall_faults f a → ∃ v a', (let! result := m in mok (set_rax result f)) a = (Ok (set_rax v f), a') ∧ user_memory a' = user_memory a)) as Hrun.
  { intros m Hp Hf. split; [intros Hx; by apply bind_panic, Hp|]. intros _ Hx. by apply finishes_frame, Hf. }
  destruct n; cbn [syscall_value] in Ev;
    [apply Hrun; by apply sys_create_object_outcome| | | | | |apply Hrun; by apply sys_load_elf_outcome|apply Hrun|split; [unfold syscall_faults; by rewrite En|done]];
    try (apply Hrun; [unfold syscall_faults; by rewrite En|done]).
  - unfold syscall_faults, sys_start_process, mlift. rewrite En. intros Hx. destruct (virt_addr_total (f_rcx f) H2) as [[_ ->]|[? _]]; done.
  - unfold syscall_faults, sys_start_process, mlift, finishes. rewrite En. intros Hx. destruct (virt_addr_total (f_rcx f) H2) as [[? _]|[_ ->]]; [done|].
    by eexists _, _.
Qed.

#[export] Instance x86_virt_48 : X86Virt :=
  {| virt_addr_new a := if bool_decide (2 ^ 47 ≤ a < 2 ^ 64 - 2 ^ 47) then None else Some a |}.
#[export] Instance x86_virt_48_laws : X86VirtLaws.
Proof. split; intros a Ha; cbn; case_bool_decide; lia || done. Qed.

(** A heap that has room for what the buffers in the registry left of it. *)
Definition owned_bytes (o : KernelObject) : Z := match o with OBuffer (mkBuffer (Owned bs) _ _ _ _) => zlen bs | _ => 0 end.
#[export] Instance heap_of_buffers : KernelHeap :=
  {| heap_room a n := (n <=? HEAP_SIZE) && (n + map_fold (λ _ o k, owned_bytes o + k) 0 (objects a) <=? HEAP_SIZE) |}.
#[export] Instance heap_of_buffers_laws : KernelHeapLaws.
Proof. split. intros a n. cbn. lia. Qed.

(** A buffer of 8192 by 8192 pixels of four bytes: its size fits 32 bits, but not the heap. *)
Definition big_buffer_call : SyscallFrame := mkFrame 0 1 8192 8192 0 0 0 0 0 0 0 0.

Lemma handle_syscall_outcome_witness : (handle_syscall big_buffer_call (api_boot ∅)).1 = Panic.
Proof.
  apply (handle_syscall_outcome big_buffer_call (api_boot ∅)) with (fmt := Rgba8888);
    [by vm_compute|intros i v Hv; cbn in Hv; set_solver|by vm_compute..].
Defined.

(** Objects created by system calls cannot be used by system calls. Each call acts as a process with a new number, so
    in any sequence of calls from boot without [TransferCapability], however long, every [GetObject] answers 1 and every
    [CallObject] answers the error value. *)
Theorem syscalls_cannot_use_objects `{HX : X86Virt} {HL : X86VirtLaws} `{HK : KernelHeap} mem fs rs a i f r :
  syscalls fs (api_boot mem) = (Ok rs, a) → zlen fs < 2 ^ 64 - 1 → Forall (λ f, f_rax f ≠ 3) fs →
  fs !! i = Some f → rs !! i = Some r → (f_rax f = 1 → r = 1) ∧ (f_rax f = 2 → r = U64_MAX).
Proof.
  intros Hr Hn Hall Hf Hrs. apply (strangers_run fs (api_boot mem) rs a i f r); try done; cbn; [|lia].
  intros p [? Hp]. cbn in Hp; set_solver.
Qed.

Definition create_and_get : list SyscallFrame := [mkFrame 0 2 0 0 0 0 0 0 0 0 0 0; mkFrame 1 1 2 0 0 0 0 0 0 0 0 0].

Lemma syscalls_cannot_use_objects_witness :
  ∃ rs a r, syscalls create_and_get (api_boot ∅) = (Ok rs, a) ∧ rs !! 1%nat = Some r ∧ r = 1.
Proof.
  eexists _, _, _. split; [vm_compute; reflexivity|]. split; [reflexivity|].
  apply (syscalls_cannot_use_objects ∅ create_and_get _ _ 1 (mkFrame 1 1 2 0 0 0 0 0 0 0 0 0) _ ltac:(vm_compute; reflexivity));
    [by vm_compute|by forall_list|done|reflexivity|done].
Defined.
