(* ===== verification/Syscall.v ===== *)
(** * The system-call layer behind the SYSCALL instruction ([crates/lib_kernel/src/syscall])

    The numbers, error codes and dispatcher of [syscall/mod.rs], the handlers of
    [syscall/handlers.rs] (named with the prefix [h_]) and the entry path of
    [syscall/entry.rs], whose assembly stub is a list of instructions on
    registers and stack memory. The only state of the handlers is the counter
    that [ProcessId::new] takes process numbers from. *)

From S2P Require Import Prelude Process.

(** ** Numbers and errors ([syscall/mod.rs]) *)
Inductive SysNumber : Type :=
  | NCreateObject | NGetObject | NCallObject | NTransferCapability | NRevokeCapability
  | NCreateProcess | NLoadElf | NStartProcess | NMmap | NMunmap | NMprotect
  | NOpen | NClose | NRead | NWrite | NFork | NExec | NWait | NExit.
#[export] Instance sys_number_eq_dec : EqDecision SysNumber.
Proof. solve_decision. Defined.

Inductive SyscallError : Type :=
  | InvalidSyscall | InvalidArgument | PermissionDenied | ENotFound
  | AlreadyExists | OutOfMemory | NotSupported | InvalidState.

Definition number_try_from (value : Z) : res SyscallError SysNumber :=
  match value with
  | 0 => Ok NCreateObject | 1 => Ok NGetObject | 2 => Ok NCallObject
  | 3 => Ok NTransferCapability | 4 => Ok NRevokeCapability | 5 => Ok NCreateProcess
  | 6 => Ok NLoadElf | 7 => Ok NStartProcess | 8 => Ok NMmap | 9 => Ok NMunmap | 10 => Ok NMprotect
  | 20 => Ok NOpen | 21 => Ok NClose | 22 => Ok NRead | 23 => Ok NWrite
  | 30 => Ok NFork | 31 => Ok NExec | 32 => Ok NWait | 99 => Ok NExit
  | _ => Err InvalidSyscall
  end.

(** [u64::from(SyscallError)] *)
Definition error_code (e : SyscallError) : Z :=
  match e with
  | InvalidSyscall => U64_MAX - 0 | InvalidArgument => U64_MAX - 1
  | PermissionDenied => U64_MAX - 2 | ENotFound => U64_MAX - 3
  | AlreadyExists => U64_MAX - 4 | OutOfMemory => U64_MAX - 5
  | NotSupported => U64_MAX - 6 | InvalidState => U64_MAX - 7
  end.

Record SyscallArgs := mkArgs {
  syscall_num : Z; arg0 : Z; arg1 : Z; arg2 : Z; arg3 : Z; arg4 : Z; arg5 : Z;
}.

(** ** Handlers ([syscall/handlers.rs]); the state is [NEXT_PID] *)
Abbreviation SM := (M Z SyscallError).

(** [ProcessId::new] *)
Definition next_process_id : SM Z :=
  let! n := mget in
  let! _ := mput (wrap64 (n + 1)) in
  mok n.

(** The size check of surfaces and buffers. *)
Definition bad_size (width height : Z) : bool :=
  (width =? 0) || (height =? 0) || (4096 <? width) || (4096 <? height).

Definition h_create_object (caller_pid object_type a1 a2 a3 : Z) : SM Z :=
  match object_type with
  | 0 => if bad_size (as_u32 a1) (as_u32 a2) then merr InvalidArgument else mok (0x1000 + object_type)
  | 1 => if bad_size (as_u32 a1) (as_u32 a2) then merr InvalidArgument else mok (0x2000 + object_type)
  | 2 => mok (0x3000 + object_type)
  | _ => merr InvalidArgument
  end.

Definition h_get_object (caller_pid handle rights : Z) : SM Z :=
  if handle <? 0x1000 then merr ENotFound else mok handle.

Definition h_call_object (caller_pid handle method a1 a2 : Z) : SM Z :=
  if handle <? 0x1000 then merr InvalidArgument else
  match Z.shiftr (Z.land handle 0xF000) 12 with
  | 1 => match method with 0 => mok 0 | 1 => mok 0 | _ => merr InvalidArgument end
  | 2 => match method with 0 => mok 0x10000000 | _ => merr InvalidArgument end
  | 3 => match method with 0 => mok 0 | 1 => mok 0 | _ => merr InvalidArgument end
  | _ => merr InvalidArgument
  end.

Definition h_transfer_capability (caller_pid handle target_pid rights : Z) : SM Z := mok 0.

Definition h_revoke_capability (caller_pid handle : Z) : SM Z := mok 0.

Definition h_create_process (caller_pid : Z) : SM Z := next_process_id.

Definition h_load_elf (caller_pid process_id elf_ptr elf_len : Z) : SM Z :=
  if (elf_ptr =? 0) || (elf_len =? 0) || (16 * 1024 * 1024 <? elf_len) then merr InvalidArgument else mok 0x401000.

Definition h_start_process (caller_pid process_id entry_point : Z) : SM Z :=
  if entry_point =? 0 then merr InvalidArgument else mok 0.

Definition h_mmap (caller_pid addr length prot flags : Z) : SM Z :=
  if length =? 0 then merr InvalidArgument else mok 0x20000000.

Definition h_munmap (caller_pid addr length : Z) : SM Z :=
  if length =? 0 then merr InvalidArgument else mok 0.

Definition h_mprotect (caller_pid addr length prot : Z) : SM Z :=
  if length =? 0 then merr InvalidArgument else mok 0.

Definition h_open (caller_pid path_ptr path_len flags : Z) : SM Z :=
  if (path_ptr =? 0) || (path_len =? 0) || (4096 <? path_len) then merr InvalidArgument else mok 3.

Definition h_close (caller_pid fd : Z) : SM Z :=
  if fd <? 3 then merr InvalidArgument else mok 0.

Definition h_read (caller_pid fd buf_ptr count : Z) : SM Z :=
  if (fd <? 3) || (buf_ptr =? 0) || (count =? 0) || (1024 * 1024 <? count) then merr InvalidArgument else mok 0.

Definition h_write (caller_pid fd buf_ptr count : Z) : SM Z :=
  if (fd <? 1) || (buf_ptr =? 0) || (count =? 0) || (1024 * 1024 <? count) then merr InvalidArgument else mok count.

Definition h_fork (caller_pid : Z) : SM Z := next_process_id.

Definition h_exec (caller_pid path_ptr path_len args_ptr args_count : Z) : SM Z :=
  if (path_ptr =? 0) || (path_len =? 0) || (4096 <? path_len) then merr InvalidArgument else mok 0.

Definition h_wait (caller_pid pid : Z) : SM Z :=
  if pid =? 0 then merr InvalidArgument else mok 0.

(** ** The dispatcher: the value for the caller's [rax] and the new counter *)
Definition run_handler (n : SysNumber) (a : SyscallArgs) (caller_pid : Z) : SM Z :=
  match n with
  | NCreateObject => h_create_object caller_pid (arg0 a) (arg1 a) (arg2 a) (arg3 a)
  | NGetObject => h_get_object caller_pid (arg0 a) (arg1 a)
  | NCallObject => h_call_object caller_pid (arg0 a) (arg1 a) (arg2 a) (arg3 a)
  | NTransferCapability => h_transfer_capability caller_pid (arg0 a) (arg1 a) (arg2 a)
  | NRevokeCapability => h_revoke_capability caller_pid (arg0 a)
  | NCreateProcess => h_create_process caller_pid
  | NLoadElf => h_load_elf caller_pid (arg0 a) (arg1 a) (arg2 a)
  | NStartProcess => h_start_process caller_pid (arg0 a) (arg1 a)
  | NMmap => h_mmap caller_pid (arg0 a) (arg1 a) (arg2 a) (arg3 a)
  | NMunmap => h_munmap caller_pid (arg0 a) (arg1 a)
  | NMprotect => h_mprotect caller_pid (arg0 a) (arg1 a) (arg2 a)
  | NOpen => h_open caller_pid (arg0 a) (arg1 a) (arg2 a)
  | NClose => h_close caller_pid (arg0 a)
  | NRead => h_read caller_pid (arg0 a) (arg1 a) (arg2 a)
  | NWrite => h_write caller_pid (arg0 a) (arg1 a) (arg2 a)
  | NFork => h_fork caller_pid
  | NExec => h_exec caller_pid (arg0 a) (arg1 a) (arg2 a) (arg3 a)
  | NWait => h_wait caller_pid (arg0 a)
  | NExit => mok 0
  end.

Definition dispatch_syscall (a : SyscallArgs) (caller_pid : Z) : M Z Empty_set Z := λ n,
  match number_try_from (syscall_num a) with
  | Ok num =>
      match run_handler num a caller_pid n with
      | (Ok value, n') => (Ok value, n')
      | (Err e, n') => (Ok (error_code e), n')
      | (Panic, n') => (Panic, n')
      | (Hang, n') => (Hang, n')
      end
  | Err e => (Ok (error_code e), n)
  | Panic => (Panic, n)
  | Hang => (Hang, n)
  end.

(** [get_current_process_id]: always [Some], of a new number. *)
Definition get_current_process_id : M Z Empty_set Z :=
  let! n := mget in
  let! _ := mput (wrap64 (n + 1)) in
  mok n.

Definition test_syscall (num a0 a1 a2 a3 a4 : Z) : M Z Empty_set Z :=
  let! caller_pid := get_current_process_id in
  dispatch_syscall (mkArgs num a0 a1 a2 a3 a4 0) caller_pid.

Definition syscall_handler_wrapper (num a0 a1 a2 a3 a4 a5 : Z) : M Z Empty_set Z :=
  let! caller_pid := get_current_process_id in
  dispatch_syscall (mkArgs num a0 a1 a2 a3 a4 a5) caller_pid.

(** ** The entry path ([syscall/entry.rs]) *)

(** The registers of [SyscallFrame], in the order of the struct. *)
Definition frame_regs : list Reg := [RAX; RBX; RCX; RDX; RSI; RDI; RBP; R8; R9; R10; R11; R12; R13; R14; R15].

(** A frame gives a value to each of them; the second argument is read from [r9]. *)
Definition syscall_entry_rust (frame : Reg → Z) : M Z Empty_set Z :=
  let! caller_pid := get_current_process_id in
  dispatch_syscall (mkArgs (frame RAX) (frame RBX) (frame R9) (frame RDX) (frame RSI) (frame RDI) (frame R8)) caller_pid.

Record Mach := mkMach { x_regs : Reg → Z; x_mem : gmap Z Z; x_next_pid : Z }.

Definition x_word (m : Mach) (a : Z) : Z := default 0 (x_mem m !! a).

Inductive EntryOp : Type :=
  | EPush (r : Reg)
  | EPop (r : Reg)
  | EMov (dst src : Reg)
  | EAlign
  | ECall
  | EStoreRax.

(** [ECall] runs the compiled [syscall_entry_rust], from the call to its return. *)
Definition entry_op (callee : Mach → Mach) (m : Mach) (o : EntryOp) : Mach :=
  let sp := x_regs m RSP in
  match o with
  | EPush r => mkMach (set_reg RSP (wrap64 (sp - 8)) (x_regs m)) (<[wrap64 (sp - 8) := x_regs m r]> (x_mem m)) (x_next_pid m)
  | EPop r => mkMach (set_reg RSP (wrap64 (sp + 8)) (set_reg r (x_word m sp) (x_regs m))) (x_mem m) (x_next_pid m)
  | EMov dst src => mkMach (set_reg dst (x_regs m src) (x_regs m)) (x_mem m) (x_next_pid m)
  | EAlign => mkMach (set_reg RSP (Z.land sp (wrap64 (-16))) (x_regs m)) (x_mem m) (x_next_pid m)
  | ECall => callee m
  | EStoreRax => mkMach (x_regs m) (<[sp := x_regs m RAX]> (x_mem m)) (x_next_pid m)
  end.

Definition entry_run (callee : Mach → Mach) (ops : list EntryOp) (m : Mach) : Mach := foldl (entry_op callee) m ops.

Definition syscall_entry_asm : list EntryOp :=
  [EPush R15; EPush R14; EPush R13; EPush R12; EPush R11; EPush R10; EPush R9; EPush R8;
   EPush RBP; EPush RDI; EPush RSI; EPush RDX; EPush RCX; EPush RBX; EPush RAX;
   EMov RDI RSP; EMov RSI RCX; EMov RDX R11; EAlign; ECall; EMov RSP RDI; EStoreRax;
   EPop RAX; EPop RBX; EPop RCX; EPop RDX; EPop RSI; EPop RDI; EPop RBP; EPop R8;
   EPop R9; EPop R10; EPop R11; EPop R12; EPop R13; EPop R14; EPop R15].

(** ** What a call amounts to *)
Definition outcome (a : SyscallArgs) (caller_pid n : Z) : res SyscallError Z :=
  rbind (number_try_from (syscall_num a)) (λ num, (run_handler num a caller_pid n).1).

Definition is_error_code (v : Z) : Prop := U64_MAX - 7 ≤ v ≤ U64_MAX.

Lemma error_code_inj e e' : error_code e = error_code e' → e = e'.
Proof. destruct e, e'; by vm_compute. Qed.

Lemma error_code_range e : is_error_code (error_code e).
Proof. destruct e; by vm_compute. Qed.

(** A handler stops at once with an error, or with a value that is no error code, and uses at most one
    process number; [GetObject] returns the handle itself. *)
Definition settles (get : bool) (handle : Z) (p : SM Z) : Prop := ∀ n, 0 ≤ n < U64_MAX - 7 →
  (∃ e, p n = (Err e, n)) ∨ ∃ v n', p n = (Ok v, n') ∧ n ≤ n' ≤ n + 1 ∧
    if get then v = handle else 0 ≤ v < U64_MAX - 7.

Create HintDb settles.

Lemma settles_err h e g : settles g h (merr e).
Proof. intros n Hn. left. by exists e. Qed.

Lemma settles_ok h v : 0 ≤ v < U64_MAX - 7 → settles false h (mok v).
Proof. intros Hv n Hn. right. exists v, n. split_and!; [done|lia..]. Qed.

Lemma settles_if h (b : bool) e p : settles false h p → settles false h (if b then merr e else p).
Proof. destruct b; [intros _; apply settles_err|done]. Qed.

Lemma settles_pid h : settles false h next_process_id.
Proof.
  intros n Hn. right. exists n, (n + 1). unfold next_process_id, mbindM, mget, mput, mok, wrap64.
  rewrite Z.mod_small by (unfold U64_MAX in Hn; lia). split_and!; [done|lia..].
Qed.

#[export] Hint Resolve settles_err settles_if settles_pid : settles.
#[export] Hint Extern 2 (settles false _ (mok _)) => (apply settles_ok; by vm_compute) : settles.

Lemma handler_settles num a pid :
  0 ≤ arg2 a → settles (match num with NGetObject => true | _ => false end) (arg0 a) (run_handler num a pid).
Proof.
  intros Hc. destruct num; cbn [run_handler];
    unfold h_create_process, h_fork, h_transfer_capability, h_revoke_capability, h_load_elf, h_start_process, h_mmap,
      h_munmap, h_mprotect, h_open, h_close, h_read, h_exec, h_wait; auto with settles.
  - unfold h_create_object. destruct (arg0 a) as [|[[]|[]|]|]; auto with settles.
  - intros n Hn. unfold h_get_object. destruct (_ <? _); [left|right]; [by eexists|].
    exists (arg0 a), n. split_and!; [done|lia..].
  - unfold h_call_object. destruct (_ <? _); [auto with settles|].
    destruct (Z.shiftr _ _) as [|[[]|[]|]|]; auto with settles; destruct (arg1 a) as [|[]|]; auto with settles.
  - unfold h_write. destruct (_ || _) eqn:E; [auto with settles|]. apply settles_ok.
    apply orb_false_iff in E as [_ E]. apply Z.ltb_ge in E. unfold U64_MAX. lia.
Qed.

(** ** The entry stub *)

(** What the System V calling convention says of the compiled [syscall_entry_rust]: it returns with the
    callee-saved registers and the caller's part of the stack as they were, and the result in [rax]. It
    says nothing of [rdi]. *)
Record sysv_callee (callee : Mach → Mach) : Prop := {
  cc_saved : ∀ m r, r ∈ [RBX; RBP; RSP; R12; R13; R14; R15] → x_regs (callee m) r = x_regs m r;
  cc_stack : ∀ m a, x_regs m RSP ≤ a → x_word (callee m) a = x_word m a;
  cc_result : ∀ m frame, (∀ i r, frame_regs !! i = Some r → frame r = x_word m (x_regs m RDI + 8 * Z.of_nat i)) →
    syscall_entry_rust frame (x_next_pid m) = (Ok (x_regs (callee m) RAX), x_next_pid (callee m));
}.

Lemma entry_run_app callee ops ops' m : entry_run callee (ops ++ ops') m = entry_run callee ops' (entry_run callee ops m).
Proof. apply foldl_app. Qed.

Lemma pushes callee rs m :
  RSP ∉ rs → 8 * Z.of_nat (length rs) ≤ x_regs m RSP < 2 ^ 64 →
  let m' := entry_run callee (EPush <$> rs) m in
  x_regs m' RSP = x_regs m RSP - 8 * Z.of_nat (length rs) ∧ (∀ r, r ≠ RSP → x_regs m' r = x_regs m r) ∧
  x_next_pid m' = x_next_pid m ∧ (∀ a, x_regs m RSP ≤ a → x_word m' a = x_word m a) ∧
  ∀ i r, rs !! i = Some r → x_word m' (x_regs m RSP - 8 * (Z.of_nat i + 1)) = x_regs m r.
Proof.
  revert m. induction rs as [|r rs IH]; intros m Hrs Hsp; [split_and!; try done; cbn; lia|].
  apply not_elem_of_cons in Hrs as [Hr Hrs]. cbn [length] in Hsp.
  cbn [fmap list_fmap]. change (entry_run callee (EPush r :: (EPush <$> rs)) m) with (entry_run callee (EPush <$> rs) (entry_op callee m (EPush r))).
  set (m1 := entry_op callee m (EPush r)).
  assert (x_regs m1 RSP = x_regs m RSP - 8) as Hsp1 by (cbn; rewrite set_reg_eq; unfold wrap64; apply Z.mod_small; lia).
  assert (∀ r', r' ≠ RSP → x_regs m1 r' = x_regs m r') as Hr1 by (intros; cbn; by rewrite set_reg_ne).
  assert (∀ a, x_word m1 a = if decide (a = x_regs m RSP - 8) then x_regs m r else x_word m a) as Hw.
  { intros a. unfold x_word, m1. cbn [entry_op x_mem]. unfold wrap64. rewrite Z.mod_small by lia. rewrite lookup_insert.
    destruct (decide (a = _)), (decide (_ = a)); [done|congruence..|done]. }
  destruct (IH m1 Hrs ltac:(lia)) as (A1 & A2 & A3 & A4 & A5). cbn [length]. split; [lia|].
  split; [intros r' Hr'; by rewrite A2, Hr1|]. split; [by rewrite A3|].
  split; [intros a Ha; rewrite A4, Hw by lia; rewrite decide_False by lia; done|].
  intros [|i] r' Hi; cbn in Hi.
  - injection Hi as <-. rewrite A4 by lia. rewrite Hw, decide_True by lia. done.
  - replace (x_regs m RSP - 8 * (Z.of_nat (S i) + 1)) with (x_regs m1 RSP - 8 * (Z.of_nat i + 1)) by lia.
    rewrite (A5 i r' Hi). apply Hr1. intros ->. apply Hrs. by eapply list_elem_of_lookup_2.
Qed.

Lemma pops callee rs m :
  NoDup rs → RSP ∉ rs → 0 ≤ x_regs m RSP → x_regs m RSP + 8 * Z.of_nat (length rs) < 2 ^ 64 →
  let m' := entry_run callee (EPop <$> rs) m in
  x_regs m' RSP = x_regs m RSP + 8 * Z.of_nat (length rs) ∧ x_mem m' = x_mem m ∧ x_next_pid m' = x_next_pid m ∧
  (∀ r, r ∉ rs → r ≠ RSP → x_regs m' r = x_regs m r) ∧
  ∀ i r, rs !! i = Some r → x_regs m' r = x_word m (x_regs m RSP + 8 * Z.of_nat i).
Proof.
  revert m. induction rs as [|r rs IH]; intros m Hnd Hrs H0 Hsp; [split_and!; try done; cbn; lia|].
  apply NoDup_cons in Hnd as [Hnr Hnd]. apply not_elem_of_cons in Hrs as [Hr Hrs]. cbn [length] in Hsp.
  cbn [fmap list_fmap]. change (entry_run callee (EPop r :: (EPop <$> rs)) m) with (entry_run callee (EPop <$> rs) (entry_op callee m (EPop r))).
  set (m1 := entry_op callee m (EPop r)).
  assert (x_regs m1 RSP = x_regs m RSP + 8) as Hsp1 by (cbn; rewrite set_reg_eq; unfold wrap64; apply Z.mod_small; lia).
  destruct (IH m1 Hnd Hrs ltac:(lia) ltac:(lia)) as (A1 & A2 & A3 & A4 & A5). cbn [length]. split; [lia|].
  split; [by rewrite A2|]. split; [by rewrite A3|]. split.
  - intros r' [Hne Hin]%not_elem_of_cons Hsp'. rewrite A4 by done. cbn. by rewrite !set_reg_ne.
  - intros [|i] r' Hi; cbn in Hi.
    + injection Hi as <-. rewrite A4 by done. cbn. rewrite set_reg_ne, set_reg_eq by done. f_equal. lia.
    + rewrite (A5 i r' Hi). rewrite Hsp1. unfold x_word. cbn [entry_op m1 x_mem]. do 2 f_equal. lia.
Qed.

(** The stub up to the call. *)
Definition before_call : list EntryOp :=
  (EPush <$> reverse frame_regs) ++ [EMov RDI RSP; EMov RSI RCX; EMov RDX R11; EAlign].

(** The state in which [syscall_entry_rust] is called: the user's registers form the frame at [rdi]. *)
Definition at_call (m : Mach) : Mach :=
  entry_run id before_call m.

Lemma frame_regs_nodup : NoDup frame_regs.
Proof. apply (bool_decide_unpack _). by vm_compute. Qed.

Lemma frame_regs_rsp : RSP ∉ frame_regs.
Proof. apply (bool_decide_unpack _). by vm_compute. Qed.

Lemma land_le_l a b : 0 ≤ a → 0 ≤ b → Z.land a b ≤ a.
Proof.
  intros Ha Hb. rewrite <-(Z2N.id a), <-(Z2N.id b) by done. rewrite <-N2Z.inj_land. apply N2Z.inj_le, N.land_le_l.
Qed.

Lemma call_setup m :
  let m' := entry_run id [EMov RDI RSP; EMov RSI RCX; EMov RDX R11; EAlign] m in
  x_regs m' RDI = x_regs m RSP ∧ x_regs m' RSP = Z.land (x_regs m RSP) (wrap64 (-16)) ∧ x_next_pid m' = x_next_pid m ∧
  ∀ a, x_word m' a = x_word m a.
Proof. done. Qed.

Lemma at_call_ok m :
  256 ≤ x_regs m RSP < 2 ^ 64 →
  x_regs (at_call m) RDI = x_regs m RSP - 120 ∧ x_regs (at_call m) RSP ≤ x_regs m RSP - 120 ∧
  x_next_pid (at_call m) = x_next_pid m ∧ (∀ a, x_regs m RSP ≤ a → x_word (at_call m) a = x_word m a) ∧
  ∀ i r, frame_regs !! i = Some r → x_word (at_call m) (x_regs m RSP - 120 + 8 * Z.of_nat i) = x_regs m r.
Proof.
  intros Hsp. assert (length (reverse frame_regs) = 15%nat) as Hlen by done.
  assert (RSP ∉ reverse frame_regs) as Hin by (rewrite elem_of_reverse; apply frame_regs_rsp).
  pose proof (pushes id (reverse frame_regs) m Hin) as Hpush. rewrite Hlen in Hpush.
  destruct (Hpush ltac:(lia)) as (A1 & _ & A3 & A4 & A5). clear Hpush Hin Hlen. unfold at_call, before_call. rewrite entry_run_app.
  destruct (call_setup (entry_run id (EPush <$> reverse frame_regs) m)) as (B1 & B2 & B3 & B4).
  rewrite B1, B2, B3, A1, A3. split; [lia|]. split.
  { transitivity (x_regs m RSP - 8 * Z.of_nat 15); [|lia]. apply land_le_l; [lia|]. unfold wrap64. apply Z.mod_pos_bound. lia. }
  split; [done|]. split; [intros a Ha; by rewrite B4, A4|]. intros i r Hi. rewrite B4.
  pose proof (lookup_lt_Some _ _ _ Hi) as Hl. change (length frame_regs) with 15%nat in Hl.
  replace (x_regs m RSP - 120 + 8 * Z.of_nat i) with (x_regs m RSP - 8 * (Z.of_nat (14 - i) + 1)) by lia.
  apply (A5 (14 - i)%nat r). rewrite reverse_lookup by (change (length frame_regs) with 15%nat; lia).
  change (length frame_regs) with 15%nat. by replace (15 - S (14 - i))%nat with i by lia.
Qed.

(** Only [ECall] runs the handler. *)
Lemma entry_split : syscall_entry_asm = before_call ++ [ECall; EMov RSP RDI; EStoreRax] ++ (EPop <$> frame_regs).
Proof. reflexivity. Qed.

Lemma no_call callee callee' ops m :
  forallb (λ o, match o with ECall => false | _ => true end) ops = true → entry_run callee ops m = entry_run callee' ops m.
Proof.
  revert m. induction ops as [|o ops IH]; intros m; [done|]. cbn [forallb]. intros [Ho Hops]%andb_prop.
  change (entry_run callee ops (entry_op callee m o) = entry_run callee' ops (entry_op callee' m o)).
  rewrite IH by done. by destruct o.
Qed.

Lemma before_call_run callee m : entry_run callee before_call m = at_call m.
Proof. by apply no_call. Qed.

Lemma after_call callee m :
  let m' := entry_run callee [ECall; EMov RSP RDI; EStoreRax] m in let x := x_regs (callee m) RDI in
  x_regs m' RSP = x ∧ x_next_pid m' = x_next_pid (callee m) ∧
  ∀ a, x_word m' a = if decide (a = x) then x_regs (callee m) RAX else x_word (callee m) a.
Proof.
  cbn [entry_run foldl entry_op x_regs x_next_pid]. rewrite set_reg_eq, set_reg_ne by done. split; [done|]. split; [done|].
  intros a. unfold x_word at 1. cbn [x_mem]. rewrite lookup_insert.
  destruct (decide (a = _)), (decide (_ = a)); [done|congruence..|done].
Qed.

Lemma entry_exact callee m x :
  256 ≤ x_regs m RSP < 2 ^ 64 → x_regs (callee (at_call m)) RDI = x → 0 ≤ x < 2 ^ 64 - 120 →
  let m2 := callee (at_call m) in let m' := entry_run callee syscall_entry_asm m in
  x_regs m' RSP = x + 120 ∧ x_regs m' RAX = x_regs m2 RAX ∧ x_next_pid m' = x_next_pid m2 ∧
  (∀ a, a ≠ x → x_word m' a = x_word m2 a) ∧
  ∀ i r, frame_regs !! i = Some r → r ≠ RAX → x_regs m' r = x_word m2 (x + 8 * Z.of_nat i).
Proof.
  intros Hsp Hx Hr. rewrite entry_split, entry_run_app, before_call_run, entry_run_app.
  destruct (after_call callee (at_call m)) as (H3 & Hpid & Hw). set (m2 := callee (at_call m)) in *.
  set (m3 := entry_run callee [ECall; EMov RSP RDI; EStoreRax] (at_call m)) in *. clearbody m2 m3. rewrite Hx in *.
  destruct (pops callee frame_regs m3 frame_regs_nodup frame_regs_rsp) as (A1 & A2 & A3 & _ & A5); [lia|cbn [length frame_regs]; lia|].
  rewrite H3 in *. split; [exact A1|]. split; [rewrite (A5 0%nat RAX eq_refl), Hw, decide_True by lia; done|]. split; [by rewrite A3|].
  split; [intros a Ha; unfold x_word; rewrite A2; fold (x_word m3 a); by rewrite Hw, decide_False|].
  intros i r Hi Hne. rewrite (A5 i r Hi), Hw, decide_False; [done|]. destruct i; [cbn in Hi; congruence|lia].
Qed.

Lemma entry_result callee m :
  sysv_callee callee → 256 ≤ x_regs m RSP < 2 ^ 64 →
  syscall_entry_rust (x_regs m) (x_next_pid m) = (Ok (x_regs (callee (at_call m)) RAX), x_next_pid (callee (at_call m))).
Proof.
  intros Hc Hsp. destruct (at_call_ok m Hsp) as (Hrdi & _ & <- & _ & Hf). apply (cc_result _ Hc). intros i r Hi.
  rewrite Hrdi. by rewrite (Hf i r Hi).
Qed.

(** ** Compiled handlers that follow the convention *)
Definition frame_at (m : Mach) (r : Reg) : Z :=
  match list_find (λ r', r' = r) frame_regs with
  | Some (i, _) => x_word m (x_regs m RDI + 8 * Z.of_nat i)
  | None => 0
  end.

(** The handler with [rdi] holding [f] of its value when it returns. *)
Definition compiled (f : Z → Z) (m : Mach) : Mach :=
  match syscall_entry_rust (frame_at m) (x_next_pid m) with
  | (Ok v, n) => mkMach (set_reg RDI (f (x_regs m RDI)) (set_reg RAX v (x_regs m))) (x_mem m) n
  | _ => m
  end.

Lemma dispatch_total a pid n : ∃ v n', dispatch_syscall a pid n = (Ok v, n').
Proof.
  unfold dispatch_syscall. assert (∀ z, match number_try_from z with Ok _ | Err _ => True | _ => False end) as Hn.
  { intros z. unfold number_try_from. repeat case_match; simplify_eq; done. }
  specialize (Hn (syscall_num a)). destruct (number_try_from _) as [num|e| |]; [|by eexists _, _|done..].
  assert (∃ r n', run_handler num a pid n = (r, n') ∧ match r with Ok _ | Err _ => True | _ => False end) as (r & n' & -> & Hr);
    [|destruct r; try done; by eexists _, _].
  destruct num; cbn [run_handler];
    unfold h_create_object, h_get_object, h_call_object, h_transfer_capability, h_revoke_capability, h_create_process,
      h_load_elf, h_start_process, h_mmap, h_munmap, h_mprotect, h_open, h_close, h_read, h_write, h_fork, h_exec, h_wait;
    repeat case_match; by eexists _, _.
Qed.

Lemma entry_rust_total frame n : ∃ v n', syscall_entry_rust frame n = (Ok v, n').
Proof. unfold syscall_entry_rust, get_current_process_id, mbindM, mget, mput, mok. apply dispatch_total. Qed.

Lemma compiled_sysv f : sysv_callee (compiled f).
Proof.
  split.
  - intros m r Hr. unfold compiled. destruct (entry_rust_total (frame_at m) (x_next_pid m)) as (v & n & ->). cbn.
    rewrite !set_reg_ne; [done|by intros ->; set_solver..].
  - intros m a _. unfold compiled. by destruct (entry_rust_total (frame_at m) (x_next_pid m)) as (v & n & ->).
  - intros m frame Hf. unfold compiled.
    assert (∀ r, r ∈ frame_regs → frame_at m r = frame r) as Hr.
    { intros r Hin. unfold frame_at. destruct (list_find_elem_of (λ r', r' = r) frame_regs r Hin eq_refl) as [[i r'] E].
      rewrite E. apply list_find_Some in E as (Hi & -> & _). by rewrite (Hf i r Hi). }
    assert (syscall_entry_rust frame (x_next_pid m) = syscall_entry_rust (frame_at m) (x_next_pid m)) as ->.
    { unfold syscall_entry_rust. rewrite !Hr by (apply (bool_decide_unpack _); by vm_compute). done. }
    destruct (entry_rust_total (frame_at m) (x_next_pid m)) as (v & n & ->). cbn.
    rewrite set_reg_ne, set_reg_eq by done. done.
Qed.

(** ** Properties *)

(** C33: the path of a system call. With a handler compiled to the calling convention that also happens to leave
    [rdi] alone, the stub gives the caller the handler's result in [rax] and every other register, the stack
    pointer and the memory above it as they were. *)
Theorem syscall_entry_transparent callee m :
  sysv_callee callee → (∀ m, x_regs (callee m) RDI = x_regs m RDI) → 256 ≤ x_regs m RSP < 2 ^ 64 →
  ∃ v n, syscall_entry_rust (x_regs m) (x_next_pid m) = (Ok v, n) ∧
    let m' := entry_run callee syscall_entry_asm m in
    x_regs m' RAX = v ∧ x_next_pid m' = n ∧ (∀ r, r ∈ frame_regs → r ≠ RAX → x_regs m' r = x_regs m r) ∧
    x_regs m' RSP = x_regs m RSP ∧ ∀ a, x_regs m RSP ≤ a → x_word m' a = x_word m a.
Proof.
  intros Hc Hrdi Hsp. destruct (at_call_ok m Hsp) as (Hd & Hle & _ & Hup & Hf). pose proof (entry_result callee m Hc Hsp) as Hres.
  destruct (entry_exact callee m (x_regs m RSP - 120) Hsp ltac:(by rewrite Hrdi) ltac:(lia)) as (E1 & E2 & E3 & E4 & E5).
  eexists _, _. split; [exact Hres|]. split; [exact E2|]. split; [exact E3|]. split; [|split].
  - intros r (i & Hi)%list_elem_of_lookup_1 Hne. rewrite (E5 i r Hi Hne), (cc_stack _ Hc) by lia. by apply Hf.
  - rewrite E1. lia.
  - intros a Ha. rewrite E4, (cc_stack _ Hc) by lia. by apply Hup.
Qed.

(** A caller that writes 5 bytes to descriptor 1. *)
Definition demo_mach : Mach :=
  mkMach (λ r, match r with RAX => 23 | RBX => 1 | R9 => 0x400100 | RDX => 5 | RSP => 0x7000 | RCX => 0x400000 | _ => 0 end) ∅ 1.

Lemma syscall_entry_transparent_witness :
  x_regs (entry_run (compiled id) syscall_entry_asm demo_mach) RAX = 5 ∧
  x_regs (entry_run (compiled id) syscall_entry_asm demo_mach) RCX = 0x400000.
Proof.
  destruct (syscall_entry_transparent (compiled id) demo_mach (compiled_sysv id)) as (v & n & E & Ha & _ & Hr & _).
  - intros m. unfold compiled. by destruct (entry_rust_total (frame_at m) (x_next_pid m)) as (v & n & ->).
  - by vm_compute.
  - assert (v = 5) as -> by (vm_compute in E; congruence). split; [exact Ha|].
    apply (Hr RCX); [apply (bool_decide_unpack _); by vm_compute|done].
Defined.

(** The way back depends on a register the calling convention does not protect. For every address [x] above
    the caller's stack pointer there is a handler that follows the convention and after which the stub
    takes the stack pointer and all registers from [x]: the address and flags that [sysret] uses
    included. *)
Theorem syscall_return_unprotected m x :
  256 ≤ x_regs m RSP → x_regs m RSP ≤ x → x < 2 ^ 64 - 120 →
  ∃ callee, sysv_callee callee ∧ let m' := entry_run callee syscall_entry_asm m in
    x_regs m' RSP = x + 120 ∧ x_regs m' RCX = x_word m (x + 16) ∧ x_regs m' R11 = x_word m (x + 80).
Proof.
  intros Hsp Hx Htop. exists (compiled (λ _, x)). split; [apply compiled_sysv|].
  destruct (at_call_ok m ltac:(lia)) as (_ & Hle & _ & Hup & _).
  assert (x_regs (compiled (λ _, x) (at_call m)) RDI = x) as Hrdi.
  { unfold compiled. by destruct (entry_rust_total (frame_at (at_call m)) (x_next_pid (at_call m))) as (v & n & ->). }
  destruct (entry_exact (compiled (λ _, x)) m x ltac:(lia) Hrdi ltac:(lia)) as (E1 & _ & _ & _ & E5).
  split; [exact E1|]. rewrite (E5 2%nat RCX eq_refl ltac:(done)), (E5 10%nat R11 eq_refl ltac:(done)).
  rewrite !(cc_stack _ (compiled_sysv _)) by lia. rewrite !Hup by lia. done.
Qed.

Lemma syscall_return_unprotected_witness :
  ∃ callee, sysv_callee callee ∧ x_regs (entry_run callee syscall_entry_asm demo_mach) RSP = 0x8078.
Proof.
  destruct (syscall_return_unprotected demo_mach 0x8000) as (callee & Hc & E & _); [by vm_compute..|].
  exists callee. split; [exact Hc|exact E].
Defined.

(** What the dispatcher gives, for any caller. *)
Lemma dispatch_settles a caller_pid n :
  0 ≤ n < U64_MAX - 7 → 0 ≤ arg2 a →
  ∃ v n', dispatch_syscall a caller_pid n = (Ok v, n') ∧ n ≤ n' ≤ n + 1 ∧
    (syscall_num a = 99 → v = 0 ∧ n' = n) ∧
    ((syscall_num a = 1 → ¬ is_error_code (arg0 a)) → ∀ e, v = error_code e ↔ outcome a caller_pid n = Err e) ∧
    (∀ e, syscall_num a = 1 → arg0 a = error_code e → v = error_code e ∧ outcome a caller_pid n = Ok v).
Proof.
  intros Hn Hc. unfold dispatch_syscall, outcome.
  destruct (number_try_from (syscall_num a)) as [num|e| |] eqn:En; cbn [rbind].
  3,4: exfalso; revert En; unfold number_try_from; repeat case_match; done.
  2: { exists (error_code e), n. split; [done|]. split; [lia|]. split; [intros E; by rewrite E in En|]. split; [|intros e' E; by rewrite E in En].
       intros _ e'. split; [by intros ->%error_code_inj|by intros [= ->]]. }
  assert (num = NGetObject → syscall_num a = 1) as H1.
  { intros ->. revert En. unfold number_try_from. repeat case_match; try discriminate. done. }
  assert (syscall_num a = 1 → num = NGetObject) as H1' by (intros E; rewrite E in En; by injection En as <-).
  destruct (handler_settles num a caller_pid Hc n Hn) as [(e & E)|(v & n' & E & Hn' & Hv)]; rewrite E; cbn [fst].
  - exists (error_code e), n. split; [done|]. split; [lia|]. split; [intros Hx; rewrite Hx in En; by injection En as <-|]. split.
    + intros _ e'. split; [by intros ->%error_code_inj|by intros [= ->]].
    + intros e' Hs Ha. exfalso. rewrite (H1' Hs) in E. cbn [run_handler] in E. unfold h_get_object in E.
      rewrite Ha in E. by destruct e'.
  - exists v, n'. split; [done|]. split; [done|]. split; [intros Hx; rewrite Hx in En; injection En as <-; by injection E as <- <-|]. split.
    + intros Hno e. split; [|done]. intros ->. exfalso. pose proof (error_code_range e) as He. unfold is_error_code in *.
      destruct (decide (num = NGetObject)) as [->|Hne]; [cbn in Hv; apply (Hno (H1 eq_refl)); by rewrite <-Hv|].
      destruct num; try done; lia.
    + intros e Hs Ha. rewrite (H1' Hs) in Hv. cbn in Hv. by rewrite Hv.
Qed.

(** C34: what the caller can read from [rax]. The dispatcher returns to its caller for every request, [Exit] (99)
    included, for which it gives 0. It uses at most one process number; the entry function takes one more, for the
    identity of the caller. The value is an error code exactly when the call failed with that error; only
    [GetObject], which returns the handle it was given, can return the code of an error that did not happen. *)
Theorem syscall_error_codes a caller_pid n :
  0 ≤ n < U64_MAX - 7 → 0 ≤ arg2 a →
  ∃ v n', dispatch_syscall a caller_pid n = (Ok v, n') ∧ n ≤ n' ≤ n + 1 ∧
    (syscall_num a = 99 → v = 0 ∧ n' = n) ∧
    ((syscall_num a = 1 → ¬ is_error_code (arg0 a)) → ∀ e, v = error_code e ↔ outcome a caller_pid n = Err e) ∧
    (∀ e, syscall_num a = 1 → arg0 a = error_code e → v = error_code e ∧ outcome a caller_pid n = Ok v) ∧
    (0 < n → caller_pid = n - 1 →
     syscall_handler_wrapper (syscall_num a) (arg0 a) (arg1 a) (arg2 a) (arg3 a) (arg4 a) (arg5 a) (n - 1) = (Ok v, n')).
Proof.
  intros Hn Hc. destruct (dispatch_settles a caller_pid n Hn Hc) as (v & n' & E & Hr & Hx & He & Hg). exists v, n'.
  split_and!; [done|lia..|done|done|done|]. intros H0 ->. unfold syscall_handler_wrapper, get_current_process_id, mbindM, mget, mput, mok.
  cbv beta iota. unfold wrap64. rewrite Z.mod_small by (unfold U64_MAX in Hn; lia). replace (n - 1 + 1) with n by lia. by destruct a.
Qed.

Lemma syscall_error_codes_witness :
  ∃ v n', dispatch_syscall (mkArgs 1 U64_MAX 0 0 0 0 0) 1 1 = (Ok v, n') ∧ v = error_code InvalidSyscall.
Proof.
  destruct (syscall_error_codes (mkArgs 1 U64_MAX 0 0 0 0 0) 1 1) as (v & n' & E & _ & _ & _ & H & _); [by vm_compute..|].
  exists v, n'. split; [exact E|]. by apply (H InvalidSyscall).
Defined.
