(* ===== verification/Elf.v ===== *)
(** * ELF files ([crates/Statue/src]: [error.rs], [header.rs], [program.rs], [section.rs], [symbol.rs])

    The parser of the [Statue] library: identification, file header, program
    and section headers with their tables, string tables and symbol tables,
    for both classes and both byte orders. A file is the list of its bytes. *)

From S2P Require Import Prelude Utf8.

(** ** Errors *)
Inductive ElfError : Type :=
  | InvalidMagic | UnsupportedClass | UnsupportedEncoding | UnsupportedVersion
  | UnsupportedArchitecture | InvalidHeader | InvalidProgramHeader | InvalidSectionHeader
  | InvalidSymbol | InvalidRelocation | BufferTooSmall | InvalidOffset | InvalidAddress
  | InvalidAlignment | AllocationFailed | MappingFailed | PermissionDenied
  | UnsupportedRelocation | MissingSection | MissingSymbol | CircularDependency
  | DynamicLinkingFailed | ExecutionSetupFailed | UnsupportedOperation
  | InvalidStringTable | StringNotFound | IndexOutOfBounds | ArithmeticOverflow | ParseError.

Abbreviation ER := (res ElfError).

(** ** Reading integers: [read_u16], [read_u32], [read_u64]

    The bytes [data[offset]] to [data[offset + n - 1]], with the bounds check
    of indexing, in the byte order of the file. *)
Definition read_int (n : Z) (data : list Z) (offset : Z) (little_endian : bool) : ER Z :=
  let? bs := slice offset (offset + n) data in
  Ok (le_dec (if little_endian then bs else reverse bs)).

Definition read_u16 : list Z → Z → bool → ER Z := read_int 2.
Definition read_u32 : list Z → Z → bool → ER Z := read_int 4.
Definition read_u64 : list Z → Z → bool → ER Z := read_int 8.

(** [data[i]] *)
Definition byte_at (data : list Z) (i : Z) : ER Z :=
  match data !! Z.to_nat i with Some b => if 0 <=? i then Ok b else Panic | None => Panic end.

(** [checked_add] with [ok_or(ArithmeticOverflow)] *)
Definition checked_add (a b : Z) : ER Z := if a + b <? 2 ^ 64 then Ok (a + b) else Err ArithmeticOverflow.

(** ** File header ([header.rs]) *)
Inductive ElfClass : Type := Elf32 | Elf64.
Inductive ElfData : Type := LittleEndian | BigEndian.
Inductive ElfType : Type := TNone | Relocatable | Executable | SharedObject | Core.
Inductive ElfMachine : Type := MNone | X86_64 | AArch64 | RiscV.

#[export] Instance elf_class_eq_dec : EqDecision ElfClass.
Proof. solve_decision. Defined.
#[export] Instance elf_data_eq_dec : EqDecision ElfData.
Proof. solve_decision. Defined.
#[export] Instance elf_type_eq_dec : EqDecision ElfType.
Proof. solve_decision. Defined.

Record ElfIdent := mkIdent {
  magic : list Z; class : ElfClass; data_encoding : ElfData; ident_version : Z;
  osabi : Z; abiversion : Z; padding : list Z;
}.

Definition ELF_MAGIC : list Z := [0x7f; 0x45; 0x4c; 0x46].

Definition ident_parse (data : list Z) : ER ElfIdent :=
  if zlen data <? 16 then Err BufferTooSmall else
  let? m := slice 0 4 data in
  if bool_decide (m ≠ ELF_MAGIC) then Err InvalidMagic else
  let? b4 := byte_at data 4 in
  let? c := (match b4 with 1 => Ok Elf32 | 2 => Ok Elf64 | _ => Err UnsupportedClass end) in
  let? b5 := byte_at data 5 in
  let? d := (match b5 with 1 => Ok LittleEndian | 2 => Ok BigEndian | _ => Err UnsupportedEncoding end) in
  let? v := byte_at data 6 in
  if negb (v =? 1) then Err UnsupportedVersion else
  let? o := byte_at data 7 in
  let? a := byte_at data 8 in
  let? p := slice 9 16 data in
  Ok (mkIdent m c d v o a p).

Record ElfHeader := mkHeader {
  ident : ElfIdent; file_type : ElfType; machine : ElfMachine; version : Z;
  entry : Z; phoff : Z; shoff : Z; flags : Z; ehsize : Z; phentsize : Z; phnum : Z;
  shentsize : Z; shnum : Z; shstrndx : Z;
}.

Definition is_64bit (h : ElfHeader) : bool := bool_decide (class (ident h) = Elf64).
Definition is_little_endian (h : ElfHeader) : bool := bool_decide (data_encoding (ident h) = LittleEndian).

(** The size of a structure in the two classes. *)
Definition by_class {A} (c : ElfClass) (x32 x64 : A) : A := match c with Elf32 => x32 | Elf64 => x64 end.

Definition file_type_of (v : Z) : ER ElfType :=
  match v with
  | 0 => Ok TNone | 1 => Ok Relocatable | 2 => Ok Executable | 3 => Ok SharedObject | 4 => Ok Core
  | _ => Err InvalidHeader
  end.

Definition machine_of (v : Z) : ER ElfMachine :=
  match v with
  | 0 => Ok MNone | 62 => Ok X86_64 | 183 => Ok AArch64 | 243 => Ok RiscV
  | _ => Err UnsupportedArchitecture
  end.

Definition elf_header_parse (data : list Z) : ER ElfHeader :=
  let? i := ident_parse data in
  if zlen data <? by_class (class i) 52 64 then Err BufferTooSmall else
  let le := bool_decide (data_encoding i = LittleEndian) in
  let? t := read_u16 data 16 le in
  let? t := file_type_of t in
  let? m := read_u16 data 18 le in
  let? m := machine_of m in
  let? v := read_u32 data 20 le in
  if negb (v =? 1) then Err UnsupportedVersion else
  let? (e, po, so) :=
    (match class i with
     | Elf32 =>
         let? e := read_u32 data 24 le in let? po := read_u32 data 28 le in let? so := read_u32 data 32 le in Ok (e, po, so)
     | Elf64 =>
         let? e := read_u64 data 24 le in let? po := read_u64 data 32 le in let? so := read_u64 data 40 le in Ok (e, po, so)
     end) in
  let flags_offset := by_class (class i) 36 48 in
  let? fl := read_u32 data flags_offset le in
  let? eh := read_u16 data (flags_offset + 4) le in
  let? pe := read_u16 data (flags_offset + 6) le in
  let? pn := read_u16 data (flags_offset + 8) le in
  let? se := read_u16 data (flags_offset + 10) le in
  let? sn := read_u16 data (flags_offset + 12) le in
  let? sx := read_u16 data (flags_offset + 14) le in
  Ok (mkHeader i t m v e po so fl eh pe pn se sn sx).

Record ElfFile := mkElf { elf_data : list Z; header : ElfHeader }.

(** The two checks of a header table: its entry size, and that it lies in the file. *)
Definition check_table (num off entsize expected len : Z) (bad_size : ElfError) : ER unit :=
  if num =? 0 then Ok tt else
  if negb (entsize =? expected) then Err bad_size else
  let? size := mul64 num entsize in
  let? end_ := checked_add off size in
  if len <? end_ then Err InvalidOffset else Ok tt.

Definition elf_parse (data : list Z) : ER ElfFile :=
  let? h := elf_header_parse data in
  let c := class (ident h) in
  if negb (ehsize h =? by_class c 52 64) then Err InvalidHeader else
  let? _ := check_table (phnum h) (phoff h) (phentsize h) (by_class c 32 56) (zlen data) InvalidProgramHeader in
  let? _ := check_table (shnum h) (shoff h) (shentsize h) (by_class c 40 64) (zlen data) InvalidSectionHeader in
  if (0 <? shnum h) && (shnum h <=? shstrndx h) && negb (shstrndx h =? 0) then Err InvalidHeader else
  Ok (mkElf data h).

(** ** Program headers ([program.rs]) *)
Inductive ProgramType : Type :=
  | PTNull | Load | PTDynamic | Interp | PTNote | Shlib | Phdr | PTTls | GnuEhFrame | GnuStack | GnuRelRo.
#[export] Instance program_type_eq_dec : EqDecision ProgramType.
Proof. solve_decision. Defined.

Definition program_type_of (v : Z) : ER ProgramType :=
  match v with
  | 0 => Ok PTNull | 1 => Ok Load | 2 => Ok PTDynamic | 3 => Ok Interp | 4 => Ok PTNote | 5 => Ok Shlib
  | 6 => Ok Phdr | 7 => Ok PTTls
  | 0x6474e550 => Ok GnuEhFrame | 0x6474e551 => Ok GnuStack | 0x6474e552 => Ok GnuRelRo
  | _ => Err InvalidProgramHeader
  end.

Record ProgramHeader := mkPh {
  segment_type : ProgramType; p_flags : Z; p_offset : Z; p_vaddr : Z; p_paddr : Z; p_filesz : Z; p_memsz : Z; p_align : Z;
}.

Definition p_executable (ph : ProgramHeader) : bool := negb (Z.land (p_flags ph) 1 =? 0).
Definition p_writable (ph : ProgramHeader) : bool := negb (Z.land (p_flags ph) 2 =? 0).
Definition p_readable (ph : ProgramHeader) : bool := negb (Z.land (p_flags ph) 4 =? 0).

Definition ph_parse (data : list Z) (offset : Z) (is64 le : bool) : ER ProgramHeader :=
  let? end_ := add64 offset (if is64 then 56 else 32) in
  if zlen data <? end_ then Err BufferTooSmall else
  let? t := read_u32 data offset le in
  let? t := program_type_of t in
  if is64 then
    let? fl := read_u32 data (offset + 4) le in
    let? off := read_u64 data (offset + 8) le in
    let? va := read_u64 data (offset + 16) le in
    let? pa := read_u64 data (offset + 24) le in
    let? fs := read_u64 data (offset + 32) le in
    let? ms := read_u64 data (offset + 40) le in
    let? al := read_u64 data (offset + 48) le in
    Ok (mkPh t fl off va pa fs ms al)
  else
    let? off := read_u32 data (offset + 4) le in
    let? va := read_u32 data (offset + 8) le in
    let? pa := read_u32 data (offset + 12) le in
    let? fs := read_u32 data (offset + 16) le in
    let? ms := read_u32 data (offset + 20) le in
    let? fl := read_u32 data (offset + 24) le in
    let? al := read_u32 data (offset + 28) le in
    Ok (mkPh t fl off va pa fs ms al).

(** [align > 0 && (align & (align - 1)) != 0] *)
Definition bad_align (align : Z) : bool := (0 <? align) && negb (Z.land align (align - 1) =? 0).

Definition ph_validate (ph : ProgramHeader) (file_size : Z) : ER unit :=
  let? _ := (if 0 <? p_filesz ph then
               let? end_ := checked_add (p_offset ph) (p_filesz ph) in
               if file_size <? end_ then Err InvalidOffset else Ok tt
             else Ok tt) in
  if p_memsz ph <? p_filesz ph then Err InvalidProgramHeader else
  if bad_align (p_align ph) then Err InvalidAlignment else
  if (1 <? p_align ph) && negb (p_vaddr ph `mod` p_align ph =? p_offset ph `mod` p_align ph) then Err InvalidAlignment else
  Ok tt.

Definition is_loadable (ph : ProgramHeader) : bool := bool_decide (segment_type ph = Load).
Definition has_data (ph : ProgramHeader) : bool := 0 <? p_filesz ph.
Definition virtual_range (ph : ProgramHeader) : ER (Z * Z) := let? e := add64 (p_vaddr ph) (p_memsz ph) in Ok (p_vaddr ph, e).
Definition file_range (ph : ProgramHeader) : ER (Z * Z) := let? e := add64 (p_offset ph) (p_filesz ph) in Ok (p_offset ph, e).

(** ** Tables of headers: [ProgramHeaderIter] and [SectionHeaderIter]

    The iterators differ in the parser they call and the fields of the file
    header they read. *)
Record TableIter := mkIter {
  it_data : list Z; it_offset : Z; it_count : Z; it_current : Z; it_entry_size : Z; it_64 : bool; it_le : bool;
}.

Definition ph_iter_new (f : ElfFile) : TableIter :=
  let h := header f in mkIter (elf_data f) (phoff h) (phnum h) 0 (phentsize h) (is_64bit h) (is_little_endian h).

Definition sh_iter_new (f : ElfFile) : TableIter :=
  let h := header f in mkIter (elf_data f) (shoff h) (shnum h) 0 (shentsize h) (is_64bit h) (is_little_endian h).

Definition EntryParser (A : Type) : Type := list Z → Z → bool → bool → ER A.

(** The entry at [index], without the check against the count. *)
Definition iter_at {A} (parse : EntryParser A) (it : TableIter) (index : Z) : ER A :=
  let? rel := mul64 index (it_entry_size it) in
  let? offset := add64 (it_offset it) rel in
  parse (it_data it) offset (it_64 it) (it_le it).

Definition iter_get {A} (parse : EntryParser A) (it : TableIter) (index : Z) : ER A :=
  if it_count it <=? index then Err IndexOutOfBounds else iter_at parse it index.

Definition iter_next {A} (parse : EntryParser A) (it : TableIter) : option (ER A) * TableIter :=
  if it_count it <=? it_current it then (None, it) else
  (Some (iter_at parse it (it_current it)),
   mkIter (it_data it) (it_offset it) (it_count it) (it_current it + 1) (it_entry_size it) (it_64 it) (it_le it)).

(** ** Section headers ([section.rs]) *)
Inductive SectionType : Type :=
  | STNull | ProgBits | SymTab | StrTab | Rela | Hash | STDynamic | STNote | NoBits | Rel | STShLib | DynSym
  | InitArray | FiniArray | PreInitArray | Group | SymTabShndx | Compressed | GnuVerDef | GnuVerNeed | GnuVerSym.
#[export] Instance section_type_eq_dec : EqDecision SectionType.
Proof. solve_decision. Defined.

Definition section_type_of (v : Z) : ER SectionType :=
  match v with
  | 0 => Ok STNull | 1 => Ok ProgBits | 2 => Ok SymTab | 3 => Ok StrTab | 4 => Ok Rela | 5 => Ok Hash
  | 6 => Ok STDynamic | 7 => Ok STNote | 8 => Ok NoBits | 9 => Ok Rel | 10 => Ok STShLib | 11 => Ok DynSym
  | 14 => Ok InitArray | 15 => Ok FiniArray | 16 => Ok PreInitArray | 17 => Ok Group | 18 => Ok SymTabShndx
  | 0x0ff00000 => Ok Compressed | 0x6ffffffd => Ok GnuVerDef | 0x6ffffffe => Ok GnuVerNeed | 0x6fffffff => Ok GnuVerSym
  | _ => Err InvalidSectionHeader
  end.

Record SectionHeader := mkSh {
  s_name : Z; section_type : SectionType; s_flags : Z; s_addr : Z; s_offset : Z; s_size : Z; s_link : Z; s_info : Z;
  s_addralign : Z; s_entsize : Z;
}.

(** A flag of [SectionFlags], by its mask. *)
Definition section_flag (mask : Z) (s : SectionHeader) : bool := negb (Z.land (s_flags s) mask =? 0).

Definition sh_parse (data : list Z) (offset : Z) (is64 le : bool) : ER SectionHeader :=
  let? end_ := add64 offset (if is64 then 64 else 40) in
  if zlen data <? end_ then Err BufferTooSmall else
  let? n := read_u32 data offset le in
  let? t := read_u32 data (offset + 4) le in
  let? t := section_type_of t in
  if is64 then
    let? fl := read_u64 data (offset + 8) le in
    let? ad := read_u64 data (offset + 16) le in
    let? off := read_u64 data (offset + 24) le in
    let? sz := read_u64 data (offset + 32) le in
    let? li := read_u32 data (offset + 40) le in
    let? inf := read_u32 data (offset + 44) le in
    let? al := read_u64 data (offset + 48) le in
    let? es := read_u64 data (offset + 56) le in
    Ok (mkSh n t fl ad off sz li inf al es)
  else
    let? fl := read_u32 data (offset + 8) le in
    let? ad := read_u32 data (offset + 12) le in
    let? off := read_u32 data (offset + 16) le in
    let? sz := read_u32 data (offset + 20) le in
    let? li := read_u32 data (offset + 24) le in
    let? inf := read_u32 data (offset + 28) le in
    let? al := read_u32 data (offset + 32) le in
    let? es := read_u32 data (offset + 36) le in
    Ok (mkSh n t fl ad off sz li inf al es).

Definition sh_validate (s : SectionHeader) (file_size : Z) : ER unit :=
  let? _ := (if bool_decide (section_type s ≠ NoBits) && (0 <? s_size s) then
               let? end_ := checked_add (s_offset s) (s_size s) in
               if file_size <? end_ then Err InvalidOffset else Ok tt
             else Ok tt) in
  if bad_align (s_addralign s) then Err InvalidAlignment else
  if (1 <? s_addralign s) && negb (s_addr s `mod` s_addralign s =? 0) then Err InvalidAlignment else
  Ok tt.

(** [SectionHeader::data] *)
Definition sh_data (s : SectionHeader) (file : list Z) : ER (list Z) :=
  if bool_decide (section_type s = NoBits) then Ok [] else
  if s_size s =? 0 then Ok [] else
  let? end_ := checked_add (s_offset s) (s_size s) in
  if zlen file <? end_ then Err InvalidOffset else
  slice (s_offset s) end_ file.

Definition is_alloc (s : SectionHeader) : bool := section_flag 2 s.
Definition is_string_table (s : SectionHeader) : bool := bool_decide (section_type s = StrTab).
Definition is_symbol_table (s : SectionHeader) : bool :=
  match section_type s with SymTab | DynSym => true | _ => false end.
Definition is_relocation_table (s : SectionHeader) : bool :=
  match section_type s with Rel | Rela => true | _ => false end.

(** [StringTable::get_string]: the bytes from the offset to the next zero or the end of the table. *)
Definition get_string (table : list Z) (offset : Z) : ER (list Z) :=
  if zlen table <=? offset then Err InvalidOffset else
  let? rest := slice offset (zlen table) table in
  let end_ := match find_index (λ b, b =? 0) rest with Some pos => offset + Z.of_nat pos | None => zlen table end in
  let? bs := slice offset end_ table in
  match from_utf8 bs with Some s => Ok s | None => Err InvalidStringTable end.

(** ** Symbols ([symbol.rs]) *)
Inductive SymbolBinding : Type := Local | Global | Weak.
Inductive SymbolType : Type := NoType | Object | Func | SecSym | FileSym | CommonSym | TlsSym.
Inductive SymbolVisibility : Type := Default | Internal | Hidden | Protected.
Inductive SymbolSection : Type := Undefined | Absolute | Common | Index (i : Z).

Definition section_from_raw (index : Z) : SymbolSection :=
  match index with 0 => Undefined | 0xfff1 => Absolute | 0xfff2 => Common | i => Index i end.
Definition section_raw (s : SymbolSection) : Z :=
  match s with Undefined => 0 | Absolute => 0xfff1 | Common => 0xfff2 | Index i => i end.

Record Symbol := mkSymbol {
  sym_name : Z; binding : SymbolBinding; symbol_type : SymbolType; visibility : SymbolVisibility;
  sym_value : Z; sym_size : Z; sym_section : SymbolSection;
}.

(** The three matches on [info] and [other], the same in both classes. *)
Definition symbol_kind (info other : Z) : ER (SymbolBinding * SymbolType * SymbolVisibility) :=
  let? b := (match Z.shiftr info 4 with 0 => Ok Local | 1 => Ok Global | 2 => Ok Weak | _ => Err InvalidSymbol end) in
  let? t := (match Z.land info 0xf with
             | 0 => Ok NoType | 1 => Ok Object | 2 => Ok Func | 3 => Ok SecSym | 4 => Ok FileSym | 5 => Ok CommonSym
             | 6 => Ok TlsSym | _ => Err InvalidSymbol
             end) in
  let? v := (match Z.land other 0x3 with
             | 0 => Ok Default | 1 => Ok Internal | 2 => Ok Hidden | 3 => Ok Protected | _ => Err InvalidSymbol
             end) in
  Ok (b, t, v).

Definition symbol_parse (data : list Z) (offset : Z) (is64 le : bool) : ER Symbol :=
  let? end_ := add64 offset (if is64 then 24 else 16) in
  if zlen data <? end_ then Err BufferTooSmall else
  if is64 then
    let? n := read_u32 data offset le in
    let? info := byte_at data (offset + 4) in
    let? other := byte_at data (offset + 5) in
    let? shndx := read_u16 data (offset + 6) le in
    let? value := read_u64 data (offset + 8) le in
    let? size := read_u64 data (offset + 16) le in
    let? (b, t, v) := symbol_kind info other in
    Ok (mkSymbol n b t v value size (section_from_raw shndx))
  else
    let? n := read_u32 data offset le in
    let? value := read_u32 data (offset + 4) le in
    let? size := read_u32 data (offset + 8) le in
    let? info := byte_at data (offset + 12) in
    let? other := byte_at data (offset + 13) in
    let? shndx := read_u16 data (offset + 14) le in
    let? (b, t, v) := symbol_kind info other in
    Ok (mkSymbol n b t v value size (section_from_raw shndx)).

Definition is_undefined (s : Symbol) : bool := match sym_section s with Undefined => true | _ => false end.
Definition is_global (s : Symbol) : bool := match binding s with Global => true | _ => false end.
Definition is_weak (s : Symbol) : bool := match binding s with Weak => true | _ => false end.
Definition is_function (s : Symbol) : bool := match symbol_type s with Func => true | _ => false end.
Definition is_object (s : Symbol) : bool := match symbol_type s with Object => true | _ => false end.

(** [SymbolIter]: a table at offset 0 of its section's data. *)
Definition symbol_iter_new (section_data : list Z) (is64 le : bool) : ER TableIter :=
  let entry_size := if is64 then 24 else 16 in
  if negb (zlen section_data `mod` entry_size =? 0) then Err InvalidSymbol else
  Ok (mkIter section_data 0 (zlen section_data / entry_size) 0 entry_size is64 le).

Record SymbolTable := mkSymTab { symbols : TableIter; string_table : option (list Z) }.

Definition symbol_table_new (symbol_data : list Z) (string_data : option (list Z)) (is64 le : bool) : ER SymbolTable :=
  let? it := symbol_iter_new symbol_data is64 le in Ok (mkSymTab it string_data).

Definition get_symbol (t : SymbolTable) (index : Z) : ER Symbol := iter_get symbol_parse (symbols t) index.

Definition get_symbol_name (t : SymbolTable) (index : Z) : ER (option (list Z)) :=
  let? s := get_symbol t index in
  if sym_name s =? 0 then Ok None else
  match string_table t with
  | Some strtab => let? n := get_string strtab (sym_name s) in Ok (Some n)
  | None => Ok None
  end.

Fixpoint find_symbol_loop (t : SymbolTable) (name : list Z) (ids : list Z) : ER (option (Z * Symbol)) :=
  match ids with
  | [] => Ok None
  | i :: ids =>
      let? s := get_symbol t i in
      let? n := get_symbol_name t i in
      if bool_decide (n = Some name) then Ok (Some (i, s)) else find_symbol_loop t name ids
  end.

Definition find_symbol (t : SymbolTable) (name : list Z) : ER (option (Z * Symbol)) :=
  find_symbol_loop t name (seqZ 0 (it_count (symbols t))).

(** The symbols of a table that satisfy [f], in order, with their indices. *)
Fixpoint select_symbols (t : SymbolTable) (f : Symbol → bool) (ids : list Z) : ER (list (Z * Symbol)) :=
  match ids with
  | [] => Ok []
  | i :: ids =>
      let? s := get_symbol t i in
      let? rest := select_symbols t f ids in
      Ok (if f s then (i, s) :: rest else rest)
  end.

Definition global_symbols (t : SymbolTable) : ER (list (Z * Symbol)) :=
  select_symbols t is_global (seqZ 0 (it_count (symbols t))).

Record SymbolResolver := mkResolver { main_table : option SymbolTable; dynamic_table : option SymbolTable }.

Definition resolver_new : SymbolResolver := mkResolver None None.
Definition set_symbol_table (t : SymbolTable) (r : SymbolResolver) : SymbolResolver := mkResolver (Some t) (dynamic_table r).
Definition set_dynamic_table (t : SymbolTable) (r : SymbolResolver) : SymbolResolver := mkResolver (main_table r) (Some t).

(** One table of the resolver; an absent table has no symbol. *)
Definition find_in (t : option SymbolTable) (name : list Z) : ER (option Symbol) :=
  match t with
  | Some t => let? r := find_symbol t name in Ok (snd <$> r)
  | None => Ok None
  end.

Definition resolve (r : SymbolResolver) (name : list Z) : ER (option Symbol) :=
  let? d := find_in (dynamic_table r) name in
  match d with
  | Some s => Ok (Some s)
  | None => find_in (main_table r) name
  end.

Definition undefined_in (t : option SymbolTable) : ER (list Symbol) :=
  match t with
  | Some t => let? l := select_symbols t is_undefined (seqZ 0 (it_count (symbols t))) in Ok (snd <$> l)
  | None => Ok []
  end.

Definition undefined_symbols (r : SymbolResolver) : ER (list Symbol) :=
  let? d := undefined_in (dynamic_table r) in
  let? m := undefined_in (main_table r) in
  Ok (d ++ m).

(** ** No panics

    A call is quiet when it returns, with a value or an error. *)
Definition quiet {A} (r : ER A) : Prop := match r with Ok _ | Err _ => True | _ => False end.

Create HintDb quiet.

Lemma quiet_bind {A B} (m : ER A) (k : A → ER B) : quiet m → (∀ a, m = Ok a → quiet (k a)) → quiet (rbind m k).
Proof. destruct m; cbn; intros Hm Hk; [by apply Hk|done..]. Qed.

Lemma quiet_if {A} (b : bool) (x y : ER A) : (b = true → quiet x) → (b = false → quiet y) → quiet (if b then x else y).
Proof. destruct b; auto. Qed.

Lemma quiet_ok {A} (a : A) : quiet (Ok a).
Proof. done. Qed.

Lemma quiet_err {A} e : quiet (@Err _ A e).
Proof. done. Qed.

Lemma read_int_ok n data off le :
  0 ≤ n → 0 ≤ off → off + n ≤ zlen data → bytes_ok data →
  ∃ v, read_int n data off le = Ok v ∧ 0 ≤ v < 2 ^ (n * 8).
Proof.
  intros Hn Ho Hl Hb. unfold read_int. rewrite slice_ok by lia. cbn [rbind]. eexists. split; [done|].
  replace (off + n - off) with n by lia. set (bs := field _ _ _).
  assert (bytes_ok bs ∧ zlen bs = n) as [Hbs Hlen].
  { unfold bs, field, zlen in *. split; [by apply Forall_take, Forall_drop|]. len. }
  assert (bytes_ok (if le then bs else reverse bs) ∧ zlen (if le then bs else reverse bs) = n) as [H1 H2].
  { destruct le; [done|]. unfold zlen. rewrite length_reverse. split; [by apply Forall_reverse|done]. }
  pose proof (le_dec_bound _ H1) as Hd. by rewrite H2 in Hd.
Qed.

Lemma read_int_quiet n data off le : 0 ≤ n → 0 ≤ off → off + n ≤ zlen data → quiet (read_int n data off le).
Proof. intros. unfold read_int. by rewrite slice_ok by lia. Qed.

Lemma byte_at_ok data i : 0 ≤ i < zlen data → ∃ b, byte_at data i = Ok b ∧ data !! Z.to_nat i = Some b.
Proof.
  intros Hi. unfold byte_at. destruct (lookup_lt_is_Some_2 data (Z.to_nat i)) as [b Hb]; [unfold zlen in Hi; lia|].
  rewrite Hb, (proj2 (Z.leb_le 0 i)) by lia. by exists b.
Qed.

Lemma byte_at_quiet data i : 0 ≤ i < zlen data → quiet (byte_at data i).
Proof. intros Hi. destruct (byte_at_ok data i Hi) as (b & -> & _). done. Qed.

Lemma checked_add_quiet a b : quiet (checked_add a b).
Proof. unfold checked_add. by destruct (_ <? _). Qed.

#[export] Hint Resolve quiet_ok quiet_err checked_add_quiet : quiet.

(** Walk through a sequence of reads, comparisons and matches on what was read. *)
Ltac quiet_step :=
  match goal with
  | |- quiet (rbind _ _) => apply quiet_bind; [|intros ? ?]
  | |- quiet (if _ then _ else _) => apply quiet_if; intros ?
  | |- quiet (read_int _ _ _ _) => apply read_int_quiet; lia
  | |- quiet (read_u16 _ _ _) => apply read_int_quiet; lia
  | |- quiet (read_u32 _ _ _) => apply read_int_quiet; lia
  | |- quiet (read_u64 _ _ _) => apply read_int_quiet; lia
  | |- quiet (byte_at _ _) => apply byte_at_quiet; lia
  | |- quiet (let '(_, _) := ?x in _) => destruct x
  | |- quiet (match ?x with _ => _ end) => destruct x
  | |- quiet _ => solve [auto with quiet]
  end.
Ltac quiet := repeat quiet_step.

Lemma file_type_quiet v : quiet (file_type_of v).
Proof. unfold file_type_of. quiet. Qed.
Lemma machine_quiet v : quiet (machine_of v).
Proof. unfold machine_of. quiet. Qed.
Lemma program_type_quiet v : quiet (program_type_of v).
Proof. unfold program_type_of. quiet. Qed.
Lemma section_type_quiet v : quiet (section_type_of v).
Proof. unfold section_type_of. quiet. Qed.
Lemma symbol_kind_quiet i o : quiet (symbol_kind i o).
Proof. unfold symbol_kind. quiet. Qed.
#[export] Hint Resolve file_type_quiet machine_quiet program_type_quiet section_type_quiet symbol_kind_quiet : quiet.

Lemma ident_quiet data : quiet (ident_parse data).
Proof.
  unfold ident_parse. apply quiet_if; [done|]. intros Hl%Z.ltb_ge. rewrite !slice_ok by lia. cbn [rbind]. quiet.
Qed.
#[export] Hint Resolve ident_quiet : quiet.

Lemma ident_len data i : ident_parse data = Ok i → 16 ≤ zlen data.
Proof. unfold ident_parse. destruct (zlen data <? 16) eqn:E; [done|]. intros _. by apply Z.ltb_ge. Qed.

Lemma header_quiet data : quiet (elf_header_parse data).
Proof.
  unfold elf_header_parse. apply quiet_bind; [auto with quiet|]. intros i Hi. apply quiet_if; [done|]. intros Hl%Z.ltb_ge.
  destruct (class i); cbn [by_class] in *; quiet.
Qed.

(** ** What a parsed value satisfies *)
Lemma bind_inv {A B} (m : ER A) (k : A → ER B) b : rbind m k = Ok b → ∃ a, m = Ok a ∧ k a = Ok b.
Proof. destruct m; cbn; [eauto|done..]. Qed.

Lemma read_int_inv n data off le v : read_int n data off le = Ok v → bytes_ok data → 0 ≤ n → 0 ≤ v < 2 ^ (n * 8).
Proof.
  intros E Hb Hn. destruct (decide (0 ≤ off ∧ off + n ≤ zlen data)) as [[H0 H1]|Hno].
  - destruct (read_int_ok n data off le Hn H0 H1 Hb) as (w & Ew & Hw). rewrite E in Ew. by injection Ew as <-.
  - unfold read_int, slice in E. rewrite bool_decide_eq_false_2 in E by lia. done.
Qed.

(** Invert a successful sequence: one equation per step, with the range of each integer read. *)
Ltac parse_inv H :=
  repeat match type of H with
  | rbind _ _ = Ok _ =>
      let a := fresh "v" in let E := fresh "E" in
      apply bind_inv in H as (a & E & H)
  | (if ?b then Err _ else _) = Ok _ => destruct b eqn:?; [discriminate H|]
  | (let '(_, _) := ?x in _) = Ok _ => destruct x
  end;
  repeat match goal with
  | E : read_u16 _ _ _ = Ok _ |- _ => apply read_int_inv in E; [|assumption|lia]
  | E : read_u32 _ _ _ = Ok _ |- _ => apply read_int_inv in E; [|assumption|lia]
  | E : read_u64 _ _ _ = Ok _ |- _ => apply read_int_inv in E; [|assumption|lia]
  end.

Record header_ranges (h : ElfHeader) : Prop := {
  hr_entry : in_u 64 (entry h);
  hr_phoff : in_u 64 (phoff h); hr_shoff : in_u 64 (shoff h);
  hr_phentsize : in_u 16 (phentsize h); hr_phnum : in_u 16 (phnum h);
  hr_shentsize : in_u 16 (shentsize h); hr_shnum : in_u 16 (shnum h); hr_shstrndx : in_u 16 (shstrndx h);
}.

Lemma header_parse_ranges data h : bytes_ok data → elf_header_parse data = Ok h → header_ranges h.
Proof.
  intros Hb H. unfold elf_header_parse in H. apply bind_inv in H as (i & _ & H).
  destruct (class i); cbn [by_class] in H; parse_inv H; injection H as <-;
    match goal with E : context [read_u32 data 24] |- _ => parse_inv E | E : context [read_u64 data 24] |- _ => parse_inv E end;
    simplify_eq/=; split; unfold in_u; cbn [entry phoff shoff phentsize phnum shentsize shnum shstrndx]; lia.
Qed.

Record sh_ranges (s : SectionHeader) : Prop := {
  sr_offset : in_u 64 (s_offset s); sr_size : in_u 64 (s_size s); sr_addr : in_u 64 (s_addr s);
  sr_link : in_u 32 (s_link s);
}.

Lemma sh_parse_ranges data off is64 le s : bytes_ok data → sh_parse data off is64 le = Ok s → sh_ranges s.
Proof.
  intros Hb H. unfold sh_parse in H. parse_inv H. destruct is64; parse_inv H; injection H as <-; split; unfold in_u; cbn; lia.
Qed.

Record ph_ranges (ph : ProgramHeader) : Prop := {
  pr_offset : in_u 64 (p_offset ph); pr_vaddr : in_u 64 (p_vaddr ph); pr_filesz : in_u 64 (p_filesz ph);
  pr_memsz : in_u 64 (p_memsz ph); pr_align : in_u 64 (p_align ph); pr_flags : in_u 32 (p_flags ph);
}.

Lemma ph_parse_ranges data off is64 le ph : bytes_ok data → ph_parse data off is64 le = Ok ph → ph_ranges ph.
Proof.
  intros Hb H. unfold ph_parse in H. parse_inv H. destruct is64; parse_inv H; injection H as <-; split; unfold in_u; cbn; lia.
Qed.

(** ** Tables *)

(** A parser that reads [size] bytes at its offset and nothing else. *)
Class SizedParser {A} (parse : EntryParser A) (size : bool → Z) : Prop := {
  sp_pos : ∀ is64, 0 < size is64;
  sp_quiet : ∀ data off is64 le, 0 ≤ off → off + size is64 ≤ zlen data → zlen data < 2 ^ 64 →
    quiet (parse data off is64 le) ∧ parse data off is64 le ≠ Err BufferTooSmall;
}.

(** A quiet sequence whose errors are its own. *)
Definition clean {A} (r : ER A) : Prop := quiet r ∧ r ≠ Err BufferTooSmall.

Lemma clean_bind {A B} (m : ER A) (k : A → ER B) : clean m → (∀ a, m = Ok a → clean (k a)) → clean (rbind m k).
Proof. destruct m; cbn; intros [Hm He] Hk; [by apply Hk|split; [done|intros [= ->]; by apply He]|done..]. Qed.

Lemma clean_read n data off le : 0 ≤ n → 0 ≤ off → off + n ≤ zlen data → clean (read_int n data off le).
Proof. intros. unfold read_int. by rewrite slice_ok by lia. Qed.

Lemma clean_byte data i : 0 ≤ i < zlen data → clean (byte_at data i).
Proof. intros Hi. destruct (byte_at_ok data i Hi) as (b & -> & _). done. Qed.

Ltac clean_step :=
  match goal with
  | |- clean (rbind _ _) => apply clean_bind; [|intros ? ?]
  | |- clean (read_u16 _ _ _) => apply clean_read; lia
  | |- clean (read_u32 _ _ _) => apply clean_read; lia
  | |- clean (read_u64 _ _ _) => apply clean_read; lia
  | |- clean (byte_at _ _) => apply clean_byte; lia
  | |- clean (let '(_, _) := ?x in _) => destruct x
  | |- clean (match ?x with _ => _ end) => destruct x
  | |- clean (Ok _) => done
  | |- clean (Err _) => done
  end.
Ltac clean := repeat clean_step.

#[export] Instance ph_sized : SizedParser ph_parse (λ is64, if is64 then 56 else 32).
Proof.
  split; [by intros []|]. intros data off is64 le H0 Hl Hlen. change (clean (ph_parse data off is64 le)).
  unfold ph_parse, add64. rewrite chk_ok by (destruct is64; lia). cbn [rbind]. rewrite (proj2 (Z.ltb_ge _ _)) by lia.
  destruct is64; clean; unfold program_type_of; clean.
Qed.

#[export] Instance sh_sized : SizedParser sh_parse (λ is64, if is64 then 64 else 40).
Proof.
  split; [by intros []|]. intros data off is64 le H0 Hl Hlen. change (clean (sh_parse data off is64 le)).
  unfold sh_parse, add64. rewrite chk_ok by (destruct is64; lia). cbn [rbind]. rewrite (proj2 (Z.ltb_ge _ _)) by lia.
  destruct is64; clean; unfold section_type_of; clean.
Qed.

#[export] Instance symbol_sized : SizedParser symbol_parse (λ is64, if is64 then 24 else 16).
Proof.
  split; [by intros []|]. intros data off is64 le H0 Hl Hlen. change (clean (symbol_parse data off is64 le)).
  unfold symbol_parse, add64. rewrite chk_ok by (destruct is64; lia). cbn [rbind]. rewrite (proj2 (Z.ltb_ge _ _)) by lia.
  destruct is64; clean; unfold symbol_kind; clean.
Qed.

(** The table lies inside the data and its entries have the parser's size. *)
Record table_ok (size : bool → Z) (it : TableIter) : Prop := {
  to_len : zlen (it_data it) < 2 ^ 63;
  to_off : 0 ≤ it_offset it;
  to_count : 0 ≤ it_count it;
  to_inside : 0 < it_count it → it_entry_size it = size (it_64 it) ∧ it_offset it + it_count it * size (it_64 it) ≤ zlen (it_data it);
}.

Lemma iter_get_clean {A} (parse : EntryParser A) size `{!SizedParser parse size} it i :
  table_ok size it → 0 ≤ i →
  quiet (iter_get parse it i) ∧ (i < it_count it → iter_get parse it i ≠ Err BufferTooSmall).
Proof.
  intros [Hlen Ho Hc Hin] Hi. unfold iter_get. destruct (_ <=? i) eqn:E; [apply Z.leb_le in E; split; [done|lia]|].
  apply Z.leb_gt in E. destruct (Hin ltac:(lia)) as [Es He]. pose proof (sp_pos (it_64 it)) as Hp.
  unfold iter_at, mul64, add64. rewrite Es. assert (i * size (it_64 it) + size (it_64 it) ≤ it_count it * size (it_64 it)) by nia.
  assert (0 ≤ i * size (it_64 it)) by nia. rewrite chk_ok by lia. cbn [rbind]. rewrite chk_ok by lia. cbn [rbind].
  destruct (sp_quiet (it_data it) (it_offset it + i * size (it_64 it)) (it_64 it) (it_le it)) as [Hq Hb]; [lia..|]. by split.
Qed.

Lemma check_table_quiet num off entsize expected len e :
  in_u 16 num → in_u 16 entsize → quiet (check_table num off entsize expected len e).
Proof.
  unfold in_u. intros Hn He. unfold check_table. apply quiet_if; intros ?; [done|]. apply quiet_if; intros ?; [done|].
  unfold mul64. rewrite chk_ok by nia. quiet.
Qed.

Lemma check_table_ok num off entsize expected len e :
  0 < num → 0 ≤ off → check_table num off entsize expected len e = Ok tt → entsize = expected ∧ off + num * expected ≤ len.
Proof.
  intros Hn Ho. unfold check_table. rewrite (proj2 (Z.eqb_neq num 0)) by lia. destruct (entsize =? expected) eqn:E; [|done]. cbn [negb].
  apply Z.eqb_eq in E as ->. intros H. apply bind_inv in H as (s & [-> _]%chk_inv & H). apply bind_inv in H as (e' & He & H).
  unfold checked_add in He. destruct (_ <? 2 ^ 64); [|done]. injection He as <-. destruct (len <? _) eqn:El; [done|].
  apply Z.ltb_ge in El. done.
Qed.

Record parsed (data : list Z) (f : ElfFile) : Prop := {
  pa_data : elf_data f = data;
  pa_header : elf_header_parse data = Ok (header f);
  pa_ph : table_ok (λ is64, if is64 then 56 else 32) (ph_iter_new f);
  pa_sh : table_ok (λ is64, if is64 then 64 else 40) (sh_iter_new f);
}.

Lemma elf_parse_ok data :
  bytes_ok data → zlen data < 2 ^ 63 → quiet (elf_parse data) ∧ ∀ f, elf_parse data = Ok f → parsed data f.
Proof.
  intros Hb Hl. unfold elf_parse. split.
  - apply quiet_bind; [apply header_quiet|]. intros h Hh. destruct (header_parse_ranges data h Hb Hh).
    apply quiet_if; intros _; [done|]. apply quiet_bind; [by apply check_table_quiet|]. intros _ _.
    apply quiet_bind; [by apply check_table_quiet|]. intros _ _. quiet.
  - intros f H. apply bind_inv in H as (h & Hh & H). destruct (header_parse_ranges data h Hb Hh).
    destruct (negb _); [done|]. apply bind_inv in H as ([] & Hp & H). apply bind_inv in H as ([] & Hs & H).
    destruct (_ && _); [done|]. injection H as <-. unfold in_u in *.
    split; [done|done|split|split]; cbn; try lia; intros Hpos.
    + apply check_table_ok in Hp as [E1 E2]; [|lia..]. unfold is_64bit.
      destruct (class (ident h)); cbn [by_class] in *; [rewrite bool_decide_eq_false_2 by done|rewrite bool_decide_eq_true_2 by done]; done.
    + apply check_table_ok in Hs as [E1 E2]; [|lia..]. unfold is_64bit.
      destruct (class (ident h)); cbn [by_class] in *; [rewrite bool_decide_eq_false_2 by done|rewrite bool_decide_eq_true_2 by done]; done.
Qed.

Lemma sh_data_quiet s file : sh_ranges s → quiet (sh_data s file).
Proof.
  intros [Ho Hs _]. unfold in_u in *. unfold sh_data. apply quiet_if; intros _; [done|]. apply quiet_if; intros _; [done|].
  apply quiet_bind; [auto with quiet|]. intros e He. apply quiet_if; [done|]. intros Hl%Z.ltb_ge.
  unfold checked_add in He. destruct (_ <? _); [|done]. injection He as <-. by rewrite slice_ok by lia.
Qed.

Lemma get_string_quiet table off : 0 ≤ off → quiet (get_string table off).
Proof.
  intros H0. unfold get_string. apply quiet_if; [done|]. intros Hl%Z.leb_gt. rewrite slice_ok by lia. cbn [rbind].
  assert (∀ pos, find_index (λ b, b =? 0) (field (Z.to_nat off) (Z.to_nat (zlen table - off)) table) = Some pos →
    off + Z.of_nat pos ≤ zlen table) as Hpos.
  { intros pos Hp. assert (∀ l n, find_index (λ b, b =? 0) l = Some n → (n < length l)%nat) as Hlt.
    { clear. induction l as [|x l IH]; intros n; cbn; [done|]. destruct (x =? 0); [intros [= <-]; cbn; lia|].
      destruct (find_index _ l) as [m|]; [|done]. intros [= <-]. specialize (IH m eq_refl). lia. }
    apply Hlt in Hp. unfold field, zlen in *. rewrite length_take, length_drop in Hp. lia. }
  destruct (find_index _ _) as [pos|]; [specialize (Hpos pos eq_refl)|]; rewrite slice_ok by lia; cbn [rbind]; by destruct (from_utf8 _).
Qed.

(** ** The file format as a reference: structures as sequences of fields *)
Definition enc (le : bool) (f : nat * Z) : list Z := let bs := le_bytes f.1 f.2 in if le then bs else reverse bs.
Definition enc_all (le : bool) (fs : list (nat * Z)) : list Z := mjoin (enc le <$> fs).
Definition width (fs : list (nat * Z)) : nat := sum_list (fst <$> fs).

Definition field_ok (f : nat * Z) : Prop := 0 ≤ f.2 < 2 ^ (Z.of_nat f.1 * 8).

Lemma length_enc le f : length (enc le f) = f.1.
Proof. unfold enc. destruct le; rewrite ?length_reverse; apply length_le_bytes. Qed.

Lemma length_enc_all le fs : length (enc_all le fs) = width fs.
Proof.
  unfold enc_all, width. induction fs as [|f fs IH]; [done|].
  rewrite join_fmap_cons, length_app, IH, length_enc. done.
Qed.

Lemma enc_all_app le fs gs : enc_all le (fs ++ gs) = enc_all le fs ++ enc_all le gs.
Proof. unfold enc_all. by rewrite fmap_app, join_app. Qed.

Lemma read_enc le n z pre post off :
  0 ≤ z < 2 ^ (Z.of_nat n * 8) → zlen pre = off → read_int (Z.of_nat n) (pre ++ enc le (n, z) ++ post) off le = Ok z.
Proof.
  intros Hz Hoff. unfold read_int. rewrite (slice_at off (off + Z.of_nat n)) by (unfold zlen in *; rewrite ?length_enc; cbn; lia).
  cbn [rbind]. unfold enc. cbn [fst snd]. destruct le; rewrite ?reverse_involutive, le_dec_bytes; done.
Qed.

(** Reading field [i] of a structure that starts behind [pre]. *)
Lemma read_field le fs i n z pre post off :
  fs !! i = Some (n, z) → field_ok (n, z) → off = zlen pre + Z.of_nat (width (take i fs)) →
  read_int (Z.of_nat n) (pre ++ enc_all le fs ++ post) off le = Ok z.
Proof.
  intros Hi Hz ->. rewrite <-(take_drop_middle fs i (n, z) Hi), enc_all_app.
  change (enc_all le ((n, z) :: drop (S i) fs)) with (enc le (n, z) ++ enc_all le (drop (S i) fs)).
  rewrite <-!app_assoc, app_assoc. apply read_enc; [done|]. unfold zlen. rewrite length_app, length_enc_all.
  rewrite take_app_le, take_take by (apply lookup_lt_Some in Hi; rewrite length_take; lia). rewrite Nat.min_id. lia.
Qed.

(** The next read, of field [i] of a concrete structure. *)
Ltac read_at i :=
  match goal with
  | |- rbind (read_int ?n (?pre ++ enc_all ?le ?fs ++ ?post) ?off ?le) _ = _ =>
      let k := eval vm_compute in (Z.to_nat n) in
      change (read_int n) with (read_int (Z.of_nat k)) at 1;
      rewrite (read_field le fs i k _ pre post off eq_refl) by (first [assumption | cbn; lia | unfold zlen; cbn; lia]); cbn [rbind]
  end.

(** An entry type with its fields in the two classes. *)
Class EntryFormat {A} (parse : EntryParser A) (size : bool → Z) (fields_of : bool → A → list (nat * Z)) (ok : bool → A → Prop) : Prop := {
  ef_size : ∀ is64 a, Z.of_nat (width (fields_of is64 a)) = size is64;
  ef_parse : ∀ is64 le a pre post, ok is64 a → zlen (pre ++ enc_all le (fields_of is64 a) ++ post) < 2 ^ 64 →
    parse (pre ++ enc_all le (fields_of is64 a) ++ post) (zlen pre) is64 le = Ok a;
}.

(** *** Program headers *)
Definition program_type_code (t : ProgramType) : Z :=
  match t with
  | PTNull => 0 | Load => 1 | PTDynamic => 2 | Interp => 3 | PTNote => 4 | Shlib => 5 | Phdr => 6 | PTTls => 7
  | GnuEhFrame => 0x6474e550 | GnuStack => 0x6474e551 | GnuRelRo => 0x6474e552
  end.

Definition ph_fields (is64 : bool) (ph : ProgramHeader) : list (nat * Z) :=
  if is64 then
    [(4, program_type_code (segment_type ph)); (4, p_flags ph); (8, p_offset ph); (8, p_vaddr ph); (8, p_paddr ph);
     (8, p_filesz ph); (8, p_memsz ph); (8, p_align ph)]%nat
  else
    [(4, program_type_code (segment_type ph)); (4, p_offset ph); (4, p_vaddr ph); (4, p_paddr ph); (4, p_filesz ph);
     (4, p_memsz ph); (4, p_flags ph); (4, p_align ph)]%nat.

Definition fields_ok (fs : list (nat * Z)) : Prop := Forall field_ok fs.

Lemma program_type_code_of t : program_type_of (program_type_code t) = Ok t.
Proof. by destruct t. Qed.

#[export] Instance ph_format : EntryFormat ph_parse (λ is64, if is64 then 56 else 32) ph_fields (λ is64 ph, fields_ok (ph_fields is64 ph)).
Proof.
  split; [by intros []|]. intros is64 le ph pre post Hok Hlen. unfold ph_parse, read_u32, read_u64.
  assert (zlen pre + (if is64 then 56 else 32) ≤ zlen (pre ++ enc_all le (ph_fields is64 ph) ++ post)) as Hl.
  { unfold zlen. rewrite !length_app, length_enc_all. destruct is64; cbn; lia. }
  unfold add64. rewrite chk_ok by (unfold zlen in *; destruct is64; lia). cbn [rbind].
  rewrite (proj2 (Z.ltb_ge _ _)) by lia. clear Hl Hlen.
  destruct ph as [t fl off va pa fs ms al]. unfold fields_ok in Hok.
  destruct is64; cbn [ph_fields segment_type p_flags p_offset p_vaddr p_paddr p_filesz p_memsz p_align] in *;
    repeat match goal with H : Forall _ (_ :: _) |- _ => apply Forall_cons in H as [? ?] end;
    read_at 0%nat; rewrite program_type_code_of; cbn [rbind];
    read_at 1%nat; read_at 2%nat; read_at 3%nat; read_at 4%nat; read_at 5%nat; read_at 6%nat; read_at 7%nat; done.
Qed.

(** *** Section headers *)
Definition section_type_code (t : SectionType) : Z :=
  match t with
  | STNull => 0 | ProgBits => 1 | SymTab => 2 | StrTab => 3 | Rela => 4 | Hash => 5 | STDynamic => 6 | STNote => 7
  | NoBits => 8 | Rel => 9 | STShLib => 10 | DynSym => 11 | InitArray => 14 | FiniArray => 15 | PreInitArray => 16
  | Group => 17 | SymTabShndx => 18 | Compressed => 0x0ff00000 | GnuVerDef => 0x6ffffffd | GnuVerNeed => 0x6ffffffe
  | GnuVerSym => 0x6fffffff
  end.

Definition sh_fields (is64 : bool) (s : SectionHeader) : list (nat * Z) :=
  let w := if is64 then 8%nat else 4%nat in
  [(4, s_name s); (4, section_type_code (section_type s)); (w, s_flags s); (w, s_addr s); (w, s_offset s); (w, s_size s);
   (4, s_link s); (4, s_info s); (w, s_addralign s); (w, s_entsize s)]%nat.

Lemma section_type_code_of t : section_type_of (section_type_code t) = Ok t.
Proof. by destruct t. Qed.

#[export] Instance sh_format : EntryFormat sh_parse (λ is64, if is64 then 64 else 40) sh_fields (λ is64 s, fields_ok (sh_fields is64 s)).
Proof.
  split; [by intros []|]. intros is64 le s pre post Hok Hlen. unfold sh_parse, read_u32, read_u64.
  assert (zlen pre + (if is64 then 64 else 40) ≤ zlen (pre ++ enc_all le (sh_fields is64 s) ++ post)) as Hl.
  { unfold zlen. rewrite !length_app, length_enc_all. destruct is64; cbn; lia. }
  unfold add64. rewrite chk_ok by (unfold zlen in *; destruct is64; lia). cbn [rbind].
  rewrite (proj2 (Z.ltb_ge _ _)) by lia. clear Hl Hlen.
  destruct s as [n t fl ad off sz li inf al es]. unfold fields_ok in Hok.
  unfold sh_fields in *. destruct is64; cbn [s_name section_type s_flags s_addr s_offset s_size s_link s_info s_addralign s_entsize] in *;
    repeat match goal with H : Forall _ (_ :: _) |- _ => apply Forall_cons in H as [? ?] end;
    read_at 0%nat; read_at 1%nat; rewrite section_type_code_of; cbn [rbind];
    read_at 2%nat; read_at 3%nat; read_at 4%nat; read_at 5%nat; read_at 6%nat; read_at 7%nat; read_at 8%nat; read_at 9%nat; done.
Qed.

(** *** Symbols *)
Definition binding_code (b : SymbolBinding) : Z := match b with Local => 0 | Global => 1 | Weak => 2 end.
Definition symbol_type_code (t : SymbolType) : Z :=
  match t with NoType => 0 | Object => 1 | Func => 2 | SecSym => 3 | FileSym => 4 | CommonSym => 5 | TlsSym => 6 end.
Definition visibility_code (v : SymbolVisibility) : Z :=
  match v with Default => 0 | Internal => 1 | Hidden => 2 | Protected => 3 end.
Definition info_code (s : Symbol) : Z := binding_code (binding s) * 16 + symbol_type_code (symbol_type s).

Definition symbol_fields (is64 : bool) (s : Symbol) : list (nat * Z) :=
  if is64 then
    [(4, sym_name s); (1, info_code s); (1, visibility_code (visibility s)); (2, section_raw (sym_section s));
     (8, sym_value s); (8, sym_size s)]%nat
  else
    [(4, sym_name s); (4, sym_value s); (4, sym_size s); (1, info_code s); (1, visibility_code (visibility s));
     (2, section_raw (sym_section s))]%nat.

Definition symbol_ok (is64 : bool) (s : Symbol) : Prop :=
  fields_ok (symbol_fields is64 s) ∧ section_from_raw (section_raw (sym_section s)) = sym_section s.

Lemma symbol_kind_code s : symbol_kind (info_code s) (visibility_code (visibility s)) = Ok (binding s, symbol_type s, visibility s).
Proof. destruct s as [n b t v val sz sec]. by destruct b, t, v. Qed.

Lemma byte_field le fs i z pre post off :
  fs !! i = Some (1%nat, z) → field_ok (1%nat, z) → off = zlen pre + Z.of_nat (width (take i fs)) →
  byte_at (pre ++ enc_all le fs ++ post) off = Ok z.
Proof.
  intros Hi Hz Ho. pose proof (read_field le fs i 1 z pre post off Hi Hz Ho) as Hr.
  unfold read_int, slice in Hr. case_bool_decide as Hb; [|done]. cbn [rbind] in Hr.
  destruct (byte_at_ok (pre ++ enc_all le fs ++ post) off) as (b & -> & Hl); [lia|]. f_equal.
  replace (off + Z.of_nat 1 - off) with 1 in Hr by lia. change (Z.to_nat 1) with 1%nat in Hr. unfold field in Hr.
  rewrite (drop_S _ b (Z.to_nat off)) in Hr by done. cbn [take] in Hr.
  change (take 0 _) with (@nil Z) in Hr. injection Hr as <-.
  assert (le_dec [b] = b) as Hb1 by (unfold le_dec; cbn; apply Z.lor_0_r). by destruct le.
Qed.

Ltac byte_read i :=
  match goal with
  | |- rbind (byte_at (?pre ++ enc_all ?le ?fs ++ ?post) ?off) _ = _ =>
      rewrite (byte_field le fs i _ pre post off eq_refl) by (first [assumption | cbn; lia | unfold zlen; cbn; lia]); cbn [rbind]
  end.

#[export] Instance symbol_format : EntryFormat symbol_parse (λ is64, if is64 then 24 else 16) symbol_fields symbol_ok.
Proof.
  split; [by intros []|]. intros is64 le s pre post [Hok Hsec] Hlen. unfold symbol_parse, read_u16, read_u32, read_u64.
  assert (zlen pre + (if is64 then 24 else 16) ≤ zlen (pre ++ enc_all le (symbol_fields is64 s) ++ post)) as Hl.
  { unfold zlen. rewrite !length_app, length_enc_all. destruct is64; cbn; lia. }
  unfold add64. rewrite chk_ok by (unfold zlen in *; destruct is64; lia). cbn [rbind].
  rewrite (proj2 (Z.ltb_ge _ _)) by lia. clear Hl Hlen. pose proof (symbol_kind_code s) as Hk. unfold fields_ok in Hok.
  destruct is64; cbn [symbol_fields] in *;
    repeat match goal with H : Forall _ (_ :: _) |- _ => apply Forall_cons in H as [? ?] end.
  - read_at 0%nat. byte_read 1%nat. byte_read 2%nat. read_at 3%nat. read_at 4%nat. read_at 5%nat.
    rewrite Hk. cbn [rbind]. rewrite Hsec. by destruct s.
  - read_at 0%nat. read_at 1%nat. read_at 2%nat. byte_read 3%nat. byte_read 4%nat. read_at 5%nat.
    rewrite Hk. cbn [rbind]. rewrite Hsec. by destruct s.
Qed.

(** *** Tables *)
Section tables.
Context {A : Type} (parse : EntryParser A) (size : bool → Z) (fields_of : bool → A → list (nat * Z)) (ok : bool → A → Prop).
Context `{!EntryFormat parse size fields_of ok}.

Definition enc_table (is64 le : bool) (l : list A) : list Z := enc_all le (mjoin (fields_of is64 <$> l)).

Lemma zlen_enc_table is64 le l : zlen (enc_table is64 le l) = zlen l * size is64.
Proof.
  unfold enc_table. induction l as [|a l IH]; [done|]. rewrite join_fmap_cons, enc_all_app, zlen_app, IH.
  unfold zlen at 1. rewrite length_enc_all, ef_size. unfold zlen. cbn [length]. lia.
Qed.

Lemma iter_get_table is64 le l pre post i a :
  Forall (ok is64) l → zlen (pre ++ enc_table is64 le l ++ post) < 2 ^ 63 → l !! i = Some a →
  iter_get parse (mkIter (pre ++ enc_table is64 le l ++ post) (zlen pre) (zlen l) 0 (size is64) is64 le) (Z.of_nat i) = Ok a.
Proof.
  intros Hok Hlen Hi. unfold iter_get. cbn [it_count]. pose proof (lookup_lt_Some _ _ _ Hi) as Hlt.
  rewrite (proj2 (Z.leb_gt _ _)) by (unfold zlen; lia). unfold iter_at. cbn [it_data it_offset it_entry_size it_64 it_le].
  assert (enc_table is64 le l = enc_table is64 le (take i l) ++ enc_all le (fields_of is64 a) ++ enc_table is64 le (drop (S i) l)) as E.
  { rewrite <-(take_drop_middle l i a Hi) at 1. unfold enc_table. rewrite fmap_app, fmap_cons, join_app.
    rewrite enc_all_app. f_equal. change (mjoin (?x :: ?y)) with (x ++ mjoin y). by rewrite enc_all_app. }
  pose proof (zlen_enc_table is64 le (take i l)) as Hpre. assert (zlen (take i l) = Z.of_nat i) as Ht by (unfold zlen; rewrite length_take; lia).
  rewrite Ht in Hpre. rewrite E in *. rewrite <-!app_assoc in *. rewrite app_assoc in *.
  assert (zlen (pre ++ enc_table is64 le (take i l)) = zlen pre + Z.of_nat i * size is64) as Hp by (rewrite zlen_app; lia).
  pose proof (zlen_nonneg (enc_table is64 le (take i l))). pose proof (zlen_nonneg pre).
  pose proof (zlen_app (pre ++ enc_table is64 le (take i l)) (enc_all le (fields_of is64 a) ++ enc_table is64 le (drop (S i) l) ++ post)).
  pose proof (zlen_nonneg (enc_all le (fields_of is64 a) ++ enc_table is64 le (drop (S i) l) ++ post)).
  unfold mul64, add64. rewrite chk_ok by lia. cbn [rbind]. rewrite chk_ok by lia. cbn [rbind]. rewrite <-Hp.
  apply ef_parse; [by eapply Forall_lookup_1|]. lia.
Qed.
End tables.

Lemma zlen_ph_table is64 le l : zlen (enc_table ph_fields is64 le l) = zlen l * (if is64 then 56 else 32).
Proof. exact (zlen_enc_table _ _ _ _ (EntryFormat0 := ph_format) is64 le l). Qed.
Lemma zlen_sh_table is64 le l : zlen (enc_table sh_fields is64 le l) = zlen l * (if is64 then 64 else 40).
Proof. exact (zlen_enc_table _ _ _ _ (EntryFormat0 := sh_format) is64 le l). Qed.
Lemma zlen_symbol_table is64 le l : zlen (enc_table symbol_fields is64 le l) = zlen l * (if is64 then 24 else 16).
Proof. exact (zlen_enc_table _ _ _ _ (EntryFormat0 := symbol_format) is64 le l). Qed.

(** *** The file header *)
Definition class_code (c : ElfClass) : Z := by_class c 1 2.
Definition data_code (d : ElfData) : Z := match d with LittleEndian => 1 | BigEndian => 2 end.
Definition file_type_code (t : ElfType) : Z :=
  match t with TNone => 0 | Relocatable => 1 | Executable => 2 | SharedObject => 3 | Core => 4 end.
Definition machine_code (m : ElfMachine) : Z := match m with MNone => 0 | X86_64 => 62 | AArch64 => 183 | RiscV => 243 end.

Definition ident_bytes (i : ElfIdent) : list Z :=
  magic i ++ [class_code (class i); data_code (data_encoding i); ident_version i; osabi i; abiversion i] ++ padding i.

Definition ident_ok (i : ElfIdent) : Prop := magic i = ELF_MAGIC ∧ ident_version i = 1 ∧ length (padding i) = 7%nat.

Definition header_fields (h : ElfHeader) : list (nat * Z) :=
  let w := by_class (class (ident h)) 4%nat 8%nat in
  [(2, file_type_code (file_type h)); (2, machine_code (machine h)); (4, version h); (w, entry h); (w, phoff h); (w, shoff h);
   (4, flags h); (2, ehsize h); (2, phentsize h); (2, phnum h); (2, shentsize h); (2, shnum h); (2, shstrndx h)]%nat.

Definition header_ok (h : ElfHeader) : Prop := ident_ok (ident h) ∧ version h = 1 ∧ fields_ok (header_fields h).

Lemma zlen_ident i : ident_ok i → zlen (ident_bytes i) = 16.
Proof. intros (E & _ & Hp). unfold zlen, ident_bytes. rewrite E, !length_app, Hp. done. Qed.

Lemma ident_roundtrip i rest : ident_ok i → ident_parse (ident_bytes i ++ rest) = Ok i.
Proof.
  intros Hi. pose proof (zlen_ident i Hi) as Hz. destruct Hi as (Em & Ev & Hp). unfold ident_parse.
  assert (16 ≤ zlen (ident_bytes i ++ rest)) as Hl by (rewrite zlen_app, Hz; pose proof (zlen_nonneg rest); lia).
  rewrite (proj2 (Z.ltb_ge _ _)) by done. unfold ident_bytes in *. destruct i as [m c d v o a p].
  cbn [magic class data_encoding ident_version osabi abiversion padding] in *. subst m v.
  rewrite <-!app_assoc. assert (∀ r, slice 0 4 (ELF_MAGIC ++ r) = @Ok ElfError _ ELF_MAGIC) as -> by (intros r; by apply (slice_at 0 4 [] ELF_MAGIC r)). cbn [rbind]. rewrite bool_decide_eq_false_2 by (intros []; done).
  set (tail := p ++ rest). unfold byte_at, ELF_MAGIC. cbn [app rbind].
  change (Z.to_nat 4) with 4%nat. change (Z.to_nat 5) with 5%nat. change (Z.to_nat 6) with 6%nat. change (Z.to_nat 7) with 7%nat.
  change (Z.to_nat 8) with 8%nat. cbn [lookup list_lookup Z.leb Z.compare]. 
  assert (slice 9 16 ([0x7f; 0x45; 0x4c; 0x46; class_code c; data_code d; 1; o; a] ++ p ++ rest) = @Ok ElfError _ p) as Hs.
  { apply slice_at; [done|]. unfold zlen. rewrite Hp. done. }
  cbn [app] in Hs. fold tail in Hs. destruct c, d; cbn [class_code data_code by_class rbind Z.eqb negb] in *; by rewrite Hs.
Qed.

Lemma file_type_code_of t : file_type_of (file_type_code t) = Ok t.
Proof. by destruct t. Qed.
Lemma machine_code_of m : machine_of (machine_code m) = Ok m.
Proof. by destruct m. Qed.

Lemma rbind_assoc {A B C} (m : ER A) (k : A → ER B) (k' : B → ER C) : rbind (rbind m k) k' = rbind m (λ a, rbind (k a) k').
Proof. by destruct m. Qed.

Lemma header_roundtrip h rest :
  header_ok h → elf_header_parse (ident_bytes (ident h) ++ enc_all (is_little_endian h) (header_fields h) ++ rest) = Ok h.
Proof.
  intros (Hi & Hv & Hf). unfold elf_header_parse, read_u16, read_u32, read_u64. rewrite ident_roundtrip by done. cbn [rbind].
  pose proof (zlen_ident _ Hi) as Hz. set (le := is_little_endian h) in *.
  change (bool_decide (data_encoding (ident h) = LittleEndian)) with le.
  assert (by_class (class (ident h)) 52 64 ≤ zlen (ident_bytes (ident h) ++ enc_all le (header_fields h) ++ rest)) as Hl.
  { rewrite !zlen_app, Hz. unfold zlen at 1. rewrite length_enc_all. pose proof (zlen_nonneg rest).
    unfold header_fields. destruct (class (ident h)); cbn; lia. }
  rewrite (proj2 (Z.ltb_ge _ _)) by done. clear Hl. unfold fields_ok, header_fields in *.
  set (pre := ident_bytes (ident h)) in *. clearbody le pre.
  destruct h as [i t m v e po so fl eh pe pn se sn sx].
  cbn [ident file_type machine version entry phoff shoff flags ehsize phentsize phnum shentsize shnum shstrndx] in *. subst v.
  destruct (class i); cbn [by_class] in *;
    repeat match goal with H : Forall _ (_ :: _) |- _ => apply Forall_cons in H as [? ?] end;
    read_at 0%nat; rewrite file_type_code_of; cbn [rbind]; read_at 1%nat; rewrite machine_code_of; cbn [rbind];
    read_at 2%nat; cbn [Z.eqb Pos.eqb negb];
    rewrite rbind_assoc; read_at 3%nat; rewrite rbind_assoc; read_at 4%nat; rewrite rbind_assoc; read_at 5%nat;
    read_at 6%nat; read_at 7%nat; read_at 8%nat; read_at 9%nat; read_at 10%nat; read_at 11%nat; read_at 12%nat; done.
Qed.

(** *** A whole file *)

(** The bytes of the file from [off] on. *)
Definition occurs_at (data : list Z) (off : Z) (bs : list Z) : Prop := ∃ pre post, data = pre ++ bs ++ post ∧ zlen pre = off.

Definition elf_header_bytes (h : ElfHeader) : list Z := ident_bytes (ident h) ++ enc_all (is_little_endian h) (header_fields h).

(** A file of the format: the header at its start, and the two tables wherever the header says they are. *)
Record image_ok (data : list Z) (h : ElfHeader) (phs : list ProgramHeader) (shs : list SectionHeader) : Prop := {
  io_header : header_ok h;
  io_start : occurs_at data 0 (elf_header_bytes h);
  io_ehsize : ehsize h = by_class (class (ident h)) 52 64;
  io_phs : Forall (λ ph, fields_ok (ph_fields (is_64bit h) ph)) phs;
  io_shs : Forall (λ s, fields_ok (sh_fields (is_64bit h) s)) shs;
  io_phentsize : phentsize h = by_class (class (ident h)) 32 56;
  io_shentsize : shentsize h = by_class (class (ident h)) 40 64;
  io_phnum : phnum h = zlen phs;
  io_shnum : shnum h = zlen shs;
  io_ph_table : phs ≠ [] → occurs_at data (phoff h) (enc_table ph_fields (is_64bit h) (is_little_endian h) phs);
  io_sh_table : shs ≠ [] → occurs_at data (shoff h) (enc_table sh_fields (is_64bit h) (is_little_endian h) shs);
  io_shstrndx : shstrndx h = 0 ∨ shstrndx h < shnum h;
}.

(** The usual layout: header, program headers, section headers, contents. *)
Definition image (h : ElfHeader) (phs : list ProgramHeader) (shs : list SectionHeader) (payload : list Z) : list Z :=
  let is64 := is_64bit h in let le := is_little_endian h in
  elf_header_bytes h ++ enc_table ph_fields is64 le phs ++ enc_table sh_fields is64 le shs ++ payload.

Lemma class_is_64 h {A} (x y : A) : by_class (class (ident h)) x y = if is_64bit h then y else x.
Proof. unfold is_64bit. by destruct (class (ident h)). Qed.

Lemma check_table_inside num off size len e :
  0 ≤ num → 0 ≤ size → 0 ≤ off → off + num * size ≤ len → len < 2 ^ 63 → check_table num off size size len e = Ok tt.
Proof.
  intros Hn Hs Ho Hl Hlen. unfold check_table. destruct (num =? 0); [done|]. rewrite Z.eqb_refl. cbn [negb].
  unfold mul64. rewrite chk_ok by nia. cbn [rbind]. unfold checked_add. rewrite (proj2 (Z.ltb_lt _ _)) by lia. cbn [rbind].
  by rewrite (proj2 (Z.ltb_ge _ _)) by lia.
Qed.

Lemma zlen_header h : header_ok h → zlen (elf_header_bytes h) = by_class (class (ident h)) 52 64.
Proof.
  intros (Hi & _). unfold elf_header_bytes. rewrite zlen_app, zlen_ident by done. unfold zlen. rewrite length_enc_all. unfold header_fields.
  by destruct (class (ident h)).
Qed.

Lemma image_layout h phs shs payload :
  header_ok h → ehsize h = by_class (class (ident h)) 52 64 →
  Forall (λ ph, fields_ok (ph_fields (is_64bit h) ph)) phs → Forall (λ s, fields_ok (sh_fields (is_64bit h) s)) shs →
  phentsize h = by_class (class (ident h)) 32 56 → shentsize h = by_class (class (ident h)) 40 64 → phnum h = zlen phs → shnum h = zlen shs →
  phoff h = ehsize h → shoff h = ehsize h + phnum h * phentsize h → shstrndx h = 0 ∨ shstrndx h < shnum h →
  image_ok (image h phs shs payload) h phs shs.
Proof.
  intros Hh He Hp Hs Hpe Hse Hpn Hsn Hpo Hso Hsx. pose proof (zlen_header h Hh) as Hz. unfold image. split; try done.
  - by eexists [], _.
  - intros _. exists (elf_header_bytes h). eexists. split; [done|]. lia.
  - intros _. exists (elf_header_bytes h ++ enc_table ph_fields (is_64bit h) (is_little_endian h) phs), payload. split; [by rewrite <-!app_assoc|].
    rewrite zlen_app, Hz, zlen_ph_table, Hso, He, Hpn, Hpe, (class_is_64 h 32 56). lia.
Qed.

Lemma occurs_inside data off bs : occurs_at data off bs → 0 ≤ off ∧ off + zlen bs ≤ zlen data.
Proof. intros (pre & post & -> & <-). rewrite !zlen_app. pose proof (zlen_nonneg pre). pose proof (zlen_nonneg post). lia. Qed.

Lemma parse_image data h phs shs : image_ok data h phs shs → zlen data < 2 ^ 63 → elf_parse data = Ok (mkElf data h).
Proof.
  intros [Hh Hst He _ _ Hpe Hse Hpn Hsn Hpt Hsht Hsx] Hlen. unfold elf_parse.
  assert (elf_header_parse data = Ok h) as ->.
  { destruct Hst as (pre & post & -> & Hpre). destruct pre; [|done]. unfold elf_header_bytes. cbn [app]. rewrite <-app_assoc. by apply header_roundtrip. }
  cbn [rbind]. rewrite <-He, Z.eqb_refl. cbn [negb]. rewrite <-Hpe, <-Hse.
  assert (0 ≤ phentsize h ∧ 0 ≤ shentsize h ∧ 0 ≤ ehsize h) as (? & ? & ?)
    by (rewrite Hpe, Hse, He; destruct (class (ident h)); cbn; lia).
  pose proof (zlen_nonneg phs). pose proof (zlen_nonneg shs).
  assert (check_table (phnum h) (phoff h) (phentsize h) (phentsize h) (zlen data) InvalidProgramHeader = Ok tt) as ->.
  { destruct (decide (phs = [])) as [->|Hne]; [unfold check_table; by rewrite Hpn|]. apply occurs_inside in Hpt as [? Hin]; [|done].
    rewrite zlen_ph_table, <-class_is_64, <-Hpe, <-Hpn in Hin. apply check_table_inside; lia. }
  assert (check_table (shnum h) (shoff h) (shentsize h) (shentsize h) (zlen data) InvalidSectionHeader = Ok tt) as ->.
  { destruct (decide (shs = [])) as [->|Hne]; [unfold check_table; by rewrite Hsn|]. apply occurs_inside in Hsht as [? Hin]; [|done].
    rewrite zlen_sh_table, <-class_is_64, <-Hse, <-Hsn in Hin. apply check_table_inside; lia. }
  cbn [rbind].
  destruct Hsx as [->|Hsx]; [by rewrite !andb_false_r|]. rewrite (proj2 (Z.leb_gt (shnum h) _)) by done. by rewrite andb_false_r.
Qed.

(** The entries of the tables of a whole file. *)
Lemma image_entries data h phs shs :
  image_ok data h phs shs → zlen data < 2 ^ 63 →
  let f := mkElf data h in
  (∀ i ph, phs !! i = Some ph → iter_get ph_parse (ph_iter_new f) (Z.of_nat i) = Ok ph) ∧
  (∀ i s, shs !! i = Some s → iter_get sh_parse (sh_iter_new f) (Z.of_nat i) = Ok s).
Proof.
  intros [Hh _ He Hp Hs Hpe Hse Hpn Hsn Hpt Hsht _] Hlen.
  unfold ph_iter_new, sh_iter_new. cbn [elf_data header]. rewrite Hpe, Hse, !class_is_64, Hpn, Hsn. split.
  - intros i ph Hph. destruct Hpt as (pre & post & -> & <-); [by intros ->|]. by apply (iter_get_table _ _ _ _ (EntryFormat0 := ph_format)).
  - intros i s Hsh. destruct Hsht as (pre & post & -> & <-); [by intros ->|]. by apply (iter_get_table _ _ _ _ (EntryFormat0 := sh_format)).
Qed.

(** ** Symbol lookup: the first symbol with the name *)
Definition name_of (strtab : list Z) (s : Symbol) : ER (option (list Z)) :=
  if sym_name s =? 0 then Ok None else let? n := get_string strtab (sym_name s) in Ok (Some n).

Definition readable (strtab : list Z) (s : Symbol) : Prop := ∃ n, name_of strtab s = Ok n.

Definition has_name (strtab name : list Z) (s : Symbol) : Prop := name_of strtab s = Ok (Some name).

#[export] Instance has_name_dec strtab name s : Decision (has_name strtab name s).
Proof.
  unfold has_name. destruct (name_of strtab s) as [[n|]|e| |]; try (right; congruence).
  destruct (decide (n = name)) as [->|]; [by left|right; congruence].
Defined.

Definition first_named (strtab name : list Z) (l : list Symbol) : option (nat * Symbol) := list_find (has_name strtab name) l.

(** A table with its strings, as the sections of a file hold them. *)
Record SymbolData := mkSymData { sd_symbols : list Symbol; sd_strings : list Z }.

Definition sym_data_ok (is64 : bool) (d : SymbolData) : Prop :=
  Forall (symbol_ok is64) (sd_symbols d) ∧ Forall (readable (sd_strings d)) (sd_symbols d) ∧
  zlen (sd_symbols d) < 2 ^ 58.

Definition table_of (is64 le : bool) (d : SymbolData) : ER SymbolTable :=
  symbol_table_new (enc_table symbol_fields is64 le (sd_symbols d)) (Some (sd_strings d)) is64 le.

Lemma find_loop_first is64 le d t name :
  sym_data_ok is64 d → table_of is64 le d = Ok t →
  ∀ n, (n ≤ length (sd_symbols d))%nat →
  find_symbol_loop t name (seqZ (Z.of_nat n) (zlen (sd_symbols d) - Z.of_nat n)) =
    Ok (prod_map (λ i, Z.of_nat (n + i)) id <$> first_named (sd_strings d) name (drop n (sd_symbols d))).
Proof.
  intros (Hok & Hrd & Hlen) Ht. unfold table_of, symbol_table_new, symbol_iter_new in Ht.
  set (l := sd_symbols d) in *. set (st := sd_strings d) in *. set (tab := enc_table symbol_fields is64 le l) in *.
  assert (zlen tab = zlen l * (if is64 then 24 else 16)) as Hz by apply zlen_symbol_table.
  rewrite Hz, Z.mod_mul, Z.div_mul in Ht by (by destruct is64). cbn [Z.eqb negb rbind] in Ht. injection Ht as <-.
  assert (∀ i s, l !! i = Some s → get_symbol (mkSymTab (mkIter tab 0 (zlen l) 0 (if is64 then 24 else 16) is64 le) (Some st)) (Z.of_nat i) = Ok s) as Hget.
  { intros i s Hi. unfold get_symbol. cbn [symbols].
    pose proof (iter_get_table symbol_parse (λ b : bool, if b then 24 else 16) symbol_fields symbol_ok is64 le l [] [] i s Hok) as Hg.
    cbn [app] in Hg. rewrite app_nil_r in Hg. apply Hg; [|done]. fold tab. rewrite Hz. destruct is64; lia. }
  set (t := mkSymTab _ _) in *. intros n Hn. remember (length l - n)%nat as k eqn:Hk. revert n Hn Hk.
  induction k as [|k IH]; intros n Hn Hk.
  { rewrite drop_ge by lia. unfold seqZ, zlen. replace (Z.to_nat (Z.of_nat (length l) - Z.of_nat n)) with 0%nat by lia. done. }
  destruct (lookup_lt_is_Some_2 l n ltac:(lia)) as [s Hs]. rewrite (drop_S l s n Hs).
  rewrite seqZ_cons by (unfold zlen; lia). cbn [find_symbol_loop]. unfold get_symbol_name. rewrite (Hget n s Hs). cbn [rbind].
  replace (Z.succ (Z.of_nat n)) with (Z.of_nat (S n)) by lia.
  replace (Z.pred (zlen l - Z.of_nat n)) with (zlen l - Z.of_nat (S n)) by lia.
  destruct (proj1 (Forall_lookup _ _) Hrd n s Hs) as [nm Hnm].
  assert ((if sym_name s =? 0 then Ok None else match string_table t with
    | Some strtab => let? n0 := get_string strtab (sym_name s) in Ok (Some n0) | None => Ok None end) = Ok nm) as -> by exact Hnm.
  cbn [rbind]. unfold first_named. cbn [list_find]. destruct (decide (nm = Some name)) as [->|Hne].
  - rewrite bool_decide_eq_true_2 by done. rewrite decide_True by (exact Hnm). cbn. by rewrite Nat.add_0_r.
  - rewrite bool_decide_eq_false_2 by done. rewrite decide_False by (unfold has_name; congruence). rewrite (IH (S n)) by lia. unfold first_named.
    f_equal. rewrite <-option_fmap_compose. apply option_fmap_ext. intros [i s']. unfold prod_map, id. cbn. f_equal. lia.
Qed.

Lemma find_symbol_first is64 le d t name :
  sym_data_ok is64 d → table_of is64 le d = Ok t →
  find_symbol t name = Ok (prod_map Z.of_nat id <$> first_named (sd_strings d) name (sd_symbols d)).
Proof.
  intros Hd Ht. pose proof (find_loop_first is64 le d t name Hd Ht 0%nat ltac:(lia)) as H. unfold find_symbol.
  rewrite Z.sub_0_r, drop_0 in H. assert (it_count (symbols t) = zlen (sd_symbols d)) as ->; [|exact H].
  unfold table_of, symbol_table_new, symbol_iter_new in Ht. rewrite zlen_symbol_table in Ht.
  rewrite Z.mod_mul, Z.div_mul in Ht by (by destruct is64). by injection Ht as <-.
Qed.

(** ** Properties *)

(** C23: parsing untrusted bytes. For every file the parser returns a value or an error and never panics; once a file
    is accepted, no access to its header tables panics, an entry inside a table is never reported as cut off, and
    checking a section or taking its data returns too. *)
Theorem elf_parse_safe data :
  bytes_ok data → zlen data < 2 ^ 63 →
  quiet (elf_parse data) ∧ ∀ f, elf_parse data = Ok f →
    (∀ i, 0 ≤ i → quiet (iter_get ph_parse (ph_iter_new f) i) ∧ quiet (iter_get sh_parse (sh_iter_new f) i)) ∧
    (∀ i, 0 ≤ i < phnum (header f) → iter_get ph_parse (ph_iter_new f) i ≠ Err BufferTooSmall) ∧
    (∀ i, 0 ≤ i < shnum (header f) → iter_get sh_parse (sh_iter_new f) i ≠ Err BufferTooSmall) ∧
    ∀ i s, iter_get sh_parse (sh_iter_new f) i = Ok s → quiet (sh_validate s (zlen data)) ∧ quiet (sh_data s data).
Proof.
  intros Hb Hl. destruct (elf_parse_ok data Hb Hl) as [Hq Hp]. split; [exact Hq|]. intros f Hf. destruct (Hp f Hf) as [Hd _ Hph Hsh].
  split; [intros i Hi; split; by apply (iter_get_clean _ _)|].
  split; [intros i Hi; apply (iter_get_clean ph_parse _ _ i Hph); [lia|apply Hi]|].
  split; [intros i Hi; apply (iter_get_clean sh_parse _ _ i Hsh); [lia|apply Hi]|].
  intros i s Hs. split; [unfold sh_validate; quiet|]. apply sh_data_quiet. unfold iter_get, iter_at in Hs.
  destruct (_ <=? i); [done|]. apply bind_inv in Hs as (r & _ & Hs). apply bind_inv in Hs as (o & _ & Hs).
  apply sh_parse_ranges in Hs; [done|]. cbn [it_data sh_iter_new]. by rewrite Hd.
Qed.

(** C16: reading what the format describes. A file with its header at the start and its two tables wherever the header
    says they are, in either class and either byte order, is parsed back to exactly its header, and each of the table
    entries is read back; the index behind a table is out of bounds. The entries are of the types the parser has names
    for; it refuses others, also those of the GNU extensions it does not list. *)
Theorem elf_image_roundtrip data h phs shs :
  image_ok data h phs shs → zlen data < 2 ^ 63 →
  ∃ f, elf_parse data = Ok f ∧ header f = h ∧
    (∀ i ph, phs !! i = Some ph → iter_get ph_parse (ph_iter_new f) (Z.of_nat i) = Ok ph) ∧
    (∀ i s, shs !! i = Some s → iter_get sh_parse (sh_iter_new f) (Z.of_nat i) = Ok s) ∧
    iter_get ph_parse (ph_iter_new f) (zlen phs) = Err IndexOutOfBounds ∧
    iter_get sh_parse (sh_iter_new f) (zlen shs) = Err IndexOutOfBounds.
Proof.
  intros Hi Hlen. eexists. split; [by eapply parse_image|]. split; [done|].
  destruct (image_entries data h phs shs Hi Hlen) as [Hp Hs]. destruct Hi as [_ _ _ _ _ _ _ Hpn Hsn _ _ _].
  split; [exact Hp|]. split; [exact Hs|]. unfold iter_get, ph_iter_new, sh_iter_new. cbn [it_count header]. by rewrite Hpn, Hsn, !Z.leb_refl.
Qed.

(** A big-endian 32-bit file with one segment and one section. *)
Definition demo_header : ElfHeader :=
  mkHeader (mkIdent ELF_MAGIC Elf32 BigEndian 1 0 0 (zeros 7)) Executable RiscV 1 0x1000 52 84 0 52 32 1 40 1 0.
Definition demo_ph : ProgramHeader := mkPh Load 5 0 0x1000 0x1000 124 256 1.
Definition demo_sh : SectionHeader := mkSh 0 ProgBits 6 0x1000 0 124 0 0 4 0.

Lemma field_ok_check (f : nat * Z) : (0 <=? f.2) && (f.2 <? 2 ^ (Z.of_nat f.1 * 8)) = true → field_ok f.
Proof. unfold field_ok. lia. Qed.

(** [header_ok] and the ranges of the fields of a concrete file, and [image_ok] of one in the usual layout. *)
Ltac concrete_fields := unfold fields_ok; repeat constructor; by apply field_ok_check.
Ltac concrete_image := apply image_layout; try done; [split; [done|]; split; [done|]|..|by left]; concrete_fields.

(** The same file with four bytes of contents and the section header in front of the program header. *)
Definition demo_moved_header : ElfHeader :=
  mkHeader (mkIdent ELF_MAGIC Elf32 BigEndian 1 0 0 (zeros 7)) Executable RiscV 1 0x1000 96 56 0 52 32 1 40 1 0.
Definition demo_moved : list Z :=
  elf_header_bytes demo_moved_header ++ [1; 2; 3; 4] ++ enc_table sh_fields false false [demo_sh] ++ enc_table ph_fields false false [demo_ph].

Lemma demo_moved_ok : image_ok demo_moved demo_moved_header [demo_ph] [demo_sh].
Proof.
  split; try done; [split; [done|]; split; [done|]; concrete_fields|by eexists [], _|concrete_fields|concrete_fields|intros _|intros _|by left].
  - exists (elf_header_bytes demo_moved_header ++ [1; 2; 3; 4] ++ enc_table sh_fields false false [demo_sh]), []. split; [|by vm_compute].
    unfold demo_moved. by rewrite app_nil_r, <-!app_assoc.
  - exists (elf_header_bytes demo_moved_header ++ [1; 2; 3; 4]), (enc_table ph_fields false false [demo_ph]). split; [|by vm_compute].
    unfold demo_moved. by rewrite <-!app_assoc.
Qed.

Lemma elf_image_roundtrip_witness :
  ∃ f, elf_parse demo_moved = Ok f ∧ iter_get sh_parse (sh_iter_new f) 0 = Ok demo_sh ∧ iter_get ph_parse (ph_iter_new f) 0 = Ok demo_ph.
Proof.
  destruct (elf_image_roundtrip demo_moved demo_moved_header [demo_ph] [demo_sh] demo_moved_ok) as (f & E & _ & Hp & Hs & _); [by vm_compute|].
  exists f. split; [exact E|]. split; [exact (Hs 0%nat demo_sh eq_refl)|exact (Hp 0%nat demo_ph eq_refl)].
Defined.

Lemma elf_parse_safe_witness :
  quiet (elf_parse (image demo_header [demo_ph] [demo_sh] [])) ∧ quiet (elf_parse [0x7f; 0x45; 0x4c; 0x46]).
Proof.
  split; apply elf_parse_safe; [|by vm_compute|forall_list|by vm_compute]; apply bytes_ok_forallb; by vm_compute.
Defined.

(** Looking up a symbol. Over tables that hold the given symbols and names, in either class and byte order, the
    resolver returns the first symbol of the dynamic table with the name, the first one of the main table if the
    dynamic table has none, and nothing if neither has one. *)
Theorem resolve_first_match is64 le dyn main name :
  sym_data_ok is64 dyn → sym_data_ok is64 main →
  ∃ td tm, table_of is64 le dyn = Ok td ∧ table_of is64 le main = Ok tm ∧
    resolve (set_symbol_table tm (set_dynamic_table td resolver_new)) name =
      Ok (match first_named (sd_strings dyn) name (sd_symbols dyn) with
          | Some (_, s) => Some s
          | None => snd <$> first_named (sd_strings main) name (sd_symbols main)
          end).
Proof.
  intros Hd Hm.
  assert (∀ d, ∃ t, table_of is64 le d = Ok t) as Ht.
  { intros d. unfold table_of, symbol_table_new, symbol_iter_new. rewrite zlen_symbol_table, Z.mod_mul by (by destruct is64). by eexists. }
  destruct (Ht dyn) as [td Ed], (Ht main) as [tm Em]. exists td, tm. split; [done|]. split; [done|].
  unfold resolve, find_in. cbn [dynamic_table main_table set_symbol_table set_dynamic_table].
  rewrite (find_symbol_first is64 le dyn td name Hd Ed), (find_symbol_first is64 le main tm name Hm Em). cbn [rbind].
  destruct (first_named (sd_strings dyn) name (sd_symbols dyn)) as [[i s]|]; [done|]. cbn.
  by destruct (first_named (sd_strings main) name (sd_symbols main)) as [[i s]|].
Qed.

(** Two symbols called [f] in the main table, none in the dynamic one. *)
Definition demo_syms : SymbolData :=
  mkSymData [mkSymbol 0 Local NoType Default 0 0 Undefined; mkSymbol 1 Global Func Default 0x1000 16 (Index 1);
             mkSymbol 1 Weak Func Default 0x2000 16 (Index 1)] [0; 0x66; 0].

Lemma demo_syms_ok : sym_data_ok true demo_syms.
Proof.
  assert (∀ f : nat * Z, (0 <=? f.2) && (f.2 <? 2 ^ (Z.of_nat f.1 * 8)) = true → field_ok f) as Hf by (unfold field_ok; intros f; lia).
  split; [|split; [|done]].
  - repeat (constructor; [split; [unfold fields_ok; repeat constructor; by apply Hf|done]|]). constructor.
  - repeat (constructor; [eexists; vm_compute; reflexivity|]). constructor.
Qed.

Lemma resolve_first_match_witness :
  ∃ td tm, table_of true true (mkSymData [] []) = Ok td ∧ table_of true true demo_syms = Ok tm ∧
    resolve (set_symbol_table tm (set_dynamic_table td resolver_new)) [0x66] =
      Ok (Some (mkSymbol 1 Global Func Default 0x1000 16 (Index 1))).
Proof.
  destruct (resolve_first_match true true (mkSymData [] []) demo_syms [0x66]) as (td & tm & Ed & Em & Hr);
    [split; [constructor|split; [constructor|done]]|exact demo_syms_ok|].
  exists td, tm. split; [exact Ed|]. split; [exact Em|]. rewrite Hr. vm_compute. reflexivity.
Defined.
