(* ===== verification/ElfMemory.v ===== *)
(** * The memory manager of the ELF loader ([crates/Statue/src/memory.rs])

    Physical memory is one vector of bytes, cut into pages of 4096; a map takes
    page addresses to the physical pages behind them. Accesses are checked
    against the page they start in and against the end of physical memory. *)

From S2P Require Import Prelude Elf.

(** ** Data *)
Definition MPAGE_SIZE : Z := 4096.
Definition PAGE_MASK : Z := MPAGE_SIZE - 1.

Record MemoryProtection := mkProt { pr_read : bool; pr_write : bool; pr_execute : bool; pr_present : bool }.

Definition read_only : MemoryProtection := mkProt true false false true.
Definition read_write : MemoryProtection := mkProt true true false true.
Definition read_execute : MemoryProtection := mkProt true false true true.
Definition read_write_execute : MemoryProtection := mkProt true true true true.

Record VirtualPage := mkVPage { vp_vaddr : Z; vp_paddr : Z; vp_protection : MemoryProtection; vp_ref_count : Z }.

(** [free_pages] is listed from the end of the vector, where pages are taken and returned. *)
Record RealMemoryManager := mkRmm {
  physical_memory : list Z;
  page_mappings : gmap Z VirtualPage;
  free_pages : list Z;
  next_vaddr : Z;
  code_region : Z * Z; data_region : Z * Z; heap_region : Z * Z; stack_region : Z * Z;
}.

Definition rm_set (phys : list Z) (maps : gmap Z VirtualPage) (free : list Z) (s : RealMemoryManager) : RealMemoryManager :=
  mkRmm phys maps free (next_vaddr s) (code_region s) (data_region s) (heap_region s) (stack_region s).

Abbreviation RM := (M RealMemoryManager ElfError).

(** *** [PageTableEntry] *)
Definition pte_new (paddr : Z) (p : MemoryProtection) : Z :=
  Z.lor (Z.lor (Z.lor (Z.ldiff paddr PAGE_MASK) (if pr_present p then 1 else 0)) (if pr_write p then 2 else 0))
    (if pr_execute p then 0 else 2 ^ 63).
Definition pte_physical_addr (e : Z) : Z := Z.ldiff e PAGE_MASK.
Definition pte_is_present (e : Z) : bool := negb (Z.land e 1 =? 0).

(** ** Operations *)

(** [vaddr & !(PAGE_MASK as u64)] *)
Definition page_base (vaddr : Z) : Z := Z.ldiff vaddr PAGE_MASK.

Definition rm_new (memory_size : Z) : ER RealMemoryManager :=
  if negb (memory_size `mod` MPAGE_SIZE =? 0) then Err InvalidAlignment else
  let num_pages := memory_size / MPAGE_SIZE in
  Ok (mkRmm (zeros (Z.to_nat memory_size)) ∅ (reverse ((λ i, i * MPAGE_SIZE) <$> seqZ 0 num_pages)) 0x400000
        (0x400000, 0x400000 + 0x200000) (0x600000, 0x600000 + 0x200000) (0x800000, 0x800000 + 0x10000000)
        (0x7ffff000 - 0x100000, 0x7ffff000)).

Definition allocate_physical_page : RM Z :=
  let! s := mget in
  match free_pages s with
  | p :: free => let! _ := mput (rm_set (physical_memory s) (page_mappings s) free s) in mok p
  | [] => merr AllocationFailed
  end.

Definition free_physical_page (paddr : Z) : RM unit :=
  mmod (λ s, rm_set (physical_memory s) (page_mappings s) (paddr :: free_pages s) s).

Definition rm_map_page (vaddr : Z) (p : MemoryProtection) : RM Z :=
  let page_vaddr := page_base vaddr in
  let! s := mget in
  if bool_decide (is_Some (page_mappings s !! page_vaddr)) then merr InvalidAddress else
  let! paddr := allocate_physical_page in
  let! _ := mmod (λ s, rm_set (physical_memory s) (<[page_vaddr := mkVPage page_vaddr paddr p 1]> (page_mappings s)) (free_pages s) s) in
  mok paddr.

Definition rm_unmap_page (vaddr : Z) : RM unit :=
  let page_vaddr := page_base vaddr in
  let! s := mget in
  match page_mappings s !! page_vaddr with
  | Some page =>
      let! _ := mput (rm_set (physical_memory s) (delete page_vaddr (page_mappings s)) (free_pages s) s) in
      free_physical_page (vp_paddr page)
  | None => merr InvalidAddress
  end.

Definition rm_protect_page (vaddr : Z) (p : MemoryProtection) : RM unit :=
  let page_vaddr := page_base vaddr in
  let! s := mget in
  match page_mappings s !! page_vaddr with
  | Some page =>
      mput (rm_set (physical_memory s) (<[page_vaddr := mkVPage (vp_vaddr page) (vp_paddr page) p (vp_ref_count page)]> (page_mappings s)) (free_pages s) s)
  | None => merr InvalidAddress
  end.

Definition virtual_to_physical (vaddr : Z) : RM Z :=
  let! s := mget in
  match page_mappings s !! page_base vaddr with
  | Some page => mlift (add64 (vp_paddr page) (Z.land vaddr PAGE_MASK))
  | None => merr InvalidAddress
  end.

Definition read_virtual (vaddr size : Z) : RM (list Z) :=
  let! offset := virtual_to_physical vaddr in
  let! s := mget in
  let! end_ := mlift (add64 offset size) in
  if zlen (physical_memory s) <? end_ then merr InvalidOffset else
  mlift (slice offset end_ (physical_memory s)).

Definition write_virtual (vaddr : Z) (data : list Z) : RM unit :=
  let! s := mget in
  match page_mappings s !! page_base vaddr with
  | None => merr InvalidAddress
  | Some page =>
      if negb (pr_write (vp_protection page)) then merr PermissionDenied else
      let! offset := virtual_to_physical vaddr in
      let! end_ := mlift (add64 offset (zlen data)) in
      if zlen (physical_memory s) <? end_ then merr InvalidOffset else
      let! phys := mlift (put_at offset data (physical_memory s)) in
      mput (rm_set phys (page_mappings s) (free_pages s) s)
  end.

(** The pages of a range: its first page and how many. *)
Definition page_span (vaddr size : Z) : ER (Z * Z) :=
  let start_page := page_base vaddr in
  let? end_addr := add64 vaddr size in
  let? up := add64 end_addr PAGE_MASK in
  let end_page := page_base up in
  let? diff := sub64 end_page start_page in
  Ok (start_page, diff / MPAGE_SIZE).

(** [let _ = op]: errors are dropped. *)
Definition ignore_error {A} (m : RM A) : RM unit := λ s,
  match m s with
  | (Ok _, s') | (Err _, s') => (Ok tt, s')
  | (Panic, s') => (Panic, s')
  | (Hang, s') => (Hang, s')
  end.

(** The loop of [rm_map_range]; when a page fails, what was mapped is passed to [unmap_page]. *)
Fixpoint rm_map_pages (start_page : Z) (p : MemoryProtection) (mapped ids : list Z) : RM (list Z) :=
  match ids with
  | [] => mok mapped
  | i :: ids => λ s,
      match rm_map_page (start_page + i * MPAGE_SIZE) p s with
      | (Ok paddr, s') => rm_map_pages start_page p (mapped ++ [paddr]) ids s'
      | (Err e, s') => (let! _ := mfor mapped (λ paddr, ignore_error (rm_unmap_page paddr)) in merr e) s'
      | (Panic, s') => (Panic, s')
      | (Hang, s') => (Hang, s')
      end
  end.

Definition rm_map_range (vaddr size : Z) (p : MemoryProtection) : RM (list Z) :=
  let! (start_page, num_pages) := mlift (page_span vaddr size) in
  rm_map_pages start_page p [] (seqZ 0 num_pages).

Record MemoryStats := mkStats { total_memory : Z; used_memory : Z; free_memory : Z; mapped_pages : Z }.

Definition memory_stats (s : RealMemoryManager) : ER MemoryStats :=
  let total_pages := zlen (physical_memory s) / MPAGE_SIZE in
  let free := zlen (free_pages s) in
  let? used := sub64 total_pages free in
  Ok (mkStats (zlen (physical_memory s)) (used * MPAGE_SIZE) (free * MPAGE_SIZE) (Z.of_nat (size (page_mappings s)))).

(** *** [MemoryManagementUnit]; the handler is the caller's function *)
Record Mmu := mkMmu { fault_handler : option (Z → Z → ER unit); tlb_cache : gmap Z Z }.

Definition mmu_new : Mmu := mkMmu None ∅.
Definition set_fault_handler (h : Z → Z → ER unit) (m : Mmu) : Mmu := mkMmu (Some h) (tlb_cache m).
Definition handle_page_fault (m : Mmu) (vaddr error_code : Z) : ER unit :=
  match fault_handler m with Some h => h vaddr error_code | None => Err InvalidAddress end.
Definition flush_tlb (m : Mmu) : Mmu := mkMmu (fault_handler m) ∅.
Definition invalidate_tlb_entry (vaddr : Z) (m : Mmu) : Mmu := mkMmu (fault_handler m) (delete (page_base vaddr) (tlb_cache m)).

(** ** Pages *)
Lemma page_base_eq v : page_base v = v / 4096 * 4096.
Proof.
  unfold page_base. change PAGE_MASK with (Z.ones 12). rewrite Z.ldiff_ones_r by lia.
  by rewrite Z.shiftl_mul_pow2, Z.shiftr_div_pow2.
Qed.

Lemma page_offset_eq v : Z.land v PAGE_MASK = v `mod` 4096.
Proof. change PAGE_MASK with (Z.ones 12). by rewrite Z.land_ones. Qed.

Lemma page_base_idem v : page_base (page_base v) = page_base v.
Proof. rewrite !page_base_eq. by rewrite Z.div_mul. Qed.

(** A physical page: aligned and inside memory of [len] bytes. *)
Definition frame_in (len p : Z) : Prop := 0 ≤ p ∧ p `mod` 4096 = 0 ∧ p + 4096 ≤ len.

Record rm_inv (s : RealMemoryManager) : Prop := {
  ri_len : zlen (physical_memory s) < 2 ^ 62;
  ri_free : NoDup (free_pages s);
  ri_free_in : Forall (frame_in (zlen (physical_memory s))) (free_pages s);
  ri_page : ∀ v p, page_mappings s !! v = Some p →
    frame_in (zlen (physical_memory s)) (vp_paddr p) ∧ vp_paddr p ∉ free_pages s;
  ri_inj : ∀ v v' p p', page_mappings s !! v = Some p → page_mappings s !! v' = Some p' → vp_paddr p = vp_paddr p' → v = v';
}.

Lemma rm_new_inv size s : 0 ≤ size < 2 ^ 62 → rm_new size = Ok s → rm_inv s.
Proof.
  intros Hs. unfold rm_new. destruct (_ =? 0) eqn:E; [|done]. cbn [negb]. apply Z.eqb_eq in E. unfold MPAGE_SIZE in *. intros [= <-].
  assert (zlen (zeros (Z.to_nat size)) = size) as Hlen by (unfold zlen; rewrite length_zeros; lia).
  split; cbn; rewrite ?Hlen; [lia| | |done..].
  - rewrite reverse_Permutation. apply NoDup_fmap_2; [intros x y; lia|apply NoDup_seqZ].
  - apply Forall_reverse, Forall_fmap, Forall_forall. intros i Hi%elem_of_seqZ. unfold frame_in, compose.
    rewrite Z.mod_mul by lia. split; [lia|]. split; [done|]. dlia.
Qed.

(** ** The contract: a partial map from pages to their bytes *)
Definition page_len : nat := Z.to_nat 4096.

Lemma page_len_eq : Z.of_nat page_len = 4096.
Proof. done. Qed.
#[global] Opaque page_len.

Record APage := mkAPage { ap_prot : MemoryProtection; ap_bytes : list Z }.

Definition page_bytes (s : RealMemoryManager) (p : VirtualPage) : list Z := field (Z.to_nat (vp_paddr p)) page_len (physical_memory s).

Definition view (s : RealMemoryManager) : gmap Z APage := (λ p, mkAPage (vp_protection p) (page_bytes s p)) <$> page_mappings s.

Inductive MemOp : Type :=
  | OMap (v : Z) (p : MemoryProtection)
  | OUnmap (v : Z)
  | OProtect (v : Z) (p : MemoryProtection)
  | ORead (v n : Z)
  | OWrite (v : Z) (data : list Z).

Definition mem_op (o : MemOp) : RM (list Z) :=
  match o with
  | OMap v p => let! _ := rm_map_page v p in mok []
  | OUnmap v => let! _ := rm_unmap_page v in mok []
  | OProtect v p => let! _ := rm_protect_page v p in mok []
  | ORead v n => read_virtual v n
  | OWrite v data => let! _ := write_virtual v data in mok []
  end.

(** Accesses that stay in the page they start in. *)
Definition op_ok (o : MemOp) : Prop :=
  match o with
  | ORead v n => 0 ≤ v ∧ 0 ≤ n ∧ v `mod` 4096 + n ≤ 4096
  | OWrite v data => 0 ≤ v ∧ v `mod` 4096 + zlen data ≤ 4096
  | _ => True
  end.

(** [m] are the pages, [n] the number of physical pages left. *)
Inductive mem_step (m : gmap Z APage) (n : nat) : MemOp → res ElfError (list Z) → gmap Z APage → nat → Prop :=
  | ms_map v p n' bs : m !! page_base v = None → n = S n' → length bs = page_len →
      mem_step m n (OMap v p) (Ok []) (<[page_base v := mkAPage p bs]> m) n'
  | ms_mapped v p a : m !! page_base v = Some a → mem_step m n (OMap v p) (Err InvalidAddress) m n
  | ms_full v p : m !! page_base v = None → n = 0%nat → mem_step m n (OMap v p) (Err AllocationFailed) m n
  | ms_unmap v a : m !! page_base v = Some a → mem_step m n (OUnmap v) (Ok []) (delete (page_base v) m) (S n)
  | ms_protect v p a : m !! page_base v = Some a →
      mem_step m n (OProtect v p) (Ok []) (<[page_base v := mkAPage p (ap_bytes a)]> m) n
  | ms_read v k a : m !! page_base v = Some a →
      mem_step m n (ORead v k) (Ok (field (Z.to_nat (v `mod` 4096)) (Z.to_nat k) (ap_bytes a))) m n
  | ms_write v data a : m !! page_base v = Some a → pr_write (ap_prot a) = true →
      mem_step m n (OWrite v data) (Ok []) (<[page_base v := mkAPage (ap_prot a) (put (Z.to_nat (v `mod` 4096)) data (ap_bytes a))]> m) n
  | ms_denied v data a : m !! page_base v = Some a → pr_write (ap_prot a) = false →
      mem_step m n (OWrite v data) (Err PermissionDenied) m n
  | ms_absent o v : m !! page_base v = None →
      match o with OUnmap w | OProtect w _ | ORead w _ | OWrite w _ => w = v | OMap _ _ => False end →
      mem_step m n o (Err InvalidAddress) m n.

Fixpoint mem_run (ops : list MemOp) (s : RealMemoryManager) : list (res ElfError (list Z)) * RealMemoryManager :=
  match ops with
  | [] => ([], s)
  | o :: ops => let '(r, s1) := mem_op o s in let '(rs, s2) := mem_run ops s1 in (r :: rs, s2)
  end.

Inductive mem_steps : gmap Z APage → nat → list MemOp → list (res ElfError (list Z)) → gmap Z APage → nat → Prop :=
  | mss_nil m n : mem_steps m n [] [] m n
  | mss_cons m n o r m1 n1 ops rs m2 n2 :
      mem_step m n o r m1 n1 → mem_steps m1 n1 ops rs m2 n2 → mem_steps m n (o :: ops) (r :: rs) m2 n2.

Lemma view_lookup s v : view s !! v = (λ p, mkAPage (vp_protection p) (page_bytes s p)) <$> page_mappings s !! v.
Proof. apply lookup_fmap. Qed.

(** Where an access lands, and that it is inside. *)
Lemma v2p_ok s v p :
  rm_inv s → page_mappings s !! page_base v = Some p →
  virtual_to_physical v s = (Ok (vp_paddr p + v `mod` 4096), s) ∧ frame_in (zlen (physical_memory s)) (vp_paddr p).
Proof.
  intros Hi Hp. destruct (ri_page _ Hi _ _ Hp) as [Hf _]. split; [|done]. pose proof (ri_len _ Hi). destruct Hf as (H0 & _ & Hl).
  unfold virtual_to_physical, mbindM, mget. rewrite Hp, page_offset_eq. unfold mlift, add64. rewrite chk_ok; [done|].
  pose proof (Z.mod_pos_bound v 4096 ltac:(lia)). lia.
Qed.

(** A write inside a page changes that page as the write says, and no other page. *)
Lemma page_bytes_write s p q off data :
  frame_in (zlen (physical_memory s)) (vp_paddr p) → frame_in (zlen (physical_memory s)) (vp_paddr q) →
  0 ≤ off → off + zlen data ≤ 4096 →
  field (Z.to_nat (vp_paddr q)) page_len (put (Z.to_nat (vp_paddr p + off)) data (physical_memory s)) =
    if decide (vp_paddr q = vp_paddr p) then put (Z.to_nat off) data (page_bytes s p) else page_bytes s q.
Proof.
  intros (Hp0 & Hpm & Hpl) (Hq0 & Hqm & Hql) Ho Hd. unfold zlen in *. pose proof page_len_eq. case_decide as E.
  - rewrite E. apply list_eq. intros i. rewrite lookup_field. unfold page_bytes.
    destruct (decide (i < page_len)%nat) as [Hi|Hi].
    2: { symmetry. apply lookup_ge_None. rewrite length_put; rewrite length_field; lia. }
    destruct (decide (Z.to_nat off ≤ i < Z.to_nat off + length data)%nat) as [Hin|Hout].
    + rewrite !lookup_put_new by (rewrite ?length_field; lia). f_equal. lia.
    + rewrite !lookup_put_old by (rewrite ?length_field; lia). rewrite lookup_field, decide_True by lia. done.
  - unfold page_bytes. apply field_put_other; [lia|].
    assert (vp_paddr q + 4096 ≤ vp_paddr p ∨ vp_paddr p + 4096 ≤ vp_paddr q) by dlia. lia.
Qed.

Lemma mem_op_map s v p :
  rm_inv s → ∃ r s' m' n', mem_op (OMap v p) s = (r, s') ∧ rm_inv s' ∧ m' = view s' ∧ n' = length (free_pages s') ∧
    mem_step (view s) (length (free_pages s)) (OMap v p) r m' n'.
Proof.
  intros Hi. unfold mem_op, rm_map_page, mbindM, mget. destruct (page_mappings s !! page_base v) as [q|] eqn:Eq.
  { rewrite bool_decide_eq_true_2 by eauto. eexists _, s, _, _. split; [done|]. split; [done|]. split; [done|]. split; [done|].
    eapply ms_mapped. by rewrite view_lookup, Eq. }
  assert (view s !! page_base v = None) as Hnone by (by rewrite view_lookup, Eq).
  rewrite bool_decide_eq_false_2 by (by intros [? ?]). unfold allocate_physical_page, mbindM, mget.
  destruct (free_pages s) as [|f free] eqn:Ef.
  { eexists _, s, _, _. split; [done|]. split; [done|]. split; [done|]. split; [done|]. rewrite Ef.
    apply ms_full; [by rewrite view_lookup, Eq|done]. }
  unfold mput, mmod, mok. cbn [physical_memory page_mappings free_pages rm_set].
  pose proof (ri_free _ Hi) as Hnd. pose proof (ri_free_in _ Hi) as Hin. rewrite Ef in Hnd, Hin.
  apply NoDup_cons in Hnd as [Hnf Hnd]. apply Forall_cons in Hin as [Hf Hin].
  eexists _, _, _, _. split; [done|]. split; [|split; [done|split; [done|]]].
  - split; cbn [physical_memory page_mappings free_pages rm_set]; [apply Hi|done|done| |].
    + intros w q [[<- <-]|[Hne Hq]]%lookup_insert_Some; [by split|]. destruct (ri_page _ Hi _ _ Hq) as [Hq1 Hq2]. rewrite Ef in Hq2.
      split; [done|set_solver].
    + intros w w' q q' [[<- <-]|[Hne Hq]]%lookup_insert_Some [[<- <-]|[Hne' Hq']]%lookup_insert_Some E; cbn in E; try done.
      * destruct (ri_page _ Hi _ _ Hq') as [_ Hn]. rewrite Ef, <-E in Hn. set_solver.
      * destruct (ri_page _ Hi _ _ Hq) as [_ Hn]. rewrite Ef, E in Hn. set_solver.
      * by apply (ri_inj _ Hi w w' q q').
  - cbn [length]. unfold view at 2. cbn [page_mappings rm_set]. rewrite fmap_insert. cbn [vp_protection].
    change ((λ q : VirtualPage, mkAPage (vp_protection q) (page_bytes (rm_set (physical_memory s) _ free s) q)) <$> page_mappings s) with (view s).
    apply ms_map; [exact Hnone|done|]. unfold page_bytes. cbn. rewrite length_field; [done|].
    destruct Hf as (? & _ & ?). pose proof page_len_eq. unfold zlen in *. lia.
Qed.

(** A change of one page's protection keeps the rest. *)
Lemma rm_inv_update s v q q' phys :
  rm_inv s → page_mappings s !! v = Some q → vp_paddr q' = vp_paddr q → zlen phys = zlen (physical_memory s) →
  rm_inv (rm_set phys (<[v := q']> (page_mappings s)) (free_pages s) s).
Proof.
  intros Hi Hq Eq Hl. split; cbn [physical_memory page_mappings free_pages rm_set]; rewrite ?Hl; [apply Hi..| |].
  - intros w p [[<- <-]|[_ Hp]]%lookup_insert_Some; [rewrite Eq|]; by eapply (ri_page _ Hi).
  - intros w w' p p' [[<- <-]|[_ Hp]]%lookup_insert_Some [[<- <-]|[_ Hp']]%lookup_insert_Some E; rewrite ?Eq in E; [done|..];
      by eapply (ri_inj _ Hi).
Qed.

Lemma mem_op_unmap s v :
  rm_inv s → ∃ r s', mem_op (OUnmap v) s = (r, s') ∧ rm_inv s' ∧
    mem_step (view s) (length (free_pages s)) (OUnmap v) r (view s') (length (free_pages s')).
Proof.
  intros Hi. unfold mem_op, rm_unmap_page, mbindM, mget. destruct (page_mappings s !! page_base v) as [q|] eqn:Eq.
  2: { eexists _, s. split; [done|]. split; [done|]. apply (ms_absent _ _ _ v); [by rewrite view_lookup, Eq|done]. }
  unfold mput, free_physical_page, mmod, mok. cbn [physical_memory page_mappings free_pages rm_set].
  destruct (ri_page _ Hi _ _ Eq) as [Hf Hn]. eexists _, _. split; [done|]. split.
  - split; cbn [physical_memory page_mappings free_pages rm_set]; [apply Hi|by apply NoDup_cons; split; [|apply Hi]|by constructor; [|apply Hi]| |].
    + intros w p [Hne Hp]%lookup_delete_Some. destruct (ri_page _ Hi _ _ Hp) as [H1 H2]. split; [done|].
      apply not_elem_of_cons. split; [|done]. intros E. by apply Hne, (ri_inj _ Hi _ _ q p).
    + intros w w' p p' [_ Hp]%lookup_delete_Some [_ Hp']%lookup_delete_Some. by eapply (ri_inj _ Hi).
  - cbn [length]. unfold view at 2. cbn [page_mappings rm_set]. rewrite fmap_delete.
    apply (ms_unmap _ _ _ (mkAPage (vp_protection q) (page_bytes s q))). by rewrite view_lookup, Eq.
Qed.

Lemma mem_op_protect s v p :
  rm_inv s → ∃ r s', mem_op (OProtect v p) s = (r, s') ∧ rm_inv s' ∧
    mem_step (view s) (length (free_pages s)) (OProtect v p) r (view s') (length (free_pages s')).
Proof.
  intros Hi. unfold mem_op, rm_protect_page, mbindM, mget. destruct (page_mappings s !! page_base v) as [q|] eqn:Eq.
  2: { eexists _, s. split; [done|]. split; [done|]. apply (ms_absent _ _ _ v); [by rewrite view_lookup, Eq|done]. }
  unfold mput, mok. eexists _, _. split; [done|]. split; [by eapply rm_inv_update|].
  unfold view at 2. cbn [page_mappings rm_set free_pages]. rewrite fmap_insert. cbn [vp_protection].
  apply (ms_protect _ _ v p (mkAPage (vp_protection q) (page_bytes s q))). by rewrite view_lookup, Eq.
Qed.

Lemma mem_op_read s v n :
  rm_inv s → op_ok (ORead v n) → ∃ r, mem_op (ORead v n) s = (r, s) ∧
    mem_step (view s) (length (free_pages s)) (ORead v n) r (view s) (length (free_pages s)).
Proof.
  intros Hi (H0 & Hn & Hb). unfold mem_op, read_virtual, mbindM. destruct (page_mappings s !! page_base v) as [q|] eqn:Eq.
  2: { unfold virtual_to_physical, mbindM, mget. rewrite Eq. eexists. split; [done|]. apply (ms_absent _ _ _ v); [by rewrite view_lookup, Eq|done]. }
  destruct (v2p_ok s v q Hi Eq) as [-> (F0 & Fm & Fl)]. unfold mget, mlift, add64. pose proof (ri_len _ Hi).
  pose proof (Z.mod_pos_bound v 4096 ltac:(lia)). rewrite chk_ok by lia. rewrite (proj2 (Z.ltb_ge _ _)) by lia.
  rewrite slice_ok by lia. eexists. split; [done|]. replace (_ + n - _) with n by lia.
  assert (field (Z.to_nat (vp_paddr q + v `mod` 4096)) (Z.to_nat n) (physical_memory s) =
    field (Z.to_nat (v `mod` 4096)) (Z.to_nat n) (page_bytes s q)) as ->.
  { unfold page_bytes. rewrite field_field by (pose proof page_len_eq; lia). f_equal. lia. }
  apply (ms_read _ _ v n (mkAPage (vp_protection q) (page_bytes s q))). by rewrite view_lookup, Eq.
Qed.

Lemma view_write s v q data :
  rm_inv s → page_mappings s !! page_base v = Some q → v `mod` 4096 + zlen data ≤ 4096 →
  view (rm_set (put (Z.to_nat (vp_paddr q + v `mod` 4096)) data (physical_memory s)) (page_mappings s) (free_pages s) s) =
    <[page_base v := mkAPage (vp_protection q) (put (Z.to_nat (v `mod` 4096)) data (page_bytes s q))]> (view s).
Proof.
  intros Hi Eq Hb. destruct (ri_page _ Hi _ _ Eq) as [Hf _]. pose proof (Z.mod_pos_bound v 4096 ltac:(lia)).
  apply map_eq. intros w. rewrite view_lookup. cbn [page_mappings rm_set]. rewrite lookup_insert. case_decide as E.
  - subst w. rewrite Eq. cbn. do 2 f_equal. unfold page_bytes at 1. cbn [physical_memory rm_set].
    rewrite (page_bytes_write s q q) by (done || lia). by rewrite decide_True.
  - rewrite view_lookup. destruct (page_mappings s !! w) as [p|] eqn:Ep; [|done]. cbn. do 2 f_equal.
    unfold page_bytes at 1. cbn [physical_memory rm_set]. rewrite (page_bytes_write s q p) by (try eapply (ri_page _ Hi); done || lia).
    rewrite decide_False; [done|]. intros E'. apply E. symmetry. by apply (ri_inj _ Hi w (page_base v) p q).
Qed.

Lemma write_ok s v q data :
  rm_inv s → page_mappings s !! page_base v = Some q → pr_write (vp_protection q) = true →
  vp_paddr q + v `mod` 4096 + zlen data ≤ zlen (physical_memory s) →
  write_virtual v data s =
    (Ok tt, rm_set (put (Z.to_nat (vp_paddr q + v `mod` 4096)) data (physical_memory s)) (page_mappings s) (free_pages s) s).
Proof.
  intros Hi Eq Hw Hfit. destruct (v2p_ok s v q Hi Eq) as [Ev (F0 & Fm & Fl)]. pose proof (ri_len _ Hi).
  pose proof (Z.mod_pos_bound v 4096 ltac:(lia)). pose proof (zlen_nonneg data).
  unfold write_virtual, mbindM, mget. rewrite Eq, Hw. cbn [negb]. rewrite Ev. unfold mlift, add64. rewrite chk_ok by lia.
  rewrite (proj2 (Z.ltb_ge _ _)) by lia. by rewrite put_at_ok by lia.
Qed.

Lemma mem_op_write s v data :
  rm_inv s → op_ok (OWrite v data) → ∃ r s', mem_op (OWrite v data) s = (r, s') ∧ rm_inv s' ∧
    mem_step (view s) (length (free_pages s)) (OWrite v data) r (view s') (length (free_pages s')).
Proof.
  intros Hi (H0 & Hb). unfold mem_op. destruct (page_mappings s !! page_base v) as [q|] eqn:Eq.
  2: { unfold write_virtual, mbindM, mget. rewrite Eq. eexists _, s. split; [done|]. split; [done|].
       apply (ms_absent _ _ _ v); [by rewrite view_lookup, Eq|done]. }
  assert (view s !! page_base v = Some (mkAPage (vp_protection q) (page_bytes s q))) as Hv by (by rewrite view_lookup, Eq).
  destruct (pr_write (vp_protection q)) eqn:Hw.
  2: { unfold write_virtual, mbindM, mget. rewrite Eq, Hw. eexists _, s. split; [done|]. split; [done|]. by eapply ms_denied. }
  destruct (ri_page _ Hi _ _ Eq) as [(F0 & Fm & Fl) _].
  unfold mbindM. rewrite (write_ok s v q data Hi Eq Hw) by lia. eexists _, _. split; [done|]. split.
  - pose proof (rm_inv_update s (page_base v) q q (put (Z.to_nat (vp_paddr q + v `mod` 4096)) data (physical_memory s)) Hi Eq eq_refl) as Hu.
    rewrite insert_id in Hu by done. apply Hu. unfold zlen in *. rewrite length_put; [done|].
    pose proof (Z.mod_pos_bound v 4096 ltac:(lia)). lia.
  - rewrite view_write by done. cbn [free_pages rm_set]. exact (ms_write _ _ v data _ Hv Hw).
Qed.

Lemma mem_op_refines s o :
  rm_inv s → op_ok o → ∃ r s', mem_op o s = (r, s') ∧ rm_inv s' ∧
    mem_step (view s) (length (free_pages s)) o r (view s') (length (free_pages s')).
Proof.
  intros Hi Ho. destruct o as [v p|v|v p|v n|v data].
  - destruct (mem_op_map s v p Hi) as (r & s' & m' & n' & E & Hi' & -> & -> & Hs). eauto.
  - by apply mem_op_unmap.
  - by apply mem_op_protect.
  - destruct (mem_op_read s v n Hi Ho) as (r & E & Hs). eauto.
  - by apply mem_op_write.
Qed.

(** ** Ranges *)

(** Cleaning up with physical addresses finds no page when all pages are above physical memory. *)
Lemma cleanup_noop s mapped :
  (∀ v p, page_mappings s !! v = Some p → zlen (physical_memory s) ≤ v) →
  Forall (frame_in (zlen (physical_memory s))) mapped →
  mfor mapped (λ paddr, ignore_error (rm_unmap_page paddr)) s = (Ok tt, s).
Proof.
  intros Hv. induction 1 as [|p mapped (H0 & Hm & Hl) _ IH]; [done|]. cbn [mfor]. unfold mbindM, ignore_error, rm_unmap_page, mbindM, mget.
  assert (page_mappings s !! page_base p = None) as ->; [|exact IH].
  destruct (page_mappings s !! page_base p) as [q|] eqn:Eq; [|done]. apply Hv in Eq. rewrite page_base_eq in Eq. dlia.
Qed.

Lemma rm_map_pages_exhaust prot start n i mapped s :
  rm_inv s → page_base start = start → zlen (physical_memory s) ≤ start → 0 ≤ i → length (free_pages s) = n →
  (∀ v p, page_mappings s !! v = Some p → zlen (physical_memory s) ≤ v) →
  (∀ j, i ≤ j → page_mappings s !! (start + j * 4096) = None) →
  Forall (frame_in (zlen (physical_memory s))) mapped →
  ∀ k, (n < k)%nat → ∃ s', rm_map_pages start prot mapped (seqZ i (Z.of_nat k)) s = (Err AllocationFailed, s') ∧ rm_inv s' ∧
    free_pages s' = [] ∧ (∀ v, is_Some (page_mappings s !! v) → is_Some (page_mappings s' !! v)) ∧
    ∀ j, i ≤ j < i + Z.of_nat n → is_Some (page_mappings s' !! (start + j * 4096)).
Proof.
  revert i mapped s. induction n as [|n IH]; intros i mapped s Hi Hst Hlow Hi0 Hn Hv Hnone Hmap k Hk.
  all: rewrite seqZ_cons by lia; cbn [rm_map_pages]; unfold rm_map_page, mbindM, mget;
    assert (page_base (start + i * MPAGE_SIZE) = start + i * 4096) as Eb
      by (rewrite page_base_eq in *; unfold MPAGE_SIZE; rewrite Z.div_add by lia; lia);
    rewrite Eb, (Hnone i ltac:(lia)); rewrite bool_decide_eq_false_2 by (by intros [? ?]); unfold allocate_physical_page, mbindM, mget.
  - destruct (free_pages s) eqn:Ef; [|done]. unfold merr. rewrite cleanup_noop by done. exists s. split; [done|]. split; [done|]. split; [done|]. split; [done|]. lia.
  - destruct (mem_op_map s (start + i * MPAGE_SIZE) prot Hi) as (r & s1 & _ & _ & E1 & Hi1 & _ & _ & _).
    unfold mem_op, rm_map_page, mbindM, mget in E1. rewrite Eb, (Hnone i ltac:(lia)) in E1. rewrite bool_decide_eq_false_2 in E1 by (by intros [? ?]).
    unfold allocate_physical_page, mbindM, mget in E1.
    pose proof (ri_free_in _ Hi) as Hfi. destruct (free_pages s) as [|f free] eqn:Ef; [done|]. apply Forall_cons in Hfi as [Hf _].
    unfold mput, mmod, mok in *. cbn [physical_memory page_mappings free_pages rm_set] in *. injection E1 as _ <-.
    set (s1 := rm_set _ _ free _) in *.
    destruct (IH (Z.succ i) (mapped ++ [f]) s1 Hi1 Hst Hlow ltac:(lia)) with (k := pred k) as (s' & E & Hi' & Hfree & Hkeep & Hall).
    + cbn in Hn. injection Hn as Hn. exact Hn.
    + intros w q. cbn [s1 page_mappings rm_set]. intros [[<- _]|[_ Hq]]%lookup_insert_Some; [cbn; lia|]. by eapply Hv.
    + intros j Hj. cbn [s1 page_mappings rm_set]. rewrite lookup_insert_ne by lia. apply Hnone. lia.
    + apply Forall_app_2; [done|]. by constructor.
    + lia.
    + replace (Z.pred (Z.of_nat k)) with (Z.of_nat (pred k)) by lia. exists s'. split; [exact E|]. split; [done|]. split; [done|]. split.
      * intros v Hvs. apply Hkeep. cbn [s1 page_mappings rm_set]. rewrite lookup_insert. by case_decide.
      * intros j Hj. destruct (decide (j = i)) as [->|]; [|apply Hall; lia].
        apply Hkeep. cbn [s1 page_mappings rm_set]. rewrite lookup_insert_eq. by eexists.
Qed.

(** A range of free addresses with enough pages left is mapped. *)
Lemma rm_map_pages_ok p start n k mapped s :
  page_base start = start → (n ≤ length (free_pages s))%nat →
  (∀ j, k ≤ j < k + Z.of_nat n → page_mappings s !! (start + j * 4096) = None) →
  ∃ ms s', rm_map_pages start p mapped (seqZ k (Z.of_nat n)) s = (Ok ms, s') ∧ free_pages s' = drop n (free_pages s) ∧
    ∀ v, is_Some (page_mappings s' !! v) ↔ is_Some (page_mappings s !! v) ∨ ∃ j, k ≤ j < k + Z.of_nat n ∧ v = start + j * 4096.
Proof.
  intros Hst. revert k mapped s. induction n as [|n IH]; intros k mapped s Hn Hnone.
  { exists mapped, s. split; [done|]. split; [by rewrite drop_0|]. intros v. split; [by left|]. intros [?|(j & ? & _)]; [done|lia]. }
  rewrite seqZ_cons by lia. replace (Z.pred (Z.of_nat (S n))) with (Z.of_nat n) by lia. cbn [rm_map_pages].
  assert (page_base (start + k * MPAGE_SIZE) = start + k * 4096) as Eb
    by (rewrite page_base_eq in *; unfold MPAGE_SIZE; rewrite Z.div_add by lia; lia).
  unfold rm_map_page, mbindM, mget. rewrite Eb, (Hnone k ltac:(lia)). rewrite bool_decide_eq_false_2 by (by intros [? ?]).
  unfold allocate_physical_page, mbindM, mget. destruct (free_pages s) as [|f free] eqn:Ef; [cbn in Hn; lia|].
  unfold mput, mmod, mok. cbn [physical_memory page_mappings free_pages rm_set].
  set (s1 := rm_set _ _ free _). destruct (IH (Z.succ k) (mapped ++ [f]) s1) as (ms & s' & E & Hfree & Hmaps).
  - cbn in *. lia.
  - intros j Hj. cbn [s1 page_mappings rm_set]. rewrite lookup_insert_ne by lia. apply Hnone. lia.
  - exists ms, s'. split; [exact E|]. split; [done|]. intros v. rewrite Hmaps. cbn [s1 page_mappings rm_set]. rewrite lookup_insert.
    case_decide as Ev; split.
    + intros _. right. exists k. split; [lia|done].
    + intros _. left. by eexists.
    + intros [?|(j & ? & ->)]; [by left|right; exists j; split; [lia|done]].
    + intros [?|(j & ? & ->)]; [by left|right; exists j; split; [|done]]. destruct (decide (j = k)); [subst; done|lia].
Qed.

(** No operation on pages writes physical memory. *)
Definition keeps_bytes {A} (m : RM A) : Prop := ∀ s, physical_memory (m s).2 = physical_memory s.

Lemma keeps_bytes_bind {A B} (m : RM A) (k : A → RM B) : keeps_bytes m → (∀ a, keeps_bytes (k a)) → keeps_bytes (mbindM m k).
Proof. intros Hm Hk s. specialize (Hm s). unfold mbindM. destruct (m s) as [[] s']; cbn in *; [|done..]. by rewrite Hk. Qed.

Lemma keeps_bytes_map p start mapped ids : keeps_bytes (rm_map_pages start p mapped ids).
Proof.
  assert (∀ v, keeps_bytes (rm_map_page v p)) as Hmap.
  { intros v s. unfold rm_map_page, allocate_physical_page, mbindM, mget, merr. case_bool_decide; [done|]. by destruct (free_pages s). }
  assert (∀ l, keeps_bytes (mfor l (λ paddr, ignore_error (rm_unmap_page paddr)))) as Hun.
  { intros l. induction l as [|x l IH]; [done|]. cbn [mfor]. apply keeps_bytes_bind; [|intros _; exact IH].
    intros s. unfold ignore_error, rm_unmap_page, mbindM, mget. by destruct (page_mappings s !! _). }
  revert mapped. induction ids as [|i ids IH]; intros mapped s; [done|]. cbn [rm_map_pages]. specialize (Hmap (start + i * MPAGE_SIZE) s).
  destruct (rm_map_page _ _ s) as [[pa|e| |] s'] eqn:E; cbn [snd] in Hmap; [by rewrite IH| |done..].
  rewrite <-Hmap. apply keeps_bytes_bind; [apply Hun|]. by intros ? ?.
Qed.

Lemma keeps_bytes_range v n p : keeps_bytes (rm_map_range v n p).
Proof.
  apply keeps_bytes_bind; [by intros s|]. intros [a b]. apply keeps_bytes_map.
Qed.

(** ** Properties *)

(** C17: the memory manager implements a map from pages to their bytes. Any sequence of mapping, unmapping, changing
    protection, and of reads and writes that stay in one page gives the results of that map: a write changes the
    bytes it names in its own page and nothing else, a page without write permission refuses it, unmapped pages are
    reported, and mapping fails only for a mapped page or when no physical page is left. *)
Theorem memory_refines_pages ops s :
  rm_inv s → Forall op_ok ops →
  let rs := (mem_run ops s).1 in let s' := (mem_run ops s).2 in
  rm_inv s' ∧ mem_steps (view s) (length (free_pages s)) ops rs (view s') (length (free_pages s')).
Proof.
  revert s. induction ops as [|o ops IH]; intros s Hi Hops; cbn [mem_run]; [split; [done|constructor]|].
  apply Forall_cons in Hops as [Ho Hops]. destruct (mem_op_refines s o Hi Ho) as (r & s1 & -> & Hi1 & Hs).
  specialize (IH s1 Hi1 Hops). destruct (mem_run ops s1) as [rs s2]. destruct IH as [Hi2 Hs2]. split; [done|]. by econstructor.
Qed.

(** A manager of three pages. *)
Definition demo_rmm : RealMemoryManager :=
  match rm_new 12288 with Ok s => s | _ => mkRmm [] ∅ [] 0 (0, 0) (0, 0) (0, 0) (0, 0) end.

Lemma demo_rmm_inv : rm_inv demo_rmm.
Proof. apply (rm_new_inv 12288); [lia|]. by vm_compute. Qed.

Definition demo_ops : list MemOp :=
  [OMap 0x400000 read_write; OMap 0x401000 read_only; OWrite 0x400ffe [7; 8]; OWrite 0x401000 [9]; ORead 0x400ffe 2; ORead 0x401000 2].

Lemma memory_refines_pages_witness :
  rm_inv (mem_run demo_ops demo_rmm).2 ∧ (mem_run demo_ops demo_rmm).1 = [Ok []; Ok []; Ok []; Err PermissionDenied; Ok [7; 8]; Ok [0; 0]].
Proof.
  split; [|by vm_compute]. apply (memory_refines_pages demo_ops demo_rmm demo_rmm_inv).
  unfold demo_ops. forall_list; cbn; by vm_compute.
Defined.

(** Protection covers only the page an access starts in. When the physical pages of two virtual pages follow each
    other, a write that runs over the end of the first succeeds and changes the start of the second, whatever the
    protection of the second and wherever it is mapped. *)
Theorem cross_page_write_spills s v w p q k data :
  rm_inv s → page_mappings s !! page_base v = Some p → page_mappings s !! w = Some q →
  pr_write (vp_protection p) = true → vp_paddr q = vp_paddr p + 4096 →
  v `mod` 4096 = 4096 - k → 0 < k ≤ zlen data → zlen data ≤ k + 4096 →
  ∃ s', write_virtual v data s = (Ok tt, s') ∧ page_mappings s' = page_mappings s ∧
    page_bytes s' q = put 0 (drop (Z.to_nat k) data) (page_bytes s q).
Proof.
  intros Hi Hp Hq Hw Hadj Hv Hk Hlen. destruct (ri_page _ Hi _ _ Hp) as [(F0 & _ & _) _]. destruct (ri_page _ Hi _ _ Hq) as [(G0 & _ & Gl) _].
  rewrite (write_ok s v p data Hi Hp Hw) by lia. eexists. split; [done|]. split; [done|].
  unfold page_bytes. cbn [physical_memory rm_set]. rewrite Hv. unfold zlen in *. pose proof page_len_eq.
  pose proof (Z.mod_pos_bound v 4096 ltac:(lia)). apply list_eq. intros i. rewrite lookup_field. case_decide as Hl.
  2: { symmetry. apply lookup_ge_None. rewrite length_put; rewrite length_field, ?length_drop; lia. }
  destruct (decide (i < length data - Z.to_nat k)%nat) as [Hin|Hout].
  - rewrite (lookup_put_new (Z.to_nat (vp_paddr p + (4096 - k)))) by lia.
    rewrite (lookup_put_new 0) by (rewrite ?length_drop, ?length_field; lia). rewrite lookup_drop. f_equal. lia.
  - rewrite (lookup_put_old (Z.to_nat (vp_paddr p + (4096 - k)))) by lia.
    rewrite (lookup_put_old 0) by (rewrite ?length_drop, ?length_field; lia). by rewrite lookup_field, decide_True by lia.
Qed.

(** The second page mapped lies in front of the first one in physical memory. *)
Definition demo_two : RealMemoryManager := (mem_run [OMap 0x500000 read_only; OMap 0x400000 read_write] demo_rmm).2.

Lemma cross_page_write_spills_witness :
  ∃ s', write_virtual 0x400fff [1; 2; 3] demo_two = (Ok tt, s') ∧ (read_virtual 0x500000 2 s').1 = Ok [2; 3].
Proof.
  assert (rm_inv demo_two) as Hi.
  { unfold demo_two. pose proof (mem_op_refines) as H. cbn [mem_run].
    destruct (H demo_rmm (OMap 0x500000 read_only) demo_rmm_inv I) as (r1 & s1 & -> & H1 & _).
    destruct (H s1 (OMap 0x400000 read_write) H1 I) as (r2 & s2 & -> & H2 & _). exact H2. }
  destruct (cross_page_write_spills demo_two 0x400fff 0x500000 (mkVPage 0x400000 4096 read_write 1) (mkVPage 0x500000 8192 read_only 1) 1 [1; 2; 3])
    as (s' & E & _ & _); [exact Hi|clear; by vm_compute..|].
  exists s'. split; [exact E|]. assert (s' = (write_virtual 0x400fff [1; 2; 3] demo_two).2) as -> by (by rewrite E). clear. by vm_compute.
Defined.

(** A range that does not fit is not given back. When a range is mapped above physical memory and needs more pages
    than are left, the call reports that allocation failed, and every physical page stays taken by a part of the
    range: the cleanup looks for the pages under their physical addresses. *)
Theorem failed_map_range_leaks s vaddr size prot :
  rm_inv s → page_mappings s = ∅ → zlen (physical_memory s) ≤ vaddr → vaddr `mod` 4096 = 0 → 0 ≤ size →
  vaddr + size + 4095 < 2 ^ 64 → Z.of_nat (length (free_pages s)) * 4096 < size →
  ∃ s', rm_map_range vaddr size prot s = (Err AllocationFailed, s') ∧ free_pages s' = [] ∧
    ∀ j, 0 ≤ j < Z.of_nat (length (free_pages s)) → is_Some (page_mappings s' !! (vaddr + j * 4096)).
Proof.
  intros Hi Hemp Hlow Hal Hs Htop Hbig. pose proof (zlen_nonneg (physical_memory s)).
  assert (page_base vaddr = vaddr) as Eb by (rewrite page_base_eq; dlia).
  unfold rm_map_range, mbindM, mlift, page_span, add64, sub64. rewrite Eb, chk_ok by lia. cbn [rbind].
  rewrite chk_ok by (unfold PAGE_MASK, MPAGE_SIZE; lia). cbn [rbind]. rewrite page_base_eq. unfold PAGE_MASK, MPAGE_SIZE.
  set (n := ((vaddr + size + (4096 - 1)) / 4096 * 4096 - vaddr)). assert (0 ≤ n < 2 ^ 64 ∧ size ≤ n) as [Hn Hsn] by (unfold n; dlia).
  rewrite chk_ok by done. cbn [rbind]. replace (n / 4096) with (Z.of_nat (Z.to_nat (n / 4096))) by (rewrite Z2Nat.id; [done|dlia]).
  destruct (rm_map_pages_exhaust prot vaddr (length (free_pages s)) 0 [] s Hi Eb Hlow ltac:(lia) eq_refl) with (k := Z.to_nat (n / 4096))
    as (s' & E & _ & Hf & _ & Hall); [by rewrite Hemp| |constructor| |].
  - intros j _. by rewrite Hemp.
  - apply Nat2Z.inj_lt. rewrite Z2Nat.id by dlia. dlia.
  - exists s'. split; [exact E|]. split; [exact Hf|]. intros j Hj. apply Hall. lia.
Qed.

Lemma failed_map_range_leaks_witness :
  ∃ s', rm_map_range 0x400000 16384 read_write demo_rmm = (Err AllocationFailed, s') ∧ free_pages s' = [].
Proof.
  destruct (failed_map_range_leaks demo_rmm 0x400000 16384 read_write demo_rmm_inv) as (s' & E & Hf & _); [clear; by vm_compute..|].
  exists s'. split; [exact E|exact Hf].
Defined.
