(* ===== verification/ElfArch.v ===== *)
(** * Architectures of the ELF loader ([crates/Statue/src/arch.rs])

    Sizes and alignments of the three architectures, initial processor states,
    memory layouts, the feature test over the [cpuid] instruction and the
    System V calling convention. *)

From S2P Require Import Prelude Process Elf.

(** ** The trait [Architecture] and its three implementations *)
Record Architecture := mkArch { pointer_size : Z; page_size : Z; code_alignment : Z; data_alignment : Z }.

Definition arch_x86_64 : Architecture := mkArch 8 4096 16 8.
Definition arch_aarch64 : Architecture := mkArch 8 4096 4 8.
Definition arch_riscv : Architecture := mkArch 8 4096 4 8.

(** Division and remainder panic on zero. *)
Definition div64 {E} (a b : Z) : res E Z := if b =? 0 then Panic else Ok (a / b).
Definition rem64 {E} (a b : Z) : res E Z := if b =? 0 then Panic else Ok (a `mod` b).

Definition is_aligned (address alignment : Z) : ER bool :=
  let? r := rem64 address alignment in Ok (r =? 0).

Definition align_up (address alignment : Z) : ER Z :=
  let? a := add64 address alignment in
  let? a := sub64 a 1 in
  let? q := div64 a alignment in
  mul64 q alignment.

Definition align_down (address alignment : Z) : ER Z :=
  let? q := div64 address alignment in
  mul64 q alignment.

(** ** Features; [cpuid leaf] is what the instruction leaves in [ecx] and [edx] *)
Inductive CpuFeature : Type := FX86_64 | SSE | AVX | SYSCALL.

Definition cpuid_feature (cpuid : Z → Z * Z) (leaf bit : Z) : bool :=
  let (ecx, edx) := cpuid leaf in
  if (leaf =? 1) && (bit <? 32) then negb (Z.land ecx (Z.shiftl 1 bit) =? 0)
  else negb (Z.land edx (Z.shiftl 1 bit) =? 0).

Definition cpuid_extended_feature (cpuid : Z → Z * Z) (leaf bit : Z) : bool :=
  let (ecx, edx) := cpuid leaf in negb (Z.land edx (Z.shiftl 1 bit) =? 0).

Definition has_feature (cpuid : Z → Z * Z) (feature : CpuFeature) : bool :=
  match feature with
  | FX86_64 => cpuid_extended_feature cpuid 0x80000001 29
  | SSE => cpuid_feature cpuid 1 25
  | AVX => cpuid_feature cpuid 1 28
  | SYSCALL => cpuid_extended_feature cpuid 0x80000001 11
  end.

Definition check_features (cpuid : Z → Z * Z) : ER unit :=
  if negb (has_feature cpuid FX86_64) then Err UnsupportedArchitecture else
  if negb (has_feature cpuid SSE) then Err UnsupportedArchitecture else
  Ok tt.

(** ** Processor states; the general registers of x86_64 by their names *)
Record ExecutionState := mkExec { rip : Z; rflags : Z; gpr : Reg → Z }.
Record AArch64ExecutionState := mkA64 { a_pc : Z; a_sp : Z; a_x : list Z; pstate : Z }.
Record RiscVExecutionState := mkRv { v_pc : Z; v_x : list Z }.

Definition x86_setup : ExecutionState := mkExec 0 0x202 (λ _, 0).
Definition a64_setup : AArch64ExecutionState := mkA64 0 0 (replicate 31 0) 0.
Definition rv_setup : RiscVExecutionState := mkRv 0 (replicate 32 0).

(** ** [ArchitectureType] *)
Inductive ArchitectureType : Type := AtX86_64 | AtAArch64 | AtRiscV.

Definition from_machine (m : ElfMachine) : ER ArchitectureType :=
  match m with
  | X86_64 => Ok AtX86_64 | AArch64 => Ok AtAArch64 | RiscV => Ok AtRiscV
  | _ => Err UnsupportedArchitecture
  end.

Definition as_architecture (a : ArchitectureType) : Architecture :=
  match a with AtX86_64 => arch_x86_64 | AtAArch64 => arch_aarch64 | AtRiscV => arch_riscv end.

Definition arch_machine (a : ArchitectureType) : ElfMachine :=
  match a with AtX86_64 => X86_64 | AtAArch64 => AArch64 | AtRiscV => RiscV end.

(** ** Memory layouts *)
Record MemoryLayout := mkLayout {
  code_base : Z; data_base : Z; stack_base : Z; stack_size : Z; heap_base : Z; heap_size : Z;
}.

Definition default_x86_64 : MemoryLayout := mkLayout 0x400000 0x600000 0x7fffffff000 0x100000 0x800000 0x100000000.
Definition default_aarch64 : MemoryLayout := mkLayout 0x400000 0x600000 0x7fffffff000 0x100000 0x800000 0x100000000.
Definition default_riscv : MemoryLayout := mkLayout 0x10000 0x20000 0x7fffffff000 0x100000 0x30000 0x100000000.

Definition default_for_architecture (a : ArchitectureType) : MemoryLayout :=
  match a with AtX86_64 => default_x86_64 | AtAArch64 => default_aarch64 | AtRiscV => default_riscv end.

Definition layout_validate (l : MemoryLayout) : ER unit :=
  let? c := (if code_base l <? data_base l then let? e := add64 (code_base l) 0x200000 in Ok (data_base l <? e) else Ok false) in
  if (c : bool) then Err InvalidAddress else
  let? d := (if data_base l <? heap_base l then let? e := add64 (data_base l) 0x200000 in Ok (heap_base l <? e) else Ok false) in
  if (d : bool) then Err InvalidAddress else
  let? h := (if heap_base l <? stack_base l then
               let? e := add64 (heap_base l) (heap_size l) in
               let? b := sub64 (stack_base l) (stack_size l) in
               Ok (b <? e)
             else Ok false) in
  if (h : bool) then Err InvalidAddress else Ok tt.

(** ** The calling convention [SystemVAbi]; a [dyn Any] is a state of x86_64 or something else *)
Definition ARG_REGS : list Reg := [RDI; RSI; RDX; RCX; R8; R9].

Definition with_args (args : list Z) (s : ExecutionState) : ExecutionState :=
  mkExec (rip s) (rflags s) (foldl (λ g ra, set_reg ra.1 ra.2 g) (gpr s) (zip ARG_REGS args)).

Definition setup_arguments (args : list Z) (state : option ExecutionState) : ER ExecutionState :=
  match state with
  | Some s => Ok (with_args args s)
  | None => Err ExecutionSetupFailed
  end.

Definition get_return_value (state : option ExecutionState) : Z :=
  match state with Some s => gpr s RAX | None => 0 end.

(** ** Alignment *)
Lemma align_up_least a n :
  0 ≤ a → 0 < n → a + n < 2 ^ 64 →
  ∃ r, align_up a n = Ok r ∧ a ≤ r < a + n ∧ r `mod` n = 0.
Proof.
  intros Ha Hn Ht. unfold align_up, add64, sub64, mul64, div64. rewrite chk_ok by lia. cbn [rbind]. rewrite chk_ok by lia. cbn [rbind].
  rewrite (proj2 (Z.eqb_neq n 0)) by lia. cbn [rbind].
  assert (a ≤ (a + n - 1) / n * n < a + n) as Hr by (pose proof (Z.div_mod (a + n - 1) n); pose proof (Z.mod_pos_bound (a + n - 1) n); nia).
  rewrite chk_ok by lia. eexists. split; [done|]. split; [done|]. apply Z.mod_mul. lia.
Qed.

Lemma align_down_greatest a n :
  0 ≤ a < 2 ^ 64 → 0 < n → ∃ r, align_down a n = Ok r ∧ a - n < r ≤ a ∧ 0 ≤ r ∧ r `mod` n = 0.
Proof.
  intros Ha Hn. unfold align_down, mul64, div64. rewrite (proj2 (Z.eqb_neq n 0)) by lia. cbn [rbind].
  assert (a - n < a / n * n ≤ a ∧ 0 ≤ a / n * n) as Hr
    by (pose proof (Z.div_mod a n); pose proof (Z.mod_pos_bound a n); pose proof (Z.div_pos a n); nia).
  rewrite chk_ok by lia. eexists. split; [done|]. split; [apply Hr|]. split; [lia|]. apply Z.mod_mul. lia.
Qed.

Lemma from_machine_back m a : from_machine m = Ok a ↔ arch_machine a = m.
Proof. split; destruct m, a; cbn; congruence. Qed.

(** The registers after [setup_arguments]: the first six arguments, everything else as before. *)
Lemma with_args_lookup args s r :
  gpr (with_args args s) r =
    match find_index (λ r', bool_decide (r' = r)) ARG_REGS with
    | Some i => default (gpr s r) (args !! i)
    | None => gpr s r
    end.
Proof. unfold with_args. destruct args as [|a [|b [|c [|d [|e [|f args]]]]]]; destruct r; reflexivity. Qed.

Record layout_ranges (l : MemoryLayout) : Prop := {
  lr_code : 0 ≤ code_base l < 2 ^ 62; lr_data : 0 ≤ data_base l < 2 ^ 62; lr_heap : 0 ≤ heap_base l < 2 ^ 62;
  lr_heap_size : 0 ≤ heap_size l < 2 ^ 62; lr_stack : 0 ≤ stack_size l ≤ stack_base l; lr_top : stack_base l < 2 ^ 62;
}.

(** ** Properties *)

(** What the check of a memory layout decides. For areas in the order code, data, heap, stack it accepts exactly
    the layouts in which each of them ends before the next begins; areas in the opposite order are not compared, so
    layouts with a common base pass. The default layouts of x86_64 and AArch64 are accepted, the one of RISC-V is
    rejected. *)
Theorem layout_validate_exact l :
  layout_ranges l →
  (code_base l < data_base l → data_base l < heap_base l → heap_base l < stack_base l →
   layout_validate l = (if decide (code_base l + 0x200000 ≤ data_base l ∧ data_base l + 0x200000 ≤ heap_base l ∧
                                   heap_base l + heap_size l ≤ stack_base l - stack_size l) then Ok tt else Err InvalidAddress)) ∧
  (data_base l ≤ code_base l → heap_base l ≤ data_base l → stack_base l ≤ heap_base l → layout_validate l = Ok tt) ∧
  layout_validate (default_for_architecture AtX86_64) = Ok tt ∧
  layout_validate (default_for_architecture AtAArch64) = Ok tt ∧
  layout_validate (default_for_architecture AtRiscV) = Err InvalidAddress.
Proof.
  intros [Hc Hd Hh Hs Hst Ht]. split; [|split; [|by vm_compute]].
  - intros H1 H2 H3. unfold layout_validate, add64, sub64. rewrite !(proj2 (Z.ltb_lt _ _)) by done.
    rewrite chk_ok by lia. cbn [rbind]. destruct (Z.ltb_spec (data_base l) (code_base l + 2097152)); [rewrite decide_False by lia; done|].
    rewrite chk_ok by lia. cbn [rbind]. destruct (Z.ltb_spec (heap_base l) (data_base l + 2097152)); [rewrite decide_False by lia; done|].
    rewrite !chk_ok by lia. cbn [rbind]. destruct (Z.ltb_spec (stack_base l - stack_size l) (heap_base l + heap_size l));
      [by rewrite decide_False by lia|by rewrite decide_True by lia].
  - intros H1 H2 H3. unfold layout_validate. by rewrite !(proj2 (Z.ltb_ge _ _)) by done.
Qed.

Lemma layout_validate_exact_witness :
  layout_validate (mkLayout 0x400000 0x500000 0x7fffffff000 0x100000 0x800000 0x1000) = Err InvalidAddress.
Proof.
  assert (layout_ranges (mkLayout 0x400000 0x500000 0x7fffffff000 0x100000 0x800000 0x1000)) as Hl by (split; cbn; lia).
  destruct (layout_validate_exact _ Hl) as [H _]. rewrite H by (cbn; lia). reflexivity.
Defined.
