(* ===== verification/ElfReloc.v ===== *)
(** * Relocations ([crates/Statue/src/relocation.rs])

    Relocation types of the three architectures, the entries of [Rel] and
    [Rela] sections with their tables, and the processor that patches a slice
    of memory. A slice of raw memory is a pointer and a length; raw memory maps
    the addresses that exist to their bytes, and an access to any other address
    faults. *)

From S2P Require Import Prelude Elf.

(** ** Relocation types *)
Inductive X86_64RelocationType : Type :=
  | XNone | XR64 | XPc32 | XGot32 | XPlt32 | XCopy | XGlobDat | XJumpSlot | XRelative | XGotPcRel | XR32 | XR32S
  | XR16 | XPc16 | XR8 | XPc8.
Inductive AArch64RelocationType : Type :=
  | ANone | Abs64 | Abs32 | Abs16 | PcRel64 | PcRel32 | PcRel16 | ACopy | AGlobDat | AJumpSlot | ARelative.
Inductive RiscVRelocationType : Type :=
  | VNone | VR32 | VR64 | VRelative | VCopy | VJumpSlot | TlsDtpmod32 | TlsDtpmod64 | TlsDtprel32 | TlsDtprel64
  | TlsTprel32 | TlsTprel64.

Inductive RelocationType : Type :=
  | RX86_64 (t : X86_64RelocationType)
  | RAArch64 (t : AArch64RelocationType)
  | RRiscV (t : RiscVRelocationType)
  | Unknown (v : Z).

Definition from_raw (value : Z) (m : ElfMachine) : RelocationType :=
  match m with
  | X86_64 =>
      match value with
      | 0 => RX86_64 XNone | 1 => RX86_64 XR64 | 2 => RX86_64 XPc32 | 3 => RX86_64 XGot32 | 4 => RX86_64 XPlt32
      | 5 => RX86_64 XCopy | 6 => RX86_64 XGlobDat | 7 => RX86_64 XJumpSlot | 8 => RX86_64 XRelative
      | 9 => RX86_64 XGotPcRel | 10 => RX86_64 XR32 | 11 => RX86_64 XR32S | 12 => RX86_64 XR16 | 13 => RX86_64 XPc16
      | 14 => RX86_64 XR8 | 15 => RX86_64 XPc8 | _ => Unknown value
      end
  | AArch64 =>
      match value with
      | 0 => RAArch64 ANone | 257 => RAArch64 Abs64 | 258 => RAArch64 Abs32 | 259 => RAArch64 Abs16
      | 260 => RAArch64 PcRel64 | 261 => RAArch64 PcRel32 | 262 => RAArch64 PcRel16 | 1024 => RAArch64 ACopy
      | 1025 => RAArch64 AGlobDat | 1026 => RAArch64 AJumpSlot | 1027 => RAArch64 ARelative | _ => Unknown value
      end
  | RiscV =>
      match value with
      | 0 => RRiscV VNone | 1 => RRiscV VR32 | 2 => RRiscV VR64 | 3 => RRiscV VRelative | 4 => RRiscV VCopy
      | 5 => RRiscV VJumpSlot | 6 => RRiscV TlsDtpmod32 | 7 => RRiscV TlsDtpmod64 | 8 => RRiscV TlsDtprel32
      | 9 => RRiscV TlsDtprel64 | 10 => RRiscV TlsTprel32 | 11 => RRiscV TlsTprel64 | _ => Unknown value
      end
  | _ => Unknown value
  end.

(** ** Entries *)
Record Relocation := mkRel { r_offset : Z; r_type : RelocationType; r_symbol : Z }.
Record RelocationAddend := mkRela { ra_offset : Z; ra_type : RelocationType; ra_symbol : Z; ra_addend : Z }.

Definition read_i32 (data : list Z) (offset : Z) (le : bool) : ER Z := let? v := read_u32 data offset le in Ok (as_signed 32 v).
Definition read_i64 (data : list Z) (offset : Z) (le : bool) : ER Z := let? v := read_u64 data offset le in Ok (as_signed 64 v).

Definition rel_parse (m : ElfMachine) (data : list Z) (offset : Z) (is64 le : bool) : ER Relocation :=
  let? end_ := add64 offset (if is64 then 16 else 8) in
  if zlen data <? end_ then Err BufferTooSmall else
  if is64 then
    let? addr := read_u64 data offset le in
    let? info := read_u64 data (offset + 8) le in
    Ok (mkRel addr (from_raw (as_u32 info) m) (as_u32 (Z.shiftr info 32)))
  else
    let? addr := read_u32 data offset le in
    let? info := read_u32 data (offset + 4) le in
    Ok (mkRel addr (from_raw (Z.land info 0xff) m) (Z.shiftr info 8)).

Definition rela_parse (m : ElfMachine) (data : list Z) (offset : Z) (is64 le : bool) : ER RelocationAddend :=
  let? end_ := add64 offset (if is64 then 24 else 12) in
  if zlen data <? end_ then Err BufferTooSmall else
  if is64 then
    let? addr := read_u64 data offset le in
    let? info := read_u64 data (offset + 8) le in
    let? addend := read_i64 data (offset + 16) le in
    Ok (mkRela addr (from_raw (as_u32 info) m) (as_u32 (Z.shiftr info 32)) addend)
  else
    let? addr := read_u32 data offset le in
    let? info := read_u32 data (offset + 4) le in
    let? addend := read_i32 data (offset + 8) le in
    Ok (mkRela addr (from_raw (Z.land info 0xff) m) (Z.shiftr info 8) addend).

(** [RelocationIter] and [RelocationAddendIter]: tables at offset 0 of their section's data. *)
Definition reloc_iter_new (entry_size : Z) (section_data : list Z) (is64 le : bool) : ER TableIter :=
  if negb (zlen section_data `mod` entry_size =? 0) then Err InvalidRelocation else
  Ok (mkIter section_data 0 (zlen section_data / entry_size) 0 entry_size is64 le).

Definition rel_iter_new (section_data : list Z) (is64 le : bool) : ER TableIter :=
  reloc_iter_new (if is64 then 16 else 8) section_data is64 le.
Definition rela_iter_new (section_data : list Z) (is64 le : bool) : ER TableIter :=
  reloc_iter_new (if is64 then 24 else 12) section_data is64 le.

(** ** Raw memory *)
Abbreviation Host := (gmap Z Z).

Fixpoint host_write {E} (ptr : Z) (bs : list Z) : M Host E unit := λ h,
  match bs with
  | [] => (Ok tt, h)
  | b :: bs => if bool_decide (is_Some (h !! ptr)) then host_write (ptr + 1) bs (<[ptr := b]> h) else (Panic, h)
  end.

(** The bytes of [slice::from_raw_parts(ptr, n)], when they are read. *)
Definition host_read {E} (ptr n : Z) : M Host E (list Z) := λ h,
  match mapM (λ a, h !! a) (seqZ ptr n) with Some bs => (Ok bs, h) | None => (Panic, h) end.

(** ** The processor; [memory] is the slice's pointer and length *)

(** [memory[location..location + n].copy_from_slice(..)] behind its guard. *)
Definition patch (memory : Z * Z) (location : Z) (bs : list Z) : M Host ElfError unit :=
  let! end_ := mlift (add64 location (zlen bs)) in
  if end_ <=? memory.2 then host_write (memory.1 + location) bs else merr InvalidOffset.

Definition apply_relocation_value (base_address offset : Z) (t : RelocationType) (symbol_value addend : Z) (memory : Z * Z) :
    M Host ElfError unit :=
  if memory.2 <=? offset then merr InvalidOffset else
  match t with
  | RX86_64 XNone => mok tt
  | RX86_64 XR64 => patch memory offset (le_bytes 8 (wrap64 (symbol_value + wrap64 addend)))
  | RX86_64 XRelative => patch memory offset (le_bytes 8 (wrap64 (base_address + wrap64 addend)))
  | RX86_64 XR32 => patch memory offset (le_bytes 4 (as_u32 (wrap64 (symbol_value + wrap64 addend))))
  | _ => merr UnsupportedRelocation
  end.

(** The symbol's value is 0 with and without a symbol. *)
Definition apply_relocation (base_address : Z) (r : Relocation) (resolver : SymbolResolver) (memory : Z * Z) : M Host ElfError unit :=
  let symbol_value := if r_symbol r =? 0 then 0 else 0 in
  apply_relocation_value base_address (r_offset r) (r_type r) symbol_value 0 memory.

Definition apply_relocation_addend (base_address : Z) (r : RelocationAddend) (resolver : SymbolResolver) (memory : Z * Z) :
    M Host ElfError unit :=
  let symbol_value := if ra_symbol r =? 0 then 0 else 0 in
  apply_relocation_value base_address (ra_offset r) (ra_type r) symbol_value (ra_addend r) memory.

(** ** Raw memory as a map *)
Lemma host_write_ok {E} ptr bs h :
  (∀ a, ptr ≤ a < ptr + zlen bs → is_Some (h !! a)) → @host_write E ptr bs h = (Ok tt, map_seqZ ptr bs ∪ h).
Proof.
  revert ptr h. induction bs as [|b bs IH]; intros ptr h Hm; [cbn; by rewrite map_empty_union|].
  cbn [host_write]. unfold zlen in Hm. cbn [length] in Hm. rewrite bool_decide_eq_true_2 by (apply Hm; lia).
  rewrite IH. 2: { intros a Ha. rewrite lookup_insert. case_decide; [by eexists|]. apply Hm. unfold zlen in Ha. lia. }
  f_equal. cbn [map_seqZ]. rewrite <-insert_union_l. rewrite insert_union_r; [done|]. apply lookup_map_seqZ_None. lia.
Qed.

(** Bytes behind a pointer. *)
Definition holds (h : Host) (ptr : Z) (bs : list Z) : Prop := ∀ i b, bs !! i = Some b → h !! (ptr + Z.of_nat i) = Some b.

Lemma holds_write h ptr bs : holds (map_seqZ ptr bs ∪ h) ptr bs.
Proof.
  intros i b Hi. apply lookup_union_Some_l. apply lookup_map_seqZ_Some. split; [lia|]. by replace (Z.to_nat (ptr + Z.of_nat i - ptr)) with i by lia.
Qed.

Lemma host_read_ok {E} ptr bs h : holds h ptr bs → @host_read E ptr (zlen bs) h = (Ok bs, h).
Proof.
  intros Hh. unfold host_read. assert (mapM (λ a, h !! a) (seqZ ptr (zlen bs)) = Some bs) as ->; [|done].
  apply mapM_Some_2. revert ptr Hh. induction bs as [|b bs IH]; intros ptr Hh; [constructor|].
  unfold zlen. cbn [length]. rewrite seqZ_cons by lia. constructor.
  - rewrite <-(Hh 0%nat b eq_refl). f_equal. lia.
  - replace (Z.pred (Z.of_nat (S (length bs)))) with (zlen bs) by (unfold zlen; lia). apply IH. intros i b' Hi.
    rewrite <-(Hh (S i) b' Hi). f_equal. lia.
Qed.

Lemma holds_app h ptr xs ys : holds h ptr (xs ++ ys) ↔ holds h ptr xs ∧ holds h (ptr + zlen xs) ys.
Proof.
  split.
  - intros Hh. split.
    + intros i b Hi. apply Hh. by apply lookup_app_l_Some.
    + intros i b Hi. replace (ptr + zlen xs + Z.of_nat i) with (ptr + Z.of_nat (length xs + i)) by (unfold zlen; lia).
      apply Hh. rewrite lookup_app_r by lia. by replace (length xs + i - length xs)%nat with i by lia.
  - intros [Hx Hy] i b [Hi|[Hl Hi]]%lookup_app_Some; [by apply Hx|].
    replace (ptr + Z.of_nat i) with (ptr + zlen xs + Z.of_nat (i - length xs)) by (unfold zlen; lia). by apply Hy.
Qed.

(** A write elsewhere. *)
Lemma lookup_write_other (h : Host) ptr bs a : ¬ (ptr ≤ a < ptr + zlen bs) → (map_seqZ ptr bs ∪ h) !! a = h !! a.
Proof. intros Ha. apply lookup_union_r. apply lookup_map_seqZ_None. unfold zlen in *. lia. Qed.

Lemma holds_write_other h ptr bs p xs : ptr + zlen bs ≤ p ∨ p + zlen xs ≤ ptr → holds h p xs → holds (map_seqZ ptr bs ∪ h) p xs.
Proof.
  intros Hd Hh i b Hi. rewrite lookup_write_other; [by apply Hh|]. apply lookup_lt_Some in Hi. unfold zlen in *. lia.
Qed.

(** ** The entries of a [Rela] section as fields *)
Definition reloc_code (t : RelocationType) : Z :=
  match t with
  | RX86_64 t =>
      match t with
      | XNone => 0 | XR64 => 1 | XPc32 => 2 | XGot32 => 3 | XPlt32 => 4 | XCopy => 5 | XGlobDat => 6 | XJumpSlot => 7
      | XRelative => 8 | XGotPcRel => 9 | XR32 => 10 | XR32S => 11 | XR16 => 12 | XPc16 => 13 | XR8 => 14 | XPc8 => 15
      end
  | RAArch64 t =>
      match t with
      | ANone => 0 | Abs64 => 257 | Abs32 => 258 | Abs16 => 259 | PcRel64 => 260 | PcRel32 => 261 | PcRel16 => 262
      | ACopy => 1024 | AGlobDat => 1025 | AJumpSlot => 1026 | ARelative => 1027
      end
  | RRiscV t =>
      match t with
      | VNone => 0 | VR32 => 1 | VR64 => 2 | VRelative => 3 | VCopy => 4 | VJumpSlot => 5 | TlsDtpmod32 => 6
      | TlsDtpmod64 => 7 | TlsDtprel32 => 8 | TlsDtprel64 => 9 | TlsTprel32 => 10 | TlsTprel64 => 11
      end
  | Unknown v => v
  end.

(** The type word and symbol number share a word, split at bit 32 or bit 8. *)
Definition info_bits (is64 : bool) : Z := if is64 then 32 else 8.
Definition reloc_info (is64 : bool) (t : RelocationType) (symbol : Z) : Z := symbol * 2 ^ info_bits is64 + reloc_code t.

Definition addr_width (is64 : bool) : nat := if is64 then 8%nat else 4%nat.

Definition rel_fields (is64 : bool) (r : Relocation) : list (nat * Z) :=
  [(addr_width is64, r_offset r); (addr_width is64, reloc_info is64 (r_type r) (r_symbol r))].
Definition rela_fields (is64 : bool) (r : RelocationAddend) : list (nat * Z) :=
  [(addr_width is64, ra_offset r); (addr_width is64, reloc_info is64 (ra_type r) (ra_symbol r));
   (addr_width is64, ra_addend r `mod` 2 ^ (Z.of_nat (addr_width is64) * 8))].

Record reloc_ok (m : ElfMachine) (is64 : bool) (offset : Z) (t : RelocationType) (symbol : Z) : Prop := {
  ro_offset : 0 ≤ offset < 2 ^ (Z.of_nat (addr_width is64) * 8);
  ro_type : from_raw (reloc_code t) m = t;
  ro_code : 0 ≤ reloc_code t < 2 ^ info_bits is64;
  ro_symbol : 0 ≤ symbol < 2 ^ (Z.of_nat (addr_width is64) * 8 - info_bits is64);
}.

Definition rel_ok (m : ElfMachine) (is64 : bool) (r : Relocation) : Prop := reloc_ok m is64 (r_offset r) (r_type r) (r_symbol r).
Definition rela_ok (m : ElfMachine) (is64 : bool) (r : RelocationAddend) : Prop :=
  reloc_ok m is64 (ra_offset r) (ra_type r) (ra_symbol r) ∧
  - 2 ^ (Z.of_nat (addr_width is64) * 8 - 1) ≤ ra_addend r < 2 ^ (Z.of_nat (addr_width is64) * 8 - 1).

Lemma as_signed_mod w z : 0 < w → - 2 ^ (w - 1) ≤ z < 2 ^ (w - 1) → as_signed w (z `mod` 2 ^ w) = z.
Proof.
  intros Hw Hz. unfold as_signed. assert (2 ^ w = 2 * 2 ^ (w - 1)) as E by (rewrite <-Z.pow_succ_r by lia; f_equal; lia).
  destruct (Z.ltb_spec (z `mod` 2 ^ w) (2 ^ (w - 1))) as [Hl|Hl].
  - destruct (decide (0 ≤ z)); [apply Z.mod_small; lia|]. rewrite <-(Z_mod_plus_full z 1), Z.mod_small in Hl by lia. lia.
  - destruct (decide (0 ≤ z)); [rewrite Z.mod_small in Hl by lia; lia|]. rewrite <-(Z_mod_plus_full z 1), Z.mod_small by lia. lia.
Qed.

Lemma info_split is64 m off t sym :
  reloc_ok m is64 off t sym →
  field_ok (addr_width is64, reloc_info is64 t sym) ∧ reloc_info is64 t sym `mod` 2 ^ info_bits is64 = reloc_code t ∧
  Z.shiftr (reloc_info is64 t sym) (info_bits is64) = sym.
Proof.
  intros [_ _ Hc Hs]. unfold field_ok, reloc_info. cbn [fst snd]. rewrite Z.shiftr_div_pow2 by (by destruct is64). split; [|split].
  - destruct is64; cbn in *; lia.
  - rewrite Z.add_comm, Z_mod_plus_full. by apply Z.mod_small.
  - rewrite Z.div_add_l, Z.div_small by (destruct is64; cbn in *; lia). lia.
Qed.

Ltac entry_parse Hlen :=
  match goal with
  | |- context [add64 (zlen ?pre) ?n] =>
      unfold add64; rewrite chk_ok by (unfold zlen in *; rewrite !length_app, length_enc_all in Hlen; cbn in Hlen; lia); cbn [rbind];
      rewrite (proj2 (Z.ltb_ge _ _)) by (unfold zlen; rewrite !length_app, length_enc_all; cbn; lia); clear Hlen
  end.

#[export] Instance rel_format m : EntryFormat (rel_parse m) (λ is64, if is64 then 16 else 8) rel_fields (rel_ok m).
Proof.
  split; [by intros []|]. intros is64 le [off t sym] pre post Hok Hlen. unfold rel_ok in Hok. cbn in Hok.
  destruct (info_split _ _ _ _ _ Hok) as (Hf & Hc & Hs). destruct Hok as [Ho Ht _ Hsym]. change (field_ok (addr_width is64, off)) in Ho.
  unfold rel_parse, read_u32, read_u64. destruct is64; unfold rel_fields in *; cbn [addr_width info_bits r_offset r_type r_symbol] in *;
    entry_parse Hlen; read_at 0%nat; read_at 1%nat; do 2 f_equal.
  - unfold as_u32. by rewrite Hc.
  - rewrite Hs. unfold as_u32. by apply Z.mod_small.
  - change 255 with (Z.ones 8). rewrite Z.land_ones by lia. by rewrite Hc.
  - done.
Qed.

#[export] Instance rela_format m : EntryFormat (rela_parse m) (λ is64, if is64 then 24 else 12) rela_fields (rela_ok m).
Proof.
  split; [by intros []|]. intros is64 le [off t sym add] pre post [Hok Hadd] Hlen. cbn in Hok, Hadd.
  destruct (info_split _ _ _ _ _ Hok) as (Hf & Hc & Hs). destruct Hok as [Ho Ht _ Hsym]. change (field_ok (addr_width is64, off)) in Ho.
  assert (field_ok (addr_width is64, add `mod` 2 ^ (Z.of_nat (addr_width is64) * 8))) as Ha by (apply Z.mod_pos_bound; by destruct is64).
  unfold rela_parse, read_i32, read_i64, read_u32, read_u64.
  destruct is64; unfold rela_fields in *; cbn [addr_width info_bits ra_offset ra_type ra_symbol ra_addend] in *;
    entry_parse Hlen; read_at 0%nat; read_at 1%nat; rewrite rbind_assoc; read_at 2%nat; do 2 f_equal.
  - unfold as_u32. by rewrite Hc.
  - rewrite Hs. unfold as_u32. by apply Z.mod_small.
  - by apply (as_signed_mod 64).
  - change 255 with (Z.ones 8). rewrite Z.land_ones by lia. by rewrite Hc.
  - done.
  - by apply (as_signed_mod 32).
Qed.

Lemma reloc_iter_table {A} (parse : EntryParser A) size fields_of ok `{!EntryFormat parse size fields_of ok} is64 le l :
  0 < size is64 → Forall (ok is64) l → zlen (enc_table fields_of is64 le l) < 2 ^ 63 →
  ∃ it, reloc_iter_new (size is64) (enc_table fields_of is64 le l) is64 le = Ok it ∧ it_count it = zlen l ∧
    ∀ i a, l !! i = Some a → iter_get parse it (Z.of_nat i) = Ok a.
Proof.
  intros Hs Hok Hlen. pose proof (zlen_enc_table parse size fields_of ok is64 le l) as Hz.
  unfold reloc_iter_new. rewrite Hz, Z.mod_mul, Z.div_mul by lia. eexists. split; [reflexivity|]. split; [done|].
  intros i a Hi. pose proof (iter_get_table parse size fields_of ok is64 le l [] [] i a) as H.
  rewrite app_nil_l, app_nil_r in H. by apply H.
Qed.

(** ** Properties *)

(** Reading relocation tables. A section with the given [Rel] or [Rela] entries of an architecture, in either class
    and byte order, gives an iterator over as many entries, which are read back: offset, type, symbol and signed
    addend. *)
Theorem relocation_tables_roundtrip m is64 le rels relas :
  Forall (rel_ok m is64) rels → Forall (rela_ok m is64) relas →
  zlen (enc_table rel_fields is64 le rels) < 2 ^ 63 → zlen (enc_table rela_fields is64 le relas) < 2 ^ 63 →
  (∃ it, rel_iter_new (enc_table rel_fields is64 le rels) is64 le = Ok it ∧ it_count it = zlen rels ∧
     ∀ i r, rels !! i = Some r → iter_get (rel_parse m) it (Z.of_nat i) = Ok r) ∧
  ∃ it, rela_iter_new (enc_table rela_fields is64 le relas) is64 le = Ok it ∧ it_count it = zlen relas ∧
    ∀ i r, relas !! i = Some r → iter_get (rela_parse m) it (Z.of_nat i) = Ok r.
Proof.
  intros H1 H2 L1 L2. split.
  - apply (reloc_iter_table (rel_parse m) (λ is64, if is64 then 16 else 8) rel_fields (rel_ok m)); [by destruct is64|done..].
  - apply (reloc_iter_table (rela_parse m) (λ is64, if is64 then 24 else 12) rela_fields (rela_ok m)); [by destruct is64|done..].
Qed.

Lemma relocation_tables_roundtrip_witness :
  ∃ it, rela_iter_new (enc_table rela_fields true true [mkRela 0x3000 (RX86_64 XRelative) 0 (-8)]) true true = Ok it ∧
    iter_get (rela_parse X86_64) it 0 = Ok (mkRela 0x3000 (RX86_64 XRelative) 0 (-8)).
Proof.
  destruct (relocation_tables_roundtrip X86_64 true true [] [mkRela 0x3000 (RX86_64 XRelative) 0 (-8)]) as [_ (it & E & _ & H)];
    [constructor| |by vm_compute..|exists it; split; [exact E|exact (H 0%nat _ eq_refl)]].
  constructor; [|constructor]. split; [split|]; by vm_compute.
Defined.
