(* ===== verification/ElfLoad.v ===== *)
(** * The ELF loader ([crates/Statue/src/loader.rs])

    Loading maps the segments of a file through an allocator, copies their
    bytes to the pointers the allocator returns, clears the rest and applies
    the relocations. The state is the loader's configuration, with the
    allocator in it, and raw memory. *)

From S2P Require Import Prelude Elf ElfMemory ElfArch ElfReloc.
From S2P Require Import Process.

(** ** The trait [MemoryAllocator] *)
Class MemoryAllocator (A : Type) := {
  allocate : Z → Z → M A ElfError Z;
  deallocate : Z → Z → M A ElfError unit;
  map_at : Z → Z → bool → bool → M A ElfError Z;
  unmap : Z → Z → M A ElfError unit;
  protect : Z → Z → bool → bool → M A ElfError unit;
}.

(** *** [SimpleAllocator] *)
Record SimpleAllocator := mkSimple { sa_current : Z; sa_size : Z; sa_used : Z }.

(** A buffer is its pointer and length. *)
Definition simple_new (buffer : Z * Z) : SimpleAllocator := mkSimple buffer.1 buffer.2 0.

Definition simple_allocate (size alignment : Z) : M SimpleAllocator ElfError Z :=
  let! s := mget in
  let! up := mlift (add64 (sa_current s) alignment) in
  let! up := mlift (sub64 up 1) in
  let! mask := mlift (sub64 alignment 1) in
  let aligned := Z.ldiff up mask in
  let! start := mlift (sub64 (sa_current s) (sa_used s)) in
  let! offset := mlift (sub64 aligned start) in
  let! sum := mlift (add64 (sa_used s) offset) in
  let! sum := mlift (add64 sum size) in
  if sa_size s <? sum then merr AllocationFailed else
  let! more := mlift (add64 offset size) in
  let! used := mlift (add64 (sa_used s) more) in
  let! _ := mput (mkSimple (aligned + size) (sa_size s) used) in
  mok aligned.

Definition simple_map_at (vaddr size : Z) (writable executable : bool) : M SimpleAllocator ElfError Z :=
  let! s := mget in
  let! end_ := mlift (add64 vaddr size) in
  if U64_MAX <? end_ then merr InvalidAddress else
  let! sum := mlift (add64 (sa_used s) size) in
  if sa_size s <? sum then merr AllocationFailed else
  let! used := mlift (add64 (sa_used s) size) in
  let! _ := mput (mkSimple (sa_current s) (sa_size s) used) in
  mok vaddr.

Definition simple_protect (vaddr size : Z) (writable executable : bool) : M SimpleAllocator ElfError unit :=
  if negb writable && negb executable then merr PermissionDenied else mok tt.

#[export] Instance simple_allocator : MemoryAllocator SimpleAllocator := {|
  allocate := simple_allocate;
  deallocate _ _ := mok tt;
  map_at := simple_map_at;
  unmap _ _ := mok tt;
  protect := simple_protect;
|}.

(** *** [RealAllocator] *)
Record RealAllocator := mkReal { memory_manager : RealMemoryManager; next_virtual_addr : Z }.

Definition real_new (memory_size : Z) : ER RealAllocator :=
  let? m := rm_new memory_size in Ok (mkReal m 0x400000).

Abbreviation RA := (M RealAllocator ElfError).

Definition on_manager {A} : RM A → RA A := zoom memory_manager (λ m a, mkReal m (next_virtual_addr a)).

Definition real_allocate (size alignment : Z) : RA Z :=
  let! a := mget in
  let! up := mlift (add64 (next_virtual_addr a) alignment) in
  let! up := mlift (sub64 up 1) in
  let! mask := mlift (sub64 alignment 1) in
  let aligned := Z.ldiff up mask in
  let! _ := on_manager (rm_map_range aligned size read_write) in
  let! next := mlift (add64 aligned size) in
  let! _ := mmod (λ a, mkReal (memory_manager a) next) in
  mok aligned.

Definition real_deallocate (ptr size : Z) : RA unit :=
  let! n := mlift (add64 size 4096) in
  let! n := mlift (sub64 n 1) in
  mfor (seqZ 0 (n / 4096)) (λ i,
    let! page := mlift (add64 ptr (i * 4096)) in
    on_manager (ignore_error (rm_unmap_page page))).

Definition mapping_protection (writable executable : bool) : MemoryProtection := mkProt true writable executable true.

Definition real_map_at (vaddr size : Z) (writable executable : bool) : RA Z :=
  let! _ := on_manager (rm_map_range vaddr size (mapping_protection writable executable)) in
  mok vaddr.

Definition real_unmap (vaddr size : Z) : RA unit :=
  let! (start_page, num_pages) := mlift (page_span vaddr size) in
  mfor (seqZ 0 num_pages) (λ i, on_manager (rm_unmap_page (start_page + i * 4096))).

Definition real_protect (vaddr size : Z) (writable executable : bool) : RA unit :=
  let! (start_page, num_pages) := mlift (page_span vaddr size) in
  mfor (seqZ 0 num_pages) (λ i, on_manager (rm_protect_page (start_page + i * 4096) (mapping_protection writable executable))).

#[export] Instance real_allocator : MemoryAllocator RealAllocator := {|
  allocate := real_allocate;
  deallocate := real_deallocate;
  map_at := real_map_at;
  unmap := real_unmap;
  protect := real_protect;
|}.

(** ** Configuration *)
Record LoaderConfig (A : Type) := mkConfig {
  allocator : A; memory_layout : MemoryLayout; cfg_base_address : option Z; relocate : bool; resolve_symbols : bool;
}.
Arguments mkConfig {A}.
Arguments allocator {A}.
Arguments memory_layout {A}.
Arguments cfg_base_address {A}.
Arguments relocate {A}.
Arguments resolve_symbols {A}.

Definition config_new {A} (a : A) : LoaderConfig A := mkConfig a default_x86_64 None true true.
Definition with_memory_layout {A} (l : MemoryLayout) (c : LoaderConfig A) : LoaderConfig A :=
  mkConfig (allocator c) l (cfg_base_address c) (relocate c) (resolve_symbols c).
Definition with_base_address {A} (b : Z) (c : LoaderConfig A) : LoaderConfig A :=
  mkConfig (allocator c) (memory_layout c) (Some b) (relocate c) (resolve_symbols c).
Definition with_relocations {A} (r : bool) (c : LoaderConfig A) : LoaderConfig A :=
  mkConfig (allocator c) (memory_layout c) (cfg_base_address c) r (resolve_symbols c).
Definition with_symbol_resolution {A} (r : bool) (c : LoaderConfig A) : LoaderConfig A :=
  mkConfig (allocator c) (memory_layout c) (cfg_base_address c) (relocate c) r.

(** ** Loaded binaries *)
Record LoadedSegment := mkSegment { seg_vaddr : Z; seg_size : Z; seg_memory : Z; seg_writable : bool; seg_executable : bool }.

Record LoadedBinary := mkBinary {
  entry_point : Z; segments : list LoadedSegment; base_address : Z; architecture : ArchitectureType; symbol_resolver : SymbolResolver;
}.

(** [addr >= seg.vaddr && addr < seg.vaddr + seg.size], in the order of the segments. *)
Fixpoint find_segment (addr : Z) (segs : list LoadedSegment) : ER (option LoadedSegment) :=
  match segs with
  | [] => Ok None
  | seg :: segs =>
      if seg_vaddr seg <=? addr then
        let? e := add64 (seg_vaddr seg) (seg_size seg) in
        if addr <? e then Ok (Some seg) else find_segment addr segs
      else find_segment addr segs
  end.

Definition get_memory_at (b : LoadedBinary) (addr : Z) : ER (option LoadedSegment) := find_segment addr (segments b).

Definition read_memory (b : LoadedBinary) (addr size : Z) : M Host ElfError (list Z) :=
  let! seg := mlift (get_memory_at b addr) in
  match seg with
  | None => merr InvalidAddress
  | Some seg =>
      let offset := addr - seg_vaddr seg in
      let! end_ := mlift (add64 offset size) in
      if seg_size seg <? end_ then merr InvalidOffset else
      host_read (seg_memory seg + offset) size
  end.

Definition write_memory (b : LoadedBinary) (addr : Z) (data : list Z) : M Host ElfError unit :=
  let! seg := mlift (get_memory_at b addr) in
  match seg with
  | None => merr InvalidAddress
  | Some seg =>
      if negb (seg_writable seg) then merr PermissionDenied else
      let offset := addr - seg_vaddr seg in
      let! end_ := mlift (add64 offset (zlen data)) in
      if seg_size seg <? end_ then merr InvalidOffset else
      host_write (seg_memory seg + offset) data
  end.

Record LoadedBinaryStats := mkLStats {
  st_total_size : Z; st_executable_size : Z; st_writable_size : Z; st_segment_count : Z; st_entry_point : Z; st_base_address : Z;
}.

(** [iter().sum()] *)
Fixpoint sum64 (l : list Z) : ER Z := match l with [] => Ok 0 | x :: l => let? s := sum64 l in add64 x s end.

Definition memory_usage (b : LoadedBinary) : ER LoadedBinaryStats :=
  let? total := sum64 (seg_size <$> segments b) in
  let? ex := sum64 (seg_size <$> filter (λ s, seg_executable s = true) (segments b)) in
  let? wr := sum64 (seg_size <$> filter (λ s, seg_writable s = true) (segments b)) in
  Ok (mkLStats total ex wr (zlen (segments b)) (entry_point b) (base_address b)).

(** ** Loading *)
Section loader.
Context {A : Type} `{!MemoryAllocator A}.

Record Loader := mkLoader { ld_config : LoaderConfig A; ld_host : Host }.

Definition LM (B : Type) : Type := M Loader ElfError B.

Definition set_allocator (a : A) (l : Loader) : Loader :=
  let c := ld_config l in
  mkLoader (mkConfig a (memory_layout c) (cfg_base_address c) (relocate c) (resolve_symbols c)) (ld_host l).

Definition on_allocator {B} (m : M A ElfError B) : LM B := zoom (λ l, allocator (ld_config l)) set_allocator m.
Definition on_host {B} (m : M Host ElfError B) : LM B := zoom ld_host (λ h l, mkLoader (ld_config l) h) m.

Definition load_segment (ph : ProgramHeader) (elf : ElfFile) (base : Z) : LM LoadedSegment :=
  let! vaddr := mlift (add64 (p_vaddr ph) base) in
  let size := p_memsz ph in
  let! memory := on_allocator (map_at vaddr size (p_writable ph) (p_executable ph)) in
  let! _ :=
    (if has_data ph then
       let! end_ := mlift (add64 (p_offset ph) (p_filesz ph)) in
       let! file_data := mlift (slice (p_offset ph) end_ (elf_data elf)) in
       on_host (host_write memory file_data)
     else mok tt) in
  let! _ :=
    (if p_filesz ph <? p_memsz ph then
       on_host (host_write (memory + p_filesz ph) (zeros (Z.to_nat (p_memsz ph - p_filesz ph))))
     else mok tt) in
  mok (mkSegment vaddr size memory (p_writable ph) (p_executable ph)).

(** [for entry in table { let entry = entry?; body }] *)
Definition for_entries {B} (parse : EntryParser B) (it : TableIter) (body : B → LM unit) : LM unit :=
  mfor (seqZ 0 (it_count it)) (λ i, let! e := mlift (iter_at parse it i) in body e).

(** The loop over the program headers, with the segments loaded so far. *)
Fixpoint load_segments (elf : ElfFile) (base : Z) (segs : list LoadedSegment) (ids : list Z) : LM (list LoadedSegment) :=
  match ids with
  | [] => mok segs
  | i :: ids =>
      let! ph := mlift (iter_at ph_parse (ph_iter_new elf) i) in
      let! _ := mlift (ph_validate ph (zlen (elf_data elf))) in
      if is_loadable ph then
        let! seg := load_segment ph elf base in
        load_segments elf base (segs ++ [seg]) ids
      else load_segments elf base segs ids
  end.

(** The target of a relocation, and the slice from there to the end of its segment. *)
Definition relocate_at (offset : Z) (segs : list LoadedSegment) (apply : Z * Z → M Host ElfError unit) : LM unit :=
  let! target := mlift (find_segment offset segs) in
  match target with
  | Some seg =>
      let off := offset - seg_vaddr seg in
      on_host (apply (seg_memory seg + off, saturating_sub (seg_size seg) off))
  | None => mok tt
  end.

Definition relocate_section (elf : ElfFile) (segs : list LoadedSegment) (resolver : SymbolResolver) (base : Z) (s : SectionHeader) : LM unit :=
  let h := header elf in
  match section_type s with
  | Rel =>
      let! reloc_data := mlift (sh_data s (elf_data elf)) in
      let! relocations := mlift (rel_iter_new reloc_data (is_64bit h) (is_little_endian h)) in
      for_entries (rel_parse (machine h)) relocations (λ r, relocate_at (r_offset r) segs (apply_relocation base r resolver))
  | Rela =>
      let! reloc_data := mlift (sh_data s (elf_data elf)) in
      let! relocations := mlift (rela_iter_new reloc_data (is_64bit h) (is_little_endian h)) in
      for_entries (rela_parse (machine h)) relocations (λ r, relocate_at (ra_offset r) segs (apply_relocation_addend base r resolver))
  | _ => mok tt
  end.

Definition apply_relocations (elf : ElfFile) (segs : list LoadedSegment) (resolver : SymbolResolver) (base : Z) : LM unit :=
  let section_headers := sh_iter_new elf in
  mfor (seqZ 0 (it_count section_headers)) (λ i,
    let! s := mlift (iter_get sh_parse section_headers i) in
    relocate_section elf segs resolver base s).

(** [base_address.unwrap_or_else(..)] *)
Definition load_base (c : LoaderConfig A) (h : ElfHeader) : Z :=
  match cfg_base_address c with
  | Some b => b
  | None => match file_type h with SharedObject => code_base (memory_layout c) | _ => 0 end
  end.

Definition load (elf : ElfFile) : LM LoadedBinary :=
  let h := header elf in
  match file_type h with
  | Executable | SharedObject =>
      let! arch := mlift (from_machine (machine h)) in
      let! l := mget in
      let base := load_base (ld_config l) h in
      let! segs := load_segments elf base [] (seqZ 0 (it_count (ph_iter_new elf))) in
      let! _ := (if relocate (ld_config l) then apply_relocations elf segs resolver_new base else mok tt) in
      let! entry := mlift (add64 (entry h) base) in
      mok (mkBinary entry segs base arch resolver_new)
  | _ => merr UnsupportedVersion
  end.

(** The table a symbol section describes, with the strings it links to. *)
Definition section_symbols (elf : ElfFile) (s : SectionHeader) : ER SymbolTable :=
  let? symbol_data := sh_data s (elf_data elf) in
  let? string_data :=
    (if negb (s_link s =? 0) then
       let? strtab := iter_get sh_parse (sh_iter_new elf) (s_link s) in
       let? d := sh_data strtab (elf_data elf) in Ok (Some d)
     else Ok None) in
  symbol_table_new symbol_data string_data (is_64bit (header elf)) (is_little_endian (header elf)).

Fixpoint symbol_sections (elf : ElfFile) (r : SymbolResolver) (ids : list Z) : ER SymbolResolver :=
  match ids with
  | [] => Ok r
  | i :: ids =>
      let? s := iter_get sh_parse (sh_iter_new elf) i in
      let? _ := sh_validate s (zlen (elf_data elf)) in
      match section_type s with
      | SymTab => let? t := section_symbols elf s in symbol_sections elf (set_symbol_table t r) ids
      | DynSym => let? t := section_symbols elf s in symbol_sections elf (set_dynamic_table t r) ids
      | _ => symbol_sections elf r ids
      end
  end.

Definition setup_symbol_resolution (r : SymbolResolver) (elf : ElfFile) : ER SymbolResolver :=
  let? _ := (if negb (shstrndx (header elf) =? 0) then
               let? s := iter_get sh_parse (sh_iter_new elf) (shstrndx (header elf)) in Ok (Some s)
             else Ok None) in
  symbol_sections elf r (seqZ 0 (it_count (sh_iter_new elf))).
End loader.
Arguments Loader : clear implicits.
Arguments mkLoader {A}.

(** ** Loading segments through an allocator that maps where it is asked to

    [room a reqs]: the allocator can serve the requests, address and size, one after the other. *)
Class DirectMap (A : Type) `{!MemoryAllocator A} (room : A → list (Z * Z) → Prop) : Prop :=
  direct_map : ∀ a v n w x reqs, room a ((v, n) :: reqs) → ∃ a', map_at v n w x a = (Ok v, a') ∧ room a' reqs.

(** The bytes of a segment: its part of the file, then zeros. *)
Definition segment_bytes (data : list Z) (ph : ProgramHeader) : list Z :=
  field (Z.to_nat (p_offset ph)) (Z.to_nat (p_filesz ph)) data ++ zeros (Z.to_nat (p_memsz ph - p_filesz ph)).

Definition segment_at (base : Z) (ph : ProgramHeader) : LoadedSegment :=
  mkSegment (p_vaddr ph + base) (p_memsz ph) (p_vaddr ph + base) (p_writable ph) (p_executable ph).

Definition place (data : list Z) (base : Z) (h : Host) (ph : ProgramHeader) : Host :=
  map_seqZ (p_vaddr ph + base) (segment_bytes data ph) ∪ h.

(** A header of the file whose segment fits the address space. *)
Record ph_fits (data : list Z) (base : Z) (ph : ProgramHeader) : Prop := {
  pf_off : 0 ≤ p_offset ph; pf_filesz : 0 ≤ p_filesz ph; pf_vaddr : 0 ≤ p_vaddr ph; pf_base : 0 ≤ base;
  pf_valid : ph_validate ph (zlen data) = Ok tt;
  pf_top : p_vaddr ph + base + p_memsz ph < 2 ^ 64;
}.

Lemma ph_validate_sizes (data : list Z) ph :
  0 ≤ p_offset ph → 0 ≤ p_filesz ph → zlen data < 2 ^ 63 → ph_validate ph (zlen data) = Ok tt →
  p_filesz ph ≤ p_memsz ph ∧ (0 < p_filesz ph → p_offset ph + p_filesz ph ≤ zlen data).
Proof.
  intros Ho Hf Hl. unfold ph_validate, checked_add.
  destruct (Z.ltb_spec 0 (p_filesz ph)); cbn [rbind].
  - destruct (Z.ltb_spec (p_offset ph + p_filesz ph) (2 ^ 64)); cbn [rbind]; [|done].
    destruct (Z.ltb_spec (zlen data) (p_offset ph + p_filesz ph)); cbn [rbind]; [done|].
    destruct (Z.ltb_spec (p_memsz ph) (p_filesz ph)); [done|]. lia.
  - destruct (Z.ltb_spec (p_memsz ph) (p_filesz ph)); [done|]. lia.
Qed.

Lemma length_file_part (data : list Z) ph :
  0 ≤ p_offset ph → 0 ≤ p_filesz ph → (0 < p_filesz ph → p_offset ph + p_filesz ph ≤ zlen data) →
  zlen (field (Z.to_nat (p_offset ph)) (Z.to_nat (p_filesz ph)) data) = p_filesz ph.
Proof.
  intros Ho Hf Hin. unfold zlen in *. destruct (decide (p_filesz ph = 0)) as [->|]; [done|]. rewrite length_field; lia.
Qed.

Lemma zlen_segment_bytes data base ph : zlen data < 2 ^ 63 → ph_fits data base ph → zlen (segment_bytes data ph) = p_memsz ph.
Proof.
  intros Hl [Ho Hf Hv Hb Hval _]. destruct (ph_validate_sizes data ph Ho Hf Hl Hval) as [Hm Hin].
  unfold segment_bytes. rewrite zlen_app, length_file_part by done. unfold zlen. rewrite length_zeros. lia.
Qed.

Section load.
Context {A : Type} `{!MemoryAllocator A} (room : A → list (Z * Z) → Prop) `{!DirectMap A room}.

Definition request (base : Z) (ph : ProgramHeader) : Z * Z := (p_vaddr ph + base, p_memsz ph).

Definition covered (h : Host) (base : Z) (ph : ProgramHeader) : Prop :=
  ∀ a, p_vaddr ph + base ≤ a < p_vaddr ph + base + p_memsz ph → is_Some (h !! a).

(** Copying the file's part, and clearing the rest. *)
Lemma copy_file_part elf ph v (l : Loader A) :
  zlen (elf_data elf) < 2 ^ 63 → 0 ≤ p_offset ph → 0 ≤ p_filesz ph →
  (0 < p_filesz ph → p_offset ph + p_filesz ph ≤ zlen (elf_data elf)) →
  (∀ a, v ≤ a < v + p_filesz ph → is_Some (ld_host l !! a)) →
  (if has_data ph then
     let! end_ := mlift (add64 (p_offset ph) (p_filesz ph)) in
     let! file_data := mlift (slice (p_offset ph) end_ (elf_data elf)) in
     on_host (host_write v file_data)
   else mok tt) l =
  (Ok tt, mkLoader (ld_config l) (map_seqZ v (field (Z.to_nat (p_offset ph)) (Z.to_nat (p_filesz ph)) (elf_data elf)) ∪ ld_host l)).
Proof.
  intros Hl Ho Hf Hin Hcov. pose proof (length_file_part _ _ Ho Hf Hin) as Hfl. unfold has_data. destruct (Z.ltb_spec 0 (p_filesz ph)) as [Hpos|Hz].
  - unfold mbindM, mlift, add64. specialize (Hin Hpos). rewrite chk_ok by lia. rewrite slice_ok by lia.
    replace (Z.to_nat (p_offset ph + p_filesz ph - p_offset ph)) with (Z.to_nat (p_filesz ph)) by lia.
    unfold on_host, zoom. rewrite host_write_ok; [done|]. intros a Ha. apply Hcov. lia.
  - unfold field. rewrite (Z2Nat.nonpos (p_filesz ph)) by done. rewrite take_0. cbn [map_seqZ]. rewrite map_empty_union. by destruct l.
Qed.

Lemma clear_rest ph v (l : Loader A) :
  p_filesz ph ≤ p_memsz ph → (∀ a, v ≤ a < v + p_memsz ph - p_filesz ph → is_Some (ld_host l !! a)) →
  (if p_filesz ph <? p_memsz ph then on_host (host_write v (zeros (Z.to_nat (p_memsz ph - p_filesz ph)))) else mok tt) l =
  (Ok tt, mkLoader (ld_config l) (map_seqZ v (zeros (Z.to_nat (p_memsz ph - p_filesz ph))) ∪ ld_host l)).
Proof.
  intros Hm Hcov. destruct (Z.ltb_spec (p_filesz ph) (p_memsz ph)).
  - unfold on_host, zoom. rewrite host_write_ok; [done|]. intros a Ha. apply Hcov. unfold zlen in Ha. rewrite length_zeros in Ha. lia.
  - rewrite Z2Nat.nonpos by lia. change (zeros 0) with (@nil Z). cbn [map_seqZ]. rewrite map_empty_union. by destruct l.
Qed.

Lemma load_segment_ok elf base ph reqs (l : Loader A) :
  zlen (elf_data elf) < 2 ^ 63 → ph_fits (elf_data elf) base ph → room (allocator (ld_config l)) (request base ph :: reqs) →
  covered (ld_host l) base ph →
  ∃ a', room a' reqs ∧ load_segment ph elf base l =
    (Ok (segment_at base ph), mkLoader (ld_config (set_allocator a' l)) (place (elf_data elf) base (ld_host l) ph)).
Proof.
  intros Hl [Ho Hf Hv Hb Hval Ht] Hroom Hcov.
  destruct (ph_validate_sizes _ _ Ho Hf Hl Hval) as [Hm Hin]. pose proof (length_file_part _ _ Ho Hf Hin) as Hfl.
  destruct (direct_map _ _ _ (p_writable ph) (p_executable ph) _ Hroom) as (a' & Ea & Hr). exists a'. split; [done|].
  unfold load_segment. erewrite bind_ok by (unfold mlift, add64; rewrite chk_ok by lia; reflexivity).
  erewrite bind_ok by (unfold on_allocator, zoom; by rewrite Ea).
  erewrite bind_ok by (apply copy_file_part; [done..|]; intros a Ha; apply Hcov; lia).
  erewrite bind_ok.
  2: { apply clear_rest; [done|]. intros a Ha. cbn [ld_host]. rewrite lookup_write_other by lia. apply Hcov. lia. }
  cbn [ld_config ld_host]. unfold mok, segment_at. do 2 f_equal. unfold place, segment_bytes.
  set (fd := field _ _ _) in *. replace (p_vaddr ph + base + p_filesz ph) with (p_vaddr ph + base + Z.of_nat (length fd)) by (unfold zlen in Hfl; lia).
  rewrite map_seqZ_app, map_union_assoc. f_equal. apply map_union_comm, map_disjoint_sym, map_seqZ_app_disjoint.
Qed.

(** The loop over the headers. *)
Lemma load_segments_ok elf base todo k segs (l : Loader A) :
  zlen (elf_data elf) < 2 ^ 63 →
  (∀ i ph, todo !! i = Some ph → iter_at ph_parse (ph_iter_new elf) (k + Z.of_nat i) = Ok ph) →
  Forall (ph_fits (elf_data elf) base) todo →
  room (allocator (ld_config l)) (request base <$> filter (λ ph, is_loadable ph = true) todo) →
  Forall (covered (ld_host l) base) (filter (λ ph, is_loadable ph = true) todo) →
  ∃ a', load_segments elf base segs (seqZ k (zlen todo)) l =
    (Ok (segs ++ (segment_at base <$> filter (λ ph, is_loadable ph = true) todo)),
     mkLoader (ld_config (set_allocator a' l)) (foldl (place (elf_data elf) base) (ld_host l) (filter (λ ph, is_loadable ph = true) todo))).
Proof.
  intros Hl. revert k segs l. induction todo as [|ph todo IH]; intros k segs l Hat Hfit Hroom Hcov.
  - exists (allocator (ld_config l)). cbn. rewrite app_nil_r. by destruct l as [[] ?].
  - apply Forall_cons in Hfit as [Hph Hfit]. unfold zlen. cbn [length]. rewrite seqZ_cons by lia. cbn [load_segments].
    replace (Z.pred (Z.of_nat (S (length todo)))) with (zlen todo) by (unfold zlen; lia).
    pose proof (Hat 0%nat ph eq_refl) as H0. rewrite Z.add_0_r in H0.
    erewrite bind_ok by (unfold mlift; by rewrite H0). erewrite bind_ok by (unfold mlift; by rewrite (pf_valid _ _ _ Hph)).
    assert (∀ i ph', todo !! i = Some ph' → iter_at ph_parse (ph_iter_new elf) (Z.succ k + Z.of_nat i) = Ok ph') as Hat'.
    { intros i ph' Hi. rewrite <-(Hat (S i) ph' Hi). f_equal. lia. }
    rewrite filter_cons in *. destruct (is_loadable ph); [|rewrite decide_False in * by done; by apply IH].
    rewrite decide_True in * by done. apply Forall_cons in Hcov as [Hc Hcov].
    destruct (load_segment_ok elf base ph _ l Hl Hph Hroom Hc) as (a1 & Hr1 & E1). erewrite bind_ok by exact E1.
    destruct (IH (Z.succ k) (segs ++ [segment_at base ph]) (mkLoader (ld_config (set_allocator a1 l)) (place (elf_data elf) base (ld_host l) ph)))
      as (a2 & E2); [done..| |].
    + eapply Forall_impl; [exact Hcov|]. intros q Hq a Ha. cbn [ld_host]. unfold place. apply lookup_union_is_Some. right. by apply Hq.
    + exists a2. rewrite E2, <-app_assoc. done.
Qed.
End load.

(** ** What memory holds afterwards *)
Definition apart (p q : ProgramHeader) : Prop := p_vaddr p + p_memsz p ≤ p_vaddr q ∨ p_vaddr q + p_memsz q ≤ p_vaddr p.

Lemma place_all_other data base loads h a :
  zlen data < 2 ^ 63 → Forall (ph_fits data base) loads →
  Forall (λ ph, ¬ (p_vaddr ph + base ≤ a < p_vaddr ph + base + p_memsz ph)) loads →
  foldl (place data base) h loads !! a = h !! a.
Proof.
  intros Hl Hf. revert h. induction Hf as [|ph loads Hph Hf IH]; intros h Ha; [done|]. apply Forall_cons in Ha as [Ha Hall].
  cbn [foldl]. rewrite IH by done. unfold place. apply lookup_write_other. by rewrite (zlen_segment_bytes _ _ _ Hl Hph).
Qed.

Lemma place_all_holds data base loads h ph :
  zlen data < 2 ^ 63 → Forall (ph_fits data base) loads → ForallOrdPairs apart loads → ph ∈ loads →
  holds (foldl (place data base) h loads) (p_vaddr ph + base) (segment_bytes data ph).
Proof.
  intros Hl Hf. revert h. induction Hf as [|q loads Hq Hf IH]; intros h Hd Hin; [by apply not_elem_of_nil in Hin|].
  inversion_clear Hd as [|? ? Ha Hd']. cbn [foldl]. apply elem_of_cons in Hin as [->|Hin]; [|by apply IH].
  intros i b Hi. rewrite place_all_other; [by apply holds_write|done..|].
  pose proof (zlen_segment_bytes _ _ _ Hl Hq). apply lookup_lt_Some in Hi.
  eapply Forall_impl; [exact Ha|]. unfold apart, zlen in *. intros. cbn in *. lia.
Qed.

Lemma ph_fits_memsz data base ph : zlen data < 2 ^ 63 → ph_fits data base ph → 0 ≤ p_memsz ph.
Proof. intros Hl [Ho Hf _ _ Hv _]. destruct (ph_validate_sizes _ _ Ho Hf Hl Hv). lia. Qed.

Lemma find_segment_loaded data base loads ph a :
  zlen data < 2 ^ 63 → Forall (ph_fits data base) loads → ForallOrdPairs apart loads → ph ∈ loads →
  p_vaddr ph + base ≤ a < p_vaddr ph + base + p_memsz ph →
  find_segment a (segment_at base <$> loads) = Ok (Some (segment_at base ph)).
Proof.
  intros Hl Hf. induction Hf as [|q loads Hq Hf IH]; intros Hd Hin Ha; [by apply not_elem_of_nil in Hin|].
  inversion_clear Hd as [|? ? Hap Hd']. cbn [fmap list_fmap find_segment segment_at seg_vaddr seg_size].
  pose proof (ph_fits_memsz _ _ _ Hl Hq). destruct Hq as [_ _ Hv Hb _ Ht].
  apply elem_of_cons in Hin as [->|Hin].
  - rewrite (proj2 (Z.leb_le _ _)) by lia. unfold add64. rewrite chk_ok by lia. cbn [rbind]. by rewrite (proj2 (Z.ltb_lt _ _)) by lia.
  - rewrite Forall_forall in Hap. pose proof (Hap _ Hin) as Hp. unfold apart in Hp. destruct (Z.leb_spec (p_vaddr q + base) a); [|by apply IH].
    unfold add64. rewrite chk_ok by lia. cbn [rbind]. rewrite (proj2 (Z.ltb_ge _ _)) by lia. by apply IH.
Qed.

(** Reading a part of a segment whose memory holds [bs]. *)
Lemma read_held b seg bs h i n :
  find_segment (seg_vaddr seg + i) (segments b) = Ok (Some seg) → holds h (seg_memory seg) bs → zlen bs = seg_size seg →
  seg_size seg < 2 ^ 64 → 0 ≤ i → 0 < n → i + n ≤ seg_size seg →
  read_memory b (seg_vaddr seg + i) n h = (Ok (field (Z.to_nat i) (Z.to_nat n) bs), h).
Proof.
  intros Hf Hh Hz Hs Hi Hn Hm. unfold read_memory, get_memory_at. erewrite bind_ok by (unfold mlift; rewrite Hf; reflexivity).
  cbv beta iota zeta. replace (seg_vaddr seg + i - seg_vaddr seg) with i by lia.
  erewrite bind_ok by (unfold mlift, add64; rewrite chk_ok by lia; reflexivity). rewrite (proj2 (Z.ltb_ge _ _)) by lia.
  assert (zlen (field (Z.to_nat i) (Z.to_nat n) bs) = n) as Hzn by (unfold zlen in *; rewrite length_field; lia).
  rewrite <-Hzn at 1. apply host_read_ok. intros j b' Hj. rewrite lookup_field in Hj. case_decide; [|done].
  replace (seg_memory seg + i + Z.of_nat j) with (seg_memory seg + Z.of_nat (Z.to_nat i + j)) by lia. by apply Hh.
Qed.

(** Reading a loaded segment, or a part of it. *)
Lemma read_loaded data base loads ph h arch e res i n :
  zlen data < 2 ^ 63 → Forall (ph_fits data base) loads → ForallOrdPairs apart loads → ph ∈ loads →
  0 ≤ i → 0 < n → i + n ≤ p_memsz ph →
  read_memory (mkBinary e (segment_at base <$> loads) base arch res) (p_vaddr ph + base + i) n (foldl (place data base) h loads) =
    (Ok (field (Z.to_nat i) (Z.to_nat n) (segment_bytes data ph)), foldl (place data base) h loads).
Proof.
  intros Hl Hf Hd Hin Hi Hn Hm. pose proof (proj1 (Forall_forall _ _) Hf _ Hin) as Hph. destruct (Hph) as [_ _ Hv Hb _ Ht].
  apply (read_held _ (segment_at base ph)); cbn [segment_at seg_vaddr seg_size seg_memory segments]; try lia.
  - apply (find_segment_loaded data); done || lia.
  - by apply place_all_holds.
  - by eapply zlen_segment_bytes.
Qed.

(** Sections that hold no relocations. *)
Lemma apply_relocations_none {A} `{!MemoryAllocator A} elf shs segs res base (l : Loader A) :
  it_count (sh_iter_new elf) = zlen shs →
  (∀ i s, shs !! i = Some s → iter_get sh_parse (sh_iter_new elf) (Z.of_nat i) = Ok s) →
  Forall (λ s, is_relocation_table s = false) shs → apply_relocations elf segs res base l = (Ok tt, l).
Proof.
  intros Hn Hat Hno. unfold apply_relocations. rewrite Hn.
  assert (∀ k todo, (∀ i s, todo !! i = Some s → iter_get sh_parse (sh_iter_new elf) (k + Z.of_nat i) = Ok s) →
    Forall (λ s, is_relocation_table s = false) todo →
    mfor (seqZ k (zlen todo)) (λ i, let! s := mlift (iter_get sh_parse (sh_iter_new elf) i) in relocate_section elf segs res base s) l = (Ok tt, l)) as H.
  { clear. intros k todo. revert k. induction todo as [|s todo IH]; intros k Hat Hno; [done|]. apply Forall_cons in Hno as [Hs Hno].
    unfold zlen. cbn [length]. rewrite seqZ_cons by lia. replace (Z.pred (Z.of_nat (S (length todo)))) with (zlen todo) by (unfold zlen; lia).
    cbn [mfor]. pose proof (Hat 0%nat s eq_refl) as H0. rewrite Z.add_0_r in H0.
    rewrite (bind_ok _ _ l tt l).
    - apply IH; [|done]. intros i s' Hi. rewrite <-(Hat (S i) s' Hi). f_equal. lia.
    - erewrite bind_ok by (unfold mlift; by rewrite H0). unfold relocate_section. unfold is_relocation_table in Hs. by destruct (section_type s). }
  apply H; [|done]. intros i s Hi. by apply Hat.
Qed.

(** ** The two allocators *)
Record simple_room (a : SimpleAllocator) (reqs : list (Z * Z)) : Prop := {
  sr_used : 0 ≤ sa_used a; sr_size : sa_size a < 2 ^ 64;
  sr_reqs : Forall (λ r, 0 ≤ r.1 ∧ 0 ≤ r.2 ∧ r.1 + r.2 < 2 ^ 64) reqs;
  sr_fits : sa_used a + foldr Z.add 0 (snd <$> reqs) ≤ sa_size a;
}.

Lemma sum_nonneg (l : list Z) : Forall (λ x, 0 ≤ x) l → 0 ≤ foldr Z.add 0 l.
Proof. induction 1; cbn; lia. Qed.

#[export] Instance simple_direct : DirectMap SimpleAllocator simple_room.
Proof.
  intros a v n w x reqs [Hu Hs Hr Hf]. apply Forall_cons in Hr as [(Hv & Hn & Ht) Hr]. cbn in Hv, Hn, Ht, Hf.
  assert (0 ≤ foldr Z.add 0 (snd <$> reqs)) by (apply sum_nonneg, Forall_fmap; eapply Forall_impl; [exact Hr|]; cbn; lia).
  exists (mkSimple (sa_current a) (sa_size a) (sa_used a + n)).
  cbn [map_at simple_allocator]. unfold simple_map_at, mbindM, mget, mlift, mput, add64, U64_MAX. rewrite chk_ok by lia.
  rewrite (proj2 (Z.ltb_ge _ _)) by lia. rewrite chk_ok by lia. rewrite (proj2 (Z.ltb_ge _ _)) by lia. split; [done|].
  split; cbn; [lia|done..|lia].
Qed.

(** The pages a request covers. *)
Definition pages_of (r : Z * Z) : list Z :=
  (λ i, page_base r.1 + i * 4096) <$> seqZ 0 ((page_base (r.1 + r.2 + 4095) - page_base r.1) / 4096).

Record real_room (a : RealAllocator) (reqs : list (Z * Z)) : Prop := {
  rr_reqs : Forall (λ r, 0 ≤ r.1 ∧ 0 ≤ r.2 ∧ r.1 + r.2 + 4095 < 2 ^ 64) reqs;
  rr_pages : NoDup (mjoin (pages_of <$> reqs));
  rr_free : Forall (λ v, page_mappings (memory_manager a) !! v = None) (mjoin (pages_of <$> reqs));
  rr_frames : (length (mjoin (pages_of <$> reqs)) ≤ length (free_pages (memory_manager a)))%nat;
}.

#[export] Instance real_direct : DirectMap RealAllocator real_room.
Proof.
  intros [m next] v n w x reqs [Hr Hnd Hun Hfr]. apply Forall_cons in Hr as [(Hv & Hn & Ht) Hr]. cbn in Hv, Hn, Ht.
  rewrite join_fmap_cons in *. apply NoDup_app in Hnd as (_ & Hdis & Hnd). apply Forall_app in Hun as [Hun0 Hun]. rewrite length_app in Hfr.
  cbn [memory_manager] in *. cbn [map_at real_allocator]. unfold real_map_at, on_manager, zoom, rm_map_range, mbindM, mlift, page_span, add64, sub64.
  rewrite chk_ok by lia. cbn [rbind]. rewrite chk_ok by (unfold PAGE_MASK, MPAGE_SIZE; lia). cbn [rbind]. unfold PAGE_MASK, MPAGE_SIZE at 1.
  replace (v + n + (4096 - 1)) with (v + n + 4095) by lia. set (c := page_base (v + n + 4095) - page_base v).
  assert (0 ≤ c < 2 ^ 64 ∧ c = 4096 * (c / 4096)) as [Hc Hc4] by (unfold c; rewrite !page_base_eq; dlia).
  rewrite chk_ok by done. cbn [rbind]. change MPAGE_SIZE with 4096.
  assert (length (pages_of (v, n)) = Z.to_nat (c / 4096)) as Hlen by (unfold pages_of; cbn; by rewrite length_fmap, length_seqZ).
  destruct (rm_map_pages_ok (mapping_protection w x) (page_base v) (Z.to_nat (c / 4096)) 0 [] m) as (ms & m' & E & Hfree & Hmaps).
  - apply page_base_idem.
  - lia.
  - intros j Hj. rewrite Forall_forall in Hun0. apply Hun0. apply list_elem_of_fmap. exists j. split; [done|]. apply elem_of_seqZ. cbn. fold c. lia.
  - rewrite Z2Nat.id in E by dlia. cbn [memory_manager] in *. rewrite E. eexists. split; [done|]. split; cbn [memory_manager]; [done|done| |rewrite Hfree, length_drop; lia].
    apply Forall_forall. intros u Hu. rewrite Forall_forall in Hun. apply eq_None_not_Some. rewrite Hmaps. intros [Hs|(j & Hj & ->)].
    + rewrite (Hun u Hu) in Hs. by destruct Hs.
    + apply (Hdis (page_base v + j * 4096)); [|done]. apply list_elem_of_fmap. exists j. split; [done|]. apply elem_of_seqZ. cbn. fold c. lia.
Qed.

(** *** Sequences of allocations from a buffer *)
Fixpoint alloc_run (reqs : list (Z * Z)) (a : SimpleAllocator) : list (res ElfError Z) * SimpleAllocator :=
  match reqs with
  | [] => ([], a)
  | q :: reqs => let (r, a) := simple_allocate q.1 q.2 a in let (rs, a) := alloc_run reqs a in (r :: rs, a)
  end.

(** A size, and an alignment that is a power of two. *)
Definition alloc_req_ok (q : Z * Z) : Prop := 0 ≤ q.1 < 2 ^ 61 ∧ ∃ k, 0 ≤ k < 61 ∧ q.2 = 2 ^ k.

(** The counter is never behind the pointer: what is counted twice is lost, not given out twice. *)
Record simple_inv (start len : Z) (a : SimpleAllocator) : Prop := {
  si_size : sa_size a = len;
  si_current : start ≤ sa_current a;
  si_used : sa_current a - start ≤ sa_used a ≤ len;
}.

Lemma ldiff_pow2 x k : 0 ≤ k → Z.ldiff x (2 ^ k - 1) = x / 2 ^ k * 2 ^ k.
Proof.
  intros Hk. replace (2 ^ k - 1) with (Z.ones k) by (rewrite Z.ones_equiv; lia).
  by rewrite Z.ldiff_ones_r, Z.shiftl_mul_pow2, Z.shiftr_div_pow2 by done.
Qed.

Lemma simple_allocate_ok start len q a :
  0 ≤ len ≤ start → start + len < 2 ^ 61 → alloc_req_ok q → simple_inv start len a →
  simple_allocate q.1 q.2 a = (Err AllocationFailed, a) ∨
  ∃ p a', simple_allocate q.1 q.2 a = (Ok p, a') ∧ simple_inv start len a' ∧ p `mod` q.2 = 0 ∧
    sa_current a ≤ p ∧ p + q.1 = sa_current a' ∧ p + q.1 ≤ start + len.
Proof.
  intros Hl Ht (Hn & k & Hk & Hal) [Hs Hc Hu]. destruct q as [n al]. cbn [fst snd] in *.
  pose proof (Z.pow_le_mono_r 2 k 61 ltac:(lia) ltac:(lia)). pose proof (Z.pow_pos_nonneg 2 k ltac:(lia) ltac:(lia)).
  unfold simple_allocate, mbindM, mget, mlift, add64, sub64. rewrite chk_ok by lia. rewrite chk_ok by lia. rewrite chk_ok by lia.
  rewrite Hal, ldiff_pow2 by lia. set (p := (sa_current a + 2 ^ k - 1) / 2 ^ k * 2 ^ k).
  assert (sa_current a ≤ p < sa_current a + 2 ^ k) as Hp.
  { unfold p. pose proof (Z.div_mod (sa_current a + 2 ^ k - 1) (2 ^ k)). pose proof (Z.mod_pos_bound (sa_current a + 2 ^ k - 1) (2 ^ k)). nia. }
  rewrite chk_ok by lia. rewrite chk_ok by lia. rewrite chk_ok by lia. rewrite chk_ok by lia.
  destruct (Z.ltb_spec (sa_size a) (sa_used a + (p - (sa_current a - sa_used a)) + n)); [by left|right].
  rewrite chk_ok by lia. rewrite chk_ok by lia. unfold mput, mok. eexists p, _. split; [done|]. cbn [sa_current]. split.
  - split; cbn; lia.
  - split; [apply Z.mod_mul; lia|]. lia.
Qed.

(** ** Relocations *)

(** The bytes a supported relocation stores. *)
Definition reloc_bytes (base : Z) (r : RelocationAddend) : option (list Z) :=
  match ra_type r with
  | RX86_64 XR64 => Some (le_bytes 8 (wrap64 (ra_addend r)))
  | RX86_64 XRelative => Some (le_bytes 8 (wrap64 (base + ra_addend r)))
  | RX86_64 XR32 => Some (le_bytes 4 (as_u32 (ra_addend r)))
  | _ => None
  end.

Lemma apply_supported base r res bs memory :
  reloc_bytes base r = Some bs →
  apply_relocation_addend base r res memory = if memory.2 <=? ra_offset r then merr InvalidOffset else patch memory (ra_offset r) bs.
Proof.
  intros Hb. unfold apply_relocation_addend, apply_relocation_value. replace (if ra_symbol r =? 0 then 0 else 0) with 0 by (by destruct (_ =? 0)).
  unfold reloc_bytes in Hb. destruct (ra_type r) as [[]| | |]; try discriminate Hb; injection Hb as <-; rewrite ?Z.add_0_l; unfold wrap64, as_u32.
  - by rewrite Zmod_mod.
  - by rewrite Zplus_mod_idemp_r.
  - rewrite Zmod_mod, Z.mod_mod_divide; [done|]. by exists (2 ^ 32).
Qed.

(** The targets of all relocations of a file. *)
Fixpoint entries_from {B} (parse : EntryParser B) (it : TableIter) (ids : list Z) : ER (list B) :=
  match ids with
  | [] => Ok []
  | i :: ids => let? e := iter_at parse it i in let? es := entries_from parse it ids in Ok (e :: es)
  end.

Definition section_targets (elf : ElfFile) (s : SectionHeader) : ER (list Z) :=
  let h := header elf in
  match section_type s with
  | Rel =>
      let? d := sh_data s (elf_data elf) in
      let? it := rel_iter_new d (is_64bit h) (is_little_endian h) in
      let? es := entries_from (rel_parse (machine h)) it (seqZ 0 (it_count it)) in Ok (r_offset <$> es)
  | Rela =>
      let? d := sh_data s (elf_data elf) in
      let? it := rela_iter_new d (is_64bit h) (is_little_endian h) in
      let? es := entries_from (rela_parse (machine h)) it (seqZ 0 (it_count it)) in Ok (ra_offset <$> es)
  | _ => Ok []
  end.

Fixpoint targets_from (elf : ElfFile) (ids : list Z) : ER (list Z) :=
  match ids with
  | [] => Ok []
  | i :: ids =>
      let? s := iter_get sh_parse (sh_iter_new elf) i in
      let? t := section_targets elf s in
      let? ts := targets_from elf ids in Ok (t ++ ts)
  end.

Definition reloc_targets (elf : ElfFile) : ER (list Z) := targets_from elf (seqZ 0 (it_count (sh_iter_new elf))).

Section skipped.
Context {A : Type} `{!MemoryAllocator A} (base : Z) (segs : list LoadedSegment).
Context (Habove : Forall (λ s, base ≤ seg_vaddr s) segs).

Lemma find_below a : a < base → find_segment a segs = Ok None.
Proof.
  intros Ha. induction Habove as [|s l Hs Hl IH]; [done|]. cbn. rewrite (proj2 (Z.leb_gt _ _)) by lia. apply IH. exact Hl.
Qed.

Lemma for_entries_skip {B} (parse : EntryParser B) (off : B → Z) (apply : B → Z * Z → M Host ElfError unit) it ids es (l : Loader A) :
  entries_from parse it ids = Ok es → Forall (λ a, a < base) (off <$> es) →
  mfor ids (λ i, let! e := mlift (iter_at parse it i) in relocate_at (off e) segs (apply e)) l = (Ok tt, l).
Proof.
  revert es. induction ids as [|i ids IH]; intros es; [done|]. cbn [entries_from mfor].
  intros (e & He & (es' & Hes & [= <-])%bind_inv)%bind_inv Ha. apply Forall_cons in Ha as [Ha Hall].
  erewrite bind_ok; [by eapply IH|]. erewrite bind_ok by (unfold mlift; by rewrite He).
  unfold relocate_at. by erewrite bind_ok by (unfold mlift; by rewrite find_below).
Qed.

Lemma relocate_section_skip elf res s ts (l : Loader A) :
  section_targets elf s = Ok ts → Forall (λ a, a < base) ts → relocate_section elf segs res base s l = (Ok tt, l).
Proof.
  unfold section_targets, relocate_section, for_entries. destruct (section_type s); try done.
  all: intros (d & Hd & (it & Hit & (es & Hes & [= <-])%bind_inv)%bind_inv)%bind_inv Ha.
  all: erewrite bind_ok by (unfold mlift; by rewrite Hd); erewrite bind_ok by (unfold mlift; by rewrite Hit).
  all: by eapply for_entries_skip.
Qed.

Lemma apply_relocations_skip elf res ts (l : Loader A) :
  reloc_targets elf = Ok ts → Forall (λ a, a < base) ts → apply_relocations elf segs res base l = (Ok tt, l).
Proof.
  unfold reloc_targets, apply_relocations. generalize (seqZ 0 (it_count (sh_iter_new elf))). intros ids. revert ts.
  induction ids as [|i ids IH]; intros ts; [done|]. cbn [targets_from mfor].
  intros (s & Hs & (t & Ht & (ts' & Hts & [= <-])%bind_inv)%bind_inv)%bind_inv [Ha Hb]%Forall_app.
  erewrite bind_ok; [by eapply IH|]. erewrite bind_ok by (unfold mlift; by rewrite Hs). by eapply relocate_section_skip.
Qed.
End skipped.

(** Segments lie above the base. *)
Lemma load_segments_above {A} `{!MemoryAllocator A} elf base ids segs (l : Loader A) segs' l' :
  bytes_ok (elf_data elf) → load_segments elf base segs ids l = (Ok segs', l') →
  Forall (λ s, base ≤ seg_vaddr s) segs → Forall (λ s, base ≤ seg_vaddr s) segs'.
Proof.
  intros Hb. revert segs l. induction ids as [|i ids IH]; intros segs l; cbn [load_segments]; [by intros [= <- _]|].
  intros (ph & l1 & Hph & (u & l2 & _ & H)%bindM_inv)%bindM_inv Hs. destruct (is_loadable ph); [|by eapply IH].
  apply bindM_inv in H as (seg & l3 & Hseg & H). eapply IH; [exact H|]. apply Forall_app_2; [done|]. constructor; [|done].
  unfold load_segment in Hseg. apply bindM_inv in Hseg as (v & l4 & Hv & (p & l5 & _ & (u1 & l6 & _ & (u2 & l7 & _ & Hseg)%bindM_inv)%bindM_inv)%bindM_inv).
  unfold mok in Hseg. injection Hseg as <- _. cbn [seg_vaddr]. unfold mlift in Hv, Hph. injection Hv as Hv _. injection Hph as Hph _.
  apply chk_inv in Hv as [-> _]. unfold iter_at in Hph. apply bind_inv in Hph as (r & _ & (o & _ & Hp)%bind_inv).
  apply ph_parse_ranges in Hp; [|done]. destruct Hp as [_ [Hv0 _]]. lia.
Qed.

(** ** The manager of the real allocator *)
Definition managed (l : Loader RealAllocator) : list Z := physical_memory (memory_manager (allocator (ld_config l))).

Definition keeps_managed {B} (m : @LM RealAllocator B) : Prop := ∀ l, managed (m l).2 = managed l.

Create HintDb managed.

Lemma keeps_managed_bind {B C} (m : @LM RealAllocator B) (k : B → LM C) :
  keeps_managed m → (∀ b, keeps_managed (k b)) → keeps_managed (mbindM m k).
Proof. intros Hm Hk l. specialize (Hm l). unfold mbindM. destruct (m l) as [[] l']; cbn in *; [|done..]. by rewrite Hk. Qed.

Lemma keeps_managed_lift {B} (r : ER B) : keeps_managed (mlift r).
Proof. by intros l. Qed.
Lemma keeps_managed_ok {B} (b : B) : keeps_managed (mok b).
Proof. by intros l. Qed.
Lemma keeps_managed_get : keeps_managed mget.
Proof. by intros l. Qed.

Lemma keeps_managed_host {B} (m : M Host ElfError B) : keeps_managed (on_host m).
Proof. intros l. unfold on_host, zoom. by destruct (m (ld_host l)). Qed.

Lemma keeps_managed_map v n w x : keeps_managed (on_allocator (map_at v n w x)).
Proof.
  intros l. unfold on_allocator, zoom, managed. cbn [map_at real_allocator]. unfold real_map_at, mbindM, on_manager, zoom.
  pose proof (keeps_bytes_range v n (mapping_protection w x) (memory_manager (allocator (ld_config l)))) as H.
  by destruct (rm_map_range _ _ _ _) as [[] m'].
Qed.

Lemma keeps_managed_for {B} (xs : list B) (body : B → LM unit) : (∀ x, keeps_managed (body x)) → keeps_managed (mfor xs body).
Proof. intros Hb. induction xs as [|x xs IH]; [by intros l|]. cbn [mfor]. apply keeps_managed_bind; [apply Hb|by intros _]. Qed.

#[export] Hint Resolve keeps_managed_lift keeps_managed_ok keeps_managed_get keeps_managed_host keeps_managed_map : managed.
Ltac managed_step :=
  first [ solve [auto with managed]
        | apply keeps_managed_bind; [|intros ?]
        | apply keeps_managed_for; intros ?
        | match goal with |- keeps_managed (match ?x with _ => _ end) => destruct x end
        | match goal with |- keeps_managed (if ?x then _ else _) => destruct x end ].

Lemma keeps_managed_segments elf base segs ids : keeps_managed (load_segments elf base segs ids).
Proof.
  revert segs. induction ids as [|i ids IH]; intros segs; cbn [load_segments]; unfold load_segment; repeat managed_step; apply IH.
Qed.

Lemma keeps_managed_relocations elf segs res base : keeps_managed (apply_relocations elf segs res base).
Proof. unfold apply_relocations, relocate_section, for_entries, relocate_at. repeat managed_step. Qed.

(** ** Properties *)

(** The conditions under which a file loads: an executable or shared object of a known architecture, valid segments that
    do not overlap, room for them in the allocator and raw memory behind them. *)
Record load_ok {A} `{!MemoryAllocator A} (room : A → list (Z * Z) → Prop) (data : list Z) (h : ElfHeader) (phs : list ProgramHeader) (l : Loader A) : Prop := {
  lo_type : file_type h = Executable ∨ file_type h = SharedObject;
  lo_machine : machine h ≠ MNone;
  lo_fits : Forall (ph_fits data (load_base (ld_config l) h)) phs;
  lo_room : room (allocator (ld_config l)) (request (load_base (ld_config l) h) <$> filter (λ ph, is_loadable ph = true) phs);
  lo_covered : Forall (covered (ld_host l) (load_base (ld_config l) h)) (filter (λ ph, is_loadable ph = true) phs);
  lo_apart : ForallOrdPairs apart (filter (λ ph, is_loadable ph = true) phs);
  lo_entry : 0 ≤ entry h + load_base (ld_config l) h < 2 ^ 64;
}.

Lemma load_image {A} `{!MemoryAllocator A} (room : A → list (Z * Z) → Prop) `{!DirectMap A room} data h phs shs (l : Loader A) :
  let base := load_base (ld_config l) h in
  let loads := filter (λ ph, is_loadable ph = true) phs in
  image_ok data h phs shs → zlen data < 2 ^ 63 → load_ok room data h phs l →
  (relocate (ld_config l) = false ∨ Forall (λ s, is_relocation_table s = false) shs) →
  ∃ arch a', from_machine (machine h) = Ok arch ∧
    load (mkElf data h) l = (Ok (mkBinary (entry h + base) (segment_at base <$> loads) base arch resolver_new),
                             mkLoader (ld_config (set_allocator a' l)) (foldl (place data base) (ld_host l) loads)).
Proof.
  intros base loads Hi Hlen [Ht Hm Hfit Hroom Hcov Hap He] Hrel. fold base loads in Hfit, Hroom, Hcov, Hap, He.
  destruct (image_entries data h phs shs Hi Hlen) as [Hp Hs]. set (f := mkElf data h) in *.
  assert (∃ arch, from_machine (machine h) = Ok arch) as [arch Harch] by (destruct (machine h); [done|by eexists..]).
  assert (it_count (ph_iter_new f) = zlen phs) as Hpn by apply Hi. assert (it_count (sh_iter_new f) = zlen shs) as Hsn by apply Hi.
  destruct (load_segments_ok room f base phs 0 [] l) as (a' & E); [done| |done..|].
  { intros i ph Hph. specialize (Hp i ph Hph). unfold iter_get in Hp. apply lookup_lt_Some in Hph.
    rewrite (proj2 (Z.leb_gt _ _)) in Hp by (rewrite Hpn; unfold zlen; lia). exact Hp. }
  exists arch, a'. split; [done|]. unfold load. change (header f) with h.
  assert (∀ B (x : B) y, (match file_type h with Executable | SharedObject => x | _ => y end) = x) as Hft by (intros; by destruct Ht as [->| ->]).
  rewrite Hft. erewrite bind_ok by (unfold mlift; by rewrite Harch). erewrite bind_ok by reflexivity. fold base.
  erewrite bind_ok by (rewrite Hpn; exact E). erewrite bind_ok.
  - erewrite bind_ok by (unfold mlift, add64; rewrite chk_ok by done; reflexivity). reflexivity.
  - destruct (relocate (ld_config l)) eqn:Er; [|reflexivity]. destruct Hrel as [?|Hno]; [done|]. by eapply apply_relocations_none.
Qed.

(** C9: loading a file without relocations puts its image into memory. For an executable or shared object whose tables are
    where its header says, with segments that do not overlap, an allocator that maps each segment at the address it is
    asked for and has room, memory behind it, and nothing to relocate (no relocation section, or relocation turned
    off), loading succeeds; the entry point is the file's plus the base, every part of a segment reads as the file's
    bytes followed by zeros, and memory outside the segments is unchanged. *)
Theorem load_builds_image {A} `{!MemoryAllocator A} (room : A → list (Z * Z) → Prop) `{!DirectMap A room} data h phs shs (l : Loader A) :
  let base := load_base (ld_config l) h in
  image_ok data h phs shs → zlen data < 2 ^ 63 → load_ok room data h phs l →
  (relocate (ld_config l) = false ∨ Forall (λ s, is_relocation_table s = false) shs) →
  ∃ f bin l', elf_parse data = Ok f ∧ load f l = (Ok bin, l') ∧ entry_point bin = entry h + base ∧
    arch_machine (architecture bin) = machine h ∧
    (∀ ph i n, ph ∈ phs → is_loadable ph = true → 0 ≤ i → 0 < n → i + n ≤ p_memsz ph →
       read_memory bin (p_vaddr ph + base + i) n (ld_host l') =
         (Ok (field (Z.to_nat i) (Z.to_nat n) (segment_bytes data ph)), ld_host l')) ∧
    (∀ a, Forall (λ ph, is_loadable ph = true → ¬ (p_vaddr ph + base ≤ a < p_vaddr ph + base + p_memsz ph)) phs →
       ld_host l' !! a = ld_host l !! a).
Proof.
  intros base Hi Hlen Hok Hrel. destruct (load_image room data h phs shs l Hi Hlen Hok Hrel) as (arch & a' & Harch & E).
  destruct Hok as [_ _ Hfit _ _ Hap _]. eexists _, _, _. split; [by eapply parse_image|]. split; [exact E|]. split; [done|].
  split; [by apply from_machine_back|]. cbn [ld_host]. 
  assert (Forall (ph_fits data base) (filter (λ ph, is_loadable ph = true) phs)) as Hfit'
    by (rewrite Forall_forall in *; intros ph [_ Hin]%list_elem_of_filter; by apply Hfit). split.
  - intros ph i n Hin Hl Hi0 Hn Hm. apply read_loaded; try done. by apply list_elem_of_filter.
  - intros a Ha. apply place_all_other; [done..|]. apply Forall_forall. intros ph [Hl Hin]%list_elem_of_filter. rewrite Forall_forall in Ha. by apply Ha.
Qed.

(** A 64-bit file with one segment of four bytes from the file and four zeros, and memory for it. *)
Definition demo_exec_header : ElfHeader :=
  mkHeader (mkIdent ELF_MAGIC Elf64 LittleEndian 1 0 0 (zeros 7)) Executable X86_64 1 0x10002 64 120 0 64 56 1 64 0 0.
Definition demo_exec_ph : ProgramHeader := mkPh Load 5 120 0x10000 0x10000 4 8 1.
Definition demo_loader : Loader SimpleAllocator :=
  mkLoader (config_new (simple_new (0x100000, 4096))) (map_seqZ 0x10000 (replicate 9 0xCC)).

Lemma demo_exec_ok : image_ok (image demo_exec_header [demo_exec_ph] [] [1; 2; 3; 4]) demo_exec_header [demo_exec_ph] [].
Proof. concrete_image. Qed.

Lemma demo_load_ok : load_ok simple_room (image demo_exec_header [demo_exec_ph] [] [1; 2; 3; 4]) demo_exec_header [demo_exec_ph] demo_loader.
Proof.
  split; [by left|done|..].
  - constructor; [|constructor]. split; by vm_compute.
  - split; [by vm_compute..| |by vm_compute]. constructor; [|constructor]. by vm_compute.
  - constructor; [|constructor]. intros a Ha. apply lookup_map_seqZ_is_Some. cbn in *. lia.
  - repeat constructor.
  - by vm_compute.
Qed.

Lemma load_builds_image_witness :
  ∃ f bin l', elf_parse (image demo_exec_header [demo_exec_ph] [] [1; 2; 3; 4]) = Ok f ∧ load f demo_loader = (Ok bin, l') ∧
    read_memory bin 0x10002 4 (ld_host l') = (Ok [3; 4; 0; 0], ld_host l').
Proof.
  destruct (load_builds_image simple_room _ demo_exec_header [demo_exec_ph] [] demo_loader demo_exec_ok)
    as (f & bin & l' & Ep & El & _ & _ & Hr & _); [by vm_compute|exact demo_load_ok|right; constructor|].
  exists f, bin, l'. split; [exact Ep|]. split; [exact El|].
  exact (Hr demo_exec_ph 2 4 ltac:(left) eq_refl ltac:(lia) ltac:(lia) ltac:(cbn; lia)).
Defined.

(** Where a relocation is written. The loader hands the processor the part of the segment that starts at the target,
    and the processor adds the target's address again: the bytes land at distance [offset] behind the target, or the
    relocation is refused when that is outside the segment. In a segment whose address is not below its size no
    relocation can be applied. *)
Theorem relocation_lands_elsewhere {A} `{!MemoryAllocator A} seg segs base r res bs (l : Loader A) :
  find_segment (ra_offset r) segs = Ok (Some seg) → 0 ≤ seg_vaddr seg ≤ ra_offset r → ra_offset r < seg_vaddr seg + seg_size seg →
  seg_vaddr seg + seg_size seg < 2 ^ 63 → reloc_bytes base r = Some bs →
  (∀ a, seg_memory seg ≤ a < seg_memory seg + seg_size seg → is_Some (ld_host l !! a)) →
  let target := seg_memory seg + (ra_offset r - seg_vaddr seg) in
  relocate_at (ra_offset r) segs (apply_relocation_addend base r res) l =
    (if decide (ra_offset r - seg_vaddr seg + ra_offset r + zlen bs ≤ seg_size seg)
     then (Ok tt, mkLoader (ld_config l) (map_seqZ (target + ra_offset r) bs ∪ ld_host l)) else (Err InvalidOffset, l)) ∧
  (seg_size seg ≤ seg_vaddr seg → relocate_at (ra_offset r) segs (apply_relocation_addend base r res) l = (Err InvalidOffset, l)).
Proof.
  intros Hf Hv Hin Ht Hb Hcov target. assert (0 < zlen bs ≤ 8) as Hbs.
  { unfold reloc_bytes in Hb. destruct (ra_type r) as [[]| | |]; try discriminate Hb; injection Hb as <-; unfold zlen; rewrite length_le_bytes; lia. }
  assert (relocate_at (ra_offset r) segs (apply_relocation_addend base r res) l =
    (if decide (ra_offset r - seg_vaddr seg + ra_offset r + zlen bs ≤ seg_size seg)
     then (Ok tt, mkLoader (ld_config l) (map_seqZ (target + ra_offset r) bs ∪ ld_host l)) else (Err InvalidOffset, l))) as E.
  { unfold relocate_at. erewrite bind_ok by (unfold mlift; by rewrite Hf). cbv beta iota zeta. rewrite (apply_supported _ _ _ _ _ Hb). cbn [fst snd].
    unfold saturating_sub, on_host, zoom. rewrite Z.max_r by lia.
    destruct (Z.leb_spec (seg_size seg - (ra_offset r - seg_vaddr seg)) (ra_offset r)); [rewrite decide_False by lia; by destruct l|].
    unfold patch. erewrite bind_ok by (unfold mlift, add64; rewrite chk_ok by lia; reflexivity). cbn [fst snd].
    case_decide; [rewrite (proj2 (Z.leb_le _ _)) by lia|rewrite (proj2 (Z.leb_gt _ _)) by lia; by destruct l].
    rewrite host_write_ok; [done|]. intros a Ha. apply Hcov. lia. }
  split; [exact E|]. intros Hs. rewrite E. by rewrite decide_False by lia.
Qed.

(** A segment of 64 bytes at address 16 with a relocation of address 24. *)
Lemma relocation_lands_elsewhere_witness :
  let l := mkLoader (config_new (simple_new (0x100000, 4096))) (map_seqZ 16 (zeros 64)) : Loader SimpleAllocator in
  ∃ h, relocate_at 24 [mkSegment 16 64 16 true false] (apply_relocation_addend 0 (mkRela 24 (RX86_64 XR64) 0 5) resolver_new) l =
    (Ok tt, mkLoader (ld_config l) h) ∧ h !! 24 = Some 0 ∧ h !! 48 = Some 5.
Proof.
  intros l. destruct (relocation_lands_elsewhere (mkSegment 16 64 16 true false) [mkSegment 16 64 16 true false] 0 (mkRela 24 (RX86_64 XR64) 0 5)
    resolver_new (le_bytes 8 5) l) as [E _]; [reflexivity|cbn; lia..|reflexivity| |].
  - intros a Ha. apply lookup_map_seqZ_is_Some. rewrite length_zeros. cbn in Ha. lia.
  - rewrite decide_True in E by (by vm_compute). eexists. split; [exact E|]. clear. by vm_compute.
Defined.

(** Relocations of position-independent files are skipped. The targets named in the file are compared with the
    addresses of the loaded segments without adding the base: when they are below the base, loading returns the
    segments as copied from the file and reports success. *)
Theorem low_relocations_skipped {A} `{!MemoryAllocator A} elf arch ts segs (l l' : Loader A) :
  let h := header elf in let base := load_base (ld_config l) h in
  file_type h = Executable ∨ file_type h = SharedObject → from_machine (machine h) = Ok arch → bytes_ok (elf_data elf) →
  load_segments elf base [] (seqZ 0 (phnum h)) l = (Ok segs, l') →
  reloc_targets elf = Ok ts → Forall (λ a, a < base) ts → 0 ≤ entry h + base < 2 ^ 64 →
  load elf l = (Ok (mkBinary (entry h + base) segs base arch resolver_new), l').
Proof.
  intros h base Ht Ha Hb Hsegs Hts Hlow He.
  assert (∀ B (x : B) y, (match file_type h with Executable | SharedObject => x | _ => y end) = x) as Hft by (intros; by destruct Ht as [->| ->]).
  unfold load. fold h. rewrite Hft. erewrite bind_ok by (unfold mlift; by rewrite Ha). erewrite bind_ok by reflexivity. fold base.
  erewrite bind_ok by exact Hsegs. erewrite bind_ok; [erewrite bind_ok by (unfold mlift, add64; rewrite chk_ok by done; reflexivity); reflexivity|].
  destruct (relocate (ld_config l)); [|reflexivity]. eapply apply_relocations_skip; [|exact Hts|exact Hlow].
  eapply load_segments_above; [exact Hb|exact Hsegs|constructor].
Qed.

(** A shared object with one segment and a relocation of its second word. *)
Definition demo_so_header : ElfHeader :=
  mkHeader (mkIdent ELF_MAGIC Elf64 LittleEndian 1 0 0 (zeros 7)) SharedObject X86_64 1 0 64 120 0 64 56 1 64 1 0.
Definition demo_so_data : list Z :=
  image demo_so_header [mkPh Load 6 184 0 0 16 16 1] [mkSh 0 Rela 2 0 200 24 0 0 8 24]
    (zeros 16 ++ enc_table rela_fields true true [mkRela 8 (RX86_64 XRelative) 0 4]).
Definition demo_so_loader : Loader SimpleAllocator :=
  mkLoader (config_new (simple_new (0x100000, 4096))) (map_seqZ 0x400000 (replicate 16 0xCC)).

Lemma low_relocations_skipped_witness :
  ∃ f bin l', elf_parse demo_so_data = Ok f ∧ reloc_targets f = Ok [8] ∧ load f demo_so_loader = (Ok bin, l') ∧
    (read_memory bin 0x400000 16 (ld_host l')).1 = Ok (zeros 16).
Proof.
  set (f := mkElf demo_so_data demo_so_header).
  assert (∃ segs l', load_segments f 0x400000 [] (seqZ 0 1) demo_so_loader = (Ok segs, l') ∧
    (read_memory (mkBinary 0x400000 segs 0x400000 AtX86_64 resolver_new) 0x400000 16 (ld_host l')).1 = Ok (zeros 16)) as (segs & l' & E & Er).
  { destruct (load_segments f 0x400000 [] (seqZ 0 1) demo_so_loader) as [[segs|e| |] l'] eqn:E; [|by vm_compute in E..].
    exists segs, l'. split; [done|]. vm_compute in E. injection E as <- <-. by vm_compute. }
  eexists f, _, l'. split; [by vm_compute|]. split; [by vm_compute|]. split; [|exact Er].
  apply (low_relocations_skipped f AtX86_64 [8] segs demo_so_loader l'); [by right|reflexivity| |exact E|by vm_compute|by constructor|by vm_compute].
  apply bytes_ok_forallb. by vm_compute.
Defined.

(** The pages of the real allocator stay empty. Whatever file is loaded through it and however loading ends, the bytes
    of the memory manager are those from before: the loader writes to the virtual address itself, taken as a pointer. *)
Theorem real_load_bypasses_manager elf l :
  physical_memory (memory_manager (allocator (ld_config (load elf l).2))) = physical_memory (memory_manager (allocator (ld_config l))).
Proof.
  revert l. change (keeps_managed (load elf)). unfold load. destruct (file_type (header elf)); try (by intros l');
    (apply keeps_managed_bind; [auto with managed|]; intros arch; apply keeps_managed_bind; [auto with managed|]; intros l';
     apply keeps_managed_bind; [apply keeps_managed_segments|]; intros segs; apply keeps_managed_bind;
     [destruct (relocate _); [apply keeps_managed_relocations|auto with managed]|]; intros _; repeat managed_step).
Qed.

(** Blocks of the simple allocator. Over a buffer above its own length, every allocation of a sequence fails or
    returns a block that is aligned and inside the buffer, and blocks do not overlap; nothing panics. *)
Theorem simple_blocks_disjoint start len reqs :
  0 ≤ len ≤ start → start + len < 2 ^ 61 → Forall alloc_req_ok reqs →
  let rs := (alloc_run reqs (simple_new (start, len))).1 in
  Forall2 (λ q r, r = Err AllocationFailed ∨ ∃ p, r = Ok p ∧ p `mod` q.2 = 0 ∧ start ≤ p ∧ p + q.1 ≤ start + len) reqs rs ∧
  ∀ i j q p p', (i < j)%nat → reqs !! i = Some q → rs !! i = Some (Ok p) → rs !! j = Some (Ok p') → p + q.1 ≤ p'.
Proof.
  intros Hl Ht Hr. assert (∀ a, simple_inv start len a → let rs := (alloc_run reqs a).1 in
    Forall2 (λ q r, r = Err AllocationFailed ∨ ∃ p, r = Ok p ∧ p `mod` q.2 = 0 ∧ start ≤ p ∧ p + q.1 ≤ start + len) reqs rs ∧
    (∀ j p, rs !! j = Some (Ok p) → sa_current a ≤ p) ∧
    ∀ i j q p p', (i < j)%nat → reqs !! i = Some q → rs !! i = Some (Ok p) → rs !! j = Some (Ok p') → p + q.1 ≤ p') as H.
  { clear -Hl Ht Hr. induction Hr as [|q reqs Hq Hr IH]; intros a Ha; [by split; [constructor|]|]. cbn [alloc_run]. pose proof (si_current _ _ _ Ha) as Hc.
    destruct (simple_allocate_ok start len q a Hl Ht Hq Ha) as [E|(p & a' & E & Ha' & Hm & Hp & Hn & Htop)]; rewrite E.
    - destruct (IH a Ha) as (H1 & H2 & H3). destruct (alloc_run reqs a) as [rs a2]. cbn in *. split; [constructor; [by left|done]|]. split.
      + intros [|j] p Hj; [done|]. by eapply H2.
      + intros [|i] [|j] q' p p' Hij Hq' Hi Hj; [lia|done|lia|]. eapply (H3 i j); [lia|done..].
    - destruct (IH a' Ha') as (H1 & H2 & H3). destruct (alloc_run reqs a') as [rs a2]. cbn in *. split; [|split].
      + constructor; [|done]. right. exists p. repeat split; (done || lia).
      + intros [|j] p1 Hj; [injection Hj as <-; lia|]. apply H2 in Hj. pose proof Hq as [Hq0 _]. lia.
      + intros [|i] [|j] q' p1 p' Hij Hq' Hi Hj; [lia| |lia|eapply (H3 i j); [lia|done..]].
        injection Hq' as <-. injection Hi as <-. apply H2 in Hj. lia. }
  destruct (H (simple_new (start, len))) as (H1 & _ & H3); [split; cbn; lia|]. by split.
Qed.

(** The second block does not fit a buffer with more than half of it left: what is used counts twice. *)
Lemma simple_blocks_disjoint_witness :
  (alloc_run [(40, 8); (30, 1); (10, 4)] (simple_new (1000, 100))).1 = [Ok 1000; Err AllocationFailed; Ok 1040] ∧ 1000 + 40 ≤ 1040.
Proof.
  split; [by vm_compute|].
  destruct (simple_blocks_disjoint 1000 100 [(40, 8); (30, 1); (10, 4)]) as [_ H]; [lia|lia| |].
  - forall_list; (split; [cbn; lia|]); [exists 3|exists 0|exists 2]; by vm_compute.
  - exact (H 0%nat 2%nat (40, 8) 1000 1040 ltac:(lia) eq_refl eq_refl eq_refl).
Defined.
