(* ===== verification/ElfInstr.v ===== *)
(** * The instruction interpreters ([crates/Statue/src/instruction.rs])

    One instruction of x86_64, AArch64 and RISC-V: decoding from bytes and the
    effect on the processor state, with what the execution loop is to do next.
    Additions to the instruction pointer are checked, arithmetic of the program
    wraps. *)

From S2P Require Import Prelude Process Elf ElfArch.

Inductive InstructionResult : Type :=
  | Continue | Exit (code : Z) | SystemCall | Jump (target : Z) | ConditionalJump (target : Z) (taken : bool) | Call (target : Z) | Return.

(** ** x86_64 *)
Abbreviation XM := (M ExecutionState ElfError).

Definition byte {S} (bytes : list Z) (i : Z) : M S ElfError Z := mlift (byte_at bytes i).

(** [u32::from_le_bytes] of four bytes from [i]. *)
Definition word {S} (bytes : list Z) (i : Z) : M S ElfError Z := mlift (read_u32 bytes i true).

Definition set_rip (v : Z) (s : ExecutionState) : ExecutionState := mkExec v (rflags s) (gpr s).
Definition set_rflags (v : Z) (s : ExecutionState) : ExecutionState := mkExec (rip s) v (gpr s).
Definition set_gpr (r : Reg) (v : Z) (s : ExecutionState) : ExecutionState := mkExec (rip s) (rflags s) (set_reg r v (gpr s)).

(** [state.rip += n; Ok(Continue)] *)
Definition x_next (n : Z) : XM InstructionResult :=
  let! s := mget in
  let! v := mlift (add64 (rip s) n) in
  let! _ := mput (set_rip v s) in
  mok Continue.

(** The register a number names; [get_register_64] and [set_register_64] read 0 from and ignore other numbers. *)
Definition reg_of (reg : Z) : option Reg :=
  match reg with
  | 0 => Some RAX | 1 => Some RCX | 2 => Some RDX | 3 => Some RBX | 4 => Some RSP | 5 => Some RBP | 6 => Some RSI | 7 => Some RDI
  | _ => None
  end.

Definition get_register_64 (s : ExecutionState) (reg : Z) : Z := match reg_of reg with Some r => gpr s r | None => 0 end.
Definition set_register_64 (reg value : Z) (s : ExecutionState) : ExecutionState :=
  match reg_of reg with Some r => set_gpr r value s | None => s end.

Definition set_flag (mask : Z) (b : bool) (fl : Z) : Z := if b then Z.lor fl mask else Z.ldiff fl mask.
Definition sign_bit (v : Z) : Z := Z.land v 0x8000000000000000.

Definition update_flags_add (op1 op2 result fl : Z) : Z :=
  let fl := set_flag 0x40 (result =? 0) fl in
  let fl := set_flag 0x80 (negb (sign_bit result =? 0)) fl in
  let fl := set_flag 0x01 (result <? op1) fl in
  set_flag 0x800 ((sign_bit op1 =? sign_bit op2) && negb (sign_bit op1 =? sign_bit result)) fl.

Definition update_flags_sub (op1 op2 result fl : Z) : Z :=
  let fl := set_flag 0x40 (result =? 0) fl in
  let fl := set_flag 0x80 (negb (sign_bit result =? 0)) fl in
  set_flag 0x01 (op1 <? op2) fl.

Definition update_flags_logical (result fl : Z) : Z :=
  let fl := set_flag 0x40 (result =? 0) fl in
  let fl := set_flag 0x80 (negb (sign_bit result =? 0)) fl in
  set_flag 0x800 false (set_flag 0x01 false fl).

(** The two register fields of a ModR/M byte. *)
Definition modrm_src (modrm : Z) : Z := Z.land (Z.shiftr modrm 3) 0x7.
Definition modrm_dst (modrm : Z) : Z := Z.land modrm 0x7.

(** The arms for opcode 0x48. *)
Definition x_mov (bytes : list Z) (offset : Z) : XM InstructionResult :=
  let n := zlen bytes in
  let! op := byte bytes (offset + 1) in
  if (op =? 0xc7) && (offset + 7 <? n) then
    let! m := byte bytes (offset + 2) in
    let! immediate := word bytes (offset + 3) in
    let! _ := mmod (set_register_64 (Z.land m 0x7) immediate) in
    x_next 7
  else if (op =? 0x89) && (offset + 3 <=? n) then
    let! m := byte bytes (offset + 2) in
    let! _ := mmod (λ s, set_register_64 (modrm_dst m) (get_register_64 s (modrm_src m)) s) in
    x_next 3
  else if (op =? 0x8b) && (offset + 3 <=? n) then x_next 3
  else x_next 2.

Definition x_add (modrm : Z) (s : ExecutionState) : ExecutionState :=
  let src := get_register_64 s (modrm_src modrm) in
  let dst := get_register_64 s (modrm_dst modrm) in
  let result := wrap64 (dst + src) in
  let s := set_register_64 (modrm_dst modrm) result s in
  set_rflags (update_flags_add dst src result (rflags s)) s.

Definition x_cmp (modrm : Z) (s : ExecutionState) : ExecutionState :=
  let src := get_register_64 s (modrm_src modrm) in
  let dst := get_register_64 s (modrm_dst modrm) in
  set_rflags (update_flags_sub dst src (wrap64 (dst - src)) (rflags s)) s.

Definition x_sub (modrm : Z) (s : ExecutionState) : ExecutionState :=
  let src := get_register_64 s (modrm_src modrm) in
  let dst := get_register_64 s (modrm_dst modrm) in
  let result := wrap64 (dst - src) in
  let s := set_register_64 (modrm_dst modrm) result s in
  set_rflags (update_flags_sub dst src result (rflags s)) s.

Definition x_test (modrm : Z) (s : ExecutionState) : ExecutionState :=
  let v1 := get_register_64 s (modrm_src modrm) in
  let v2 := get_register_64 s (modrm_dst modrm) in
  set_rflags (update_flags_logical (Z.land v1 v2) (rflags s)) s.

(** An instruction with a ModR/M byte and two bytes of length. *)
Definition x_modrm (bytes : list Z) (offset : Z) (f : Z → ExecutionState → ExecutionState) : XM InstructionResult :=
  let! m := byte bytes (offset + 1) in
  let! _ := mmod (f m) in
  x_next 2.

(** [rip.wrapping_add(n).wrapping_add(displacement as u64)] *)
Definition x_target (s : ExecutionState) (n displacement : Z) : Z := wrap64 (wrap64 (rip s + n) + wrap64 displacement).

Definition rel8 (bytes : list Z) (offset : Z) : XM Z :=
  let! b := byte bytes (offset + 1) in
  let! s := mget in
  mok (x_target s 2 (as_signed 8 b)).

Definition rel32 (bytes : list Z) (offset : Z) : XM Z :=
  let! w := word bytes (offset + 1) in
  let! s := mget in
  mok (x_target s 5 (as_signed 32 w)).

(** The arms of the match on the opcode, in their order. *)
Definition x_opcode (bytes : list Z) (offset opcode : Z) : XM InstructionResult :=
  let n := zlen bytes in
  if (opcode =? 0x48) && (offset + 1 <? n) then x_mov bytes offset
  else if (opcode =? 0x01) && (offset + 2 <? n) then x_modrm bytes offset x_add
  else if (opcode =? 0x29) && (offset + 2 <? n) then x_modrm bytes offset x_sub
  else if (opcode =? 0x39) && (offset + 2 <? n) then x_modrm bytes offset x_cmp
  else if (opcode =? 0x85) && (offset + 2 <? n) then x_modrm bytes offset x_test
  else if (opcode =? 0xe9) && (offset + 5 <=? n) then let! t := rel32 bytes offset in mok (Jump t)
  else if (opcode =? 0xeb) && (offset + 2 <=? n) then let! t := rel8 bytes offset in mok (Jump t)
  else if (opcode =? 0x74) && (offset + 2 <=? n) then
    let! t := rel8 bytes offset in
    let! s := mget in
    mok (ConditionalJump t (negb (Z.land (rflags s) 0x40 =? 0)))
  else if (opcode =? 0x75) && (offset + 2 <=? n) then
    let! t := rel8 bytes offset in
    let! s := mget in
    mok (ConditionalJump t (Z.land (rflags s) 0x40 =? 0))
  else if (opcode =? 0xe8) && (offset + 5 <=? n) then let! t := rel32 bytes offset in mok (Call t)
  else if (0x50 <=? opcode) && (opcode <=? 0x57) then
    let! _ := mmod (λ s, set_gpr RSP (wrap64 (gpr s RSP - 8)) s) in x_next 1
  else if (0x58 <=? opcode) && (opcode <=? 0x5f) then
    let! _ := mmod (λ s, set_gpr RSP (wrap64 (gpr s RSP + 8)) s) in x_next 1
  else
    let! second := (if (opcode =? 0x0f) && (offset + 1 <? n) then let! b := byte bytes (offset + 1) in mok (Some b) else mok None) in
    match second with
    | Some 0x05 => mok SystemCall
    | _ =>
        if opcode =? 0x90 then x_next 1
        else if opcode =? 0xc3 then mok Return
        else
          match second with
          | Some b => if ((b =? 0xb6) || (b =? 0xb7) || (b =? 0xbe) || (b =? 0xbf)) && (offset + 3 <=? n) then x_next 3 else x_next 2
          | None => x_next 1
          end
    end.

Definition x86_execute (bytes : list Z) : XM InstructionResult :=
  if zlen bytes =? 0 then merr ExecutionSetupFailed else
  let! first := byte bytes 0 in
  if Z.land first 0xf0 =? 0x40 then
    if zlen bytes <=? 1 then merr ExecutionSetupFailed else
    let! opcode := byte bytes 1 in x_opcode bytes 1 opcode
  else x_opcode bytes 0 first.

(** ** AArch64 *)
Abbreviation AM := (M AArch64ExecutionState ElfError).

(** [array[i]], and its assignment. *)
Definition reg_at {E} (x : list Z) (i : Z) : res E Z := match x !! Z.to_nat i with Some v => Ok v | None => Panic end.
Definition reg_put {E} (x : list Z) (i v : Z) : res E (list Z) :=
  if bool_decide (Z.to_nat i < length x)%nat then Ok (<[Z.to_nat i := v]> x) else Panic.

Definition a_next : AM InstructionResult :=
  let! s := mget in
  let! v := mlift (add64 (a_pc s) 4) in
  let! _ := mput (mkA64 v (a_sp s) (a_x s) (pstate s)) in
  mok Continue.

Definition a_set (rd v : Z) : AM unit :=
  let! s := mget in
  let! x := mlift (reg_put (a_x s) rd v) in
  mput (mkA64 (a_pc s) (a_sp s) x (pstate s)).

(** ADD and SUB with an immediate. *)
Definition a_arith (i : Z) (f : Z → Z → Z) : AM InstructionResult :=
  let rd := Z.land i 0x1f in
  let rn := Z.land (Z.shiftr i 5) 0x1f in
  let imm := Z.land (Z.shiftr i 10) 0xfff in
  let! _ := (if (rd <? 31) && (rn <? 31) then
               let! s := mget in
               let! v := mlift (reg_at (a_x s) rn) in
               a_set rd (wrap64 (f v imm))
             else mok tt) in
  a_next.

(** [((i & 0x03ffffff) as i32) << 6 >> 6], times 4, which fits 32 bits: the target of B and BL. *)
Definition a_target (s : AArch64ExecutionState) (i : Z) : Z :=
  let imm := Z.shiftr (as_signed 32 (as_u32 (Z.shiftl (Z.land i 0x03ffffff) 6))) 6 in
  wrap64 (a_pc s + wrap64 (imm * 4)).

Definition a64_execute (bytes : list Z) : AM InstructionResult :=
  if zlen bytes <? 4 then merr ExecutionSetupFailed else
  let! i := word bytes 0 in
  if Z.land i 0xff800000 =? 0xd2800000 then
    let rd := Z.land i 0x1f in
    let! _ := (if rd <? 31 then a_set rd (Z.land (Z.shiftr i 5) 0xffff) else mok tt) in
    a_next
  else if Z.land i 0xff000000 =? 0x91000000 then a_arith i Z.add
  else if Z.land i 0xff000000 =? 0xd1000000 then a_arith i Z.sub
  else if Z.land i 0xfc000000 =? 0x14000000 then let! s := mget in mok (Jump (a_target s i))
  else if Z.land i 0xfc000000 =? 0x94000000 then
    let! s := mget in
    let! link := mlift (add64 (a_pc s) 4) in
    let! _ := a_set 30 link in
    mok (Call (a_target s i))
  else if i =? 0xd65f03c0 then let! s := mget in let! t := mlift (reg_at (a_x s) 30) in mok (Jump t)
  else if Z.land i 0xffe0001f =? 0xd4000001 then mok SystemCall
  else if i =? 0xd503201f then a_next
  else a_next.

(** ** RISC-V *)
Abbreviation VM := (M RiscVExecutionState ElfError).

Definition v_next : VM InstructionResult :=
  let! s := mget in
  let! v := mlift (add64 (v_pc s) 4) in
  let! _ := mput (mkRv v (v_x s)) in
  mok Continue.

Definition v_set (rd v : Z) : VM unit :=
  let! s := mget in
  let! x := mlift (reg_put (v_x s) rd v) in
  mput (mkRv (v_pc s) x).

(** Fields of an instruction; [i_imm] is [((instruction as i32) >> 20) as i64 as u64]. *)
Definition v_rd (i : Z) : Z := Z.land (Z.shiftr i 7) 0x1f.
Definition v_rs1 (i : Z) : Z := Z.land (Z.shiftr i 15) 0x1f.
Definition v_funct3 (i : Z) : Z := Z.land (Z.shiftr i 12) 0x7.
Definition i_imm (i : Z) : Z := wrap64 (Z.shiftr (as_signed 32 i) 20).

Definition decode_jal_immediate (i : Z) : Z :=
  let bit_20 := Z.land (Z.shiftr i 31) 1 in
  let bit_10_1 := Z.land (Z.shiftr i 21) 0x3ff in
  let bit_11 := Z.land (Z.shiftr i 20) 1 in
  let bit_19_12 := Z.land (Z.shiftr i 12) 0xff in
  let imm := Z.lor (Z.lor (Z.lor (Z.shiftl bit_20 20) (Z.shiftl bit_19_12 12)) (Z.shiftl bit_11 11)) (Z.shiftl bit_10_1 1) in
  if negb (bit_20 =? 0) then as_signed 32 (Z.lor imm 0xffe00000) else as_signed 32 imm.

Definition v_op_imm (i : Z) : VM InstructionResult :=
  let! _ :=
    (if negb (v_rd i =? 0) && (v_rs1 i <? 32) then
       let! s := mget in
       match v_funct3 i with
       | 0 => let! a := mlift (reg_at (v_x s) (v_rs1 i)) in v_set (v_rd i) (wrap64 (a + i_imm i))
       | 4 => let! a := mlift (reg_at (v_x s) (v_rs1 i)) in v_set (v_rd i) (Z.lxor a (i_imm i))
       | 6 => let! a := mlift (reg_at (v_x s) (v_rs1 i)) in v_set (v_rd i) (Z.lor a (i_imm i))
       | 7 => let! a := mlift (reg_at (v_x s) (v_rs1 i)) in v_set (v_rd i) (Z.land a (i_imm i))
       | _ => mok tt
       end
     else mok tt) in
  v_next.

(** [if rd != 0 { x[rd] = pc + 4 }] *)
Definition v_link (i : Z) : VM unit :=
  if negb (v_rd i =? 0) then
    let! s := mget in
    let! link := mlift (add64 (v_pc s) 4) in
    v_set (v_rd i) link
  else mok tt.

Definition riscv_execute (bytes : list Z) : VM InstructionResult :=
  if zlen bytes <? 4 then merr ExecutionSetupFailed else
  let! i := word bytes 0 in
  match Z.land i 0x7f with
  | 0x73 => if i =? 0x73 then mok SystemCall else v_next
  | 0x13 => v_op_imm i
  | 0x37 =>
      let! _ := (if negb (v_rd i =? 0) then v_set (v_rd i) (Z.land i 0xfffff000) else mok tt) in
      v_next
  | 0x6f =>
      let! _ := v_link i in
      let! s := mget in
      mok (Jump (wrap64 (v_pc s + wrap64 (decode_jal_immediate i))))
  | 0x67 =>
      let! s := mget in
      let! a := mlift (reg_at (v_x s) (v_rs1 i)) in
      let target := Z.ldiff (wrap64 (a + i_imm i)) 1 in
      let! _ := v_link i in
      mok (Jump target)
  | _ => v_next
  end.

(** ** Registers stay in their width *)
Record x_ok (s : ExecutionState) : Prop := { xo_rip : in_u 64 (rip s); xo_flags : in_u 64 (rflags s); xo_gpr : ∀ r, in_u 64 (gpr s r) }.
Record a_ok (s : AArch64ExecutionState) : Prop :=
  { ao_pc : in_u 64 (a_pc s); ao_sp : in_u 64 (a_sp s); ao_len : length (a_x s) = 31%nat; ao_x : Forall (in_u 64) (a_x s) }.
Record v_ok (s : RiscVExecutionState) : Prop :=
  { vo_pc : in_u 64 (v_pc s); vo_len : length (v_x s) = 32%nat; vo_x : Forall (in_u 64) (v_x s); vo_zero : v_x s !! 0%nat = Some 0 }.

(** Targets are addresses. *)
Definition result_ok (r : InstructionResult) : Prop :=
  match r with Jump t | ConditionalJump t _ | Call t | Exit t => in_u 64 t | _ => True end.

#[export] Hint Resolve keeps_ok keeps_err keeps_get keeps_if : keeps.

Lemma keeps_byte {S} (I : S → Prop) bytes i : bytes_ok bytes → keeps I byte_ok (byte bytes i).
Proof.
  intros Hb. apply keeps_lift. unfold byte_at. destruct (bytes !! Z.to_nat i) eqn:E; [|done]. destruct (0 <=? i); [|done].
  exact (Forall_lookup_1 _ _ _ _ Hb E).
Qed.

Lemma keeps_word {S} (I : S → Prop) bytes i : bytes_ok bytes → keeps I (in_u 32) (word bytes i).
Proof.
  intros Hb. apply keeps_lift. pose proof (λ v, read_int_inv 4 bytes i true v) as H. unfold read_u32, read_int in *.
  unfold slice in *. case_bool_decide; [|done]. cbn [rbind] in *. by apply H.
Qed.

Lemma set_flag_ok mask b fl : in_u 64 mask → in_u 64 fl → in_u 64 (set_flag mask b fl).
Proof. intros. unfold set_flag. destruct b; [apply in_u_lor|apply in_u_ldiff]; (done || lia). Qed.

Lemma set_gpr_ok r v s : x_ok s → in_u 64 v → x_ok (set_gpr r v s).
Proof. intros [] Hv. split; [done..|]. intros r'. cbn. unfold set_reg. by case_decide. Qed.

Lemma set_register_ok reg v s : x_ok s → in_u 64 v → x_ok (set_register_64 reg v s).
Proof. unfold set_register_64. destruct (reg_of reg); [apply set_gpr_ok|done]. Qed.

Lemma get_register_ok reg s : x_ok s → in_u 64 (get_register_64 s reg).
Proof. intros [_ _ H]. unfold get_register_64. destruct (reg_of reg); [done|by vm_compute]. Qed.

Lemma set_rflags_ok v s : x_ok s → in_u 64 v → x_ok (set_rflags v s).
Proof. intros []. by split. Qed.

Lemma flags_add_ok a b r fl : in_u 64 fl → in_u 64 (update_flags_add a b r fl).
Proof. intros. unfold update_flags_add. repeat (apply set_flag_ok; [by vm_compute|]). done. Qed.
Lemma flags_sub_ok a b r fl : in_u 64 fl → in_u 64 (update_flags_sub a b r fl).
Proof. intros. unfold update_flags_sub. repeat (apply set_flag_ok; [by vm_compute|]). done. Qed.
Lemma flags_logical_ok r fl : in_u 64 fl → in_u 64 (update_flags_logical r fl).
Proof. intros. unfold update_flags_logical. repeat (apply set_flag_ok; [by vm_compute|]). done. Qed.

Create HintDb width.
#[export] Hint Resolve set_gpr_ok set_register_ok get_register_ok set_rflags_ok flags_add_ok flags_sub_ok flags_logical_ok
  in_u_wrap64 in_u_lor in_u_lxor in_u_land in_u_ldiff xo_flags xo_gpr xo_rip : width.
#[export] Hint Extern 1 (0 ≤ 64) => lia : width.

Lemma x_next_keeps n : keeps x_ok result_ok (x_next n).
Proof.
  eapply keeps_bind; [apply keeps_get|]. intros s Hs. eapply (keeps_bind _ (in_u 64)); [apply keeps_lift, ends_add64|].
  intros v Hv. eapply keeps_bind; [apply keeps_put|intros _ _; by apply keeps_ok]. destruct Hs. by split.
Qed.

Lemma x_modrm_keeps bytes offset f : bytes_ok bytes → (∀ m s, x_ok s → x_ok (f m s)) → keeps x_ok result_ok (x_modrm bytes offset f).
Proof.
  intros Hb Hf. eapply keeps_bind; [by apply keeps_byte|]. intros m _. eapply keeps_bind; [apply keeps_mod, Hf|]. intros _ _. apply x_next_keeps.
Qed.

Lemma x_alu_ok m s : x_ok s → x_ok (x_add m s) ∧ x_ok (x_sub m s) ∧ x_ok (x_cmp m s) ∧ x_ok (x_test m s).
Proof.
  intros Hs. unfold x_add, x_sub, x_cmp, x_test.
  split_and!; apply set_rflags_ok; auto with width.
Qed.

Lemma rel8_keeps bytes offset : bytes_ok bytes → keeps x_ok (in_u 64) (rel8 bytes offset).
Proof.
  intros Hb. eapply keeps_bind; [by apply keeps_byte|]. intros b _. eapply keeps_bind; [apply keeps_get|]. intros s _. apply keeps_ok, in_u_wrap64.
Qed.
Lemma rel32_keeps bytes offset : bytes_ok bytes → keeps x_ok (in_u 64) (rel32 bytes offset).
Proof.
  intros Hb. eapply keeps_bind; [by apply keeps_word|]. intros b _. eapply keeps_bind; [apply keeps_get|]. intros s _. apply keeps_ok, in_u_wrap64.
Qed.

Lemma x_mov_keeps bytes offset : bytes_ok bytes → keeps x_ok result_ok (x_mov bytes offset).
Proof.
  intros Hb. eapply keeps_bind; [by apply keeps_byte|]. intros op _. repeat (apply keeps_if; intros _); try apply x_next_keeps.
  - eapply keeps_bind; [by apply keeps_byte|]. intros m _. eapply keeps_bind; [by apply keeps_word|]. intros w Hw.
    eapply keeps_bind; [|intros _ _; apply x_next_keeps]. apply keeps_mod. intros s Hs. apply set_register_ok; [done|]. unfold in_u in *. lia.
  - eapply keeps_bind; [by apply keeps_byte|]. intros m _. eapply keeps_bind; [|intros _ _; apply x_next_keeps].
    apply keeps_mod. auto with width.
Qed.

(** Leaves of the decoder. *)
Ltac x_leaf :=
  first [ apply x_next_keeps | by apply x_mov_keeps | by apply keeps_ok
        | apply x_modrm_keeps; [done|]; intros m s Hs; by destruct (x_alu_ok m s Hs) as (? & ? & ? & ?)
        | eapply keeps_bind; [first [by apply rel8_keeps|by apply rel32_keeps]|]; intros t Ht;
          first [by apply keeps_ok | eapply keeps_bind; [apply keeps_get|]; intros s _; by apply keeps_ok]
        | eapply keeps_bind; [apply keeps_mod; auto with width|]; intros _ _; apply x_next_keeps ].

Lemma x_opcode_keeps bytes offset opcode : bytes_ok bytes → keeps x_ok result_ok (x_opcode bytes offset opcode).
Proof.
  intros Hb. unfold x_opcode. do 12 (apply keeps_if; intros _; [x_leaf|]).
  eapply (keeps_bind _ (λ _, True)).
  - apply keeps_if; intros _; [|by apply keeps_ok]. eapply keeps_bind; [by apply keeps_byte|]. intros b _. by apply keeps_ok.
  - intros second _. assert (∀ b, keeps x_ok result_ok
      (if opcode =? 144 then x_next 1 else if opcode =? 195 then mok Return else
       match b with
       | Some b => if ((b =? 182) || (b =? 183) || (b =? 190) || (b =? 191)) && (offset + 3 <=? zlen bytes) then x_next 3 else x_next 2
       | None => x_next 1
       end)) as H.
    { intros b. do 2 (apply keeps_if; intros _; [x_leaf|]). destruct b; [apply keeps_if; intros _; x_leaf|x_leaf]. }
    destruct second as [b|]; [|apply (H None)]. pose proof (H (Some b)) as Hb'. repeat case_match; try exact Hb'; by apply keeps_ok.
Qed.

Lemma x86_keeps bytes : bytes_ok bytes → keeps x_ok result_ok (x86_execute bytes).
Proof.
  intros Hb. unfold x86_execute. apply keeps_if; intros _; [apply keeps_err|]. eapply keeps_bind; [by apply keeps_byte|]. intros b _.
  apply keeps_if; intros _; [|by apply x_opcode_keeps]. apply keeps_if; intros _; [apply keeps_err|].
  eapply keeps_bind; [by apply keeps_byte|]. intros op _. by apply x_opcode_keeps.
Qed.

(** *** AArch64 *)
Lemma reg_at_ok {E} x i : Forall (in_u 64) x → ends (in_u 64) (@reg_at E x i).
Proof. intros Hx. unfold reg_at. destruct (x !! Z.to_nat i) eqn:Ex; [|done]. exact (Forall_lookup_1 _ _ _ _ Hx Ex). Qed.

Lemma reg_put_ok {E} x i v n :
  length x = n → Forall (in_u 64) x → in_u 64 v →
  ends (λ x', length x' = n ∧ Forall (in_u 64) x' ∧ x' = <[Z.to_nat i := v]> x) (@reg_put E x i v).
Proof. intros Hl Hx Hv. unfold reg_put. case_bool_decide; [|done]. cbn. rewrite length_insert. split; [done|]. split; [by apply Forall_insert|done]. Qed.

Lemma a_next_keeps : keeps a_ok result_ok a_next.
Proof.
  eapply keeps_bind; [apply keeps_get|]. intros s Hs. eapply (keeps_bind _ (in_u 64)); [apply keeps_lift, ends_add64|].
  intros v Hv. eapply keeps_bind; [apply keeps_put|intros _ _; by apply keeps_ok]. destruct Hs. by split.
Qed.

Lemma a_set_keeps rd v : in_u 64 v → keeps a_ok (λ _, True) (a_set rd v).
Proof.
  intros Hv. eapply keeps_bind; [apply keeps_get|]. intros s Hs.
  eapply keeps_bind; [apply keeps_lift, reg_put_ok; [by apply ao_len|by apply ao_x|done]|].
  intros x (Hl & Hx & _). apply keeps_put. destruct Hs. by split.
Qed.

Lemma a_arith_keeps i f : keeps a_ok result_ok (a_arith i f).
Proof.
  eapply (keeps_bind _ (λ _, True)); [|intros _ _; apply a_next_keeps]. apply keeps_if; intros _; [|by apply keeps_ok].
  eapply keeps_bind; [apply keeps_get|]. intros s Hs. eapply (keeps_bind _ (in_u 64)); [apply keeps_lift, reg_at_ok; by apply ao_x|].
  intros v _. apply a_set_keeps, in_u_wrap64.
Qed.

Lemma a64_keeps bytes : bytes_ok bytes → keeps a_ok result_ok (a64_execute bytes).
Proof.
  intros Hb. unfold a64_execute. apply keeps_if; intros _; [apply keeps_err|]. eapply keeps_bind; [by apply keeps_word|]. intros i Hi.
  apply keeps_if; intros _.
  { eapply (keeps_bind _ (λ _, True)); [|intros _ _; apply a_next_keeps]. apply keeps_if; intros _; [|by apply keeps_ok]. apply a_set_keeps.
    unfold in_u. change 65535 with (Z.ones 16). rewrite Z.land_ones by lia. pose proof (Z.mod_pos_bound (Z.shiftr i 5) (2 ^ 16)). lia. }
  do 2 (apply keeps_if; intros _; [apply a_arith_keeps|]). apply keeps_if; intros _.
  { eapply keeps_bind; [apply keeps_get|]. intros s _. apply keeps_ok, in_u_wrap64. }
  apply keeps_if; intros _.
  { eapply keeps_bind; [apply keeps_get|]. intros s _. eapply (keeps_bind _ (in_u 64)); [apply keeps_lift, ends_add64|]. intros link Hl.
    eapply keeps_bind; [by apply a_set_keeps|]. intros _ _. apply keeps_ok, in_u_wrap64. }
  apply keeps_if; intros _.
  { eapply keeps_bind; [apply keeps_get|]. intros s Hs. eapply (keeps_bind _ (in_u 64)); [apply keeps_lift, reg_at_ok; by apply ao_x|].
    intros t Ht. by apply keeps_ok. }
  apply keeps_if; intros _; [by apply keeps_ok|]. apply keeps_if; intros _; apply a_next_keeps.
Qed.

(** *** RISC-V, with register 0 zero *)
Lemma v_next_keeps : keeps v_ok result_ok v_next.
Proof.
  eapply keeps_bind; [apply keeps_get|]. intros s Hs. eapply (keeps_bind _ (in_u 64)); [apply keeps_lift, ends_add64|].
  intros v Hv. eapply keeps_bind; [apply keeps_put|intros _ _; by apply keeps_ok]. destruct Hs. by split.
Qed.

Lemma v_set_keeps rd v : 0 < rd → in_u 64 v → keeps v_ok (λ _, True) (v_set rd v).
Proof.
  intros Hrd Hv. eapply keeps_bind; [apply keeps_get|]. intros s Hs.
  eapply keeps_bind; [apply keeps_lift, reg_put_ok; [by apply vo_len|by apply vo_x|done]|].
  intros x (Hl & Hx & ->). apply keeps_put. destruct Hs. split; [done..|]. cbn [v_x]. by rewrite list_lookup_insert_ne by lia.
Qed.

Lemma v_rd_bound i : 0 ≤ v_rd i < 32.
Proof. unfold v_rd. change 31 with (Z.ones 5). rewrite Z.land_ones by lia. apply Z.mod_pos_bound. lia. Qed.

Lemma v_rd_pos i : negb (v_rd i =? 0) = true → 0 < v_rd i.
Proof. pose proof (v_rd_bound i). lia. Qed.

Lemma v_op_imm_keeps i : keeps v_ok result_ok (v_op_imm i).
Proof.
  eapply (keeps_bind _ (λ _, True)); [|intros _ _; apply v_next_keeps]. apply keeps_if; [|intros _; by apply keeps_ok].
  intros [Hrd%v_rd_pos _]%andb_true_iff. eapply keeps_bind; [apply keeps_get|]. intros s Hs.
  assert (∀ f : Z → Z, (∀ a, in_u 64 a → in_u 64 (f a)) →
    keeps v_ok (λ _, True) (let! a := mlift (reg_at (v_x s) (v_rs1 i)) in v_set (v_rd i) (f a))) as H.
  { intros f Hf. eapply (keeps_bind _ (in_u 64)); [apply keeps_lift, reg_at_ok; by apply vo_x|]. intros a Ha. apply v_set_keeps; auto. }
  assert (in_u 64 (i_imm i)) by apply in_u_wrap64.
  repeat case_match; try (by apply keeps_ok); [apply (H (λ a, wrap64 (a + i_imm i)))|apply (H (λ a, Z.land a (i_imm i)))|
    apply (H (λ a, Z.lor a (i_imm i)))|apply (H (λ a, Z.lxor a (i_imm i)))]; auto with width.
Qed.

Lemma v_link_keeps i : keeps v_ok (λ _, True) (v_link i).
Proof.
  apply keeps_if; [|intros _; by apply keeps_ok]. intros Hrd%v_rd_pos. eapply keeps_bind; [apply keeps_get|]. intros s Hs.
  eapply (keeps_bind _ (in_u 64)); [apply keeps_lift, ends_add64|]. intros l Hl. by apply v_set_keeps.
Qed.

Lemma riscv_keeps bytes : bytes_ok bytes → keeps v_ok result_ok (riscv_execute bytes).
Proof.
  intros Hb. unfold riscv_execute. apply keeps_if; intros _; [apply keeps_err|]. eapply keeps_bind; [by apply keeps_word|]. intros i Hi.
  assert (keeps v_ok result_ok (let! _ := (if negb (v_rd i =? 0) then v_set (v_rd i) (Z.land i 4294963200) else mok tt) in v_next)) as Hlui.
  { eapply (keeps_bind _ (λ _, True)); [|intros _ _; apply v_next_keeps]. apply keeps_if; [intros Hrd%v_rd_pos|intros _; by apply keeps_ok].
    apply v_set_keeps; [done|]. apply in_u_land; [lia|]. unfold in_u in *. lia. }
  assert (keeps v_ok result_ok (let! _ := v_link i in let! s := mget in mok (Jump (wrap64 (v_pc s + wrap64 (decode_jal_immediate i)))))) as Hjal.
  { eapply keeps_bind; [apply v_link_keeps|]. intros _ _. eapply keeps_bind; [apply keeps_get|]. intros s _. apply keeps_ok, in_u_wrap64. }
  assert (keeps v_ok result_ok
    (let! s := mget in let! a := mlift (reg_at (v_x s) (v_rs1 i)) in
     let! _ := v_link i in mok (Jump (Z.ldiff (wrap64 (a + i_imm i)) 1)))) as Hjalr.
  { eapply keeps_bind; [apply keeps_get|]. intros s Hs. eapply (keeps_bind _ (in_u 64)); [apply keeps_lift, reg_at_ok; by apply vo_x|]. intros a _.
    eapply keeps_bind; [apply v_link_keeps|]. intros _ _. apply keeps_ok. apply in_u_ldiff; [lia|apply in_u_wrap64]. }
  repeat case_match; first [simple apply v_next_keeps|simple apply v_op_imm_keeps|exact Hlui|exact Hjal|exact Hjalr|by apply keeps_ok].
Qed.

(** ** A system call is reported before anything changes *)
Definition never_sys {S} (m : M S ElfError InstructionResult) : Prop := ∀ s, (m s).1 ≠ Ok SystemCall.
Definition sys_pure {S} (m : M S ElfError InstructionResult) : Prop := ∀ s, (m s).1 = Ok SystemCall → (m s).2 = s.

Create HintDb syscall.

Section sys_pure.
Context {S : Type}.

Lemma never_bind {A} (m : M S ElfError A) k : (∀ a, never_sys (k a)) → never_sys (mbindM m k).
Proof. intros Hk s. unfold mbindM. destruct (m s) as [[] s']; [apply Hk|done..]. Qed.

Lemma never_pure (m : M S ElfError InstructionResult) : never_sys m → sys_pure m.
Proof. intros H s Hs. by destruct (H s). Qed.

Lemma pure_bind {A} (m : M S ElfError A) k : (∀ s, (m s).2 = s) → (∀ a, sys_pure (k a)) → sys_pure (mbindM m k).
Proof.
  intros Hm Hk s. specialize (Hm s). unfold mbindM. destruct (m s) as [[a|e| |] s']; cbn in *; [|done..]. subst s'. apply Hk.
Qed.

Lemma pure_if (b : bool) (m n : M S ElfError InstructionResult) : sys_pure m → sys_pure n → sys_pure (if b then m else n).
Proof. by destruct b. Qed.

Lemma pure_ok r : sys_pure (mok r : M S ElfError _).
Proof. by intros s. Qed.

Lemma pure_err e : sys_pure (merr e : M S ElfError _).
Proof. by intros s. Qed.
End sys_pure.

Ltac never := repeat (apply never_bind; intros ?); by intros s.

Lemma x_next_never n : never_sys (x_next n).
Proof. never. Qed.
Lemma a_next_never : never_sys a_next.
Proof. never. Qed.
Lemma v_next_never : never_sys v_next.
Proof. never. Qed.

#[export] Hint Resolve never_pure never_bind x_next_never a_next_never v_next_never pure_ok pure_err pure_if : syscall.
#[export] Hint Extern 3 (never_sys (mok _)) => (by intros s) : syscall.

Ltac pure :=
  repeat first [ apply pure_if | solve [auto with syscall]
               | apply never_pure; solve [repeat (apply never_bind; intros ?); auto with syscall]
               | apply pure_bind; [by intros s|intros ?] ].

Lemma x_mov_never bytes offset : never_sys (x_mov bytes offset).
Proof. apply never_bind. intros op. repeat case_match; repeat (apply never_bind; intros ?); auto with syscall. Qed.
#[export] Hint Resolve x_mov_never : syscall.

Lemma x86_sys_pure bytes : sys_pure (x86_execute bytes).
Proof.
  assert (∀ offset opcode, sys_pure (x_opcode bytes offset opcode)) as H.
  { intros offset opcode. unfold x_opcode. do 12 (apply pure_if; [unfold x_modrm; pure|]).
    apply pure_bind; [intros s; destruct (_ && _); [|done]; unfold byte, mbindM, mlift; by destruct (byte_at _ _)|].
    intros second. repeat case_match; auto with syscall. }
  unfold x86_execute. apply pure_if; [apply pure_err|]. apply pure_bind; [by intros s|]. intros first. apply pure_if; [|apply H].
  apply pure_if; [apply pure_err|]. apply pure_bind; [by intros s|]. intros op. apply H.
Qed.

Lemma a64_sys_pure bytes : sys_pure (a64_execute bytes).
Proof. unfold a64_execute, a_arith. pure. Qed.

Lemma riscv_sys_pure bytes : sys_pure (riscv_execute bytes).
Proof.
  unfold riscv_execute, v_op_imm. apply pure_if; [auto with syscall|]. apply pure_bind; [by intros s|]. intros i.
  repeat case_match; pure.
Qed.

(** ** Flags *)
Lemma set_flag_bit k b fl i : 0 ≤ k → 0 ≤ i → Z.testbit (set_flag (2 ^ k) b fl) i = if decide (i = k) then b else Z.testbit fl i.
Proof.
  intros Hk Hi. unfold set_flag. destruct b; [rewrite Z.lor_spec|rewrite Z.ldiff_spec]; rewrite Z.pow2_bits_eqb by done;
    case_decide; subst; rewrite ?Z.eqb_refl, ?orb_true_r, ?andb_false_r; try done.
  all: rewrite (proj2 (Z.eqb_neq k i)) by done; by rewrite ?orb_false_r, ?andb_true_r.
Qed.

Lemma sign_bit_eq v : in_u 64 v → sign_bit v = if v <? 2 ^ 63 then 0 else 2 ^ 63.
Proof.
  intros [H0 Hv]. unfold sign_bit. change 9223372036854775808 with (2 ^ 63).
  assert (Z.testbit v 63 = negb (v <? 2 ^ 63)) as Hb.
  { rewrite Z.testbit_eqb by lia. destruct (Z.ltb_spec v (2 ^ 63)).
    - rewrite Z.div_small by lia. done.
    - replace (v / 2 ^ 63) with 1 by dlia. done. }
  apply Z.bits_inj'. intros i Hi. rewrite Z.land_spec, Z.pow2_bits_eqb by lia. destruct (Z.eqb_spec 63 i) as [<-|Hne].
  - rewrite Hb, andb_true_r. destruct (v <? 2 ^ 63); [by rewrite Z.bits_0|by rewrite Z.pow2_bits_true].
  - rewrite andb_false_r. destruct (v <? 2 ^ 63); [by rewrite Z.bits_0|by rewrite Z.pow2_bits_false].
Qed.

Lemma sign_bit_zero v : in_u 64 v → (sign_bit v =? 0) = (v <? 2 ^ 63).
Proof. intros Hv. rewrite sign_bit_eq by done. by destruct (v <? 2 ^ 63). Qed.

Lemma sign_bit_same v w : in_u 64 v → in_u 64 w → (sign_bit v =? sign_bit w) = eqb (v <? 2 ^ 63) (w <? 2 ^ 63).
Proof. intros Hv Hw. rewrite !sign_bit_eq by done. by destruct (v <? 2 ^ 63), (w <? 2 ^ 63). Qed.

(** ** RISC-V instructions and their meaning in the instruction set *)
Inductive RvInstr : Type :=
  | Addi (rd rs imm : Z) | Xori (rd rs imm : Z) | Ori (rd rs imm : Z) | Andi (rd rs imm : Z)
  | Lui (rd imm : Z) | Jal (rd off : Z) | Jalr (rd rs imm : Z).

Definition enc_i (opcode f3 rd rs imm : Z) : Z := (imm `mod` 4096) * 2 ^ 20 + rs * 2 ^ 15 + f3 * 2 ^ 12 + rd * 2 ^ 7 + opcode.

(** The immediate of JAL is stored as bits 20, 10 to 1, 11, 19 to 12. *)
Definition enc_j (rd off : Z) : Z :=
  let u := off `mod` 2 ^ 21 in
  (u / 2 ^ 20) * 2 ^ 31 + (u / 2) `mod` 1024 * 2 ^ 21 + (u / 2 ^ 11) `mod` 2 * 2 ^ 20 + (u / 2 ^ 12) `mod` 256 * 2 ^ 12 + rd * 2 ^ 7 + 0x6f.

Definition rv_encode (i : RvInstr) : Z :=
  match i with
  | Addi rd rs imm => enc_i 0x13 0 rd rs imm | Xori rd rs imm => enc_i 0x13 4 rd rs imm
  | Ori rd rs imm => enc_i 0x13 6 rd rs imm | Andi rd rs imm => enc_i 0x13 7 rd rs imm
  | Lui rd imm => imm * 2 ^ 12 + rd * 2 ^ 7 + 0x37
  | Jal rd off => enc_j rd off
  | Jalr rd rs imm => enc_i 0x67 0 rd rs imm
  end.

Definition rv_reg (r : Z) : Prop := 0 ≤ r < 32.
Definition rv_imm (imm : Z) : Prop := - 2048 ≤ imm < 2048.

(** LUI with the top bit clear: its 32-bit value is positive. *)
Definition rv_ok (i : RvInstr) : Prop :=
  match i with
  | Addi rd rs imm | Xori rd rs imm | Ori rd rs imm | Andi rd rs imm | Jalr rd rs imm => rv_reg rd ∧ rv_reg rs ∧ rv_imm imm
  | Lui rd imm => rv_reg rd ∧ 0 ≤ imm < 2 ^ 19
  | Jal rd off => rv_reg rd ∧ - 2 ^ 20 ≤ off < 2 ^ 20 ∧ off `mod` 2 = 0
  end.

Definition x_read (x : list Z) (r : Z) : Z := if r =? 0 then 0 else x !!! Z.to_nat r.
Definition x_write (r v : Z) (x : list Z) : list Z := if r =? 0 then x else <[Z.to_nat r := v]> x.

Definition rv_spec (i : RvInstr) (s : RiscVExecutionState) : RiscVExecutionState :=
  let pc := v_pc s in let x := v_x s in
  match i with
  | Addi rd rs imm => mkRv (pc + 4) (x_write rd (wrap64 (x_read x rs + imm)) x)
  | Xori rd rs imm => mkRv (pc + 4) (x_write rd (Z.lxor (x_read x rs) (wrap64 imm)) x)
  | Ori rd rs imm => mkRv (pc + 4) (x_write rd (Z.lor (x_read x rs) (wrap64 imm)) x)
  | Andi rd rs imm => mkRv (pc + 4) (x_write rd (Z.land (x_read x rs) (wrap64 imm)) x)
  | Lui rd imm => mkRv (pc + 4) (x_write rd (wrap64 (as_signed 32 (imm * 2 ^ 12))) x)
  | Jal rd off => mkRv (wrap64 (pc + off)) (x_write rd (pc + 4) x)
  | Jalr rd rs imm => mkRv (Z.ldiff (wrap64 (x_read x rs + imm)) 1) (x_write rd (pc + 4) x)
  end.

(** What the loop does with a jump. *)
Definition follow (r : InstructionResult) (s : RiscVExecutionState) : RiscVExecutionState :=
  match r with Jump t => mkRv t (v_x s) | _ => s end.

Lemma land_field i k m mask : mask = 2 ^ m - 1 → 0 ≤ k → 0 ≤ m → Z.land (Z.shiftr i k) mask = (i / 2 ^ k) `mod` 2 ^ m.
Proof.
  intros -> Hk Hm. replace (2 ^ m - 1) with (Z.ones m) by (rewrite Z.ones_equiv; lia). by rewrite Z.land_ones, Z.shiftr_div_pow2.
Qed.

Lemma enc_i_fields opcode f3 rd rs imm :
  0 ≤ opcode < 128 → 0 ≤ f3 < 8 → rv_reg rd → rv_reg rs → rv_imm imm →
  let i := enc_i opcode f3 rd rs imm in
  in_u 32 i ∧ Z.land i 0x7f = opcode ∧ v_rd i = rd ∧ v_rs1 i = rs ∧ v_funct3 i = f3 ∧ i_imm i = wrap64 imm.
Proof.
  intros Ho Hf Hrd Hrs Him i. unfold rv_reg, rv_imm in *.
  pose proof (Z.mod_pos_bound imm 4096 ltac:(lia)) as Hm. assert (in_u 32 i) as Hi by (unfold in_u, i, enc_i; lia).
  split; [done|]. unfold v_rd, v_rs1, v_funct3, i_imm.
  rewrite (land_field i 7 5), (land_field i 15 5), (land_field i 12 3) by done. change 127 with (Z.ones 7). rewrite Z.land_ones by lia.
  split; [unfold i, enc_i; dlia|]. split; [unfold i, enc_i; dlia|]. split; [unfold i, enc_i; dlia|]. split; [unfold i, enc_i; dlia|].
  f_equal. rewrite Z.shiftr_div_pow2 by lia. unfold as_signed. destruct (Z.ltb_spec i (2 ^ (32 - 1))); unfold i, enc_i in *; dlia.
Qed.

Lemma lor_disjoint a b k : 0 ≤ k → a `mod` 2 ^ k = 0 → 0 ≤ b < 2 ^ k → Z.lor a b = a + b.
Proof.
  intros Hk Ha Hb. assert (Z.land a b = 0) as Hl.
  { apply Z.bits_inj'. intros i Hi. rewrite Z.land_spec, Z.bits_0. destruct (decide (i < k)).
    - rewrite <-(Z.mod_pow2_bits_low a k i), Ha, Z.bits_0 by done. done.
    - rewrite (proj1 (Z.bounded_iff_bits_nonneg k b ltac:(lia) ltac:(lia)) ltac:(lia) i) by lia. apply andb_false_r. }
  rewrite Z.add_nocarry_lxor by done. symmetry. by apply Z.lxor_lor.
Qed.

Lemma decode_jal rd off :
  rv_reg rd → - 2 ^ 20 ≤ off < 2 ^ 20 → off `mod` 2 = 0 →
  in_u 32 (enc_j rd off) ∧ Z.land (enc_j rd off) 0x7f = 0x6f ∧ v_rd (enc_j rd off) = rd ∧ decode_jal_immediate (enc_j rd off) = off.
Proof.
  unfold rv_reg. intros Hrd Ho He. set (i := enc_j rd off). unfold enc_j in i. set (u := off `mod` 2 ^ 21) in i.
  assert (0 ≤ u < 2 ^ 21 ∧ u `mod` 2 = 0 ∧ off = if u <? 2 ^ 20 then u else u - 2 ^ 21) as (Hu & Hue & Hoff).
  { unfold u. destruct (Z.ltb_spec (off `mod` 2 ^ 21) (2 ^ 20)); dlia. }
  clearbody u. set (b20 := u / 2 ^ 20) in i. set (b10 := (u / 2) `mod` 1024) in i. set (b11 := (u / 2 ^ 11) `mod` 2) in i. set (b19 := (u / 2 ^ 12) `mod` 256) in i.
  assert (u = b20 * 2 ^ 20 + b19 * 2 ^ 12 + b11 * 2 ^ 11 + b10 * 2 ∧ 0 ≤ b20 < 2 ∧ 0 ≤ b10 < 1024 ∧ 0 ≤ b11 < 2 ∧ 0 ≤ b19 < 256) as (Hb & H20 & H10 & H11 & H19)
    by (unfold b20, b10, b11, b19; dlia).
  clearbody b20 b10 b11 b19. subst i. set (i := _ + 111). assert (in_u 32 i) as Hi by (unfold in_u, i; lia).
  split; [done|]. change 127 with (Z.ones 7). rewrite Z.land_ones by lia. split; [unfold i; dlia|].
  unfold v_rd, decode_jal_immediate. rewrite (land_field i 7 5), (land_field i 31 1), (land_field i 21 10), (land_field i 20 1), (land_field i 12 8) by done.
  split; [unfold i; dlia|].
  assert ((i / 2 ^ 31) `mod` 2 ^ 1 = b20) as -> by (unfold i; dlia). assert ((i / 2 ^ 21) `mod` 2 ^ 10 = b10) as -> by (unfold i; dlia).
  assert ((i / 2 ^ 20) `mod` 2 ^ 1 = b11) as -> by (unfold i; dlia). assert ((i / 2 ^ 12) `mod` 2 ^ 8 = b19) as -> by (unfold i; dlia).
  rewrite !Z.shiftl_mul_pow2 by lia.
  rewrite (lor_disjoint (b20 * 2 ^ 20) _ 20) by dlia. rewrite (lor_disjoint _ (b11 * 2 ^ 11) 12) by dlia. rewrite (lor_disjoint _ (b10 * 2 ^ 1) 11) by dlia.
  replace (b20 * 2 ^ 20 + b19 * 2 ^ 12 + b11 * 2 ^ 11 + b10 * 2 ^ 1) with u by lia. unfold as_signed.
  rewrite Hoff. destruct (Z.eqb_spec b20 0); cbn [negb].
  - rewrite !(proj2 (Z.ltb_lt _ _)) by lia. done.
  - rewrite Z.lor_comm, (lor_disjoint 4292870144 u 21) by dlia. rewrite !(proj2 (Z.ltb_ge _ _)) by lia. lia.
Qed.

Lemma word_le {S} i rest (s : S) : in_u 32 i → word (le_bytes 4 i ++ rest) 0 s = (Ok i, s).
Proof. intros Hi. unfold word, mlift. f_equal. by apply (read_enc true 4 i [] rest 0). Qed.

Lemma x_read_at {E} s r : v_ok s → rv_reg r → @reg_at E (v_x s) r = Ok (x_read (v_x s) r).
Proof.
  intros [_ Hl _ H0] Hr. unfold rv_reg in Hr. unfold reg_at, x_read. destruct (Z.eqb_spec r 0) as [->|]; [change (Z.to_nat 0) with 0%nat; by rewrite H0|].
  destruct (lookup_lt_is_Some_2 (v_x s) (Z.to_nat r)) as [v Hv]; [lia|]. by rewrite Hv, (list_lookup_total_correct _ _ _ Hv).
Qed.

Lemma v_set_eq rd v s : v_ok s → 0 < rd < 32 → v_set rd v s = (Ok tt, mkRv (v_pc s) (x_write rd v (v_x s))).
Proof.
  intros [_ Hl _ _] Hr. unfold v_set, mbindM, mget, mlift, reg_put, mput, x_write. rewrite bool_decide_eq_true_2 by lia.
  by rewrite (proj2 (Z.eqb_neq rd 0)) by lia.
Qed.

Lemma v_next_eq s x : v_pc s + 4 < 2 ^ 64 → 0 ≤ v_pc s → v_next (mkRv (v_pc s) x) = (Ok Continue, mkRv (v_pc s + 4) x).
Proof. intros. unfold v_next, mbindM, mget, mlift, mput, add64. cbn [v_pc v_x]. by rewrite chk_ok by lia. Qed.

Lemma v_link_eq i s :
  v_ok s → v_pc s + 4 < 2 ^ 64 → v_link i s = (Ok tt, mkRv (v_pc s) (x_write (v_rd i) (v_pc s + 4) (v_x s))).
Proof.
  intros Hs Hpc. pose proof (v_rd_bound i). unfold v_link. destruct (Z.eqb_spec (v_rd i) 0) as [E|]; cbn [negb].
  - unfold x_write. rewrite E. by destruct s.
  - destruct (vo_pc _ Hs). erewrite bind_ok by reflexivity. erewrite bind_ok by (unfold mlift, add64; rewrite chk_ok by lia; reflexivity).
    by rewrite v_set_eq by (done || lia).
Qed.

(** The four immediate instructions. *)
Lemma op_imm_eq f3 (f : Z → Z → Z) rd rs imm rest s :
  v_ok s → v_pc s + 4 < 2 ^ 64 → rv_reg rd → rv_reg rs → rv_imm imm → 
  (f3, f) ∈ [(0, λ a b, wrap64 (a + b)); (4, Z.lxor); (6, Z.lor); (7, Z.land)] →
  riscv_execute (le_bytes 4 (enc_i 0x13 f3 rd rs imm) ++ rest) s =
    (Ok Continue, mkRv (v_pc s + 4) (x_write rd (f (x_read (v_x s) rs) (wrap64 imm)) (v_x s))).
Proof.
  intros Hs Hpc Hrd Hrs Him Hf. assert (0 ≤ f3 < 8) as Hf3 by (repeat (apply elem_of_cons in Hf as [[= -> ->]|Hf]; [lia|]); by apply not_elem_of_nil in Hf).
  destruct (enc_i_fields 0x13 f3 rd rs imm) as (Hi & Hop & Erd & Ers & Ef & Eim); [lia|done..|]. set (i := enc_i _ _ _ _ _) in *.
  unfold riscv_execute. rewrite (proj2 (Z.ltb_ge _ _)) by (unfold zlen; rewrite length_app, length_le_bytes; lia).
  erewrite bind_ok by (by apply word_le). rewrite Hop. unfold v_op_imm. rewrite Erd, Ers, Ef, Eim. destruct (vo_pc _ Hs) as [Hp0 _].
  rewrite (bind_ok _ _ s tt (mkRv (v_pc s) (x_write rd (f (x_read (v_x s) rs) (wrap64 imm)) (v_x s)))); [by apply v_next_eq|].
  unfold rv_reg in *. destruct (Z.eqb_spec rd 0) as [->|]; [by destruct s|]. rewrite (proj2 (Z.ltb_lt rs 32)) by lia. cbn [negb andb].
  erewrite bind_ok by reflexivity.
  repeat (apply elem_of_cons in Hf as [[= -> ->]|Hf];
    [erewrite bind_ok by (unfold mlift; rewrite x_read_at by done; reflexivity); by rewrite v_set_eq by (done || lia)|]).
  by apply not_elem_of_nil in Hf.
Qed.

(** ** Properties *)

(** Processor states stay well formed. On any bytes, each interpreter keeps every register in 64 bits, the register
    files at their length and register 0 of RISC-V at zero, however the instruction ends, and the targets it reports
    are 64-bit addresses. *)
Theorem interpreters_keep_state bytes :
  bytes_ok bytes →
  keeps x_ok result_ok (x86_execute bytes) ∧ keeps a_ok result_ok (a64_execute bytes) ∧ keeps v_ok result_ok (riscv_execute bytes).
Proof. intros Hb. split; [by apply x86_keeps|]. split; [by apply a64_keeps|by apply riscv_keeps]. Qed.

(** A write to register 0. *)
Lemma interpreters_keep_state_witness :
  v_ok (riscv_execute (le_bytes 4 (rv_encode (Addi 0 0 5))) rv_setup).2 ∧
  (riscv_execute (le_bytes 4 (rv_encode (Addi 0 0 5))) rv_setup).1 = Ok Continue.
Proof.
  split; [|by vm_compute]. destruct (interpreters_keep_state (le_bytes 4 (rv_encode (Addi 0 0 5)))) as (_ & _ & H); [apply le_bytes_ok|].
  refine (proj1 (H rv_setup _)). split; [by vm_compute|done| |done]. apply Forall_replicate. by vm_compute.
Defined.

(** Arithmetic flags of x86_64. After an addition zero, sign, carry and overflow flag are those of the 64-bit sum;
    after a subtraction or comparison zero, sign and carry are those of the difference, and the overflow flag is left
    as it was. All other flags are kept. *)
Theorem x86_flags_exact a b fl :
  in_u 64 a → in_u 64 b →
  let sum := wrap64 (a + b) in let add := update_flags_add a b sum fl in
  let diff := wrap64 (a - b) in let sub := update_flags_sub a b diff fl in
  (Z.testbit add 6 = bool_decide (sum = 0) ∧ Z.testbit add 7 = bool_decide (as_signed 64 sum < 0) ∧
   Z.testbit add 0 = bool_decide (2 ^ 64 ≤ a + b) ∧
   Z.testbit add 11 = bool_decide (as_signed 64 a + as_signed 64 b ≠ as_signed 64 sum) ∧
   ∀ i, 0 ≤ i → i ∉ [0; 6; 7; 11] → Z.testbit add i = Z.testbit fl i) ∧
  (Z.testbit sub 6 = bool_decide (a = b) ∧ Z.testbit sub 7 = bool_decide (as_signed 64 diff < 0) ∧
   Z.testbit sub 0 = bool_decide (a < b) ∧ ∀ i, 0 ≤ i → i ∉ [0; 6; 7] → Z.testbit sub i = Z.testbit fl i).
Proof.
  intros Ha Hb sum add diff sub. assert (in_u 64 sum) as Hs by apply in_u_wrap64. assert (in_u 64 diff) as Hd by apply in_u_wrap64.
  assert (∀ v, in_u 64 v → negb (v <? 2 ^ 63) = bool_decide (as_signed 64 v < 0)) as Hsign.
  { intros v [Hv0 Hv]. unfold as_signed. change (64 - 1) with 63. destruct (Z.ltb_spec v (2 ^ 63)); cbn; case_bool_decide; (done || lia). }
  assert (sum = if a + b <? 2 ^ 64 then a + b else a + b - 2 ^ 64) as Esum by (unfold sum, wrap64, in_u in *; destruct (Z.ltb_spec (a + b) (2 ^ 64)); dlia).
  assert (diff = if a <? b then a - b + 2 ^ 64 else a - b) as Ediff by (unfold diff, wrap64, in_u in *; destruct (Z.ltb_spec a b); dlia).
  unfold add, sub, update_flags_add, update_flags_sub.
  change 0x40 with (2 ^ 6). change 0x80 with (2 ^ 7). change 0x01 with (2 ^ 0). change 0x800 with (2 ^ 11).
  rewrite !set_flag_bit by lia. repeat first [rewrite decide_True by done | rewrite decide_False by done].
  rewrite !sign_bit_zero, !sign_bit_same by done. split; split_and!.
  - by apply Bool.eq_iff_eq_true; rewrite Z.eqb_eq, bool_decide_eq_true.
  - by apply Hsign.
  - apply Bool.eq_iff_eq_true. rewrite Z.ltb_lt, bool_decide_eq_true. unfold in_u in *. destruct (Z.ltb_spec (a + b) (2 ^ 64)); lia.
  - apply Bool.eq_iff_eq_true. rewrite bool_decide_eq_true. change (2 ^ 6) with 64. unfold as_signed, in_u in *. change (64 - 1) with 63.
    destruct (Z.ltb_spec (a + b) (2 ^ 64)), (Z.ltb_spec a (2 ^ 63)), (Z.ltb_spec b (2 ^ 63)), (Z.ltb_spec sum (2 ^ 63));
      cbn [eqb negb andb]; split; intros; first [done|exfalso; lia|lia].
  - intros i Hi Hn. rewrite !set_flag_bit by lia. repeat (apply not_elem_of_cons in Hn as [? Hn]). by rewrite !decide_False.
  - apply Bool.eq_iff_eq_true. rewrite Z.eqb_eq, bool_decide_eq_true. unfold in_u in *. destruct (Z.ltb_spec a b); lia.
  - by apply Hsign.
  - by apply Bool.eq_iff_eq_true; rewrite Z.ltb_lt, bool_decide_eq_true.
  - intros i Hi Hn. rewrite !set_flag_bit by lia. repeat (apply not_elem_of_cons in Hn as [? Hn]). by rewrite !decide_False.
Qed.

(** The most negative number minus one overflows. *)
Lemma x86_flags_exact_witness :
  Z.testbit (update_flags_sub (2 ^ 63) 1 (wrap64 (2 ^ 63 - 1)) 0x202) 11 = false ∧
  Z.testbit (update_flags_add (2 ^ 63) (2 ^ 63) (wrap64 (2 ^ 63 + 2 ^ 63)) 0x202) 11 = true.
Proof.
  destruct (x86_flags_exact (2 ^ 63) 1 0x202) as [_ (_ & _ & _ & H)]; [by vm_compute..|].
  destruct (x86_flags_exact (2 ^ 63) (2 ^ 63) 0x202) as [(_ & _ & _ & H' & _) _]; [by vm_compute..|]. split.
  - rewrite H; [done|lia|]. intros Hin. repeat (apply elem_of_cons in Hin as [?|Hin]; [lia|]). by apply not_elem_of_nil in Hin.
  - rewrite H'. by vm_compute.
Defined.

(** LUI, which the interpreter extends with zeros. *)
Lemma lui_run rd imm rest s : rv_reg rd → 0 ≤ imm < 2 ^ 20 → v_ok s → v_pc s + 4 < 2 ^ 64 →
  riscv_execute (le_bytes 4 (rv_encode (Lui rd imm)) ++ rest) s = (Ok Continue, mkRv (v_pc s + 4) (x_write rd (imm * 2 ^ 12) (v_x s))).
Proof.
  intros Hrd Him Hs Hpc. destruct (vo_pc _ Hs) as [Hp0 _]. unfold rv_reg in Hrd. cbn [rv_encode].
  set (i := imm * 2 ^ 12 + rd * 2 ^ 7 + 55). assert (in_u 32 i) as Hi by (unfold in_u, i; lia).
  assert (Z.land i 127 = 55) as Hop by (change 127 with (Z.ones 7); rewrite Z.land_ones by lia; unfold i; dlia).
  assert (v_rd i = rd) as Erd by (unfold v_rd; rewrite (land_field i 7 5) by done; unfold i; dlia).
  assert (Z.land i 4294963200 = imm * 2 ^ 12) as Ev.
  { change 4294963200 with (Z.ldiff (Z.ones 32) (Z.ones 12)). rewrite Z.ldiff_land, Z.land_assoc, Z.land_ones by lia. rewrite (Z.mod_small i) by (apply Hi).
    rewrite <-Z.ldiff_land, Z.ldiff_ones_r, Z.shiftl_mul_pow2, Z.shiftr_div_pow2 by lia. unfold i. dlia. }
  unfold riscv_execute. rewrite (proj2 (Z.ltb_ge _ _)) by (unfold zlen; rewrite length_app, length_le_bytes; lia).
  erewrite bind_ok by (by apply word_le). rewrite Hop, Erd, Ev.
  destruct (Z.eqb_spec rd 0) as [->|]; cbn [negb].
  - erewrite bind_ok by reflexivity. destruct s. by apply (v_next_eq (mkRv _ _)).
  - erewrite bind_ok by (apply v_set_eq; [done|lia]). by rewrite v_next_eq by done.
Qed.

(** Below bit 31 this is the sign extension of the instruction set, from there on it is not. *)
Lemma lui_eq rd imm rest s : rv_ok (Lui rd imm) → v_ok s → v_pc s + 4 < 2 ^ 64 →
  riscv_execute (le_bytes 4 (rv_encode (Lui rd imm)) ++ rest) s = (Ok Continue, rv_spec (Lui rd imm) s).
Proof.
  intros [Hrd Him] Hs Hpc. rewrite lui_run by (done || lia). cbn [rv_spec]. unfold wrap64, as_signed.
  by rewrite (proj2 (Z.ltb_lt (imm * 2 ^ 12) _)), Z.mod_small by lia.
Qed.

Lemma lui_differs rd imm s : 0 < rd < 32 → 2 ^ 19 ≤ imm < 2 ^ 20 → v_ok s → mkRv (v_pc s + 4) (x_write rd (imm * 2 ^ 12) (v_x s)) ≠ rv_spec (Lui rd imm) s.
Proof.
  intros Hrd Him Hs. cbn [rv_spec]. unfold x_write. rewrite (proj2 (Z.eqb_neq rd 0)) by lia. intros [= E].
  apply (f_equal (λ l, l !! Z.to_nat rd)) in E. rewrite !list_lookup_insert_eq in E by (rewrite (vo_len _ Hs); lia). injection E as E.
  unfold wrap64, as_signed in E. rewrite (proj2 (Z.ltb_ge _ _)) in E by lia. dlia.
Qed.

(** Words that the interpreter passes over: opcodes it does not know, the immediate operations with other function
    codes (SLLI, SLTI, SLTIU, SRLI and SRAI), and what shares its opcode with ECALL. *)
Definition rv_skipped (w : Z) : Prop :=
  w `mod` 128 ∉ [0x13; 0x37; 0x67; 0x6f; 0x73] ∨ (w `mod` 128 = 0x13 ∧ (w / 2 ^ 12) `mod` 8 ∈ [1; 2; 3; 5]) ∨ (w `mod` 128 = 0x73 ∧ w ≠ 0x73).

Lemma skipped_run w rest s : in_u 32 w → rv_skipped w → v_ok s → v_pc s + 4 < 2 ^ 64 →
  riscv_execute (le_bytes 4 w ++ rest) s = (Ok Continue, mkRv (v_pc s + 4) (v_x s)).
Proof.
  intros Hw Hskip Hs Hpc. destruct (vo_pc _ Hs) as [Hp0 _].
  assert (v_next s = (Ok Continue, mkRv (v_pc s + 4) (v_x s))) as Hnext by (destruct s; by apply (v_next_eq (mkRv _ _))).
  unfold riscv_execute. rewrite (proj2 (Z.ltb_ge _ _)) by (unfold zlen; rewrite length_app, length_le_bytes; lia).
  erewrite bind_ok by (by apply word_le). change 0x7f with (Z.ones 7). rewrite Z.land_ones by lia. change (2 ^ 7) with 128.
  destruct Hskip as [Hop|[[-> Hf]|[-> Hne]]].
  - rewrite !not_elem_of_cons in Hop. destruct (w `mod` 128) as [|q|q]; [exact Hnext| |exact Hnext].
    repeat match goal with |- context [match ?x with xI _ => _ | xO _ => _ | xH => _ end] => destruct x; try exact Hnext end; exfalso; lia.
  - unfold v_op_imm. assert (v_funct3 w ∈ [1; 2; 3; 5]) as Hf' by (unfold v_funct3; by rewrite (land_field w 12 3) by done).
    rewrite (bind_ok _ _ s tt s); [exact Hnext|]. destruct (_ && _); [|done]. repeat (apply elem_of_cons in Hf' as [->|Hf']; [done|]). by apply not_elem_of_nil in Hf'.
  - by rewrite (proj2 (Z.eqb_neq _ _) Hne).
Qed.

(** Every instruction of the subset: the interpreter continues or jumps, to the state of the ISA. *)
Lemma riscv_step i rest s :
  rv_ok i → v_ok s → v_pc s + 4 < 2 ^ 64 →
  ∃ r s', riscv_execute (le_bytes 4 (rv_encode i) ++ rest) s = (Ok r, s') ∧ follow r s' = rv_spec i s ∧ (r = Continue ∨ ∃ t, r = Jump t).
Proof.
  intros Hi Hs Hpc. destruct (vo_pc _ Hs) as [Hp0 _].
  assert (∀ n, (zlen (le_bytes 4 n ++ rest) <? 4) = false) as Hlen by (intros; apply Z.ltb_ge; unfold zlen; rewrite length_app, length_le_bytes; lia).
  destruct i as [rd rs imm|rd rs imm|rd rs imm|rd rs imm|rd imm|rd off|rd rs imm]; cbn [rv_ok rv_encode rv_spec] in *.
  - destruct Hi as (? & ? & ?). eexists _, _. split; [apply (op_imm_eq 0 (λ a b, wrap64 (a + b))); try done; left|].
    cbn. split; [|by left]. unfold wrap64. by rewrite Zplus_mod_idemp_r.
  - destruct Hi as (? & ? & ?). eexists _, _. split; [apply (op_imm_eq 4 Z.lxor); try done; right; left|by split; [|left]].
  - destruct Hi as (? & ? & ?). eexists _, _. split; [apply (op_imm_eq 6 Z.lor); try done; right; right; left|by split; [|left]].
  - destruct Hi as (? & ? & ?). eexists _, _. split; [apply (op_imm_eq 7 Z.land); try done; right; right; right; left|by split; [|left]].
  - eexists _, _. split; [by apply lui_eq|by split; [|left]].
  - destruct Hi as (Hrd & Ho & He). destruct (decode_jal rd off Hrd Ho He) as (Hi & Hop & Erd & Ed). set (i := enc_j rd off) in *.
    unfold riscv_execute. rewrite Hlen. erewrite bind_ok by (by apply word_le). rewrite Hop.
    erewrite bind_ok by (by apply v_link_eq). erewrite bind_ok by reflexivity. eexists _, _. split; [reflexivity|].
    split; [|right; by eexists]. cbn. rewrite Erd, Ed. unfold wrap64. by rewrite Zplus_mod_idemp_r.
  - destruct Hi as (Hrd & Hrs & Him). destruct (enc_i_fields 0x67 0 rd rs imm) as (Hi & Hop & Erd & Ers & _ & Eim); [lia|lia|done..|].
    set (i := enc_i _ _ _ _ _) in *. unfold riscv_execute. rewrite Hlen. erewrite bind_ok by (by apply word_le). rewrite Hop.
    erewrite bind_ok by reflexivity. rewrite Ers. erewrite bind_ok by (unfold mlift; rewrite x_read_at by done; reflexivity).
    erewrite bind_ok by (by apply v_link_eq). eexists _, _. split; [reflexivity|].
    split; [|right; by eexists]. cbn. rewrite Erd, Eim. unfold wrap64. by rewrite Zplus_mod_idemp_r.
Qed.

(** C19: what the interpreter of RISC-V does with each word. For every encoded ADDI, XORI, ORI, ANDI, JAL and JALR, and for
    LUI below 2^31, decoding and running it, and following the jump, gives the state the instruction set defines, for every
    immediate and register, register 0 included. LUI from 2^31 on leaves the upper half of the register zero where the
    instruction set sets it. ECALL is reported. Every other opcode (loads, stores, branches, register operations, AUIPC)
    and the immediate operations SLTI, SLTIU and shifts are passed over: only the program counter moves. *)
Theorem riscv_refines_isa rest s :
  v_ok s → v_pc s + 4 < 2 ^ 64 →
  (∀ i, rv_ok i → ∃ r s', riscv_execute (le_bytes 4 (rv_encode i) ++ rest) s = (Ok r, s') ∧ follow r s' = rv_spec i s) ∧
  (∀ rd imm, 0 < rd < 32 → 2 ^ 19 ≤ imm < 2 ^ 20 →
     ∃ s', riscv_execute (le_bytes 4 (rv_encode (Lui rd imm)) ++ rest) s = (Ok Continue, s') ∧
       s' = mkRv (v_pc s + 4) (x_write rd (imm * 2 ^ 12) (v_x s)) ∧ s' ≠ rv_spec (Lui rd imm) s) ∧
  riscv_execute (le_bytes 4 0x73 ++ rest) s = (Ok SystemCall, s) ∧
  (∀ w, in_u 32 w → rv_skipped w → riscv_execute (le_bytes 4 w ++ rest) s = (Ok Continue, mkRv (v_pc s + 4) (v_x s))).
Proof.
  intros Hs Hpc. split; [|split; [|split]].
  - intros i Hi. destruct (riscv_step i rest s Hi Hs Hpc) as (r & s' & ? & ? & _). by exists r, s'.
  - intros rd imm Hrd Him. eexists. split; [apply lui_run; (done || unfold rv_reg; lia)|]. split; [done|]. by apply lui_differs.
  - unfold riscv_execute. rewrite (proj2 (Z.ltb_ge _ _)) by (unfold zlen; rewrite length_app, length_le_bytes; lia). erewrite bind_ok by (by apply word_le). done.
  - intros w Hw Hskip. by apply skipped_run.
Qed.

Lemma riscv_refines_isa_witness :
  ∃ r s', riscv_execute (le_bytes 4 (rv_encode (Jal 1 (-2048)))) (mkRv 0x10000 (replicate 32 0)) = (Ok r, s') ∧
    follow r s' = mkRv 0xf800 (<[1%nat := 0x10004]> (replicate 32 0)).
Proof.
  destruct (riscv_refines_isa [] (mkRv 0x10000 (replicate 32 0))) as (Hrun & _).
  - split; [by vm_compute|done| |done]. apply Forall_replicate. by vm_compute.
  - by vm_compute.
  - destruct (Hrun (Jal 1 (-2048))) as (r & s' & E & H); [split; [by vm_compute|]; split; by vm_compute|].
    rewrite app_nil_r in E. exists r, s'. split; [exact E|]. rewrite H. by vm_compute.
Defined.

(** Moves with a REX prefix are not executed. The prefix is skipped before the opcode is compared with 0x48, so an
    instruction that starts with 0x48 and continues with the opcode of a move only advances the instruction pointer,
    by one byte and into the middle of the instruction; no register and no flag changes. *)
Theorem rex_mov_skipped op rest s :
  op ∈ [0xc7; 0x89; 0x8b] → 0 ≤ rip s → rip s + 1 < 2 ^ 64 →
  x86_execute (0x48 :: op :: rest) s = (Ok Continue, set_rip (rip s + 1) s).
Proof.
  intros Hop H0 Hr. assert (∀ o, x_opcode (0x48 :: op :: rest) 1 o s = (Ok Continue, set_rip (rip s + 1) s) →
    o = op → x86_execute (0x48 :: op :: rest) s = (Ok Continue, set_rip (rip s + 1) s)) as H.
  { intros o Ho ->. unfold x86_execute. rewrite (proj2 (Z.eqb_neq (zlen _) 0)) by (unfold zlen; cbn [length]; lia).
    erewrite bind_ok by reflexivity. change (Z.land 72 240 =? 64) with true. cbv iota.
    rewrite (proj2 (Z.leb_gt _ _)) by (unfold zlen; cbn [length]; lia). erewrite bind_ok by reflexivity. exact Ho. }
  apply (H op); [|done]. assert (x_next 1 s = (Ok Continue, set_rip (rip s + 1) s)) as Hn
    by (unfold x_next, mbindM, mget, mlift, mput, add64; by rewrite chk_ok by lia).
  repeat (apply elem_of_cons in Hop as [->|Hop]; [exact Hn|]). by apply not_elem_of_nil in Hop.
Qed.

(** [mov rax, 60] *)
Lemma rex_mov_skipped_witness :
  x86_execute [0x48; 0xc7; 0xc0; 60; 0; 0; 0; 0; 0] x86_setup = (Ok Continue, set_rip 1 x86_setup).
Proof. exact (rex_mov_skipped 0xc7 [0xc0; 60; 0; 0; 0; 0; 0] x86_setup ltac:(left) ltac:(by vm_compute) ltac:(by vm_compute)). Defined.
