(* ===== verification/ElfExec.v ===== *)
(** * Execution of loaded binaries ([crates/Statue/src/execution.rs])

    The execution context with its processor state, stack and heap, the
    interpreter loop with its limit of a million counted instructions, function
    calls, and the process control block. The addresses of the stack and heap
    vectors come from the global allocator. *)

From stdpp Require Import strings.
From S2P Require Import Prelude Process Elf ElfArch ElfReloc ElfLoad ElfInstr.

(** ** Environment *)
Record ExecutionEnvironment := mkEnv { args : list string; env : list (string * string); env_stack_size : Z; env_heap_size : Z }.

Definition env_new : ExecutionEnvironment := mkEnv [] [] 0x100000 0x1000000.
Definition with_arg (a : string) (e : ExecutionEnvironment) : ExecutionEnvironment := mkEnv (args e ++ [a]) (env e) (env_stack_size e) (env_heap_size e).
Definition with_env (k v : string) (e : ExecutionEnvironment) : ExecutionEnvironment :=
  mkEnv (args e) (env e ++ [(k, v)]) (env_stack_size e) (env_heap_size e).
Definition with_stack_size (n : Z) (e : ExecutionEnvironment) : ExecutionEnvironment := mkEnv (args e) (env e) n (env_heap_size e).
Definition with_heap_size (n : Z) (e : ExecutionEnvironment) : ExecutionEnvironment := mkEnv (args e) (env e) (env_stack_size e) n.

(** ** Context; a vector is its pointer and length *)
Inductive ProcessorState : Type :=
  | PX86_64 (s : ExecutionState)
  | PAArch64 (s : AArch64ExecutionState)
  | PRiscV (s : RiscVExecutionState).

Record ExecutionContext := mkCtx {
  binary : LoadedBinary; environment : ExecutionEnvironment; processor_state : ProcessorState;
  ctx_stack : option (Z * Z); ctx_heap : option (Z * Z); ctx_host : Host;
}.

Definition set_processor (p : ProcessorState) (c : ExecutionContext) : ExecutionContext :=
  mkCtx (binary c) (environment c) p (ctx_stack c) (ctx_heap c) (ctx_host c).
Definition set_ctx_host (h : Host) (c : ExecutionContext) : ExecutionContext :=
  mkCtx (binary c) (environment c) (processor_state c) (ctx_stack c) (ctx_heap c) h.

Abbreviation CM := (M ExecutionContext ElfError).

Definition setup_state (a : ArchitectureType) : ProcessorState :=
  match a with AtX86_64 => PX86_64 x86_setup | AtAArch64 => PAArch64 a64_setup | AtRiscV => PRiscV rv_setup end.

Definition ctx_new (b : LoadedBinary) (e : ExecutionEnvironment) (h : Host) : ER ExecutionContext :=
  Ok (mkCtx b e (setup_state (architecture b)) None None h).

Definition ctx_on_host {A} (m : M Host ElfError A) : CM A := zoom ctx_host set_ctx_host m.

Definition instruction_pointer (c : ExecutionContext) : Z :=
  match processor_state c with PX86_64 s => rip s | PAArch64 s => a_pc s | PRiscV s => v_pc s end.

Definition stack_pointer (c : ExecutionContext) : ER Z :=
  match processor_state c with PX86_64 s => Ok (gpr s RSP) | PAArch64 s => Ok (a_sp s) | PRiscV s => reg_at (v_x s) 2 end.

Definition ctx_read_memory (address size : Z) : CM (list Z) := let! c := mget in ctx_on_host (read_memory (binary c) address size).
Definition ctx_write_memory (address : Z) (data : list Z) : CM unit := let! c := mget in ctx_on_host (write_memory (binary c) address data).

(** The architecture's instruction pointer. *)
Definition set_pc (p : ProcessorState) (v : Z) : ProcessorState :=
  match p with
  | PX86_64 s => PX86_64 (set_rip v s)
  | PAArch64 s => PAArch64 (mkA64 v (a_sp s) (a_x s) (pstate s))
  | PRiscV s => PRiscV (mkRv v (v_x s))
  end.

Definition put_pc (v : Z) : CM unit := mmod (λ c, set_processor (set_pc (processor_state c) v) c).

(** ** Initialisation; [vec_at n h] is where the allocator puts a vector of [n] bytes *)
Section init.
Context (vec_at : Z → Host → Z).

(** [Vec::with_capacity(n)] and [resize(n, 0)] *)
Definition new_vec (n : Z) : CM (Z * Z) :=
  let! c := mget in
  let ptr := vec_at n (ctx_host c) in
  let! _ := mput (set_ctx_host (map_seqZ ptr (zeros (Z.to_nat n)) ∪ ctx_host c) c) in
  mok (ptr, n).

Definition setup_initial_stack_frame (stack : Z * Z) : CM Z :=
  let! top := mlift (add64 stack.1 stack.2) in
  let! stack_ptr := mlift (sub64 (Z.ldiff top 0xf) 8) in
  let! c := mget in
  let! _ := ctx_on_host (host_write stack_ptr (le_bytes 8 (zlen (args (environment c))))) in
  mok stack_ptr.

Definition with_stack_top (top : Z) (p : ProcessorState) : ER ProcessorState :=
  match p with
  | PX86_64 s => Ok (PX86_64 (set_gpr RBP top (set_gpr RSP top s)))
  | PAArch64 s => Ok (PAArch64 (mkA64 (a_pc s) top (a_x s) (pstate s)))
  | PRiscV s => let? x := reg_put (v_x s) 2 top in Ok (PRiscV (mkRv (v_pc s) x))
  end.

Definition setup_stack : CM unit :=
  let! c := mget in
  let! stack := new_vec (env_stack_size (environment c)) in
  let! stack_top := setup_initial_stack_frame stack in
  let! c := mget in
  let! p := mlift (with_stack_top stack_top (processor_state c)) in
  mput (mkCtx (binary c) (environment c) p (Some stack) (ctx_heap c) (ctx_host c)).

Definition setup_heap : CM unit :=
  let! c := mget in
  let! heap := new_vec (env_heap_size (environment c)) in
  mmod (λ c, mkCtx (binary c) (environment c) (processor_state c) (ctx_stack c) (Some heap) (ctx_host c)).

Definition initialize_processor_state : CM unit :=
  let! c := mget in
  let e := entry_point (binary c) in
  let! p := mlift
    (match processor_state c with
     | PX86_64 s => Ok (PX86_64 (mkExec e 0x202 (gpr s)))
     | PAArch64 s => Ok (PAArch64 (mkA64 e (a_sp s) (a_x s) 0))
     | PRiscV s => let? x := reg_put (v_x s) 0 0 in Ok (PRiscV (mkRv e x))
     end) in
  mput (set_processor p c).

Definition initialize : CM unit :=
  let! _ := setup_stack in
  let! _ := setup_heap in
  initialize_processor_state.
End init.

(** ** The interpreter loop *)
Definition MAX_INSTRUCTIONS : Z := 1000000.

(** One instruction of whichever architecture. *)
Definition interpret (bytes : list Z) (p : ProcessorState) : res ElfError InstructionResult * ProcessorState :=
  match p with
  | PX86_64 s => let (r, s) := x86_execute bytes s in (r, PX86_64 s)
  | PAArch64 s => let (r, s) := a64_execute bytes s in (r, PAArch64 s)
  | PRiscV s => let (r, s) := riscv_execute bytes s in (r, PRiscV s)
  end.

Definition fetch : CM (list Z) := λ c,
  match ctx_read_memory (instruction_pointer c) 16 c with
  | (Err _, c') => (Err ExecutionSetupFailed, c')
  | r => r
  end.

Definition run_instruction : CM InstructionResult :=
  let! bytes := fetch in
  λ c, let (r, p) := interpret bytes (processor_state c) in (r, set_processor p c).

(** Call, Return and SystemCall of the loop's match; [inr] leaves the loop with a value. *)
Definition do_call (target : Z) (p : ProcessorState) : ER ProcessorState :=
  match p with
  | PX86_64 s => Ok (PX86_64 (set_rip target (set_gpr RSP (wrap64 (gpr s RSP - 8)) s)))
  | PAArch64 s =>
      let? link := add64 (a_pc s) 4 in
      let? x := reg_put (a_x s) 30 link in Ok (PAArch64 (mkA64 target (a_sp s) x (pstate s)))
  | PRiscV s =>
      let? link := add64 (v_pc s) 4 in
      let? x := reg_put (v_x s) 1 link in Ok (PRiscV (mkRv target x))
  end.

Definition do_return (p : ProcessorState) : ER (ProcessorState * option Z) :=
  match p with
  | PX86_64 s => let s := set_gpr RSP (wrap64 (gpr s RSP + 8)) s in Ok (PX86_64 s, Some (gpr s RAX))
  | PAArch64 s => let? t := reg_at (a_x s) 30 in Ok (PAArch64 (mkA64 t (a_sp s) (a_x s) (pstate s)), None)
  | PRiscV s => let? t := reg_at (v_x s) 1 in Ok (PRiscV (mkRv t (v_x s)), None)
  end.

Definition do_syscall (p : ProcessorState) : ER (ProcessorState * option Z) :=
  match p with
  | PX86_64 s =>
      if gpr s RAX =? 60 then Ok (p, Some (gpr s RDI)) else
      let? v := add64 (rip s) 2 in Ok (PX86_64 (set_rip v s), None)
  | PAArch64 s =>
      let? n := reg_at (a_x s) 8 in
      if n =? 93 then let? v := reg_at (a_x s) 0 in Ok (p, Some v) else
      let? v := add64 (a_pc s) 4 in Ok (PAArch64 (mkA64 v (a_sp s) (a_x s) (pstate s)), None)
  | PRiscV s =>
      let? n := reg_at (v_x s) 17 in
      if n =? 93 then let? v := reg_at (v_x s) 10 in Ok (p, Some v) else
      let? v := add64 (v_pc s) 4 in Ok (PRiscV (mkRv v (v_x s)), None)
  end.

(** The body of the loop: [inl] is the new count, [inr] the value returned. A system call that is not an exit continues
    without counting. *)
Definition loop_body (count : Z) : CM (Z + Z) :=
  if MAX_INSTRUCTIONS <=? count then merr ExecutionSetupFailed else
  let! result := run_instruction in
  match result with
  | Continue => mok (inl (count + 1))
  | Exit code => mok (inr code)
  | Jump target => let! _ := put_pc target in mok (inl (count + 1))
  | ConditionalJump target taken => let! _ := (if taken then put_pc target else mok tt) in mok (inl (count + 1))
  | Call target =>
      let! c := mget in
      let! p := mlift (do_call target (processor_state c)) in
      let! _ := mput (set_processor p c) in
      mok (inl (count + 1))
  | Return =>
      let! c := mget in
      let! (p, r) := mlift (do_return (processor_state c)) in
      let! _ := mput (set_processor p c) in
      mok (match r with Some v => inr v | None => inl (count + 1) end)
  | SystemCall =>
      let! c := mget in
      let! (p, r) := mlift (do_syscall (processor_state c)) in
      let! _ := mput (set_processor p c) in
      mok (match r with Some v => inr v | None => inl count end)
  end.

(** At most [n] turns of the loop; [inl] when it is still running then. *)
Fixpoint turns (n : positive) (count : Z) : CM (Z + Z) :=
  match n with
  | xH => loop_body count
  | xO n => let! r := turns n count in match r with inl c => turns n c | inr v => mok (inr v) end
  | xI n =>
      let! r := loop_body count in
      match r with
      | inl c => let! r := turns n c in match r with inl c => turns n c | inr v => mok (inr v) end
      | inr v => mok (inr v)
      end
  end.

(** More turns than the loop can take: between two counted instructions each turn moves the instruction pointer up. *)
Definition ENOUGH : positive := Z.to_pos ((MAX_INSTRUCTIONS + 1) * 2 ^ 64 + 1).

Definition execute_instructions : CM Z :=
  let! r := turns ENOUGH 0 in
  match r with inr v => mok v | inl _ => mlift Hang end.

(** ** Execution *)
Definition argc (c : ExecutionContext) : Z := zlen (args (environment c)).

(** The registers set before the loop. *)
Definition entry_state (c : ExecutionContext) : ER ProcessorState :=
  let e := entry_point (binary c) in
  match processor_state c with
  | PX86_64 s =>
      let s := set_rip e s in
      match ctx_stack c with
      | Some st =>
          let? t := add64 st.1 st.2 in
          let? t := sub64 t 8 in
          Ok (PX86_64 (set_gpr RDI (argc c) (set_gpr RBP t (set_gpr RSP t s))))
      | None => Ok (PX86_64 s)
      end
  | PAArch64 s =>
      let? sp := match ctx_stack c with Some st => add64 st.1 st.2 | None => Ok (a_sp s) end in
      let? x := reg_put (a_x s) 0 (argc c) in
      Ok (PAArch64 (mkA64 e sp x (pstate s)))
  | PRiscV s =>
      let? x := match ctx_stack c with Some st => let? t := add64 st.1 st.2 in reg_put (v_x s) 2 t | None => Ok (v_x s) end in
      let? x := reg_put x 10 (argc c) in
      Ok (PRiscV (mkRv e x))
  end.

Definition execute (vec_at : Z → Host → Z) : CM Z :=
  let! c := mget in
  let! _ := (match ctx_stack c with None => initialize vec_at | Some _ => mok tt end) in
  let! c := mget in
  let! p := mlift (entry_state c) in
  let! _ := mput (set_processor p c) in
  execute_instructions.

(** *** [call_function] *)
Definition zeroed_x86 : ProcessorState := PX86_64 (mkExec 0 0 (λ _, 0)).

(** The arguments in [x[first]], [x[first + 1]], ...: at most eight. *)
Fixpoint put_args (first : Z) (vals : list Z) (x : list Z) : ER (list Z) :=
  match vals with
  | [] => Ok x
  | v :: vals => let? x := reg_put x first v in put_args (first + 1) vals x
  end.

Definition call_state (address : Z) (vals : list Z) (p : ProcessorState) : ER ProcessorState :=
  match p with
  | PX86_64 s => let? s := setup_arguments vals (Some s) in Ok (PX86_64 (set_rip address s))
  | PAArch64 s => let? x := put_args 0 (take 8 vals) (a_x s) in Ok (PAArch64 (mkA64 address (a_sp s) x (pstate s)))
  | PRiscV s => let? x := put_args 10 (take 8 vals) (v_x s) in Ok (PRiscV (mkRv address x))
  end.

Definition return_value (p : ProcessorState) : ER Z :=
  match p with
  | PX86_64 s => Ok (get_return_value (Some s))
  | PAArch64 s => reg_at (a_x s) 0
  | PRiscV s => reg_at (v_x s) 10
  end.

Definition pc_of (p : ProcessorState) : Z := match p with PX86_64 s => rip s | PAArch64 s => a_pc s | PRiscV s => v_pc s end.

(** The state is taken out of the context, a copy with the arguments is run, and the result is put back; after an error
    the old instruction pointer is restored. *)
Definition call_function (address : Z) (vals : list Z) : CM Z := λ c,
  match get_memory_at (binary c) address with
  | Ok None => (Err InvalidAddress, c)
  | Ok (Some _) =>
      match call_state address vals (processor_state c) with
      | Ok p =>
          let old_pc := pc_of (processor_state c) in
          let (r, c') := execute_instructions (set_processor p c) in
          match r with
          | Ok _ => (return_value (processor_state c'), c')
          | Err e => (Err e, set_processor (set_pc (processor_state c') old_pc) c')
          | Panic => (Panic, set_processor zeroed_x86 c')
          | Hang => (Hang, c')
          end
      | Err e => (Err e, set_processor zeroed_x86 c)
      | Panic => (Panic, set_processor zeroed_x86 c)
      | Hang => (Hang, set_processor zeroed_x86 c)
      end
  | Err e => (Err e, c)
  | Panic => (Panic, c)
  | Hang => (Hang, c)
  end.

(** ** Process control block *)
Inductive ProcState : Type := PReady | PRunning | PBlocked | PTerminated.
#[export] Instance proc_state_eq_dec : EqDecision ProcState.
Proof. solve_decision. Defined.

Record ProcessControlBlock := mkPcb { pcb_pid : Z; pcb_state : ProcState; exit_code : option Z; context : ExecutionContext }.

Abbreviation PM := (M ProcessControlBlock ElfError).

Definition pcb_new (pid : Z) (b : LoadedBinary) (e : ExecutionEnvironment) (h : Host) : ER ProcessControlBlock :=
  let? c := ctx_new b e h in Ok (mkPcb pid PReady None c).

Definition on_context {A} (m : CM A) : PM A := zoom context (λ c p, mkPcb (pcb_pid p) (pcb_state p) (exit_code p) c) m.

Definition pcb_start (vec_at : Z → Host → Z) : PM unit :=
  let! p := mget in
  if bool_decide (pcb_state p ≠ PReady) then merr ExecutionSetupFailed else
  let! _ := mput (mkPcb (pcb_pid p) PRunning (exit_code p) (context p)) in
  on_context (initialize vec_at).

Definition pcb_execute (vec_at : Z → Host → Z) : PM Z :=
  let! p := mget in
  if bool_decide (pcb_state p ≠ PRunning) then merr ExecutionSetupFailed else
  let! code := on_context (execute vec_at) in
  let! _ := mmod (λ p, mkPcb (pcb_pid p) PTerminated (Some code) (context p)) in
  mok code.

Definition pcb_terminate (code : Z) : PM unit := mmod (λ p, mkPcb (pcb_pid p) PTerminated (Some code) (context p)).

(** ** The loop keeps the context well formed *)
Definition ps_ok (p : ProcessorState) : Prop := match p with PX86_64 s => x_ok s | PAArch64 s => a_ok s | PRiscV s => v_ok s end.

Definition host_ok (h : Host) : Prop := ∀ a b, h !! a = Some b → byte_ok b.

Record ctx_ok (c : ExecutionContext) : Prop := {
  co_state : ps_ok (processor_state c);
  co_host : host_ok (ctx_host c);
  co_entry : in_u 64 (entry_point (binary c));
  co_args : argc c < 2 ^ 64;
}.

Lemma find_segment_ends addr segs : ends (λ _, True) (find_segment addr segs).
Proof.
  induction segs as [|seg segs IH]; [done|]. cbn. destruct (_ <=? _); [|done]. eapply ends_bind; [apply ends_add64|]. intros e _.
  by destruct (_ <? _).
Qed.

Lemma host_read_keeps ptr n : keeps host_ok bytes_ok (@host_read ElfError ptr n).
Proof.
  intros h Hh. unfold host_read. destruct (mapM _ _) as [bs|] eqn:E; [|done]. split; [done|]. cbn.
  apply mapM_Some_1 in E. induction E as [|a b l k Ha Hl IH]; constructor; [by eapply Hh|done].
Qed.

Lemma host_write_keeps ptr bs : bytes_ok bs → keeps host_ok (λ _, True) (@host_write ElfError ptr bs).
Proof.
  intros Hb. revert ptr. induction Hb as [|b bs Hb Hbs IH]; intros ptr h Hh; [done|]. cbn [host_write]. case_bool_decide; [|done].
  apply IH. intros a v. rewrite lookup_insert. case_decide; [by intros [= <-]|by apply Hh].
Qed.

Lemma read_memory_keeps b addr n : keeps host_ok bytes_ok (read_memory b addr n).
Proof.
  eapply (keeps_bind _ (λ _, True)); [apply keeps_lift, find_segment_ends|]. intros [seg|] _; [|apply keeps_err].
  eapply (keeps_bind _ (in_u 64)); [apply keeps_lift, ends_add64|]. intros e _. apply keeps_if; intros _; [apply keeps_err|apply host_read_keeps].
Qed.

Lemma on_host_keeps {A} Q (m : M Host ElfError A) : keeps host_ok Q m → keeps ctx_ok Q (ctx_on_host m).
Proof. intros Hm. eapply keeps_zoom; [exact Hm|by intros c []|]. intros h c [] Hh. by split. Qed.

Lemma fetch_keeps : keeps ctx_ok bytes_ok fetch.
Proof.
  intros c Hc. unfold fetch. destruct (on_host_keeps _ _ (read_memory_keeps (binary c) (instruction_pointer c) 16) c Hc) as [Hi Hq].
  unfold ctx_read_memory, mbindM, mget. destruct (ctx_on_host _ c) as [[bs|e| |] c']; done.
Qed.

Lemma interpret_ok bytes p : bytes_ok bytes → ps_ok p → ps_ok (interpret bytes p).2 ∧ ends result_ok (interpret bytes p).1.
Proof.
  intros Hb Hp. destruct p as [s|s|s]; cbn [interpret ps_ok] in *.
  - pose proof (x86_keeps bytes Hb s Hp). by destruct (x86_execute bytes s).
  - pose proof (a64_keeps bytes Hb s Hp). by destruct (a64_execute bytes s).
  - pose proof (riscv_keeps bytes Hb s Hp). by destruct (riscv_execute bytes s).
Qed.

Lemma run_instruction_keeps : keeps ctx_ok result_ok run_instruction.
Proof.
  eapply keeps_bind; [apply fetch_keeps|]. intros bytes Hb c [Hp Hh ? ?]. destruct (interpret_ok bytes _ Hb Hp) as [Hp' Hr].
  by destruct (interpret bytes (processor_state c)).
Qed.

Lemma set_pc_ok p v : ps_ok p → in_u 64 v → ps_ok (set_pc p v).
Proof. destruct p; intros [] Hv; by split. Qed.

Lemma put_pc_keeps v : in_u 64 v → keeps ctx_ok (λ _, True) (put_pc v).
Proof. intros Hv. apply keeps_mod. intros c [Hp Hh ? ?]. split; [by apply set_pc_ok|done..]. Qed.

Lemma do_call_ok t p : ps_ok p → in_u 64 t → ends ps_ok (do_call t p).
Proof.
  intros Hp Ht. destruct p as [s|s|s]; cbn in *.
  - assert (x_ok (set_gpr RSP (wrap64 (gpr s RSP - 8)) s)) as [] by auto with width. by split.
  - eapply ends_bind; [apply ends_add64|]. intros l Hl. eapply ends_bind; [apply reg_put_ok; [by apply ao_len|by apply ao_x|done]|].
    intros x (? & ? & _). destruct Hp. by split.
  - eapply ends_bind; [apply ends_add64|]. intros l Hl. eapply ends_bind; [apply reg_put_ok; [by apply vo_len|by apply vo_x|done]|].
    intros x (? & ? & ->). destruct Hp. split; [done..|]. cbn [v_x]. by rewrite list_lookup_insert_ne by done.
Qed.

Lemma do_return_ok p : ps_ok p → ends (λ r, ps_ok r.1) (do_return p).
Proof.
  intros Hp. destruct p as [s|s|s]; cbn in *.
  - auto with width.
  - eapply ends_bind; [apply reg_at_ok; by apply ao_x|]. intros t Ht. destruct Hp. by split.
  - eapply ends_bind; [apply reg_at_ok; by apply vo_x|]. intros t Ht. destruct Hp. by split.
Qed.

(** A system call that does not leave moves the instruction pointer up. *)
Lemma do_syscall_ok p : ps_ok p → ends (λ r, ps_ok r.1 ∧ (r.2 = None → pc_of p < pc_of r.1)) (do_syscall p).
Proof.
  intros Hp. destruct p as [s|s|s]; cbn in *.
  - destruct (_ =? 60); [done|]. unfold add64, chk. case_bool_decide; [|done]. cbn. split; [|lia]. destruct Hp. by split.
  - eapply ends_bind; [apply reg_at_ok; by apply ao_x|]. intros n _. destruct (n =? 93).
    + eapply ends_bind; [apply reg_at_ok; by apply ao_x|]. done.
    + unfold add64, chk. case_bool_decide; [|done]. cbn. split; [|lia]. destruct Hp. by split.
  - eapply ends_bind; [apply reg_at_ok; by apply vo_x|]. intros n _. destruct (n =? 93).
    + eapply ends_bind; [apply reg_at_ok; by apply vo_x|]. done.
    + unfold add64, chk. case_bool_decide; [|done]. cbn. split; [|lia]. destruct Hp. by split.
Qed.

(** ** Progress *)
Lemma interpret_sys bytes p : (interpret bytes p).1 = Ok SystemCall → (interpret bytes p).2 = p.
Proof.
  destruct p as [s|s|s]; cbn [interpret].
  - pose proof (x86_sys_pure bytes s) as H. destruct (x86_execute bytes s). cbn in *. intros E. by rewrite H.
  - pose proof (a64_sys_pure bytes s) as H. destruct (a64_execute bytes s). cbn in *. intros E. by rewrite H.
  - pose proof (riscv_sys_pure bytes s) as H. destruct (riscv_execute bytes s). cbn in *. intros E. by rewrite H.
Qed.

Lemma fetch_state c : processor_state (fetch c).2 = processor_state c.
Proof.
  unfold fetch, ctx_read_memory, mbindM, mget, ctx_on_host, zoom. destruct (read_memory _ _ _ _) as [[] h]; done.
Qed.

Lemma run_instruction_sys c : (run_instruction c).1 = Ok SystemCall → processor_state (run_instruction c).2 = processor_state c.
Proof.
  unfold run_instruction, mbindM. pose proof (fetch_state c) as Hf. destruct (fetch c) as [[bytes|e| |] c1]; cbn in *; [|done..].
  pose proof (interpret_sys bytes (processor_state c1)) as H. destruct (interpret bytes (processor_state c1)) as [r p]. cbn in *.
  intros E. by rewrite H, Hf.
Qed.

(** What is left: counted instructions first, then the distance of the instruction pointer from its end. *)
Definition remaining (count : Z) (c : ExecutionContext) : Z :=
  (MAX_INSTRUCTIONS - count) * 2 ^ 64 + (2 ^ 64 - pc_of (processor_state c)).

Lemma pc_range p : ps_ok p → 0 ≤ pc_of p < 2 ^ 64.
Proof. destruct p; cbn; intros []; by unfold in_u in *. Qed.

(** One turn, from a good context: it ends, keeps the context good, and if the loop goes on less is left. *)
Definition turn_ok (k : Z) (count : Z) (c : ExecutionContext) (o : res ElfError (Z + Z) * ExecutionContext) : Prop :=
  ctx_ok o.2 ∧ ends (λ r, match r with inl n => count ≤ n ≤ MAX_INSTRUCTIONS ∧ remaining n o.2 + k ≤ remaining count c | inr v => True end) o.1.

Lemma counted_turn count c c' :
  ctx_ok c → ctx_ok c' → count < MAX_INSTRUCTIONS → turn_ok 1 count c (Ok (inl (count + 1)), c').
Proof.
  intros [Hc _ _ _] [Hc' ? ? ?] Hn. apply pc_range in Hc. pose proof (pc_range _ Hc'). split; [by split|]. cbn. unfold remaining. split; lia.
Qed.

Lemma loop_body_turn count c : ctx_ok c → turn_ok 1 count c (loop_body count c).
Proof.
  intros Hc. unfold loop_body. destruct (Z.leb_spec MAX_INSTRUCTIONS count) as [|Hn]; [by split|].
  pose proof (run_instruction_keeps c Hc) as [Hc1 Hr]. pose proof (run_instruction_sys c) as Hsys. unfold mbindM at 1.
  destruct (run_instruction c) as [[r|e| |] c1]; cbn [fst snd ends] in Hc1, Hr, Hsys; [|by split..].
  destruct r as [|code| |t|t taken|t|]; cbn [result_ok] in Hr.
  - by apply counted_turn.
  - by split.
  - unfold mbindM, mget, mlift. pose proof (do_syscall_ok _ (co_state _ Hc1)) as Hd. destruct (do_syscall (processor_state c1)) as [[p [v|]]|e| |]; cbn [ends] in Hd; try by split.
    + destruct Hd as [Hp _]. split; [|done]. destruct Hc1. by split.
    + destruct Hd as [Hp Hup]. specialize (Hup eq_refl). cbn in Hp, Hup. rewrite (Hsys eq_refl) in Hup. split; [destruct Hc1; by split|].
      cbn. unfold remaining. cbn [processor_state set_processor]. split; lia.
  - destruct (put_pc_keeps t Hr c1 Hc1) as [Hc2 _]. by apply counted_turn.
  - destruct taken; [destruct (put_pc_keeps t Hr c1 Hc1) as [Hc2 _]|]; by apply counted_turn.
  - unfold mbindM, mget, mlift. pose proof (do_call_ok t _ (co_state _ Hc1) Hr) as Hd. destruct (do_call t (processor_state c1)) as [p|e| |]; cbn [ends] in Hd; try by split.
    apply counted_turn; [done| |done]. destruct Hc1. by split.
  - unfold mbindM, mget, mlift. pose proof (do_return_ok _ (co_state _ Hc1)) as Hd. destruct (do_return (processor_state c1)) as [[p [v|]]|e| |]; cbn [ends] in Hd; try by split.
    + split; [|done]. destruct Hc1. by split.
    + apply counted_turn; [done| |done]. destruct Hc1. by split.
Qed.

Lemma turn_seq j k count c (m : CM (Z + Z)) (f : Z → CM (Z + Z)) :
  turn_ok j count c (m c) → (∀ n c', ctx_ok c' → turn_ok k n c' (f n c')) →
  turn_ok (j + k) count c ((let! r := m in match r with inl n => f n | inr v => mok (inr v) end) c).
Proof.
  intros [Hc Hr] Hf. unfold mbindM. destruct (m c) as [[[n|v]|e| |] c']; cbn in *; [|by split..].
  destruct Hr as [Hn Hle]. destruct (Hf n c' Hc) as [Hc2 Hr2]. split; [done|]. destruct (f n c') as [[[n2|v]|e| |] c2]; cbn in *; [|done..]. lia.
Qed.

Lemma turns_ok n count c : ctx_ok c → turn_ok (Zpos n) count c (turns n count c).
Proof.
  revert count c. induction n as [n IH|n IH|]; intros count c Hc; cbn [turns].
  - replace (Zpos n~1) with (1 + (Zpos n + Zpos n)) by lia.
    apply (turn_seq 1 (Zpos n + Zpos n) count c (loop_body count) (λ c, let! r := turns n c in match r with inl c => turns n c | inr v => mok (inr v) end)).
    + by apply loop_body_turn.
    + intros m c' Hc'. apply (turn_seq _ _ m c' (turns n m) (turns n)); [by apply IH|]. intros; by apply IH.
  - replace (Zpos n~0) with (Zpos n + Zpos n) by lia. apply (turn_seq _ _ count c (turns n count) (turns n)); [by apply IH|]. intros; by apply IH.
  - by apply loop_body_turn.
Qed.

Lemma execute_instructions_ends : keeps ctx_ok (λ _, True) execute_instructions.
Proof.
  intros c Hc. unfold execute_instructions, mbindM. destruct (turns_ok ENOUGH 0 c Hc) as [Hc' Hr].
  pose proof (pc_range _ (co_state _ Hc)) as Hpc.
  destruct (turns ENOUGH 0 c) as [[[n|v]|e| |] c']; cbn [fst snd ends] in *; [|done..].
  exfalso. pose proof (pc_range _ (co_state _ Hc')) as Hpc'. unfold remaining in Hr. change (Zpos ENOUGH) with ((MAX_INSTRUCTIONS + 1) * 2 ^ 64 + 1) in Hr. lia.
Qed.

(** ** Setting up *)
Section setup.
Context (vec_at : Z → Host → Z).

Lemma new_vec_keeps n : keeps ctx_ok (λ _, True) (new_vec vec_at n).
Proof.
  eapply keeps_bind; [apply keeps_get|]. intros c Hc. eapply keeps_bind; [|intros _ _; by apply keeps_ok]. apply keeps_put. destruct Hc as [Hp Hh ? ?].
  split; [done| |done..]. intros a b. cbn. intros [Hl|[_ Hl]]%lookup_union_Some_raw; [|by eapply Hh].
  apply lookup_map_seqZ_Some in Hl as [_ Hl]. pose proof (zeros_ok (Z.to_nat n)) as Hz. by eapply (Forall_lookup_1 _ _ _ _ Hz).
Qed.

Lemma stack_frame_keeps st : keeps ctx_ok (in_u 64) (setup_initial_stack_frame st).
Proof.
  eapply keeps_bind; [apply keeps_lift, ends_add64|]. intros t Ht. eapply (keeps_bind _ (in_u 64)).
  { apply keeps_lift. unfold sub64, chk. case_bool_decide; done. }
  intros p Hp. eapply keeps_bind; [apply keeps_get|]. intros c Hc. eapply keeps_bind; [apply on_host_keeps, host_write_keeps, le_bytes_ok|].
  intros _ _. by apply keeps_ok.
Qed.

Lemma with_stack_top_ok t p : in_u 64 t → ps_ok p → ends ps_ok (with_stack_top t p).
Proof.
  intros Ht Hp. destruct p as [s|s|s]; cbn in *.
  - auto with width.
  - destruct Hp. by split.
  - eapply ends_bind; [apply reg_put_ok; [by apply vo_len|by apply vo_x|done]|]. intros x (? & ? & ->). destruct Hp. split; [done..|].
    cbn [v_x]. by rewrite list_lookup_insert_ne by done.
Qed.

Lemma initialize_keeps : keeps ctx_ok (λ _, True) (initialize vec_at).
Proof.
  eapply (keeps_bind _ (λ _, True)); [|intros _ _; eapply (keeps_bind _ (λ _, True)); [|intros _ _]].
  - eapply keeps_bind; [apply keeps_get|]. intros c0 _. eapply keeps_bind; [apply new_vec_keeps|]. intros st _.
    eapply keeps_bind; [apply stack_frame_keeps|]. intros t Ht. eapply keeps_bind; [apply keeps_get|]. intros c Hc.
    eapply keeps_bind; [apply keeps_lift, with_stack_top_ok; [done|by apply co_state]|]. intros p Hp. apply keeps_put. destruct Hc. by split.
  - eapply keeps_bind; [apply keeps_get|]. intros c0 _. eapply keeps_bind; [apply new_vec_keeps|]. intros st _. apply keeps_mod. intros c []. by split.
  - eapply keeps_bind; [apply keeps_get|]. intros c [Hp Hh He Ha]. eapply (keeps_bind _ ps_ok).
    + apply keeps_lift. destruct (processor_state c) as [s|s|s]; cbn in *.
      * destruct Hp. split; [done|by vm_compute|done].
      * destruct Hp. by split.
      * eapply ends_bind; [apply reg_put_ok; [by apply vo_len|by apply vo_x|by vm_compute]|]. intros x (? & ? & ->). destruct Hp. split; [done..|].
        cbn [v_x]. rewrite list_lookup_insert_eq; [done|]. lia.
    + intros p Hp'. apply keeps_put. by split.
Qed.

Lemma entry_state_ok c : ctx_ok c → ends ps_ok (entry_state c).
Proof.
  intros [Hp Hh He Ha]. assert (in_u 64 (argc c)) as Hargc by (split; [apply zlen_nonneg|done]). unfold entry_state.
  destruct (processor_state c) as [s|s|s]; cbn in Hp.
  - assert (x_ok (set_rip (entry_point (binary c)) s)) as Hs by (destruct Hp; by split). destruct (ctx_stack c); [|done].
    eapply ends_bind; [apply ends_add64|]. intros t _. eapply (ends_bind (in_u 64)).
    { unfold sub64, chk. case_bool_decide; done. }
    intros t' Ht'. cbn. auto with width.
  - eapply (ends_bind (in_u 64)); [destruct (ctx_stack c); [apply ends_add64|by apply Hp]|]. intros sp Hsp.
    eapply ends_bind; [apply reg_put_ok; [by apply ao_len|by apply ao_x|done]|]. intros x (? & ? & _). destruct Hp. by split.
  - eapply (ends_bind (λ x, length x = 32%nat ∧ Forall (in_u 64) x ∧ x !! 0%nat = Some 0)).
    { destruct (ctx_stack c); [|by destruct Hp]. eapply ends_bind; [apply ends_add64|]. intros t Ht. destruct Hp as [? Hl Hx H0].
      pose proof (@reg_put_ok ElfError (v_x s) 2 t _ Hl Hx Ht) as Hq. destruct (reg_put (v_x s) 2 t) as [x| | |]; cbn in *; [|done..].
      destruct Hq as (? & ? & ->). split; [done|]. split; [done|]. by rewrite list_lookup_insert_ne by done. }
    intros x (Hl & Hx & H0). eapply ends_bind; [apply reg_put_ok; [exact Hl|done|done]|]. intros x' (? & ? & ->). split; [done..|].
    cbn [v_x]. by rewrite list_lookup_insert_ne by done.
Qed.

Lemma execute_keeps : keeps ctx_ok (λ _, True) (execute vec_at).
Proof.
  eapply keeps_bind; [apply keeps_get|]. intros c0 _. eapply (keeps_bind _ (λ _, True)).
  { destruct (ctx_stack c0); [by apply keeps_ok|apply initialize_keeps]. }
  intros _ _. eapply keeps_bind; [apply keeps_get|]. intros c Hc. eapply keeps_bind; [apply keeps_lift, entry_state_ok; exact Hc|].
  intros p Hp. eapply keeps_bind; [apply keeps_put; destruct Hc; by split|]. intros _ _. apply execute_instructions_ends.
Qed.
End setup.

Lemma put_args_ok first vals x n :
  length x = n → Forall (in_u 64) x → Forall (in_u 64) vals → 0 ≤ first →
  ends (λ x', length x' = n ∧ Forall (in_u 64) x' ∧ (0 < first → x' !! 0%nat = x !! 0%nat)) (put_args first vals x).
Proof.
  intros Hl Hx Hv. revert first x Hl Hx. induction Hv as [|v vals Hv _ IH]; intros first x Hl Hx Hf; [done|]. cbn [put_args].
  eapply ends_bind; [by apply reg_put_ok|]. intros x' (Hl' & Hx' & ->). specialize (IH (first + 1) _ Hl' Hx' ltac:(lia)).
  destruct (put_args (first + 1) vals _) as [y| | |]; cbn in *; [|done..]. destruct IH as (? & ? & H0). split; [done|]. split; [done|].
  intros Hp. rewrite H0 by lia. by rewrite list_lookup_insert_ne by lia.
Qed.

Lemma with_args_ok vals s : x_ok s → Forall (in_u 64) vals → x_ok (with_args vals s).
Proof.
  intros Hs Hv. split; [apply Hs..|]. intros r. rewrite with_args_lookup. destruct (find_index _ _) as [i|]; [|by apply Hs].
  destruct (vals !! i) eqn:E; [by eapply (Forall_lookup_1 _ _ _ _ Hv)|by apply Hs].
Qed.

Lemma call_state_ok address vals p : in_u 64 address → Forall (in_u 64) vals → ps_ok p → ends ps_ok (call_state address vals p).
Proof.
  intros Ha Hv Hp. destruct p as [s|s|s]; cbn [call_state setup_arguments rbind ps_ok] in *.
  - destruct (with_args_ok vals s Hp Hv). by split.
  - eapply ends_bind; [apply put_args_ok; [by apply ao_len|by apply ao_x|by apply Forall_take|lia]|]. intros x (? & ? & _). destruct Hp. by split.
  - eapply ends_bind; [apply put_args_ok; [by apply vo_len|by apply vo_x|by apply Forall_take|lia]|]. intros x (? & ? & H0). destruct Hp. split; [done..|].
    cbn [v_x]. by rewrite H0.
Qed.

Lemma return_value_ok p : ps_ok p → ends (in_u 64) (return_value p).
Proof. destruct p as [s|s|s]; cbn; intros Hp; [by apply Hp|apply reg_at_ok; by apply ao_x|apply reg_at_ok; by apply vo_x]. Qed.

Lemma call_function_keeps address vals : in_u 64 address → Forall (in_u 64) vals → keeps ctx_ok (in_u 64) (call_function address vals).
Proof.
  intros Ha Hv c Hc. assert (∀ c', ctx_ok c' → ctx_ok (set_processor zeroed_x86 c')) as Hz.
  { intros c' []. split; [|done..]. split; [by vm_compute..|]. intros r. by vm_compute. }
  assert (∀ r : ER (option LoadedSegment), r = get_memory_at (binary c) address → ends (λ _, True) r) as Hf by (intros r ->; apply find_segment_ends).
  unfold call_function. destruct (get_memory_at (binary c) address) as [[seg|]|e| |] eqn:E; try (split; done).
  2: { by specialize (Hf Hang eq_refl). }
  pose proof (call_state_ok address vals _ Ha Hv (co_state _ Hc)) as Hp. destruct (call_state address vals (processor_state c)) as [p|e| |]; cbn in Hp; try (split; [by apply Hz|done]).
  assert (ctx_ok (set_processor p c)) as Hc1 by (destruct Hc; by split). destruct (execute_instructions_ends _ Hc1) as [Hc2 Hr].
  destruct (execute_instructions (set_processor p c)) as [[v|e| |] c2]; cbn [fst snd ends] in *.
  - split; [done|]. by apply return_value_ok, co_state.
  - split; [|done]. destruct Hc2 as [Hp2 ? ? ?]. split; [|done..]. apply set_pc_ok; [done|]. pose proof (pc_range _ (co_state _ Hc)). done.
  - split; [by apply Hz|done].
  - done.
Qed.

(** ** Runs of the loop, turn by turn *)
Inductive runs : Z → ExecutionContext → res ElfError Z → ExecutionContext → Prop :=
  | runs_value count c v c' : loop_body count c = (Ok (inr v), c') → runs count c (Ok v) c'
  | runs_error count c e c' : loop_body count c = (Err e, c') → runs count c (Err e) c'
  | runs_turn count c n c1 r c' : loop_body count c = (Ok (inl n), c1) → runs n c1 r c' → runs count c r c'.

(** After [n] turns the run is over or still going. *)
Definition reached (r : res ElfError Z) (c' : ExecutionContext) (o : res ElfError (Z + Z) * ExecutionContext) : Prop :=
  match o with
  | (Ok (inr v), c1) => r = Ok v ∧ c1 = c'
  | (Err e, c1) => r = Err e ∧ c1 = c'
  | (Ok (inl n), c1) => runs n c1 r c'
  | _ => False
  end.

Lemma reached_body count c r c' : runs count c r c' → reached r c' (loop_body count c).
Proof. intros []; by rewrite H. Qed.

Lemma reached_seq r c' (m : CM (Z + Z)) (f : Z → CM (Z + Z)) c :
  reached r c' (m c) → (∀ n c1, runs n c1 r c' → reached r c' (f n c1)) →
  reached r c' ((let! o := m in match o with inl n => f n | inr v => mok (inr v) end) c).
Proof. intros Hm Hf. unfold mbindM. destruct (m c) as [[[n|v]|e| |] c1]; cbn in *; auto. Qed.

Lemma turns_reached n count c r c' : runs count c r c' → reached r c' (turns n count c).
Proof.
  revert count c. induction n as [n IH|n IH|]; intros count c Hr; cbn [turns].
  - apply (reached_seq r c' (loop_body count) (λ c, let! r := turns n c in match r with inl c => turns n c | inr v => mok (inr v) end));
      [by apply reached_body|]. intros k c1 Hk. apply (reached_seq r c' (turns n k) (turns n)); [by apply IH|]. intros; by apply IH.
  - apply (reached_seq r c' (turns n count) (turns n)); [by apply IH|]. intros; by apply IH.
  - by apply reached_body.
Qed.

Lemma execute_instructions_runs c r c' : ctx_ok c → runs 0 c r c' → execute_instructions c = (r, c').
Proof.
  intros Hc Hr. pose proof (execute_instructions_ends c Hc) as [_ He]. pose proof (turns_reached ENOUGH 0 c r c' Hr) as Ht.
  unfold execute_instructions, mbindM in *. destruct (turns ENOUGH 0 c) as [[[n|v]|e| |] c1]; cbn in *; try done; by destruct Ht as [-> ->].
Qed.

(** One instruction of RISC-V in the loop. *)
Lemma riscv_turn i rest count c c1 s :
  fetch c = (Ok (le_bytes 4 (rv_encode i) ++ rest), c1) → processor_state c1 = PRiscV s → count < MAX_INSTRUCTIONS →
  rv_ok i → v_ok s → v_pc s + 4 < 2 ^ 64 →
  loop_body count c = (Ok (inl (count + 1)), set_processor (PRiscV (rv_spec i s)) c1).
Proof.
  intros Hf Hs Hn Hi Hv Hpc. unfold loop_body. rewrite (proj2 (Z.leb_gt _ _)) by done.
  destruct (riscv_step i rest s Hi Hv Hpc) as (r & s' & E & Hr & Hst).
  erewrite bind_ok. 2: { unfold run_instruction. erewrite bind_ok by exact Hf. rewrite Hs. cbn [interpret]. rewrite E. reflexivity. }
  rewrite <-Hr. by destruct Hst as [->|[t ->]].
Qed.

(** A turn that leaves the context alone runs into the limit. *)
Lemma runs_stall count c : 0 ≤ count → (∀ n, n < MAX_INSTRUCTIONS → loop_body n c = (Ok (inl (n + 1)), c)) →
  runs count c (Err ExecutionSetupFailed) c.
Proof.
  intros Hc Hb. remember (Z.to_nat (MAX_INSTRUCTIONS - count)) as k eqn:Ek. revert count Hc Ek.
  induction k as [|k IH]; intros count Hc Ek.
  - apply runs_error. unfold loop_body. by rewrite (proj2 (Z.leb_le _ _)) by lia.
  - eapply runs_turn; [apply Hb; lia|]. apply IH; lia.
Qed.

(** ** Programs of RISC-V instructions, up to the exit call *)
Definition ECALL : list Z := le_bytes 4 0x73.

(** The code [bs] at [lo] has the word [w] at [pc], and the sixteen bytes that a fetch reads. *)
Definition word_at (lo : Z) (bs : list Z) (pc : Z) (w : list Z) : Prop :=
  0 ≤ pc - lo ∧ pc - lo + 16 ≤ zlen bs ∧ field (Z.to_nat (pc - lo)) 4 bs = w.

(** [k] instructions of the ISA, jumps included. *)
Inductive isa_steps (lo : Z) (bs : list Z) : nat → RiscVExecutionState → RiscVExecutionState → Prop :=
  | isa_none s : isa_steps lo bs 0 s s
  | isa_step i k s s' :
      rv_ok i → word_at lo bs (v_pc s) (le_bytes 4 (rv_encode i)) → isa_steps lo bs k (rv_spec i s) s' → isa_steps lo bs (S k) s s'.

(** [bs] can be read at [lo]. *)
Definition code_at (c : ExecutionContext) (lo : Z) (bs : list Z) : Prop :=
  ∀ i n, 0 ≤ i → 0 < n → i + n ≤ zlen bs →
    read_memory (binary c) (lo + i) n (ctx_host c) = (Ok (field (Z.to_nat i) (Z.to_nat n) bs), ctx_host c).

Lemma fetch_at c lo bs w s :
  code_at c lo bs → processor_state c = PRiscV s → word_at lo bs (v_pc s) w → ∃ rest, fetch c = (Ok (w ++ rest), c).
Proof.
  intros Hc Hs (H0 & H1 & <-). exists (drop 4 (field (Z.to_nat (v_pc s - lo)) 16 bs)).
  unfold fetch, ctx_read_memory, mbindM, mget, ctx_on_host, zoom, instruction_pointer. rewrite Hs.
  replace (v_pc s) with (lo + (v_pc s - lo)) at 1 by lia. rewrite Hc by lia.
  replace (set_ctx_host (ctx_host c) c) with c by (by destruct c). do 2 f_equal. unfold field. rewrite <-(take_drop 4 (take (Z.to_nat 16) _)) at 1.
  by rewrite take_take.
Qed.

Lemma rv_spec_ok i s : rv_ok i → v_ok s → v_pc s + 4 < 2 ^ 64 → v_ok (rv_spec i s).
Proof.
  intros Hi Hs Hpc. destruct (riscv_step i [] s Hi Hs Hpc) as (r & s' & E & <- & Hr).
  pose proof (riscv_keeps (le_bytes 4 (rv_encode i) ++ []) ltac:(rewrite app_nil_r; apply le_bytes_ok) s Hs) as [Hk Ht]. rewrite E in Hk, Ht.
  destruct Hr as [->|[t ->]]; [done|]. destruct Hk. by split.
Qed.

Lemma ecall_eq rest s : riscv_execute (ECALL ++ rest) s = (Ok SystemCall, s).
Proof.
  unfold riscv_execute. rewrite (proj2 (Z.ltb_ge _ _)) by (unfold zlen, ECALL; rewrite length_app, length_le_bytes; lia).
  by erewrite bind_ok by (by apply (word_le 0x73)).
Qed.

Lemma exit_turn rest count c s :
  fetch c = (Ok (ECALL ++ rest), c) → processor_state c = PRiscV s → v_ok s → count < MAX_INSTRUCTIONS → x_read (v_x s) 17 = 93 →
  loop_body count c = (Ok (inr (x_read (v_x s) 10)), c).
Proof.
  intros Hf Hs Hv Hn H17. unfold loop_body. rewrite (proj2 (Z.leb_gt _ _)) by done.
  erewrite bind_ok. 2: { unfold run_instruction. erewrite bind_ok by exact Hf. rewrite Hs. cbn [interpret]. rewrite ecall_eq, <-Hs. reflexivity. }
  replace (set_processor (processor_state c) c) with c by (by destruct c). unfold mbindM, mget, mlift, mput, mok. rewrite Hs. cbn [do_syscall].
  rewrite !x_read_at by done. cbn [rbind]. rewrite H17. cbn. rewrite <-Hs. by destruct c.
Qed.

Lemma isa_steps_run lo bs k s s' count c :
  isa_steps lo bs k s s' → code_at c lo bs → lo + zlen bs < 2 ^ 64 → processor_state c = PRiscV s → v_ok s →
  count + Z.of_nat k < MAX_INSTRUCTIONS → word_at lo bs (v_pc s') ECALL → x_read (v_x s') 17 = 93 →
  runs count c (Ok (x_read (v_x s') 10)) (set_processor (PRiscV s') c).
Proof.
  intros Hk. revert count c. induction Hk as [s|i k s s' Hi Hw Hk IH]; intros count c Hc Hlo Hs Hv Hn He H17.
  - destruct (fetch_at c lo bs ECALL s Hc Hs He) as [rest Hf]. apply runs_value.
    rewrite (exit_turn rest count c s) by (done || lia). rewrite <-Hs. by destruct c.
  - destruct (fetch_at c lo bs _ s Hc Hs Hw) as [rest Hf]. destruct Hw as (? & ? & _).
    eapply runs_turn; [apply (riscv_turn i rest count c c s Hf); done || lia|].
    apply (IH (count + 1) (set_processor (PRiscV (rv_spec i s)) c)); try done; [|lia]. apply rv_spec_ok; done || lia.
Qed.

(** *** The start of a RISC-V program *)
(** Vectors of the global allocator lie in the address space, beside the bytes from [lo] to [hi]. *)
Definition vec_beside (vec_at : Z → Host → Z) (lo hi : Z) : Prop :=
  ∀ n h, 0 ≤ n < 2 ^ 62 → 0 ≤ vec_at n h ∧ vec_at n h + n < 2 ^ 64 ∧ (vec_at n h + n ≤ lo ∨ hi ≤ vec_at n h).

Section start.
Context (vec_at : Z → Host → Z) (lo : Z) (bs : list Z) (beside : vec_beside vec_at lo (lo + zlen bs)).

Lemma new_vec_eq n c : 0 ≤ n < 2 ^ 62 → holds (ctx_host c) lo bs →
  ∃ h, new_vec vec_at n c = (Ok (vec_at n (ctx_host c), n), set_ctx_host h c) ∧ holds h lo bs ∧
    (∀ a, vec_at n (ctx_host c) ≤ a < vec_at n (ctx_host c) + n → is_Some (h !! a)).
Proof.
  intros Hn Hh. exists (map_seqZ (vec_at n (ctx_host c)) (zeros (Z.to_nat n)) ∪ ctx_host c). split; [done|]. destruct (beside n (ctx_host c) Hn) as (_ & _ & Hb). split.
  - apply holds_write_other; [|done]. unfold zlen at 1. rewrite length_zeros. lia.
  - intros a Ha. apply lookup_union_is_Some. left. apply lookup_map_seqZ_is_Some. rewrite length_zeros. lia.
Qed.

Lemma stack_frame_eq p n c : 32 ≤ n < 2 ^ 62 → 0 ≤ p → p + n < 2 ^ 64 → p + n ≤ lo ∨ lo + zlen bs ≤ p → holds (ctx_host c) lo bs →
  (∀ a, p ≤ a < p + n → is_Some (ctx_host c !! a)) →
  ∃ top h, setup_initial_stack_frame (p, n) c = (Ok top, set_ctx_host h c) ∧ holds h lo bs.
Proof.
  intros Hn Hp Ht Hb Hh Hc. unfold setup_initial_stack_frame. cbn [fst snd].
  erewrite bind_ok by (unfold mlift, add64; rewrite chk_ok by lia; reflexivity).
  assert (Z.ldiff (p + n) 15 = (p + n) / 16 * 16) as El by (change 15 with (Z.ones 4); rewrite Z.ldiff_ones_r, Z.shiftl_mul_pow2, Z.shiftr_div_pow2 by lia; done).
  cbv beta. rewrite El. pose proof (Z.div_mod (p + n) 16 ltac:(lia)). pose proof (Z.mod_pos_bound (p + n) 16 ltac:(lia)).
  erewrite bind_ok by (unfold mlift, sub64; rewrite chk_ok by lia; reflexivity). erewrite bind_ok by reflexivity. eexists _, _. split.
  - erewrite bind_ok; [reflexivity|]. unfold ctx_on_host, zoom. rewrite host_write_ok; [done|]. intros a Ha. apply Hc.
    unfold zlen in Ha. rewrite length_le_bytes in Ha. lia.
  - apply holds_write_other; [|done]. unfold zlen at 1. rewrite length_le_bytes. lia.
Qed.

Lemma reg_put_eq {E} (x : list Z) i v : (Z.to_nat i < length x)%nat → @reg_put E x i v = Ok (<[Z.to_nat i := v]> x).
Proof. intros Hi. unfold reg_put. by rewrite bool_decide_eq_true_2. Qed.

(** The registers at the entry: the argument count and the top of the stack. *)
Definition entry_regs (args stack_top : Z) (x : list Z) : list Z := <[10%nat := args]> (<[2%nat := stack_top]> x).

Lemma initialize_riscv b env h :
  32 ≤ env_stack_size env < 2 ^ 62 → 0 ≤ env_heap_size env < 2 ^ 62 → holds h lo bs →
  let c := mkCtx b env (PRiscV rv_setup) None None h in let p := vec_at (env_stack_size env) h in
  ∃ c', initialize vec_at c = (Ok tt, c') ∧ holds (ctx_host c') lo bs ∧ binary c' = b ∧ environment c' = env ∧
    entry_state c' = Ok (PRiscV (mkRv (entry_point b) (entry_regs (zlen (args env)) (p + env_stack_size env) (replicate 32 0)))).
Proof.
  intros Hs Hq Hh c p. destruct (beside (env_stack_size env) h) as (Hp & Ht & Hb); [lia|]. fold p in Hp, Ht, Hb.
  destruct (new_vec_eq (env_stack_size env) c) as (h1 & E1 & Hh1 & Hc1); [lia|done|].
  destruct (stack_frame_eq p (env_stack_size env) (set_ctx_host h1 c)) as (top & h2 & E2 & Hh2); [done..|].
  set (c2 := mkCtx b env (PRiscV (mkRv 0 (<[2%nat := top]> (replicate 32 0)))) (Some (p, env_stack_size env)) None h2).
  destruct (new_vec_eq (env_heap_size env) c2) as (h3 & E3 & Hh3 & _); [done..|].
  assert (setup_stack vec_at c = (Ok tt, c2)) as Estack.
  { unfold setup_stack. erewrite bind_ok by reflexivity. cbv beta. erewrite bind_ok by exact E1. cbv beta. erewrite bind_ok by exact E2. cbv beta.
    erewrite bind_ok by reflexivity. cbv beta. by erewrite bind_ok by reflexivity. }
  assert (setup_heap vec_at c2 = (Ok tt, mkCtx b env (processor_state c2) (ctx_stack c2) (Some (vec_at (env_heap_size env) h2, env_heap_size env)) h3)) as Eheap.
  { unfold setup_heap. erewrite bind_ok by reflexivity. cbv beta. by erewrite bind_ok by exact E3. }
  exists (mkCtx b env (PRiscV (mkRv (entry_point b) (<[2%nat := top]> (replicate 32 0)))) (ctx_stack c2) (Some (vec_at (env_heap_size env) h2, env_heap_size env)) h3).
  split; [unfold initialize; erewrite bind_ok by exact Estack; by erewrite bind_ok by exact Eheap|]. do 3 (split; [done|]).
  unfold entry_state. cbn [processor_state ctx_stack binary v_x fst snd c2]. unfold add64. rewrite chk_ok by lia. cbn [rbind].
  unfold argc. cbn [environment]. unfold entry_regs. rewrite !reg_put_eq by (rewrite ?length_insert, ?length_replicate; lia). cbn [rbind]. rewrite reg_put_eq by (rewrite ?length_insert, ?length_replicate; lia). cbn [rbind].
  do 3 f_equal.
Qed.
End start.

Lemma host_ok_place data base h ph : bytes_ok data → host_ok h → host_ok (place data base h ph).
Proof.
  intros Hd Hh a b. unfold place. rewrite lookup_union_Some_raw. intros [[_ Hl]%lookup_map_seqZ_Some|[_ Hl]]; [|by eapply Hh].
  assert (bytes_ok (segment_bytes data ph)) as Hb by (apply Forall_app_2; [by apply Forall_take, Forall_drop|apply zeros_ok]).
  by eapply (Forall_lookup_1 _ _ _ _ Hb).
Qed.

Lemma host_ok_loaded data base loads h : bytes_ok data → host_ok h → host_ok (foldl (place data base) h loads).
Proof. intros Hd. revert h. induction loads as [|ph loads IH]; intros h Hh; [done|]. by apply IH, host_ok_place. Qed.

(** The code of a loaded segment stays readable as long as memory holds it. *)
Lemma code_at_loaded data base loads ph e arch res c :
  zlen data < 2 ^ 63 → Forall (ph_fits data base) loads → ForallOrdPairs apart loads → ph ∈ loads →
  binary c = mkBinary e (segment_at base <$> loads) base arch res → holds (ctx_host c) (p_vaddr ph + base) (segment_bytes data ph) →
  code_at c (p_vaddr ph + base) (segment_bytes data ph).
Proof.
  intros Hl Hf Hd Hin Hb Hh i n Hi Hn Hm. pose proof (proj1 (Forall_forall _ _) Hf _ Hin) as Hph.
  pose proof (zlen_segment_bytes _ _ _ Hl Hph) as Hz. destruct (Hph) as [_ _ Hv Hb0 _ Ht]. rewrite Hb.
  apply (read_held _ (segment_at base ph)); cbn [segment_at seg_vaddr seg_size seg_memory segments]; try done; try lia.
  apply (find_segment_loaded data); done || lia.
Qed.

(** [execute] of a fresh RISC-V context whose code the ISA runs to the exit call. *)
Lemma execute_riscv vec_at lo bs b env h k s' :
  let s0 := mkRv (entry_point b) (entry_regs (zlen (args env)) (vec_at (env_stack_size env) h + env_stack_size env) (replicate 32 0)) in
  let c := mkCtx b env (PRiscV rv_setup) None None h in
  vec_beside vec_at lo (lo + zlen bs) → 32 ≤ env_stack_size env < 2 ^ 62 → 0 ≤ env_heap_size env < 2 ^ 62 →
  ctx_ok c → holds h lo bs → (∀ c', binary c' = b → holds (ctx_host c') lo bs → code_at c' lo bs) → lo + zlen bs < 2 ^ 64 →
  isa_steps lo bs k s0 s' → Z.of_nat k < MAX_INSTRUCTIONS → word_at lo bs (v_pc s') ECALL → x_read (v_x s') 17 = 93 →
  ∃ c', execute vec_at c = (Ok (x_read (v_x s') 10), c').
Proof.
  intros s0 c Hv Hs Hq Hc Hh Hcode Hlo Hk Hn He H17.
  destruct (initialize_riscv vec_at lo bs Hv b env h Hs Hq Hh) as (c1 & E1 & Hh1 & Hb1 & Henv & Es).
  pose proof (initialize_keeps vec_at c Hc) as [Hc1 _]. fold c in E1. rewrite E1 in Hc1. cbn [snd] in Hc1.
  pose proof (entry_state_ok c1 Hc1) as Hps. rewrite Es in Hps. cbn [ends ps_ok] in Hps.
  exists (set_processor (PRiscV s') c1). unfold execute. erewrite bind_ok by reflexivity. cbn [ctx_stack c]. erewrite bind_ok by exact E1.
  erewrite bind_ok by reflexivity. erewrite bind_ok by (unfold mlift; rewrite Es; reflexivity). erewrite bind_ok by reflexivity.
  apply execute_instructions_runs; [by destruct Hc1; split|].
  apply (isa_steps_run lo bs k s0 s' 0 (set_processor (PRiscV s0) c1)); try done. by apply Hcode.
Qed.

Lemma untaken_eq s op d rest :
  (op = 0x74 ∧ Z.land (rflags s) 0x40 = 0 ∨ op = 0x75 ∧ Z.land (rflags s) 0x40 ≠ 0) →
  ∃ t, x86_execute (op :: d :: rest) s = (Ok (ConditionalJump t false), s).
Proof.
  intros Hop. assert ((0 + 2 <=? zlen (op :: d :: rest)) = true) as Hz by (apply Z.leb_le; unfold zlen; cbn [length]; lia).
  exists (x_target s 2 (as_signed 8 d)).
  assert (∀ z, negb (z =? 0) = false ↔ z = 0) as Hb by (intros z; destruct (Z.eqb_spec z 0); split; by intros).
  destruct Hop as [[-> Hf]|[-> Hf]].
  - transitivity (x_opcode (0x74 :: d :: rest) 0 0x74 s); [done|]. unfold x_opcode. cbn [Z.eqb Pos.eqb andb]. rewrite Hz.
    erewrite bind_ok by reflexivity. erewrite bind_ok by reflexivity. cbv beta. by rewrite (proj2 (Hb _) Hf).
  - transitivity (x_opcode (0x75 :: d :: rest) 0 0x75 s); [done|]. unfold x_opcode. cbn [Z.eqb Pos.eqb andb]. rewrite Hz.
    erewrite bind_ok by reflexivity. erewrite bind_ok by reflexivity. cbv beta. by rewrite (proj2 (Z.eqb_neq _ _) Hf).
Qed.

(** ** The life of a process: a code exactly when it is terminated, never blocked, its context well formed *)
Record pcb_ok (p : ProcessControlBlock) : Prop := {
  pk_code : is_Some (exit_code p) ↔ pcb_state p = PTerminated;
  pk_state : pcb_state p ≠ PBlocked;
  pk_context : ctx_ok (context p);
}.

Lemma on_context_keeps {A} Q (m : CM A) : keeps ctx_ok Q m → keeps pcb_ok Q (on_context m).
Proof. intros Hm. eapply keeps_zoom; [exact Hm|by intros p []|]. intros c p [] Hc. by split. Qed.

Lemma pcb_start_keeps vec_at : keeps pcb_ok (λ _, True) (pcb_start vec_at).
Proof.
  intros p [Hp1 Hp2 Hp3]. unfold pcb_start. erewrite bind_ok by reflexivity. cbv beta. case_bool_decide as Hr; [by split|].
  erewrite bind_ok by reflexivity. apply on_context_keeps; [apply initialize_keeps|].
  split; [|done|done]. cbn. rewrite Hr in Hp1. split; [|done]. by intros H%Hp1.
Qed.

Lemma pcb_execute_keeps vec_at : keeps pcb_ok (λ _, True) (pcb_execute vec_at).
Proof.
  eapply (keeps_bind _ (λ _, True)); [by intros p Hp|]. intros p _. apply keeps_if; intros _; [apply keeps_err|].
  eapply keeps_bind; [apply on_context_keeps, execute_keeps|]. intros v _.
  eapply (keeps_bind _ (λ _, True)); [|intros _ _; by apply keeps_ok]. apply keeps_mod. intros q [_ _ Hq]. split; [|done|done]. cbn. split; [done|by eexists].
Qed.

Lemma pcb_terminate_keeps code : keeps pcb_ok (λ _, True) (pcb_terminate code).
Proof. apply keeps_mod. intros q [_ _ Hq]. split; [|done|done]. cbn. split; [done|by eexists]. Qed.

(** ** Properties *)

(** C18: execution ends. From every well-formed context, running the binary, and calling a function of it with 64-bit
    arguments, returns a value, an error or a panic and leaves the context well formed. System calls that do not exit
    are not counted against the limit, but each of them moves the instruction pointer up. *)
Theorem execution_terminates vec_at address vals c :
  ctx_ok c → in_u 64 address → Forall (in_u 64) vals →
  (execute vec_at c).1 ≠ Hang ∧ ctx_ok (execute vec_at c).2 ∧
  (call_function address vals c).1 ≠ Hang ∧ ctx_ok (call_function address vals c).2.
Proof.
  intros Hc Ha Hv. destruct (execute_keeps vec_at c Hc) as [He Hr]. destruct (call_function_keeps address vals Ha Hv c Hc) as [Hf Hq].
  split; [by intros E; rewrite E in Hr|]. split; [done|]. split; [by intros E; rewrite E in Hq|done].
Qed.

(** A loop of one instruction, [jal x0, 0], in a segment of 32 bytes at address 16; vectors lie from 4096 on. *)
Definition demo_vec_at (n : Z) (h : Host) : Z := 4096.
Definition demo_loop : ExecutionContext :=
  mkCtx (mkBinary 16 [mkSegment 16 32 16 false true] 0 AtRiscV resolver_new) (with_stack_size 64 (with_heap_size 0 env_new))
    (setup_state AtRiscV) None None (map_seqZ 16 (le_bytes 4 (rv_encode (Jal 0 0)) ++ zeros 28)).

Lemma demo_loop_ok : ctx_ok demo_loop.
Proof.
  split; [|..|by vm_compute|by vm_compute].
  - split; [by vm_compute|done| |done]. apply Forall_replicate. by vm_compute.
  - intros a b [_ Hl]%lookup_map_seqZ_Some.
    assert (bytes_ok (le_bytes 4 (rv_encode (Jal 0 0)) ++ zeros 28)) as Hz by (apply Forall_app_2; [apply le_bytes_ok|apply zeros_ok]).
    by eapply (Forall_lookup_1 _ _ _ _ Hz).
Qed.

Lemma execution_terminates_witness : (execute demo_vec_at demo_loop).1 ≠ Hang.
Proof. refine (proj1 (execution_terminates demo_vec_at 16 [] demo_loop demo_loop_ok _ _)); [by vm_compute|constructor]. Defined.

(** A conditional jump of x86-64 that is not taken. The loop moves the instruction pointer only for a taken jump, so the
    same instruction is fetched until the limit is reached, and the run fails with the context as it was. *)
Theorem untaken_branch_stalls c s op d rest :
  ctx_ok c → processor_state c = PX86_64 s → fetch c = (Ok (op :: d :: rest), c) →
  (op = 0x74 ∧ Z.land (rflags s) 0x40 = 0 ∨ op = 0x75 ∧ Z.land (rflags s) 0x40 ≠ 0) →
  execute_instructions c = (Err ExecutionSetupFailed, c).
Proof.
  intros Hc Hs Hf Hop. apply execute_instructions_runs; [done|]. apply runs_stall; [lia|]. intros n Hn.
  unfold loop_body. rewrite (proj2 (Z.leb_gt _ _)) by done. destruct (untaken_eq s op d rest Hop) as [t E].
  erewrite bind_ok. 2: { unfold run_instruction. erewrite bind_ok by exact Hf. rewrite Hs. cbn [interpret]. rewrite E, <-Hs. reflexivity. }
  by destruct c.
Qed.

(** [jz] with the zero flag clear. *)
Definition demo_branch : ExecutionContext :=
  mkCtx (mkBinary 16 [mkSegment 16 32 16 false true] 0 AtX86_64 resolver_new) env_new
    (PX86_64 (set_rip 16 x86_setup)) None None (map_seqZ 16 ([0x74; 5] ++ zeros 30)).

Lemma demo_branch_ok : ctx_ok demo_branch.
Proof.
  split; [|..|by vm_compute|by vm_compute].
  - split; [by vm_compute..|]. by intros [].
  - intros a b [_ Hl]%lookup_map_seqZ_Some.
    assert (bytes_ok ([0x74; 5] ++ zeros 30)) as Hz by (apply Forall_app_2; [apply bytes_ok_forallb; by vm_compute|apply zeros_ok]).
    by eapply (Forall_lookup_1 _ _ _ _ Hz).
Qed.

Lemma untaken_branch_stalls_witness : execute_instructions demo_branch = (Err ExecutionSetupFailed, demo_branch).
Proof.
  refine (untaken_branch_stalls demo_branch (set_rip 16 x86_setup) 0x74 5 (zeros 14) demo_branch_ok eq_refl _ _);
    [vm_compute; reflexivity|left; by vm_compute].
Defined.


(** [addi x17, x0, 93; jal x0, 8; (skipped); addi x10, x10, 42; ecall] at 0x10000, called with one argument. *)
Definition demo_rv_header : ElfHeader :=
  mkHeader (mkIdent ELF_MAGIC Elf64 LittleEndian 1 0 0 (zeros 7)) Executable RiscV 1 0x10000 64 120 0 64 56 1 64 0 0.
Definition demo_rv_ph : ProgramHeader := mkPh Load 5 120 0x10000 0x10000 20 32 1.
Definition demo_rv_code : list Z :=
  concat (le_bytes 4 <$> [rv_encode (Addi 17 0 93); rv_encode (Jal 0 8); 0; rv_encode (Addi 10 10 42); 0x73]).
Definition demo_rv_data : list Z := image demo_rv_header [demo_rv_ph] [] demo_rv_code.
Definition demo_rv_loader : Loader SimpleAllocator := mkLoader (config_new (simple_new (0x100000, 4096))) (map_seqZ 0x10000 (zeros 40)).
Definition demo_rv_env : ExecutionEnvironment := with_arg "a" (with_heap_size 64 (with_stack_size 64 env_new)).
Definition far_vec_at (n : Z) (h : Host) : Z := 2 ^ 62.

Lemma demo_rv_load_ok : load_ok simple_room demo_rv_data demo_rv_header [demo_rv_ph] demo_rv_loader.
Proof.
  split; [by left|done|..].
  - constructor; [|constructor]. split; by vm_compute.
  - split; [by vm_compute..| |by vm_compute]. constructor; [|constructor]. by vm_compute.
  - constructor; [|constructor]. intros a Ha. apply lookup_map_seqZ_is_Some. rewrite length_zeros. cbn in *. lia.
  - repeat constructor.
  - by vm_compute.
Qed.

Definition demo_rv_entry : RiscVExecutionState := mkRv 0x10000 (entry_regs 1 (2 ^ 62 + 64) (replicate 32 0)).
Definition demo_rv_exit : RiscVExecutionState := rv_spec (Addi 10 10 42) (rv_spec (Jal 0 8) (rv_spec (Addi 17 0 93) demo_rv_entry)).

Lemma demo_rv_steps : isa_steps 0x10000 (segment_bytes demo_rv_data demo_rv_ph) 3 demo_rv_entry demo_rv_exit.
Proof.
  apply (isa_step _ _ (Addi 17 0 93)); [by vm_compute|by vm_compute|]. apply (isa_step _ _ (Jal 0 8)); [by vm_compute|by vm_compute|].
  apply (isa_step _ _ (Addi 10 10 42)); [by vm_compute|by vm_compute|]. apply isa_none.
Qed.

