(* ===== verification/Ext4Base.v ===== *)
(** The base of [ext4-view-rs]: errors, byte access, block sizes, features, checksums, readers, the superblock and the
    block group descriptors ([error.rs], [util.rs], [block_size.rs], [features.rs], [checksum.rs], [reader.rs],
    [superblock.rs], [block_group.rs], [file_type.rs], [metadata.rs], [uuid.rs], [label.rs]).

    The CRC routine comes from the crate [crc] and is the argument [Crc]; a reader of the storage is the argument
    [Ext4Read]. *)
From S2P Require Import Prelude.

(** ** Errors *)
Record MemIoError := mkMemIo { io_start : Z; io_read_len : Z; io_src_len : Z }.
#[export] Instance mem_io_eq_dec : EqDecision MemIoError.
Proof. solve_decision. Defined.

(** [BoxedError]: [None] is the error of a reader other than a vector. *)
Definition BoxedError : Type := option MemIoError.

Inductive CorruptKind : Type :=
  | SuperblockMagic | SuperblockChecksum | InvalidBlockSize | TooManyBlockGroups | InodesPerBlockGroup | InodeSize
  | JournalInode | FirstDataBlock (b : Z) | BlockGroupDescriptorBad (i : Z) | BlockGroupDescriptorChecksum (i : Z)
  | JournalSize | JournalMagic | JournalSuperblockChecksum | JournalBlockSize | JournalTruncated | JournalSequence
  | JournalCommitBlockChecksum | JournalDescriptorBlockChecksum | JournalDescriptorTagChecksum
  | JournalRevocationBlockChecksum | JournalRevocationBlockInvalidTableSize (n : Z) | JournalSequenceOverflow
  | JournalDescriptorBlockTruncated | InodeChecksum (i : Z) | InodeTruncated (i size : Z)
  | InodeBlockGroup (i group num : Z) | InodeLocation (i group per_group inode_size block_size first : Z)
  | InodeFileType (i mode : Z) | SymlinkTarget (i : Z) | TooManyBlocksInFile | ExtentMagic (i : Z) | ExtentChecksum (i : Z)
  | ExtentDepth (i : Z) | ExtentNotEnoughData (i : Z) | ExtentBlock (i : Z) | ExtentNodeSize (i : Z)
  | DirBlockChecksum (i : Z) | DirEntryBad (i : Z) | BlockRead (index original offset len : Z)
  | BlockCacheReadTooLarge (num_blocks block_size : Z).

Inductive IncompatibleKind : Type :=
  | MissingRequiredFeatures (f : Z) | UnsupportedFeatures (f : Z) | DirectoryHash (h : Z) | JournalSuperblockType (t : Z)
  | JournalChecksumType (t : Z) | MissingRequiredJournalFeatures (f : Z) | UnsupportedJournalFeatures (f : Z)
  | JournalBlockType (t : Z) | JournalBlockEscaped.

Inductive Ext4Error : Type :=
  | NotAbsolute | NotASymlink | NotFound | IsADirectory | NotADirectory | IsASpecialFile | FileTooLarge | NotUtf8
  | MalformedPath | PathTooLong | TooManySymlinks | Encrypted | Io (e : BoxedError) | Incompatible (k : IncompatibleKind)
  | Corrupt (k : CorruptKind).

#[export] Instance corrupt_eq_dec : EqDecision CorruptKind.
Proof. solve_decision. Defined.
#[export] Instance incompatible_eq_dec : EqDecision IncompatibleKind.
Proof. solve_decision. Defined.
#[export] Instance ext4_error_eq_dec : EqDecision Ext4Error.
Proof. solve_decision. Defined.

Abbreviation XR := (res Ext4Error).

(** ** Checked arithmetic: [checked_add] and the like, [ok_or], [unwrap] *)
Definition checked (w z : Z) : option Z := if bool_decide (0 ≤ z < 2 ^ w) then Some z else None.
Definition checked_div (a b : Z) : option Z := if b =? 0 then None else Some (a / b).
Definition checked_rem (a b : Z) : option Z := if b =? 0 then None else Some (a `mod` b).
Definition ok_or {E A} (e : E) (o : option A) : res E A := match o with Some a => Ok a | None => Err e end.
Definition unwrap {E A} (o : option A) : res E A := match o with Some a => Ok a | None => Panic end.
Definition assert {E} (b : bool) : res E unit := if b then Ok tt else Panic.

(** [bytes.get(a..b)] *)
Definition get_range {A} (a b : Z) (data : list A) : option (list A) :=
  if bool_decide (0 ≤ a ≤ b ∧ b ≤ zlen data) then Some (field (Z.to_nat a) (Z.to_nat (b - a)) data) else None.

(** ** [util.rs] *)
Definition u64_from_hilo (hi lo : Z) : Z := Z.lor (Z.shiftl hi 32) lo.
Definition u32_from_hilo (hi lo : Z) : Z := Z.lor (Z.shiftl hi 16) lo.

Definition read_le {E} (n : Z) (bytes : list Z) (offset : Z) : res E Z :=
  let? end_ := unwrap (checked 64 (offset + n)) in
  let? b := unwrap (get_range offset end_ bytes) in Ok (le_dec b).
Definition read_u16le {E} (bytes : list Z) (offset : Z) : res E Z := read_le 2 bytes offset.
Definition read_u32le {E} (bytes : list Z) (offset : Z) : res E Z := read_le 4 bytes offset.
Definition read_u32be {E} (bytes : list Z) (offset : Z) : res E Z :=
  let? end_ := unwrap (checked 64 (offset + 4)) in
  let? b := unwrap (get_range offset end_ bytes) in Ok (le_dec (reverse b)).

(** ** [block_size.rs]: a block size is the number of bytes *)
Definition from_superblock_value (log_block_size : Z) : option Z :=
  exp ← checked 32 (log_block_size + 10); checked 32 (2 ^ exp).

(** ** Flag sets *)
Definition contains (bits flag : Z) : bool := Z.land bits flag =? flag.

(** [features.rs] *)
Definition COMPRESSION : Z := 0x1.
Definition FILE_TYPE_IN_DIR_ENTRY : Z := 0x2.
Definition RECOVERY : Z := 0x4.
Definition SEPARATE_JOURNAL_DEVICE : Z := 0x8.
Definition META_BLOCK_GROUPS : Z := 0x10.
Definition IS_64BIT : Z := 0x80.
Definition MULTIPLE_MOUNT_PROTECTION : Z := 0x100.
Definition LARGE_EXTENDED_ATTRIBUTES_IN_INODES : Z := 0x400.
Definition DATA_IN_DIR_ENTRY : Z := 0x1000.
Definition CHECKSUM_SEED_IN_SUPERBLOCK : Z := 0x2000.
Definition LARGE_DIRECTORIES : Z := 0x4000.
Definition DATA_IN_INODE : Z := 0x8000.
Definition METADATA_CHECKSUMS : Z := 0x400.
Definition HAS_JOURNAL : Z := 0x4.

(** All flags the type [IncompatibleFeatures] names. *)
Definition KNOWN_INCOMPATIBLE : Z := 0x1f7df.

Definition check_incompat_features (s_feature_incompat : Z) : XR Z :=
  let actual := s_feature_incompat in
  let actual_known := Z.land actual KNOWN_INCOMPATIBLE in
  if negb (actual =? actual_known) then Err (Incompatible (UnsupportedFeatures (Z.ldiff actual actual_known))) else
  let required := FILE_TYPE_IN_DIR_ENTRY in
  let disallowed := foldr Z.lor 0
    [COMPRESSION; SEPARATE_JOURNAL_DEVICE; META_BLOCK_GROUPS; MULTIPLE_MOUNT_PROTECTION;
     LARGE_EXTENDED_ATTRIBUTES_IN_INODES; DATA_IN_DIR_ENTRY; LARGE_DIRECTORIES; DATA_IN_INODE] in
  let present_required := Z.land actual required in
  if negb (present_required =? required) then Err (Incompatible (MissingRequiredFeatures (Z.ldiff required present_required))) else
  let present_disallowed := Z.land actual disallowed in
  if negb (present_disallowed =? 0) then Err (Incompatible (UnsupportedFeatures present_disallowed)) else
  Ok actual.

(** ** [checksum.rs] *)
(** [u32::reverse_bits] *)
Definition reverse_bits (w : nat) (z : Z) : Z :=
  foldr (λ i acc, acc + (if Z.testbit z (Z.of_nat i) then 2 ^ (Z.of_nat w - 1 - Z.of_nat i) else 0)) 0 (seq 0 w).

(** [crc::Digest] for CRC-32/ISCSI. *)
Class Crc : Type := {
  Digest : Type;
  digest_with_initial : Z → Digest;
  digest_update : Digest → list Z → Digest;
  digest_finalize : Digest → Z;
}.

(** What the crate documents: data may be added in pieces, and the result is a [u32]. *)
Class CrcLaws `{Crc} : Prop := {
  crc_update_app : ∀ d a b, digest_update d (a ++ b) = digest_update (digest_update d a) b;
  crc_finalize_u32 : ∀ d, in_u 32 (digest_finalize d);
}.

Section checksum.
Context `{Crc}.

Definition checksum_with_seed (seed : Z) : Digest := digest_with_initial (reverse_bits 32 seed).
Definition checksum_new : Digest := checksum_with_seed 0xffffffff.
Definition update (d : Digest) (data : list Z) : Digest := digest_update d data.
Definition update_u32_be (d : Digest) (v : Z) : Digest := update d (reverse (le_bytes 4 v)).
Definition update_u16_le (d : Digest) (v : Z) : Digest := update d (le_bytes 2 v).
Definition update_u32_le (d : Digest) (v : Z) : Digest := update d (le_bytes 4 v).
Definition finalize (d : Digest) : Z := Z.lxor (digest_finalize d) 0xffffffff.
End checksum.

(** CRC-32/ISCSI with a register of 32 bits, low bit first. *)
Definition crc32c_byte (r b : Z) : Z :=
  Nat.iter 8 (λ r, if Z.odd r then Z.lxor (Z.shiftr r 1) 0x82f63b78 else Z.shiftr r 1) (Z.lxor r b).

Definition crc32c : Crc := {|
  Digest := Z;
  digest_with_initial := reverse_bits 32;
  digest_update := foldl crc32c_byte;
  digest_finalize := λ r, Z.land (Z.lxor r 0xffffffff) 0xffffffff;
|}.

#[export] Instance crc32c_laws : @CrcLaws crc32c.
Proof.
  split; [intros; apply foldl_app|]. intros d. cbn. change 4294967295 with (Z.ones 32). rewrite Z.land_ones by lia. apply Z.mod_pos_bound. lia.
Qed.

(** The values of the unit test in [checksum.rs]. *)
Example crc32c_test :
  finalize (H := crc32c) (update_u32_le (update_u32_le checksum_new 1) 2) = 0x858c13d3 ∧
  finalize (H := crc32c) (update_u32_le (update_u32_le (checksum_with_seed 123) 1) 2) = 0xfc527a0a.
Proof. split; vm_compute; reflexivity. Qed.

(** ** [reader.rs] *)
Class Ext4Read : Type := {
  Reader : Type;
  reader_read : Z → Z → M Reader BoxedError (list Z);
}.

Definition read_from_bytes (src : list Z) (start_byte len : Z) : option (list Z) :=
  end_ ← checked 64 (start_byte + len); get_range start_byte end_ src.

Definition vec_read (start_byte len : Z) : M (list Z) BoxedError (list Z) := λ src,
  (ok_or (Some (mkMemIo start_byte len (zlen src))) (read_from_bytes src start_byte len), src).

#[export] Instance vec_reader : Ext4Read := {| Reader := list Z; reader_read := vec_read |}.

(** [.map_err(Ext4Error::Io)] *)
Definition io_read `{Ext4Read} (start_byte len : Z) : M Reader Ext4Error (list Z) := λ r,
  let (x, r') := reader_read start_byte len r in (map_err Io x, r').

(** ** [superblock.rs] *)
Record Superblock := mkSb {
  block_size : Z; blocks_count : Z; inode_size : Z; inodes_per_block_group : Z; block_group_descriptor_size : Z;
  num_block_groups : Z; incompatible_features : Z; read_only_compatible_features : Z; checksum_seed : Z;
  htree_hash_seed : list Z; journal_inode : option Z; label : list Z; uuid : list Z;
}.

Definition SUPERBLOCK_SIZE : Z := 1024.

(** [InodeIndex::new] *)
Definition inode_index (i : Z) : option Z := if i =? 0 then None else Some i.

Section superblock.
Context `{Crc}.

Definition check_superblock_checksum (bytes : list Z) (s_checksum : Z) : XR unit :=
  let? covered := slice 0 0x3fc bytes in
  if negb (s_checksum =? finalize (update checksum_new covered)) then Err (Corrupt SuperblockChecksum) else Ok tt.

Definition superblock_from_bytes (bytes : list Z) : XR Superblock :=
  let? _ := assert (SUPERBLOCK_SIZE <=? zlen bytes) in
  let? s_blocks_count_lo := read_u32le bytes 0x4 in
  let? s_first_data_block := read_u32le bytes 0x14 in
  let? s_log_block_size := read_u32le bytes 0x18 in
  let? s_blocks_per_group := read_u32le bytes 0x20 in
  let? s_inodes_per_group := read_u32le bytes 0x28 in
  let? s_magic := read_u16le bytes 0x38 in
  let? s_inode_size := read_u16le bytes 0x58 in
  let? s_feature_compat := read_u32le bytes 0x5c in
  let? s_feature_incompat := read_u32le bytes 0x60 in
  let? s_feature_ro_compat := read_u32le bytes 0x64 in
  let? s_uuid := slice 0x68 (0x68 + 16) bytes in
  let? s_volume_name := slice 0x78 (0x78 + 16) bytes in
  let? s_journal_inum := read_u32le bytes 0xe0 in
  let? seed0 := read_u32le bytes 0xec in
  let? seed1 := read_u32le bytes (0xec + 4) in
  let? seed2 := read_u32le bytes (0xec + 8) in
  let? seed3 := read_u32le bytes (0xec + 12) in
  let? s_desc_size := read_u16le bytes 0xfe in
  let? s_blocks_count_hi := read_u32le bytes 0x150 in
  let? s_checksum_seed := read_u32le bytes 0x270 in
  let? s_checksum := read_u32le bytes 0x3fc in
  let blocks := u64_from_hilo s_blocks_count_hi s_blocks_count_lo in
  let? bsize := ok_or (Corrupt InvalidBlockSize) (from_superblock_value s_log_block_size) in
  if negb (s_magic =? 0xef53) then Err (Corrupt SuperblockMagic) else
  let? incompat := check_incompat_features s_feature_incompat in
  let? num_data_blocks := ok_or (Corrupt (FirstDataBlock s_first_data_block)) (checked 64 (blocks - s_first_data_block)) in
  (* [div_ceil] panics for a divisor of zero *)
  let? groups := if s_blocks_per_group =? 0 then Panic else Ok ((num_data_blocks + s_blocks_per_group - 1) / s_blocks_per_group) in
  let? groups := ok_or (Corrupt TooManyBlockGroups) (checked 32 groups) in
  let? per_group := ok_or (Corrupt InodesPerBlockGroup) (if s_inodes_per_group =? 0 then None else Some s_inodes_per_group) in
  let desc_size := if contains incompat IS_64BIT then s_desc_size else 32 in
  if bsize <? s_inode_size then Err (Corrupt InodeSize) else
  let? jinode :=
    (if contains s_feature_compat HAS_JOURNAL && contains incompat RECOVERY then
       let? _ := assert (negb (contains incompat SEPARATE_JOURNAL_DEVICE)) in
       let? i := ok_or (Corrupt JournalInode) (inode_index s_journal_inum) in Ok (Some i)
     else Ok None) in
  let? _ := (if contains s_feature_ro_compat METADATA_CHECKSUMS then check_superblock_checksum bytes s_checksum else Ok tt) in
  let seed := if contains incompat CHECKSUM_SEED_IN_SUPERBLOCK then s_checksum_seed else finalize (update checksum_new s_uuid) in
  Ok (mkSb bsize blocks s_inode_size per_group desc_size groups incompat s_feature_ro_compat seed [seed0; seed1; seed2; seed3]
        jinode s_volume_name s_uuid).
End superblock.

(** ** [block_group.rs] *)
Record BlockGroupDescriptor := mkBgd { inode_table_first_block : Z; bgd_checksum : Z }.

Definition bgd_from_bytes (sb : Superblock) (bytes : list Z) : XR BlockGroupDescriptor :=
  let? lo := read_u32le bytes 0x8 in
  let? sum := read_u16le bytes 0x1e in
  let? hi := if contains (incompatible_features sb) IS_64BIT then read_u32le bytes 0x28 else Ok 0 in
  Ok (mkBgd (u64_from_hilo hi lo) sum).

Definition get_start_byte (sb : Superblock) (bgd_index : Z) : option Z :=
  let bgd_start_block := if block_size sb =? 1024 then 2 else 1 in
  bgd_per_block ← checked_div (block_size sb) (block_group_descriptor_size sb);
  q ← checked_div bgd_index bgd_per_block;
  block_index ← checked 32 (bgd_start_block + q);
  r ← checked_rem bgd_index bgd_per_block;
  offset_within_block ← checked 32 (r * block_group_descriptor_size sb);
  b ← checked 64 (block_index * block_size sb);
  checked 64 (b + offset_within_block).

Section block_group.
Context `{Crc, Ext4Read}.

Definition check_bgd (sb : Superblock) (bgd_index : Z) (data : list Z) (bgd : BlockGroupDescriptor) : XR unit :=
  let c := update_u32_le (checksum_with_seed (checksum_seed sb)) bgd_index in
  let? before := slice 0 0x1e data in
  let c := update_u16_le (update c before) 0 in
  let? rest := slice (0x1e + 2) (zlen data) data in
  let sum := Z.land (finalize (update c rest)) 0xffff in
  if negb (sum =? bgd_checksum bgd) then Err (Corrupt (BlockGroupDescriptorChecksum bgd_index)) else Ok tt.

Definition bgd_read (sb : Superblock) (bgd_index : Z) : M Reader Ext4Error BlockGroupDescriptor :=
  let! start := mlift (ok_or (Corrupt (BlockGroupDescriptorBad bgd_index)) (get_start_byte sb bgd_index)) in
  let! data := io_read start (block_group_descriptor_size sb) in
  let! bgd := mlift (bgd_from_bytes sb data) in
  let! _ := mlift (if contains (read_only_compatible_features sb) METADATA_CHECKSUMS then check_bgd sb bgd_index data bgd else Ok tt) in
  mok bgd.

Fixpoint bgd_read_from (sb : Superblock) (ids : list Z) : M Reader Ext4Error (list BlockGroupDescriptor) :=
  match ids with
  | [] => mok []
  | i :: ids => let! bgd := bgd_read sb i in let! bgds := bgd_read_from sb ids in mok (bgd :: bgds)
  end.

Definition bgd_read_all (sb : Superblock) : M Reader Ext4Error (list BlockGroupDescriptor) :=
  bgd_read_from sb (seqZ 0 (num_block_groups sb)).
End block_group.

(** ** [file_type.rs], [metadata.rs], [label.rs] *)
Inductive FileType : Type := BlockDevice | CharacterDevice | Directory | Fifo | Regular | Socket | Symlink.
#[export] Instance file_type_eq_dec : EqDecision FileType.
Proof. solve_decision. Defined.

Definition from_dir_entry (val : Z) : option FileType :=
  match val with
  | 1 => Some Regular | 2 => Some Directory | 3 => Some CharacterDevice | 4 => Some BlockDevice
  | 5 => Some Fifo | 6 => Some Socket | 7 => Some Symlink | _ => None
  end.

Definition file_type_of_mode (mode : Z) : option FileType :=
  let mode := Z.land mode 0xf000 in
  if mode =? 0x1000 then Some Fifo
  else if mode =? 0x2000 then Some CharacterDevice
  else if mode =? 0x4000 then Some Directory
  else if mode =? 0x6000 then Some BlockDevice
  else if mode =? 0x8000 then Some Regular
  else if mode =? 0xa000 then Some Symlink
  else if mode =? 0xc000 then Some Socket
  else None.

Record Metadata := mkMeta { size_in_bytes : Z; md_mode : Z; file_type : FileType; md_uid : Z; md_gid : Z }.

Definition is_dir (m : Metadata) : bool := bool_decide (file_type m = Directory).
Definition is_symlink (m : Metadata) : bool := bool_decide (file_type m = Symlink).
Definition is_regular_file (t : FileType) : bool := bool_decide (t = Regular).
Definition permissions (m : Metadata) : Z := Z.land (md_mode m) 0xfff.

Definition as_bytes_up_to_first_null (label : list Z) : list Z :=
  match find_index (λ c, c =? 0) label with Some i => take i label | None => label end.

(** ** [Ext4], without the parts that change *)
Record Ext4 := mkExt4 { superblock : Superblock; block_group_descriptors : list BlockGroupDescriptor; journal : gmap Z Z }.

Definition has_metadata_checksums (fs : Ext4) : bool := contains (read_only_compatible_features (superblock fs)) METADATA_CHECKSUMS.

(** [journal.rs]: the replacement of a block. *)
Definition map_block_index (fs : Ext4) (block_index : Z) : Z := default block_index (journal fs !! block_index).
