(* ===== verification/Ext4Cache.v ===== *)
(** The block cache of [ext4-view-rs] and the reads that go through it ([block_cache.rs], [Ext4::read_from_block] of
    [lib.rs]).

    The layers above use a block reader, the class [BlockReader]; the cache implements it, and [BlockReaderLaws] says
    what they may rely on: a read returns the bytes of the storage. *)
From S2P Require Import Prelude Ext4Base.

(** ** [BlockCache] *)
Record CacheEntry := mkEntry { ce_block_index : Z; ce_data : list Z }.

Record BlockCache := mkCache {
  read_buf : list Z; max_blocks_per_read : Z; entries : list CacheEntry; cache_block_size : Z; num_fs_blocks : Z;
}.

Record CacheOpts := mkOpts { opt_block_size : Z; opt_max_blocks_per_read : Z; opt_num_entries : Z }.

Definition cache_opts_new (bsize : Z) : XR CacheOpts :=
  let max_blocks := Z.max 1 (8 * 4096 / bsize) in
  let? n := unwrap (checked 32 (max_blocks * 8)) in
  Ok (mkOpts bsize max_blocks n).

Definition read_buf_size_in_bytes (o : CacheOpts) : XR Z := unwrap (checked 64 (opt_max_blocks_per_read o * opt_block_size o)).

Definition with_opts (o : CacheOpts) (num_blocks : Z) : XR BlockCache :=
  let? _ := assert (opt_max_blocks_per_read o <=? opt_num_entries o) in
  let? n := read_buf_size_in_bytes o in
  let entry := mkEntry 0 (zeros (Z.to_nat (opt_block_size o))) in
  Ok (mkCache (zeros (Z.to_nat n)) (opt_max_blocks_per_read o) (replicate (Z.to_nat (opt_num_entries o)) entry) (opt_block_size o) num_blocks).

Definition cache_new (bsize num_blocks : Z) : XR BlockCache := let? o := cache_opts_new bsize in with_opts o num_blocks.

Definition num_blocks_to_read (c : BlockCache) (block_index : Z) : XR Z :=
  let? _ := assert (block_index <? num_fs_blocks c) in
  let end_block := Z.min (Z.min U64_MAX (block_index + max_blocks_per_read c)) (num_fs_blocks c) in
  let? n := unwrap (checked 64 (end_block - block_index)) in
  unwrap (checked 32 n).

Definition set_entries (es : list CacheEntry) (c : BlockCache) : BlockCache :=
  mkCache (read_buf c) (max_blocks_per_read c) es (cache_block_size c) (num_fs_blocks c).
Definition set_read_buf (b : list Z) (c : BlockCache) : BlockCache :=
  mkCache b (max_blocks_per_read c) (entries c) (cache_block_size c) (num_fs_blocks c).

(** [pop_back().unwrap()] *)
Definition pop_back {A} (l : list A) : XR (list A * A) :=
  match last l with Some a => Ok (take (length l - 1) l, a) | None => Panic end.

Definition insert_block (block_index block_within_read_buf : Z) (c : BlockCache) : XR BlockCache :=
  let? _ := assert (block_within_read_buf <? max_blocks_per_read c) in
  let? start := unwrap (checked 64 (block_within_read_buf * cache_block_size c)) in
  let? end_ := unwrap (checked 64 (start + cache_block_size c)) in
  let? src := slice start end_ (read_buf c) in
  let? (rest, entry) := pop_back (entries c) in
  (* [copy_from_slice] needs equal lengths *)
  let? _ := assert (zlen (ce_data entry) =? zlen src) in
  Ok (set_entries (mkEntry block_index src :: rest) c).

(** The loop over [(0..num_blocks).rev()]. *)
Fixpoint insert_blocks (block_index : Z) (ids : list Z) (c : BlockCache) : XR BlockCache :=
  match ids with
  | [] => Ok c
  | i :: ids =>
      let? b := unwrap (checked 64 (block_index + i)) in
      let? c := insert_block b i c in insert_blocks block_index ids c
  end.

(** [entries[0].data] *)
Definition front_data (c : BlockCache) : XR CacheEntry := unwrap (entries c !! 0%nat).

Section cache.
Context `{Ext4Read}.

Record FsState := mkFs { block_cache : BlockCache; fs_reader : Reader }.

Definition on_cache {A} (m : M BlockCache Ext4Error A) : M FsState Ext4Error A :=
  zoom block_cache (λ c s, mkFs c (fs_reader s)) m.
Definition on_reader {A} (m : M Reader Ext4Error A) : M FsState Ext4Error A :=
  zoom fs_reader (λ r s, mkFs (block_cache s) r) m.

Definition get_or_insert_blocks (block_index : Z) (f : Z → M Reader Ext4Error (list Z)) : M FsState Ext4Error (list Z) :=
  let! s := mget in
  let c := block_cache s in
  let! _ := mlift (assert (block_index <? num_fs_blocks c)) in
  match find_index (λ e, ce_block_index e =? block_index) (entries c) with
  | Some i =>
      let! e := mlift (unwrap (entries c !! i)) in
      let es := if (i =? 0)%nat then entries c else e :: delete i (entries c) in
      let! _ := on_cache (mput (set_entries es c)) in
      let! e := mlift (front_data (set_entries es c)) in
      mok (ce_data e)
  | None =>
      let! num_blocks := mlift (num_blocks_to_read c block_index) in
      let! num_bytes := mlift (ok_or (Corrupt (BlockCacheReadTooLarge num_blocks (cache_block_size c)))
                                 (checked 64 (num_blocks * cache_block_size c))) in
      let! _ := mlift (slice 0 num_bytes (read_buf c)) in
      let! data := on_reader (f num_bytes) in
      let c := set_read_buf (put 0 data (read_buf c)) c in
      let! c := mlift (insert_blocks block_index (reverse (seqZ 0 num_blocks)) c) in
      let! _ := on_cache (mput c) in
      let! e := mlift (front_data c) in
      let! _ := mlift (assert (ce_block_index e =? block_index)) in
      mok (ce_data e)
  end.

(** [Ext4::read_from_block]; the result is the content of [dst], [len] its length. *)
Definition read_from_block (fs : Ext4) (original_block_index offset_within_block len : Z) : M FsState Ext4Error (list Z) :=
  let block_index := map_block_index fs original_block_index in
  let err := Corrupt (BlockRead block_index original_block_index offset_within_block len) in
  if (block_index =? 0) && (offset_within_block <? 1024) then merr err else
  if blocks_count (superblock fs) <=? block_index then merr err else
  let bsize := block_size (superblock fs) in
  if bsize <=? offset_within_block then merr err else
  let! read_end := mlift (ok_or err (checked 64 (offset_within_block + len))) in
  if bsize <? read_end then merr err else
  let! cached := get_or_insert_blocks block_index (λ n,
    let! start_byte := mlift (ok_or err (checked 64 (block_index * bsize))) in io_read start_byte n) in
  mlift (slice offset_within_block read_end cached).
End cache.

(** ** The interface to the layers above *)
Class BlockReader (S : Type) : Type := block_read : Ext4 → Z → Z → Z → M S Ext4Error (list Z).

#[export] Instance cached_reader `{Ext4Read} : BlockReader FsState := read_from_block.

(** A read straight from the storage. *)
Definition direct_read (disk : list Z) (fs : Ext4) (original offset len : Z) : XR (list Z) :=
  let block_index := map_block_index fs original in
  let bsize := block_size (superblock fs) in
  if bool_decide (¬ (block_index = 0 ∧ offset < 1024) ∧ block_index < blocks_count (superblock fs) ∧ offset < bsize ∧ offset + len ≤ bsize)
  then Ok (field (Z.to_nat (block_index * bsize + offset)) (Z.to_nat len) disk)
  else Err (Corrupt (BlockRead block_index original offset len)).

(** Block 0 is left out: an unused entry of the cache claims to be block 0. *)
Definition not_block_0 (fs : Ext4) (original offset : Z) : Prop := map_block_index fs original ≠ 0 ∨ offset < 1024.

(** [serves s disk]: the reader's state [s] gives the bytes of [disk]. *)
Class BlockReaderLaws (S : Type) `{BlockReader S} (fs : Ext4) (disk : list Z) (good : S → Prop) : Prop :=
  block_read_exact : ∀ b off n s, good s → 0 ≤ b < 2 ^ 64 → 0 ≤ off < 2 ^ 32 → 0 ≤ n < 2 ^ 32 → not_block_0 fs b off →
    ∃ s', block_read fs b off n s = (direct_read disk fs b off n, s') ∧ good s'.

(** ** The cache returns the bytes of the storage *)
Class Ext4ReadLaws `{Ext4Read} : Type := {
  serves : Reader → list Z → Prop;
  serves_read : ∀ r disk start n, serves r disk → 0 ≤ start → 0 ≤ n → start + n ≤ zlen disk → start + n < 2 ^ 64 →
    ∃ r', reader_read start n r = (Ok (field (Z.to_nat start) (Z.to_nat n) disk), r') ∧ serves r' disk;
}.

Lemma checked_ok w z : 0 ≤ z < 2 ^ w → checked w z = Some z.
Proof. intros Hz. unfold checked. by rewrite bool_decide_eq_true_2. Qed.

Lemma get_range_ok {A} a b (data : list A) : 0 ≤ a ≤ b → b ≤ zlen data → get_range a b data = Some (field (Z.to_nat a) (Z.to_nat (b - a)) data).
Proof. intros Ha Hb. unfold get_range. by rewrite bool_decide_eq_true_2. Qed.

Lemma vec_serves (r disk : list Z) start n : r = disk → 0 ≤ start → 0 ≤ n → start + n ≤ zlen disk → start + n < 2 ^ 64 →
  ∃ r', vec_read start n r = (Ok (field (Z.to_nat start) (Z.to_nat n) disk), r') ∧ r' = disk.
Proof.
  intros -> Hs Hn Hl H64. exists disk. split; [|done]. unfold vec_read, read_from_bytes. rewrite checked_ok by lia. cbn [mbind option_bind].
  rewrite get_range_ok by lia. by replace (start + n - start) with n by lia.
Qed.

#[export] Instance vec_reader_laws : @Ext4ReadLaws vec_reader := {| serves := λ (r : @Reader vec_reader) disk, r = disk; serves_read := vec_serves |}.

(** Block [i] of the storage. *)
Definition disk_block (bsize : Z) (disk : list Z) (i : Z) : list Z := field (Z.to_nat (i * bsize)) (Z.to_nat bsize) disk.

Record entry_ok (bsize blocks : Z) (disk : list Z) (e : CacheEntry) : Prop := {
  eo_len : zlen (ce_data e) = bsize;
  eo_data : ce_block_index e = 0 ∨ 0 < ce_block_index e < blocks ∧ ce_data e = disk_block bsize disk (ce_block_index e);
}.

(** The storage of a filesystem: all its blocks, byte addresses below [2^64]. *)
Record disk_ok (fs : Ext4) (disk : list Z) : Prop := {
  dk_bsize : 1024 ≤ block_size (superblock fs) < 2 ^ 32;
  dk_blocks : 0 ≤ blocks_count (superblock fs);
  dk_len : blocks_count (superblock fs) * block_size (superblock fs) ≤ zlen disk;
  dk_64 : blocks_count (superblock fs) * block_size (superblock fs) < 2 ^ 64;
  dk_journal : map_Forall (λ _ v, 0 ≤ v) (journal fs);
}.

Section exact.
Context `{Ext4ReadLaws} (fs : Ext4) (disk : list Z) (good_disk : disk_ok fs disk).
Let bsize := block_size (superblock fs).
Let blocks := blocks_count (superblock fs).

Record cache_ok (s : FsState) : Prop := {
  co_bsize : cache_block_size (block_cache s) = bsize;
  co_blocks : num_fs_blocks (block_cache s) = blocks;
  co_max : 1 ≤ max_blocks_per_read (block_cache s) < 2 ^ 32;
  co_size : max_blocks_per_read (block_cache s) * bsize < 2 ^ 64;
  co_buf : zlen (read_buf (block_cache s)) = max_blocks_per_read (block_cache s) * bsize;
  co_room : max_blocks_per_read (block_cache s) ≤ zlen (entries (block_cache s));
  co_entries : Forall (entry_ok bsize blocks disk) (entries (block_cache s));
  co_reader : serves (fs_reader s) disk;
}.

(** The entry that [insert_block] makes of block [i] of the buffer. *)
Definition entry_of (b : Z) (buf : list Z) (i : Z) : CacheEntry := mkEntry (b + i) (field (Z.to_nat (i * bsize)) (Z.to_nat bsize) buf).

Lemma insert_block_eq b i c :
  cache_block_size c = bsize → 0 ≤ i < max_blocks_per_read c → max_blocks_per_read c * bsize < 2 ^ 64 →
  zlen (read_buf c) = max_blocks_per_read c * bsize → Forall (λ e, zlen (ce_data e) = bsize) (entries c) → entries c ≠ [] →
  insert_block (b + i) i c = Ok (set_entries (entry_of b (read_buf c) i :: take (length (entries c) - 1) (entries c)) c).
Proof using good_disk.
  intros Hbs Hi Hm Hb Hf Hne. destruct good_disk as [Hsz _ _ _ _]. fold bsize in Hsz. unfold insert_block. rewrite Hbs.
  assert (0 ≤ i * bsize ∧ i * bsize + bsize ≤ max_blocks_per_read c * bsize) as [Hlo Hhi] by nia.
  rewrite (proj2 (Z.ltb_lt _ _)) by lia. cbn [assert rbind]. rewrite checked_ok by lia. cbn [unwrap rbind]. rewrite checked_ok by lia. cbn [unwrap rbind].
  unfold slice. rewrite bool_decide_eq_true_2 by lia. cbn [rbind]. replace (i * bsize + bsize - i * bsize) with bsize by lia.
  unfold pop_back. destruct (last (entries c)) as [e|] eqn:El; [|by apply last_None in El]. cbn [rbind].
  assert (zlen (ce_data e) = bsize) as -> by (by eapply (Forall_lookup_1 _ _ _ _ Hf); rewrite <-last_lookup).
  assert (zlen (field (Z.to_nat (i * bsize)) (Z.to_nat bsize) (read_buf c)) = bsize) as -> by (unfold zlen in *; rewrite length_field; lia).
  by rewrite Z.eqb_refl.
Qed.

Lemma insert_blocks_eq b ids c :
  cache_block_size c = bsize → Forall (λ i, 0 ≤ i < max_blocks_per_read c) ids → max_blocks_per_read c * bsize < 2 ^ 64 →
  Forall (λ i, 0 ≤ b + i < 2 ^ 64) ids → zlen (read_buf c) = max_blocks_per_read c * bsize →
  Forall (λ e, zlen (ce_data e) = bsize) (entries c) → (length ids ≤ length (entries c))%nat →
  insert_blocks b ids c =
    Ok (set_entries ((entry_of b (read_buf c) <$> reverse ids) ++ take (length (entries c) - length ids) (entries c)) c).
Proof using good_disk.
  intros Hbs Hi Hm Hb Hz Hf Hl. revert c Hbs Hi Hm Hz Hf Hl. induction ids as [|i ids IH]; intros c Hbs Hi Hm Hz Hf Hl.
  - cbn. rewrite Nat.sub_0_r, take_ge by lia. by destruct c.
  - apply Forall_cons in Hi as [Hi His]. apply Forall_cons in Hb as [Hb Hbs']. cbn [insert_blocks length] in *. rewrite checked_ok by lia. cbn [unwrap rbind].
    rewrite insert_block_eq by (done || (intros E; rewrite E in Hl; cbn in Hl; lia)). cbn [rbind]. destruct good_disk as [Hsz _ _ _ _]. fold bsize in Hsz.
    assert (zlen (field (Z.to_nat (i * bsize)) (Z.to_nat bsize) (read_buf c)) = bsize) as Hzf by (unfold zlen in *; rewrite length_field; nia).
    rewrite IH; try done.
    + f_equal. unfold set_entries at 1. cbn [entries set_entries read_buf max_blocks_per_read cache_block_size num_fs_blocks]. f_equal.
      rewrite reverse_cons, fmap_app, <-app_assoc. f_equal. cbn [length fmap list_fmap app]. rewrite length_take.
      replace (S (_ `min` _) - length ids)%nat with (S (length (entries c) - S (length ids)))%nat by lia. cbn [take]. rewrite take_take. unfold set_entries. do 4 f_equal. lia.
    + constructor; [done|]. by apply Forall_take.
    + cbn [entries set_entries length]. rewrite length_take. lia.
Qed.

Lemma disk_block_of_buf b n i buf :
  0 ≤ b → 0 ≤ i < n → (b + n) * bsize ≤ zlen disk → n * bsize ≤ zlen buf →
  field (Z.to_nat (i * bsize)) (Z.to_nat bsize) (put 0 (field (Z.to_nat (b * bsize)) (Z.to_nat (n * bsize)) disk) buf) = disk_block bsize disk (b + i).
Proof using good_disk.
  intros Hb Hi Hd Hn. destruct good_disk as [Hsz _ _ _ _]. fold bsize in Hsz. unfold disk_block, put. rewrite take_0. cbn [app].
  assert (0 ≤ b * bsize ∧ 0 ≤ n * bsize ∧ 0 ≤ i * bsize ∧ (i + 1) * bsize ≤ n * bsize) as (? & ? & ? & ?) by nia.
  unfold zlen in *. rewrite field_app_l by (rewrite length_field; lia). rewrite field_field by lia. f_equal. lia.
Qed.

Lemma num_blocks_eq s b : cache_ok s → 0 ≤ b < blocks →
  ∃ n, num_blocks_to_read (block_cache s) b = Ok n ∧ 1 ≤ n ≤ max_blocks_per_read (block_cache s) ∧ b + n ≤ blocks.
Proof using good_disk.
  intros [Hbs Hbl Hm Hz Hbuf Hr He Hs] Hb. destruct good_disk as [Hsz _ _ H64 _]. fold bsize blocks in Hsz, H64.
  assert (blocks < 2 ^ 64) by nia. unfold num_blocks_to_read. rewrite Hbl, (proj2 (Z.ltb_lt _ _)) by lia. cbn [assert rbind]. unfold U64_MAX.
  set (m := max_blocks_per_read (block_cache s)) in *. set (e := Z.min (Z.min (2 ^ 64 - 1) (b + m)) blocks). assert (b < e ≤ b + m ∧ e ≤ blocks) by lia.
  exists (e - b). rewrite !checked_ok by lia. cbn [unwrap rbind]. rewrite checked_ok by lia. split; [done|lia].
Qed.

(** The cache gives block [b], from an entry or from the storage. *)
Lemma get_block b f s :
  cache_ok s → 0 < b < blocks →
  (∀ n r, serves r disk → 0 ≤ n → (b * bsize) + n ≤ blocks * bsize →
     ∃ r', f n r = (Ok (field (Z.to_nat (b * bsize)) (Z.to_nat n) disk), r') ∧ serves r' disk) →
  ∃ s', get_or_insert_blocks b f s = (Ok (disk_block bsize disk b), s') ∧ cache_ok s'.
Proof using good_disk.
  intros Hc Hb Hf. destruct (num_blocks_eq s b Hc) as (n & En & Hn & Hbn); [lia|]. destruct Hc as [Hbs Hbl Hm Hz Hbuf Hr He Hs].
  destruct good_disk as [Hsz _ Hlen H64 _]. fold bsize blocks in Hsz, H64, Hlen. unfold get_or_insert_blocks. erewrite bind_ok by reflexivity. cbv beta zeta.
  rewrite Hbl, (proj2 (Z.ltb_lt _ _)) by lia. erewrite bind_ok by reflexivity. cbv beta. destruct (find_index _ _) as [i|] eqn:Ef.
  - apply find_index_Some in Ef as (e & Ei & Eb). apply Z.eqb_eq in Eb. rewrite Ei. erewrite bind_ok by reflexivity. cbv beta zeta.
    pose proof (Forall_lookup_1 _ _ _ _ He Ei) as [Hel [Hed|[_ Hed]]]; [lia|]. rewrite Eb in Hed.
    set (es := if (i =? 0)%nat then _ else _). assert (es !! 0%nat = Some e ∧ Forall (entry_ok bsize blocks disk) es ∧ length es = length (entries (block_cache s))) as (Hfront & HF & HL).
    { unfold es. destruct (Nat.eqb_spec i 0) as [->|]; [done|]. split; [done|]. apply lookup_lt_Some in Ei as ?. split.
      - constructor; [by eapply Forall_lookup_1|]. by apply Forall_delete.
      - cbn [length]. rewrite length_delete by (by eexists). lia. }
    erewrite bind_ok by reflexivity. cbv beta. erewrite bind_ok by (unfold mlift, front_data; cbn [entries set_entries]; rewrite Hfront; reflexivity).
    eexists. split; [by rewrite <-Hed|]. split; try done. cbn. unfold zlen in *. lia.
  - rewrite En. erewrite bind_ok by reflexivity. cbv beta. rewrite Hbs. rewrite checked_ok by nia. erewrite bind_ok by reflexivity. cbv beta.
    rewrite slice_ok by nia. erewrite bind_ok by reflexivity. cbv beta.
    destruct (Hf (n * bsize) (fs_reader s) Hs) as (r' & Er & Hs'); [nia..|]. erewrite bind_ok by (unfold on_reader, zoom; rewrite Er; reflexivity).
    cbv beta zeta. set (buf := put 0 _ _). assert (zlen buf = max_blocks_per_read (block_cache s) * bsize) as Hbl'.
    { unfold zlen in *. unfold buf. rewrite length_put; [done|]. rewrite length_field by nia. nia. }
    rewrite insert_blocks_eq; try done; cycle 1.
    + apply Forall_reverse, Forall_forall. intros i Hi%elem_of_seqZ. cbn. lia.
    + apply Forall_reverse, Forall_forall. intros i Hi%elem_of_seqZ. nia.
    + eapply Forall_impl; [exact He|]. by intros e [].
    + rewrite length_reverse, length_seqZ. cbn. unfold zlen in Hr. lia.
    + erewrite bind_ok by reflexivity. cbv beta. erewrite bind_ok by reflexivity. cbv beta. rewrite reverse_involutive.
      set (es := _ ++ _). assert (es !! 0%nat = Some (mkEntry b (disk_block bsize disk b))) as Hfront.
      { unfold es. rewrite (seqZ_cons 0 n) by lia. cbn [fmap list_fmap app lookup list_lookup]. unfold entry_of. rewrite Z.add_0_r. do 2 f_equal.
        cbn [read_buf set_read_buf]. unfold buf. rewrite (disk_block_of_buf b n 0) by nia. f_equal. lia. }
      erewrite bind_ok by (unfold mlift, front_data; cbn [entries set_entries]; rewrite Hfront; reflexivity). cbv beta. cbn [ce_block_index].
      rewrite Z.eqb_refl. erewrite bind_ok by reflexivity. eexists. split; [done|]. split; try done.
      * cbn. unfold zlen in *. unfold es. rewrite length_app, length_fmap, length_seqZ, length_take, length_reverse, length_seqZ. cbn [entries set_read_buf]. lia.
      * cbn. unfold es. apply Forall_app_2; [|by apply Forall_take]. apply Forall_fmap, Forall_forall. intros i Hi%elem_of_seqZ. cbn [compose].
        unfold entry_of. cbn [read_buf set_read_buf]. unfold buf. rewrite (disk_block_of_buf b n i) by nia. split; [|right; split; [cbn; lia|done]].
        unfold disk_block, zlen in *. cbn. rewrite length_field; nia.
Qed.

Lemma map_block_index_nonneg b : 0 ≤ b → 0 ≤ map_block_index fs b.
Proof using good_disk.
  intros Hb. unfold map_block_index. destruct (journal fs !! b) as [v|] eqn:E; [|done]. by apply (dk_journal _ _ good_disk b).
Qed.

#[export] Instance cached_reader_laws : BlockReaderLaws FsState fs disk cache_ok.
Proof using good_disk.
  intros b off n s Hc Hb Ho Hn Hn0. unfold block_read, cached_reader, read_from_block, direct_read. set (i := map_block_index fs b).
  pose proof (map_block_index_nonneg b (proj1 Hb)) as Hi. fold i in Hi. destruct good_disk as [Hsz _ Hlen H64 _]. fold bsize blocks in Hsz, H64, Hlen |- *.
  set (err := Corrupt _). assert (∀ (P : Prop) `{!Decision P} (x y : XR (list Z)), ¬ P → (if bool_decide P then x else y) = y) as Hno
    by (intros; by rewrite bool_decide_eq_false_2).
  destruct ((i =? 0) && (off <? 1024)) eqn:E0.
  { apply andb_true_iff in E0 as [E1%Z.eqb_eq E2%Z.ltb_lt]. exists s. rewrite Hno by lia. by split. }
  assert (i ≠ 0) as Hi0.
  { intros E1. rewrite E1 in E0. cbn [Z.eqb andb] in E0. apply Z.ltb_ge in E0. unfold not_block_0 in Hn0. fold i in Hn0. lia. }
  destruct (Z.leb_spec blocks i); [exists s; rewrite Hno by lia; by split|].
  destruct (Z.leb_spec bsize off); [exists s; rewrite Hno by lia; by split|].
  rewrite (checked_ok 64 (off + n)) by lia. erewrite bind_ok by reflexivity. cbv beta.
  destruct (Z.ltb_spec bsize (off + n)); [exists s; rewrite Hno by lia; by split|]. rewrite bool_decide_eq_true_2 by lia.
  match goal with |- context [get_or_insert_blocks i ?f] => destruct (get_block i f s Hc) as (s' & E & Hc') end; [lia| |].
  - intros m r Hr Hm Hle. rewrite checked_ok by nia. erewrite bind_ok by reflexivity. cbv beta.
    destruct (serves_read r disk (i * bsize) m Hr) as (r' & Er & Hr'); [nia..|]. exists r'. split; [|done]. unfold io_read. by rewrite Er.
  - exists s'. split; [|done]. erewrite bind_ok by exact E. cbv beta. unfold mlift.
    rewrite slice_ok by (unfold disk_block, zlen in *; rewrite ?length_field; nia). unfold disk_block. rewrite field_field by nia.
    do 2 f_equal. f_equal; lia.
Qed.
End exact.

(** ** A fresh cache *)
Lemma cache_new_eq bsize blocks : 1024 ≤ bsize < 2 ^ 32 →
  ∃ m, cache_new bsize blocks = Ok (mkCache (zeros (Z.to_nat (m * bsize))) m (replicate (Z.to_nat (m * 8)) (mkEntry 0 (zeros (Z.to_nat bsize)))) bsize blocks) ∧
    1 ≤ m ≤ 32.
Proof.
  intros Hb. exists (Z.max 1 (8 * 4096 / bsize)). assert (8 * 4096 / bsize ≤ 32) by (apply Z.div_le_upper_bound; lia).
  unfold cache_new, cache_opts_new. set (m := Z.max 1 _). assert (1 ≤ m ≤ 32) as Hm by lia. rewrite checked_ok by lia. cbn [unwrap rbind].
  unfold with_opts, read_buf_size_in_bytes. cbn [opt_max_blocks_per_read opt_num_entries opt_block_size].
  rewrite (proj2 (Z.leb_le _ _)) by lia. cbn [assert rbind]. rewrite checked_ok by nia. done.
Qed.

Lemma fresh_cache_ok `{Ext4ReadLaws} fs disk c r :
  disk_ok fs disk → serves r disk → cache_new (block_size (superblock fs)) (blocks_count (superblock fs)) = Ok c → cache_ok fs disk (mkFs c r).
Proof.
  intros [Hb _ _ _ _] Hr Hc. destruct (cache_new_eq _ (blocks_count (superblock fs)) Hb) as (m & E & Hm). rewrite E in Hc. injection Hc as <-.
  assert (∀ k, 0 ≤ k → zlen (zeros (Z.to_nat k)) = k) as Hz by (intros; unfold zlen; rewrite length_zeros; lia).
  split; cbn; try done; try lia; try nia.
  - apply Hz. nia.
  - unfold zlen. rewrite length_replicate. lia.
  - apply Forall_replicate. split; [apply Hz; lia|by left].
Qed.

(** Calls one after another, each with its result. *)
Fixpoint run_reads {S} `{BlockReader S} (fs : Ext4) (reqs : list (Z * Z * Z)) (s : S) : list (XR (list Z)) :=
  match reqs with
  | [] => []
  | (b, off, n) :: reqs => let (r, s) := block_read fs b off n s in r :: run_reads fs reqs s
  end.

Definition request_ok (fs : Ext4) (q : Z * Z * Z) : Prop :=
  let '(b, off, n) := q in 0 ≤ b < 2 ^ 64 ∧ 0 ≤ off < 2 ^ 32 ∧ 0 ≤ n < 2 ^ 32 ∧ not_block_0 fs b off.

Lemma run_reads_exact {S} `{BlockReaderLaws S fs disk good} reqs s :
  good s → Forall (request_ok fs) reqs → run_reads fs reqs s = (λ '(b, off, n), direct_read disk fs b off n) <$> reqs.
Proof.
  intros Hs Hq. revert s Hs. induction Hq as [|[[b off] n] reqs (Hb & Ho & Hn & Hn0) Hq IH]; intros s Hs; [done|]. cbn [run_reads fmap list_fmap].
  destruct (block_read_exact b off n s Hs Hb Ho Hn Hn0) as (s' & -> & Hs'). f_equal. by apply IH.
Qed.

(** ** Properties *)

(** C12: the block cache does not show. On storage that holds all blocks of the filesystem, starting with a fresh cache,
    any sequence of reads returns what reading the storage directly returns, journal replacements and refused requests
    included, for every reader that delivers the bytes asked for. Reads of block 0 behind its first 1024 bytes are
    left out. *)
Theorem cached_reads_exact `{Ext4ReadLaws} fs disk r reqs :
  disk_ok fs disk → serves r disk → Forall (request_ok fs) reqs →
  ∃ c, cache_new (block_size (superblock fs)) (blocks_count (superblock fs)) = Ok c ∧
    run_reads fs reqs (mkFs c r) = (λ '(b, off, n), direct_read disk fs b off n) <$> reqs.
Proof.
  intros Hd Hr Hq. destruct (cache_new_eq _ (blocks_count (superblock fs)) (dk_bsize _ _ Hd)) as (m & E & _). eexists. split; [exact E|].
  eapply (run_reads_exact (H0 := cached_reader_laws fs disk Hd)); [by apply fresh_cache_ok|done].
Qed.

(** A filesystem of three blocks of 1024 bytes; block 2 replaces block 1. *)
Definition demo_sb (bsize blocks : Z) : Superblock := mkSb bsize blocks 256 16 32 1 0 0 0 [0; 0; 0; 0] None [] [].
Definition demo_ext4 : Ext4 := mkExt4 (demo_sb 1024 3) [] {[1 := 2]}.
Definition demo_disk : list Z := zeros 2048 ++ [7; 8; 9] ++ zeros 1021.

Lemma demo_disk_ok : disk_ok demo_ext4 demo_disk.
Proof. split; try (by vm_compute). apply map_Forall_singleton. lia. Qed.

Lemma cached_reads_exact_witness :
  ∃ c, cache_new 1024 3 = Ok c ∧
    run_reads demo_ext4 [(1, 1, 2); (2, 0, 3); (3, 0, 1)] (mkFs (H := vec_reader) c demo_disk) =
      [Ok [8; 9]; Ok [7; 8; 9]; Err (Corrupt (BlockRead 3 3 0 1))].
Proof.
  destruct (cached_reads_exact (H0 := vec_reader_laws) demo_ext4 demo_disk demo_disk [(1, 1, 2); (2, 0, 3); (3, 0, 1)] demo_disk_ok eq_refl) as (c & E & R).
  - repeat constructor; try lia; by left.
  - exists c. split; [exact E|]. rewrite R. vm_compute. reflexivity.
Defined.

(** Block 0 of a fresh cache. Unused entries carry the block number 0, so a read of block 0 behind its first 1024
    bytes returns zeros, whatever the storage holds. *)
Theorem block_zero_reads_zeros `{Ext4Read} fs c r off n :
  1024 ≤ block_size (superblock fs) < 2 ^ 32 → 0 < blocks_count (superblock fs) → journal fs !! 0 = None →
  cache_new (block_size (superblock fs)) (blocks_count (superblock fs)) = Ok c →
  1024 ≤ off → off < block_size (superblock fs) → 0 ≤ n → off + n ≤ block_size (superblock fs) →
  read_from_block fs 0 off n (mkFs c r) = (Ok (zeros (Z.to_nat n)), mkFs c r).
Proof.
  intros Hb Hk Hj Hc Ho Ho' Hn He. destruct (cache_new_eq _ (blocks_count (superblock fs)) Hb) as (m & E & Hm). rewrite E in Hc. injection Hc as <-.
  unfold read_from_block, map_block_index. rewrite Hj. cbn [default Z.eqb andb]. rewrite (proj2 (Z.ltb_ge off _)) by lia.
  rewrite (proj2 (Z.leb_gt _ 0)), (proj2 (Z.leb_gt _ off)) by lia. rewrite checked_ok by lia. erewrite bind_ok by reflexivity. cbv beta.
  rewrite (proj2 (Z.ltb_ge _ _)) by lia. set (bs := block_size (superblock fs)) in *.
  replace (Z.to_nat (m * 8)) with (S (Z.to_nat (m * 8 - 1))) by lia. cbn [replicate].
  erewrite bind_ok.
  2: { unfold get_or_insert_blocks. erewrite bind_ok by reflexivity. cbv beta zeta. cbn [block_cache num_fs_blocks].
       rewrite (proj2 (Z.ltb_lt _ _)) by lia. erewrite bind_ok by reflexivity. reflexivity. }
  cbv beta. unfold mlift. cbn [ce_data]. rewrite slice_ok by (unfold zlen; rewrite ?length_zeros; lia). f_equal. f_equal.
  unfold field, zeros. rewrite drop_replicate, take_replicate. f_equal. lia.
Qed.

Lemma block_zero_reads_zeros_witness :
  ∃ c, cache_new 2048 1 = Ok c ∧
    read_from_block (mkExt4 (demo_sb 2048 1) [] ∅) 0 1024 4 (mkFs (H := vec_reader) c (replicate 2048 1)) =
      (Ok [0; 0; 0; 0], mkFs (H := vec_reader) c (replicate 2048 1)).
Proof.
  destruct (cache_new_eq 2048 1 ltac:(lia)) as (m & E & _). eexists. split; [exact E|].
  exact (block_zero_reads_zeros (mkExt4 (demo_sb 2048 1) [] ∅) _ (replicate 2048 1 : @Reader vec_reader) 1024 4
    ltac:(cbn; lia) ltac:(cbn; lia) eq_refl E ltac:(lia) ltac:(cbn; lia) ltac:(lia) ltac:(cbn; lia)).
Defined.
