(* ===== verification/Ext4Inode.v ===== *)
(** Inodes of [ext4-view-rs] and its iterators ([inode.rs], the macro of [iters.rs]).

    An iterator is a record next to the state of the filesystem: its functions are programs on the pair. The loop of the
    macro has fuel, and what it gives is stated for every fuel that is large enough. *)
From S2P Require Import Prelude Ext4Base Ext4Cache.

(** ** Programs whose result does not depend on the state of the cache *)
Definition yields {S E A} (good : S → Prop) (m : M S E A) (r : res E A) : Prop := ∀ s, good s → ∃ s', m s = (r, s') ∧ good s'.

Definition run_to {S T E A} (good : S → Prop) (m : M (T * S) E A) (t : T) (r : res E A) (t' : T) : Prop :=
  ∀ s, good s → ∃ s', m (t, s) = (r, (t', s')) ∧ good s'.

Section yields.
Context {S T : Type} {E : Type} (good : S → Prop).

Lemma yields_bind {A B} (m : M S E A) a (k : A → M S E B) r : yields good m (Ok a) → yields good (k a) r → yields good (mbindM m k) r.
Proof. intros Hm Hk s Hs. destruct (Hm s Hs) as (s1 & E1 & Hs1). unfold mbindM. rewrite E1. by apply Hk. Qed.

Lemma yields_bind_err {A B} (m : M S E A) e (k : A → M S E B) : yields good m (Err e) → yields good (mbindM m k) (Err e).
Proof. intros Hm s Hs. destruct (Hm s Hs) as (s1 & E1 & Hs1). unfold mbindM. rewrite E1. by exists s1. Qed.

Lemma yields_lift {A} (r : res E A) : yields good (mlift r) r.
Proof. intros s Hs. by exists s. Qed.

Lemma yields_ok {A} (a : A) : yields good (mok a : M S E A) (Ok a).
Proof. intros s Hs. by exists s. Qed.

Lemma yields_err {A} (e : E) : yields good (merr e : M S E A) (Err e).
Proof. intros s Hs. by exists s. Qed.
End yields.

(** The items that a relation [nx] gives, one after the other: all of them, or the first ones. *)
Section items.
Context {U A : Type} (nx : U → option A → U → Prop).

Fixpoint gen_all (u : U) (l : list A) : Prop :=
  match l with [] => ∃ u', nx u None u' | a :: l => ∃ u', nx u (Some a) u' ∧ gen_all u' l end.
Fixpoint gen_pre (u : U) (l : list A) : Prop :=
  match l with [] => True | a :: l => ∃ u', nx u (Some a) u' ∧ gen_pre u' l end.

Lemma gen_all_pre u l l' : gen_all u (l ++ l') → gen_pre u l.
Proof. revert u. induction l as [|a l IH]; intros u Hg; [done|]. destruct Hg as (u' & Hn & Hg). exists u'. split; [done|by apply IH]. Qed.
End items.

(** Programs on an iterator and the filesystem. *)
Section iterators.
Context {S T : Type}.

Definition it_get : M (T * S) Ext4Error T := λ p, (Ok p.1, p).
Definition it_put (t : T) : M (T * S) Ext4Error unit := λ p, (Ok tt, (t, p.2)).
Definition on_fs {A} (m : M S Ext4Error A) : M (T * S) Ext4Error A := zoom snd (λ s p, (p.1, s)) m.
(** A call of an iterator that is a field of this one. *)
Definition on_sub {U A} (get : T → U) (set : U → T → T) (m : M (U * S) Ext4Error A) : M (T * S) Ext4Error A :=
  zoom (λ p, (get p.1, p.2)) (λ q p, (set q.1 p.1, q.2)) m.

(** [impl_result_iter]: [Ok None] is the end, [Ok (Some a)] and [Err e] are the items. *)
Fixpoint iter_next {A} (is_done : T → bool) (finish : T → T) (next_impl : M (T * S) Ext4Error (option A)) (fuel : nat) :
    M (T * S) Ext4Error (option A) := λ p,
  match fuel with
  | O => (Hang, p)
  | Datatypes.S fuel =>
      if is_done p.1 then (Ok None, p) else
      match next_impl p with
      | (Ok None, p) => iter_next is_done finish next_impl fuel p
      | (Err e, (t, s)) => (Err e, (finish t, s))
      | r => r
      end
  end.

(** The results of [n] calls, whatever they are. *)
Fixpoint collect {A} (next : M (T * S) Ext4Error (option A)) (n : nat) (p : T * S) : list (XR (option A)) :=
  match n with O => [] | Datatypes.S n => let '(r, p) := next p in r :: collect next n p end.

Context (good : S → Prop).

Lemma run_get {A} (k : T → M (T * S) Ext4Error A) t r t' : run_to good (k t) t r t' → run_to good (mbindM it_get k) t r t'.
Proof. intros Hk s Hs. exact (Hk s Hs). Qed.

Lemma run_put {A} t1 (k : unit → M (T * S) Ext4Error A) t r t' : run_to good (k tt) t1 r t' → run_to good (mbindM (it_put t1) k) t r t'.
Proof. intros Hk s Hs. exact (Hk s Hs). Qed.

Lemma run_fs {A B} (m : M S Ext4Error A) a (k : A → M (T * S) Ext4Error B) t r t' :
  yields good m (Ok a) → run_to good (k a) t r t' → run_to good (mbindM (on_fs m) k) t r t'.
Proof. intros Hm Hk s Hs. destruct (Hm s Hs) as (s1 & E1 & Hs1). unfold mbindM, on_fs, zoom. cbn [snd fst]. rewrite E1. by apply Hk. Qed.

Lemma run_fs_err {A B} (m : M S Ext4Error A) e (k : A → M (T * S) Ext4Error B) t :
  yields good m (Err e) → run_to good (mbindM (on_fs m) k) t (Err e) t.
Proof. intros Hm s Hs. destruct (Hm s Hs) as (s1 & E1 & Hs1). unfold mbindM, on_fs, zoom. cbn [snd fst]. rewrite E1. by exists s1. Qed.

Lemma run_sub {U A B} (get : T → U) (set : U → T → T) (m : M (U * S) Ext4Error A) a u (k : A → M (T * S) Ext4Error B) t r t' :
  run_to good m (get t) (Ok a) u → run_to good (k a) (set u t) r t' → run_to good (mbindM (on_sub get set m) k) t r t'.
Proof. intros Hm Hk s Hs. destruct (Hm s Hs) as (s1 & E1 & Hs1). unfold mbindM, on_sub, zoom. cbn [snd fst]. rewrite E1. by apply Hk. Qed.

Lemma run_lift {A B} (x : res Ext4Error A) a (k : A → M (T * S) Ext4Error B) t r t' :
  x = Ok a → run_to good (k a) t r t' → run_to good (mbindM (mlift x) k) t r t'.
Proof. intros -> Hk s Hs. exact (Hk s Hs). Qed.

Lemma run_ok {A} (a : A) t : run_to good (mok a : M (T * S) Ext4Error A) t (Ok a) t.
Proof. intros s Hs. by exists s. Qed.

Lemma run_err {A} e t : run_to good (merr e : M (T * S) Ext4Error A) t (Err e) t.
Proof. intros s Hs. by exists s. Qed.

(** The items of an iterator, up to its end, and the first items of one. *)
Definition generates {A} (next : M (T * S) Ext4Error (option A)) : T → list A → Prop := gen_all (λ t r t', run_to good next t (Ok r) t').
Definition starts_with {A} (next : M (T * S) Ext4Error (option A)) : T → list A → Prop := gen_pre (λ t r t', run_to good next t (Ok r) t').

Section emits.
Context {A : Type} (is_done : T → bool) (finish : T → T) (next_impl : M (T * S) Ext4Error (option A)).

(** [n] calls of [next_impl] lead from one state to another and give the items. *)
Inductive emits : T → list A → T → nat → Prop :=
  | emits_nil t : emits t [] t 0
  | emits_none t t1 l t2 n : is_done t = false → run_to good next_impl t (Ok None) t1 → emits t1 l t2 n → emits t l t2 (Datatypes.S n)
  | emits_some t a t1 l t2 n :
      is_done t = false → run_to good next_impl t (Ok (Some a)) t1 → emits t1 l t2 n → emits t (a :: l) t2 (Datatypes.S n).

Lemma emits_app t l t1 n l' t2 m : emits t l t1 n → emits t1 l' t2 m → emits t (l ++ l') t2 (n + m).
Proof.
  induction 1 as [t|t t1' l t2' n Hd Hr He IH|t a t1' l t2' n Hd Hr He IH]; intros H2; [done|by eapply emits_none; [..|apply IH]|].
  by eapply emits_some; [..|apply IH].
Qed.

Lemma iter_skip fuel t t1 (r : res Ext4Error (option A)) t2 : is_done t = false → run_to good next_impl t (Ok None) t1 →
  run_to good (iter_next is_done finish next_impl fuel) t1 r t2 → run_to good (iter_next is_done finish next_impl (Datatypes.S fuel)) t r t2.
Proof. intros Ht Hr Hn s Hs. destruct (Hr s Hs) as (s1 & E & Hs1). cbn. rewrite Ht, E. by apply Hn. Qed.

Lemma run_iter_some fuel t a t1 : is_done t = false → run_to good next_impl t (Ok (Some a)) t1 →
  run_to good (iter_next is_done finish next_impl (Datatypes.S fuel)) t (Ok (Some a)) t1.
Proof. intros Ht Hr s Hs. destruct (Hr s Hs) as (s1 & E & Hs1). exists s1. cbn. by rewrite Ht, E. Qed.

Lemma run_iter_err fuel t e t1 : is_done t = false → run_to good next_impl t (Err e) t1 →
  run_to good (iter_next is_done finish next_impl (Datatypes.S fuel)) t (Err e) (finish t1).
Proof. intros Ht Hr s Hs. destruct (Hr s Hs) as (s1 & E & Hs1). exists s1. cbn. by rewrite Ht, E. Qed.

(** The first item, and the end, of what is emitted. *)
Lemma emits_first fuel t a l t2 n : emits t (a :: l) t2 n → (n < fuel)%nat →
  ∃ t1 m, run_to good (iter_next is_done finish next_impl fuel) t (Ok (Some a)) t1 ∧ emits t1 l t2 m ∧ (m ≤ n)%nat.
Proof.
  remember (a :: l) as al eqn:Eal. intros He. revert fuel. induction He as [t|t t1 al t2 n Ht Hr He IH|t a' t1 l' t2 n Ht Hr He IH]; intros [|fuel] Hf; try lia; [done| |].
  - destruct (IH Eal fuel ltac:(lia)) as (t' & m & Hn & He' & Hm). exists t', m. split; [|split; [done|lia]]. by eapply iter_skip.
  - injection Eal as -> ->. exists t1, n. split; [|split; [done|lia]]. by apply run_iter_some.
Qed.

Lemma emits_end fuel t t2 n : emits t [] t2 n → is_done t2 = true → (n < fuel)%nat → run_to good (iter_next is_done finish next_impl fuel) t (Ok None) t2.
Proof.
  remember [] as al eqn:Eal. intros He Hd. revert fuel. induction He as [t|t t1 al t2 n Ht Hr He IH|]; intros [|fuel] Hf; try lia; [| |done].
  - intros s Hs. exists s. cbn. by rewrite Hd.
  - eapply iter_skip; [done..|]. apply IH; [done..|lia].
Qed.

Lemma emits_generates fuel t l t2 n : emits t l t2 n → is_done t2 = true → (n < fuel)%nat → generates (iter_next is_done finish next_impl fuel) t l.
Proof.
  intros He Hd Hf. revert t n He Hf. induction l as [|a l IH]; intros t n He Hf; [exists t2; by eapply emits_end|].
  destruct (emits_first fuel _ _ _ _ _ He Hf) as (t1 & m & Hr & He' & Hm). exists t1. split; [done|]. eapply IH; [exact He'|lia].
Qed.

Lemma emits_starts fuel t l t2 n : emits t l t2 n → (n < fuel)%nat → starts_with (iter_next is_done finish next_impl fuel) t l.
Proof.
  intros He Hf. revert t n He Hf. induction l as [|a l IH]; intros t n He Hf; [done|].
  destruct (emits_first fuel _ _ _ _ _ He Hf) as (t1 & m & Hr & He' & Hm). exists t1. split; [done|]. eapply IH; [exact He'|lia].
Qed.
End emits.
End iterators.

(** ** Reads of bytes that are there *)
Lemma read_le_ok {E} n bytes off : 0 ≤ off → 0 ≤ n → off + n ≤ zlen bytes → zlen bytes < 2 ^ 64 →
  @read_le E n bytes off = Ok (le_dec (field (Z.to_nat off) (Z.to_nat n) bytes)).
Proof.
  intros Ho Hn Hl H64. unfold read_le. rewrite checked_ok by lia. cbn [unwrap rbind]. rewrite get_range_ok by lia. cbn [unwrap rbind].
  by replace (off + n - off) with n by lia.
Qed.

(** Block [b] of the filesystem, which the journal may have moved, on the storage. *)
Definition fs_block (fs : Ext4) (disk : list Z) (b : Z) : list Z := disk_block (block_size (superblock fs)) disk (map_block_index fs b).

(** A block of the filesystem other than the first one. *)
Definition real_block (fs : Ext4) (b : Z) : Prop := 0 ≤ b < 2 ^ 64 ∧ 0 < map_block_index fs b < blocks_count (superblock fs).

Section reads.
Context {S : Type} `{BlockReaderLaws S fs disk good} (good_disk : disk_ok fs disk).
Let bsize := block_size (superblock fs).

Lemma block_read_ok b off n : real_block fs b → 0 ≤ off < bsize → 0 ≤ n → off + n ≤ bsize →
  yields good (block_read fs b off n) (Ok (field (Z.to_nat off) (Z.to_nat n) (fs_block fs disk b))).
Proof using All.
  intros [Hb Hm] Ho Hn Hon s Hs. destruct good_disk as [Hbs _ _ _ _]. subst bsize.
  destruct (block_read_exact b off n s Hs) as (s' & E & Hs'); [lia..|left; lia|]. exists s'. split; [|done]. rewrite E. unfold direct_read.
  rewrite bool_decide_eq_true_2 by lia. unfold fs_block, disk_block. rewrite field_field by lia. do 3 f_equal. nia.
Qed.

Lemma block_read_zero b n : map_block_index fs b = 0 → 0 ≤ b < 2 ^ 64 → 0 ≤ n < 2 ^ 32 →
  yields good (block_read fs b 0 n) (Err (Corrupt (BlockRead 0 b 0 n))).
Proof using All.
  intros Hm Hb Hn s Hs. destruct (block_read_exact b 0 n s Hs) as (s' & E & Hs'); [lia..|right; lia|]. exists s'. split; [|done]. rewrite E.
  unfold direct_read. rewrite bool_decide_eq_false_2 by lia. by rewrite Hm.
Qed.

Lemma length_fs_block b : real_block fs b → length (fs_block fs disk b) = Z.to_nat bsize.
Proof using good_disk. intros [_ Hm]. destruct good_disk as [Hbs _ Hl _ _]. unfold fs_block, disk_block. apply length_field. unfold zlen in Hl. subst bsize. nia. Qed.
End reads.

Lemma field_bytes_ok off n l : bytes_ok l → bytes_ok (field off n l).
Proof. intros Hl. unfold field. by apply Forall_take, Forall_drop. Qed.

(** ** [Inode] *)
Section inode.
Context `{Crc}.

Record Inode := mkInode {
  index : Z; inline_data : list Z; metadata : Metadata; flags : Z; checksum_base : Digest; file_size_in_blocks : Z;
}.

Definition DIRECTORY_ENCRYPTED : Z := 0x800.
Definition DIRECTORY_HTREE : Z := 0x1000.
Definition EXTENTS : Z := 0x80000.

Definition INLINE_DATA_LEN : Z := 60.
Definition L_I_CHECKSUM_LO_OFFSET : Z := 0x74 + 0x8.
Definition I_CHECKSUM_HI_OFFSET : Z := 0x82.

Definition inode_from_bytes (fs : Ext4) (idx : Z) (data : list Z) : XR (Inode * Z) :=
  if zlen data <? I_CHECKSUM_HI_OFFSET + 2 then Err (Corrupt (InodeTruncated idx (zlen data))) else
  let? i_mode := read_u16le data 0x0 in
  let? i_uid := read_u16le data 0x2 in
  let? i_size_lo := read_u32le data 0x4 in
  let? i_gid := read_u16le data 0x18 in
  let? i_flags := read_u32le data 0x20 in
  let? i_block := unwrap (get_range 0x28 (0x28 + INLINE_DATA_LEN) data) in
  let? i_generation := read_u32le data 0x64 in
  let? i_size_high := read_u32le data 0x6c in
  let? l_i_uid_high := read_u16le data (0x74 + 0x4) in
  let? l_i_gid_high := read_u16le data (0x74 + 0x6) in
  let? l_i_checksum_lo := read_u16le data L_I_CHECKSUM_LO_OFFSET in
  let? i_checksum_hi := read_u16le data I_CHECKSUM_HI_OFFSET in
  let size := u64_from_hilo i_size_high i_size_lo in
  let uid := u32_from_hilo l_i_uid_high i_uid in
  let gid := u32_from_hilo l_i_gid_high i_gid in
  let checksum := u32_from_hilo i_checksum_hi l_i_checksum_lo in
  let base := update_u32_le (update_u32_le (checksum_with_seed (checksum_seed (superblock fs))) idx) i_generation in
  let bsize := block_size (superblock fs) in
  let? blocks := ok_or (Corrupt TooManyBlocksInFile) (checked 32 ((size + bsize - 1) / bsize)) in
  let? ftype := ok_or (Corrupt (InodeFileType idx i_mode)) (file_type_of_mode i_mode) in
  Ok (mkInode idx i_block (mkMeta size i_mode ftype uid gid) i_flags base blocks, checksum).

Definition get_inode_location (fs : Ext4) (inode : Z) : XR (Z * Z) :=
  let sb := superblock fs in
  let? inode_minus_1 := unwrap (checked 32 (inode - 1)) in
  let group_index := inode_minus_1 / inodes_per_block_group sb in
  let? group := ok_or (Corrupt (InodeBlockGroup inode group_index (zlen (block_group_descriptors fs))))
                  (block_group_descriptors fs !! Z.to_nat group_index) in
  let index_within_group := inode_minus_1 `mod` inodes_per_block_group sb in
  let err := Corrupt (InodeLocation inode group_index (inodes_per_block_group sb) (inode_size sb) (block_size sb) (inode_table_first_block group)) in
  let? byte_offset_within_group := ok_or err (checked 64 (index_within_group * inode_size sb)) in
  let? byte_offset_of_group := ok_or err (checked 64 (block_size sb * inode_table_first_block group)) in
  let? start_byte := ok_or err (checked 64 (byte_offset_of_group + byte_offset_within_group)) in
  let? offset_within_block := ok_or err (checked 32 (start_byte `mod` block_size sb)) in
  Ok (start_byte / block_size sb, offset_within_block).

(** The checksum of [Inode::read], its two fields taken as zero. *)
Definition inode_checksum (inode : Inode) (data : list Z) : XR Z :=
  let? a := slice 0 L_I_CHECKSUM_LO_OFFSET data in
  let? b := slice (L_I_CHECKSUM_LO_OFFSET + 2) I_CHECKSUM_HI_OFFSET data in
  let? c := slice (I_CHECKSUM_HI_OFFSET + 2) (zlen data) data in
  Ok (finalize (update (update_u16_le (update (update_u16_le (update (checksum_base inode) a) 0) b) 0) c)).

Context {S : Type} `{BlockReader S}.

Definition inode_read (fs : Ext4) (idx : Z) : M S Ext4Error Inode :=
  let! (block_index, offset_within_block) := mlift (get_inode_location fs idx) in
  let! data := block_read fs block_index offset_within_block (inode_size (superblock fs)) in
  let! (inode, expected_checksum) := mlift (inode_from_bytes fs idx data) in
  let! _ := mlift
    (if has_metadata_checksums fs then
       let? actual_checksum := inode_checksum inode data in
       if negb (actual_checksum =? expected_checksum) then Err (Corrupt (InodeChecksum (index inode))) else Ok tt
     else Ok tt) in
  mok inode.

Definition read_root_inode (fs : Ext4) : M S Ext4Error Inode := inode_read fs 2.
End inode.

(** ** Inodes on the storage *)
Section inode_at.
Context `{Crc} {S : Type} `{BlockReaderLaws S fs disk good}.

(** Inode [n] of the filesystem, with its checksum. *)
Definition inode_at (n : Z) (i : Inode) : Prop :=
  ∃ blk off sum, get_inode_location fs n = Ok (blk, off) ∧ real_block fs blk ∧
    off + inode_size (superblock fs) ≤ block_size (superblock fs) ∧ 0 < inode_size (superblock fs) ∧
    let data := field (Z.to_nat off) (Z.to_nat (inode_size (superblock fs))) (fs_block fs disk blk) in
    inode_from_bytes fs n data = Ok (i, sum) ∧ (has_metadata_checksums fs = true → inode_checksum i data = Ok sum).

Lemma inode_read_ok n i : disk_ok fs disk → inode_at n i → yields good (inode_read fs n) (Ok i).
Proof using All.
  intros Hd (blk & off & sum & Hloc & Hreal & Hfit & Hpos & Hfrom & Hsum).
  assert (0 ≤ off) as Ho.
  { unfold get_inode_location in Hloc. destruct (unwrap (checked 32 (n - 1))) as [m|e| |]; try done. cbn [rbind] in Hloc.
    destruct (ok_or _ (block_group_descriptors fs !! _)) as [g|e| |]; try done. cbn [rbind] in Hloc.
    destruct (ok_or _ (checked 64 _)) as [a|e| |]; try done. cbn [rbind] in Hloc.
    destruct (ok_or _ (checked 64 _)) as [b|e| |]; try done. cbn [rbind] in Hloc.
    destruct (ok_or _ (checked 64 _)) as [c|e| |]; try done. cbn [rbind] in Hloc.
    unfold checked in Hloc. case_bool_decide; [|done]. cbn in Hloc. injection Hloc as _ <-. lia. }
  unfold inode_read. rewrite Hloc. eapply yields_bind; [apply yields_lift|]. cbv beta iota.
  eapply yields_bind; [apply (block_read_ok Hd); [done|lia..]|]. cbv beta. rewrite Hfrom. eapply yields_bind; [apply yields_lift|]. cbv beta iota.
  eapply yields_bind; [|apply yields_ok]. destruct (has_metadata_checksums fs); [|apply yields_lift]. rewrite Hsum by done. cbn [rbind]. rewrite Z.eqb_refl. apply yields_lift.
Qed.
End inode_at.
