(* ===== verification/Ext4Extents.v ===== *)
(** The extent tree of a file in [ext4-view-rs]: [iters/extents.rs], [extent.rs] and [iters/file_blocks/extents_blocks.rs].

    [to_visit] is a list whose head is the last element of the vector. The filesystem is an argument of the functions
    where the structs keep a clone of it. *)
From S2P Require Import Prelude Ext4Base Ext4Cache Ext4Inode.

Definition ENTRY_SIZE_IN_BYTES : Z := 12.

Record Extent := mkExtent { ext_block_within_file : Z; start_block : Z; num_blocks : Z }.

Record NodeHeader := mkHeader { num_entries : Z; max_entries : Z; nh_depth : Z }.

Definition add_one_mul_entry_size (n : Z) : XR Z :=
  let? n_plus_one := unwrap (checked 64 (n + 1)) in unwrap (checked 64 (n_plus_one * ENTRY_SIZE_IN_BYTES)).
Definition node_size_in_bytes (h : NodeHeader) : XR Z := add_one_mul_entry_size (num_entries h).
Definition checksum_offset (h : NodeHeader) : XR Z := add_one_mul_entry_size (max_entries h).

Definition header_from_bytes (data : list Z) (inode : Z) : XR NodeHeader :=
  if zlen data <? ENTRY_SIZE_IN_BYTES then Err (Corrupt (ExtentNotEnoughData inode)) else
  let? eh_magic := read_u16le data 0 in
  let? eh_entries := read_u16le data 2 in
  let? eh_max := read_u16le data 4 in
  let? eh_depth := read_u16le data 6 in
  if negb (eh_magic =? 0xf30a) then Err (Corrupt (ExtentMagic inode)) else
  if 5 <? eh_depth then Err (Corrupt (ExtentDepth inode)) else
  Ok (mkHeader eh_entries eh_max eh_depth).

Record ToVisitItem := mkItem { node : list Z; entry : Z; depth : Z }.

Definition item_new (node : list Z) (inode : Z) : XR ToVisitItem :=
  let? header := header_from_bytes node inode in
  let? size := node_size_in_bytes header in
  if zlen node <? size then Err (Corrupt (ExtentNotEnoughData inode)) else
  Ok (mkItem (take (Z.to_nat size) node) 0 (nh_depth header)).

Definition item_entry (item : ToVisitItem) : XR (option (list Z)) :=
  let? start := unwrap (checked 64 (entry item * ENTRY_SIZE_IN_BYTES)) in
  let? end_ := unwrap (checked 64 (start + ENTRY_SIZE_IN_BYTES)) in
  Ok (get_range start end_ (node item)).

Section extents.
Context `{Crc}.

Record Extents := mkExtents { ex_inode : Z; to_visit : list ToVisitItem; ex_checksum_base : Digest; ex_is_done : bool }.

Definition set_to_visit (l : list ToVisitItem) (it : Extents) : Extents := mkExtents (ex_inode it) l (ex_checksum_base it) (ex_is_done it).
Definition extents_done (it : Extents) : Extents := mkExtents (ex_inode it) (to_visit it) (ex_checksum_base it) true.

Definition extents_new (inode : Inode) : XR Extents :=
  let? item := item_new (inline_data inode) (index inode) in
  Ok (mkExtents (index inode) [item] (checksum_base inode) false).

Context {S : Type} `{BlockReader S}.

(** The leaf branch of [next_impl]. *)
Definition extent_of_entry (entry : list Z) : XR Extent :=
  let? ee_block := read_u32le entry 0 in
  let? ee_len := read_u16le entry 4 in
  let? ee_start_hi := read_u16le entry 6 in
  let? ee_start_low := read_u32le entry 8 in
  Ok (mkExtent ee_block (u64_from_hilo ee_start_hi ee_start_low) ee_len).

(** The other branch: the child node that an entry points to. *)
Definition read_child (fs : Ext4) (inode : Z) (base : Digest) (entry : list Z) : M S Ext4Error ToVisitItem :=
  let! ei_leaf_lo := mlift (read_u32le entry 4) in
  let! ei_leaf_hi := mlift (read_u16le entry 8) in
  let child_block := u64_from_hilo ei_leaf_hi ei_leaf_lo in
  let! child_header := block_read fs child_block 0 ENTRY_SIZE_IN_BYTES in
  let! child_header := mlift (header_from_bytes child_header inode) in
  let! checksum_offset := mlift (checksum_offset child_header) in
  let checksum_size := if has_metadata_checksums fs then 4 else 0 in
  let! child_node_size := mlift (unwrap (checked 64 (checksum_offset + checksum_size))) in
  if block_size (superblock fs) <? child_node_size then merr (Corrupt (ExtentNodeSize inode)) else
  let! child_node := block_read fs child_block 0 child_node_size in
  let! _ := mlift
    (if has_metadata_checksums fs then
       let? expected_checksum := read_u32le child_node checksum_offset in
       let? covered := slice 0 checksum_offset child_node in
       if negb (expected_checksum =? finalize (update base covered)) then Err (Corrupt (ExtentChecksum inode)) else Ok tt
     else Ok tt) in
  mlift (item_new child_node inode).

Definition extents_next_impl (fs : Ext4) : M (Extents * S) Ext4Error (option Extent) :=
  let! it := it_get in
  match to_visit it with
  | [] => let! _ := it_put (extents_done it) in mok None
  | item :: rest =>
      let! e := mlift (unwrap (checked 32 (entry item + 1))) in
      let item := mkItem (node item) e (depth item) in
      let! _ := it_put (set_to_visit (item :: rest) it) in
      let! entry := mlift (item_entry item) in
      match entry with
      | None => let! _ := it_put (set_to_visit rest it) in mok None
      | Some entry =>
          if depth item =? 0 then
            let! extent := mlift (extent_of_entry entry) in mok (Some extent)
          else
            let! child := on_fs (read_child fs (ex_inode it) (ex_checksum_base it) entry) in
            let! _ := it_put (set_to_visit (child :: item :: rest) it) in
            mok None
      end
  end.

Definition extents_next (fs : Ext4) (fuel : nat) : M (Extents * S) Ext4Error (option Extent) :=
  iter_next ex_is_done extents_done (extents_next_impl fs) fuel.

(** ** [ExtentsBlocks] *)
Record ExtentsBlocks := mkEb {
  extents : Extents; extent : option Extent; block_within_extent : Z; blocks_remaining_in_hole : Z; block_within_file : Z;
  num_blocks_total : Z; eb_is_done : bool; eb_inode : Z;
}.

Definition set_extents (x : Extents) (b : ExtentsBlocks) : ExtentsBlocks :=
  mkEb x (extent b) (block_within_extent b) (blocks_remaining_in_hole b) (block_within_file b) (num_blocks_total b) (eb_is_done b) (eb_inode b).
Definition set_extent (x : option Extent) (k hole : Z) (b : ExtentsBlocks) : ExtentsBlocks :=
  mkEb (extents b) x k hole (block_within_file b) (num_blocks_total b) (eb_is_done b) (eb_inode b).
Definition advance (k hole p : Z) (b : ExtentsBlocks) : ExtentsBlocks :=
  mkEb (extents b) (extent b) k hole p (num_blocks_total b) (eb_is_done b) (eb_inode b).
Definition eb_done (b : ExtentsBlocks) : ExtentsBlocks :=
  mkEb (extents b) (extent b) (block_within_extent b) (blocks_remaining_in_hole b) (block_within_file b) (num_blocks_total b) true (eb_inode b).

Definition extents_blocks_new (inode : Inode) : XR ExtentsBlocks :=
  let? x := extents_new inode in Ok (mkEb x None 0 0 0 (file_size_in_blocks inode) false (index inode)).

(** The block of the current extent, the last part of [next_impl]. *)
Definition next_in_extent (e : Extent) : M (ExtentsBlocks * S) Ext4Error (option Z) :=
  let! b := it_get in
  if block_within_extent b =? num_blocks e then
    let! _ := it_put (set_extent None (block_within_extent b) (blocks_remaining_in_hole b) b) in mok None
  else
    let! block := mlift (ok_or (Corrupt (ExtentBlock (eb_inode b))) (checked 64 (start_block e + block_within_extent b))) in
    let! k := mlift (unwrap (checked 16 (block_within_extent b + 1))) in
    let! _ := it_put (advance k (blocks_remaining_in_hole b) (block_within_file b) b) in
    let! p := mlift (unwrap (checked 32 (block_within_file b + 1))) in
    let! _ := it_put (advance k (blocks_remaining_in_hole b) p b) in
    mok (Some block).

Definition extents_blocks_next_impl (fs : Ext4) (fuel : nat) : M (ExtentsBlocks * S) Ext4Error (option Z) :=
  let! b := it_get in
  if num_blocks_total b <=? block_within_file b then let! _ := it_put (eb_done b) in mok None else
  if 0 <? blocks_remaining_in_hole b then
    let! hole := mlift (unwrap (checked 32 (blocks_remaining_in_hole b - 1))) in
    let! _ := it_put (advance (block_within_extent b) hole (block_within_file b) b) in
    let! p := mlift (unwrap (checked 32 (block_within_file b + 1))) in
    let! _ := it_put (advance (block_within_extent b) hole p b) in
    mok (Some 0)
  else
  match extent b with
  | Some e => next_in_extent e
  | None =>
      let! next := on_sub extents set_extents (extents_next fs fuel) in
      let! b := it_get in
      match next with
      | Some e =>
          let! hole :=
            if block_within_file b <? ext_block_within_file e
            then mlift (unwrap (checked 32 (ext_block_within_file e - block_within_file b)))
            else mok (blocks_remaining_in_hole b) in
          let! _ := it_put (set_extent (Some e) 0 hole b) in
          if 0 <? hole then mok None else next_in_extent e
      | None =>
          let! blocks_remaining := mlift (unwrap (checked 32 (num_blocks_total b - block_within_file b))) in
          if 0 <? blocks_remaining then
            let! _ := it_put (set_extent (extent b) (block_within_extent b) blocks_remaining b) in mok None
          else
            let! _ := it_put (eb_done b) in mok None
      end
  end.

Definition extents_blocks_next (fs : Ext4) (fuel : nat) : M (ExtentsBlocks * S) Ext4Error (option Z) :=
  iter_next eb_is_done eb_done (extents_blocks_next_impl fs fuel) fuel.
End extents.

(** ** Extent trees on the storage *)
Definition entry_extent (e : list Z) : Extent :=
  mkExtent (le_dec (field 0 4 e)) (u64_from_hilo (le_dec (field 6 2 e)) (le_dec (field 8 4 e))) (le_dec (field 4 2 e)).
Definition entry_child (e : list Z) : Z := u64_from_hilo (le_dec (field 8 2 e)) (le_dec (field 4 4 e)).

(** The entries of a node of [n + 1] times 12 bytes, after the header. *)
Definition node_entries (nd : list Z) : list (list Z) := (λ i, field (12 * (i + 1)) 12 nd) <$> seq 0 (length nd / 12 - 1).

Definition header_entries (raw : list Z) : Z := le_dec (field 2 2 raw).
Definition header_max (raw : list Z) : Z := le_dec (field 4 2 raw).
Definition header_depth (raw : list Z) : Z := le_dec (field 6 2 raw).

Section trees.
Context `{Crc} (fs : Ext4) (disk : list Z) (inode : Z) (base : Digest).

(** A node in a block: its header, room for its entries and a checksum after that room. *)
Record node_at (blk : Z) (nd : list Z) (d : Z) : Prop := {
  na_block : real_block fs blk;
  na_magic : le_dec (field 0 2 (fs_block fs disk blk)) = 0xf30a;
  na_depth : header_depth (fs_block fs disk blk) = d ∧ d ≤ 5;
  na_room : header_entries (fs_block fs disk blk) ≤ header_max (fs_block fs disk blk);
  na_size : 12 * (header_max (fs_block fs disk blk) + 1) + (if has_metadata_checksums fs then 4 else 0) ≤ block_size (superblock fs);
  na_sum : has_metadata_checksums fs = true →
    let covered := Z.to_nat (12 * (header_max (fs_block fs disk blk) + 1)) in
    le_dec (field covered 4 (fs_block fs disk blk)) = finalize (update base (field 0 covered (fs_block fs disk blk)));
  na_node : nd = field 0 (Z.to_nat (12 * (header_entries (fs_block fs disk blk) + 1))) (fs_block fs disk blk);
}.

(** The extents below the given entries of a node of depth [d], from left to right. *)
Inductive subtree : list (list Z) → Z → list Extent → Prop :=
  | subtree_nil d : subtree [] d []
  | subtree_leaf e es xs : subtree es 0 xs → subtree (e :: es) 0 (entry_extent e :: xs)
  | subtree_inner e es d nd' d' xs ys :
      d ≠ 0 → node_at (entry_child e) nd' d' → subtree (node_entries nd') d' xs → subtree es d ys →
      subtree (e :: es) d (xs ++ ys).
End trees.

Definition node_wf (nd : list Z) : Prop := ∃ n : nat, Z.of_nat n < 65536 ∧ length nd = (12 * (n + 1))%nat.

Lemma node_entries_lookup nd n j : length nd = (12 * (n + 1))%nat → (j < n)%nat → node_entries nd !! j = Some (field (12 * (j + 1)) 12 nd).
Proof.
  intros Hl Hj. unfold node_entries. rewrite list_lookup_fmap, lookup_seq_lt; [done|]. rewrite Hl, Nat.mul_comm, Nat.div_mul by lia. lia.
Qed.

Lemma length_node_entries nd n : length nd = (12 * (n + 1))%nat → length (node_entries nd) = n.
Proof. intros Hl. unfold node_entries. rewrite length_fmap, length_seq, Hl, Nat.mul_comm, Nat.div_mul by lia. lia. Qed.

(** The entry at index [j + 1] of an item, and the end of the node. *)
Lemma item_entry_Some nd d j e : node_wf nd → node_entries nd !! j = Some e →
  item_entry (mkItem nd (Z.of_nat j + 1) d) = Ok (Some e) ∧ length e = 12%nat.
Proof.
  intros (n & Hn & Hl) He. assert (j < n)%nat as Hj by (rewrite <- (length_node_entries nd n Hl); by eapply lookup_lt_Some).
  rewrite (node_entries_lookup nd n j Hl Hj) in He. injection He as <-. split; [|apply length_field; lia].
  unfold item_entry, ENTRY_SIZE_IN_BYTES. cbn [entry node]. rewrite checked_ok by lia. cbn [unwrap rbind].
  rewrite checked_ok by lia. cbn [unwrap rbind]. rewrite get_range_ok by (unfold zlen; lia). do 3 f_equal; lia.
Qed.

Lemma item_entry_None nd d j : node_wf nd → (length (node_entries nd) ≤ j)%nat → Z.of_nat j < 65537 → item_entry (mkItem nd (Z.of_nat j + 1) d) = Ok None.
Proof.
  intros (n & Hn & Hl). rewrite (length_node_entries nd n Hl). intros Hj Hj'.
  unfold item_entry, ENTRY_SIZE_IN_BYTES. cbn [entry node]. rewrite checked_ok by lia. cbn [unwrap rbind].
  rewrite checked_ok by lia. cbn [unwrap rbind]. unfold get_range. rewrite bool_decide_eq_false_2; [done|]. unfold zlen. lia.
Qed.

Lemma extent_of_entry_eq e : length e = 12%nat → extent_of_entry e = Ok (entry_extent e).
Proof.
  intros He. unfold extent_of_entry, read_u32le, read_u16le. rewrite !read_le_ok by (unfold zlen; lia). done.
Qed.

Lemma le_dec_field_bound off (n : nat) l : bytes_ok l → 0 ≤ le_dec (field off n l) < 2 ^ (Z.of_nat n * 8).
Proof.
  intros Hl. pose proof (le_dec_bound (field off n l) (field_bytes_ok off n l Hl)) as Hb. split; [lia|].
  eapply Z.lt_le_trans; [apply Hb|]. apply Z.pow_le_mono_r; [lia|]. unfold zlen, field. rewrite length_take. lia.
Qed.

Lemma header_ok data inode : bytes_ok data → 12 ≤ zlen data < 2 ^ 64 → le_dec (field 0 2 data) = 0xf30a → header_depth data ≤ 5 →
  header_from_bytes data inode = Ok (mkHeader (header_entries data) (header_max data) (header_depth data)).
Proof.
  intros Hb Hl Hm Hd. unfold header_from_bytes, ENTRY_SIZE_IN_BYTES, read_u16le. rewrite (proj2 (Z.ltb_ge _ _)) by lia.
  rewrite !read_le_ok by lia. cbn [rbind]. change (le_dec (field (Z.to_nat 0) (Z.to_nat 2) data)) with (le_dec (field 0 2 data)). rewrite Hm. cbn. unfold header_depth in Hd.
  by rewrite (proj2 (Z.ltb_ge _ _)) by exact Hd.
Qed.

Lemma size_ok n : 0 ≤ n < 65536 → add_one_mul_entry_size n = Ok (12 * (n + 1)).
Proof.
  intros Hn. unfold add_one_mul_entry_size, ENTRY_SIZE_IN_BYTES. rewrite checked_ok by lia. cbn [unwrap rbind]. rewrite checked_ok by lia. cbn. f_equal. lia.
Qed.

Lemma drop_S' {A} (l : list A) j x r : drop j l = x :: r → l !! j = Some x ∧ drop (S j) l = r.
Proof.
  intros Hd. assert (l !! j = Some x) as Hx by (rewrite <- (Nat.add_0_r j), <- lookup_drop, Hd; done). split; [done|].
  erewrite drop_S in Hd by done. by injection Hd.
Qed.

Section traversal.
Context `{Crc} {S : Type} `{BlockReaderLaws S fs disk good} (good_disk : disk_ok fs disk) (bytes : bytes_ok disk).

Lemma fs_block_bytes b : bytes_ok (fs_block fs disk b).
Proof using bytes. apply field_bytes_ok, bytes. Qed.

Lemma header_field (raw : list Z) (n : nat) o k : (o + k ≤ n)%nat → field o k (field 0 n raw) = field o k raw.
Proof. intros Hn. by rewrite field_field. Qed.

(** The header of a node in a block, read from any part of the block that has it. *)
Lemma header_of_block inode base blk nd d n : node_at fs disk base blk nd d → 12 ≤ n ≤ block_size (superblock fs) →
  header_from_bytes (field 0 (Z.to_nat n) (fs_block fs disk blk)) inode =
    Ok (mkHeader (header_entries (fs_block fs disk blk)) (header_max (fs_block fs disk blk)) d).
Proof using All.
  intros [Hblk Hm [Hd Hd5] _ _ _ _] Hn. pose proof (length_fs_block good_disk _ Hblk) as Hlen. pose proof (dk_bsize _ _ good_disk) as Hbs.
  rewrite header_ok; [|apply field_bytes_ok, fs_block_bytes|..]; unfold header_entries, header_max, header_depth in *; rewrite ?header_field by lia; try done.
  - by rewrite Hd.
  - unfold zlen. rewrite length_field; lia.
  - lia.
Qed.

(** A node in a block is read. *)
Lemma read_child_ok inode base e nd d : node_at fs disk base (entry_child e) nd d → length e = 12%nat →
  yields good (read_child fs inode base e) (Ok (mkItem nd 0 d)) ∧ node_wf nd.
Proof using All.
  intros Hat He. pose proof Hat as [Hblk _ _ Hr Hs Hsum Hn]. pose proof (λ n, header_of_block inode base _ nd d n Hat) as Hh.
  set (raw := fs_block fs disk (entry_child e)) in *. pose proof (fs_block_bytes (entry_child e)) as Hraw. fold raw in Hraw.
  pose proof (length_fs_block good_disk _ Hblk) as Hlen. fold raw in Hlen. pose proof (dk_bsize _ _ good_disk) as Hbs.
  assert (0 ≤ header_entries raw < 65536) as Hen by (apply (le_dec_field_bound 2 2 raw Hraw)).
  assert (0 ≤ header_max raw < 65536) as Hma by (apply (le_dec_field_bound 4 2 raw Hraw)).
  set (size := 12 * (header_max raw + 1)) in *. set (cs := if has_metadata_checksums fs then 4 else 0) in *.
  assert (0 ≤ cs ≤ 4) as Hcs by (subst cs; destruct (has_metadata_checksums fs); lia).
  split; [|exists (Z.to_nat (header_entries raw)); split; [lia|]; rewrite Hn, length_field; lia].
  unfold read_child, read_u32le, read_u16le. eapply yields_bind; [rewrite read_le_ok by (unfold zlen; lia); apply yields_lift|]. cbv beta.
  eapply yields_bind; [rewrite read_le_ok by (unfold zlen; lia); apply yields_lift|]. cbv beta zeta.
  change (u64_from_hilo _ _) with (entry_child e).
  eapply yields_bind; [apply (block_read_ok good_disk); [done|unfold ENTRY_SIZE_IN_BYTES; lia..]|]. cbv beta. fold raw.
  change (field (Z.to_nat 0) (Z.to_nat ENTRY_SIZE_IN_BYTES) raw) with (field 0 (Z.to_nat 12) raw).
  eapply yields_bind; [rewrite (Hh 12) by lia; apply yields_lift|]. cbv beta.
  eapply yields_bind; [unfold checksum_offset; cbn [max_entries]; rewrite size_ok by lia; apply yields_lift|]. cbv beta zeta. fold size cs.
  eapply yields_bind; [rewrite checked_ok by lia; apply yields_lift|]. cbv beta. rewrite (proj2 (Z.ltb_ge _ _)) by lia.
  eapply yields_bind; [apply (block_read_ok good_disk); [done|lia..]|]. cbv beta. fold raw. change (Z.to_nat 0) with 0%nat.
  eapply yields_bind.
  { instantiate (1 := tt). destruct (has_metadata_checksums fs) eqn:Hc; [|apply yields_lift]. subst cs.
    rewrite read_le_ok by (unfold zlen; rewrite ?length_field; lia). cbn [rbind].
    rewrite slice_ok by (unfold zlen; rewrite ?length_field; lia). cbn [rbind]. change (Z.to_nat 0) with 0%nat. rewrite !header_field by lia.
    rewrite Z.sub_0_r. change (Z.to_nat 4) with 4%nat. rewrite (Hsum eq_refl), Z.eqb_refl. apply yields_lift. }
  cbv beta. unfold item_new. rewrite Hh by lia. cbn [rbind]. unfold node_size_in_bytes. cbn [num_entries]. rewrite size_ok by lia. cbn [rbind nh_depth].
  rewrite (proj2 (Z.ltb_ge _ _)) by (unfold zlen; rewrite length_field; lia).
  replace (take _ _) with nd; [apply yields_lift|]. rewrite Hn. unfold field. rewrite take_take, drop_0. f_equal. lia.
Qed.

(** The states of the iterator: the stack. *)
Definition visiting (inode : Z) (base : Digest) (stack : list ToVisitItem) : Extents := mkExtents inode stack base false.

Lemma step_end inode base nd d j rest : node_wf nd → (length (node_entries nd) ≤ j)%nat → Z.of_nat j < 65537 →
  run_to good (extents_next_impl fs) (visiting inode base (mkItem nd (Z.of_nat j) d :: rest)) (Ok None) (visiting inode base rest).
Proof using All.
  intros Hw Hj Hj'. apply run_get. cbn [visiting to_visit entry node depth]. eapply run_lift; [by rewrite checked_ok by lia|].
  apply run_put. eapply run_lift; [by apply item_entry_None|]. apply run_put, run_ok.
Qed.

Lemma step_leaf inode base nd j e rest : node_wf nd → node_entries nd !! j = Some e → Z.of_nat j < 65537 →
  run_to good (extents_next_impl fs) (visiting inode base (mkItem nd (Z.of_nat j) 0 :: rest)) (Ok (Some (entry_extent e)))
    (visiting inode base (mkItem nd (Z.of_nat (Datatypes.S j)) 0 :: rest)).
Proof using All.
  intros Hw He Hj. apply run_get. cbn [visiting to_visit entry node depth]. eapply run_lift; [by rewrite checked_ok by lia|].
  apply run_put. destruct (item_entry_Some nd 0 j e Hw He) as [Ei Hl]. eapply run_lift; [exact Ei|]. cbn [Z.eqb].
  eapply run_lift; [by apply extent_of_entry_eq|]. rewrite Nat2Z.inj_succ. apply run_ok.
Qed.

Lemma step_child inode base nd d j e rest nd' d' : node_wf nd → node_entries nd !! j = Some e → Z.of_nat j < 65537 → d ≠ 0 →
  node_at fs disk base (entry_child e) nd' d' →
  run_to good (extents_next_impl fs) (visiting inode base (mkItem nd (Z.of_nat j) d :: rest)) (Ok None)
    (visiting inode base (mkItem nd' 0 d' :: mkItem nd (Z.of_nat (Datatypes.S j)) d :: rest)) ∧ node_wf nd'.
Proof using All.
  intros Hw He Hj Hd Hat. destruct (item_entry_Some nd d j e Hw He) as [Ei Hl]. destruct (read_child_ok inode base e nd' d' Hat Hl) as [Hc Hw'].
  split; [|done]. apply run_get. cbn [visiting to_visit entry node depth]. eapply run_lift; [by rewrite checked_ok by lia|].
  apply run_put. eapply run_lift; [exact Ei|]. rewrite (proj2 (Z.eqb_neq _ _) Hd). eapply run_fs; [exact Hc|].
  apply run_put. rewrite Nat2Z.inj_succ. apply run_ok.
Qed.

Lemma wf_entries nd : node_wf nd → Z.of_nat (length (node_entries nd)) < 65536.
Proof. intros (n & Hn & Hl). by rewrite (length_node_entries nd n Hl). Qed.

Lemma subtree_emits inode base es d xs : subtree fs disk base es d xs → ∀ nd j rest, node_wf nd → drop j (node_entries nd) = es →
  (j ≤ length (node_entries nd))%nat →
  ∃ n, emits good ex_is_done (extents_next_impl fs) (visiting inode base (mkItem nd (Z.of_nat j) d :: rest)) xs (visiting inode base rest) n.
Proof using All.
  induction 1 as [d|e es xs _ IH|e es d nd' d' xs ys Hd Hat _ IHx _ IHy]; intros nd j rest Hw Hj Hle; pose proof (wf_entries nd Hw).
  - exists 1%nat. eapply emits_none; [done|apply step_end; [done| |lia]|constructor].
    pose proof (f_equal length Hj) as Hl. rewrite length_drop in Hl. cbn [length] in Hl. lia.
  - apply drop_S' in Hj as [He Hes]. destruct (IH nd (Datatypes.S j) rest Hw Hes) as (n & Hn); [by apply lookup_lt_Some in He|].
    exists (Datatypes.S n). eapply emits_some; [done|apply step_leaf; [done..|lia]|exact Hn].
  - apply drop_S' in Hj as [He Hes]. destruct (step_child inode base nd d j e rest nd' d' Hw He ltac:(lia) Hd Hat) as [Hstep Hw'].
    destruct (IHx nd' 0%nat (mkItem nd (Z.of_nat (Datatypes.S j)) d :: rest) Hw' eq_refl ltac:(lia)) as (n & Hn).
    destruct (IHy nd (Datatypes.S j) rest Hw Hes) as (m & Hm); [by apply lookup_lt_Some in He|].
    exists (Datatypes.S (n + m)). eapply emits_none; [done|exact Hstep|]. by eapply emits_app.
Qed.

(** A node that is its own first child. *)
Lemma cycle_next_impl inode base blk nd d e rest : node_at fs disk base blk nd d → node_wf nd → d ≠ 0 →
  node_entries nd !! 0%nat = Some e → entry_child e = blk →
  ∃ rest', run_to good (extents_next_impl fs) (visiting inode base (mkItem nd 0 d :: rest)) (Ok None) (visiting inode base (mkItem nd 0 d :: rest')).
Proof using All.
  intros Hat Hw Hd He <-. eexists. by apply (step_child inode base nd d 0 e rest nd d).
Qed.

Lemma cycle_hangs inode base blk nd d e fuel : node_at fs disk base blk nd d → node_wf nd → d ≠ 0 →
  node_entries nd !! 0%nat = Some e → entry_child e = blk →
  ∀ rest s, good s → (extents_next fs fuel (visiting inode base (mkItem nd 0 d :: rest), s)).1 = Hang.
Proof using All.
  intros Hat Hw Hd He Hc. unfold extents_next. induction fuel as [|fuel IH]; intros rest s Hs; [done|].
  destruct (cycle_next_impl inode base blk nd d e rest Hat Hw Hd He Hc) as (rest' & Hr). destruct (Hr s Hs) as (s' & E & Hs').
  cbn [iter_next visiting ex_is_done fst]. fold (visiting inode base (mkItem nd 0 d :: rest)). rewrite E. by apply IH.
Qed.
End traversal.

(** The root node, in the inode. *)
Record root_node (inode_data : list Z) (nd : list Z) (d : Z) : Prop := {
  rn_length : length inode_data = 60%nat;
  rn_bytes : bytes_ok inode_data;
  rn_magic : le_dec (field 0 2 inode_data) = 0xf30a;
  rn_depth : header_depth inode_data = d ∧ d ≤ 5;
  rn_room : header_entries inode_data ≤ 4;
  rn_node : nd = field 0 (Z.to_nat (12 * (header_entries inode_data + 1))) inode_data;
}.

Lemma root_new data nd d inode : root_node data nd d → item_new data inode = Ok (mkItem nd 0 d) ∧ node_wf nd.
Proof.
  intros [Hl Hb Hm [Hd Hd5] Hr Hn]. assert (0 ≤ header_entries data < 65536) as He by (apply (le_dec_field_bound 2 2 data Hb)).
  split; [|exists (Z.to_nat (header_entries data)); split; [lia|]; rewrite Hn, length_field; lia].
  unfold item_new. rewrite header_ok by (unfold zlen; lia || done). cbn [rbind]. unfold node_size_in_bytes. cbn [num_entries]. rewrite size_ok by lia.
  cbn [rbind nh_depth]. rewrite (proj2 (Z.ltb_ge _ _)) by (unfold zlen; lia). rewrite Hd. by rewrite Hn.
Qed.

Definition has_extents `{Crc} (fs : Ext4) (disk : list Z) (inode : Inode) (xs : list Extent) : Prop :=
  ∃ nd d, root_node (inline_data inode) nd d ∧ subtree fs disk (checksum_base inode) (node_entries nd) d xs.

Lemma extents_generate `{Crc} {S} `{BlockReaderLaws S fs disk good} inode xs : disk_ok fs disk → bytes_ok disk → has_extents fs disk inode xs →
  ∃ it N, extents_new inode = Ok it ∧ ∀ fuel, (N ≤ fuel)%nat → generates good (extents_next fs fuel) it xs.
Proof.
  intros Hd Hb (nd & d & Hr & Ht). destruct (root_new _ nd d (index inode) Hr) as [Hnew Hw].
  destruct (subtree_emits Hd Hb (index inode) _ _ _ _ Ht nd 0 [] Hw eq_refl ltac:(lia)) as (n & Hn).
  exists (visiting (index inode) (checksum_base inode) [mkItem nd 0 d]), (Datatypes.S (Datatypes.S n)). split.
  { unfold extents_new. by rewrite Hnew. }
  intros fuel Hf. eapply (emits_generates _ _ _ _ _ _ _ (extents_done (visiting (index inode) (checksum_base inode) []))); [|done|exact Hf].
  replace (Datatypes.S n) with (n + 1)%nat by lia. rewrite <- (app_nil_r xs).
  eapply emits_app; [exact Hn|]. eapply emits_none; [done| |constructor]. apply run_get. cbn. apply run_put, run_ok.
Qed.

(** ** The blocks of a file *)
Definition in_extent (e : Extent) (k : Z) : bool := (ext_block_within_file e <=? k) && (k <? ext_block_within_file e + num_blocks e).

(** The block of the filesystem that holds block [k] of the file, zero in a hole. *)
Fixpoint file_block (xs : list Extent) (k : Z) : Z :=
  match xs with
  | [] => 0
  | e :: xs => if in_extent e k then start_block e + (k - ext_block_within_file e) else file_block xs k
  end.

(** Extents in the order of the file, apart from each other. *)
Fixpoint ordered (p : Z) (xs : list Extent) : Prop :=
  match xs with
  | [] => True
  | e :: xs =>
      p ≤ ext_block_within_file e < 2 ^ 32 ∧ 0 ≤ num_blocks e < 65536 ∧ 0 ≤ start_block e ∧ start_block e + num_blocks e ≤ 2 ^ 64 ∧
      ordered (ext_block_within_file e + num_blocks e) xs
  end.

Lemma file_block_before p xs k : ordered p xs → k < p → file_block xs k = 0.
Proof.
  revert p. induction xs as [|e xs IH]; intros p Ho Hk; [done|]. destruct Ho as (Hb & Hn & _ & _ & Ho). cbn. unfold in_extent.
  rewrite (proj2 (Z.leb_gt _ _)) by lia. cbn. apply (IH _ Ho). lia.
Qed.

Lemma fmap_zero (f : Z → Z) p n : (∀ k, p ≤ k < p + Z.of_nat n → f k = 0) → f <$> seqZ p (Z.of_nat n) = replicate n 0.
Proof.
  intros Hf. apply list_eq_same_length with n; [by rewrite length_replicate|by rewrite length_fmap, length_seqZ, Nat2Z.id|].
  intros i x y Hi. rewrite list_lookup_fmap, lookup_replicate_2 by done. rewrite lookup_seqZ_lt by lia. cbn. intros [= <-] [= <-]. apply Hf. lia.
Qed.

Lemma fmap_run (f : Z → Z) p n c : (∀ k, p ≤ k < p + n → f k = c + (k - p)) → f <$> seqZ p n = seqZ c n.
Proof.
  intros Hf. apply list_eq. intros i. rewrite list_lookup_fmap. destruct (decide (Z.of_nat i < n)) as [Hi|Hi].
  - rewrite !lookup_seqZ_lt by lia. cbn. f_equal. rewrite Hf by lia. lia.
  - by rewrite !lookup_seqZ_ge by lia.
Qed.

Section blocks.
Context `{Crc} {S : Type} `{BlockReader S} (good : S → Prop) (fs : Ext4) (fuel : nat) (N ino : Z) (HN : 0 ≤ N < 2 ^ 32).

Definition at_block (x : Extents) (e : option Extent) (k hole p : Z) : ExtentsBlocks := mkEb x e k hole p N false ino.

Abbreviation emits_blocks := (emits good eb_is_done (extents_blocks_next_impl fs fuel)).

Lemma emit_done x e k h p : N ≤ p → emits_blocks (at_block x e k h p) [] (eb_done (at_block x e k h p)) 1.
Proof using.
  intros Hp. eapply emits_none; [done| |constructor]. apply run_get. cbn [at_block num_blocks_total block_within_file].
  rewrite (proj2 (Z.leb_le _ _)) by lia. apply run_put, run_ok.
Qed.

Lemma emit_hole x e k h p (m : nat) : 0 ≤ p → Z.of_nat m ≤ h < 2 ^ 32 → p + Z.of_nat m ≤ N →
  emits_blocks (at_block x e k h p) (replicate m 0) (at_block x e k (h - Z.of_nat m) (p + Z.of_nat m)) m.
Proof using HN.
  revert h p. induction m as [|m IH]; intros h p Hp Hm Hpm. { replace (h - Z.of_nat 0) with h by lia. rewrite Z.add_0_r. constructor. }
  eapply emits_some; [done| |].
  - apply run_get. cbn [at_block num_blocks_total block_within_file blocks_remaining_in_hole]. rewrite (proj2 (Z.leb_gt _ _)), (proj2 (Z.ltb_lt _ _)) by lia.
    eapply run_lift; [by rewrite checked_ok by lia|]. apply run_put. eapply run_lift; [by rewrite checked_ok by lia|]. apply run_put, run_ok.
  - replace (h - Z.of_nat (Datatypes.S m)) with ((h - 1) - Z.of_nat m) by lia. replace (p + Z.of_nat (Datatypes.S m)) with (p + 1 + Z.of_nat m) by lia.
    apply (IH (h - 1) (p + 1)); lia.
Qed.

Lemma emit_extent x e k p (m : nat) : 0 ≤ p → 0 ≤ k → k + Z.of_nat m ≤ num_blocks e < 65536 → 0 ≤ start_block e → start_block e + num_blocks e ≤ 2 ^ 64 →
  p + Z.of_nat m ≤ N →
  emits_blocks (at_block x (Some e) k 0 p) (seqZ (start_block e + k) (Z.of_nat m)) (at_block x (Some e) (k + Z.of_nat m) 0 (p + Z.of_nat m)) m.
Proof using HN.
  revert k p. induction m as [|m IH]; intros k p Hp Hk Hm Hst Hs Hpm. { rewrite !Z.add_0_r. constructor. }
  rewrite seqZ_cons by lia. eapply emits_some; [done| |].
  - apply run_get. cbn [at_block num_blocks_total block_within_file blocks_remaining_in_hole extent]. rewrite (proj2 (Z.leb_gt _ _)) by lia. cbn [Z.ltb Z.compare].
    apply run_get. cbn [at_block block_within_extent blocks_remaining_in_hole block_within_file]. rewrite (proj2 (Z.eqb_neq _ _)) by lia.
    eapply run_lift; [by rewrite checked_ok by lia|]. eapply run_lift; [by rewrite checked_ok by lia|]. apply run_put.
    eapply run_lift; [by rewrite checked_ok by lia|]. apply run_put, run_ok.
  - replace (k + Z.of_nat (Datatypes.S m)) with (k + 1 + Z.of_nat m) by lia. replace (p + Z.of_nat (Datatypes.S m)) with (p + 1 + Z.of_nat m) by lia.
    replace (Z.succ (start_block e + k)) with (start_block e + (k + 1)) by lia. replace (Z.pred (Z.of_nat (Datatypes.S m))) with (Z.of_nat m) by lia.
    apply (IH (k + 1) (p + 1)); lia.
Qed.

(** What follows the start of an extent. *)
Lemma emit_from_extent x e xs c : ordered (ext_block_within_file e) (e :: xs) → 0 ≤ ext_block_within_file e →
  (∀ k, ∃ b n, emits_blocks (at_block x None k 0 (ext_block_within_file e + num_blocks e)) (file_block xs <$> seqZ (ext_block_within_file e + num_blocks e) (N - (ext_block_within_file e + num_blocks e))) b n ∧ eb_is_done b = true ∧
     (n ≤ Z.to_nat (N - (ext_block_within_file e + num_blocks e)) + c)%nat) →
  ext_block_within_file e < N →
  ∃ b n, emits_blocks (at_block x (Some e) 0 0 (ext_block_within_file e)) (file_block (e :: xs) <$> seqZ (ext_block_within_file e) (N - ext_block_within_file e)) b (Datatypes.S n) ∧ eb_is_done b = true ∧
    (n ≤ Z.to_nat (N - ext_block_within_file e) + c)%nat.
Proof using HN.
  intros (_ & Hn & Hs & Hs' & Ho) Hq Hrest Hlt. set (q := ext_block_within_file e) in *.
  assert (∀ m, 0 ≤ m ≤ num_blocks e → file_block (e :: xs) <$> seqZ q m = seqZ (start_block e + 0) m) as Hrun.
  { intros m Hm. apply fmap_run. intros k Hk. cbn. unfold in_extent. fold q. rewrite (proj2 (Z.leb_le _ _)), (proj2 (Z.ltb_lt _ _)) by lia. cbn. lia. }
  destruct (decide (N ≤ q + num_blocks e)) as [HN'|HN'].
  - exists (eb_done (at_block x (Some e) (0 + Z.of_nat (Z.to_nat (N - q))) 0 (q + Z.of_nat (Z.to_nat (N - q))))), (Z.to_nat (N - q)). split; [|split; [done|lia]].
    rewrite Hrun by lia. rewrite <- (app_nil_r (seqZ _ _)). replace (Datatypes.S _) with (Z.to_nat (N - q) + 1)%nat by lia.
    replace (seqZ (start_block e + 0) (N - q)) with (seqZ (start_block e + 0) (Z.of_nat (Z.to_nat (N - q)))) by (f_equal; lia).
    eapply emits_app; [apply emit_extent; lia|apply emit_done; lia].
  - destruct (Hrest (num_blocks e)) as (b & n & Hb & Hd & Hle). exists b, (Z.to_nat (num_blocks e) + n)%nat. split; [|split; [done|lia]].
    replace (N - q) with (num_blocks e + (N - (q + num_blocks e))) by lia. rewrite seqZ_app, fmap_app, Hrun by lia.
    replace (Datatypes.S _) with (Z.to_nat (num_blocks e) + Datatypes.S n)%nat by lia.
    replace (seqZ (start_block e + 0) (num_blocks e)) with (seqZ (start_block e + 0) (Z.of_nat (Z.to_nat (num_blocks e)))) by (f_equal; lia).
    eapply emits_app; [apply emit_extent; lia|]. rewrite Z2Nat.id by lia. eapply emits_none; [done| |].
    + apply run_get. cbn [at_block num_blocks_total block_within_file blocks_remaining_in_hole extent]. rewrite (proj2 (Z.leb_gt _ _)) by lia. cbn [Z.ltb Z.compare].
      apply run_get. cbn [at_block block_within_extent blocks_remaining_in_hole block_within_file]. rewrite Z.add_0_l, Z.eqb_refl. apply run_put, run_ok.
    + unfold set_extent. cbn [extents block_within_file num_blocks_total eb_is_done eb_inode]. fold (at_block x None (num_blocks e) 0 (q + num_blocks e)).
      erewrite list_fmap_ext; [exact Hb|]. intros i k Hk. apply lookup_seqZ in Hk as [-> Hi]. cbn. unfold in_extent. fold q.
      rewrite (proj2 (Z.ltb_ge _ (q + num_blocks e))) by lia. by rewrite andb_false_r.
Qed.

(** The first step from a state in which the next extent has to be fetched. *)
Lemma fetch_extent x x' e k p r t : 0 ≤ p < N → p ≤ ext_block_within_file e < 2 ^ 32 →
  run_to good (extents_next fs fuel) x (Ok (Some e)) x' →
  (if ext_block_within_file e =? p then run_to good (next_in_extent e) (at_block x' (Some e) 0 0 p) r t
   else r = Ok None ∧ t = at_block x' (Some e) 0 (ext_block_within_file e - p) p) →
  run_to good (extents_blocks_next_impl fs fuel) (at_block x None k 0 p) r t.
Proof using.
  intros Hp He Hx Hr. apply run_get. cbn [at_block num_blocks_total block_within_file blocks_remaining_in_hole extent]. rewrite (proj2 (Z.leb_gt _ _)) by lia.
  cbn [Z.ltb Z.compare]. eapply run_sub; [exact Hx|]. apply run_get. cbn [set_extents at_block block_within_file blocks_remaining_in_hole].
  destruct (Z.eqb_spec (ext_block_within_file e) p) as [Heq|Hne].
  - rewrite (proj2 (Z.ltb_ge _ _)) by lia. eapply (run_lift good (Ok 0)); [done|]. apply run_put. exact Hr.
  - destruct Hr as [-> ->]. rewrite (proj2 (Z.ltb_lt _ _)) by lia. eapply run_lift; [by rewrite checked_ok by lia|]. apply run_put.
    rewrite (proj2 (Z.ltb_lt _ _)) by lia. apply run_ok.
Qed.

Lemma fetch_none x x' k p : 0 ≤ p < N → run_to good (extents_next fs fuel) x (Ok None) x' →
  run_to good (extents_blocks_next_impl fs fuel) (at_block x None k 0 p) (Ok None) (at_block x' None k (N - p) p).
Proof using HN.
  intros Hp Hx. apply run_get. cbn [at_block num_blocks_total block_within_file blocks_remaining_in_hole extent]. rewrite (proj2 (Z.leb_gt _ _)) by lia.
  cbn [Z.ltb Z.compare]. eapply run_sub; [exact Hx|]. apply run_get. cbn [set_extents at_block num_blocks_total block_within_file].
  eapply run_lift; [by rewrite checked_ok by lia|]. rewrite (proj2 (Z.ltb_lt _ _)) by lia. apply run_put, run_ok.
Qed.

(** An extent that starts at the current position. *)
Lemma fetch_here x x' e k l b n : 0 ≤ ext_block_within_file e < N → ext_block_within_file e < 2 ^ 32 →
  run_to good (extents_next fs fuel) x (Ok (Some e)) x' →
  emits_blocks (at_block x' (Some e) 0 0 (ext_block_within_file e)) l b (Datatypes.S n) →
  emits_blocks (at_block x None k 0 (ext_block_within_file e)) l b (Datatypes.S n).
Proof using.
  intros Hp He Hx Hem.
  assert (∀ r t, run_to good (extents_blocks_next_impl fs fuel) (at_block x' (Some e) 0 0 (ext_block_within_file e)) r t →
    run_to good (extents_blocks_next_impl fs fuel) (at_block x None k 0 (ext_block_within_file e)) r t) as Hstep.
  { intros r t Hr. apply (fetch_extent x x' e); [lia..|done|]. rewrite Z.eqb_refl. intros s Hs. destruct (Hr s Hs) as (s' & E & Hs'). exists s'.
    split; [|done]. rewrite <- E. unfold extents_blocks_next_impl, it_get, mbindM. cbn [fst at_block num_blocks_total block_within_file].
    by rewrite (proj2 (Z.leb_gt _ _)) by lia. }
  inversion Hem as [|? t1 ? ? ? Hd Hr He'|? a t1 ? ? ? Hd Hr He']; subst.
  - eapply emits_none; [done|by apply Hstep|done].
  - eapply emits_some; [done|by apply Hstep|done].
Qed.

Lemma blocks_emit xs x k p : generates good (extents_next fs fuel) x xs → ordered p xs → 0 ≤ p →
  ∃ b n, emits_blocks (at_block x None k 0 p) (file_block xs <$> seqZ p (N - p)) b n ∧ eb_is_done b = true ∧
    (n ≤ Z.to_nat (N - p) + 2 * length xs + 2)%nat.
Proof using HN.
  revert x k p. induction xs as [|e xs IH]; intros x k p Hg Ho Hp.
  all: destruct (decide (N ≤ p)) as [HNp|HNp].
  1, 3: exists (eb_done (at_block x None k 0 p)), 1%nat; split; [|split; [done|lia]]; rewrite seqZ_nil by lia; apply emit_done; lia.
  - destruct Hg as (x' & Hx). pose (m := Z.to_nat (N - p)). exists (eb_done (at_block x' None k (N - p - Z.of_nat m) (p + Z.of_nat m))), (Datatypes.S (m + 1)).
    split; [|split; [done|lia]]. replace (N - p) with (Z.of_nat m) at 1 by lia. rewrite fmap_zero by done. rewrite <- (app_nil_r (replicate _ _)).
    eapply emits_none; [done|apply fetch_none; [lia|done]|]. eapply emits_app; [apply emit_hole; lia|apply emit_done; lia].
  - destruct Hg as (x' & Hx & Hg). pose proof Ho as (Hb & Hn & Hs & Hs' & Ho'). set (q := ext_block_within_file e) in *.
    assert (ordered q (e :: xs)) as Hoq by (repeat split; fold q; lia || done).
    assert (∀ m, p + Z.of_nat m ≤ q → file_block (e :: xs) <$> seqZ p (Z.of_nat m) = replicate m 0) as Hzero.
    { intros m Hm. apply fmap_zero. intros i Hi. apply (file_block_before q); [done|lia]. }
    assert (q < N → ∃ b n, emits_blocks (at_block x' (Some e) 0 0 q) (file_block (e :: xs) <$> seqZ q (N - q)) b (Datatypes.S n) ∧ eb_is_done b = true ∧
      (n ≤ Z.to_nat (N - q) + (2 * length xs + 2))%nat) as Hext.
    { intros Hq. apply emit_from_extent; [done|lia| |done]. intros k'.
      destruct (IH x' k' (q + num_blocks e)) as (b & n & ? & ? & ?); [done..|lia|]. exists b, n. repeat split; [done..|lia]. }
    destruct (decide (p = q)) as [->|Hne].
    { destruct Hext as (b & n & He & Hd & Hle); [lia|]. exists b, (Datatypes.S n). split; [|split; [done|cbn [length]; lia]]. by apply (fetch_here x x' e); [fold q; lia..|done|]. }
    assert (run_to good (extents_blocks_next_impl fs fuel) (at_block x None k 0 p) (Ok None) (at_block x' (Some e) 0 (q - p) p)) as Hf.
    { apply (fetch_extent x x' e); [lia..|done|]. fold q. by rewrite (proj2 (Z.eqb_neq q p)) by lia. }
    destruct (decide (N ≤ q)) as [HNq|HNq].
    + pose (m := Z.to_nat (N - p)). exists (eb_done (at_block x' (Some e) 0 (q - p - Z.of_nat m) (p + Z.of_nat m))), (Datatypes.S (m + 1)). split; [|split; [done|lia]].
      replace (N - p) with (Z.of_nat m) by lia. rewrite Hzero by lia. rewrite <- (app_nil_r (replicate _ _)).
      eapply emits_none; [done|exact Hf|]. eapply emits_app; [apply emit_hole; lia|apply emit_done; lia].
    + destruct Hext as (b & n & He & Hd & Hle); [lia|]. pose (m := Z.to_nat (q - p)). exists b, (Datatypes.S (m + Datatypes.S n)). split; [|split; [done|cbn [length]; lia]].
      replace (N - p) with (Z.of_nat m + (N - q)) by lia. rewrite seqZ_app, fmap_app, Hzero by lia. eapply emits_none; [done|exact Hf|].
      eapply emits_app; [apply emit_hole; lia|]. replace (q - p - Z.of_nat m) with 0 by lia. by replace (p + Z.of_nat m) with q by lia.
Qed.
End blocks.

Lemma extents_blocks_generate `{Crc} {S} `{BlockReaderLaws S fs disk good} inode xs : disk_ok fs disk → bytes_ok disk → has_extents fs disk inode xs →
  ordered 0 xs → 0 ≤ file_size_in_blocks inode < 2 ^ 32 →
  ∃ it N, extents_blocks_new inode = Ok it ∧
    ∀ fuel, (N ≤ fuel)%nat → generates good (extents_blocks_next fs fuel) it (file_block xs <$> seqZ 0 (file_size_in_blocks inode)).
Proof.
  intros Hd Hb Hx Ho HN. destruct (extents_generate inode xs Hd Hb Hx) as (x & n & Hnew & Hg).
  exists (at_block (file_size_in_blocks inode) (index inode) x None 0 0 0), (n + Z.to_nat (file_size_in_blocks inode) + 2 * length xs + 3)%nat.
  split; [unfold extents_blocks_new; by rewrite Hnew|]. intros fuel Hf.
  destruct (blocks_emit good fs fuel _ (index inode) HN xs x 0 0 (Hg fuel ltac:(lia)) Ho ltac:(lia)) as (b & m & He & Hdone & Hm).
  rewrite Z.sub_0_r in He, Hm. eapply emits_generates; [exact He|done|lia].
Qed.

(** C36: an extent tree with a cycle. The depth of a node is only compared with five, not with the depth of its parent. A
    node that is its own first child, with valid header and checksum, makes the search for the first extent go on for
    ever: no number of steps is enough, and the stack of nodes grows with each of them. *)
Theorem extent_cycle_never_ends `{Crc} {S} `{BlockReaderLaws S fs disk good} inode nd0 d0 e0 nd d e : disk_ok fs disk → bytes_ok disk →
  root_node (inline_data inode) nd0 d0 → d0 ≠ 0 → node_entries nd0 !! 0%nat = Some e0 →
  node_at fs disk (checksum_base inode) (entry_child e0) nd d → d ≠ 0 → node_entries nd !! 0%nat = Some e → entry_child e = entry_child e0 →
  ∃ it, extents_new inode = Ok it ∧ ∀ fuel s, good s → (extents_next fs fuel (it, s)).1 = Hang.
Proof.
  intros Hd Hb Hroot Hd0 He0 Hat Hdn He Hc. destruct (root_new _ nd0 d0 (index inode) Hroot) as [Hnew Hw].
  exists (visiting (index inode) (checksum_base inode) [mkItem nd0 0 d0]). split; [unfold extents_new; by rewrite Hnew|].
  destruct (step_child Hd Hb (index inode) _ nd0 d0 0 e0 [] nd d Hw He0 ltac:(lia) Hd0 Hat) as [Hstep Hw'].
  intros [|fuel] s Hs; [done|]. destruct (Hstep s Hs) as (s' & E & Hs'). unfold extents_next. cbn [iter_next visiting ex_is_done fst].
  fold (visiting (index inode) (checksum_base inode) [mkItem nd0 0 d0]). change (Z.of_nat 0) with 0 in E. rewrite E.
  exact (cycle_hangs Hd Hb (index inode) _ (entry_child e0) nd d e fuel Hat Hw' Hdn He Hc _ s' Hs').
Qed.

Lemma extent_cycle_never_ends_witness :
  let node := le_bytes 2 0xf30a ++ le_bytes 2 1 ++ le_bytes 2 4 ++ le_bytes 2 1 ++ zeros 4 ++ le_bytes 4 0 ++ le_bytes 4 1 ++ zeros 4 in
  let disk := zeros 1024 ++ node ++ zeros 1000 in
  let fs := mkExt4 (demo_sb 1024 2) [] ∅ in
  let inode := mkInode (H := crc32c) 12 (node ++ zeros 36) (mkMeta 1 0x8000 Regular 0 0) EXTENTS (Z.ones 32 : @Digest crc32c) 1 in
  ∃ it, extents_new inode = Ok it ∧
    ∀ fuel s, @cache_ok vec_reader vec_reader_laws fs disk s → (extents_next fs fuel (it, s)).1 = Hang.
Proof.
  intros node disk fs inode.
  assert (disk_ok fs disk) as Hd by (split; [vm_compute; done..|apply map_Forall_empty]).
  apply (extent_cycle_never_ends (S := @FsState vec_reader) (H1 := cached_reader_laws (H0 := vec_reader_laws) fs disk Hd) inode node 1 (field 12 12 node) node 1 (field 12 12 node)).
  - exact Hd.
  - apply bytes_ok_forallb. vm_compute. reflexivity.
  - split; try done; [apply bytes_ok_forallb; by vm_compute|by vm_compute..].
  - lia.
  - reflexivity.
  - split; vm_compute; intuition congruence.
  - lia.
  - reflexivity.
  - reflexivity.
Defined.
