(* ===== verification/Ext4BlockMap.v ===== *)
(** The block map of a file without extents in [ext4-view-rs] ([iters/file_blocks/block_map.rs]), and the iterator over
    the blocks of any file ([iters/file_blocks.rs]). *)
From S2P Require Import Prelude Ext4Base Ext4Cache Ext4Inode Ext4Extents.

(** ** The iterators of the deeper levels *)
Record IndirectBlockIter := mkInd { ind_block : list Z; index_within_block : Z }.

Definition indirect_next (it : IndirectBlockIter) : XR (option Z * IndirectBlockIter) :=
  if zlen (ind_block it) <=? index_within_block it then Ok (None, it) else
  let? block_index := read_u32le (ind_block it) (index_within_block it) in
  let? i := unwrap (checked 64 (index_within_block it + 4)) in
  Ok (Some block_index, mkInd (ind_block it) i).

Record DoubleIndirectBlockIter := mkDouble { d_indirect_0 : IndirectBlockIter; d_indirect_1 : option IndirectBlockIter; d_is_done : bool }.
Definition double_done (it : DoubleIndirectBlockIter) : DoubleIndirectBlockIter := mkDouble (d_indirect_0 it) (d_indirect_1 it) true.

Record TripleIndirectBlockIter := mkTriple { t_indirect_0 : IndirectBlockIter; t_indirect_1 : option DoubleIndirectBlockIter; t_is_done : bool }.
Definition triple_done (it : TripleIndirectBlockIter) : TripleIndirectBlockIter := mkTriple (t_indirect_0 it) (t_indirect_1 it) true.

Record BlockMap := mkBlockMap {
  level_0 : list Z; level_0_index : Z; num_blocks_yielded : Z; bm_num_blocks_total : Z;
  level_1 : option IndirectBlockIter; level_2 : option DoubleIndirectBlockIter; level_3 : option TripleIndirectBlockIter; bm_is_done : bool;
}.
Definition set_level_0_index (i : Z) (b : BlockMap) : BlockMap :=
  mkBlockMap (level_0 b) i (num_blocks_yielded b) (bm_num_blocks_total b) (level_1 b) (level_2 b) (level_3 b) (bm_is_done b).
Definition set_yielded (n : Z) (b : BlockMap) : BlockMap :=
  mkBlockMap (level_0 b) (level_0_index b) n (bm_num_blocks_total b) (level_1 b) (level_2 b) (level_3 b) (bm_is_done b).
Definition set_level_1 (l : option IndirectBlockIter) (b : BlockMap) : BlockMap :=
  mkBlockMap (level_0 b) (level_0_index b) (num_blocks_yielded b) (bm_num_blocks_total b) l (level_2 b) (level_3 b) (bm_is_done b).
Definition set_level_2 (l : option DoubleIndirectBlockIter) (b : BlockMap) : BlockMap :=
  mkBlockMap (level_0 b) (level_0_index b) (num_blocks_yielded b) (bm_num_blocks_total b) (level_1 b) l (level_3 b) (bm_is_done b).
Definition set_level_3 (l : option TripleIndirectBlockIter) (b : BlockMap) : BlockMap :=
  mkBlockMap (level_0 b) (level_0_index b) (num_blocks_yielded b) (bm_num_blocks_total b) (level_1 b) (level_2 b) l (bm_is_done b).
Definition bm_done (b : BlockMap) : BlockMap :=
  mkBlockMap (level_0 b) (level_0_index b) (num_blocks_yielded b) (bm_num_blocks_total b) (level_1 b) (level_2 b) (level_3 b) true.

(** The loop of [BlockMap::new] over [level_0]. *)
Fixpoint read_level_0 (inline : list Z) (i : Z) (n : nat) : XR (list Z) :=
  match n with
  | O => Ok []
  | Datatypes.S n =>
      let? src_offset := unwrap (checked 64 (i * 4)) in
      let? dst := read_u32le inline src_offset in
      let? rest := read_level_0 inline (i + 1) n in Ok (dst :: rest)
  end.

Section block_map.
Context `{Crc}.

Definition block_map_new (inode : Inode) : XR BlockMap :=
  let? l := read_level_0 (inline_data inode) 0 15 in Ok (mkBlockMap l 0 0 (file_size_in_blocks inode) None None None false).

Context {S : Type} `{BlockReader S}.

Definition indirect_new (fs : Ext4) (block_index : Z) : M S Ext4Error IndirectBlockIter :=
  let! block := block_read fs block_index 0 (block_size (superblock fs)) in mok (mkInd block 0).

Definition double_new (fs : Ext4) (block_index : Z) : M S Ext4Error DoubleIndirectBlockIter :=
  let! i := indirect_new fs block_index in mok (mkDouble i None false).

Definition double_next_impl (fs : Ext4) : M (DoubleIndirectBlockIter * S) Ext4Error (option Z) :=
  let! it := it_get in
  match d_indirect_1 it with
  | Some indirect_1 =>
      let! (b, i) := mlift (indirect_next indirect_1) in
      let! _ := it_put (mkDouble (d_indirect_0 it) (match b with Some _ => Some i | None => None end) (d_is_done it)) in
      mok b
  | None =>
      let! (b, i) := mlift (indirect_next (d_indirect_0 it)) in
      let! _ := it_put (mkDouble i None (d_is_done it)) in
      match b with
      | Some block_index =>
          let! indirect_1 := on_fs (indirect_new fs block_index) in
          let! _ := it_put (mkDouble i (Some indirect_1) (d_is_done it)) in mok None
      | None => let! _ := it_put (mkDouble i None true) in mok None
      end
  end.

Definition double_next (fs : Ext4) (fuel : nat) : M (DoubleIndirectBlockIter * S) Ext4Error (option Z) :=
  iter_next d_is_done double_done (double_next_impl fs) fuel.

Definition triple_new (fs : Ext4) (block_index : Z) : M S Ext4Error TripleIndirectBlockIter :=
  let! i := indirect_new fs block_index in mok (mkTriple i None false).

Definition triple_next_impl (fs : Ext4) (fuel : nat) : M (TripleIndirectBlockIter * S) Ext4Error (option Z) :=
  let! it := it_get in
  match t_indirect_1 it with
  | Some indirect_1 =>
      let! b := on_sub (λ _, indirect_1) (λ d t, mkTriple (t_indirect_0 t) (Some d) (t_is_done t)) (double_next fs fuel) in
      match b with
      | Some block_index => mok (Some block_index)
      | None => let! _ := it_put (mkTriple (t_indirect_0 it) None (t_is_done it)) in mok None
      end
  | None =>
      let! (b, i) := mlift (indirect_next (t_indirect_0 it)) in
      let! _ := it_put (mkTriple i None (t_is_done it)) in
      match b with
      | Some block_index =>
          let! indirect_1 := on_fs (double_new fs block_index) in
          let! _ := it_put (mkTriple i (Some indirect_1) (t_is_done it)) in mok None
      | None => let! _ := it_put (mkTriple i None true) in mok None
      end
  end.

Definition triple_next (fs : Ext4) (fuel : nat) : M (TripleIndirectBlockIter * S) Ext4Error (option Z) :=
  iter_next t_is_done triple_done (triple_next_impl fs fuel) fuel.

(** ** [BlockMap] *)
Definition increment_num_blocks_yielded : M (BlockMap * S) Ext4Error unit :=
  let! b := it_get in
  let! n := mlift (unwrap (checked 32 (num_blocks_yielded b + 1))) in it_put (set_yielded n b).

Definition block_map_next_impl (fs : Ext4) (fuel : nat) : M (BlockMap * S) Ext4Error (option Z) :=
  let! b := it_get in
  if bm_num_blocks_total b <=? num_blocks_yielded b then let! _ := it_put (bm_done b) in mok None else
  match level_0 b !! Z.to_nat (level_0_index b) with
  | None => let! _ := it_put (bm_done b) in mok None
  | Some block_0 =>
      if level_0_index b <=? 11 then
        let! i := mlift (unwrap (checked 64 (level_0_index b + 1))) in
        let! _ := it_put (set_level_0_index i b) in
        let! _ := increment_num_blocks_yielded in
        mok (Some block_0)
      else if level_0_index b =? 12 then
        match level_1 b with
        | Some l =>
            let! (r, l) := mlift (indirect_next l) in
            match r with
            | Some block_index =>
                let! _ := it_put (set_level_1 (Some l) b) in
                let! _ := increment_num_blocks_yielded in mok (Some block_index)
            | None => let! _ := it_put (set_level_0_index 13 (set_level_1 None b)) in mok None
            end
        | None => let! l := on_fs (indirect_new fs block_0) in let! _ := it_put (set_level_1 (Some l) b) in mok None
        end
      else if level_0_index b =? 13 then
        match level_2 b with
        | Some l =>
            let! r := on_sub (λ _, l) (λ l, set_level_2 (Some l)) (double_next fs fuel) in
            match r with
            | Some block_index => let! _ := increment_num_blocks_yielded in mok (Some block_index)
            | None => let! _ := it_put (set_level_0_index 14 (set_level_2 None b)) in mok None
            end
        | None => let! l := on_fs (double_new fs block_0) in let! _ := it_put (set_level_2 (Some l) b) in mok None
        end
      else if level_0_index b =? 14 then
        match level_3 b with
        | Some l =>
            let! r := on_sub (λ _, l) (λ l, set_level_3 (Some l)) (triple_next fs fuel) in
            match r with
            | Some block_index => let! _ := increment_num_blocks_yielded in mok (Some block_index)
            | None => let! _ := it_put (set_level_0_index 15 (set_level_3 None b)) in mok None
            end
        | None => let! l := on_fs (triple_new fs block_0) in let! _ := it_put (set_level_3 (Some l) b) in mok None
        end
      else mlift Panic
  end.

Definition block_map_next (fs : Ext4) (fuel : nat) : M (BlockMap * S) Ext4Error (option Z) :=
  iter_next bm_is_done bm_done (block_map_next_impl fs fuel) fuel.

(** ** [FileBlocks] *)
Inductive FileBlocks := FB_ExtentsBlocks (b : ExtentsBlocks) | FB_BlockMap (b : BlockMap).

Definition file_blocks_new (inode : Inode) : XR FileBlocks :=
  if Z.land (flags inode) EXTENTS =? EXTENTS
  then let? b := extents_blocks_new inode in Ok (FB_ExtentsBlocks b)
  else let? b := block_map_new inode in Ok (FB_BlockMap b).

Definition file_blocks_next (fs : Ext4) (fuel : nat) : M (FileBlocks * S) Ext4Error (option Z) :=
  let! t := it_get in
  match t with
  | FB_ExtentsBlocks b => on_sub (λ _, b) (λ b _, FB_ExtentsBlocks b) (extents_blocks_next fs fuel)
  | FB_BlockMap b => on_sub (λ _, b) (λ b _, FB_BlockMap b) (block_map_next fs fuel)
  end.
End block_map.

(** ** The block of the filesystem for each block of the file, computed from its index *)
Section reference.
Context (fs : Ext4) (disk : list Z).
Let P := block_size (superblock fs) / 4.

(** Pointer [i] of block [b]. *)
Definition ptr (b i : Z) : Z := le_dec (field (Z.to_nat (4 * i)) 4 (fs_block fs disk b)).
Definition ptr2 (b i : Z) : Z := ptr (ptr b (i / P)) (i `mod` P).
Definition ptr3 (b i : Z) : Z := ptr2 (ptr b (i / (P * P))) (i `mod` (P * P)).

Definition map_block (l0 : list Z) (k : Z) : Z :=
  let root i := l0 !!! Z.to_nat i in
  if k <? 12 then root k
  else if k - 12 <? P then ptr (root 12) (k - 12)
  else if k - 12 - P <? P * P then ptr2 (root 13) (k - 12 - P)
  else ptr3 (root 14) (k - 12 - P - P * P).

(** The blocks of pointers that are needed for the first [m] blocks below [b]. *)
Definition path1 (b m : Z) : Prop := 0 < m → real_block fs b.
Definition path2 (b m : Z) : Prop := path1 b m ∧ ∀ o, 0 ≤ o < P → path1 (ptr b o) (m - o * P).
Definition path3 (b m : Z) : Prop := path1 b m ∧ ∀ o, 0 ≤ o < P → path2 (ptr b o) (m - o * (P * P)).
Definition mapped (l0 : list Z) (n : Z) : Prop :=
  path1 (l0 !!! 12%nat) (n - 12) ∧ path2 (l0 !!! 13%nat) (n - 12 - P) ∧ path3 (l0 !!! 14%nat) (n - 12 - P - P * P).
End reference.

(** Indices below [q * B + r] as pairs. *)
Lemma split_index (g : Z → Z) (f : Z → Z → Z) B (q : nat) r : 0 < B → 0 ≤ r ≤ B → (∀ o i, 0 ≤ o → 0 ≤ i < B → g (o * B + i) = f o i) →
  g <$> seqZ 0 (Z.of_nat q * B + r) = concat ((λ o, f o <$> seqZ 0 B) <$> seqZ 0 (Z.of_nat q)) ++ (f (Z.of_nat q) <$> seqZ 0 r).
Proof.
  intros HB Hr Hg.
  assert (∀ o m, 0 ≤ o → 0 ≤ m ≤ B → g <$> seqZ (o * B) m = f o <$> seqZ 0 m) as Hrow.
  { intros o m Ho Hm. apply list_eq. intros i. rewrite !list_lookup_fmap.
    destruct (decide (Z.of_nat i < m)) as [Hi|Hi]; [|by rewrite !lookup_seqZ_ge by lia]. rewrite !lookup_seqZ_lt by lia. cbn. by rewrite Hg by lia. }
  revert r Hr. induction q as [|q IH]; intros r Hr.
  - rewrite Z.mul_0_l, Z.add_0_l. by apply (Hrow 0).
  - rewrite (seqZ_app 0), fmap_app, Z.add_0_l, Hrow by nia. f_equal. replace (Z.of_nat (S q)) with (Z.of_nat q + 1) by lia.
    rewrite (seqZ_app 0 (Z.of_nat q) 1), fmap_app, concat_app, Z.add_0_l by lia. replace ((Z.of_nat q + 1) * B) with (Z.of_nat q * B + B) by lia.
    rewrite IH by lia. f_equal. by rewrite (seqZ_cons (Z.of_nat q)), (seqZ_nil (Z.succ _)), fmap_cons, concat_cons, app_nil_r by lia.
Qed.

(** ** Two levels: an outer iterator over pointers and an inner one for each of them *)
Section nest.
Context {S T U : Type} (good : S → Prop) (is_done : T → bool) (next_impl : M (T * S) Ext4Error (option Z)).
Context (nx : U → option Z → U → Prop) (outer : Z → T) (inner : Z → U → T) (u0 : Z → U) (count : Z).
Context (outer_open : ∀ o, is_done (outer o) = false) (inner_open : ∀ o u, is_done (inner o u) = false).
Context (item : ∀ o u a u', nx u (Some a) u' → run_to good next_impl (inner o u) (Ok (Some a)) (inner o u')).
Context (leave : ∀ o u u', nx u None u' → run_to good next_impl (inner o u) (Ok None) (outer (o + 1))).

Definition loads (o : Z) : Prop := run_to good next_impl (outer o) (Ok None) (inner o (u0 o)).

Lemma inner_pre o u l : gen_pre nx u l → ∃ u', emits good is_done next_impl (inner o u) l (inner o u') (length l).
Proof using item inner_open.
  revert u. induction l as [|a l IH]; intros u Hg; [exists u; constructor|]. destruct Hg as (u' & Hn & Hg). destruct (IH u' Hg) as (u'' & He).
  exists u''. eapply emits_some; eauto.
Qed.

Lemma inner_all o u l : gen_all nx u l → emits good is_done next_impl (inner o u) l (outer (o + 1)) (length l + 1).
Proof using item leave inner_open.
  revert u. induction l as [|a l IH]; intros u Hg; destruct Hg as (u' & Hn).
  - eapply emits_none; [done|by eapply leave|constructor].
  - destruct Hn as [Hn Hg]. eapply emits_some; eauto.
Qed.

Lemma nest_full o (f : Z → Z → Z) B (q : nat) : (∀ i, o ≤ i < o + Z.of_nat q → loads i ∧ gen_all nx (u0 i) (f i <$> seqZ 0 B)) → 0 ≤ B →
  ∃ l, emits good is_done next_impl (outer o) l (outer (o + Z.of_nat q)) (length l + 2 * q) ∧ l = concat ((λ i, f i <$> seqZ 0 B) <$> seqZ o (Z.of_nat q)).
Proof using outer_open inner_open item leave.
  revert o. induction q as [|q IH]; intros o Hf HB. { exists []. rewrite Z.add_0_r. split; [constructor|done]. }
  destruct (IH (o + 1)) as (l & He & Hl); [intros i Hi; apply Hf; lia|done|]. destruct (Hf o ltac:(lia)) as [Ho Hg].
  exists ((f o <$> seqZ 0 B) ++ l). rewrite (seqZ_cons o) by lia. split.
  - replace (o + Z.of_nat (Datatypes.S q)) with (o + 1 + Z.of_nat q) by lia.
    replace (length _ + _)%nat with (Datatypes.S ((length (f o <$> seqZ 0 B) + 1) + (length l + 2 * q)))%nat by (rewrite length_app; lia).
    eapply emits_none; [apply outer_open|exact Ho|]. eapply emits_app; [by apply inner_all|done].
  - rewrite Hl. cbn [fmap list_fmap concat]. replace (Z.succ o) with (o + 1) by lia. by replace (Z.pred (Z.of_nat (Datatypes.S q))) with (Z.of_nat q) by lia.
Qed.

(** The first [m] items below the outer iterator, item [o * B + i] being item [i] of inner iterator [o]. *)
Lemma nest_items (g : Z → Z) (f : Z → Z → Z) B m : 0 < B → 0 ≤ m → (∀ o i, 0 ≤ o → 0 ≤ i < B → g (o * B + i) = f o i) →
  (∀ o, 0 ≤ o → o * B < m → loads o ∧ gen_pre nx (u0 o) (f o <$> seqZ 0 (Z.min (m - o * B) B))) →
  (∀ o, 0 ≤ o → (o + 1) * B ≤ m → gen_all nx (u0 o) (f o <$> seqZ 0 B)) →
  ∃ t n, emits good is_done next_impl (outer 0) (g <$> seqZ 0 m) t n ∧ Z.of_nat n ≤ m + 2 * (m / B) + 1 ∧ (m `mod` B = 0 → t = outer (m / B)).
Proof using outer_open inner_open item leave.
  intros HB Hm Hg Hpre Hall. pose proof (Z.div_mod m B ltac:(lia)) as Hdm. pose proof (Z.mod_pos_bound m B HB) as Hr. pose proof (Z.div_pos m B Hm HB) as Hq.
  set (q := m / B) in *. set (r := m `mod` B) in *. destruct (nest_full 0 f B (Z.to_nat q)) as (l & He & Hl); [|lia|].
  { intros i Hi. split; [apply Hpre; nia|apply Hall; nia]. }
  rewrite Z.add_0_l, Z2Nat.id in He by lia. pose proof (split_index g f B (Z.to_nat q) r HB ltac:(lia) Hg) as Hs. rewrite Z2Nat.id in Hs, Hl by lia.
  rewrite <- Hl in Hs. replace (q * B + r) with m in Hs by lia. pose proof (f_equal length Hs) as Hlen.
  rewrite length_fmap, length_app, length_fmap, !length_seqZ in Hlen. rewrite Hs. destruct (decide (r = 0)) as [Hr0|Hr0].
  - exists (outer q), (length l + 2 * Z.to_nat q)%nat. rewrite (seqZ_nil 0 r), app_nil_r by lia. split; [done|]. split; [lia|done].
  - destruct (Hpre q) as [Ho Hp]; [lia..|]. replace (Z.min (m - q * B) B) with r in Hp by lia. destruct (inner_pre q _ _ Hp) as (u' & Hi).
    eexists _, _. split; [eapply emits_app; [exact He|eapply emits_none; [apply outer_open|exact Ho|exact Hi]]|].
    split; [rewrite length_fmap, length_seqZ; lia|done].
Qed.
End nest.


(** ** The levels give the blocks of the reference *)
Section levels.
Context `{Crc} {S : Type} `{BlockReaderLaws S fs disk good} (good_disk : disk_ok fs disk).
Context (P : Z) (HP : block_size (superblock fs) = 4 * P).

Lemma P_bound : 256 ≤ P < 2 ^ 30.
Proof using good_disk HP. destruct good_disk as [Hb _ _ _ _]. lia. Qed.

Lemma P_eq : block_size (superblock fs) / 4 = P.
Proof using HP. rewrite HP, Z.mul_comm. by apply Z.div_mul. Qed.

Definition at_ind (b i : Z) : IndirectBlockIter := mkInd (fs_block fs disk b) (4 * i).

Lemma zlen_block b : real_block fs b → zlen (fs_block fs disk b) = 4 * P.
Proof using good_disk HP. intros Hb. unfold zlen. rewrite (length_fs_block good_disk) by done. pose proof P_bound. lia. Qed.

Lemma ind_item b i : real_block fs b → 0 ≤ i < P → indirect_next (at_ind b i) = Ok (Some (ptr fs disk b i), at_ind b (i + 1)).
Proof using good_disk HP.
  intros Hb Hi. pose proof (zlen_block b Hb) as Hl. pose proof P_bound. unfold indirect_next, at_ind. cbn [ind_block index_within_block].
  rewrite (proj2 (Z.leb_gt _ _)) by lia. unfold read_u32le. rewrite read_le_ok by lia. cbn [rbind]. rewrite checked_ok by lia. cbn [unwrap rbind].
  unfold ptr. do 4 f_equal; lia.
Qed.

Lemma ind_none b : real_block fs b → indirect_next (at_ind b P) = Ok (None, at_ind b P).
Proof using good_disk HP.
  intros Hb. unfold indirect_next. cbn [at_ind ind_block index_within_block]. rewrite zlen_block by done. by rewrite (proj2 (Z.leb_le _ _)) by lia.
Qed.

Definition nx1 (u : IndirectBlockIter) (r : option Z) (u' : IndirectBlockIter) : Prop := indirect_next u = Ok (r, u').

Lemma ind_all b : real_block fs b → gen_all nx1 (at_ind b 0) (ptr fs disk b <$> seqZ 0 P).
Proof using good_disk HP.
  intros Hb. assert (∀ n i, 0 ≤ i → i + Z.of_nat n = P → gen_all nx1 (at_ind b i) (ptr fs disk b <$> seqZ i (Z.of_nat n))) as Hgen.
  { induction n as [|n IH]; intros i Hi Hn.
    - exists (at_ind b P). replace i with P by lia. by apply ind_none.
    - rewrite seqZ_cons by lia. exists (at_ind b (i + 1)). split; [apply ind_item; [done|lia]|]. replace (Z.succ i) with (i + 1) by lia. replace (Z.pred _) with (Z.of_nat n) by lia. apply IH; lia. }
  pose proof P_bound. pose proof (Hgen (Z.to_nat P) 0) as Hg. rewrite Z2Nat.id in Hg by lia. apply Hg; lia.
Qed.

(** The first items of a longer list. *)
Lemma gen_first {U} (nx : U → option Z → U → Prop) u (f : Z → Z) m n : gen_all nx u (f <$> seqZ 0 n) → 0 ≤ m ≤ n → gen_pre nx u (f <$> seqZ 0 m).
Proof using. intros Hg Hm. replace n with (m + (n - m)) in Hg by lia. rewrite seqZ_app, fmap_app in Hg by lia. by eapply gen_all_pre. Qed.

Lemma ind_new b : real_block fs b → yields good (indirect_new fs b) (Ok (at_ind b 0)).
Proof using All.
  intros Hb. pose proof P_bound. unfold indirect_new. eapply yields_bind; [apply (block_read_ok good_disk); [done|lia..]|]. cbv beta.
  rewrite field_full by (by rewrite (length_fs_block good_disk)). apply yields_ok.
Qed.

(** Doubly indirect blocks. *)
Definition at_double (b o : Z) (u : option IndirectBlockIter) : DoubleIndirectBlockIter := mkDouble (at_ind b o) u false.

Lemma double_emits b m : 0 < m ≤ P * P → path2 fs disk b m → ∃ t n,
  emits good d_is_done (double_next_impl fs) (at_double b 0 None) (ptr2 fs disk b <$> seqZ 0 m) t n ∧ Z.of_nat n ≤ m + 2 * (m / P) + 1 ∧
  (m = P * P → t = at_double b P None).
Proof using All.
  intros Hm [Hp1 Hp2]. rewrite P_eq in Hp2. pose proof P_bound as HPb. specialize (Hp1 ltac:(lia)).
  destruct (nest_items good d_is_done (double_next_impl fs) nx1 (λ o, at_double b o None) (λ o u, at_double b (o + 1) (Some u)) (λ o, at_ind (ptr fs disk b o) 0))
    with (g := ptr2 fs disk b) (f := λ o, ptr fs disk (ptr fs disk b o)) (B := P) (m := m) as (t & n & He & Hn & Ht); try lia; try done.
  - intros o u a u' Hn. apply run_get. cbn. eapply run_lift; [exact Hn|]. apply run_put, run_ok.
  - intros o u u' Hn. apply run_get. cbn. eapply run_lift; [exact Hn|]. apply run_put, run_ok.
  - intros o i Ho Hi. unfold ptr2. rewrite P_eq, Z.div_add_l, Z.div_small, Z.add_0_r by lia. do 2 f_equal.
    by rewrite Z.add_comm, Z.mod_add, Z.mod_small by lia.
  - intros o Ho Hom. assert (real_block fs (ptr fs disk b o)) as Hr by (apply Hp2; nia). split.
    + apply run_get. cbn. eapply run_lift; [apply ind_item; [done|nia]|]. apply run_put. eapply run_fs; [by apply ind_new|]. apply run_put, run_ok.
    + eapply gen_first; [by apply ind_all|lia].
  - intros o Ho Hom. apply ind_all, Hp2; nia.
  - exists t, n. split; [done|]. split; [done|]. intros ->. rewrite Z.mod_mul, Z.div_mul in Ht by lia. by apply Ht.
Qed.

Lemma double_starts b m fuel : 0 < m ≤ P * P → path2 fs disk b m → P * P + 2 * P + 2 < Z.of_nat fuel →
  starts_with good (double_next fs fuel) (at_double b 0 None) (ptr2 fs disk b <$> seqZ 0 m).
Proof using All.
  intros Hm Hp Hf. pose proof P_bound. destruct (double_emits b m Hm Hp) as (t & n & He & Hn & _). eapply emits_starts; [exact He|].
  assert (m / P ≤ P) by (apply Z.div_le_upper_bound; lia). lia.
Qed.

Lemma double_all b fuel : path2 fs disk b (P * P) → P * P + 2 * P + 2 < Z.of_nat fuel →
  generates good (double_next fs fuel) (at_double b 0 None) (ptr2 fs disk b <$> seqZ 0 (P * P)).
Proof using All.
  intros Hp Hf. pose proof P_bound. destruct (double_emits b (P * P) ltac:(nia) Hp) as (t & n & He & Hn & Ht). rewrite Ht in He by done.
  rewrite Z.div_mul in Hn by lia. eapply (emits_generates _ _ _ _ _ _ _ (double_done (at_double b P None)) (n + 1)); [|done|lia].
  rewrite <- (app_nil_r (_ <$> _)). eapply emits_app; [exact He|]. eapply emits_none; [done| |constructor].
  apply run_get. cbn. eapply run_lift; [apply ind_none; apply Hp; nia|]. apply run_put, run_put, run_ok.
Qed.

(** Triply indirect blocks. *)
Definition at_triple (b o : Z) (u : option DoubleIndirectBlockIter) : TripleIndirectBlockIter := mkTriple (at_ind b o) u false.

Lemma path2_mono b m n : m ≤ n → path2 fs disk b n → path2 fs disk b m.
Proof using. intros Hm [H1' H2']. split; [intros ?; apply H1'; lia|]. intros o Ho Hl. apply (H2' o Ho). lia. Qed.

Lemma triple_starts b m fuel : 0 < m ≤ P * (P * P) → path3 fs disk b m → P * (P * P) + 2 * P + 2 < Z.of_nat fuel →
  starts_with good (triple_next fs fuel) (at_triple b 0 None) (ptr3 fs disk b <$> seqZ 0 m).
Proof using All.
  intros Hm [Hp1 Hp2] Hf. rewrite P_eq in Hp2. pose proof P_bound as HPb. specialize (Hp1 ltac:(lia)).
  destruct (nest_items good t_is_done (triple_next_impl fs fuel) (λ u r u', run_to good (double_next fs fuel) u (Ok r) u')
      (λ o, at_triple b o None) (λ o u, at_triple b (o + 1) (Some u)) (λ o, at_double (ptr fs disk b o) 0 None))
    with (g := ptr3 fs disk b) (f := λ o, ptr2 fs disk (ptr fs disk b o)) (B := P * P) (m := m) as (t & n & He & Hn & _); try nia; try done.
  - intros o u a u' Hn. apply run_get. cbn. eapply run_sub; [exact Hn|]. apply run_ok.
  - intros o u u' Hn. apply run_get. cbn. eapply run_sub; [exact Hn|]. apply run_put, run_ok.
  - intros o i Ho Hi. unfold ptr3. rewrite P_eq, Z.div_add_l, Z.div_small, Z.add_0_r by lia. do 2 f_equal.
    by rewrite Z.add_comm, Z.mod_add, Z.mod_small by lia.
  - intros o Ho Hom. assert (0 ≤ o < P) as HoP by nia. pose proof (Hp2 o HoP) as Hpo. split.
    + apply run_get. cbn. eapply run_lift; [apply ind_item; [done|nia]|]. apply run_put. eapply run_fs; [|apply run_put, run_ok].
      eapply yields_bind; [apply ind_new; apply Hpo; lia|apply yields_ok].
    + apply double_starts; [nia| |nia]. eapply path2_mono; [|exact Hpo]. lia.
  - intros o Ho Hom. apply double_all; [|nia]. eapply path2_mono; [|apply (Hp2 o)]; nia.
  - eapply emits_starts; [exact He|]. assert (m / (P * P) ≤ P) by (apply Z.div_le_upper_bound; nia). lia.
Qed.
End levels.

(** ** The block map *)
Section level.
Context {S U : Type} (good : S → Prop) (next_impl : M (BlockMap * S) Ext4Error (option Z)) (N : Z).
Context (nx : U → option Z → U → Prop) (st : option U → Z → BlockMap) (nxt : Z → BlockMap) (u0 : U).
Context (stop : ∀ u y, N ≤ y → emits good bm_is_done next_impl (st u y) [] (bm_done (st u y)) 1).
Context (open : ∀ u y, bm_is_done (st u y) = false).
Context (item : ∀ u a u' y, 0 ≤ y < N → nx u (Some a) u' → run_to good next_impl (st (Some u) y) (Ok (Some a)) (st (Some u') (y + 1))).
Context (leave : ∀ u u' y, 0 ≤ y < N → nx u None u' → run_to good next_impl (st (Some u) y) (Ok None) (nxt y)).

Lemma level_pre u l y : gen_pre nx u l → 0 ≤ y → y + zlen l ≤ N →
  ∃ u', emits good bm_is_done next_impl (st (Some u) y) l (st (Some u') (y + zlen l)) (length l).
Proof using open item.
  unfold zlen. revert u y. induction l as [|a l IH]; intros u y Hg Hy Hl; [exists u; rewrite Z.add_0_r; constructor|]. cbn [length] in *.
  destruct Hg as (u' & Hn & Hg). destruct (IH u' (y + 1) Hg) as (u'' & He); [lia..|]. exists u''.
  eapply emits_some; [apply open|apply item; [lia|done]|]. by replace (y + Z.of_nat (Datatypes.S (length l))) with (y + 1 + Z.of_nat (length l)) by lia.
Qed.

Lemma level_all u l y : gen_all nx u l → 0 ≤ y → y + zlen l < N → emits good bm_is_done next_impl (st (Some u) y) l (nxt (y + zlen l)) (length l + 1).
Proof using open item leave.
  unfold zlen. revert u y. induction l as [|a l IH]; intros u y Hg Hy Hl; destruct Hg as (u' & Hn); cbn [length] in *.
  - rewrite Z.add_0_r. eapply emits_none; [apply open|by eapply leave; [lia|]|constructor].
  - destruct Hn as [Hn Hg]. eapply emits_some; [apply open|apply item; [lia|done]|].
    replace (y + Z.of_nat (Datatypes.S (length l))) with (y + 1 + Z.of_nat (length l)) by lia. apply IH; [done|lia..].
Qed.

(** A level with [cap] blocks, the first of them block [y] of the file. *)
Lemma level_emits (g f : Z → Z) y cap c : 0 ≤ y → 0 ≤ cap → (∀ i, 0 ≤ i < cap → g (y + i) = f i) →
  (y < N → run_to good next_impl (st None y) (Ok None) (st (Some u0) y)) →
  (y < N → gen_pre nx u0 (f <$> seqZ 0 (Z.min cap (N - y)))) →
  (y + cap < N → gen_all nx u0 (f <$> seqZ 0 cap)) →
  (y + cap < N → ∃ t n, emits good bm_is_done next_impl (nxt (y + cap)) (g <$> seqZ (y + cap) (N - (y + cap))) t n ∧ bm_is_done t = true ∧
    Z.of_nat n ≤ N - (y + cap) + c) → 0 ≤ c →
  ∃ t n, emits good bm_is_done next_impl (st None y) (g <$> seqZ y (N - y)) t n ∧ bm_is_done t = true ∧ Z.of_nat n ≤ Z.max 0 (N - y) + c + 2.
Proof using All.
  intros Hy Hcap Hg Hload Hpre Hall Hrest Hc. destruct (decide (N ≤ y)) as [HN|HN].
  { exists (bm_done (st None y)), 1%nat. rewrite seqZ_nil by lia. split; [by apply stop|]. split; [done|lia]. }
  assert (∀ m, 0 ≤ m ≤ cap → g <$> seqZ y m = f <$> seqZ 0 m) as Hfg.
  { intros m Hm. apply list_eq. intros i. rewrite !list_lookup_fmap. destruct (decide (Z.of_nat i < m)); [|by rewrite !lookup_seqZ_ge by lia].
    rewrite !lookup_seqZ_lt by lia. cbn. by rewrite Hg by lia. }
  assert (∀ m, 0 ≤ m → zlen (f <$> seqZ 0 m) = m) as Hlen by (intros m Hm; unfold zlen; rewrite length_fmap, length_seqZ; lia).
  destruct (decide (y + cap < N)) as [Hcap'|Hcap'].
  - destruct (Hrest Hcap') as (t & n & He & Hd & Hn). pose proof (level_all u0 _ y (Hall Hcap') Hy) as Hl. rewrite Hlen in Hl by lia.
    exists t, (Datatypes.S (length (f <$> seqZ 0 cap) + 1 + n)). split; [|split; [done|]].
    + replace (N - y) with (cap + (N - (y + cap))) by lia. rewrite seqZ_app, fmap_app, Hfg by lia.
      eapply emits_none; [apply open|by apply Hload; lia|]. eapply emits_app; [apply Hl; lia|done].
    + pose proof (Hlen cap Hcap) as Hz. unfold zlen in Hz. lia.
  - rewrite Z.min_r in Hpre by lia. destruct (level_pre u0 _ y (Hpre ltac:(lia)) Hy) as (u' & Hl); [rewrite Hlen; lia|]. rewrite Hlen in Hl by lia.
    eexists _, _. split; [|split].
    + rewrite Hfg by lia. rewrite <- (app_nil_r (_ <$> _)). eapply emits_none; [apply open|apply Hload; lia|]. eapply emits_app; [exact Hl|apply stop; lia].
    + done.
    + pose proof (Hlen (N - y) ltac:(lia)) as Hz. unfold zlen in Hz. lia.
Qed.
End level.

(** The states of the block map, and its direct blocks. *)
Definition bm (l0 : list Z) (N i y : Z) l1 l2 l3 : BlockMap := mkBlockMap l0 i y N l1 l2 l3 false.

Section direct.
Context {S : Type} `{BlockReader S} (good : S → Prop) (fs : Ext4) (l0 : list Z) (Hl0 : length l0 = 15%nat) (N : Z) (HN : 0 ≤ N < 2 ^ 32) (fuel : nat).

Abbreviation emits_map := (emits good bm_is_done (block_map_next_impl fs fuel)).

Lemma bm_stop i y l1 l2 l3 : N ≤ y → emits_map (bm l0 N i y l1 l2 l3) [] (bm_done (bm l0 N i y l1 l2 l3)) 1.
Proof using All.
  intros Hy. eapply emits_none; [done| |constructor]. apply run_get. cbn [bm bm_num_blocks_total num_blocks_yielded].
  rewrite (proj2 (Z.leb_le _ _)) by lia. apply run_put, run_ok.
Qed.

(** The block of [level_0] that is looked at. *)
Lemma root_lookup i : 0 ≤ i < 15 → l0 !! Z.to_nat i = Some (l0 !!! Z.to_nat i).
Proof using Hl0. clear - Hl0. intros Hi. apply list_lookup_lookup_total_lt. lia. Qed.

Lemma incr i y l1 l2 l3 (a : Z) : 0 ≤ y < N →
  run_to good (let! _ := increment_num_blocks_yielded in mok (Some a)) (bm l0 N i y l1 l2 l3) (Ok (Some a)) (bm l0 N i (y + 1) l1 l2 l3).
Proof using All. intros Hy s Hs. exists s. unfold increment_num_blocks_yielded, it_get, it_put, mlift, mbindM. cbn [fst bm num_blocks_yielded]. by rewrite checked_ok by lia. Qed.

Lemma direct_step y : 0 ≤ y < 12 → y < N →
  run_to good (block_map_next_impl fs fuel) (bm l0 N y y None None None) (Ok (Some (l0 !!! Z.to_nat y))) (bm l0 N (y + 1) (y + 1) None None None).
Proof using All.
  intros Hy HyN. apply run_get. cbn [bm bm_num_blocks_total num_blocks_yielded level_0 level_0_index].
  rewrite (proj2 (Z.leb_gt _ _)), root_lookup, (proj2 (Z.leb_le _ _)) by lia. eapply run_lift; [by rewrite checked_ok by lia|]. apply run_put. apply incr. lia.
Qed.

Lemma direct_emits disk (k : nat) y : 0 ≤ y → y + Z.of_nat k ≤ 12 → y + Z.of_nat k ≤ N →
  emits_map (bm l0 N y y None None None) (map_block fs disk l0 <$> seqZ y (Z.of_nat k)) (bm l0 N (y + Z.of_nat k) (y + Z.of_nat k) None None None) k.
Proof using All.
  revert y. induction k as [|k IH]; intros y Hy Hk HkN; [rewrite Z.add_0_r; constructor|]. rewrite (seqZ_cons y) by lia.
  replace (y + Z.of_nat (Datatypes.S k)) with (y + 1 + Z.of_nat k) by lia. replace (Z.pred _) with (Z.of_nat k) by lia. replace (Z.succ y) with (y + 1) by lia.
  eapply emits_some; [done| |apply IH; lia].
  replace (map_block fs disk l0 y) with (l0 !!! Z.to_nat y) by (unfold map_block; by rewrite (proj2 (Z.ltb_lt _ _)) by lia). apply direct_step; lia.
Qed.
End direct.

Section maps.
Context `{Crc} {S : Type} `{BlockReaderLaws S fs disk good} (good_disk : disk_ok fs disk).
Context (P : Z) (HP : block_size (superblock fs) = 4 * P) (l0 : list Z) (Hl0 : length l0 = 15%nat) (N : Z) (HN : 0 ≤ N < 2 ^ 32) (fuel : nat).
Context (Hfuel : P * (P * P) + 2 * P + 2 < Z.of_nat fuel).

Abbreviation emits_map := (emits good bm_is_done (block_map_next_impl fs fuel)).
Abbreviation bm := (bm l0 N).

(** The indirect levels. *)
Ltac map_step i :=
  apply run_get; cbn [bm bm_num_blocks_total num_blocks_yielded level_0 level_0_index level_1 level_2 level_3];
  rewrite (proj2 (Z.leb_gt _ _)), (root_lookup l0 Hl0 i) by lia; cbn [Z.leb Z.compare Pos.compare Pos.compare_cont Z.eqb Pos.eqb].

Lemma level3_emits y : 0 ≤ y → N ≤ y + P * (P * P) → path3 fs disk (l0 !!! 14%nat) (N - y) →
  (∀ i, 0 ≤ i < P * (P * P) → map_block fs disk l0 (y + i) = ptr3 fs disk (l0 !!! 14%nat) i) →
  ∃ t n, emits_map (bm 14 y None None None) (map_block fs disk l0 <$> seqZ y (N - y)) t n ∧ bm_is_done t = true ∧ Z.of_nat n ≤ Z.max 0 (N - y) + 2.
Proof using All.
  intros Hy Hcap Hp Hmap. pose proof (P_bound good_disk P HP).
  destruct (level_emits good (block_map_next_impl fs fuel) N (λ u r u', run_to good (triple_next fs fuel) u (Ok r) u') (λ u y, bm 14 y None None u) (λ y, bm 15 y None None None)
    (at_triple (fs := fs) (disk := disk) (l0 !!! 14%nat) 0 None)) with (g := map_block fs disk l0) (f := ptr3 fs disk (l0 !!! 14%nat)) (y := y) (cap := P * (P * P)) (c := 0)
    as (t & n & He & Hd & Hn); try lia; try done; [intros; by apply (bm_stop good fs l0 Hl0 N HN fuel)|intros u a u' z Hz Hn|intros u u' z Hz Hn|intros Hz|intros Hz|].
  - map_step 14. eapply run_sub; [exact Hn|]. by apply (incr good fs l0 Hl0 N HN fuel).
  - map_step 14. eapply run_sub; [exact Hn|]. apply run_put, run_ok.
  - map_step 14. eapply run_fs; [|apply run_put, run_ok]. eapply yields_bind; [apply (ind_new good_disk P HP), Hp; lia|apply yields_ok].
  - apply (triple_starts good_disk P HP); [nia| |lia]. by rewrite Z.min_r by lia.
  - exists t, n. repeat split; [done..|lia].
Qed.

Lemma level2_emits y : 0 ≤ y → N ≤ y + P * P + P * (P * P) →
  path2 fs disk (l0 !!! 13%nat) (N - y) → path3 fs disk (l0 !!! 14%nat) (N - (y + P * P)) →
  (∀ i, 0 ≤ i < P * P → map_block fs disk l0 (y + i) = ptr2 fs disk (l0 !!! 13%nat) i) →
  (∀ i, 0 ≤ i < P * (P * P) → map_block fs disk l0 (y + P * P + i) = ptr3 fs disk (l0 !!! 14%nat) i) →
  ∃ t n, emits_map (bm 13 y None None None) (map_block fs disk l0 <$> seqZ y (N - y)) t n ∧ bm_is_done t = true ∧ Z.of_nat n ≤ Z.max 0 (N - y) + 4.
Proof using All.
  intros Hy Hcap Hp Hp3 Hmap Hmap3. pose proof (P_bound good_disk P HP).
  destruct (level_emits good (block_map_next_impl fs fuel) N (λ u r u', run_to good (double_next fs fuel) u (Ok r) u') (λ u y, bm 13 y None u None) (λ y, bm 14 y None None None)
    (at_double (fs := fs) (disk := disk) (l0 !!! 13%nat) 0 None)) with (g := map_block fs disk l0) (f := ptr2 fs disk (l0 !!! 13%nat)) (y := y) (cap := P * P) (c := 2)
    as (t & n & He & Hd & Hn); try nia; try done; [intros; by apply (bm_stop good fs l0 Hl0 N HN fuel)|intros u a u' z Hz Hn|intros u u' z Hz Hn|intros Hz|intros Hz|intros Hz|intros Hz|].
  - map_step 13. eapply run_sub; [exact Hn|]. by apply (incr good fs l0 Hl0 N HN fuel).
  - map_step 13. eapply run_sub; [exact Hn|]. apply run_put, run_ok.
  - map_step 13. eapply run_fs; [|apply run_put, run_ok]. eapply yields_bind; [apply (ind_new good_disk P HP), Hp; lia|apply yields_ok].
  - apply (double_starts good_disk P HP); [nia| |nia]. eapply path2_mono; [|exact Hp]. lia.
  - apply (double_all good_disk P HP); [|nia]. eapply path2_mono; [|exact Hp]. lia.
  - destruct (level3_emits (y + P * P)) as (t & n & He & Hd & Hn); [nia|nia|done|done|]. exists t, n. repeat split; [done..|lia].
  - exists t, n. repeat split; [done..|lia].
Qed.

Lemma level1_emits : 12 ≤ N → N ≤ 12 + P + P * P + P * (P * P) → mapped fs disk l0 N →
  ∃ t n, emits_map (bm 12 12 None None None) (map_block fs disk l0 <$> seqZ 12 (N - 12)) t n ∧ bm_is_done t = true ∧ Z.of_nat n ≤ N + 6.
Proof using All.
  intros H12 Hcap (Hp1 & Hp2 & Hp3). rewrite (P_eq P HP) in *. pose proof (P_bound good_disk P HP) as HPb.
  destruct (level_emits good (block_map_next_impl fs fuel) N nx1 (λ u y, bm 12 y u None None) (λ y, bm 13 y None None None)
    (at_ind (fs := fs) (disk := disk) (l0 !!! 12%nat) 0)) with (g := map_block fs disk l0) (f := ptr fs disk (l0 !!! 12%nat)) (y := 12) (cap := P) (c := 4)
    as (t & n & He & Hd & Hn); try lia; try done; [intros; by apply (bm_stop good fs l0 Hl0 N HN fuel)|intros u a u' z Hz Hn|intros u u' z Hz Hn|intros i Hi|intros Hz|intros Hz|intros Hz|intros Hz|].
  - map_step 12. eapply run_lift; [exact Hn|]. apply run_put. by apply (incr good fs l0 Hl0 N HN fuel).
  - map_step 12. eapply run_lift; [exact Hn|]. apply run_put, run_ok.
  - unfold map_block. rewrite (P_eq P HP). rewrite (proj2 (Z.ltb_ge _ _)), (proj2 (Z.ltb_lt _ _)) by lia. f_equal. lia.
  - map_step 12. eapply run_fs; [|apply run_put, run_ok]. apply (ind_new good_disk P HP), Hp1. lia.
  - eapply gen_first; [apply (ind_all good_disk P HP), Hp1; lia|lia].
  - apply (ind_all good_disk P HP), Hp1. lia.
  - destruct (level2_emits (12 + P)) as (t & n & He & Hd & Hn); [lia|lia| | |intros i Hi|intros i Hi|].
    + by replace (N - (12 + P)) with (N - 12 - P) by lia.
    + by replace (N - (12 + P + P * P)) with (N - 12 - P - P * P) by lia.
    + unfold map_block. rewrite (P_eq P HP). rewrite !(proj2 (Z.ltb_ge _ _)), (proj2 (Z.ltb_lt _ _)) by lia. f_equal. lia.
    + unfold map_block. rewrite (P_eq P HP). rewrite !(proj2 (Z.ltb_ge _ _)) by lia. f_equal. lia.
    + exists t, n. repeat split; [done..|lia].
  - exists t, n. repeat split; [done..|lia].
Qed.

Lemma block_map_emits : N ≤ 12 + P + P * P + P * (P * P) → mapped fs disk l0 N →
  ∃ t n, emits_map (bm 0 0 None None None) (map_block fs disk l0 <$> seqZ 0 N) t n ∧ bm_is_done t = true ∧ Z.of_nat n ≤ N + 18.
Proof using All.
  intros Hcap Hm. destruct (decide (12 ≤ N)) as [H12|H12].
  - destruct (level1_emits H12 Hcap Hm) as (t & n & He & Hd & Hn). exists t, (12 + n)%nat. split; [|split; [done|lia]].
    replace (seqZ 0 N) with (seqZ 0 12 ++ seqZ 12 (N - 12)) by (rewrite <- (seqZ_app 0 12) by lia; f_equal; lia). rewrite fmap_app. eapply emits_app; [apply (direct_emits good fs l0 Hl0 N HN fuel disk 12 0); lia|done].
  - pose proof (direct_emits good fs l0 Hl0 N HN fuel disk (Z.to_nat N) 0 ltac:(lia) ltac:(lia) ltac:(lia)) as Hdir. rewrite Z.add_0_l, Z2Nat.id in Hdir by lia.
    exists (bm_done (bm N N None None None)), (Z.to_nat N + 1)%nat. split; [|split; [done|lia]]. rewrite <- (app_nil_r (_ <$> _)).
    eapply emits_app; [exact Hdir|apply (bm_stop good fs l0 Hl0 N HN fuel); lia].
Qed.
End maps.

Lemma read_level_0_eq inline i n : 0 ≤ i → (i + Z.of_nat n) * 4 ≤ zlen inline → zlen inline < 2 ^ 64 →
  read_level_0 inline i n = Ok ((λ k, le_dec (field (Z.to_nat (k * 4)) 4 inline)) <$> seqZ i (Z.of_nat n)).
Proof.
  revert i. induction n as [|n IH]; intros i Hi Hn Hl; [done|]. cbn [read_level_0]. rewrite checked_ok by lia. cbn [unwrap rbind].
  unfold read_u32le. rewrite read_le_ok by lia. cbn [rbind]. rewrite IH by lia. cbn [rbind]. rewrite (seqZ_cons i) by lia. cbn [fmap list_fmap].
  replace (Z.succ i) with (i + 1) by lia. by replace (Z.pred (Z.of_nat (S n))) with (Z.of_nat n) by lia.
Qed.

(** The fifteen block numbers in an inode. *)
Definition root_blocks (inline : list Z) : list Z := (λ k, le_dec (field (Z.to_nat (k * 4)) 4 inline)) <$> seqZ 0 15.

Lemma block_map_generate `{Crc} {S} `{BlockReaderLaws S fs disk good} inode P : disk_ok fs disk → block_size (superblock fs) = 4 * P →
  length (inline_data inode) = 60%nat → 0 ≤ file_size_in_blocks inode < 2 ^ 32 → file_size_in_blocks inode ≤ 12 + P + P * P + P * (P * P) →
  mapped fs disk (root_blocks (inline_data inode)) (file_size_in_blocks inode) →
  ∃ it N, block_map_new inode = Ok it ∧
    ∀ fuel, (N ≤ fuel)%nat →
      generates good (block_map_next fs fuel) it (map_block fs disk (root_blocks (inline_data inode)) <$> seqZ 0 (file_size_in_blocks inode)).
Proof.
  intros Hd HP Hl HN Hcap Hm. pose proof (P_bound Hd P HP) as HPb.
  exists (bm (root_blocks (inline_data inode)) (file_size_in_blocks inode) 0 0 None None None), (Z.to_nat (P * (P * P) + 2 * P + 3 + file_size_in_blocks inode + 20)).
  split. { unfold block_map_new. rewrite read_level_0_eq by (unfold zlen; lia). done. }
  intros fuel Hf. destruct (block_map_emits Hd P HP (root_blocks (inline_data inode)) eq_refl _ HN fuel ltac:(nia) Hcap Hm) as (t & n & He & Hdone & Hn).
  eapply emits_generates; [exact He|done|nia].
Qed.

(** A hole that covers an indirect block cannot be read. A zero block number stands for a hole, and the iterator
    gives it as such for the twelve direct blocks, but a zero in place of an indirect block is passed on to the block
    reader, which refuses block 0. A sparse file ends with an error at its thirteenth block. *)
Theorem zero_indirect_block_fails `{Crc} {S} `{BlockReaderLaws S fs disk good} inode fuel s : disk_ok fs disk → journal fs !! 0 = None →
  length (inline_data inode) = 60%nat → 12 < file_size_in_blocks inode < 2 ^ 32 → root_blocks (inline_data inode) !! 12%nat = Some 0 →
  good s → (0 < fuel)%nat →
  ∃ it, block_map_new inode = Ok it ∧
    collect (block_map_next fs fuel) 13 (it, s) =
      (Ok ∘ Some <$> take 12 (root_blocks (inline_data inode))) ++ [Err (Corrupt (BlockRead 0 0 0 (block_size (superblock fs))))].
Proof.
  intros Hd Hj Hl HN Hz Hs Hf. set (l0 := root_blocks (inline_data inode)) in *. set (N := file_size_in_blocks inode) in *.
  exists (bm l0 N 0 0 None None None). split; [unfold block_map_new; by rewrite read_level_0_eq by (unfold zlen; lia)|].
  destruct fuel as [|fuel]; [lia|].
  assert (∀ k : nat, (k ≤ 12)%nat → ∀ s, good s → collect (block_map_next fs (Datatypes.S fuel)) (Datatypes.S k) (bm l0 N (12 - Z.of_nat k) (12 - Z.of_nat k) None None None, s) =
    (Ok ∘ Some <$> take k (drop (12 - k) l0)) ++ [Err (Corrupt (BlockRead 0 0 0 (block_size (superblock fs))))]) as Hk.
  2: { pose proof (Hk 12%nat ltac:(lia) s Hs) as Hc. change (12 - Z.of_nat 12) with 0 in Hc. exact Hc. }
  clear s Hs. induction k as [|k IH]; intros Hk s Hs; cbn [collect].
  - change (12 - Z.of_nat 0) with 12.
    assert (run_to good (block_map_next fs (Datatypes.S fuel)) (bm l0 N 12 12 None None None) (Err (Corrupt (BlockRead 0 0 0 (block_size (superblock fs)))))
      (bm_done (bm l0 N 12 12 None None None))) as Hr.
    { apply run_iter_err; [done|]. apply run_get. cbn [bm bm_num_blocks_total num_blocks_yielded level_0 level_0_index level_1].
      rewrite (proj2 (Z.leb_gt _ _)) by lia. change (Z.to_nat 12) with 12%nat. rewrite Hz. cbn [Z.leb Z.compare Pos.compare Pos.compare_cont Z.eqb Pos.eqb].
      apply run_fs_err, yields_bind_err. pose proof (dk_bsize _ _ Hd). apply (block_read_zero Hd); [unfold map_block_index; by rewrite Hj|lia..]. }
    destruct (Hr s Hs) as (s' & E & Hs'). by rewrite E.
  - set (y := 12 - Z.of_nat (Datatypes.S k)).
    assert (run_to good (block_map_next fs (Datatypes.S fuel)) (bm l0 N y y None None None) (Ok (Some (l0 !!! Z.to_nat y))) (bm l0 N (y + 1) (y + 1) None None None)) as Hr.
    { apply run_iter_some; [done|]. apply (direct_step good fs l0 eq_refl N ltac:(lia)); lia. }
    destruct (Hr s Hs) as (s' & E & Hs'). rewrite E. replace (y + 1) with (12 - Z.of_nat k) by lia. cbn [collect] in IH. rewrite IH by (lia || done).
    erewrite (drop_S l0 _ (12 - Datatypes.S k)%nat); [|rewrite <- (root_lookup l0 eq_refl y) by lia; f_equal; lia].
    cbn [take fmap list_fmap app compose]. do 2 f_equal. by replace (Datatypes.S (12 - Datatypes.S k)) with (12 - k)%nat by lia.
Qed.

Lemma zero_indirect_block_fails_witness :
  let fs := mkExt4 (demo_sb 1024 2) [] ∅ in
  let inode := mkInode (H := crc32c) 12 (le_bytes 4 1 ++ zeros 56) (mkMeta 13312 0x8000 Regular 0 0) 0 (Z.ones 32 : @Digest crc32c) 13 in
  ∃ c it, cache_new 1024 2 = Ok c ∧ block_map_new inode = Ok it ∧
    collect (block_map_next fs 1) 13 (it, mkFs (H := vec_reader) c (zeros 2048)) =
      (Ok ∘ Some <$> 1 :: replicate 11 0) ++ [Err (Corrupt (BlockRead 0 0 0 1024))].
Proof.
  intros fs inode. assert (disk_ok fs (zeros 2048)) as Hd by (split; [vm_compute; done..|apply map_Forall_empty]).
  destruct (cache_new_eq 1024 2 ltac:(lia)) as (m & E & _). set (c := mkCache _ _ _ _ _) in E.
  pose proof (fresh_cache_ok (H0 := vec_reader_laws) fs (zeros 2048) c (zeros 2048) Hd eq_refl E) as Hc.
  destruct (zero_indirect_block_fails (S := @FsState vec_reader) (H1 := cached_reader_laws (H0 := vec_reader_laws) fs (zeros 2048) Hd) inode 1 _
    Hd eq_refl eq_refl ltac:(cbn; lia) eq_refl Hc ltac:(lia)) as (it & Hnew & Hr).
  exists c, it. split; [exact E|]. split; [exact Hnew|]. exact Hr.
Defined.
