(* ===== verification/Ext4File.v ===== *)
(** Open files of [ext4-view-rs] ([file.rs], [Ext4::read_inode_file] of [lib.rs]).

    An open file is shown to refine the array of its bytes with a cursor. *)
From S2P Require Import Prelude Ext4Base Ext4Cache Ext4Inode Ext4Extents Ext4BlockMap.

Section file.
Context `{Crc}.

Record File := mkFile { f_inode : Inode; file_blocks : FileBlocks; position : Z; f_block_index : option Z }.

Definition set_file_blocks (b : FileBlocks) (f : File) : File := mkFile (f_inode f) b (position f) (f_block_index f).
Definition set_block_index (i : option Z) (f : File) : File := mkFile (f_inode f) (file_blocks f) (position f) i.
Definition set_position (p : Z) (f : File) : File := mkFile (f_inode f) (file_blocks f) p (f_block_index f).

Definition open_inode (inode : Inode) : XR File := let? b := file_blocks_new inode in Ok (mkFile inode b 0 None).

Context {S : Type} `{BlockReader S}.

(** The block to read from: the current one, or the next one of the iterator. *)
Definition current_block (fs : Ext4) (fuel : nat) : M (File * S) Ext4Error Z :=
  let! f := it_get in
  match f_block_index f with
  | Some block_index => mok block_index
  | None =>
      let! next := on_sub file_blocks set_file_blocks (file_blocks_next fs fuel) in
      let! block_index := mlift (unwrap next) in
      let! f := it_get in
      let! _ := it_put (set_block_index (Some block_index) f) in
      mok block_index
  end.

(** [read_bytes] into a buffer of [len] bytes; the result is the part of the buffer that was filled. *)
Definition read_bytes (fs : Ext4) (fuel : nat) (len : Z) : M (File * S) Ext4Error (list Z) :=
  if len =? 0 then mok [] else
  let! f := it_get in
  let size := size_in_bytes (metadata (f_inode f)) in
  if size <=? position f then mok [] else
  let! bytes_remaining := mlift (unwrap (checked 64 (size - position f))) in
  let len := if bytes_remaining <? len then bytes_remaining else len in
  let bsize := block_size (superblock fs) in
  let! block_index := current_block fs fuel in
  let! offset_within_block := mlift (unwrap (checked 32 (position f `mod` bsize))) in
  let! bytes_remaining_in_block := mlift (unwrap (checked 32 (bsize - offset_within_block))) in
  let len := if bytes_remaining_in_block <? len then bytes_remaining_in_block else len in
  let! buf_len_u32 := mlift (unwrap (checked 32 len)) in
  let! buf :=
    if block_index =? 0 then mok (zeros (Z.to_nat len))
    else on_fs (block_read fs block_index offset_within_block len) in
  let! new_offset_within_block := mlift (unwrap (checked 32 (offset_within_block + buf_len_u32))) in
  let! f := it_get in
  let! _ := if bsize <=? new_offset_within_block then it_put (set_block_index None f) else mok tt in
  let! p := mlift (unwrap (checked 64 (position f + buf_len_u32))) in
  let! f := it_get in
  let! _ := it_put (set_position p f) in
  mok buf.

(** [self.file_blocks.next();]: the item is dropped, an error too. *)
Definition skip_block (fs : Ext4) (fuel : nat) : M (File * S) Ext4Error unit := λ p,
  match on_sub file_blocks set_file_blocks (file_blocks_next fs fuel) p with
  | (Panic, p) => (Panic, p)
  | (Hang, p) => (Hang, p)
  | (_, p) => (Ok tt, p)
  end.

Fixpoint skip_blocks (fs : Ext4) (fuel : nat) (n : nat) : M (File * S) Ext4Error unit :=
  match n with O => mok tt | Datatypes.S n => let! _ := skip_block fs fuel in skip_blocks fs fuel n end.

Definition seek_to (fs : Ext4) (fuel : nat) (pos : Z) : M (File * S) Ext4Error unit :=
  let! f := it_get in
  let! b := mlift (file_blocks_new (f_inode f)) in
  let! _ := it_put (set_block_index None (set_file_blocks b f)) in
  let num_blocks := pos / block_size (superblock fs) in
  let! _ := skip_blocks fs fuel (Z.to_nat num_blocks) in
  let! f := it_get in
  it_put (set_position pos f).

(** The loop of [read_inode_file]: [remaining] bytes of [dst] are left, [dst] starts as zeros. *)
Fixpoint read_loop (fs : Ext4) (fuel : nat) (n : nat) (remaining : Z) : M (File * S) Ext4Error (list Z) :=
  match n with
  | O => mlift Hang
  | Datatypes.S n =>
      let! bytes := read_bytes fs fuel remaining in
      if zlen bytes =? 0 then mok (zeros (Z.to_nat remaining))
      else let! rest := read_loop fs fuel n (remaining - zlen bytes) in mok (bytes ++ rest)
  end.

Definition read_inode_file (fs : Ext4) (fuel : nat) (inode : Inode) : M S Ext4Error (list Z) :=
  let! file_size_in_bytes := mlift (ok_or FileTooLarge (checked 64 (size_in_bytes (metadata inode)))) in
  let! file := mlift (open_inode inode) in
  λ s, let '(r, (_, s)) := read_loop fs fuel fuel file_size_in_bytes (file, s) in (r, s).
End file.

(** ** The content of a file *)
Section content.
Context `{Crc} (fs : Ext4) (disk : list Z).

(** A hole is a block of zeros. *)
Definition data_block (b : Z) : list Z := if b =? 0 then zeros (Z.to_nat (block_size (superblock fs))) else fs_block fs disk b.

Definition file_content (inode : Inode) (bl : list Z) : list Z := take (Z.to_nat (size_in_bytes (metadata inode))) (mjoin (data_block <$> bl)).

(** The blocks of a file: from its extents, or from its block map. *)
Inductive has_blocks (inode : Inode) : list Z → Prop :=
  | blocks_by_extents xs : Z.land (flags inode) EXTENTS = EXTENTS → has_extents fs disk inode xs → ordered 0 xs →
      has_blocks inode (file_block xs <$> seqZ 0 (file_size_in_blocks inode))
  | blocks_by_map P : Z.land (flags inode) EXTENTS ≠ EXTENTS → block_size (superblock fs) = 4 * P → length (inline_data inode) = 60%nat →
      file_size_in_blocks inode ≤ 12 + P + P * P + P * (P * P) → mapped fs disk (root_blocks (inline_data inode)) (file_size_in_blocks inode) →
      has_blocks inode (map_block fs disk (root_blocks (inline_data inode)) <$> seqZ 0 (file_size_in_blocks inode)).

(** A file whose data can be read. *)
Record file_ok (inode : Inode) (bl : list Z) : Prop := {
  fo_blocks : has_blocks inode bl;
  fo_real : Forall (λ b, b = 0 ∨ real_block fs b) bl;
  fo_count : 0 ≤ file_size_in_blocks inode < 2 ^ 32;
  fo_size : 0 ≤ size_in_bytes (metadata inode) ≤ file_size_in_blocks inode * block_size (superblock fs);
  fo_size64 : size_in_bytes (metadata inode) < 2 ^ 64;
}.
End content.

Section file_blocks.
Context `{Crc} {S : Type} `{BlockReaderLaws S fs disk good} (good_disk : disk_ok fs disk) (bytes : bytes_ok disk).

Lemma run_sub_last {T U A} (get : T → U) (set : U → T → T) (m : M (U * S) Ext4Error A) r u t :
  run_to good m (get t) r u → run_to good (on_sub get set m) t r (set u t).
Proof using. intros Hm s Hs. destruct (Hm s Hs) as (s1 & E1 & Hs1). exists s1. unfold on_sub, zoom. cbn [fst snd]. by rewrite E1. Qed.

Lemma generates_wrap {T U A} (C : U → T) (next : M (U * S) Ext4Error (option A)) next' u l :
  (∀ u r u', run_to good next u r u' → run_to good next' (C u) r (C u')) → generates good next u l → generates good next' (C u) l.
Proof using.
  intros Hw. revert u. induction l as [|a l IH]; intros u Hg; destruct Hg as (u' & Hg); exists (C u'); [by apply Hw|].
  destruct Hg as [Hr Hg]. split; [by apply Hw|by apply IH].
Qed.

Lemma file_blocks_generate inode bl : has_blocks fs disk inode bl → 0 ≤ file_size_in_blocks inode < 2 ^ 32 →
  ∃ it N, file_blocks_new inode = Ok it ∧ ∀ fuel, (N ≤ fuel)%nat → generates good (file_blocks_next fs fuel) it bl.
Proof using All.
  intros [xs Hf Hx Ho|P Hf HP Hl Hcap Hm] HN; unfold file_blocks_new.
  - rewrite Hf, Z.eqb_refl. destruct (extents_blocks_generate inode xs good_disk bytes Hx Ho HN) as (it & n & Hnew & Hg).
    exists (FB_ExtentsBlocks it), n. split; [by rewrite Hnew|]. intros fuel Hfu. eapply generates_wrap, Hg; [|done].
    intros u r u' Hr. apply run_get. exact (run_sub_last (λ _, u) (λ b _, FB_ExtentsBlocks b) _ r u' (FB_ExtentsBlocks u) Hr).
  - rewrite (proj2 (Z.eqb_neq _ _) Hf). destruct (block_map_generate inode P good_disk HP Hl HN Hcap Hm) as (it & n & Hnew & Hg).
    exists (FB_BlockMap it), n. split; [by rewrite Hnew|]. intros fuel Hfu. eapply generates_wrap, Hg; [|done].
    intros u r u' Hr. apply run_get. exact (run_sub_last (λ _, u) (λ b _, FB_BlockMap b) _ r u' (FB_BlockMap u) Hr).
Qed.
End file_blocks.

(** ** An open file is an array of bytes with a cursor *)
Lemma field_mjoin {A} (bs : list (list A)) (n : nat) i b off m : Forall (λ b, length b = n) bs → bs !! i = Some b → (off + m ≤ n)%nat →
  field (i * n + off) m (mjoin bs) = field off m b.
Proof.
  intros Hl Hi Hm. revert i Hi. induction bs as [|c bs IH]; intros i Hi; [done|]. apply Forall_cons in Hl as [Hc Hl]. cbn. destruct i as [|i].
  - injection Hi as ->. apply field_app_l. lia.
  - rewrite field_app_skip by lia. replace (S i * n + off - length c)%nat with (i * n + off)%nat by lia. by apply IH.
Qed.

Lemma data_block_length fs disk b : disk_ok fs disk → b = 0 ∨ real_block fs b → length (data_block fs disk b) = Z.to_nat (block_size (superblock fs)).
Proof.
  intros Hd Hb. unfold data_block. destruct (Z.eqb_spec b 0); [apply length_replicate|]. apply (length_fs_block Hd). tauto.
Qed.

Lemma length_data_blocks fs disk bl : disk_ok fs disk → Forall (λ b, b = 0 ∨ real_block fs b) bl →
  length (mjoin (data_block fs disk <$> bl)) = (length bl * Z.to_nat (block_size (superblock fs)))%nat.
Proof.
  intros Hd Hr. induction Hr as [|b l Hb Hl IH]; [done|].
  change (mjoin (data_block fs disk <$> b :: l)) with (data_block fs disk b ++ mjoin (data_block fs disk <$> l)).
  by rewrite length_app, IH, data_block_length by done.
Qed.

(** ** Iterators that have ended *)
Lemma iter_next_done {S T A} (is_done : T → bool) (finish : T → T) (next_impl : M (T * S) Ext4Error (option A)) fuel t s :
  is_done t = true → (0 < fuel)%nat → iter_next is_done finish next_impl fuel (t, s) = (Ok None, (t, s)).
Proof. intros Hd Hf. destruct fuel; [lia|]. cbn. by rewrite Hd. Qed.

Lemma iter_next_err {S T A} (is_done : T → bool) (finish : T → T) (next_impl : M (T * S) Ext4Error (option A)) fuel p e t s :
  (∀ t, is_done (finish t) = true) → iter_next is_done finish next_impl fuel p = (Err e, (t, s)) → is_done t = true ∧ (0 < fuel)%nat.
Proof.
  intros Hfin. revert p. induction fuel as [|fuel IH]; intros p; [done|]. cbn [iter_next]. destruct (is_done p.1); [done|].
  destruct (next_impl p) as [[[a|]|e'| |] [t' s']]; try done.
  - intros Hn. split; [by eapply IH|lia].
  - intros [= -> <- <-]. split; [apply Hfin|lia].
Qed.

(** After an error the iterator over the blocks has no more items. *)
Lemma file_blocks_next_err `{Crc} {S} `{BlockReader S} fs fuel x s e x' s' :
  file_blocks_next fs fuel (x, s) = (Err e, (x', s')) → ∀ s'', file_blocks_next fs fuel (x', s'') = (Ok None, (x', s'')).
Proof.
  unfold file_blocks_next, mbindM, it_get. cbn [fst]. destruct x as [b|b]; unfold on_sub, zoom; cbn [fst snd].
  - destruct (extents_blocks_next fs fuel (b, s)) as [r [b' s1]] eqn:E. intros [= -> <- <-] s''.
    destruct (iter_next_err eb_is_done eb_done (extents_blocks_next_impl fs fuel) fuel (b, s) e b' s1 (λ _, eq_refl) E). cbn. unfold extents_blocks_next. by rewrite iter_next_done.
  - destruct (block_map_next fs fuel (b, s)) as [r [b' s1]] eqn:E. intros [= -> <- <-] s''.
    destruct (iter_next_err bm_is_done bm_done (block_map_next_impl fs fuel) fuel (b, s) e b' s1 (λ _, eq_refl) E). cbn. unfold block_map_next. by rewrite iter_next_done.
Qed.

Lemma iter_next_none {S T A} (is_done : T → bool) (finish : T → T) (next_impl : M (T * S) Ext4Error (option A)) fuel p t s :
  iter_next is_done finish next_impl fuel p = (Ok None, (t, s)) → is_done t = true ∧ (0 < fuel)%nat.
Proof.
  revert p. induction fuel as [|fuel IH]; intros p; [done|]. cbn [iter_next]. destruct (is_done p.1) eqn:Ed; [intros [= ->]; split; [done|lia]|].
  destruct (next_impl p) as [[[a|]|e'| |] [t' s']]; try done. intros Hn. split; [by eapply IH|lia].
Qed.

Lemma file_blocks_next_none `{Crc} {S} `{BlockReader S} fs fuel x s x' s' :
  file_blocks_next fs fuel (x, s) = (Ok None, (x', s')) → ∀ s'', file_blocks_next fs fuel (x', s'') = (Ok None, (x', s'')).
Proof.
  unfold file_blocks_next, mbindM, it_get. cbn [fst]. destruct x as [b|b]; unfold on_sub, zoom; cbn [fst snd].
  - destruct (extents_blocks_next fs fuel (b, s)) as [r [b' s1]] eqn:E. intros [= -> <- <-] s''.
    destruct (iter_next_none eb_is_done eb_done (extents_blocks_next_impl fs fuel) fuel (b, s) b' s1 E). cbn. unfold extents_blocks_next. by rewrite iter_next_done.
  - destruct (block_map_next fs fuel (b, s)) as [r [b' s1]] eqn:E. intros [= -> <- <-] s''.
    destruct (iter_next_none bm_is_done bm_done (block_map_next_impl fs fuel) fuel (b, s) b' s1 E). cbn. unfold block_map_next. by rewrite iter_next_done.
Qed.

(** How much a call reads: up to the end of the block, of the file or of the buffer. *)
Definition chunk (bsize size pos n : Z) : Z := if size <=? pos then 0 else Z.min (Z.min (size - pos) n) (bsize - pos `mod` bsize).

(** Reads and seeks, and what they do on an array of bytes with a cursor. *)
Inductive FileOp := ReadOp (n : Z) | SeekOp (p : Z).

Definition op_ok (op : FileOp) : Prop := match op with ReadOp n => 0 ≤ n | SeekOp p => 0 ≤ p < 2 ^ 64 end.

Fixpoint array_ops (bsize : Z) (content : list Z) (pos : Z) (ops : list FileOp) : list (list Z) :=
  match ops with
  | [] => []
  | ReadOp n :: ops =>
      let m := chunk bsize (zlen content) pos n in
      field (Z.to_nat pos) (Z.to_nat m) content :: array_ops bsize content (pos + m) ops
  | SeekOp p :: ops => array_ops bsize content p ops
  end.

Fixpoint run_ops `{Crc} {S} `{BlockReader S} (fs : Ext4) (fuel : nat) (ops : list FileOp) : M (File * S) Ext4Error (list (list Z)) :=
  match ops with
  | [] => mok []
  | ReadOp n :: ops => let! bytes := read_bytes fs fuel n in let! rest := run_ops fs fuel ops in mok (bytes :: rest)
  | SeekOp p :: ops => let! _ := seek_to fs fuel p in run_ops fs fuel ops
  end.

Section refines.
Context `{Crc} {S : Type} `{BlockReaderLaws S fs disk good} (good_disk : disk_ok fs disk) (inode : Inode) (bl : list Z) (ok : file_ok fs disk inode bl).
Context (it0 : FileBlocks) (fuel : nat) (new : file_blocks_new inode = Ok it0) (gen : generates good (file_blocks_next fs fuel) it0 bl).
Let bsize := block_size (superblock fs).
Let size := size_in_bytes (metadata inode).
Let content := file_content fs disk inode bl.

Lemma length_bl : zlen bl = file_size_in_blocks inode.
Proof using ok. clear - ok. destruct ok as [Hb _ Hc _ _]. destruct Hb; unfold zlen; rewrite length_fmap, length_seqZ; lia. Qed.

(** Bytes of one block of the file. *)
Lemma content_field pos m b : 0 ≤ pos → 0 ≤ m → pos `mod` bsize + m ≤ bsize → pos + m ≤ size → bl !! Z.to_nat (pos / bsize) = Some b →
  field (Z.to_nat pos) (Z.to_nat m) content = field (Z.to_nat (pos `mod` bsize)) (Z.to_nat m) (data_block fs disk b).
Proof using All.
  intros Hp Hm Ho Hs Hb. pose proof (dk_bsize _ _ good_disk) as Hbs. fold bsize in Hbs.
  pose proof (Z.div_mod pos bsize ltac:(lia)) as Hdm. pose proof (Z.mod_pos_bound pos bsize ltac:(lia)). pose proof (Z.div_pos pos bsize Hp ltac:(lia)).
  rewrite <- (field_mjoin (data_block fs disk <$> bl) (Z.to_nat bsize) (Z.to_nat (pos / bsize)) (data_block fs disk b)).
  - subst content. unfold file_content. fold size. rewrite <- (drop_0 (mjoin _)) at 1. fold (field 0 (Z.to_nat size) (mjoin (data_block fs disk <$> bl))).
    rewrite field_field by lia. f_equal. nia.
  - apply Forall_fmap. eapply Forall_impl; [apply (fo_real _ _ _ _ ok)|]. intros c Hc. by apply data_block_length.
  - by rewrite list_lookup_fmap, Hb.
  - lia.
Qed.

(** The states of an open file. *)
Definition file_at (f : File) (pos : Z) : Prop := f_inode f = inode ∧ position f = pos ∧
  match f_block_index f with
  | None => generates good (file_blocks_next fs fuel) (file_blocks f) (drop (Z.to_nat (pos / bsize)) bl)
  | Some b => pos `mod` bsize ≠ 0 ∧ bl !! Z.to_nat (pos / bsize) = Some b ∧
      generates good (file_blocks_next fs fuel) (file_blocks f) (drop (Datatypes.S (Z.to_nat (pos / bsize))) bl)
  end.

Lemma run_bind {T A B} (m : M (T * S) Ext4Error A) a t1 (k : A → M (T * S) Ext4Error B) t r t' :
  run_to good m t (Ok a) t1 → run_to good (k a) t1 r t' → run_to good (mbindM m k) t r t'.
Proof using. intros Hm Hk s Hs. destruct (Hm s Hs) as (s1 & E1 & Hs1). unfold mbindM. rewrite E1. by apply Hk. Qed.

Lemma block_exists pos : 0 ≤ pos < size → ∃ b, bl !! Z.to_nat (pos / bsize) = Some b.
Proof using All.
  intros Hp. apply lookup_lt_is_Some. pose proof length_bl as Hl. destruct ok as [_ _ _ Hs _]. pose proof (dk_bsize _ _ good_disk). unfold zlen in Hl.
  assert (pos / bsize < file_size_in_blocks inode) by (apply Z.div_lt_upper_bound; subst bsize size; lia).
  assert (0 ≤ pos / bsize) by (apply Z.div_pos; subst bsize; lia). lia.
Qed.

Lemma current_block_ok f pos : file_at f pos → 0 ≤ pos < size → ∃ b x,
  run_to good (current_block fs fuel) f (Ok b) (mkFile inode x pos (Some b)) ∧ bl !! Z.to_nat (pos / bsize) = Some b ∧
  generates good (file_blocks_next fs fuel) x (drop (Datatypes.S (Z.to_nat (pos / bsize))) bl).
Proof using All.
  intros (Hi & Hpos & Hf) Hp. destruct (block_exists pos Hp) as (b & Hb). destruct f as [fi x p [c|]]; cbn in *; subst fi p.
  - destruct Hf as (_ & Hc & Hg). exists c, x. split; [|done]. apply run_get, run_ok.
  - erewrite drop_S in Hf by done. destruct Hf as (x' & Hr & Hg). exists b, x'. split; [|done]. apply run_get. cbn [f_block_index].
    eapply run_sub; [exact Hr|]. eapply run_lift; [done|]. apply run_get, run_put, run_ok.
Qed.

Abbreviation read_len := (chunk bsize size).

Lemma read_len_bound pos n : 0 ≤ pos → 0 ≤ n → 0 ≤ read_len pos n ≤ n ∧ (pos < size → 0 < n → 0 < read_len pos n) ∧ pos + read_len pos n ≤ Z.max pos size.
Proof using All.
  intros Hp Hn. unfold chunk. pose proof (dk_bsize _ _ good_disk) as Hbs. fold bsize in Hbs. pose proof (Z.mod_pos_bound pos bsize ltac:(lia)).
  destruct (Z.leb_spec size pos); lia.
Qed.

(** The bytes of block [b], a hole or not. *)
Lemma block_bytes b off m (f : File) : b = 0 ∨ real_block fs b → 0 ≤ off < bsize → 0 ≤ m → off + m ≤ bsize →
  run_to good (if b =? 0 then mok (zeros (Z.to_nat m)) else on_fs (block_read fs b off m)) f
    (Ok (field (Z.to_nat off) (Z.to_nat m) (data_block fs disk b))) f.
Proof using All.
  intros Hb Ho Hm Hom. unfold data_block. destruct (Z.eqb_spec b 0) as [->|Hne].
  - replace (field _ _ _) with (zeros (Z.to_nat m)); [apply run_ok|]. unfold field, zeros. rewrite drop_replicate, take_replicate. f_equal. fold bsize. lia.
  - intros s Hs. destruct Hb as [?|Hb]; [done|]. destruct (block_read_ok good_disk b off m Hb ltac:(lia) ltac:(lia) ltac:(lia) s Hs) as (s' & E & Hs').
    exists s'. unfold on_fs, zoom. cbn [fst snd]. by rewrite E.
Qed.

Lemma next_block pos m : 0 ≤ pos → 0 < m ≤ bsize - pos `mod` bsize →
  (pos + m) / bsize = (if bsize <=? pos `mod` bsize + m then pos / bsize + 1 else pos / bsize) ∧
  ((pos + m) `mod` bsize = if bsize <=? pos `mod` bsize + m then 0 else pos `mod` bsize + m).
Proof using All.
  intros Hp Hm. pose proof (dk_bsize _ _ good_disk) as Hbs. fold bsize in Hbs. pose proof (Z.div_mod pos bsize ltac:(lia)) as Hdm.
  pose proof (Z.mod_pos_bound pos bsize ltac:(lia)). destruct (Z.leb_spec bsize (pos `mod` bsize + m)).
  - split; symmetry; [apply Z.div_unique with 0|apply Z.mod_unique with (pos / bsize + 1)]; lia.
  - split; symmetry; [apply Z.div_unique with (pos `mod` bsize + m)|apply Z.mod_unique with (pos / bsize)]; lia.
Qed.

Lemma read_bytes_ok f pos n : file_at f pos → 0 ≤ pos → 0 ≤ n → ∃ f',
  run_to good (read_bytes fs fuel n) f (Ok (field (Z.to_nat pos) (Z.to_nat (read_len pos n)) content)) f' ∧ file_at f' (pos + read_len pos n).
Proof using All.
  intros Hf Hp Hn. unfold read_bytes. destruct (Z.eqb_spec n 0) as [->|Hn0].
  { exists f. replace (read_len pos 0) with 0 by (pose proof (read_len_bound pos 0); lia). rewrite Z.add_0_r. split; [apply run_ok|done]. }
  destruct (Z.leb_spec size pos) as [Hs|Hs].
  { exists f. unfold chunk. rewrite (proj2 (Z.leb_le _ _) Hs), Z.add_0_r. split; [|done]. destruct Hf as (Hi & Hpos & _). apply run_get. cbv zeta.
    rewrite Hi, Hpos. fold size. rewrite (proj2 (Z.leb_le _ _) Hs). apply run_ok. }
  destruct (current_block_ok f pos Hf ltac:(lia)) as (b & x & Hcur & Hb & Hg). destruct Hf as (Hi & Hpos & _).
  pose proof (dk_bsize _ _ good_disk) as Hbs. fold bsize in Hbs. pose proof (Z.mod_pos_bound pos bsize ltac:(lia)) as Hmod.
  pose proof (fo_size64 _ _ _ _ ok) as H64. fold size in H64. pose proof (read_len_bound pos n Hp Hn) as Hlen.
  set (m := read_len pos n) in *. assert (m = Z.min (Z.min (size - pos) n) (bsize - pos `mod` bsize)) as Hm.
  { subst m. unfold chunk. by rewrite (proj2 (Z.leb_gt _ _) Hs). }
  destruct (next_block pos m Hp ltac:(lia)) as [Hdiv Hmd].
  assert (b = 0 ∨ real_block fs b) as Hreal by exact (Forall_lookup_1 _ _ _ _ (fo_real _ _ _ _ ok) Hb).
  rewrite (content_field pos m b Hp) by (lia || done).
  exists (mkFile inode x (pos + m) (if bsize <=? pos `mod` bsize + m then None else Some b)). split.
  - apply run_get. cbv zeta. rewrite Hi, Hpos. fold size bsize. rewrite (proj2 (Z.leb_gt _ _) Hs). eapply run_lift; [by rewrite checked_ok by lia|].
    eapply run_bind; [exact Hcur|]. eapply run_lift; [by rewrite checked_ok by lia|]. eapply run_lift; [by rewrite checked_ok by lia|].
    assert ((if bsize - pos `mod` bsize <? (if size - pos <? n then size - pos else n) then bsize - pos `mod` bsize else if size - pos <? n then size - pos else n) = m) as ->.
    { repeat case_match; lia. }
    eapply run_lift; [by rewrite checked_ok by lia|]. eapply run_bind; [apply block_bytes; (done || lia)|]. eapply run_lift; [by rewrite checked_ok by lia|].
    apply run_get. destruct (bsize <=? pos `mod` bsize + m).
    + apply run_put. eapply run_lift; [cbn [position]; by rewrite checked_ok by lia|]. apply run_get, run_put, run_ok.
    + eapply run_bind; [apply run_ok|]. eapply run_lift; [cbn [position]; by rewrite checked_ok by lia|]. apply run_get, run_put, run_ok.
  - split; [done|]. split; [done|]. cbn [f_block_index file_blocks]. rewrite Hdiv, Hmd. destruct (Z.leb_spec bsize (pos `mod` bsize + m)).
    + replace (Z.to_nat (pos / bsize + 1)) with (Datatypes.S (Z.to_nat (pos / bsize))) by (pose proof (Z.div_pos pos bsize); lia). done.
    + split; [lia|done].
Qed.

Lemma skip_blocks_ok f (k j : nat) : f_block_index f = None → f_inode f = inode →
  generates good (file_blocks_next fs fuel) (file_blocks f) (drop j bl) →
  ∃ x, run_to good (skip_blocks fs fuel k) f (Ok tt) (mkFile inode x (position f) None) ∧ generates good (file_blocks_next fs fuel) x (drop (j + k) bl).
Proof using All.
  revert f j. induction k as [|k IH]; intros [fi x p bi] j Hb Hi Hg; cbn in *; subst.
  - exists x. rewrite Nat.add_0_r. split; [apply run_ok|done].
  - assert (∃ o x', run_to good (file_blocks_next fs fuel) x (Ok o) x' ∧ generates good (file_blocks_next fs fuel) x' (drop (Datatypes.S j) bl)) as (o & x' & Hr & Hg').
    { destruct (bl !! j) as [b|] eqn:Hj.
      - erewrite drop_S in Hg by done. destruct Hg as (x' & Hr & Hg). by exists (Some b), x'.
      - apply lookup_ge_None in Hj. rewrite drop_ge in Hg by lia. destruct Hg as (x' & Hr). exists None, x'. split; [done|]. rewrite drop_ge by lia.
        exists x'. intros s Hs. destruct (Hr s Hs) as (s' & E & _). exists s. split; [|done]. exact (file_blocks_next_none _ _ _ _ _ _ E s). }
    destruct (IH (mkFile inode x' p None) (Datatypes.S j)) as (x'' & Hr' & Hg''); [done|done|done|]. exists x''. split.
    + eapply run_bind; [|exact Hr']. intros s Hs. destruct (Hr s Hs) as (s' & E & Hs'). exists s'. split; [|done].
      unfold skip_block, on_sub, zoom. cbn [fst snd file_blocks]. by rewrite E.
    + by replace (j + Datatypes.S k)%nat with (Datatypes.S j + k)%nat by lia.
Qed.

Lemma seek_to_ok f pos p : file_at f pos → 0 ≤ p → ∃ f', run_to good (seek_to fs fuel p) f (Ok tt) f' ∧ file_at f' p.
Proof using All.
  intros (Hi & _ & _) Hp.
  destruct (skip_blocks_ok (mkFile inode it0 (position f) None) (Z.to_nat (p / bsize)) 0) as (x & Hr & Hg); [done|done|done|].
  exists (mkFile inode x p None). split; [|by repeat split]. apply run_get. rewrite Hi. eapply run_lift; [exact new|]. apply run_put. cbv zeta. fold bsize.
  unfold set_block_index, set_file_blocks. cbn [f_inode file_blocks position]. rewrite Hi. eapply run_bind; [exact Hr|]. apply run_get.
  intros s Hs'. by exists s.
Qed.

(** ** [read_inode_file] *)
Lemma length_content : zlen content = size.
Proof using good_disk ok.
  pose proof length_bl as Hl. clear gen new. destruct ok as [_ Hr Hc Hs _]. pose proof (dk_bsize _ _ good_disk) as Hbs. subst content size bsize. unfold file_content, zlen. rewrite length_take, Nat.min_l; [lia|].
  rewrite length_data_blocks by done. unfold zlen in Hl. nia.
Qed.

Lemma file_read_loop_ok (n : nat) f pos : file_at f pos → 0 ≤ pos ≤ size → size - pos < Z.of_nat n →
  ∃ f', run_to good (read_loop fs fuel n (size - pos)) f (Ok (drop (Z.to_nat pos) content)) f'.
Proof using All.
  revert f pos. induction n as [|n IH]; intros f pos Hf Hp Hn; [lia|]. destruct (read_bytes_ok f pos (size - pos) Hf ltac:(lia) ltac:(lia)) as (f1 & Hr & Hf1).
  pose proof (read_len_bound pos (size - pos) ltac:(lia) ltac:(lia)) as Hlen. set (m := read_len pos (size - pos)) in *. pose proof length_content as Hc.
  assert (zlen (field (Z.to_nat pos) (Z.to_nat m) content) = m) as Hz by (unfold zlen in *; rewrite length_field; lia).
  cbn [read_loop]. destruct (decide (pos = size)) as [->|Hne].
  - exists f1. eapply run_bind; [exact Hr|]. rewrite Hz. replace m with 0 by lia. cbn [Z.eqb]. rewrite Z.sub_diag, drop_ge by (unfold zlen in Hc; lia). apply run_ok.
  - destruct (IH f1 (pos + m) Hf1 ltac:(lia) ltac:(lia)) as (f2 & Hr2). exists f2. eapply run_bind; [exact Hr|]. rewrite Hz.
    rewrite (proj2 (Z.eqb_neq _ _)) by lia. replace (size - pos - m) with (size - (pos + m)) by lia. eapply run_bind; [exact Hr2|].
    replace (field _ _ _ ++ _) with (drop (Z.to_nat pos) content); [apply run_ok|]. unfold field. rewrite Z2Nat.inj_add, <- drop_drop by lia.
    by rewrite take_drop.
Qed.

Lemma run_ops_ok ops f pos : file_at f pos → 0 ≤ pos → Forall op_ok ops →
  ∃ f', run_to good (run_ops fs fuel ops) f (Ok (array_ops bsize content pos ops)) f'.
Proof using All.
  intros Hf Hp Hops. revert f pos Hf Hp. induction Hops as [|op ops Hop Hops IH]; intros f pos Hf Hp; [exists f; apply run_ok|]. destruct op as [n|p]; cbn in Hop |- *.
  - destruct (read_bytes_ok f pos n Hf Hp Hop) as (f1 & Hr & Hf1). pose proof (read_len_bound pos n Hp Hop). destruct (IH f1 _ Hf1 ltac:(lia)) as (f2 & Hr2).
    exists f2. rewrite length_content. eapply run_bind; [exact Hr|]. eapply run_bind; [exact Hr2|]. apply run_ok.
  - destruct (seek_to_ok f pos p Hf ltac:(lia)) as (f1 & Hr & Hf1). destruct (IH f1 _ Hf1 ltac:(lia)) as (f2 & Hr2). exists f2. by eapply run_bind.
Qed.
End refines.

(** C10: an open file of [ext4-view-rs] refines the array of its bytes with a cursor. For every file of a readable
    filesystem, with an extent tree or a block map of any depth and with holes, and for every sequence of [read_bytes]
    with any buffer sizes and [seek_to] to any position, also past the end, enough fuel gives exactly the bytes that the
    same operations give on the array, each read up to the end of the block, of the file or of the buffer. *)
Theorem open_file_refines `{Crc} {S} `{BlockReaderLaws S fs disk good} inode bl : disk_ok fs disk → bytes_ok disk → file_ok fs disk inode bl →
  ∃ N, ∀ fuel, (N ≤ fuel)%nat → ∃ f, open_inode inode = Ok f ∧
    ∀ ops, Forall op_ok ops →
      ∃ f', run_to good (run_ops fs fuel ops) f (Ok (array_ops (block_size (superblock fs)) (file_content fs disk inode bl) 0 ops)) f'.
Proof.
  intros Hd Hb Hok. destruct (file_blocks_generate Hd Hb inode bl (fo_blocks _ _ _ _ Hok) (fo_count _ _ _ _ Hok)) as (it & n & Hnew & Hg).
  exists n. intros fuel Hf. exists (mkFile inode it 0 None). split; [unfold open_inode; by rewrite Hnew|]. intros ops Hops.
  apply (run_ops_ok Hd inode bl Hok it fuel Hnew (Hg fuel Hf)); [|lia|done]. split; [done|]. split; [done|]. exact (Hg fuel Hf).
Qed.

Lemma read_inode_file_yields `{Crc} {S} `{BlockReaderLaws S fs disk good} inode bl : disk_ok fs disk → bytes_ok disk → file_ok fs disk inode bl →
  ∃ N, ∀ fuel, (N ≤ fuel)%nat → yields good (read_inode_file fs fuel inode) (Ok (file_content fs disk inode bl)).
Proof.
  intros Hd Hb Hok. destruct (file_blocks_generate Hd Hb inode bl (fo_blocks _ _ _ _ Hok) (fo_count _ _ _ _ Hok)) as (it & n & Hnew & Hg).
  exists (n + Z.to_nat (size_in_bytes (metadata inode)) + 1)%nat. intros fuel Hf. pose proof Hok as [_ _ _ Hs H64].
  destruct (file_read_loop_ok Hd inode bl Hok it fuel Hnew (Hg fuel ltac:(lia)) fuel (mkFile inode it 0 None) 0) as (f' & Hr); [|lia..|].
  { split; [done|]. split; [done|]. exact (Hg fuel ltac:(lia)). }
  rewrite Z.sub_0_r in Hr. unfold read_inode_file. eapply yields_bind; [rewrite checked_ok by lia; apply yields_lift|]. cbv beta.
  eapply yields_bind; [unfold open_inode; rewrite Hnew; apply yields_lift|]. cbv beta. intros s Hs'. destruct (Hr s Hs') as (s' & E & Hs''). exists s'.
  rewrite E. done.
Qed.

(** [read_inode_file] returns the content of the file: the bytes of its blocks in order, zeros for the holes, cut at
    the size of the file. *)
Theorem read_inode_file_exact `{Crc} {S} `{BlockReaderLaws S fs disk good} inode bl : disk_ok fs disk → bytes_ok disk → file_ok fs disk inode bl →
  ∃ N, ∀ fuel, (N ≤ fuel)%nat → yields good (read_inode_file fs fuel inode) (Ok (file_content fs disk inode bl)).
Proof. intros Hd Hb Hok. exact (read_inode_file_yields inode bl Hd Hb Hok). Qed.

(** ** A file in an image: a root node that points to block 3, a leaf there with one extent, a hole before it *)
Module demo.
Definition bsize : Z := 1024.
Definition pad (n : nat) (l : list Z) : list Z := l ++ zeros (n - length l).
Definition leaf_node : list Z := le_bytes 2 0xf30a ++ le_bytes 2 1 ++ le_bytes 2 84 ++ le_bytes 2 0 ++ zeros 4 ++ le_bytes 4 1 ++ le_bytes 2 1 ++ le_bytes 2 0 ++ le_bytes 4 5.
Definition root : list Z := le_bytes 2 0xf30a ++ le_bytes 2 1 ++ le_bytes 2 4 ++ le_bytes 2 1 ++ zeros 4 ++ le_bytes 4 0 ++ le_bytes 4 3 ++ zeros 4.
Definition data : list Z := (λ i, i `mod` 251) <$> seqZ 0 1024.
Definition disk : list Z := zeros 3072 ++ pad 1024 leaf_node ++ zeros 1024 ++ data ++ zeros 2048.
Definition fs : Ext4 := mkExt4 (demo_sb 1024 8) [] ∅.
Definition inode (size : Z) : Inode := mkInode 12 (pad 60 root) (mkMeta size 0x8000 Regular 0 0) EXTENTS (Z.ones 32 : @Digest crc32c) ((size + 1023) / 1024).

Lemma file_disk_ok : disk_ok fs disk.
Proof. split; [vm_compute; done..|]. apply map_Forall_empty. Defined.

Lemma file_bytes_demo : bytes_ok disk.
Proof. apply bytes_ok_forallb. vm_compute. reflexivity. Defined.

Lemma file_demo : file_ok fs disk (inode 2000) [0; 5].
Proof.
  split; [|repeat constructor; vm_compute; intuition congruence|vm_compute; intuition congruence..].
  apply (blocks_by_extents fs disk (inode 2000) [mkExtent 1 5 1]); [done| |vm_compute; intuition congruence].
  exists (take 24 (pad 60 root)), 1. split.
  { split; try done; [apply bytes_ok_forallb; by vm_compute|by vm_compute..]. }
  apply (subtree_inner _ _ _ (field 12 12 (pad 60 root)) [] 1 (take 24 leaf_node) 0 [mkExtent 1 5 1] []); [done| |apply (subtree_leaf _ _ _ (field 12 12 leaf_node)), subtree_nil|apply subtree_nil].
  split; vm_compute; intuition congruence.
Defined.
End demo.

Lemma open_file_refines_witness : ∃ N, ∀ fuel, (N ≤ fuel)%nat → ∃ f, open_inode (demo.inode 2000) = Ok f ∧ ∃ f',
  run_to (@cache_ok vec_reader vec_reader_laws demo.fs demo.disk) (run_ops demo.fs fuel [ReadOp 3; SeekOp 1274; ReadOp 2; SeekOp 1999; ReadOp 7]) f
    (Ok [[0; 0; 0]; [250; 0]; [222]]) f'.
Proof.
  destruct (open_file_refines (S := @FsState vec_reader) (H1 := cached_reader_laws (H0 := vec_reader_laws) demo.fs demo.disk demo.file_disk_ok)
    (demo.inode 2000) [0; 5] demo.file_disk_ok demo.file_bytes_demo demo.file_demo) as (N & HN).
  exists N. intros fuel Hf. destruct (HN fuel Hf) as (f & Hopen & Hops). exists f. split; [exact Hopen|].
  destruct (Hops [ReadOp 3; SeekOp 1274; ReadOp 2; SeekOp 1999; ReadOp 7]) as (f' & Hr); [repeat constructor; vm_compute; congruence|].
  exists f'. replace (array_ops _ _ _ _) with [[0; 0; 0]; [250; 0]; [222]] in Hr by (vm_compute; reflexivity). exact Hr.
Defined.

Lemma read_inode_file_exact_witness : ∃ N, ∀ fuel, (N ≤ fuel)%nat →
  yields (@cache_ok vec_reader vec_reader_laws demo.fs demo.disk) (read_inode_file demo.fs fuel (demo.inode 2000)) (Ok (zeros 1024 ++ take 976 demo.data)).
Proof.
  destruct (read_inode_file_exact (S := @FsState vec_reader) (H1 := cached_reader_laws (H0 := vec_reader_laws) demo.fs demo.disk demo.file_disk_ok)
    (demo.inode 2000) [0; 5] demo.file_disk_ok demo.file_bytes_demo demo.file_demo) as (N & HN).
  exists N. intros fuel Hf. replace (zeros 1024 ++ take 976 demo.data) with (file_content demo.fs demo.disk (demo.inode 2000) [0; 5]) by (vm_compute; reflexivity).
  exact (HN fuel Hf).
Defined.

(** ** Reading on after an error *)
(** A read before the end of the file starts with the current block. *)
Lemma read_bytes_current `{Crc} {S} `{BlockReader S} fs fuel k (f : File) (s : S) :
  0 < k → 0 ≤ position f → position f < size_in_bytes (metadata (f_inode f)) < 2 ^ 64 →
  ∃ K, read_bytes fs fuel k (f, s) = mbindM (current_block fs fuel) K (f, s).
Proof.
  intros Hk Hp Hs. unfold read_bytes. rewrite (proj2 (Z.eqb_neq _ _)) by lia. erewrite bind_ok by reflexivity. cbv beta zeta.
  cbn [fst]. rewrite (proj2 (Z.leb_gt _ _)) by lia. rewrite checked_ok by lia. erewrite bind_ok by reflexivity. cbv beta. eexists. reflexivity.
Qed.

(** Reading on after an error panics. When the iterator over the blocks fails, [read_bytes] reports the error once;
    the iterator has ended then, and the next call of [read_bytes] before the end of the file unwraps an item that is
    not there. *)
Theorem read_after_error_panics `{Crc} {S} `{BlockReader S} fs fuel n m f s e x s' :
  0 < n → 0 < m → 0 ≤ position f → position f < size_in_bytes (metadata (f_inode f)) < 2 ^ 64 → f_block_index f = None →
  file_blocks_next fs fuel (file_blocks f, s) = (Err e, (x, s')) →
  ∃ f', read_bytes fs fuel n (f, s) = (Err e, (f', s')) ∧ (read_bytes fs fuel m (f', s')).1 = Panic.
Proof.
  intros Hn Hm Hp Hs Hb He. pose proof (file_blocks_next_err _ _ _ _ _ _ _ He) as Hnone. exists (set_file_blocks x f). split.
  - destruct (read_bytes_current fs fuel n f s Hn Hp Hs) as (K & ->). unfold mbindM at 1, current_block. erewrite bind_ok by reflexivity. cbv beta. cbn [fst]. rewrite Hb.
    unfold mbindM, on_sub, zoom. cbn [fst snd]. by rewrite He.
  - destruct (read_bytes_current fs fuel m (set_file_blocks x f) s' Hm Hp Hs) as (K & ->). apply bind_panic. unfold current_block.
    erewrite bind_ok by reflexivity. cbv beta. cbn [fst set_file_blocks f_block_index]. rewrite Hb. erewrite bind_ok.
    2: { unfold on_sub, zoom. cbn [fst snd set_file_blocks file_blocks]. rewrite Hnone. reflexivity. }
    done.
Qed.

(** A leaf that carries the wrong magic number. *)
Lemma read_after_error_panics_witness :
  let fs := mkExt4 (demo_sb 1024 2) [] ∅ in
  let inode := mkInode (H := crc32c) 12 (zeros 60) (mkMeta 100 0x8000 Regular 0 0) 0 (Z.ones 32 : @Digest crc32c) 13 in
  let b := mkEb (mkExtents 12 [mkItem (zeros 12 ++ zeros 4 ++ le_bytes 4 1 ++ zeros 4) 0 1] (Z.ones 32 : @Digest crc32c) false) None 0 0 0 1 false 12 in
  let f := mkFile inode (FB_ExtentsBlocks b) 0 None in
  let c := mkCache (zeros 1024) 1 [mkEntry 0 (zeros 1024)] 1024 2 in
  ∃ f' s', read_bytes fs 5 1 (f, mkFs (H := vec_reader) c (zeros 2048)) = (Err (Corrupt (ExtentMagic 12)), (f', s')) ∧ (read_bytes fs 5 1 (f', s')).1 = Panic.
Proof.
  intros fs inode b f c.
  destruct (file_blocks_next fs 5 (file_blocks f, mkFs (H := vec_reader) c (zeros 2048))) as [r [x s']] eqn:E.
  assert (r = Err (Corrupt (ExtentMagic 12))) as -> by (apply (f_equal fst) in E; cbn [fst] in E; rewrite <- E; vm_compute; reflexivity).
  destruct (read_after_error_panics fs 5 1 1 f _ _ _ _ ltac:(lia) ltac:(lia) ltac:(cbn; lia) ltac:(cbn; lia) eq_refl E) as (f' & E1 & E2).
  exists f', s'. split; [exact E1|exact E2].
Defined.
