(* ===== verification/Ext4Path.v ===== *)
(** Paths and names of [ext4-view-rs] ([path.rs], the names of [dir_entry.rs]).

    A path is the list of its bytes, in [Path] and in [PathBuf]. *)
From S2P Require Import Prelude Ext4Base.

Definition SEPARATOR : Z := 47.
Definition DOT : list Z := [46].
Definition DOTDOT : list Z := [46; 46].
Definition is_sep (b : Z) : bool := b =? SEPARATOR.

(** [slice::split] at the separators. *)
Fixpoint split_sep (s : list Z) : list (list Z) :=
  match s with
  | [] => [[]]
  | c :: s =>
      if is_sep c then [] :: split_sep s
      else match split_sep s with w :: ws => (c :: w) :: ws | [] => [[c]] end
  end.

(** ** [DirEntryName] *)
Inductive DirEntryNameError := NameEmpty | NameTooLong | NameContainsNull | NameContainsSeparator.
Definition MAX_LEN : Z := 255.

Definition name_try_from (bytes : list Z) : res DirEntryNameError (list Z) :=
  if bool_decide (bytes = []) then Err NameEmpty
  else if MAX_LEN <? zlen bytes then Err NameTooLong
  else if existsb (λ b, b =? 0) bytes then Err NameContainsNull
  else if existsb is_sep bytes then Err NameContainsSeparator
  else Ok bytes.

(** ** [Path] and [PathBuf] *)
Inductive PathError := ComponentTooLong | PathContainsNull.

Definition path_try_from (s : list Z) : res PathError (list Z) :=
  if existsb (λ b, b =? 0) s then Err PathContainsNull
  else if existsb (λ component, MAX_LEN <? zlen component) (split_sep s) then Err ComponentTooLong
  else Ok s.

Definition is_absolute (s : list Z) : bool := match s with [] => false | c :: _ => is_sep c end.

(** [PathBuf::push]: the argument has to be a valid path. *)
Definition push {E} (this p : list Z) : res E (list Z) :=
  match path_try_from p with
  | Ok p =>
      if is_absolute p then Ok p else
      let add_sep := match last this with Some last => negb (is_sep last) | None => false end in
      if add_sep then Ok (this ++ [SEPARATOR] ++ p) else Ok (this ++ p)
  | _ => Panic
  end.

(** [PathBuf::join], [Path::join] *)
Definition join {E} (this p : list Z) : res E (list Z) := push this p.

Inductive Component := RootDir | CurDir | ParentDir | Normal (name : list Z).

(** The loop over repeated separators. *)
Fixpoint skip_seps (path : list Z) (offset : nat) (n : nat) : nat :=
  match n with
  | O => offset
  | S n => match path !! offset with Some c => if is_sep c then skip_seps path (S offset) n else offset | None => offset end
  end.

(** [Components::next]: the component and the new offset. *)
Definition components_next (path : list Z) (offset : nat) : option Component * nat :=
  if (length path <=? offset)%nat then (None, offset) else
  if (offset =? 0)%nat && is_absolute path then (Some RootDir, 1%nat) else
  let offset := skip_seps path offset (length path) in
  if (length path <=? offset)%nat then (None, offset) else
  let end_ := match find_index is_sep (drop offset path) with Some index => (offset + index)%nat | None => length path end in
  let component := field offset (end_ - offset) path in
  (Some (if bool_decide (component = DOT) then CurDir else if bool_decide (component = DOTDOT) then ParentDir else Normal component), end_).

(** All components of a path; [n] bounds their number. *)
Fixpoint components_from (path : list Z) (offset : nat) (n : nat) : list Component :=
  match n with
  | O => []
  | S n => match components_next path offset with (Some c, offset) => c :: components_from path offset n | (None, _) => [] end
  end.
Definition components (path : list Z) : list Component := components_from path 0 (S (length path)).

(** ** What the components are: the parts between separators that are not empty *)
Definition names (s : list Z) : list (list Z) := filter (λ w, w ≠ []) (split_sep s).
Definition component_of (w : list Z) : Component :=
  if bool_decide (w = DOT) then CurDir else if bool_decide (w = DOTDOT) then ParentDir else Normal w.

Lemma split_sep_not_nil s : split_sep s ≠ [].
Proof. destruct s as [|c s]; cbn; [done|]. destruct (is_sep c); [done|]. by destruct (split_sep s). Qed.

Lemma split_sep_word w : existsb is_sep w = false → split_sep w = [w].
Proof.
  induction w as [|c w IH]; cbn; [done|]. intros [Hc Hw]%orb_false_iff. rewrite Hc, IH by done. done.
Qed.

Lemma split_sep_app w t : existsb is_sep w = false → split_sep (w ++ SEPARATOR :: t) = w :: split_sep t.
Proof.
  induction w as [|c w IH]; cbn; [done|]. intros [Hc Hw]%orb_false_iff. rewrite Hc, IH by done. done.
Qed.

(** Parts of a path in two pieces. *)
Lemma split_sep_middle a b : split_sep (a ++ SEPARATOR :: b) = split_sep a ++ split_sep b.
Proof.
  induction a as [|c a IH]; cbn; [done|]. destruct (is_sep c); [by rewrite IH|]. rewrite IH.
  pose proof (split_sep_not_nil a). by destruct (split_sep a).
Qed.

Lemma names_sep s : names (SEPARATOR :: s) = names s.
Proof. done. Qed.

Lemma names_middle a b : names (a ++ SEPARATOR :: b) = names a ++ names b.
Proof. unfold names. by rewrite split_sep_middle, filter_app. Qed.

Lemma names_word w : existsb is_sep w = false → w ≠ [] → names w = [w].
Proof. intros Hw Hn. unfold names. rewrite split_sep_word by done. by rewrite filter_cons_True. Qed.

Lemma is_sep_eq c : is_sep c = true → c = SEPARATOR.
Proof. unfold is_sep. lia. Qed.

Lemma skip_seps_spec path o n : (length path ≤ o + n)%nat → (o ≤ length path)%nat →
  (o ≤ skip_seps path o n ≤ length path)%nat ∧ names (drop (skip_seps path o n) path) = names (drop o path) ∧
  is_absolute (drop (skip_seps path o n) path) = false.
Proof.
  revert o. induction n as [|n IH]; intros o Hn Ho; cbn [skip_seps].
  - split; [lia|]. split; [done|]. by rewrite drop_ge by lia.
  - destruct (path !! o) as [c|] eqn:E.
    + destruct (is_sep c) eqn:Hc.
      * destruct (IH (S o)) as (Hb & Hnm & Ha); [lia|apply lookup_lt_Some in E; lia|]. split; [lia|]. split; [|done].
        rewrite Hnm, (drop_S path c o) by done. by rewrite (is_sep_eq c Hc), names_sep.
      * split; [lia|]. split; [done|]. by rewrite (drop_S path c o).
    + apply lookup_ge_None in E. split; [lia|]. split; [done|]. by rewrite drop_ge by lia.
Qed.

Lemma find_index_None' {A} (f : A → bool) l : find_index f l = None → existsb f l = false.
Proof. induction l as [|x l IH]; cbn; [done|]. destruct (f x); [done|]. destruct (find_index f l); [done|]. intros _. by apply IH. Qed.

Lemma find_index_before {A} (f : A → bool) l i : find_index f l = Some i → existsb f (take i l) = false.
Proof.
  revert i. induction l as [|x l IH]; intros i; cbn; [done|]. destruct (f x) eqn:E; [by intros [= <-]|].
  destruct (find_index f l) as [j|]; [|done]. intros [= <-]. cbn. rewrite E. by apply IH.
Qed.

(** The first part of a path that does not start with a separator. *)
Lemma names_first r : is_absolute r = false → r ≠ [] →
  match find_index is_sep r with
  | Some i => names r = take i r :: names (drop i r)
  | None => names r = [r]
  end.
Proof.
  intros Ha Hr. destruct (find_index is_sep r) as [i|] eqn:E; [|by apply names_word; [apply find_index_None'|]].
  destruct (find_index_Some _ _ _ E) as (c & Hc & Hs). apply is_sep_eq in Hs as ->. rewrite (drop_S r SEPARATOR i), names_sep by done.
  rewrite <- (take_drop i r) at 1. rewrite (drop_S r SEPARATOR i), names_middle by done. rewrite names_word; [done|by apply find_index_before|].
  intros Ht. destruct r as [|x r]; [done|]. destruct i; [|done]. cbn in E, Ha. rewrite Ha in E. by destruct (find_index is_sep r).
Qed.

Lemma components_from_eq path n o : o ≠ 0%nat ∨ is_absolute path = false → (o ≤ length path)%nat → (length path - o < n)%nat →
  components_from path o n = component_of <$> names (drop o path).
Proof.
  revert o. induction n as [|n IH]; intros o Ho Hle Hn; [lia|]. cbn [components_from]. unfold components_next.
  destruct (Nat.leb_spec (length path) o); [by rewrite drop_ge by lia|].
  replace ((o =? 0)%nat && is_absolute path) with false by (destruct Ho as [Ho| ->]; [by rewrite (proj2 (Nat.eqb_neq _ _) Ho)|by rewrite andb_false_r]).
  destruct (skip_seps_spec path o (length path) ltac:(lia) ltac:(lia)) as (Hb & Hnm & Ha). set (o' := skip_seps path o (length path)) in *. rewrite <- Hnm. clear Hnm.
  destruct (Nat.leb_spec (length path) o'); [by rewrite drop_ge by lia|]. assert (drop o' path ≠ []) as Hne.
  { intros Hnil. apply (f_equal length) in Hnil. rewrite length_drop in Hnil. cbn in Hnil. lia. }
  pose proof (names_first (drop o' path) Ha Hne) as Hf. fold (component_of (field o' (match find_index is_sep (drop o' path) with Some i => o' + i | None => length path end - o') path)).
  destruct (find_index is_sep (drop o' path)) as [i|] eqn:E.
  - destruct (find_index_Some _ _ _ E) as (c & Hc & _). apply lookup_lt_Some in Hc. rewrite length_drop in Hc. rewrite Hf, drop_drop.
    assert (i ≠ 0%nat) as Hi.
    { intros ->. destruct (find_index_Some _ _ _ E) as (d & Hd & Hs). destruct (drop o' path); [done|]. injection Hd as ->. cbn in Ha. congruence. }
    rewrite IH by (try left; lia). cbn. unfold field. by replace (o' + i - o')%nat with i by lia.
  - rewrite Hf, IH by (try left; lia). rewrite (drop_ge path (length path)) by lia. cbn. unfold field. by rewrite take_ge by (rewrite length_drop; lia).
Qed.

(** The components of a path are its parts between separators that are not empty, in order, with a root component
    first when the path is absolute; repeated and trailing separators give nothing. *)
Theorem components_exact path : components path = (if is_absolute path then [RootDir] else []) ++ (component_of <$> names path).
Proof.
  unfold components. destruct (is_absolute path) eqn:Ha; [|rewrite components_from_eq by (try (by right); lia); done].
  cbn [components_from]. unfold components_next. destruct path as [|c path]; [done|]. cbn in Ha. cbn [length Nat.leb Nat.eqb is_absolute andb]. rewrite Ha.
  rewrite components_from_eq by (try left; cbn [length]; lia). cbn [drop app]. rewrite (is_sep_eq c Ha). by rewrite names_sep.
Qed.

(** ** Valid paths *)
Definition valid_path (s : list Z) : Prop := Forall (λ b, b ≠ 0) s ∧ Forall (λ w, zlen w ≤ MAX_LEN) (split_sep s).

Lemma existsb_false {A} (f : A → bool) l : existsb f l = false ↔ Forall (λ x, f x = false) l.
Proof. induction l as [|x l IH]; cbn; [by split|]. rewrite orb_false_iff, Forall_cons, IH. done. Qed.

Lemma path_try_from_ok s : path_try_from s = Ok s ↔ valid_path s.
Proof.
  unfold path_try_from, valid_path. destruct (existsb (λ b, b =? 0) s) eqn:E1.
  { split; [done|]. intros [H0 _]. rewrite (proj2 (existsb_false _ _)) in E1; [done|]. eapply Forall_impl; [exact H0|]. cbn. lia. }
  destruct (existsb _ (split_sep s)) eqn:E2.
  - split; [done|]. intros [_ Hl]. rewrite (proj2 (existsb_false _ _)) in E2; [done|]. eapply Forall_impl; [exact Hl|]. cbn. unfold MAX_LEN. lia.
  - split; [intros _|done]. apply existsb_false in E1, E2. split; (eapply Forall_impl; [eassumption|]); cbn; unfold MAX_LEN; lia.
Qed.

Lemma valid_middle a b : valid_path (a ++ SEPARATOR :: b) ↔ valid_path a ∧ valid_path b.
Proof.
  unfold valid_path. rewrite split_sep_middle, !Forall_app, Forall_cons. unfold SEPARATOR. split; [tauto|]. intros [[??][??]]. repeat split; done || lia.
Qed.

Lemma last_sep a c : last a = Some c → is_sep c = true → ∃ a', a = a' ++ [SEPARATOR].
Proof.
  intros Hl Hc. destruct (last_Some a c) as [H' _]. destruct (H' Hl) as (a' & ->). apply is_sep_eq in Hc as ->. by exists a'.
Qed.

(** Joining a relative path: the parts of both, one after the other. *)
Lemma join_names {E} a b : valid_path a → valid_path b → is_absolute b = false →
  ∃ c, @join E a b = Ok c ∧ valid_path c ∧ names c = names a ++ names b ∧ (a ≠ [] → is_absolute c = is_absolute a).
Proof.
  intros Ha Hb Habs. unfold join, push. rewrite (proj2 (path_try_from_ok b) Hb), Habs. destruct (last a) as [c|] eqn:El.
  - destruct (is_sep c) eqn:Hc.
    + destruct (last_sep a c El Hc) as (a' & ->). exists (a' ++ SEPARATOR :: b). cbn [negb]. rewrite <- app_assoc. split; [done|].
      apply (valid_middle a' []) in Ha as [Ha _]. split; [by apply valid_middle|]. rewrite !names_middle, app_nil_r. split; [done|]. intros _. by destruct a'.
    + exists (a ++ [SEPARATOR] ++ b). cbn [negb]. split; [done|]. split; [by apply valid_middle|]. split; [apply names_middle|]. intros Hn. by destruct a.
  - apply last_None in El as ->. exists b. done.
Qed.
