(* ===== verification/Ext4Dir.v ===== *)
(** Directories of [ext4-view-rs]: their entries ([dir_entry.rs]), blocks ([dir_block.rs]), the iterator over them
    ([iters/read_dir.rs]), the hash of a name ([dir_entry_hash.rs]), the hash tree ([dir_htree.rs]) and the search for
    a name ([dir.rs]). *)
From S2P Require Import Prelude Ext4Base Ext4Cache Ext4Inode Ext4Extents Ext4BlockMap Ext4File Ext4Path.

(** ** [DirEntry] *)
Record DirEntry := mkDirEntry { de_inode : Z; de_name : list Z; de_path : list Z; de_file_type : FileType }.

Definition NAME_OFFSET : Z := 8.

Definition dir_entry_from_bytes (bytes : list Z) (inode : Z) (path : list Z) : XR (option DirEntry * Z) :=
  let err := Corrupt (DirEntryBad inode) in
  if zlen bytes <? NAME_OFFSET then Err err else
  let? points_to_inode := read_u32le bytes 0 in
  let? rec_len := read_u16le bytes 4 in
  if rec_len <? NAME_OFFSET then Err err else
  match inode_index points_to_inode with
  | None => Ok (None, rec_len)
  | Some points_to_inode =>
      let? name_len := unwrap (bytes !! 6%nat) in
      let? name_end := unwrap (checked 64 (NAME_OFFSET + name_len)) in
      let? name_slice := ok_or err (get_range NAME_OFFSET name_end bytes) in
      let? file_type := unwrap (bytes !! 7%nat) in
      let? file_type := ok_or err (from_dir_entry file_type) in
      match name_try_from name_slice with
      | Ok name => Ok (Some (mkDirEntry points_to_inode name path file_type), rec_len)
      | _ => Err err
      end
  end.

(** [DirEntry::path] *)
Definition dir_entry_path (e : DirEntry) : XR (list Z) := join (de_path e) (de_name e).

(** ** [dir_entry_hash.rs] *)
Definition wadd (a b : Z) : Z := (a + b) `mod` 2 ^ 32.
Definition rotate_left (x s : Z) : Z := Z.lor (Z.shiftl x s `mod` 2 ^ 32) (Z.shiftr x (32 - s)).

Definition md4_f (x y z : Z) : Z := Z.lxor z (Z.land x (Z.lxor y z)).
Definition md4_g (x y z : Z) : Z := Z.lor (Z.lor (Z.land x y) (Z.land x z)) (Z.land y z).
Definition md4_h (x y z : Z) : Z := Z.lxor (Z.lxor x y) z.
Definition md4_op (f : Z → Z → Z → Z) (a b c d k s : Z) : Z := rotate_left (wadd (wadd a (f b c d)) k) s.

(** One iteration of a round: the indices into [data] and the shifts, in the order in which [a], [d], [c], [b] change. *)
Definition md4_step (f : Z → Z → Z → Z) (k : Z) (data : list Z) (i1 i2 i3 i4 : nat) (s1 s2 s3 s4 : Z) (st : Z * Z * Z * Z) : Z * Z * Z * Z :=
  let '(a, b, c, d) := st in
  let at_ i := wadd (data !!! i) k in
  let a := md4_op f a b c d (at_ i1) s1 in
  let d := md4_op f d a b c (at_ i2) s2 in
  let c := md4_op f c d a b (at_ i3) s3 in
  let b := md4_op f b c d a (at_ i4) s4 in
  (a, b, c, d).

Definition md4_half (state : Z * Z * Z * Z) (data : list Z) : Z * Z * Z * Z :=
  let K1 := 0x5a827999 in
  let K2 := 0x6ed9eba1 in
  let st := md4_step md4_f 0 data 0 1 2 3 3 7 11 19 state in
  let st := md4_step md4_f 0 data 4 5 6 7 3 7 11 19 st in
  let st := md4_step md4_g K1 data 1 3 5 7 3 5 9 13 st in
  let st := md4_step md4_g K1 data 0 2 4 6 3 5 9 13 st in
  let st := md4_step md4_h K2 data 3 7 2 6 3 9 11 15 st in
  let st := md4_step md4_h K2 data 1 5 0 4 3 9 11 15 st in
  let '(a, b, c, d) := st in
  let '(s0, s1, s2, s3) := state in
  (wadd s0 a, wadd s1 b, wadd s2 c, wadd s3 d).

Definition sign_extend_byte_to_u32 (byte : Z) : Z := if byte <? 128 then byte else byte + (2 ^ 32 - 256).

(** The element of a block made of up to four bytes. *)
Definition hash_elem (pad : Z) (src : list Z) : Z :=
  foldl (λ elem byte, wadd (sign_extend_byte_to_u32 byte) (Z.shiftl elem 8 `mod` 2 ^ 32)) pad (take 4 src).

Fixpoint hash_elems (pad : Z) (src : list Z) (n : nat) : list Z :=
  match n with O => [] | S n => hash_elem pad src :: hash_elems pad (drop 4 src) n end.

Definition create_hash_block (src : list Z) : list Z := hash_elems (le_dec (replicate 4 (zlen src `mod` 256))) src 8.

(** [chunks(32)] *)
Fixpoint hash_chunks (state : Z * Z * Z * Z) (name : list Z) (n : nat) : Z * Z * Z * Z :=
  match n with
  | O => state
  | S n => match name with [] => state | _ => hash_chunks (md4_half state (create_hash_block (take 32 name))) (drop 32 name) n end
  end.

Definition dir_hash_md4_half (name seed : list Z) : Z :=
  let seed := if bool_decide (seed = [0; 0; 0; 0]) then [0x67452301; 0xefcdab89; 0x98badcfe; 0x10325476] else seed in
  let '(_, b, _, _) := hash_chunks (seed !!! 0%nat, seed !!! 1%nat, seed !!! 2%nat, seed !!! 3%nat) name (length name) in
  Z.ldiff b 1.

(** Values of the unit tests in [dir_entry_hash.rs]. *)
Example hash_block_test :
  create_hash_block (seqZ 97 18) = [0x61626364; 0x65666768; 0x696a6b6c; 0x6d6e6f70; 0x12127172; 0x12121212; 0x12121212; 0x12121212].
Proof. vm_compute. reflexivity. Qed.
Example dir_hash_test : dir_hash_md4_half [97; 98; 99] [0; 0; 0; 0] = 0xd196a868 ∧
  dir_hash_md4_half [97; 98; 99] [0xeba13f33; 0x6e458c58; 0xd3d11cb8; 0x010ecd43] = 0x25783134 ∧
  dir_hash_md4_half (take 255 (concat (replicate 5 (seqZ 97 26 ++ seqZ 65 26)))) [0xeba13f33; 0x6e458c58; 0xd3d11cb8; 0x010ecd43] = 0xe40e82e0.
Proof. vm_compute. done. Qed.

(** ** The hash as the format defines it

    Half MD4 after RFC 1320 and the description of the format: three rounds of eight steps over the words of a block, each
    step with a word and a rotation; names are cut into blocks of 32 bytes, their bytes are signed, and the words that are
    not filled hold the length. *)
Definition round_f (x y z : Z) : Z := Z.lor (Z.land x y) (Z.land (Z.lnot x) z).
Definition round_g (x y z : Z) : Z := Z.land x y + Z.land (Z.lxor x y) z.
Definition round_h (x y z : Z) : Z := Z.lxor x (Z.lxor y z).
Definition rol (s x : Z) : Z := (x * 2 ^ s) `mod` 2 ^ 32 + x / 2 ^ (32 - s).

Definition half_md4_rounds : list ((Z → Z → Z → Z) * Z * list (nat * Z)) :=
  [(round_f, 0, zip [0; 1; 2; 3; 4; 5; 6; 7]%nat [3; 7; 11; 19; 3; 7; 11; 19]);
   (round_g, 0x5a827999, zip [1; 3; 5; 7; 0; 2; 4; 6]%nat [3; 5; 9; 13; 3; 5; 9; 13]);
   (round_h, 0x6ed9eba1, zip [3; 7; 2; 6; 1; 5; 0; 4]%nat [3; 9; 11; 15; 3; 9; 11; 15])].

(** The registers move on by one place in each step. *)
Definition half_md4_step (f : Z → Z → Z → Z) (k : Z) (w : list Z) (st : Z * Z * Z * Z) (e : nat * Z) : Z * Z * Z * Z :=
  let '(a, b, c, d) := st in (d, rol e.2 ((a + f b c d + w !!! e.1 + k) `mod` 2 ^ 32), b, c).

Definition half_md4_block (st : Z * Z * Z * Z) (w : list Z) : Z * Z * Z * Z :=
  let '(a, b, c, d) := foldl (λ st r, foldl (half_md4_step r.1.1 r.1.2 w) st r.2) st half_md4_rounds in
  let '(a0, b0, c0, d0) := st in
  ((a0 + a) `mod` 2 ^ 32, (b0 + b) `mod` 2 ^ 32, (c0 + c) `mod` 2 ^ 32, (d0 + d) `mod` 2 ^ 32).

Definition signed_byte (b : Z) : Z := if b <? 128 then b else b - 256.
Definition name_word (chunk : list Z) (i : nat) : Z :=
  foldl (λ v b, v * 256 + signed_byte b) (zlen chunk * 0x01010101) (take 4 (drop (4 * i) chunk)) `mod` 2 ^ 32.
Definition name_chunks (name : list Z) : list (list Z) :=
  (λ i, take 32 (drop (32 * i) name)) <$> seq 0 (Z.to_nat ((zlen name + 31) / 32)).

Definition half_md4 (name seed : list Z) : Z :=
  let seed := if decide (seed = [0; 0; 0; 0]) then [0x67452301; 0xefcdab89; 0x98badcfe; 0x10325476] else seed in
  let '(_, b, _, _) := foldl (λ st chunk, half_md4_block st (name_word chunk <$> seq 0 8))
    (seed !!! 0%nat, seed !!! 1%nat, seed !!! 2%nat, seed !!! 3%nat) (name_chunks name) in
  b / 2 * 2.

Lemma round_f_eq x y z : md4_f x y z = round_f x y z.
Proof.
  apply Z.bits_inj'. intros i Hi. unfold md4_f, round_f. rewrite Z.lxor_spec, !Z.land_spec, Z.lxor_spec, Z.lor_spec, !Z.land_spec, Z.lnot_spec by done.
  by destruct (Z.testbit x i), (Z.testbit y i), (Z.testbit z i).
Qed.

Lemma round_g_eq x y z : md4_g x y z = round_g x y z.
Proof.
  unfold round_g. rewrite Z.add_nocarry_lxor.
  - apply Z.bits_inj'. intros i Hi. unfold md4_g. rewrite !Z.lor_spec, Z.lxor_spec, !Z.land_spec, Z.lxor_spec.
    by destruct (Z.testbit x i), (Z.testbit y i), (Z.testbit z i).
  - apply Z.bits_inj'. intros i Hi. rewrite !Z.land_spec, Z.lxor_spec, Z.bits_0. by destruct (Z.testbit x i), (Z.testbit y i), (Z.testbit z i).
Qed.

Lemma round_h_eq x y z : md4_h x y z = round_h x y z.
Proof. apply Z.lxor_assoc. Qed.

Lemma rotate_left_rol x s : 0 ≤ x < 2 ^ 32 → 0 < s < 32 → rotate_left x s = rol s x.
Proof.
  intros Hx Hs. unfold rotate_left, rol. rewrite Z.shiftl_mul_pow2, Z.shiftr_div_pow2 by lia.
  assert (2 ^ 32 = 2 ^ (32 - s) * 2 ^ s) as E by (rewrite <- Z.pow_add_r by lia; f_equal; lia).
  assert (0 < 2 ^ (32 - s) ∧ 0 < 2 ^ s) as [? ?] by (split; apply Z.pow_pos_nonneg; lia).
  assert (0 ≤ x / 2 ^ (32 - s) < 2 ^ s) as Hd by (split; [apply Z.div_pos; lia|apply Z.div_lt_upper_bound; lia]).
  rewrite E, Z.mul_mod_distr_r by lia. set (u := x `mod` _). set (v := x / _) in *.
  assert (Z.land (u * 2 ^ s) v = 0) as Hl.
  { rewrite <- Z.shiftl_mul_pow2 by lia. rewrite <- (Z.mod_small v (2 ^ s)) by done. apply Z.bits_inj'. intros i Hi. rewrite Z.land_spec, Z.bits_0.
    destruct (decide (i < s)); [by rewrite Z.shiftl_spec_low|]. rewrite Z.mod_pow2_bits_high by lia. by rewrite andb_false_r. }
  rewrite Z.add_nocarry_lxor by done. by rewrite Z.lxor_lor.
Qed.

Lemma md4_op_step f f' a b c d w k s : (∀ x y z, f x y z = f' x y z) → 0 < s < 32 →
  md4_op f a b c d (wadd w k) s = rol s ((a + f' b c d + w + k) `mod` 2 ^ 32).
Proof.
  intros Hf Hs. unfold md4_op, wadd. rewrite rotate_left_rol by (done || apply Z.mod_pos_bound; lia). f_equal. rewrite Hf.
  rewrite <- Zplus_mod. f_equal. lia.
Qed.

(** Four steps are one iteration of the loop. *)
Lemma md4_step_eq f f' k w i1 i2 i3 i4 s1 s2 s3 s4 st : (∀ x y z, f x y z = f' x y z) → 0 < s1 < 32 → 0 < s2 < 32 → 0 < s3 < 32 → 0 < s4 < 32 →
  md4_step f k w i1 i2 i3 i4 s1 s2 s3 s4 st = foldl (half_md4_step f' k w) st [(i1, s1); (i2, s2); (i3, s3); (i4, s4)].
Proof. intros Hf ????. destruct st as [[[a b] c] d]. unfold md4_step. cbn [foldl half_md4_step fst snd]. by rewrite !(md4_op_step f f'). Qed.

Lemma md4_half_eq st w : md4_half st w = half_md4_block st w.
Proof.
  unfold md4_half, half_md4_block.
  rewrite !(md4_step_eq md4_f round_f), !(md4_step_eq md4_g round_g), !(md4_step_eq md4_h round_h) by (lia || apply round_f_eq || apply round_g_eq || apply round_h_eq).
  cbv zeta. unfold half_md4_rounds. cbn [foldl fst snd zip zip_with]. reflexivity.
Qed.

Lemma hash_elem_eq pad bs : 0 ≤ pad < 2 ^ 32 →
  hash_elem pad bs = foldl (λ v b, v * 256 + signed_byte b) pad (take 4 bs) `mod` 2 ^ 32.
Proof.
  intros Hp. unfold hash_elem. rewrite <- (Z.mod_small pad (2 ^ 32)) at 1 by done. generalize (take 4 bs). clear Hp bs. intros bs. revert pad.
  induction bs as [|b bs IH]; intros pad; cbn [foldl]; [done|]. rewrite <- IH. f_equal. unfold wadd, sign_extend_byte_to_u32, signed_byte.
  rewrite Z.shiftl_mul_pow2 by lia. change (2 ^ 8) with 256. rewrite Zmult_mod_idemp_l, Zplus_mod_idemp_r. destruct (b <? 128); [f_equal; lia|].
  replace (b + (2 ^ 32 - 256) + pad * 256) with (pad * 256 + (b - 256) + 1 * 2 ^ 32) by lia. by rewrite Z.mod_add.
Qed.

Lemma hash_elems_eq pad n : ∀ src, hash_elems pad src n = (λ i, hash_elem pad (drop (4 * i) src)) <$> seq 0 n.
Proof.
  induction n as [|n IH]; intros src; [done|]. cbn [hash_elems seq fmap list_fmap]. f_equal. rewrite IH, <- fmap_S_seq, <- list_fmap_compose.
  apply list_fmap_ext. intros ? i _. unfold compose. rewrite drop_drop. do 2 f_equal. lia.
Qed.

Lemma create_hash_block_eq chunk : (length chunk ≤ 32)%nat → create_hash_block chunk = name_word chunk <$> seq 0 8.
Proof.
  intros Hl. unfold create_hash_block. assert (le_dec (replicate 4 (zlen chunk `mod` 256)) = zlen chunk * 0x01010101) as ->.
  { unfold zlen. do 33 (destruct chunk as [|? chunk]; [by vm_compute|]). cbn in Hl. lia. }
  rewrite hash_elems_eq. apply list_fmap_ext. intros ? i _. unfold name_word. rewrite hash_elem_eq by (unfold zlen; lia). done.
Qed.

Lemma hash_chunks_eq n : ∀ st name, (length name ≤ n)%nat →
  hash_chunks st name n = foldl (λ st chunk, half_md4_block st (name_word chunk <$> seq 0 8)) st (name_chunks name).
Proof.
  induction n as [|n IH]; intros st name Hn; [destruct name; [done|cbn in Hn; lia]|]. cbn [hash_chunks]. destruct name as [|c name]; [done|].
  rewrite IH by (rewrite length_drop; cbn [length] in *; lia). rewrite create_hash_block_eq by (rewrite length_take; lia). rewrite md4_half_eq.
  set (nm := c :: name) in *. assert (Z.to_nat ((zlen nm + 31) / 32) = S (Z.to_nat ((zlen (drop 32 nm) + 31) / 32))) as E.
  { unfold zlen. rewrite length_drop. assert (0 < length nm)%nat by (cbn; lia). destruct (decide (length nm ≤ 32)%nat).
    - replace (length nm - 32)%nat with 0%nat by lia. change ((Z.of_nat 0 + 31) / 32) with 0.
      rewrite <- (Z.div_unique (Z.of_nat (length nm) + 31) 32 1 (Z.of_nat (length nm) - 1)) by lia. done.
    - replace (Z.of_nat (length nm) + 31) with (Z.of_nat (length nm - 32) + 31 + 1 * 32) by lia. rewrite Z.div_add by lia.
      assert (0 ≤ (Z.of_nat (length nm - 32) + 31) / 32) by (apply Z.div_pos; lia). lia. }
  unfold name_chunks at 2. rewrite E. cbn [seq fmap list_fmap foldl]. rewrite drop_0. f_equal. unfold name_chunks.
  rewrite <- fmap_S_seq, <- list_fmap_compose. apply list_fmap_ext. intros ? i _. unfold compose. rewrite drop_drop. do 2 f_equal. lia.
Qed.

(** The code computes this hash. *)
Lemma dir_hash_half_md4 name seed : dir_hash_md4_half name seed = half_md4 name seed.
Proof.
  unfold dir_hash_md4_half, half_md4. rewrite hash_chunks_eq by done.
  assert ((if bool_decide (seed = [0; 0; 0; 0]) then [1732584193; 4023233417; 2562383102; 271733878] else seed) =
    (if decide (seed = [0; 0; 0; 0]) then [1732584193; 4023233417; 2562383102; 271733878] else seed)) as -> by (by case_bool_decide; case_decide).
  destruct (foldl _ _ _) as [[[a b] c] d]. change 1 with (Z.ones 1) at 1. by rewrite Z.ldiff_ones_r, Z.shiftl_mul_pow2, Z.shiftr_div_pow2 by lia.
Qed.

(** ** [DirBlock] *)
Inductive DirBlockType := Root | Internal | Leaf.
#[export] Instance dir_block_type_eq_dec : EqDecision DirBlockType.
Proof. solve_decision. Defined.

Definition read_expected_checksum (block : list Z) : XR Z := let? offset := unwrap (checked 64 (zlen block - 4)) in read_u32le block offset.

Definition get_block_type (fs : Ext4) (is_first has_htree : bool) (block : list Z) : XR DirBlockType :=
  if negb has_htree then Ok Leaf
  else if is_first then Ok Root
  else let? first_rec_len := read_u16le block 4 in
       Ok (if first_rec_len =? block_size (superblock fs) then Internal else Leaf).

Section dir.
Context `{Crc}.

Definition calc_leaf_checksum (base : Digest) (block : list Z) : XR Digest :=
  let? tail_entry_offset := unwrap (checked 64 (zlen block - 12)) in
  let? covered := slice 0 tail_entry_offset block in Ok (update base covered).

Definition calc_internal_checksum (base : Digest) (block : list Z) (t : DirBlockType) : XR Digest :=
  let? tail_entry_offset := unwrap (checked 64 (zlen block - 8)) in
  let limit_offset := if bool_decide (t = Root) then 0x20 else 0x8 in
  let? count_offset := unwrap (checked 64 (limit_offset + 2)) in
  let? count := read_u16le block count_offset in
  let? n := unwrap (checked 64 (count * 8)) in
  let? num_bytes := unwrap (checked 64 (limit_offset + n)) in
  let? covered := slice 0 num_bytes block in
  let? tail := read_u32le block tail_entry_offset in
  Ok (update_u32_le (update_u32_le (update base covered) tail) 0).

(** The checks of [DirBlock::read] on the block that was read. *)
Definition check_dir_block (fs : Ext4) (dir_inode : Z) (is_first has_htree : bool) (base : Digest) (block : list Z) : XR unit :=
  if negb (has_metadata_checksums fs) then Ok tt else
  let? block_type := get_block_type fs is_first has_htree block in
  let? expected_checksum := read_expected_checksum block in
  let? actual_checksum := if bool_decide (block_type = Leaf) then calc_leaf_checksum base block else calc_internal_checksum base block block_type in
  if finalize actual_checksum =? expected_checksum then Ok tt else Err (Corrupt (DirBlockChecksum dir_inode)).

Context {S : Type} `{BlockReader S}.

(** [DirBlock::read] into a buffer of one block. *)
Definition dir_block_read (fs : Ext4) (block_index dir_inode : Z) (is_first has_htree : bool) (base : Digest) : M S Ext4Error (list Z) :=
  let! block := block_read fs block_index 0 (block_size (superblock fs)) in
  let! _ := mlift (check_dir_block fs dir_inode is_first has_htree base block) in
  mok block.

(** ** [ReadDir] *)
Record ReadDir := mkReadDir {
  rd_path : list Z; rd_file_blocks : FileBlocks; rd_block_index : option Z; is_first_block : bool; rd_block : list Z; offset_within_block : Z;
  rd_is_done : bool; rd_has_htree : bool; rd_checksum_base : Digest; rd_inode : Z;
}.
Definition rd_set_blocks (x : FileBlocks) (r : ReadDir) : ReadDir :=
  mkReadDir (rd_path r) x (rd_block_index r) (is_first_block r) (rd_block r) (offset_within_block r) (rd_is_done r) (rd_has_htree r) (rd_checksum_base r) (rd_inode r).
Definition rd_at (b : option Z) (first : bool) (off : Z) (r : ReadDir) : ReadDir :=
  mkReadDir (rd_path r) (rd_file_blocks r) b first (rd_block r) off (rd_is_done r) (rd_has_htree r) (rd_checksum_base r) (rd_inode r).
Definition rd_set_block (block : list Z) (r : ReadDir) : ReadDir :=
  mkReadDir (rd_path r) (rd_file_blocks r) (rd_block_index r) (is_first_block r) block (offset_within_block r) (rd_is_done r) (rd_has_htree r) (rd_checksum_base r) (rd_inode r).
Definition rd_done (r : ReadDir) : ReadDir :=
  mkReadDir (rd_path r) (rd_file_blocks r) (rd_block_index r) (is_first_block r) (rd_block r) (offset_within_block r) true (rd_has_htree r) (rd_checksum_base r) (rd_inode r).

Definition read_dir_new (fs : Ext4) (inode : Inode) (path : list Z) : XR ReadDir :=
  let has_htree := contains (flags inode) DIRECTORY_HTREE in
  if contains (flags inode) DIRECTORY_ENCRYPTED then Err Encrypted else
  let? x := file_blocks_new inode in
  Ok (mkReadDir path x None true (zeros (Z.to_nat (block_size (superblock fs)))) 0 false has_htree (checksum_base inode) (index inode)).

(** The rest of [next_impl], once the block is known. *)
Definition read_dir_entry (fs : Ext4) (block_index : Z) : M (ReadDir * S) Ext4Error (option DirEntry) :=
  let! r := it_get in
  let bsize := block_size (superblock fs) in
  if bsize <=? offset_within_block r then
    let! _ := it_put (rd_at None false (offset_within_block r) r) in mok None
  else
  let! _ :=
    if offset_within_block r =? 0 then
      let! block := on_fs (dir_block_read fs block_index (rd_inode r) (is_first_block r) (rd_has_htree r) (rd_checksum_base r)) in
      it_put (rd_set_block block r)
    else mok tt in
  let! r := it_get in
  let! bytes := mlift (slice (offset_within_block r) (zlen (rd_block r)) (rd_block r)) in
  let! (entry, entry_size) := mlift (dir_entry_from_bytes bytes (rd_inode r) (rd_path r)) in
  let! off := mlift (ok_or (Corrupt (DirEntryBad (rd_inode r))) (checked 64 (offset_within_block r + entry_size))) in
  let! _ := it_put (rd_at (rd_block_index r) (is_first_block r) off r) in
  mok entry.

Definition read_dir_next_impl (fs : Ext4) (fuel : nat) : M (ReadDir * S) Ext4Error (option DirEntry) :=
  let! r := it_get in
  match rd_block_index r with
  | Some block_index => read_dir_entry fs block_index
  | None =>
      let! next := on_sub rd_file_blocks rd_set_blocks (file_blocks_next fs fuel) in
      let! r := it_get in
      match next with
      | Some block_index =>
          let! _ := it_put (rd_at (Some block_index) (is_first_block r) 0 r) in
          read_dir_entry fs block_index
      | None => let! _ := it_put (rd_done r) in mok None
      end
  end.

Definition read_dir_next (fs : Ext4) (fuel : nat) : M (ReadDir * S) Ext4Error (option DirEntry) :=
  iter_next rd_is_done rd_done (read_dir_next_impl fs fuel) fuel.
End dir.

(** ** [InternalNode]: the bytes of its entries *)
Definition HT_ENTRY_SIZE : Z := 8.

Definition internal_node_new (bytes : list Z) (inode : Z) : XR (list Z) :=
  let err := Corrupt (DirEntryBad inode) in
  if zlen bytes <? HT_ENTRY_SIZE then Err err else
  let? count := read_u16le bytes 2 in
  let? end_byte := unwrap (checked 64 (HT_ENTRY_SIZE * count)) in
  ok_or err (get_range 0 end_byte bytes).

Definition from_root_block (block : list Z) (inode : Z) : XR (list Z) := let? b := slice 0x20 (zlen block) block in internal_node_new b inode.
Definition from_non_root_block (block : list Z) (inode : Z) : XR (list Z) := let? b := slice 0x8 (zlen block) block in internal_node_new b inode.

Definition get_entry (entries : list Z) (index : Z) : XR (Z * Z) :=
  let? offset := unwrap (checked 64 (HT_ENTRY_SIZE * index)) in
  let? block_offset := unwrap (checked 64 (offset + 4)) in
  let? block := read_u32le entries block_offset in
  let? hash := if index =? 0 then Ok 0 else read_u32le entries offset in
  Ok (hash, block).

Definition ht_num_entries (entries : list Z) : Z := zlen entries / HT_ENTRY_SIZE.

(** The binary search: [Ok None] where the source leaves the function with [?]. *)
Fixpoint search_loop (entries : list Z) (lookup_hash lo hi : Z) (fuel : nat) : XR (option Z) :=
  match fuel with
  | O => Hang
  | S fuel =>
      if lo <=? hi then
        match checked 64 (lo + hi) with
        | None => Ok None
        | Some sum =>
            let mid := sum / 2 in
            let? (mid_hash, _) := get_entry entries mid in
            if mid_hash <=? lookup_hash then
              match checked 64 (mid + 1) with None => Ok None | Some lo => search_loop entries lookup_hash lo hi fuel end
            else
              match checked 64 (mid - 1) with None => Ok None | Some hi => search_loop entries lookup_hash lo hi fuel end
        end
      else
        match checked 64 (lo - 1) with
        | None => Ok None
        | Some index => let? (_, block) := get_entry entries index in Ok (Some block)
        end
  end.

Definition lookup_block_by_hash (entries : list Z) (lookup_hash : Z) : XR (option Z) :=
  match checked 64 (ht_num_entries entries - 1) with
  | None => Ok None
  | Some hi => search_loop entries lookup_hash 0 hi (S (S (length entries)))
  end.

(** ** The hash tree of a directory *)
Section htree.
Context `{Crc} {S : Type} `{BlockReader S}.

(** A computation with an iterator of its own. *)
Definition with_iter {T A} (t : T) (m : M (T * S) Ext4Error A) : M S Ext4Error A := λ s, let '(r, (_, s)) := m (t, s) in (r, s).

(** [Iterator::nth]: the items before are dropped, errors among them. *)
Fixpoint iter_nth {T A} (next : M (T * S) Ext4Error (option A)) (n : nat) : M (T * S) Ext4Error (option A) :=
  match n with
  | O => next
  | Datatypes.S n => λ p,
      match next p with
      | (Ok (Some _), p) | (Err _, p) => iter_nth next n p
      | r => r
      end
  end.

Definition read_root_block (fs : Ext4) (fuel : nat) (inode : Inode) : M S Ext4Error (list Z) :=
  let! file_blocks := mlift (file_blocks_new inode) in
  let! next := with_iter file_blocks (file_blocks_next fs fuel) in
  let! block_index := mlift (ok_or (Corrupt (DirEntryBad (index inode))) next) in
  dir_block_read fs block_index (index inode) true true (checksum_base inode).

Definition read_dot_or_dotdot (inode : Inode) (name block : list Z) : XR (option DirEntry) :=
  let corrupt := Corrupt (DirEntryBad (index inode)) in
  let entry_at offset :=
    let? bytes := slice offset (zlen block) block in
    let? (entry, _) := dir_entry_from_bytes bytes (index inode) [] in
    let? entry := ok_or corrupt entry in
    if bool_decide (de_name entry = name) then Ok (Some entry) else Err corrupt in
  if bool_decide (name = DOT) then entry_at 0
  else if bool_decide (name = DOTDOT) then entry_at 12
  else Ok None.

Fixpoint find_extent (fs : Ext4) (fuel : nat) (inode : Inode) (block : Z) (n : nat) : M (Extents * S) Ext4Error Extent :=
  match n with
  | O => mlift Hang
  | Datatypes.S n =>
      let! next := extents_next fs fuel in
      match next with
      | None => merr (Corrupt (DirEntryBad (index inode)))
      | Some e =>
          let start := ext_block_within_file e in
          let! end_ := mlift (ok_or (Corrupt (DirEntryBad (index inode))) (checked 32 (start + num_blocks e))) in
          if (start <=? block) && (block <? end_) then mok e else find_extent fs fuel inode block n
      end
  end.

Definition find_extent_for_block (fs : Ext4) (fuel : nat) (inode : Inode) (block : Z) : M S Ext4Error Extent :=
  let! extents := mlift (extents_new inode) in with_iter extents (find_extent fs fuel inode block fuel).

Definition block_from_file_block (fs : Ext4) (fuel : nat) (inode : Inode) (relative_block : Z) : M S Ext4Error Z :=
  let err := Corrupt (DirEntryBad (index inode)) in
  if contains (flags inode) EXTENTS then
    let! e := find_extent_for_block fs fuel inode relative_block in
    let! block_within_extent := mlift (ok_or err (checked 32 (relative_block - ext_block_within_file e))) in
    mlift (ok_or err (checked 64 (start_block e + block_within_extent)))
  else
    let! block_map := mlift (file_blocks_new inode) in
    let! b := with_iter block_map (iter_nth (file_blocks_next fs fuel) (Z.to_nat relative_block)) in
    mlift (ok_or err b).

(** The loop of [find_leaf_node]: [n] more levels after this one. *)
Fixpoint descend (fs : Ext4) (fuel : nat) (inode : Inode) (hash child : Z) (n : nat) : M S Ext4Error (list Z) :=
  let! block_index := block_from_file_block fs fuel inode child in
  let! block := dir_block_read fs block_index (index inode) false true (checksum_base inode) in
  match n with
  | O => mok block
  | Datatypes.S n =>
      let! inner := mlift (from_non_root_block block (index inode)) in
      let! child := mlift (lookup_block_by_hash inner hash) in
      let! child := mlift (ok_or (Corrupt (DirEntryBad (index inode))) child) in
      descend fs fuel inode hash child n
  end.

Definition find_leaf_node (fs : Ext4) (fuel : nat) (inode : Inode) (name block : list Z) : M S Ext4Error (list Z) :=
  let! hash_type := mlift (unwrap (block !! 0x1c%nat)) in
  if negb (hash_type =? 1) then merr (Incompatible (DirectoryHash hash_type)) else
  let! depth := mlift (unwrap (block !! 0x1e%nat)) in
  let! root := mlift (from_root_block block (index inode)) in
  let hash := dir_hash_md4_half name (htree_hash_seed (superblock fs)) in
  let! child := mlift (lookup_block_by_hash root hash) in
  let! child := mlift (ok_or (Corrupt (DirEntryBad (index inode))) child) in
  descend fs fuel inode hash child (Z.to_nat depth).

(** The linear search through the leaf. *)
Fixpoint search_leaf (inode : Inode) (name block : list Z) (offset : Z) (n : nat) : XR DirEntry :=
  match n with
  | O => Hang
  | Datatypes.S n =>
      if zlen block <=? offset then Err NotFound else
      let? bytes := slice offset (zlen block) block in
      let? (e, entry_size) := dir_entry_from_bytes bytes (index inode) [] in
      let? offset := ok_or (Corrupt (DirEntryBad (index inode))) (checked 64 (offset + entry_size)) in
      match e with
      | Some e => if bool_decide (de_name e = name) then Ok e else search_leaf inode name block offset n
      | None => search_leaf inode name block offset n
      end
  end.

Definition get_dir_entry_via_htree (fs : Ext4) (fuel : nat) (inode : Inode) (name : list Z) : M S Ext4Error DirEntry :=
  let! _ := mlift (assert (contains (flags inode) DIRECTORY_HTREE)) in
  let! block := read_root_block fs fuel inode in
  let! dot := mlift (read_dot_or_dotdot inode name block) in
  match dot with
  | Some e => mok e
  | None =>
      let! block := find_leaf_node fs fuel inode name block in
      mlift (search_leaf inode name block 0 (Datatypes.S (length block)))
  end.

(** ** [get_dir_entry_inode_by_name] *)
Fixpoint find_by_name (fs : Ext4) (fuel : nat) (name : list Z) (n : nat) : M (ReadDir * S) Ext4Error DirEntry :=
  match n with
  | O => mlift Hang
  | Datatypes.S n =>
      let! next := read_dir_next fs fuel in
      match next with
      | None => merr NotFound
      | Some e => if bool_decide (de_name e = name) then mok e else find_by_name fs fuel name n
      end
  end.

Definition get_dir_entry_inode_by_name (fs : Ext4) (fuel : nat) (dir_inode : Inode) (name : list Z) : M S Ext4Error Inode :=
  let! _ := mlift (assert (is_dir (metadata dir_inode))) in
  if contains (flags dir_inode) DIRECTORY_ENCRYPTED then merr Encrypted else
  if contains (flags dir_inode) DIRECTORY_HTREE then
    let! e := get_dir_entry_via_htree fs fuel dir_inode name in inode_read fs (de_inode e)
  else
    let! r := mlift (read_dir_new fs dir_inode []) in
    let! e := with_iter r (find_by_name fs fuel name fuel) in
    inode_read fs (de_inode e).
End htree.

(** ** Directory blocks on the storage *)

(** An entry as it is stored: [re_inode = 0] is an unused entry, whose name does not matter; [re_pad] are the bytes up to
    the next entry. *)
Record RawEntry := mkRaw { re_inode : Z; re_name : list Z; re_type : Z; re_pad : list Z }.

Definition rec_len (r : RawEntry) : Z := 8 + zlen (re_name r) + zlen (re_pad r).
Definition encode_entry (r : RawEntry) : list Z :=
  le_bytes 4 (re_inode r) ++ le_bytes 2 (rec_len r) ++ [zlen (re_name r)] ++ [re_type r] ++ re_name r ++ re_pad r.

Record raw_ok (r : RawEntry) : Prop := {
  ro_inode : 0 ≤ re_inode r < 2 ^ 32;
  ro_len : rec_len r < 2 ^ 16;
  ro_name : re_inode r ≠ 0 → name_try_from (re_name r) = Ok (re_name r);
  ro_type : re_inode r ≠ 0 → is_Some (from_dir_entry (re_type r));
}.

(** What the iterator gives for it. *)
Definition entry_of (path : list Z) (r : RawEntry) : option DirEntry :=
  if re_inode r =? 0 then None
  else t ← from_dir_entry (re_type r); Some (mkDirEntry (re_inode r) (re_name r) path t).

Lemma length_encode r : zlen (encode_entry r) = rec_len r.
Proof. unfold encode_entry, rec_len, zlen. rewrite !length_app, !length_le_bytes. cbn [length]. lia. Qed.

Lemma from_bytes_encode r rest inode path : raw_ok r → zlen (encode_entry r ++ rest) < 2 ^ 64 →
  dir_entry_from_bytes (encode_entry r ++ rest) inode path = Ok (entry_of path r, rec_len r).
Proof.
  intros [Hi Hl Hn Ht] H64. assert (8 ≤ rec_len r) as H8 by (unfold rec_len, zlen; lia).
  assert (rec_len r ≤ zlen (encode_entry r ++ rest)) as Hlen by (unfold zlen; rewrite length_app; pose proof (length_encode r); unfold zlen in *; lia).
  unfold dir_entry_from_bytes, NAME_OFFSET. rewrite (proj2 (Z.ltb_ge _ _)) by lia. unfold read_u32le, read_u16le. rewrite !read_le_ok by lia. cbn [rbind].
  assert (field (Z.to_nat 0) (Z.to_nat 4) (encode_entry r ++ rest) = le_bytes 4 (re_inode r)) as ->.
  { unfold encode_entry. rewrite <- app_assoc. by apply field_app_hit. }
  assert (field (Z.to_nat 4) (Z.to_nat 2) (encode_entry r ++ rest) = le_bytes 2 (rec_len r)) as ->.
  { unfold encode_entry. rewrite <- !app_assoc. rewrite field_app_skip by done. by apply field_app_hit. }
  rewrite !le_dec_bytes by (unfold in_u; cbn; lia). rewrite (proj2 (Z.ltb_ge _ _)) by lia. unfold inode_index, entry_of.
  destruct (Z.eqb_spec (re_inode r) 0) as [E|E]; [done|]. specialize (Hn E). destruct (Ht E) as [t Et].
  assert ((encode_entry r ++ rest) !! 6%nat = Some (zlen (re_name r))) as -> by done.
  assert ((encode_entry r ++ rest) !! 7%nat = Some (re_type r)) as -> by done.
  cbn [unwrap rbind]. assert (zlen (re_name r) < 2 ^ 16) by (unfold rec_len, zlen in *; lia). rewrite checked_ok by (unfold zlen in *; lia). cbn [unwrap rbind].
  rewrite get_range_ok by (unfold rec_len, zlen in *; lia). cbn [ok_or rbind]. rewrite Et. cbn [ok_or rbind mbind option_bind].
  replace (field _ _ _) with (re_name r); [by rewrite Hn|].
  assert (encode_entry r ++ rest = (le_bytes 4 (re_inode r) ++ le_bytes 2 (rec_len r) ++ [zlen (re_name r)] ++ [re_type r]) ++ re_name r ++ re_pad r ++ rest) as ->.
  { unfold encode_entry. by rewrite <- !app_assoc. }
  rewrite field_app_skip by done. change (Z.to_nat 8 - _)%nat with 0%nat. rewrite field_app_hit; [done|]. unfold zlen. lia.
Qed.

Section read_dir.
Context `{Crc} {S : Type} `{BlockReaderLaws S fs disk good} (good_disk : disk_ok fs disk) (fuel : nat).
Context (path : list Z) (hh : bool) (base : Digest) (ino : Z).
Let bsize := block_size (superblock fs).

(** The blocks of a directory with their entries; the first block of all is told apart. *)
Inductive dir_blocks : bool → list Z → list (list RawEntry) → Prop :=
  | db_nil first : dir_blocks first [] []
  | db_cons first b bl rs rss :
      real_block fs b → fs_block fs disk b = mjoin (encode_entry <$> rs) → Forall raw_ok rs →
      check_dir_block fs ino first hh base (fs_block fs disk b) = Ok tt → dir_blocks false bl rss → dir_blocks first (b :: bl) (rs :: rss).

Definition rd (x : FileBlocks) (bi : option Z) (first : bool) (block : list Z) (off : Z) : ReadDir := mkReadDir path x bi first block off false hh base ino.

Abbreviation emits_dir := (emits good rd_is_done (read_dir_next_impl fs fuel)).
Abbreviation step_dir := (run_to good (read_dir_next_impl fs fuel)).

(** One entry, the block being there. *)
Lemma entry_step x b first pre r rest : zlen (pre ++ encode_entry r ++ rest) = bsize → pre ≠ [] → raw_ok r →
  run_to good (read_dir_entry fs b) (rd x (Some b) first (pre ++ encode_entry r ++ rest) (zlen pre)) (Ok (entry_of path r))
    (rd x (Some b) first (pre ++ encode_entry r ++ rest) (zlen pre + rec_len r)).
Proof using good_disk.
  intros Hl Hpre Hr. pose proof (dk_bsize _ _ good_disk) as Hbs. fold bsize in Hbs. pose proof (length_encode r) as Hlen.
  assert (8 ≤ rec_len r) as H8 by (unfold rec_len, zlen; lia). assert (0 < zlen pre) as Hp by (unfold zlen; destruct pre; [done|cbn; lia]).
  rewrite !zlen_app in Hl. pose proof (Zle_0_nat (length rest)) as Hz. fold (zlen rest) in Hz.
  unfold read_dir_entry. apply run_get. cbv zeta. cbn [rd offset_within_block]. fold bsize. rewrite (proj2 (Z.leb_gt _ _)), (proj2 (Z.eqb_neq _ _)) by lia.
  eapply run_lift; [done|]. apply run_get. cbn [rd rd_block offset_within_block rd_inode rd_path]. eapply run_lift; [by apply slice_rest|].
  eapply run_lift; [apply from_bytes_encode; [done|rewrite zlen_app; lia]|]. eapply run_lift; [by rewrite checked_ok by (pose proof (ro_len _ Hr); lia)|].
  apply run_put, run_ok.
Qed.

(** The entries after the first one, up to the end of the block. *)
Lemma entries_emit x b first rs : ∀ pre, zlen (pre ++ mjoin (encode_entry <$> rs)) = bsize → pre ≠ [] → Forall raw_ok rs →
  emits_dir (rd x (Some b) first (pre ++ mjoin (encode_entry <$> rs)) (zlen pre)) (omap (entry_of path) rs)
    (rd x None false (pre ++ mjoin (encode_entry <$> rs)) bsize) (length rs + 1).
Proof using good_disk.
  induction rs as [|r rs IH]; intros pre Hl Hpre Hrs.
  - eapply emits_none; [done| |constructor]. cbn [fmap list_fmap mjoin list_join] in *. rewrite app_nil_r in *. rewrite Hl.
    apply run_get. cbn [rd rd_block_index]. unfold read_dir_entry. apply run_get. cbv zeta. cbn [rd offset_within_block]. fold bsize.
    rewrite (proj2 (Z.leb_le _ _)) by lia. apply run_put, run_ok.
  - apply Forall_cons in Hrs as [Hr Hrs]. change (mjoin (encode_entry <$> r :: rs)) with (encode_entry r ++ mjoin (encode_entry <$> rs)) in *.
    specialize (IH (pre ++ encode_entry r)). assert (zlen (pre ++ encode_entry r) = zlen pre + rec_len r) as Hzp by (by rewrite zlen_app, length_encode).
    rewrite Hzp, <- (app_assoc pre) in IH.
    assert (step_dir (rd x (Some b) first (pre ++ encode_entry r ++ mjoin (encode_entry <$> rs)) (zlen pre)) (Ok (entry_of path r))
      (rd x (Some b) first (pre ++ encode_entry r ++ mjoin (encode_entry <$> rs)) (zlen pre + rec_len r))) as Hstep.
    { apply run_get. by apply entry_step. }
    specialize (IH Hl ltac:(by destruct pre) Hrs). cbn [omap list_omap length Nat.add]. destruct (entry_of path r) as [e|].
    + eapply emits_some; [done|exact Hstep|exact IH].
    + eapply emits_none; [done|exact Hstep|exact IH].
Qed.

Lemma dir_block_read_ok b first : real_block fs b → check_dir_block fs ino first hh base (fs_block fs disk b) = Ok tt →
  yields good (dir_block_read fs b ino first hh base) (Ok (fs_block fs disk b)).
Proof using H1 good_disk.
  intros Hb Hc. pose proof (dk_bsize _ _ good_disk) as Hbs. fold bsize in Hbs. unfold dir_block_read. fold bsize.
  eapply yields_bind; [apply (block_read_ok good_disk); [done|fold bsize; lia..]|]. cbv beta. change (Z.to_nat 0) with 0%nat.
  rewrite field_full by (by rewrite (length_fs_block good_disk)). eapply yields_bind; [rewrite Hc; apply yields_lift|apply yields_ok].
Qed.

(** A block, its first entry with the step that fetches it. *)
Lemma block_emit x x' b first block off r rs : run_to good (file_blocks_next fs fuel) x (Ok (Some b)) x' →
  real_block fs b → fs_block fs disk b = mjoin (encode_entry <$> r :: rs) → Forall raw_ok (r :: rs) →
  check_dir_block fs ino first hh base (fs_block fs disk b) = Ok tt →
  emits_dir (rd x None first block off) (omap (entry_of path) (r :: rs)) (rd x' None false (fs_block fs disk b) bsize) (length rs + 2).
Proof using All.
  intros Hx Hb Hblk Hrs Hc. pose proof (dk_bsize _ _ good_disk) as Hbs. fold bsize in Hbs. pose proof (length_fs_block good_disk b Hb) as Hlen. fold bsize in Hlen.
  apply Forall_cons in Hrs as [Hr Hrs]. pose proof (length_encode r) as Hle. assert (8 ≤ rec_len r) as H8 by (unfold rec_len, zlen; lia).
  change (mjoin (encode_entry <$> r :: rs)) with (encode_entry r ++ mjoin (encode_entry <$> rs)) in Hblk.
  assert (zlen (encode_entry r ++ mjoin (encode_entry <$> rs)) = bsize) as Hz by (rewrite <- Hblk; unfold zlen; lia).
  assert (step_dir (rd x None first block off) (Ok (entry_of path r)) (rd x' (Some b) first (fs_block fs disk b) (rec_len r))) as Hstep.
  { apply run_get. cbn [rd rd_block_index]. eapply run_sub; [exact Hx|]. apply run_get, run_put. unfold read_dir_entry. apply run_get. cbv zeta.
    cbn [rd rd_at rd_set_blocks offset_within_block is_first_block rd_inode rd_has_htree rd_checksum_base]. fold bsize. rewrite (proj2 (Z.leb_gt _ _)) by lia. cbn [Z.eqb].
    eapply run_bind; [eapply run_fs; [by apply dir_block_read_ok|]; intros s Hs; by exists s|]. apply run_get.
    cbn [rd rd_at rd_set_blocks rd_set_block rd_block offset_within_block rd_inode rd_path]. eapply run_lift.
    { rewrite slice_ok by (unfold zlen; lia). rewrite Z.sub_0_r. unfold zlen. rewrite Nat2Z.id, field_full by done. done. }
    eapply run_lift; [rewrite Hblk; apply from_bytes_encode; [done|lia]|]. eapply run_lift; [by rewrite checked_ok by (pose proof (ro_len _ Hr); lia)|].
    apply run_put, run_ok. }
  assert (encode_entry r ≠ []) as Hne by (intros E; rewrite E in Hle; change (zlen []) with 0 in Hle; lia).
  pose proof (entries_emit x' b first rs (encode_entry r) Hz Hne Hrs) as Hrest. rewrite <- Hblk, Hle in Hrest.
  replace (length rs + 2)%nat with (Datatypes.S (length rs + 1)) by lia. cbn [omap list_omap]. destruct (entry_of path r) as [e|].
  - eapply emits_some; [done|exact Hstep|exact Hrest].
  - eapply emits_none; [done|exact Hstep|exact Hrest].
Qed.

Definition dir_steps (rss : list (list RawEntry)) : nat := sum_list_with (λ rs, Datatypes.S (length rs)) rss.

Lemma dir_emit bl : ∀ x first block off rss, generates good (file_blocks_next fs fuel) x bl → dir_blocks first bl rss →
  ∃ t, emits_dir (rd x None first block off) (omap (entry_of path) (mjoin rss)) t (dir_steps rss + 1) ∧ rd_is_done t = true.
Proof using All.
  induction bl as [|b bl IH]; intros x first block off rss Hg Hb; inversion Hb as [|? ? ? rs rss' Hreal Hblk Hrs Hc Hrest]; subst.
  - destruct Hg as (x' & Hg). eexists. split; [eapply emits_none; [done| |constructor]|].
    + apply run_get. cbn [rd rd_block_index]. eapply run_sub; [exact Hg|]. apply run_get, run_put, run_ok.
    + done.
  - destruct Hg as (x' & Hx & Hg). destruct rs as [|r rs].
    { exfalso. pose proof (length_fs_block good_disk b Hreal) as Hl. rewrite Hblk in Hl. cbn in Hl. pose proof (dk_bsize _ _ good_disk). lia. }
    pose proof (block_emit x x' b first block off r rs Hx Hreal Hblk Hrs Hc) as He.
    destruct (IH x' false (fs_block fs disk b) bsize rss' Hg Hrest) as (t & Ht & Hd). exists t. split; [|done].
    change (mjoin ((r :: rs) :: rss')) with ((r :: rs) ++ mjoin rss'). rewrite omap_app. cbn [dir_steps sum_list_with length].
    replace (Datatypes.S (Datatypes.S (length rs)) + sum_list_with (λ rs0, Datatypes.S (length rs0)) rss' + 1)%nat with ((length rs + 2) + (dir_steps rss' + 1))%nat by (unfold dir_steps; lia).
    by eapply emits_app.
Qed.
End read_dir.

(** ** The binary search *)

(** The pairs of hash and block in the bytes of a node; the hash of the first one counts as zero. *)
Definition table (E : list Z) : list (Z * Z) :=
  (λ i, (if i =? 0 then 0 else le_dec (field (Z.to_nat (8 * i)) 4 E), le_dec (field (Z.to_nat (8 * i + 4)) 4 E))) <$> seqZ 0 (zlen E / 8).

Definition sorted (t : list (Z * Z)) : Prop := ∀ i j x y, (i ≤ j)%nat → t !! i = Some x → t !! j = Some y → x.1 ≤ y.1.

(** The block of the last pair whose hash is not greater. *)
Definition picks (t : list (Z * Z)) (h b : Z) : Prop :=
  ∃ i x, t !! i = Some (x, b) ∧ x ≤ h ∧ ∀ j y, (i < j)%nat → t !! j = Some y → h < y.1.

Lemma picks_unique t h b c : picks t h b → picks t h c → b = c.
Proof.
  intros (i & x & Hi & Hx & Hi') (j & y & Hj & Hy & Hj'). destruct (lt_eq_lt_dec i j) as [[Hlt| ->]|Hlt]; [|congruence|].
  - specialize (Hi' j _ Hlt Hj). cbn in Hi'. lia.
  - specialize (Hj' i _ Hlt Hi). cbn in Hj'. lia.
Qed.

Lemma table_lookup E i : 0 ≤ i < zlen E / 8 →
  table E !! Z.to_nat i = Some (if i =? 0 then 0 else le_dec (field (Z.to_nat (8 * i)) 4 E), le_dec (field (Z.to_nat (8 * i + 4)) 4 E)).
Proof. intros Hi. unfold table. rewrite list_lookup_fmap, lookup_seqZ_lt by lia. cbn. by rewrite Z2Nat.id by lia. Qed.

Lemma get_entry_eq E i : 0 ≤ i < zlen E / 8 → zlen E < 2 ^ 64 → ∃ p, get_entry E i = Ok p ∧ table E !! Z.to_nat i = Some p.
Proof.
  intros Hi Hl. pose proof (Z.mul_div_le (zlen E) 8 ltac:(lia)). rewrite table_lookup by done. eexists. split; [|done].
  unfold get_entry, HT_ENTRY_SIZE, read_u32le. rewrite checked_ok by lia. cbn [unwrap rbind]. rewrite checked_ok by lia. cbn [unwrap rbind].
  rewrite read_le_ok by lia. cbn [rbind]. destruct (i =? 0) eqn:E0; [done|]. by rewrite read_le_ok by lia.
Qed.

Lemma search_loop_exact E h lo hi fuel : sorted (table E) → zlen E < 2 ^ 64 → 0 ≤ h → 0 ≤ lo ≤ hi + 1 → hi < zlen E / 8 → 0 < zlen E / 8 → 0 ≤ hi →
  (∀ i x, table E !! i = Some x → Z.of_nat i < lo → x.1 ≤ h) → (∀ i x, table E !! i = Some x → hi < Z.of_nat i → h < x.1) →
  hi - lo + 1 < Z.of_nat fuel → ∃ b, search_loop E h lo hi fuel = Ok (Some b) ∧ picks (table E) h b.
Proof.
  intros Hs Hl Hh. revert lo hi. induction fuel as [|fuel IH]; intros lo hi Hlo Hhi Hn Hhi0 Hle Hgt Hf; [lia|]. cbn [search_loop].
  pose proof (Z.mul_div_le (zlen E) 8 ltac:(lia)). destruct (Z.leb_spec lo hi) as [Hc|Hc].
  - rewrite checked_ok by lia. set (mid := (lo + hi) / 2). assert (lo ≤ mid ≤ hi) as Hm by (subst mid; split; [apply Z.div_le_lower_bound|apply Z.div_le_upper_bound]; lia).
    destruct (get_entry_eq E mid ltac:(lia) Hl) as ([mh mb] & -> & Hmid). cbn [rbind]. destruct (Z.leb_spec mh h).
    + rewrite checked_ok by lia. apply IH; [lia..| |done|lia]. intros i x Hx Hi. pose proof (Hs i (Z.to_nat mid) x _ ltac:(lia) Hx Hmid) as Hsx. cbn in Hsx. lia.
    + assert (mid ≠ 0) as Hm0.
      { intros Hz. rewrite Hz in Hmid. rewrite table_lookup in Hmid by lia. cbn in Hmid. injection Hmid as <- _. lia. }
      rewrite checked_ok by lia. apply IH; [lia..|done| |lia]. intros i x Hx Hi. pose proof (Hs (Z.to_nat mid) i _ x ltac:(lia) Hmid Hx) as Hsx. cbn in Hsx. lia.
  - assert (lo = hi + 1) as -> by lia. replace (hi + 1 - 1) with hi by lia. rewrite checked_ok by lia.
    destruct (get_entry_eq E hi ltac:(lia) Hl) as ([mh mb] & -> & Hmid). cbn [rbind]. exists mb. split; [done|]. exists (Z.to_nat hi), mh. split; [done|]. split.
    + exact (Hle _ _ Hmid ltac:(lia)).
    + intros j y Hj Hy. apply (Hgt j y Hy). lia.
Qed.

Lemma lookup_block_by_hash_exact E h : sorted (table E) → 8 ≤ zlen E < 2 ^ 64 → 0 ≤ h → ∃ b, lookup_block_by_hash E h = Ok (Some b) ∧ picks (table E) h b.
Proof.
  intros Hs Hl Hh. unfold lookup_block_by_hash, ht_num_entries, HT_ENTRY_SIZE. assert (1 ≤ zlen E / 8) by (apply Z.div_le_lower_bound; lia).
  assert (zlen E / 8 ≤ zlen E) by (apply Z.div_le_upper_bound; lia). rewrite checked_ok by lia.
  apply search_loop_exact; try lia; [done| |].
  - intros i x Hx Hi. apply lookup_lt_Some in Hx. unfold table in Hx. rewrite length_fmap, length_seqZ in Hx. lia.
  - unfold zlen in *. lia.
Qed.

(** ** Directories *)
Record dir_ok `{Crc} (fs : Ext4) (disk : list Z) (inode : Inode) (bl : list Z) (rss : list (list RawEntry)) : Prop := {
  do_dir : is_dir (metadata inode) = true;
  do_open : contains (flags inode) DIRECTORY_ENCRYPTED = false;
  do_blocks : has_blocks fs disk inode bl;
  do_count : 0 ≤ file_size_in_blocks inode < 2 ^ 32;
  do_entries : dir_blocks (fs := fs) (disk := disk) (contains (flags inode) DIRECTORY_HTREE) (checksum_base inode) (index inode) true bl rss;
}.

(** The first entry with a name. *)
Definition dir_find (name : list Z) (es : list DirEntry) : option DirEntry := find (λ e, bool_decide (de_name e = name)) es.

Section lookup.
Context `{Crc} {S : Type} `{BlockReaderLaws S fs disk good} (good_disk : disk_ok fs disk) (bytes : bytes_ok disk).
Context (inode : Inode) (bl : list Z) (rss : list (list RawEntry)) (ok : dir_ok fs disk inode bl rss).

Lemma read_dir_generate path : ∃ N, ∀ fuel, (N ≤ fuel)%nat → ∃ r, read_dir_new fs inode path = Ok r ∧
  generates good (read_dir_next fs fuel) r (omap (entry_of path) (mjoin rss)).
Proof using All.
  destruct ok as [_ Hopen Hb Hc He]. destruct (file_blocks_generate good_disk bytes inode bl Hb Hc) as (it & n & Hnew & Hg).
  exists (n + dir_steps rss + 2)%nat. intros fuel Hf. eexists. split; [unfold read_dir_new; rewrite Hopen, Hnew; reflexivity|].
  destruct (dir_emit good_disk fuel path _ _ _ bl it true (zeros (Z.to_nat (block_size (superblock fs)))) 0 rss (Hg fuel ltac:(lia)) He) as (t & Ht & Hd).
  eapply emits_generates; [exact Ht|exact Hd|lia].
Qed.

Lemma with_iter_yields {T A} (t : T) (m : M (T * S) Ext4Error A) r t' : run_to good m t r t' → yields good (with_iter t m) r.
Proof using. intros Hm s Hs. destruct (Hm s Hs) as (s' & E & Hs'). exists s'. unfold with_iter. by rewrite E. Qed.

Lemma find_by_name_ok fuel name es : ∀ r n, generates good (read_dir_next fs fuel) r es → (length es < n)%nat →
  ∃ r', run_to good (find_by_name fs fuel name n) r (match dir_find name es with Some e => Ok e | None => Err NotFound end) r'.
Proof using.
  induction es as [|e es IH]; intros r [|n] Hg Hn; cbn [length] in Hn; try lia; cbn [find_by_name dir_find find].
  - destruct Hg as (r' & Hg). exists r'. eapply run_bind; [exact Hg|]. apply run_err.
  - destruct Hg as (r' & Hr & Hg). case_bool_decide.
    + exists r'. eapply run_bind; [exact Hr|]. cbv beta iota. rewrite bool_decide_eq_true_2 by done. apply run_ok.
    + destruct (IH r' n Hg ltac:(lia)) as (r'' & Hr'). exists r''. eapply run_bind; [exact Hr|]. cbv beta iota. by rewrite bool_decide_eq_false_2.
Qed.

(** A lookup gives the inode of the entry, or there is none. *)
Definition finds (m : M S Ext4Error Inode) (o : option DirEntry) : Prop :=
  match o with
  | Some e => ∀ r, yields good (inode_read fs (de_inode e)) r → yields good m r
  | None => yields good m (Err NotFound)
  end.

(** What a lookup has to give: the inode of the first entry with the name. *)
Definition lookup_spec (m : M S Ext4Error Inode) (name : list Z) : Prop := finds m (dir_find name (omap (entry_of []) (mjoin rss))).

Lemma linear_lookup : contains (flags inode) DIRECTORY_HTREE = false →
  ∃ N, ∀ fuel, (N ≤ fuel)%nat → ∀ name, lookup_spec (get_dir_entry_inode_by_name fs fuel inode name) name.
Proof using All.
  intros Hh. destruct (read_dir_generate []) as (N & HN). set (es := omap (entry_of []) (mjoin rss)) in *. exists (N + length es + 1)%nat. intros fuel Hf name.
  destruct (HN fuel ltac:(lia)) as (r & Hnew & Hg). destruct (find_by_name_ok fuel name es r fuel Hg ltac:(lia)) as (r' & Hr). apply with_iter_yields in Hr.
  unfold lookup_spec, finds, get_dir_entry_inode_by_name. fold es. rewrite (do_dir _ _ _ _ _ ok), (do_open _ _ _ _ _ ok), Hh, Hnew. destruct (dir_find name es) as [e|].
  - intros q Hq. eapply yields_bind; [apply yields_lift|]. eapply yields_bind; [apply yields_lift|]. eapply yields_bind; [exact Hr|exact Hq].
  - eapply yields_bind; [apply yields_lift|]. eapply yields_bind; [apply yields_lift|]. by apply yields_bind_err.
Qed.
End lookup.

(** ** Hash trees on the storage *)

(** The entries in use at the start of some bytes. *)
Record node_bytes (bs E : list Z) : Prop := {
  nb_some : 8 ≤ zlen E;
  nb_fits : zlen E ≤ zlen bs;
  nb_count : zlen E = 8 * le_dec (field 2 2 bs);
  nb_eq : E = field 0 (length E) bs;
}.

Section tree.
Context (fs : Ext4) (disk : list Z) (bl : list Z).

(** The hash [h] leads from block [k] of the file through [n] levels of inner nodes to the leaf [l]. *)
Inductive leads (h : Z) : Z → nat → Z → Prop :=
  | leads_leaf k : 0 < k → is_Some (bl !! Z.to_nat k) → leads h k 0 k
  | leads_inner k n b E c l : 0 < k → bl !! Z.to_nat k = Some b → node_bytes (drop 8 (fs_block fs disk b)) E → sorted (table E) → picks (table E) h c →
      leads h c n l → leads h k (S n) l.
End tree.

(** A directory with a hash tree over half-MD4 hashes; the hash [h] leads to the block [leaf h]. *)
Record htree_at `{Crc} (fs : Ext4) (disk : list Z) (inode : Inode) (bl : list Z) (rss : list (list RawEntry)) (leaf : Z → Z) : Prop := {
  ht_flag : contains (flags inode) DIRECTORY_HTREE = true;
  ht_nonzero : Forall (λ b, b ≠ 0) bl;
  ht_ends : ∀ xs, has_extents fs disk inode xs → Forall (λ e, ext_block_within_file e + num_blocks e < 2 ^ 32) xs;
  ht_dots : ∃ rdot rdd rs, rss !! 0%nat = Some (rdot :: rdd :: rs) ∧ re_name rdot = DOT ∧ re_name rdd = DOTDOT ∧ rec_len rdot = 12 ∧
    re_inode rdot ≠ 0 ∧ re_inode rdd ≠ 0;
  ht_tree : ∃ b0 E depth, bl !! 0%nat = Some b0 ∧ fs_block fs disk b0 !! 0x1c%nat = Some 1 ∧ fs_block fs disk b0 !! 0x1e%nat = Some (Z.of_nat depth) ∧
    node_bytes (drop 0x20 (fs_block fs disk b0)) E ∧ sorted (table E) ∧
    ∀ h, 0 ≤ h → ∃ k, picks (table E) h k ∧ leads fs disk bl h k depth (leaf h);
}.

(** The leaf that is searched for a name. *)
Definition leaf_of (fs : Ext4) (leaf : Z → Z) (name : list Z) : Z := leaf (half_md4 name (htree_hash_seed (superblock fs))).

(** Every entry is in the leaf that its hash leads to. *)
Record htree_ok `{Crc} (fs : Ext4) (disk : list Z) (inode : Inode) (bl : list Z) (rss : list (list RawEntry)) (leaf : Z → Z) : Prop := {
  ht_at : htree_at fs disk inode bl rss leaf;
  ht_placed : ∀ k rs r, rss !! k = Some rs → r ∈ rs → re_inode r ≠ 0 → re_name r ≠ DOT → re_name r ≠ DOTDOT →
    Z.of_nat k = leaf_of fs leaf (re_name r);
}.

Lemma dir_hash_nonneg name seed : name ≠ [] → 0 ≤ dir_hash_md4_half name seed.
Proof.
  intros Hn. unfold dir_hash_md4_half. set (s := if bool_decide _ then _ else _). destruct name as [|c name]; [done|]. cbn [length hash_chunks].
  assert (∀ n st nm, (let '(_, b, _, _) := st in 0 ≤ b) → let '(_, b, _, _) := hash_chunks st nm n in 0 ≤ b) as Hind.
  { induction n as [|n IH]; intros st nm Hst; [done|]. cbn [hash_chunks]. destruct nm as [|x nm]; [done|]. apply IH. unfold md4_half.
    destruct (md4_step _ _ _ _ _ _ _ _ _ _ _ _) as [[[a b] c'] d]. destruct st as [[[s0 s1] s2] s3]. unfold wadd. apply Z.mod_pos_bound. lia. }
  specialize (Hind (length name) (md4_half (s !!! 0%nat, s !!! 1%nat, s !!! 2%nat, s !!! 3%nat) (create_hash_block (take 32 (c :: name)))) (drop 32 (c :: name))).
  destruct (hash_chunks _ _ _) as [[[a b] c'] d]. apply Z.ldiff_nonneg. left. apply Hind. unfold md4_half.
  destruct (md4_step _ _ _ _ _ _ _ _ _ _ _ _) as [[[a' b'] c''] d']. unfold wadd. apply Z.mod_pos_bound. lia.
Qed.

Lemma find_app {A} (f : A → bool) l1 l2 : find f (l1 ++ l2) = match find f l1 with Some x => Some x | None => find f l2 end.
Proof. induction l1 as [|x l1 IH]; cbn; [done|]. by destruct (f x). Qed.

(** All matches are in one of the lists. *)
Lemma find_mjoin {A B} (f : B → bool) (g : A → option B) (ls : list (list A)) k l : ls !! k = Some l →
  (∀ j l', j ≠ k → ls !! j = Some l' → find f (omap g l') = None) → find f (omap g (mjoin ls)) = find f (omap g l).
Proof.
  revert k. induction ls as [|l0 ls IH]; intros k Hk Hj; [done|]. change (mjoin (l0 :: ls)) with (l0 ++ mjoin ls). rewrite omap_app, find_app. destruct k as [|k].
  - injection Hk as ->. destruct (find f (omap g l)); [done|]. assert (∀ j l', ls !! j = Some l' → find f (omap g l') = None) as Hall by (intros j l' Hl'; by apply (Hj (S j))).
    clear - Hall. induction ls as [|l1 ls IH]; [done|]. change (mjoin (l1 :: ls)) with (l1 ++ mjoin ls). rewrite omap_app, find_app, (Hall 0%nat l1) by done.
    apply IH. intros j l' Hl'. by apply (Hall (S j)).
  - rewrite (Hj 0%nat l0) by done. apply (IH k Hk). intros j l' Hne Hl'. apply (Hj (S j)); [congruence|done].
Qed.

Lemma find_None_iff {A} (f : A → bool) l : (∀ x, x ∈ l → f x = false) → find f l = None.
Proof. induction l as [|x l IH]; intros Hf; [done|]. cbn. rewrite Hf by left. apply IH. intros y Hy. apply Hf. by right. Qed.

(** The linear search in a block. *)
Lemma search_leaf_ok `{Crc} inode name rs : ∀ pre n, Forall raw_ok rs → zlen (pre ++ mjoin (encode_entry <$> rs)) < 2 ^ 63 → (length rs < n)%nat →
  search_leaf inode name (pre ++ mjoin (encode_entry <$> rs)) (zlen pre) n = match dir_find name (omap (entry_of []) rs) with Some e => Ok e | None => Err NotFound end.
Proof.
  induction rs as [|r rs IH]; intros pre [|n] Hrs Hl Hn; cbn [length] in Hn; try lia; cbn [search_leaf].
  - change (mjoin (encode_entry <$> [])) with (@nil Z). rewrite app_nil_r. by rewrite (proj2 (Z.leb_le _ _)) by lia.
  - apply Forall_cons in Hrs as [Hr Hrs]. change (mjoin (encode_entry <$> r :: rs)) with (encode_entry r ++ mjoin (encode_entry <$> rs)) in *.
    pose proof (length_encode r) as He. assert (8 ≤ rec_len r) as H8 by (unfold rec_len, zlen; lia). pose proof (ro_len r Hr) as H16.
    rewrite (proj2 (Z.leb_gt _ _)) by (rewrite !zlen_app; unfold zlen in *; lia). rewrite slice_rest by done. cbn [rbind].
    rewrite from_bytes_encode by (rewrite ?zlen_app in *; unfold zlen in *; done || lia). cbn [rbind].
    rewrite checked_ok by (rewrite ?zlen_app in *; unfold zlen in *; lia). cbn [ok_or rbind].
    specialize (IH (pre ++ encode_entry r) n Hrs). rewrite <- (app_assoc pre) in IH. assert (zlen (pre ++ encode_entry r) = zlen pre + rec_len r) as Hz by (by rewrite zlen_app, He).
    rewrite Hz in IH. specialize (IH Hl ltac:(lia)). cbn [omap list_omap]. destruct (entry_of [] r) as [e|]; [|exact IH]. cbn [dir_find find]. case_bool_decide; [done|exact IH].
Qed.

Lemma file_block_find xs k : file_block xs k = match find (λ e, in_extent e k) xs with Some e => start_block e + (k - ext_block_within_file e) | None => 0 end.
Proof. induction xs as [|e xs IH]; cbn; [done|]. by destruct (in_extent e k). Qed.

Lemma ordered_Forall p xs : 0 ≤ p → ordered p xs →
  Forall (λ e, 0 ≤ ext_block_within_file e < 2 ^ 32 ∧ 0 ≤ num_blocks e < 65536 ∧ 0 ≤ start_block e ∧ start_block e + num_blocks e ≤ 2 ^ 64) xs.
Proof.
  revert p. induction xs as [|e xs IH]; intros p Hp Ho; [done|]. destruct Ho as (Hb & Hn & Hs & Hs' & Ho). constructor; [repeat split; lia|].
  apply (IH (ext_block_within_file e + num_blocks e)); [lia|done].
Qed.

Lemma find_Some_prop {A} (f : A → bool) l x : find f l = Some x → x ∈ l ∧ f x = true.
Proof. induction l as [|y l IH]; cbn; [done|]. destruct (f y) eqn:E; [intros [= ->]; split; [left|done]|]. intros Hx. destruct (IH Hx). split; [by right|done]. Qed.

Section file_block_index.
Context `{Crc} {S : Type} `{BlockReaderLaws S fs disk good} (good_disk : disk_ok fs disk) (bytes : bytes_ok disk) (inode : Inode).

Lemma find_extent_ok fuel k xs : ∀ x n e, generates good (extents_next fs fuel) x xs → (length xs < n)%nat →
  Forall (λ e, 0 ≤ ext_block_within_file e ∧ 0 ≤ num_blocks e ∧ ext_block_within_file e + num_blocks e < 2 ^ 32) xs →
  find (λ e, in_extent e k) xs = Some e → ∃ x', run_to good (find_extent fs fuel inode k n) x (Ok e) x'.
Proof using.
  induction xs as [|e' xs IH]; intros x [|n] e Hg Hn Hxs Hf; cbn [length] in Hn; try lia; [done|]. apply Forall_cons in Hxs as [(Hb & Hc & He) Hxs].
  destruct Hg as (x' & Hr & Hg). cbn [find_extent]. cbn [find] in Hf. unfold in_extent in Hf at 1.
  destruct ((ext_block_within_file e' <=? k) && (k <? ext_block_within_file e' + num_blocks e')) eqn:Ein.
  - injection Hf as ->. exists x'. eapply run_bind; [exact Hr|]. cbv beta iota zeta. eapply run_lift; [by rewrite checked_ok by lia|]. rewrite Ein. apply run_ok.
  - destruct (IH x' n e Hg ltac:(lia) Hxs Hf) as (x'' & Hr'). exists x''. eapply run_bind; [exact Hr|]. cbv beta iota zeta. eapply run_lift; [by rewrite checked_ok by lia|]. by rewrite Ein.
Qed.

Lemma iter_nth_ok {T A} (next : M (T * S) Ext4Error (option A)) l : ∀ t (k : nat) a, generates good next t l → l !! k = Some a →
  ∃ t', run_to good (iter_nth next k) t (Ok (Some a)) t'.
Proof using.
  induction l as [|a' l IH]; intros t k a Hg Hk; [done|]. destruct Hg as (t' & Hr & Hg). destruct k as [|k].
  - injection Hk as ->. by exists t'.
  - destruct (IH t' k a Hg Hk) as (t'' & Hr'). exists t''. intros s Hs. destruct (Hr s Hs) as (s' & E & Hs'). cbn [iter_nth]. rewrite E. by apply Hr'.
Qed.

Lemma block_from_file_block_ok bl : has_blocks fs disk inode bl → 0 ≤ file_size_in_blocks inode < 2 ^ 32 →
  (∀ xs, has_extents fs disk inode xs → Forall (λ e, ext_block_within_file e + num_blocks e < 2 ^ 32) xs) →
  ∃ N, ∀ fuel, (N ≤ fuel)%nat → ∀ k b, 0 ≤ k → bl !! Z.to_nat k = Some b → b ≠ 0 → yields good (block_from_file_block fs fuel inode k) (Ok b).
Proof using All.
  intros Hb Hc Hends. destruct (file_blocks_generate good_disk bytes inode bl Hb Hc) as (it & N & Hnew & Hg). destruct Hb as [xs Hf Hx Ho|P Hf HP Hl Hcap Hm].
  - destruct (extents_generate inode xs good_disk bytes Hx) as (x & n & Hxnew & Hxg). exists (n + length xs + 1)%nat. intros fuel Hfu k b Hk Hbk Hb0.
    rewrite list_lookup_fmap in Hbk. destruct (seqZ 0 (file_size_in_blocks inode) !! Z.to_nat k) as [k'|] eqn:Ek; [|done]. apply lookup_seqZ in Ek as [-> Hk'].
    injection Hbk as Hbk. rewrite Z.add_0_l, Z2Nat.id, file_block_find in Hbk by lia. destruct (find _ xs) as [e|] eqn:Efind; [|done].
    destruct (find_Some_prop _ _ _ Efind) as [Hin Hcov]. pose proof (ordered_Forall 0 xs ltac:(lia) Ho) as Hall. pose proof (Hends xs Hx) as Hend.
    destruct (find_extent_ok fuel k xs x fuel e (Hxg fuel ltac:(lia)) ltac:(lia)) as (x' & Hr); [|done|].
    { apply Forall_forall. intros e' He'. rewrite Forall_forall in Hall, Hend. specialize (Hall e' He'). specialize (Hend e' He'). cbn in *. lia. }
    rewrite Forall_forall in Hall. specialize (Hall e Hin). cbn in Hall. unfold in_extent in Hcov. apply andb_true_iff in Hcov as [Hc1 Hc2].
    unfold block_from_file_block. cbv zeta. unfold contains. rewrite Hf, Z.eqb_refl. eapply yields_bind.
    { unfold find_extent_for_block. eapply yields_bind; [rewrite Hxnew; apply yields_lift|]. cbv beta. eapply with_iter_yields, Hr. }
    cbv beta. eapply yields_bind; [rewrite checked_ok by lia; apply yields_lift|]. cbv beta. rewrite checked_ok by lia. rewrite Hbk. apply yields_lift.
  - exists N. intros fuel Hfu k b Hk Hbk _. destruct (iter_nth_ok _ _ it (Z.to_nat k) b (Hg fuel Hfu) Hbk) as (t' & Hr).
    unfold block_from_file_block. cbv zeta. unfold contains. rewrite (proj2 (Z.eqb_neq _ _) Hf). eapply yields_bind; [rewrite Hnew; apply yields_lift|]. cbv beta.
    eapply yields_bind; [eapply with_iter_yields, Hr|]. apply yields_lift.
Qed.
End file_block_index.

Lemma dir_blocks_lookup `{Crc} fs disk hh base ino first bl rss k b : dir_blocks (fs := fs) (disk := disk) hh base ino first bl rss → bl !! k = Some b →
  ∃ rs, rss !! k = Some rs ∧ real_block fs b ∧ fs_block fs disk b = mjoin (encode_entry <$> rs) ∧ Forall raw_ok rs ∧
    check_dir_block fs ino (if (k =? 0)%nat then first else false) hh base (fs_block fs disk b) = Ok tt.
Proof.
  intros Hd. revert k. induction Hd as [|first b' bl rs rss Hr Hb Hrs Hc Hd IH]; intros k Hk; [done|]. destruct k as [|k].
  - injection Hk as ->. by exists rs.
  - destruct (IH k Hk) as (rs' & ? & ? & ? & ? & Hc'). exists rs'. cbn [Nat.eqb]. refine (conj _ (conj _ (conj _ (conj _ _)))); [done..|]. revert Hc'. by destruct (k =? 0)%nat.
Qed.

Lemma internal_node_ok bs E ino : node_bytes bs E → zlen bs < 2 ^ 64 → internal_node_new bs ino = Ok E.
Proof.
  intros [Hs Hf Hc He] H64. unfold internal_node_new, HT_ENTRY_SIZE, read_u16le. rewrite (proj2 (Z.ltb_ge _ _)) by lia. rewrite read_le_ok by lia. cbn [rbind].
  change (Z.to_nat 2) with 2%nat. rewrite <- Hc. rewrite checked_ok by lia. cbn [unwrap rbind]. rewrite get_range_ok by lia. cbn [ok_or].
  rewrite Z.sub_0_r. unfold zlen. rewrite Nat2Z.id. change (Z.to_nat 0) with 0%nat. by rewrite <- He.
Qed.

Lemma slice_all {E A} (l : list A) : @slice E A 0 (zlen l) l = Ok l.
Proof. exact (slice_rest 0 [] l eq_refl). Qed.

Lemma length_encoded rs : (length rs ≤ length (mjoin (encode_entry <$> rs)))%nat.
Proof.
  induction rs as [|r rs IH]; [done|]. change (mjoin (encode_entry <$> r :: rs)) with (encode_entry r ++ mjoin (encode_entry <$> rs)).
  rewrite length_app. pose proof (length_encode r). unfold rec_len, zlen in *. cbn [length]. lia.
Qed.

(** The first block of a directory with a hash tree. *)
Lemma root_block_read `{Crc} {S} `{BlockReaderLaws S fs disk good} : disk_ok fs disk → bytes_ok disk → ∀ inode bl rss, dir_ok fs disk inode bl rss →
  contains (flags inode) DIRECTORY_HTREE = true → ∀ b0, bl !! 0%nat = Some b0 → ∃ N, ∀ fuel, (N ≤ fuel)%nat → yields good (read_root_block fs fuel inode) (Ok (fs_block fs disk b0)).
Proof.
  intros Hd Hb inode bl rss ok Hflag b0 Hb0.
  destruct (file_blocks_generate Hd Hb inode bl (do_blocks _ _ _ _ _ ok) (do_count _ _ _ _ _ ok)) as (it & N & Hnew & Hg). exists N. intros fuel Hfu. specialize (Hg fuel Hfu).
  assert (∃ it', run_to good (file_blocks_next fs fuel) it (Ok (Some b0)) it') as (it' & Hnext).
  { clear - Hg Hb0. destruct bl as [|b bl']; [done|]. injection Hb0 as ->. destruct Hg as (it' & Hr & _). by exists it'. }
  unfold read_root_block. eapply yields_bind; [rewrite Hnew; apply yields_lift|]. cbv beta. eapply yields_bind; [eapply with_iter_yields, Hnext|]. cbv beta.
  eapply yields_bind; [apply yields_lift|]. cbv beta. destruct (dir_blocks_lookup _ _ _ _ _ _ _ _ 0 b0 (do_entries _ _ _ _ _ ok) Hb0) as (_ & _ & Hreal & _ & _ & Hck).
  rewrite Hflag in Hck. by apply (dir_block_read_ok Hd).
Qed.

Section via_htree.
Context `{Crc} {S : Type} `{BlockReaderLaws S fs disk good} (good_disk : disk_ok fs disk) (bytes : bytes_ok disk).
Context (inode : Inode) (bl : list Z) (rss : list (list RawEntry)) (ok : dir_ok fs disk inode bl rss) (leaf : Z → Z) (ht : htree_at fs disk inode bl rss leaf).

Lemma block_parts (a : nat) b : real_block fs b → (a ≤ 32)%nat →
  @slice Ext4Error Z (Z.of_nat a) (zlen (fs_block fs disk b)) (fs_block fs disk b) = Ok (drop a (fs_block fs disk b)) ∧ zlen (drop a (fs_block fs disk b)) < 2 ^ 64.
Proof using good_disk.
  intros Hb Ha. pose proof (length_fs_block good_disk b Hb) as Hl. pose proof (dk_bsize _ _ good_disk). unfold zlen. rewrite length_drop. split; [|lia].
  rewrite slice_ok by (unfold zlen; lia). f_equal. unfold field. rewrite Nat2Z.id. apply take_ge. rewrite length_drop. lia.
Qed.

(** A block of the directory other than the first one. *)
Lemma read_inner_block k b : 0 < k → bl !! Z.to_nat k = Some b →
  yields good (dir_block_read fs b (index inode) false true (checksum_base inode)) (Ok (fs_block fs disk b)) ∧ real_block fs b.
Proof using All.
  intros Hk Hb. destruct (dir_blocks_lookup _ _ _ _ _ _ _ _ _ _ (do_entries _ _ _ _ _ ok) Hb) as (rs & _ & Hr & _ & _ & Hc).
  rewrite (ht_flag _ _ _ _ _ _ ht), (proj2 (Nat.eqb_neq _ _)) in Hc by lia. split; [|done]. by apply (dir_block_read_ok good_disk).
Qed.

Lemma descend_ok fuel h k n l : 0 ≤ h → (∀ k b, 0 ≤ k → bl !! Z.to_nat k = Some b → b ≠ 0 → yields good (block_from_file_block fs fuel inode k) (Ok b)) →
  leads fs disk bl h k n l → ∃ b, 0 < l ∧ bl !! Z.to_nat l = Some b ∧ yields good (descend fs fuel inode h k n) (Ok (fs_block fs disk b)).
Proof using All.
  intros Hh Hfrom. induction 1 as [k Hk [b Hb]|k n b E c l Hk Hb HE Hs Hp Hl IH].
  all: assert (b ≠ 0) as Hb0 by exact (Forall_lookup_1 _ _ _ _ (ht_nonzero _ _ _ _ _ _ ht) Hb); destruct (read_inner_block k b Hk Hb) as [Hread Hreal].
  - exists b. split; [done|]. split; [done|]. cbn [descend]. eapply yields_bind; [apply Hfrom; [lia|done..]|]. cbv beta. eapply yields_bind; [exact Hread|apply yields_ok].
  - destruct IH as (b' & Hl0 & Hb' & Hy). exists b'. split; [done|]. split; [done|]. cbn [descend]. eapply yields_bind; [apply Hfrom; [lia|done..]|]. cbv beta.
    eapply yields_bind; [exact Hread|]. cbv beta iota. destruct (block_parts 8 b Hreal ltac:(lia)) as [Hsl H64].
    destruct (lookup_block_by_hash_exact E h Hs) as (c' & Hlook & Hpick); [destruct HE; lia|lia|]. rewrite (picks_unique _ _ _ _ Hpick Hp) in Hlook.
    eapply yields_bind; [unfold from_non_root_block; change 8 with (Z.of_nat 8); rewrite Hsl; cbn [rbind]; rewrite (internal_node_ok _ E) by done; apply yields_lift|]. cbv beta.
    eapply yields_bind; [rewrite Hlook; apply yields_lift|]. cbv beta. eapply yields_bind; [apply yields_lift|exact Hy].
Qed.

Lemma find_leaf_ok fuel name b0 : name ≠ [] → (∀ k b, 0 ≤ k → bl !! Z.to_nat k = Some b → b ≠ 0 → yields good (block_from_file_block fs fuel inode k) (Ok b)) →
  bl !! 0%nat = Some b0 → ∃ l b, l = leaf_of fs leaf name ∧ 0 < l ∧ bl !! Z.to_nat l = Some b ∧
    yields good (find_leaf_node fs fuel inode name (fs_block fs disk b0)) (Ok (fs_block fs disk b)).
Proof using All.
  intros Hname Hfrom Hb0. destruct (ht_tree _ _ _ _ _ _ ht) as (b0' & E & depth & Hb0' & H1c & H1e & HE & Hs & Htree). rewrite Hb0 in Hb0'. injection Hb0' as <-.
  set (h := dir_hash_md4_half name (htree_hash_seed (superblock fs))). pose proof (dir_hash_nonneg name (htree_hash_seed (superblock fs)) Hname : 0 ≤ h) as Hh.
  destruct (Htree h Hh) as (k & Hp & Hl). destruct (descend_ok fuel h k depth _ Hh Hfrom Hl) as (b & Hl0 & Hb & Hy). exists (leaf h), b. split; [unfold leaf_of, h; by rewrite dir_hash_half_md4|]. repeat split; [done..|].
  destruct (dir_blocks_lookup _ _ _ _ _ _ _ _ _ _ (do_entries _ _ _ _ _ ok) Hb0) as (_ & _ & Hreal & _). destruct (block_parts 32 b0 Hreal ltac:(lia)) as [Hsl H64].
  destruct (lookup_block_by_hash_exact E h Hs) as (c' & Hlook & Hpick); [destruct HE; lia|lia|]. rewrite (picks_unique _ _ _ _ Hpick Hp) in Hlook.
  unfold find_leaf_node. rewrite H1c. eapply yields_bind; [apply yields_lift|]. cbv beta. cbn [Z.eqb negb Pos.eqb]. rewrite H1e. eapply yields_bind; [apply yields_lift|]. cbv beta.
  eapply yields_bind; [unfold from_root_block; change 0x20 with (Z.of_nat 32); rewrite Hsl; cbn [rbind]; rewrite (internal_node_ok _ E) by done; apply yields_lift|].
  cbv beta zeta. fold h. eapply yields_bind; [rewrite Hlook; apply yields_lift|]. cbv beta. eapply yields_bind; [apply yields_lift|]. cbv beta. rewrite Nat2Z.id. exact Hy.
Qed.

Lemma entry_of_some path r : raw_ok r → re_inode r ≠ 0 → ∃ t, entry_of path r = Some (mkDirEntry (re_inode r) (re_name r) path t).
Proof using. intros Hr Hi. destruct (ro_type r Hr Hi) as [t Ht]. exists t. unfold entry_of. by rewrite (proj2 (Z.eqb_neq _ _) Hi), Ht. Qed.

Lemma entry_of_name path r e : entry_of path r = Some e → de_name e = re_name r ∧ re_inode r ≠ 0.
Proof using. unfold entry_of. destruct (Z.eqb_spec (re_inode r) 0); [done|]. destruct (from_dir_entry (re_type r)); [|done]. by intros [= <-]. Qed.

(** The entries of the first block for "." and "..". *)
Lemma dots_ok b0 name : bl !! 0%nat = Some b0 → ∃ e, (name = DOT ∨ name = DOTDOT → read_dot_or_dotdot inode name (fs_block fs disk b0) = Ok (Some e) ∧
  dir_find name (omap (entry_of []) (mjoin rss)) = Some e).
Proof using All.
  intros Hb0. destruct (dir_blocks_lookup _ _ _ _ _ _ _ _ _ _ (do_entries _ _ _ _ _ ok) Hb0) as (rs0 & Hrs0 & Hreal & Hblk & Hok & _).
  destruct (ht_dots _ _ _ _ _ _ ht) as (rdot & rdd & rs & Hrs & Hn1 & Hn2 & Hlen & Hi1 & Hi2). rewrite Hrs0 in Hrs. injection Hrs as ->.
  apply Forall_cons in Hok as [Hok1 Hok]. apply Forall_cons in Hok as [Hok2 Hok]. destruct rss as [|rs' rss']; [done|]. injection Hrs0 as ->.
  destruct (entry_of_some [] rdot Hok1 Hi1) as (t1 & He1). destruct (entry_of_some [] rdd Hok2 Hi2) as (t2 & He2). rewrite Hn1 in He1. rewrite Hn2 in He2.
  change (mjoin (encode_entry <$> rdot :: rdd :: rs)) with (encode_entry rdot ++ encode_entry rdd ++ mjoin (encode_entry <$> rs)) in Hblk.
  change (mjoin ((rdot :: rdd :: rs) :: rss')) with (rdot :: rdd :: rs ++ mjoin rss'). cbn [omap list_omap]. rewrite He1, He2.
  pose proof (length_fs_block good_disk b0 Hreal) as Hl. pose proof (dk_bsize _ _ good_disk) as Hbs. pose proof (length_encode rdot) as Hle. rewrite Hlen in Hle.
  assert (zlen (encode_entry rdot ++ encode_entry rdd ++ mjoin (encode_entry <$> rs)) < 2 ^ 64) as H64 by (rewrite <- Hblk; unfold zlen; lia).
  assert (zlen (encode_entry rdd ++ mjoin (encode_entry <$> rs)) < 2 ^ 64) as H64' by (rewrite zlen_app in H64; unfold zlen in *; lia).
  unfold read_dot_or_dotdot. cbv zeta. rewrite Hblk. destruct (decide (name = DOT)) as [->|Hn].
  - eexists. intros _. rewrite bool_decide_eq_true_2 by done. rewrite slice_all. cbn [rbind]. rewrite from_bytes_encode by done. cbn [rbind].
    rewrite He1. cbn [ok_or rbind de_name dir_find find]. by rewrite !bool_decide_eq_true_2.
  - eexists. intros [Hd|Hd]; [done|]. rewrite (bool_decide_eq_false_2 (name = DOT)), (bool_decide_eq_true_2 (name = DOTDOT)) by done.
    rewrite slice_rest by done. cbn [rbind]. rewrite from_bytes_encode by done. cbn [rbind]. rewrite He2. cbn [ok_or rbind de_name dir_find find].
    rewrite (bool_decide_eq_false_2 (DOT = name)), (bool_decide_eq_true_2 (DOTDOT = name)) by congruence. done.
Qed.

(** The search: the two dots are in the first block, every other name is looked for in one leaf. *)
Definition searched (name : list Z) : list RawEntry :=
  if decide (name = DOT ∨ name = DOTDOT) then mjoin rss else default [] (rss !! Z.to_nat (leaf_of fs leaf name)).

Lemma htree_search : ∃ N, ∀ fuel, (N ≤ fuel)%nat → ∀ name, name_try_from name = Ok name →
  finds (fs := fs) (good := good) (get_dir_entry_inode_by_name fs fuel inode name) (dir_find name (omap (entry_of []) (searched name))).
Proof using All.
  pose proof (do_entries _ _ _ _ _ ok) as Hent. destruct (ht_tree _ _ _ _ _ _ ht) as (b0 & _ & _ & Hb0 & _).
  pose proof (ht_flag _ _ _ _ _ _ ht) as Hflag. destruct (root_block_read good_disk bytes inode bl rss ok Hflag b0 Hb0) as (N1 & Hroot).
  destruct (block_from_file_block_ok good_disk bytes inode bl (do_blocks _ _ _ _ _ ok) (do_count _ _ _ _ _ ok) (ht_ends _ _ _ _ _ _ ht)) as (N2 & Hfrom).
  exists (N1 + N2)%nat. intros fuel Hfu name Hname. assert (name ≠ []) as Hne by (by intros ->). specialize (Hroot fuel ltac:(lia)). specialize (Hfrom fuel ltac:(lia)).
  assert (∀ e : option DirEntry, yields good (get_dir_entry_via_htree fs fuel inode name) (match e with Some e => Ok e | None => Err NotFound end) →
    finds (fs := fs) (good := good) (get_dir_entry_inode_by_name fs fuel inode name) e) as Hfin.
  { intros e Hy. unfold finds, get_dir_entry_inode_by_name. rewrite (do_dir _ _ _ _ _ ok), (do_open _ _ _ _ _ ok), Hflag. destruct e as [e|].
    - intros r Hr. eapply yields_bind; [apply yields_lift|]. eapply yields_bind; [exact Hy|exact Hr].
    - eapply yields_bind; [apply yields_lift|]. by apply yields_bind_err. }
  apply Hfin. unfold get_dir_entry_via_htree, searched. rewrite Hflag. destruct (dots_ok b0 name Hb0) as (edot & Hdots). destruct (decide (name = DOT ∨ name = DOTDOT)) as [Hd|Hd].
  { destruct (Hdots Hd) as [Hread Hfind]. rewrite Hfind. eapply yields_bind; [apply yields_lift|]. cbv beta.
    eapply yields_bind; [exact Hroot|]. cbv beta. eapply yields_bind; [rewrite Hread; apply yields_lift|]. apply yields_ok. }
  destruct (find_leaf_ok fuel name b0 Hne Hfrom Hb0) as (l & b & Hleaf & Hl0 & Hbl & Hy).
  destruct (dir_blocks_lookup _ _ _ _ _ _ _ _ _ _ Hent Hbl) as (rs & Hrs & Hreal & Hblk & Hok & _). rewrite <- Hleaf, Hrs. cbn [default].
  eapply yields_bind; [apply yields_lift|]. cbv beta. eapply yields_bind; [exact Hroot|]. cbv beta.
  eapply yields_bind; [unfold read_dot_or_dotdot; cbv zeta; rewrite !bool_decide_eq_false_2 by tauto; apply yields_lift|]. cbv beta iota. eapply yields_bind; [exact Hy|]. cbv beta.
  pose proof (length_fs_block good_disk b Hreal) as Hlen. pose proof (dk_bsize _ _ good_disk) as Hbs. rewrite Hblk in *.
  rewrite (search_leaf_ok inode name rs [] _ Hok); [apply yields_lift|cbn [app]; unfold zlen; lia|]. pose proof (length_encoded rs). lia.
Qed.

(** A leaf exists for every name. *)
Lemma leaf_entries name : name ≠ [] → ∃ rs, rss !! Z.to_nat (leaf_of fs leaf name) = Some rs ∧ 0 ≤ leaf_of fs leaf name.
Proof using All.
  intros Hne. destruct (ht_tree _ _ _ _ _ _ ht) as (b0 & _ & _ & Hb0 & _).
  destruct (block_from_file_block_ok good_disk bytes inode bl (do_blocks _ _ _ _ _ ok) (do_count _ _ _ _ _ ok) (ht_ends _ _ _ _ _ _ ht)) as (N & Hfrom).
  destruct (find_leaf_ok N name b0 Hne (Hfrom N ltac:(lia)) Hb0) as (l & b & -> & Hl0 & Hbl & _).
  destruct (dir_blocks_lookup _ _ _ _ _ _ _ _ _ _ (do_entries _ _ _ _ _ ok) Hbl) as (rs & Hrs & _). exists rs. split; [done|lia].
Qed.
End via_htree.

(** When the entries are where their hashes lead, the search in one leaf is the search in all blocks. *)
Lemma htree_lookup `{Crc} {S} `{BlockReaderLaws S fs disk good} inode bl rss leaf : disk_ok fs disk → bytes_ok disk → dir_ok fs disk inode bl rss → htree_ok fs disk inode bl rss leaf →
  ∃ N, ∀ fuel, (N ≤ fuel)%nat → ∀ name, name_try_from name = Ok name → lookup_spec rss (get_dir_entry_inode_by_name fs fuel inode name) name (fs := fs) (good := good).
Proof.
  intros Hd Hb Hok [Hat Hplaced]. destruct (htree_search Hd Hb inode bl rss Hok leaf Hat) as (N & HN). exists N. intros fuel Hfu name Hname.
  unfold lookup_spec. specialize (HN fuel Hfu name Hname). unfold searched in HN. destruct (decide (name = DOT ∨ name = DOTDOT)) as [|Hdot]; [done|].
  destruct (leaf_entries Hd Hb inode bl rss Hok leaf Hat name ltac:(by intros ->)) as (rs & Hrs & Hl0). rewrite Hrs in HN. cbn [default] in HN.
  unfold dir_find in *. rewrite (find_mjoin _ _ _ _ _ Hrs); [done|]. intros j rs' Hj Hrs'. apply find_None_iff. intros e He. apply bool_decide_eq_false_2. intros Hen.
  apply list_elem_of_omap in He as (r & Hr & He). apply entry_of_name in He as [Hname' Hi]. pose proof (Hplaced j rs' r Hrs' Hr Hi) as Hpl.
  rewrite <- Hname', Hen in Hpl. specialize (Hpl ltac:(tauto) ltac:(tauto)). apply Hj. lia.
Qed.

Lemma any_lookup `{Crc} {S} `{BlockReaderLaws S fs disk good} inode bl rss : disk_ok fs disk → bytes_ok disk →
  dir_ok fs disk inode bl rss → (contains (flags inode) DIRECTORY_HTREE = true → ∃ leaf, htree_ok fs disk inode bl rss leaf) →
  ∃ N, ∀ fuel, (N ≤ fuel)%nat → ∀ name, name_try_from name = Ok name → lookup_spec rss (get_dir_entry_inode_by_name fs fuel inode name) name (fs := fs) (good := good).
Proof.
  intros Hd Hb Hok Ht. destruct (contains (flags inode) DIRECTORY_HTREE) eqn:Hf.
  - destruct (Ht eq_refl) as (leaf & Hleaf). by eapply htree_lookup.
  - destruct (linear_lookup Hd Hb inode bl rss Hok Hf) as (N & HN). exists N. intros fuel Hfu name _. by apply HN.
Qed.

(** Hash trees of another kind are refused, except for the two dots. *)
Lemma other_hash_refused `{Crc} {S} `{BlockReaderLaws S fs disk good} inode bl rss b0 t : disk_ok fs disk → bytes_ok disk → dir_ok fs disk inode bl rss →
  contains (flags inode) DIRECTORY_HTREE = true → bl !! 0%nat = Some b0 → fs_block fs disk b0 !! 0x1c%nat = Some t → t ≠ 1 →
  ∃ N, ∀ fuel, (N ≤ fuel)%nat → ∀ name, name ≠ DOT → name ≠ DOTDOT → yields good (get_dir_entry_inode_by_name fs fuel inode name) (Err (Incompatible (DirectoryHash t))).
Proof.
  intros Hd Hb Hok Hflag Hb0 Ht Hne. destruct (root_block_read Hd Hb inode bl rss Hok Hflag b0 Hb0) as (N & Hroot). exists N. intros fuel Hf name Hn1 Hn2.
  unfold get_dir_entry_inode_by_name. rewrite (do_dir _ _ _ _ _ Hok), (do_open _ _ _ _ _ Hok), Hflag. eapply yields_bind; [apply yields_lift|]. apply yields_bind_err.
  unfold get_dir_entry_via_htree. rewrite Hflag. eapply yields_bind; [apply yields_lift|]. cbv beta. eapply yields_bind; [by apply Hroot|]. cbv beta.
  eapply yields_bind; [unfold read_dot_or_dotdot; cbv zeta; rewrite !bool_decide_eq_false_2 by done; apply yields_lift|]. cbv beta iota. apply yields_bind_err.
  unfold find_leaf_node. rewrite Ht. eapply yields_bind; [apply yields_lift|]. cbv beta. rewrite (proj2 (Z.eqb_neq _ _) Hne). cbn [negb]. intros s Hs. by exists s.
Qed.

(** C11: looking up a name. In a directory kept as a list, of any number of blocks, the search gives the inode of the first
    entry with the name in the order of the blocks, and [NotFound] when there is none. In one with a hash tree, of any
    depth, it gives the first entry with the name in one block: the first one for the two dots, else the leaf to which
    the sorted tables lead for the half-MD4 hash of the name; other leaves, also those into which entries with the same
    hash overflowed, are not looked at. When every entry is in the leaf that its hash leads to, this is the search
    through all blocks. Trees over another hash than half MD4 are refused. *)
Theorem dir_lookup_exact `{Crc} {S} `{BlockReaderLaws S fs disk good} inode bl rss : disk_ok fs disk → bytes_ok disk →
  dir_ok fs disk inode bl rss →
  (contains (flags inode) DIRECTORY_HTREE = false →
   ∃ N, ∀ fuel, (N ≤ fuel)%nat → ∀ name, name_try_from name = Ok name → lookup_spec rss (get_dir_entry_inode_by_name fs fuel inode name) name (fs := fs) (good := good)) ∧
  (∀ leaf, htree_at fs disk inode bl rss leaf →
   ∃ N, ∀ fuel, (N ≤ fuel)%nat → ∀ name, name_try_from name = Ok name →
     finds (fs := fs) (good := good) (get_dir_entry_inode_by_name fs fuel inode name) (dir_find name (omap (entry_of []) (searched (fs := fs) rss leaf name)))) ∧
  (∀ leaf, htree_ok fs disk inode bl rss leaf →
   ∃ N, ∀ fuel, (N ≤ fuel)%nat → ∀ name, name_try_from name = Ok name → lookup_spec rss (get_dir_entry_inode_by_name fs fuel inode name) name (fs := fs) (good := good)) ∧
  (∀ b0 t, contains (flags inode) DIRECTORY_HTREE = true → bl !! 0%nat = Some b0 → fs_block fs disk b0 !! 0x1c%nat = Some t → t ≠ 1 →
   ∃ N, ∀ fuel, (N ≤ fuel)%nat → ∀ name, name ≠ DOT → name ≠ DOTDOT →
     yields good (get_dir_entry_inode_by_name fs fuel inode name) (Err (Incompatible (DirectoryHash t)))).
Proof.
  intros Hd Hb Hok. split; [|split; [|split]].
  - intros Hf. destruct (linear_lookup Hd Hb inode bl rss Hok Hf) as (N & HN). exists N. intros fuel Hfu name _. by apply HN.
  - intros leaf Ht. by apply (htree_search Hd Hb inode bl).
  - intros leaf Ht. by apply (htree_lookup inode bl rss leaf).
  - intros b0 t Hf Hb0 Ht Hne. by apply (other_hash_refused inode bl rss b0).
Qed.

(** Listing a directory gives all entries of all its blocks that are in use, in order, with the path they were asked
    with, whether the directory has a hash tree or not. *)
Theorem read_dir_exact `{Crc} {S} `{BlockReaderLaws S fs disk good} inode bl rss path : disk_ok fs disk → bytes_ok disk → dir_ok fs disk inode bl rss →
  ∃ N, ∀ fuel, (N ≤ fuel)%nat → ∃ r, read_dir_new fs inode path = Ok r ∧ generates good (read_dir_next fs fuel) r (omap (entry_of path) (mjoin rss)).
Proof. intros Hd Hb Hok. by apply (read_dir_generate Hd Hb inode bl). Qed.

(** ** A directory with a hash tree of two leaves *)
Module dir_demo.
Definition dot : RawEntry := mkRaw 2 DOT 2 (zeros 3).
(** The node of the tree is in the bytes after "..": the hash version at 0x1c, the depth at 0x1e, the entries at 0x20. *)
Definition dotdot : RawEntry := mkRaw 2 DOTDOT 2 (zeros 2 ++ zeros 4 ++ [1; 8; 0; 0] ++ le_bytes 2 124 ++ le_bytes 2 2 ++ le_bytes 4 1 ++ le_bytes 4 0xd0000000 ++ le_bytes 4 2 ++ zeros 976).
Definition leaf1 : list RawEntry := [mkRaw 13 [98] 1 (zeros 3); mkRaw 0 [] 0 (zeros 1004)].
Definition leaf2 : list RawEntry := [mkRaw 0 [] 0 (zeros 4); mkRaw 12 [97; 98; 99] 1 (zeros 1); mkRaw 14 [97] 2 (zeros 991)].
Definition rss : list (list RawEntry) := [[dot; dotdot]; leaf1; leaf2].
Definition disk : list Z := zeros 3072 ++ mjoin ((λ rs, mjoin (encode_entry <$> rs)) <$> rss) ++ zeros 2048.
Definition fs : Ext4 := mkExt4 (demo_sb 1024 8) [] ∅.
Definition root : list Z := le_bytes 2 0xf30a ++ le_bytes 2 1 ++ le_bytes 2 4 ++ le_bytes 2 0 ++ zeros 4 ++ le_bytes 4 0 ++ le_bytes 2 3 ++ le_bytes 2 0 ++ le_bytes 4 3 ++ zeros 36.
Definition inode (fl : Z) : Inode := mkInode 2 root (mkMeta 3072 0x4000 Directory 0 0) fl (Z.ones 32 : @Digest crc32c) 3.
Definition leaf (h : Z) : Z := if h <? 0xd0000000 then 1 else 2.

Lemma dir_disk_ok : disk_ok fs disk.
Proof. split; [vm_compute; done..|]. apply map_Forall_empty. Defined.

Lemma dir_bytes_ok : bytes_ok disk.
Proof. apply bytes_ok_forallb. vm_compute. reflexivity. Defined.

Lemma raw_ok_demo : Forall (Forall raw_ok) rss.
Proof. repeat constructor; cbn; try lia; try done; vm_compute; intuition congruence. Defined.

Lemma extents_demo fl xs : has_extents fs disk (inode fl) xs → xs = [mkExtent 0 3 3].
Proof.
  intros (nd & d & [_ _ _ [Hd _] _ Hnd] & Ht). vm_compute in Hd. subst d. vm_compute in Hnd. subst nd.
  inversion Ht as [|e es xs' Hrest|]; subst; [|done]. inversion Hrest; subst. vm_compute. reflexivity.
Defined.

Lemma has_extents_demo fl : has_extents fs disk (inode fl) [mkExtent 0 3 3].
Proof.
  exists (take 24 root), 0. split; [split; try done; [apply bytes_ok_forallb; by vm_compute|by vm_compute..]|].
  apply (subtree_leaf _ _ _ (field 12 12 root)), subtree_nil.
Defined.

Lemma dir_ok_demo fl : fl = Z.lor EXTENTS DIRECTORY_HTREE ∨ fl = EXTENTS → dir_ok fs disk (inode fl) [3; 4; 5] rss.
Proof.
  intros Hfl. split; [done|by destruct Hfl as [-> | ->]| |cbn; lia|].
  - apply (blocks_by_extents fs disk (inode fl) [mkExtent 0 3 3]); [by destruct Hfl as [-> | ->]|apply has_extents_demo|vm_compute; intuition congruence].
  - pose proof raw_ok_demo as Hr. apply Forall_cons in Hr as [H0 Hr]. apply Forall_cons in Hr as [H1 Hr]. apply Forall_cons in Hr as [H2 _].
    repeat (eapply db_cons; [vm_compute; intuition congruence|vm_compute; reflexivity|done|done|]). constructor.
Defined.

Definition nodes : list Z := le_bytes 2 124 ++ le_bytes 2 2 ++ le_bytes 4 1 ++ le_bytes 4 0xd0000000 ++ le_bytes 4 2.

Lemma table_demo : table nodes = [(0, 1); (0xd0000000, 2)].
Proof. vm_compute. reflexivity. Defined.

Lemma sorted_demo : sorted (table nodes).
Proof.
  rewrite table_demo. intros i j x y Hij Hx Hy.
  destruct i as [|[|i]]; [| |done]; (destruct j as [|[|j]]; [| |done]); cbn in Hx, Hy; injection Hx as <-; injection Hy as <-; cbn; lia.
Defined.

Lemma picks_demo h : 0 ≤ h → picks (table nodes) h (leaf h).
Proof.
  intros Hh. rewrite table_demo. unfold leaf. destruct (Z.ltb_spec h 0xd0000000).
  - exists 0%nat, 0. split; [done|]. split; [done|]. intros [|[|j]] y Hj Hy; [lia| |done]. injection Hy as <-. done.
  - exists 1%nat, 0xd0000000. split; [done|]. split; [done|]. intros [|[|j]] y Hj Hy; [lia..|done].
Defined.

Lemma htree_ok_demo : htree_ok fs disk (inode (Z.lor EXTENTS DIRECTORY_HTREE)) [3; 4; 5] rss leaf.
Proof.
  split; [split; [done|by repeat constructor|..]|].
  - intros xs Hx. rewrite (extents_demo _ xs Hx). repeat constructor.
  - by exists dot, dotdot, [].
  - exists 3, nodes, 0%nat. split; [done|]. split; [vm_compute; reflexivity|]. split; [vm_compute; reflexivity|]. split; [by split; vm_compute|].
    split; [apply sorted_demo|]. intros h Hh. exists (leaf h). split; [by apply picks_demo|].
    apply leads_leaf; unfold leaf; destruct (h <? 0xd0000000); [lia..|by eexists|by eexists].
  - intros k rs r Hk Hr Hi Hd Hdd. destruct k as [|[|[|k]]]; [..|done]; injection Hk as <-; repeat (apply elem_of_cons in Hr as [->|Hr]); try done; try (by apply not_elem_of_nil in Hr); vm_compute; reflexivity.
Defined.
End dir_demo.

Lemma dir_lookup_exact_witness : ∃ N, ∀ fuel, (N ≤ fuel)%nat →
  let lookup name := get_dir_entry_inode_by_name (S := @FsState vec_reader) dir_demo.fs fuel (dir_demo.inode (Z.lor EXTENTS DIRECTORY_HTREE)) name in
  let good := @cache_ok vec_reader vec_reader_laws dir_demo.fs dir_demo.disk in
  (∀ r, yields good (inode_read dir_demo.fs 12) r → yields good (lookup [97; 98; 99]) r) ∧ yields good (lookup [97; 98]) (Err NotFound).
Proof.
  destruct (dir_lookup_exact (S := @FsState vec_reader) (H1 := cached_reader_laws (H0 := vec_reader_laws) dir_demo.fs dir_demo.disk dir_demo.dir_disk_ok)
    (dir_demo.inode (Z.lor EXTENTS DIRECTORY_HTREE)) [3; 4; 5] dir_demo.rss dir_demo.dir_disk_ok dir_demo.dir_bytes_ok (dir_demo.dir_ok_demo _ (or_introl eq_refl)))
    as (_ & _ & Htree & _). destruct (Htree _ dir_demo.htree_ok_demo) as (N & HN).
  exists N. intros fuel Hf lookup good. split; [exact (HN fuel Hf [97; 98; 99] eq_refl)|exact (HN fuel Hf [97; 98] eq_refl)].
Defined.

Lemma read_dir_exact_witness : ∃ N, ∀ fuel, (N ≤ fuel)%nat → ∃ r, read_dir_new dir_demo.fs (dir_demo.inode EXTENTS) [47] = Ok r ∧
  generates (@cache_ok vec_reader vec_reader_laws dir_demo.fs dir_demo.disk) (read_dir_next dir_demo.fs fuel) r
    [mkDirEntry 2 DOT [47] Directory; mkDirEntry 2 DOTDOT [47] Directory; mkDirEntry 13 [98] [47] Regular; mkDirEntry 12 [97; 98; 99] [47] Regular; mkDirEntry 14 [97] [47] Directory].
Proof.
  exact (read_dir_exact (S := @FsState vec_reader) (H1 := cached_reader_laws (H0 := vec_reader_laws) dir_demo.fs dir_demo.disk dir_demo.dir_disk_ok)
    (dir_demo.inode EXTENTS) [3; 4; 5] dir_demo.rss [47] dir_demo.dir_disk_ok dir_demo.dir_bytes_ok (dir_demo.dir_ok_demo _ (or_intror eq_refl))).
Defined.

(** The number of entries in the root of a hash tree is not checked before the checksum is computed over them: a
    count that runs past the block makes the read of the directory panic. *)
Theorem htree_count_panics `{Crc} fs ino base block : has_metadata_checksums fs = true → 1024 ≤ zlen block < 2 ^ 64 → bytes_ok block →
  zlen block < 0x20 + 8 * le_dec (field 0x22 2 block) → check_dir_block fs ino true true base block = Panic.
Proof.
  intros Hc Hl Hb Hn. unfold check_dir_block. rewrite Hc. cbn [negb]. unfold get_block_type. cbn [negb rbind].
  unfold read_expected_checksum, read_u32le. rewrite checked_ok by lia. cbn [unwrap rbind]. rewrite read_le_ok by lia. cbn [rbind].
  rewrite bool_decide_eq_false_2 by done. unfold calc_internal_checksum. cbv zeta. rewrite checked_ok by lia. cbn [unwrap rbind]. rewrite bool_decide_eq_true_2 by done.
  rewrite checked_ok by lia. cbn [unwrap rbind]. unfold read_u16le. rewrite read_le_ok by lia. cbn [rbind].
  change (field (Z.to_nat (0x20 + 2)) (Z.to_nat 2) block) with (field 0x22 2 block). pose proof (le_dec_field_bound 0x22 2 block Hb) as Hcnt.
  rewrite checked_ok by lia. cbn [unwrap rbind]. rewrite checked_ok by lia. cbn [unwrap rbind]. unfold slice. rewrite bool_decide_eq_false_2 by lia. done.
Qed.

Lemma htree_count_panics_witness :
  check_dir_block (mkExt4 (mkSb 1024 8 256 16 32 1 0 METADATA_CHECKSUMS 0 [0; 0; 0; 0] None [] []) [] ∅) 2 true true (Z.ones 32 : @Digest crc32c) (replicate 1024 1) = Panic.
Proof.
  apply htree_count_panics; [reflexivity|unfold zlen; cbn; lia|apply bytes_ok_forallb; vm_compute; reflexivity|vm_compute; reflexivity].
Defined.
