(* ===== verification/Ext4Resolve.v ===== *)
(** Path resolution of [ext4-view-rs] ([resolve.rs], [Inode::symlink_target] of [inode.rs]).

    Positions in a path are natural numbers: a path has at most 4096 bytes here, so that no sum of two of them leaves the
    range of [usize]. The inode operations that resolution uses are a record; [fs_ops] has those of the filesystem. *)
From S2P Require Import Prelude Ext4Base Ext4Cache Ext4Inode Ext4Extents Ext4BlockMap Ext4File Ext4Path Ext4Dir.

Inductive FollowSymlinks := All | ExcludeFinalComponent.
#[export] Instance follow_eq_dec : EqDecision FollowSymlinks.
Proof. solve_decision. Defined.

Definition MAX_SYMLINKS : Z := 40.
Definition MAX_PATH_LEN : Z := 4096.
Definition MAX_ITERATIONS : Z := 1000.

(** ** Positions in a path *)
Definition find_next_sep (path : list Z) (start : nat) : XR (option nat) :=
  let? _ := assert (start <? length path)%nat in
  Ok (i ← find_index is_sep (drop start path); Some (start + i)%nat).

(** The last separator at or before [start]. *)
Fixpoint last_sep_before (path : list Z) (n : nat) : option nat :=
  match n with
  | O => None
  | S n => match path !! n with Some c => if is_sep c then Some n else last_sep_before path n | None => last_sep_before path n end
  end.
Definition find_prev_sep (path : list Z) (start : nat) : XR (option nat) :=
  let? _ := assert (start <? length path)%nat in Ok (last_sep_before path (S start)).

Definition find_parent_component_start (path : list Z) (start : nat) : XR nat :=
  let? _ := assert (negb (start =? 0)%nat && (start <? length path)%nat) in
  let? c := unwrap (path !! (start - 1)%nat) in
  let? _ := assert (is_sep c) in
  if (start =? 1)%nat then Ok start
  else
    let? prev_sep := find_prev_sep path (start - 2) in
    let? prev_sep := unwrap prev_sep in
    Ok (prev_sep + 1)%nat.

(** [path_dedup_sep], [n] a bound on the steps of its loop. *)
Fixpoint dedup_loop (path : list Z) (i n : nat) : XR (list Z) :=
  if (length path <=? i)%nat then Ok path else
  match n with
  | O => Hang
  | S n =>
      let? prev := unwrap (path !! (i - 1)%nat) in
      let? cur := unwrap (path !! i) in
      if is_sep prev && is_sep cur then dedup_loop (take i path ++ drop (S i) path) i n
      else dedup_loop path (S i) n
  end.
Definition path_dedup_sep (path : list Z) : XR (list Z) := dedup_loop path 1 (length path).

(** [Vec::drain] of a range, and [Vec::splice] into one. *)
Definition drain (a b : nat) (path : list Z) : XR (list Z) := if (a <=? b)%nat && (b <=? length path)%nat then Ok (take a path ++ drop b path) else Panic.
Definition splice (a b : nat) (t path : list Z) : XR (list Z) := if (a <=? b)%nat && (b <=? length path)%nat then Ok (take a path ++ t ++ drop b path) else Panic.

(** ** [resolve_path] *)
Section resolve.
Context `{Crc} {S : Type}.

Record PathOps := mkOps { op_root : M S Ext4Error Inode; op_lookup : Inode → list Z → M S Ext4Error Inode; op_target : Inode → M S Ext4Error (list Z) }.

Record Resolving := mkRes { r_path : list Z; r_index : nat; r_inode : Inode; num_symlinks : Z; num_iterations : Z }.

Context (ops : PathOps) (follow : FollowSymlinks).

(** One round of the loop. *)
Definition resolve_step (st : Resolving) : M S Ext4Error Resolving :=
  let path := r_path st in
  let index := r_index st in
  let iterations := num_iterations st + 1 in
  let! _ := mlift (assert (iterations <=? MAX_ITERATIONS)) in
  let! next_sep := mlift (find_next_sep path index) in
  let comp_end := default (length path) next_sep in
  let! last_index := mlift (if (length path =? 0)%nat then Panic else Ok (length path - 1)%nat) in
  let is_last_component := bool_decide (next_sep = None) || (comp_end =? last_index)%nat in
  let comp_end_with_sep := Nat.min (comp_end + 1) (length path) in
  let comp := field index (comp_end - index) path in
  if negb (is_dir (metadata (r_inode st))) then merr NotADirectory else
  let! name := mlift (match name_try_from comp with Ok name => Ok name | _ => Panic end) in
  let! child_inode := op_lookup ops (r_inode st) name in
  if bool_decide (comp = DOT) then
    let! path := mlift (drain index comp_end_with_sep path) in
    mok (mkRes path index (r_inode st) (num_symlinks st) iterations)
  else if bool_decide (comp = DOTDOT) then
    let! remove_start := mlift (find_parent_component_start path index) in
    let! path := mlift (drain remove_start comp_end_with_sep path) in
    mok (mkRes path remove_start child_inode (num_symlinks st) iterations)
  else if is_symlink (metadata child_inode) && (bool_decide (follow = All) || negb is_last_component) then
    let symlinks := num_symlinks st + 1 in
    if MAX_SYMLINKS <? symlinks then merr TooManySymlinks else
    let! target := op_target ops child_inode in
    let! (inode, index, replace_start) :=
      if is_absolute target then let! root := op_root ops in mok (root, 1%nat, 0%nat) else mok (r_inode st, index, index) in
    let! path := mlift (splice replace_start comp_end target path) in
    if MAX_PATH_LEN <? zlen path then merr PathTooLong else
    let! path := mlift (path_dedup_sep path) in
    mok (mkRes path index inode symlinks iterations)
  else
    mok (mkRes path comp_end_with_sep child_inode (num_symlinks st) iterations).

(** The loop; [n] bounds the number of rounds. *)
Fixpoint resolve_loop (st : Resolving) (n : nat) : M S Ext4Error Resolving :=
  if (r_index st <? length (r_path st))%nat then
    match n with O => mlift Hang | Datatypes.S n => let! st := resolve_step st in resolve_loop st n end
  else mok st.

Definition resolve_path (path : list Z) : M S Ext4Error (Inode * list Z) :=
  if negb (is_absolute path) then merr NotAbsolute else
  if MAX_PATH_LEN <? zlen path then merr PathTooLong else
  let! path := mlift (path_dedup_sep path) in
  let! inode := op_root ops in
  let! st := resolve_loop (mkRes path 1 inode 0 0) (Z.to_nat (MAX_ITERATIONS + 1)) in
  let path := r_path st in
  let! path :=
    if (1 <? length path)%nat && (match last path with Some c => is_sep c | None => false end) then
      if is_dir (metadata (r_inode st)) then mok (take (length path - 1) path) else merr NotADirectory
    else mok path in
  match path_try_from path with Ok path => mok (r_inode st, path) | _ => mlift Panic end.
End resolve.
Arguments PathOps {H} S.

(** ** [symlink_target], and the operations of a filesystem *)
Section ops.
Context `{Crc} {S : Type} `{BlockReader S}.

Definition MAX_INLINE_SYMLINK_LEN : Z := 59.

Definition symlink_target (fs : Ext4) (fuel : nat) (inode : Inode) : M S Ext4Error (list Z) :=
  let size := size_in_bytes (metadata inode) in
  let err := Corrupt (SymlinkTarget (index inode)) in
  let path_of target := match path_try_from target with Ok p => Ok p | _ => Err err end in
  if negb (is_symlink (metadata inode)) then merr NotASymlink else
  if size =? 0 then merr err else
  if size <=? MAX_INLINE_SYMLINK_LEN then
    let! target := mlift (slice 0 size (inline_data inode)) in mlift (path_of target)
  else
    let! data := read_inode_file fs fuel inode in mlift (path_of data).

Definition fs_ops (fs : Ext4) (fuel : nat) : PathOps S :=
  mkOps (read_root_inode fs) (get_dir_entry_inode_by_name fs fuel) (symlink_target fs fuel).
End ops.

(** Values of the unit tests of [resolve.rs]. *)
Example find_next_sep_test : find_next_sep [47] 0 = Ok (Some 0%nat) ∧ find_next_sep [47; 97; 98; 99; 47] 1 = Ok (Some 4%nat) ∧ find_next_sep [47; 97; 98; 99] 1 = Ok None.
Proof. done. Qed.
Example dedup_test : path_dedup_sep [47; 47; 97; 47; 47; 47; 98; 47; 47] = Ok [47; 97; 47; 98; 47].
Proof. done. Qed.

(** ** Separators without repetition *)
(** What is left of [s] behind the byte [p]. *)
Fixpoint dedup_after (p : Z) (s : list Z) : list Z :=
  match s with [] => [] | c :: s => if is_sep p && is_sep c then dedup_after p s else c :: dedup_after c s end.
Definition dedup (s : list Z) : list Z := match s with [] => [] | c :: s => c :: dedup_after c s end.

Lemma dedup_loop_eq y : ∀ x c n, (length y ≤ n)%nat → dedup_loop ((x ++ [c]) ++ y) (length x + 1) n = Ok (x ++ c :: dedup_after c y).
Proof.
  induction y as [|d y IH]; intros x c n Hn.
  - rewrite app_nil_r. assert ((length (x ++ [c]) <=? length x + 1)%nat = true) as Hlen by (apply Nat.leb_le; rewrite length_app; cbn; lia). destruct n; cbn [dedup_loop]; by rewrite Hlen.
  - destruct n as [|n]; [cbn in Hn; lia|]. cbn [dedup_loop]. rewrite (proj2 (Nat.leb_gt _ _)) by (rewrite !length_app; cbn [length]; lia).
    replace (length x + 1 - 1)%nat with (length x) by lia.
    assert (((x ++ [c]) ++ d :: y) !! length x = Some c) as -> by (rewrite <- app_assoc; apply list_lookup_middle; done).
    assert (((x ++ [c]) ++ d :: y) !! (length x + 1)%nat = Some d) as -> by (apply list_lookup_middle; rewrite length_app; cbn; lia).
    cbn [unwrap rbind dedup_after]. destruct (is_sep c && is_sep d).
    + replace (take _ _ ++ drop _ _) with ((x ++ [c]) ++ y).
      * apply IH. cbn in Hn. lia.
      * rewrite take_app_length' by (rewrite length_app; cbn; lia). rewrite (cons_middle d (x ++ [c]) y), app_assoc. rewrite drop_app_length' by (rewrite !length_app; cbn; lia). done.
    + specialize (IH (x ++ [c]) d n ltac:(cbn in Hn; lia)). rewrite length_app in IH. cbn [length] in IH. rewrite <- app_assoc in IH. cbn [app] in IH.
      replace (S (length x + 1)) with (length x + 1 + 1)%nat by lia. rewrite <- !app_assoc in *. exact IH.
Qed.

Lemma path_dedup_sep_eq s : path_dedup_sep s = Ok (dedup s).
Proof.
  destruct s as [|c s]; [done|]. unfold path_dedup_sep. change (c :: s) with (([] ++ [c]) ++ s) at 1. change 1%nat with (length (@nil Z) + 1)%nat.
  rewrite dedup_loop_eq by (cbn; lia). done.
Qed.

Lemma valid_names s : valid_path s ↔ Forall (λ b, b ≠ 0) s ∧ Forall (λ w, zlen w ≤ MAX_LEN) (names s).
Proof.
  unfold valid_path, names. split; intros [Hz Hw]; (split; [done|]).
  - rewrite Forall_forall in Hw |- *. intros w Hin. apply Hw. by apply list_elem_of_filter in Hin as [_ ?].
  - rewrite Forall_forall in Hw |- *. intros w Hin. destruct (decide (w = [])) as [->|Hne]; [done|]. apply Hw. by apply list_elem_of_filter.
Qed.

(** A path ends in a separator; so does the empty rest of one, behind the separator before it. *)
Definition ends_sep (s : list Z) : bool := match last s with Some c => is_sep c | None => true end.

(** What is left to visit: names, and whether a separator ends them. *)
Fixpoint spell (slash : bool) (todo : list (list Z)) : list Z :=
  match todo with
  | [] => []
  | w :: todo => w ++ (if bool_decide (todo = []) && negb slash then [] else SEPARATOR :: spell slash todo)
  end.
Definition spell_tail (slash : bool) (todo : list (list Z)) : list Z := if bool_decide (todo = []) && negb slash then [] else SEPARATOR :: spell slash todo.

Lemma ends_sep_middle a b : ends_sep (a ++ SEPARATOR :: b) = ends_sep b.
Proof. unfold ends_sep. rewrite last_app. destruct b as [|c b]; [done|]. rewrite last_cons_cons. destruct (last (c :: b)) eqn:E; [done|]. by apply last_None in E. Qed.

Lemma ends_sep_cons s : ends_sep (SEPARATOR :: s) = ends_sep s.
Proof. exact (ends_sep_middle [] s). Qed.

Lemma ends_sep_word w : w ≠ [] → existsb is_sep w = false → ends_sep w = false.
Proof.
  destruct w as [|c w _] using rev_ind; [done|]. intros _ Hw. rewrite existsb_app in Hw. apply orb_false_iff in Hw as [_ Hc]. cbn in Hc. rewrite orb_false_r in Hc.
  unfold ends_sep. by rewrite last_snoc.
Qed.

Lemma dedup_word w t : existsb is_sep w = false → ∀ p, is_sep p = false ∨ w ≠ [] →
  dedup_after p w = w ∧ dedup_after p (w ++ SEPARATOR :: t) = w ++ SEPARATOR :: dedup_after SEPARATOR t.
Proof.
  induction w as [|c w IH]; intros Hw p Hp.
  - destruct Hp as [Hp|]; [|done]. cbn. by rewrite Hp.
  - cbn in Hw. apply orb_false_iff in Hw as [Hc Hw]. cbn [app dedup_after]. rewrite Hc, andb_false_r. destruct (IH Hw c) as [-> ->]; [by left|]. done.
Qed.

(** Induction on a string word by word: [w] is the part of a word read so far. *)
Lemma word_ind (P : list Z → Prop) : P [] → (∀ s, P s → P (SEPARATOR :: s)) → (∀ w, w ≠ [] → existsb is_sep w = false → P w) →
  (∀ w s, w ≠ [] → existsb is_sep w = false → P s → P (w ++ SEPARATOR :: s)) → ∀ s, P s.
Proof.
  intros H0 Hs Hw Hws s. assert (∀ w, existsb is_sep w = false → P (w ++ s)) as Hall; [|by apply (Hall [])].
  induction s as [|c s IH]; intros w Hsep.
  - rewrite app_nil_r. destruct w; [done|]. by apply Hw.
  - destruct (is_sep c) eqn:E.
    + apply is_sep_eq in E as ->. destruct w; [apply Hs, (IH []); done|]. apply Hws; [done|done|]. by apply (IH []).
    + replace (w ++ c :: s) with ((w ++ [c]) ++ s) by (by rewrite <- app_assoc). apply IH. rewrite existsb_app, Hsep. cbn. by rewrite E.
Qed.

Lemma names_nil b : names b = [] → ends_sep b = true.
Proof.
  induction b as [|s IH|w Hw Hs|w s Hw Hs _] using word_ind; [done|..].
  - rewrite names_sep. intros Hn. rewrite ends_sep_cons. by apply IH.
  - by rewrite names_word.
  - by rewrite names_middle, names_word.
Qed.

(** A string behind a separator, without the separators that are repeated. *)
Lemma dedup_spell s : dedup_after SEPARATOR s = spell (ends_sep s) (names s).
Proof.
  induction s as [|s IH|w Hw Hs|w s Hw Hs IH] using word_ind; [done|..].
  - rewrite names_sep, ends_sep_cons. exact IH.
  - rewrite names_word, ends_sep_word by done. cbn [spell]. cbn. rewrite app_nil_r. by destruct (dedup_word w [] Hs SEPARATOR) as [-> _]; [right|].
  - rewrite names_middle, names_word, ends_sep_middle by done. cbn [app spell]. destruct (dedup_word w s Hs SEPARATOR) as [_ ->]; [by right|]. rewrite IH.
    destruct (decide (names s = [])) as [E|E]; [by rewrite (names_nil _ E), andb_false_r|]. by rewrite bool_decide_eq_false_2.
Qed.

(** ** Canonical paths *)
Definition good_name (n : list Z) : Prop := n ≠ [] ∧ existsb is_sep n = false ∧ n ≠ DOT ∧ n ≠ DOTDOT.
Definition path_of (ns : list (list Z)) : list Z := match ns with [] => [SEPARATOR] | _ => mjoin ((λ n, SEPARATOR :: n) <$> ns) end.

(** No repeated separators, none at the end, no "." and no "..". *)
Definition canonical (p : list Z) : Prop := ∃ ns, Forall good_name ns ∧ p = path_of ns.

(** The resolved part of a path while it is resolved: a separator after each name. *)
Definition pre (ns : list (list Z)) : list Z := SEPARATOR :: mjoin ((λ n, n ++ [SEPARATOR]) <$> ns).

Lemma pre_snoc ns n : pre (ns ++ [n]) = pre ns ++ n ++ [SEPARATOR].
Proof. unfold pre. rewrite fmap_app, join_app. cbn. by rewrite app_nil_r. Qed.

Lemma pre_path_of ns n : pre ns ++ n = path_of (ns ++ [n]).
Proof.
  unfold pre, path_of. destruct (ns ++ [n]) eqn:E; [by destruct ns|]. rewrite <- E. clear E. induction ns as [|m ns IH]; [cbn; by rewrite app_nil_r|].
  change (mjoin ((λ n, SEPARATOR :: n) <$> (m :: ns) ++ [n])) with ((SEPARATOR :: m) ++ mjoin ((λ n, SEPARATOR :: n) <$> ns ++ [n])). rewrite <- IH.
  change (mjoin ((λ n, n ++ [SEPARATOR]) <$> m :: ns)) with ((m ++ [SEPARATOR]) ++ mjoin ((λ n, n ++ [SEPARATOR]) <$> ns)). cbn [app]. by rewrite <- !app_assoc.
Qed.

Lemma pre_last ns : ∃ a, pre ns = a ++ [SEPARATOR].
Proof. induction ns as [|n ns _] using rev_ind; [by exists []|]. exists (pre ns ++ n). by rewrite pre_snoc, app_assoc. Qed.

Lemma names_pre ns rest : Forall good_name ns → names (pre ns ++ rest) = ns ++ names rest.
Proof.
  intros Hns. induction ns as [|n ns IH] using rev_ind in rest, Hns |- *; [done|]. apply Forall_app in Hns as [Hns Hn]. apply Forall_singleton in Hn as (Hn1 & Hn2 & _).
  rewrite pre_snoc, <- app_assoc, IH by done. rewrite <- (app_assoc n). cbn [app]. rewrite names_middle, names_word by done. by rewrite <- app_assoc.
Qed.

Lemma last_sep_before_eq a w rest : existsb is_sep w = false → last_sep_before (a ++ SEPARATOR :: w ++ rest) (length a + 1 + length w) = Some (length a).
Proof.
  revert rest. induction w as [|c w IH] using rev_ind; intros rest Hw.
  - replace (length a + 1 + length [])%nat with (S (length a)) by (cbn; lia). cbn [last_sep_before]. rewrite list_lookup_middle by done. done.
  - rewrite existsb_app in Hw. apply orb_false_iff in Hw as [Hw Hc]. cbn in Hc. rewrite orb_false_r in Hc.
    replace (length a + 1 + length (w ++ [c]))%nat with (S (length a + 1 + length w)) by (rewrite length_app; cbn; lia). cbn [last_sep_before].
    replace ((a ++ SEPARATOR :: (w ++ [c]) ++ rest) !! (length a + 1 + length w)%nat) with (Some c).
    + rewrite Hc, <- app_assoc. by apply IH.
    + symmetry. rewrite <- app_assoc. cbn [app]. change (SEPARATOR :: w ++ c :: rest) with ((SEPARATOR :: w) ++ c :: rest). rewrite app_assoc. apply list_lookup_middle.
      rewrite length_app. cbn. lia.
Qed.

Lemma parent_start ns n rest : good_name n → rest ≠ [] → find_parent_component_start (pre (ns ++ [n]) ++ rest) (length (pre (ns ++ [n]))) = Ok (length (pre ns)).
Proof.
  intros (Hn & Hsep & _) Hr. destruct (pre_last ns) as (a & Ha). rewrite pre_snoc, Ha. unfold find_parent_component_start.
  assert (length rest ≠ 0%nat) as Hr' by (by destruct rest). assert (length n ≠ 0%nat) as Hn' by (by destruct n).
  assert (length ((a ++ [SEPARATOR]) ++ n ++ [SEPARATOR]) = (length a + 1 + length n + 1)%nat) as El by (rewrite !length_app; cbn; lia). rewrite El.
  rewrite (proj2 (Nat.eqb_neq _ _)), (proj2 (Nat.ltb_lt _ _)) by (rewrite ?length_app, ?El; cbn; lia). cbn [negb andb assert rbind].
  assert ((((a ++ [SEPARATOR]) ++ n ++ [SEPARATOR]) ++ rest) !! (length a + 1 + length n + 1 - 1)%nat = Some SEPARATOR) as ->.
  { rewrite !(app_assoc (a ++ [SEPARATOR])), <- (app_assoc _ [SEPARATOR]). cbn [app]. apply list_lookup_middle. rewrite !length_app. cbn. lia. }
  cbn [unwrap rbind assert is_sep SEPARATOR Z.eqb Pos.eqb]. rewrite (proj2 (Nat.eqb_neq _ _)) by lia. unfold find_prev_sep.
  rewrite (proj2 (Nat.ltb_lt _ _)) by (rewrite !length_app; cbn; lia). cbn [assert rbind].
  replace (S (length a + 1 + length n + 1 - 2)) with (length a + 1 + length n)%nat by lia.
  replace (((a ++ [SEPARATOR]) ++ n ++ [SEPARATOR]) ++ rest) with (a ++ SEPARATOR :: n ++ SEPARATOR :: rest) by (rewrite <- !app_assoc; done).
  rewrite last_sep_before_eq by done. cbn [unwrap rbind]. f_equal. rewrite length_app. cbn. lia.
Qed.

(** ** Words *)
Definition word (w : list Z) : Prop := w ≠ [] ∧ existsb is_sep w = false ∧ zlen w ≤ MAX_LEN ∧ Forall (λ b, b ≠ 0) w.

Lemma name_ok w : w ≠ [] → existsb is_sep w = false → zlen w ≤ MAX_LEN → Forall (λ b, b ≠ 0) w → name_try_from w = Ok w.
Proof.
  intros Hne Hs Hl Hz. unfold name_try_from. rewrite bool_decide_eq_false_2, (proj2 (Z.ltb_ge _ _)) by done. rewrite (proj2 (existsb_false _ _)), Hs; [done|].
  eapply Forall_impl; [exact Hz|]. cbn. lia.
Qed.

Lemma word_name w : word w → name_try_from w = Ok w.
Proof. intros (? & ? & ? & ?). by apply name_ok. Qed.

Lemma valid_word w : word w → valid_path w.
Proof. intros (Hne & Hs & Hl & Hz). apply valid_names. split; [done|]. rewrite names_word by done. by constructor. Qed.

Lemma names_words s : valid_path s → Forall word (names s).
Proof.
  intros Hv. apply valid_names in Hv as [Hz Hl]. induction s as [|s IH|w Hw Hs|w s Hw Hs IH] using word_ind; [done|..].
  - rewrite names_sep in *. apply Forall_cons in Hz as [_ Hz]. by apply IH.
  - rewrite names_word in * by done. apply Forall_cons in Hl as [Hl _]. by repeat constructor.
  - rewrite names_middle, names_word in * by done. apply Forall_app in Hz as [Hz1 Hz2]. apply Forall_cons in Hz2 as [_ Hz2]. apply Forall_app in Hl as [Hl1 Hl2].
    apply Forall_cons in Hl1 as [Hl1 _]. apply Forall_app. split; [by repeat constructor|by apply IH].
Qed.

Lemma names_spell slash todo : Forall word todo → names (spell slash todo) = todo.
Proof.
  induction 1 as [|w todo Hw Ht IH]; [done|]. cbn [spell]. destruct Hw as (Hne & Hs & _). destruct (bool_decide (todo = []) && negb slash) eqn:E.
  - apply andb_true_iff in E as [E _]. apply bool_decide_eq_true in E as ->. rewrite app_nil_r. by apply names_word.
  - by rewrite names_middle, names_word, IH.
Qed.

Lemma ends_sep_spell slash todo : Forall word todo → ends_sep (spell slash todo) = bool_decide (todo = []) || slash.
Proof.
  induction 1 as [|w todo Hw Ht IH]; [done|]. cbn [spell]. rewrite (bool_decide_eq_false_2 (w :: todo = [])) by done. destruct (bool_decide (todo = []) && negb slash) eqn:E.
  - apply andb_true_iff in E as [_ E]. apply negb_true_iff in E as ->. rewrite app_nil_r. destruct Hw as (? & ? & _). by apply ends_sep_word.
  - rewrite ends_sep_middle, IH. destruct (bool_decide (todo = [])); [|done]. cbn in E. by apply negb_false_iff in E as ->.
Qed.

Lemma dedup_pre ns y : Forall good_name ns → dedup (pre ns ++ y) = pre ns ++ dedup_after SEPARATOR y.
Proof.
  intros Hns. unfold pre. cbn [app dedup]. f_equal. induction Hns as [|n ns (Hn & Hs & _) _ IH]; [done|].
  change (mjoin ((λ n, n ++ [SEPARATOR]) <$> n :: ns)) with ((n ++ [SEPARATOR]) ++ mjoin ((λ n, n ++ [SEPARATOR]) <$> ns)). rewrite <- !app_assoc. cbn [app].
  destruct (dedup_word n (mjoin ((λ n, n ++ [SEPARATOR]) <$> ns) ++ y) Hs SEPARATOR) as [_ ->]; [by right|]. by rewrite IH.
Qed.

Lemma valid_path_of ns : Forall word ns → valid_path (path_of ns).
Proof.
  intros Hns. destruct ns as [|n ns _] using rev_ind; [by apply path_try_from_ok|]. rewrite <- pre_path_of. apply Forall_app in Hns as [Hns Hn]. apply Forall_cons in Hn as [Hn _].
  revert n Hn. induction ns as [|m ns IH] using rev_ind; intros n Hn.
  - apply (valid_middle [] n). split; [by apply path_try_from_ok|by apply valid_word].
  - apply Forall_app in Hns as [Hns Hm]. apply Forall_cons in Hm as [Hm _]. rewrite pre_snoc, <- !app_assoc. cbn [app]. rewrite app_assoc. apply valid_middle.
    split; [by apply IH|by apply valid_word].
Qed.

Lemma find_index_word w : existsb is_sep w = false → find_index is_sep w = None.
Proof. induction w as [|c w IH]; [done|]. cbn. intros Hw. apply orb_false_iff in Hw as [-> Hw]. by rewrite IH. Qed.

Lemma find_index_sep w t : existsb is_sep w = false → find_index is_sep (w ++ SEPARATOR :: t) = Some (length w).
Proof. induction w as [|c w IH]; [done|]. cbn. intros Hw. apply orb_false_iff in Hw as [-> Hw]. by rewrite IH. Qed.

(** ** Resolution as a walk along names

    The specification of [resolve_path]: the names of the directories above, the names to visit, and whether a separator
    ends the path. No text is edited. *)
Section walk.
Context `{Crc} {S : Type} (ops : PathOps S) (follow : FollowSymlinks).

Record Walk := mkWalk { w_done : list (list Z); w_todo : list (list Z); w_slash : bool; w_inode : Inode; w_symlinks : Z; w_rounds : Z }.

(** Visit the name [w]; [todo] comes after it. *)
Definition walk_step (st : Walk) (w : list Z) (todo : list (list Z)) : M S Ext4Error Walk :=
  let n := w_rounds st + 1 in
  let is_last := bool_decide (todo = []) in
  let! _ := mlift (assert (n <=? MAX_ITERATIONS)) in
  if negb (is_dir (metadata (w_inode st))) then merr NotADirectory else
  let! child := op_lookup ops (w_inode st) w in
  if bool_decide (w = DOT) then mok (mkWalk (w_done st) todo (is_last || w_slash st) (w_inode st) (w_symlinks st) n)
  else if bool_decide (w = DOTDOT) then mok (mkWalk (removelast (w_done st)) todo (is_last || w_slash st) child (w_symlinks st) n)
  else if is_symlink (metadata child) && (bool_decide (follow = All) || negb is_last) then
    if MAX_SYMLINKS <? w_symlinks st + 1 then merr TooManySymlinks else
    let! target := op_target ops child in
    let! (inode, above, kept) :=
      if is_absolute target then let! root := op_root ops in mok (root, [], 0) else mok (w_inode st, w_done st, zlen (pre (w_done st))) in
    if MAX_PATH_LEN <? kept + zlen target + zlen (spell_tail (w_slash st) todo) then merr PathTooLong else
    mok (mkWalk above (names target ++ todo) (if is_last && negb (w_slash st) then ends_sep target else w_slash st) inode (w_symlinks st + 1) n)
  else mok (mkWalk (w_done st ++ [w]) todo (w_slash st) child (w_symlinks st) n).

Fixpoint walk_loop (st : Walk) (n : nat) : M S Ext4Error Walk :=
  match w_todo st with
  | [] => mok st
  | w :: todo => match n with O => mlift Hang | Datatypes.S n => let! st := walk_step st w todo in walk_loop st n end
  end.

Definition walk_path (path : list Z) : M S Ext4Error (Inode * list Z) :=
  if negb (is_absolute path) then merr NotAbsolute else
  if MAX_PATH_LEN <? zlen path then merr PathTooLong else
  let! root := op_root ops in
  let! st := walk_loop (mkWalk [] (names path) (ends_sep path) root 0 0) (Z.to_nat (MAX_ITERATIONS + 1)) in
  if w_slash st && bool_decide (w_done st ≠ []) && negb (is_dir (metadata (w_inode st))) then merr NotADirectory
  else mok (w_inode st, path_of (w_done st)).

(** ** The text of a walk *)
Definition at_end (st : Walk) : bool := bool_decide (w_todo st = []) && negb (w_slash st).
Definition text (st : Walk) : list Z := if at_end st then path_of (w_done st) else pre (w_done st) ++ spell (w_slash st) (w_todo st).
Definition text_index (st : Walk) : nat := if at_end st then length (text st) else length (pre (w_done st)).
Definition spelled (st : Walk) : Resolving := mkRes (text st) (text_index st) (w_inode st) (w_symlinks st) (w_rounds st).

Record walk_ok (st : Walk) : Prop := {
  wk_done : Forall (λ w, word w ∧ good_name w) (w_done st);
  wk_todo : Forall word (w_todo st);
  wk_end : at_end st = true → w_done st ≠ [];
}.

Lemma done_good st : walk_ok st → Forall good_name (w_done st) ∧ Forall word (w_done st).
Proof using. intros [Hd _ _]. split; (eapply Forall_impl; [exact Hd|]); by intros w []. Qed.

(** The positions of a round that visits [w]. *)
Lemma positions d w todo slash (path := pre d ++ w ++ spell_tail slash todo) (L := length (pre d)) : word w → Forall word todo → ∃ next_sep,
  find_next_sep path L = Ok next_sep ∧ length path ≠ 0%nat ∧ default (length path) next_sep = (L + length w)%nat ∧
  bool_decide (next_sep = None) || (L + length w =? length path - 1)%nat = bool_decide (todo = []) ∧
  field L (L + length w - L) path = w ∧ drop (L + length w) path = spell_tail slash todo ∧
  drop (Nat.min (L + length w + 1) (length path)) path = spell slash todo ∧ (L ≤ L + length w ≤ Nat.min (L + length w + 1) (length path))%nat.
Proof using.
  intros (Hw & Hs & _) Ht. assert (length w ≠ 0%nat) as Hw' by (by destruct w).
  assert (length path = L + length w + length (spell_tail slash todo))%nat as Hlen by (subst path; rewrite !length_app; lia).
  assert (drop (L + length w) path = spell_tail slash todo) as Hdrop by (subst path; rewrite app_assoc; apply drop_app_length'; rewrite length_app; lia).
  assert (find_next_sep path L = Ok (i ← find_index is_sep (w ++ spell_tail slash todo); Some (L + i)%nat)) as Hf.
  { unfold find_next_sep. rewrite (proj2 (Nat.ltb_lt _ _)) by lia. cbn [assert rbind]. subst path L. by rewrite drop_app_length. }
  assert (field L (L + length w - L) path = w) as Hfield by (replace (L + length w - L)%nat with (length w) by lia; subst path L; unfold field; by rewrite drop_app_length, take_app_length).
  clearbody path L. unfold spell_tail in *. destruct (bool_decide (todo = []) && negb slash) eqn:E.
  - apply andb_true_iff in E as [E _]. apply bool_decide_eq_true in E as ->. exists None. rewrite app_nil_r, (find_index_word w) in Hf by done. cbn [length] in Hlen.
    split_and!; [done|lia|cbn; lia|done|done|done| |lia|lia]. rewrite Nat.min_r by lia. rewrite drop_ge by lia. done.
  - exists (Some (L + length w)%nat). rewrite find_index_sep in Hf by done. cbn [length] in Hlen. split_and!; [done|lia|done| |done|done| |lia|lia].
    + rewrite bool_decide_eq_false_2 by done. cbn [orb]. destruct todo as [|v todo].
      * rewrite bool_decide_eq_true_2 by done. cbn in Hlen. apply Nat.eqb_eq. lia.
      * rewrite bool_decide_eq_false_2 by done. apply Nat.eqb_neq. apply Forall_cons in Ht as [(Hv & _) _]. cbn [spell] in Hlen. rewrite length_app in Hlen. destruct v; [done|]. cbn [length] in Hlen. lia.
    + rewrite Nat.min_l by lia. rewrite <- drop_drop, Hdrop. done.
Qed.

Lemma text_todo st w todo : w_todo st = w :: todo → text st = pre (w_done st) ++ w ++ spell_tail (w_slash st) todo ∧ text_index st = length (pre (w_done st)).
Proof using. intros E. unfold text, text_index, at_end. rewrite E. by rewrite bool_decide_eq_false_2. Qed.

(** The name is gone. *)
Lemma spelled_drop d todo slash i a n : spelled (mkWalk d todo (bool_decide (todo = []) || slash) i a n) = mkRes (pre d ++ spell slash todo) (length (pre d)) i a n.
Proof using.
  unfold spelled, text_index, text, at_end. cbn [w_done w_todo w_slash w_inode w_symlinks w_rounds]. destruct todo as [|v todo]; [done|]. by rewrite bool_decide_eq_false_2.
Qed.

(** The name is done. *)
Lemma spelled_next d w todo slash i a n (path := pre d ++ w ++ spell_tail slash todo) :
  spelled (mkWalk (d ++ [w]) todo slash i a n) = mkRes path (Nat.min (length (pre d) + length w + 1) (length path)) i a n.
Proof using.
  unfold spelled, text_index, text, at_end, spell_tail in *. cbn [w_done w_todo w_slash w_inode w_symlinks w_rounds]. destruct (bool_decide (todo = []) && negb slash) eqn:E.
  - subst path. rewrite app_nil_r, <- pre_path_of. f_equal. rewrite length_app. lia.
  - subst path. rewrite pre_snoc, <- !app_assoc. f_equal. rewrite !length_app. cbn. lia.
Qed.

(** The name is replaced by the target of a link. *)
Lemma spelled_link d target todo slash i a n : Forall good_name d → Forall word todo →
  spelled (mkWalk d (names target ++ todo) (if bool_decide (todo = []) && negb slash then ends_sep target else slash) i a n) =
  mkRes (dedup (pre d ++ target ++ spell_tail slash todo)) (length (pre d)) i a n.
Proof using.
  intros Hd Ht. set (y := target ++ spell_tail slash todo). assert (names target ++ todo = names y ∧ (if bool_decide (todo = []) && negb slash then ends_sep target else slash) = ends_sep y) as [-> ->].
  { subst y. unfold spell_tail. destruct (bool_decide (todo = []) && negb slash) eqn:E.
    - apply andb_true_iff in E as [E _]. apply bool_decide_eq_true in E as ->. by rewrite !app_nil_r.
    - rewrite names_middle, names_spell, ends_sep_middle, ends_sep_spell by done. split; [done|]. destruct (bool_decide (todo = [])); [|done]. cbn in E. by apply negb_false_iff in E. }
  rewrite dedup_pre, dedup_spell by done. unfold spelled, text_index, text, at_end. cbn [w_done w_todo w_slash w_inode w_symlinks w_rounds].
  destruct (decide (names y = [])) as [E|E]; [by rewrite (names_nil _ E), andb_false_r|]. by rewrite bool_decide_eq_false_2.
Qed.

Lemma dedup_absolute target y : is_absolute target = true → dedup (target ++ y) = dedup (pre [] ++ target ++ y).
Proof using. destruct target as [|c target]; [done|]. cbn. intros Hc. rewrite Hc. by apply is_sep_eq in Hc as ->. Qed.

(** Where the parent of the current directory starts: the root is its own parent. *)
Lemma parent_cases d rest : Forall good_name d → rest ≠ [] → find_parent_component_start (pre d ++ rest) (length (pre d)) = Ok (length (pre (removelast d))).
Proof using.
  intros Hd Hne. destruct d as [|n d _] using rev_ind; [cbn; by destruct rest|].
  apply Forall_app in Hd as [_ Hn]. apply Forall_cons in Hn as [Hn _]. rewrite removelast_last. by apply parent_start.
Qed.

Lemma take_parent d rest : take (length (pre (removelast d))) (pre d ++ rest) = pre (removelast d) ∧ (length (pre (removelast d)) ≤ length (pre d))%nat.
Proof using.
  destruct d as [|n d _] using rev_ind; [done|]. rewrite removelast_last, pre_snoc, <- app_assoc, take_app_length, length_app. split; [done|lia].
Qed.

(** A round of [resolve_path] is a step of the walk. *)
Lemma step_spelled st w todo s : walk_ok st → w_todo st = w :: todo →
  resolve_step ops follow (spelled st) s = (let! st' := walk_step st w todo in mok (spelled st')) s.
Proof using.
  intros Hok E. destruct (done_good _ Hok) as [Hd _]. destruct Hok as [_ Ht _]. rewrite E in Ht. apply Forall_cons in Ht as [Hw Ht].
  destruct (text_todo st w todo E) as [Etext Epos]. destruct (positions (w_done st) w todo (w_slash st) Hw Ht) as (next_sep & P1 & P2 & P3 & P4 & P5 & P6 & P7 & P8).
  destruct st as [d todo' slash i a n]. unfold spelled at 1. rewrite Etext, Epos. clear Etext Epos. cbn [w_done w_todo w_slash w_inode w_symlinks w_rounds] in *. subst todo'.
  unfold resolve_step, walk_step. cbv zeta. cbn [r_path r_index r_inode num_symlinks num_iterations w_done w_todo w_slash w_inode w_symlinks w_rounds].
  set (path := pre d ++ w ++ spell_tail slash todo) in *. set (L := length (pre d)) in *. unfold mbindM, mlift, mok, merr.
  destruct (n + 1 <=? MAX_ITERATIONS); cbn [assert]; [|done]. rewrite P1. cbv beta iota. rewrite (proj2 (Nat.eqb_neq _ _) P2). cbv beta iota. rewrite P3, P4, P5.
 
  destruct (is_dir (metadata i)); [|done]. cbn [negb]. rewrite (word_name w Hw). cbv beta iota. destruct (op_lookup ops i w s) as [[child|e| |] s1]; [|done..].
  assert (∀ b, (b ≤ L)%nat → drain b (Nat.min (L + length w + 1) (length path)) path = Ok (take b path ++ spell slash todo)) as Hdrain.
  { intros b Hb. unfold drain. rewrite (proj2 (Nat.leb_le _ _)), (proj2 (Nat.leb_le _ _)) by lia. cbn [andb]. by rewrite P7. }
  assert (take L path = pre d) as Htake by apply take_app_length.
  destruct (bool_decide (w = DOT)); [rewrite Hdrain, Htake by done; cbv beta iota; by rewrite spelled_drop|].
  assert (find_parent_component_start path L = Ok (length (pre (removelast d)))) as Hparent by (apply parent_cases; [done|]; by destruct Hw as [? _], w).
  destruct (take_parent d (w ++ spell_tail slash todo)) as [T1 T2]. fold path L in T1, T2.
  destruct (bool_decide (w = DOTDOT)); [rewrite Hparent, Hdrain, T1 by done; cbv beta iota; by rewrite spelled_drop|].
  destruct (is_symlink (metadata child) && _); [|cbv beta iota; by rewrite spelled_next]. destruct (MAX_SYMLINKS <? a + 1); [done|].
  destruct (op_target ops child s1) as [[target|e| |] s2]; [|done..]. 
  destruct (is_absolute target) eqn:Ha.
  - destruct (op_root ops s2) as [[root|e| |] s3]; [|done..]. unfold splice. rewrite (proj2 (Nat.leb_le _ (length path))) by lia. cbn [Nat.leb andb take app]. rewrite P6.
    cbv beta iota. rewrite take_0. cbn [app]. rewrite zlen_app, Z.add_0_l. destruct (MAX_PATH_LEN <? _); [done|]. rewrite path_dedup_sep_eq, (dedup_absolute target) by done. cbv beta iota. by rewrite spelled_link.
  - unfold splice. rewrite (proj2 (Nat.leb_le _ _)), (proj2 (Nat.leb_le _ _)) by lia. cbn [andb]. rewrite P6, Htake.
    cbv beta iota. rewrite !zlen_app, Z.add_assoc. destruct (MAX_PATH_LEN <? _); [done|]. rewrite path_dedup_sep_eq. cbv beta iota. by rewrite spelled_link.
Qed.

Context (targets : ∀ i s t s', op_target ops i s = (Ok t, s') → valid_path t).

Lemma removelast_Forall {A} (P : A → Prop) l : Forall P l → Forall P (removelast l).
Proof using. destruct l as [|x l _] using rev_ind; [done|]. rewrite removelast_last. by intros [? _]%Forall_app. Qed.

Lemma link_ok d target todo slash i a n : Forall (λ w, word w ∧ good_name w) d → valid_path target → Forall word todo →
  walk_ok (mkWalk d (names target ++ todo) (if bool_decide (todo = []) && negb slash then ends_sep target else slash) i a n).
Proof using.
  intros Hd Htv Ht. split; [done|apply Forall_app; split; [by apply names_words|done]|]. unfold at_end. cbn [w_todo w_slash w_done]. intros [E1 E2]%andb_true_iff.
  apply bool_decide_eq_true in E1. apply app_nil in E1 as [E1 ->]. rewrite (names_nil _ E1) in E2. by destruct slash.
Qed.

Lemma step_ok st w todo s st' s' : walk_ok st → w_todo st = w :: todo → walk_step st w todo s = (Ok st', s') → walk_ok st'.
Proof using targets.
  intros [Hd Ht _] E. rewrite E in Ht. apply Forall_cons in Ht as [Hw Ht]. destruct st as [d todo' slash i a n]. cbn [w_done w_todo] in *. subst todo'. unfold walk_step. cbv zeta.
  cbn [w_done w_todo w_slash w_inode w_symlinks w_rounds]. unfold mbindM, mlift, mok, merr. destruct (n + 1 <=? MAX_ITERATIONS); cbn [assert]; [|done].
  destruct (is_dir (metadata i)); [|done]. cbn [negb]. destruct (op_lookup ops i w s) as [[child|e| |] s1]; [|done..].
  assert (∀ d' i', Forall (λ w, word w ∧ good_name w) d' → walk_ok (mkWalk d' todo (bool_decide (todo = []) || slash) i' a (n + 1))) as Hdrop.
  { intros d' i' Hd'. split; [done..|]. unfold at_end. cbn. by destruct (bool_decide (todo = [])). }
  destruct (decide (w = DOT)) as [Hw1|Hw1]; [rewrite bool_decide_eq_true_2 by done; intros [= <- <-]; by apply Hdrop|]. rewrite bool_decide_eq_false_2 by done.
  destruct (decide (w = DOTDOT)) as [Hw2|Hw2]; [rewrite bool_decide_eq_true_2 by done; intros [= <- <-]; by apply Hdrop, removelast_Forall|]. rewrite bool_decide_eq_false_2 by done.
  destruct (is_symlink (metadata child) && _).
  - destruct (MAX_SYMLINKS <? a + 1); [done|]. destruct (op_target ops child s1) as [[target|e| |] s2] eqn:Et; [|done..]. apply targets in Et. destruct (is_absolute target).
    + destruct (op_root ops s2) as [[root|e| |] s3]; [|done..]. cbv beta iota. destruct (MAX_PATH_LEN <? _); [done|]. intros [= <- <-]. by apply link_ok.
    + cbv beta iota. destruct (MAX_PATH_LEN <? _); [done|]. intros [= <- <-]. by apply link_ok.
  - intros [= <- <-]. split; [|done|intros _; by destruct d]. apply Forall_app. split; [done|]. constructor; [|done]. split; [done|]. by destruct Hw as (? & ? & _).
Qed.

Lemma unfinished_todo st : walk_ok st → (text_index st <? length (text st))%nat = negb (bool_decide (w_todo st = [])).
Proof using.
  intros [_ Ht _]. unfold text_index, text, at_end. destruct (w_todo st) as [|w todo].
  - rewrite bool_decide_eq_true_2 by done. cbn [andb negb spell]. destruct (negb (w_slash st)); apply Nat.ltb_irrefl || (rewrite app_nil_r; apply Nat.ltb_irrefl).
  - rewrite bool_decide_eq_false_2 by done. cbn [andb negb spell]. apply Nat.ltb_lt. rewrite !length_app. apply Forall_cons in Ht as [[Hw _] _]. destruct w; [done|]. cbn [length]. lia.
Qed.

Lemma loop_spelled n : ∀ st s, walk_ok st → resolve_loop ops follow (spelled st) n s = (let! st' := walk_loop st n in mok (spelled st')) s ∧
  ∀ st' s', walk_loop st n s = (Ok st', s') → walk_ok st' ∧ w_todo st' = [].
Proof using targets.
  induction n as [|n IH]; intros st s Hok; cbn [resolve_loop walk_loop]; change (r_index (spelled st)) with (text_index st); change (r_path (spelled st)) with (text st);
    rewrite unfinished_todo by done; (destruct (w_todo st) as [|w todo] eqn:E; [rewrite bool_decide_eq_true_2 by done; split; [done|]; by intros st' s' [= <- _]|]); rewrite bool_decide_eq_false_2 by done; cbn [negb].
  - split; [done|]. by intros st' s'.
  - unfold mbindM. rewrite step_spelled with (w := w) (todo := todo) by done. unfold mbindM. destruct (walk_step st w todo s) as [[st1|e| |] s1] eqn:Es; [|split; [done|by intros]..]. unfold mok at 1.
    apply IH. by eapply step_ok.
Qed.

(** The text at the end of the walk. *)
Lemma text_end st (trim := w_slash st && bool_decide (w_done st ≠ [])) : walk_ok st → w_todo st = [] →
  (1 <? length (text st))%nat && (match last (text st) with Some c => is_sep c | None => false end) = trim ∧
  (if trim then take (length (text st) - 1) (text st) else text st) = path_of (w_done st).
Proof using.
  intros Hok Ht. destruct (done_good _ Hok) as [Hd _]. destruct Hok as [_ _ Hend]. subst trim. unfold text, at_end in *. rewrite Ht, bool_decide_eq_true_2 in * by done. cbn [andb] in *.
  destruct (w_slash st); cbn [negb andb spell] in *.
  - rewrite app_nil_r. destruct (w_done st) as [|n d _] using rev_ind; [done|]. rewrite pre_snoc, app_assoc, last_snoc. rewrite (bool_decide_eq_true_2 (d ++ [n] ≠ [])) by (by destruct d).
    rewrite length_app, (proj2 (Nat.ltb_lt _ _)) by (unfold pre; cbn; lia). split; [done|]. cbn [length]. rewrite Nat.add_sub, take_app_length. apply pre_path_of.
  - destruct (w_done st) as [|n d _] using rev_ind; [by destruct (Hend eq_refl)|]. split; [|done]. rewrite <- pre_path_of. apply Forall_app in Hd as [_ Hn]. apply Forall_cons in Hn as [(Hn & Hs & _) _].
    pose proof (ends_sep_word n Hn Hs) as Hl. unfold ends_sep in Hl. rewrite last_app. destruct (last n) as [c|] eqn:E; [by rewrite Hl, andb_false_r|]. by apply last_None in E.
Qed.

Lemma start_ok path root : valid_path path → is_absolute path = true →
  walk_ok (mkWalk [] (names path) (ends_sep path) root 0 0) ∧ mkRes (dedup path) 1 root 0 0 = spelled (mkWalk [] (names path) (ends_sep path) root 0 0).
Proof using.
  intros Hv Ha. rewrite <- (app_nil_r (names path)). split; [by apply (link_ok [] path [] false)|]. rewrite (spelled_link [] path [] false) by done.
  f_equal. rewrite <- (app_nil_r path) at 1. by apply dedup_absolute.
Qed.

(** Resolution is the walk. *)
Lemma resolve_walk path s : valid_path path → resolve_path ops follow path s = walk_path path s.
Proof using targets.
  intros Hv. unfold resolve_path, walk_path. destruct (is_absolute path) eqn:Ha; [|done]. cbn [negb]. destruct (MAX_PATH_LEN <? zlen path); [done|].
  rewrite path_dedup_sep_eq. unfold mbindM, mlift. destruct (op_root ops s) as [[root|e| |] s1]; [|done..].
  destruct (start_ok path root Hv Ha) as [Hok ->].
  destruct (loop_spelled (Z.to_nat (MAX_ITERATIONS + 1)) _ s1 Hok) as [-> Hfin]. unfold mbindM. destruct (walk_loop _ _ s1) as [[st|e| |] s2]; [|done..]. unfold mok at 1.
  destruct (Hfin st s2 eq_refl) as [Hok' Ht]. clear Hfin Hok. change (r_path (spelled st)) with (text st). change (r_inode (spelled st)) with (w_inode st). cbv zeta.
  destruct (text_end st Hok' Ht) as [-> Htext]. pose proof (proj2 (path_try_from_ok _) (valid_path_of _ (proj2 (done_good _ Hok')))) as Hp.
  destruct (w_slash st && bool_decide (w_done st ≠ [])); [destruct (is_dir (metadata (w_inode st))); cbn [negb andb]; [|done]|]; unfold mok; by rewrite Htext, Hp.
Qed.
End walk.

(** ** Outcomes that are neither a panic nor an endless loop *)
Definition safe {S E A} (good : S → Prop) (Q : A → Prop) (m : M S E A) : Prop :=
  ∀ s, good s → good (m s).2 ∧ match (m s).1 with Ok a => Q a | Err _ => True | _ => False end.

Section safe.
Context {S E : Type} (good : S → Prop).

Lemma safe_bind {A B} P (Q : B → Prop) (m : M S E A) (k : A → M S E B) : safe good P m → (∀ a, P a → safe good Q (k a)) → safe good Q (mbindM m k).
Proof.
  intros Hm Hk s Hs. destruct (Hm s Hs) as [Hs' Hr]. unfold mbindM. destruct (m s) as [[a|e| |] s']; cbn in *; [by apply Hk|done..].
Qed.

Lemma safe_ok {A} (Q : A → Prop) a : Q a → safe good Q (mok a : M S E A).
Proof. by intros Hq s Hs. Qed.

Lemma safe_err {A} (Q : A → Prop) e : safe good Q (merr e : M S E A).
Proof. by intros s Hs. Qed.

Lemma safe_lift {A} (Q : A → Prop) a : Q a → safe good Q (mlift (Ok a) : M S E A).
Proof. by intros Hq s Hs. Qed.
End safe.

(** ** Walks on operations that end *)
Section outcome.
Context `{Crc} {S : Type} (good : S → Prop) (known : Inode → Prop) (ops : PathOps S) (follow : FollowSymlinks).

(** What resolution relies on: the operations end, on inodes that are known. *)
Record ops_ok : Prop := {
  oo_root : safe good known (op_root ops);
  oo_lookup : ∀ i n, known i → is_dir (metadata i) = true → name_try_from n = Ok n → safe good known (op_lookup ops i n);
  oo_target : ∀ i, known i → is_symlink (metadata i) = true → safe good (λ _, True) (op_target ops i);
  oo_valid : ∀ i s t s', op_target ops i s = (Ok t, s') → valid_path t;
}.

(** A step below the limit ends. *)
Lemma walk_step_safe st w todo : ops_ok → known (w_inode st) → word w → w_rounds st < MAX_ITERATIONS →
  safe good (λ st', known (w_inode st') ∧ w_rounds st' = w_rounds st + 1) (walk_step ops follow st w todo).
Proof using.
  intros Hops Hkn Hw Hit. unfold walk_step. cbv zeta. rewrite (proj2 (Z.leb_le _ _)) by lia. eapply safe_bind; [by apply (safe_lift _ (λ _, True))|]. intros _ _.
  destruct (is_dir (metadata (w_inode st))) eqn:Hdir; [|apply safe_err]. cbn [negb]. eapply safe_bind; [apply (oo_lookup Hops); [done|done|by apply word_name]|]. intros child Hchild.
  destruct (bool_decide (w = DOT)); [by apply safe_ok|]. destruct (bool_decide (w = DOTDOT)); [by apply safe_ok|]. destruct (is_symlink (metadata child) && _) eqn:Hl; [|by apply safe_ok].
  destruct (MAX_SYMLINKS <? w_symlinks st + 1); [apply safe_err|]. apply andb_true_iff in Hl as [Hl _]. eapply safe_bind; [by apply (oo_target Hops)|]. intros target _.
  eapply (safe_bind _ (λ p, known p.1.1)).
  - destruct (is_absolute target); [|by apply safe_ok]. eapply safe_bind; [apply (oo_root Hops)|]. intros root Hroot. by apply safe_ok.
  - intros [[i d] k] Hi. destruct (MAX_PATH_LEN <? _); [apply safe_err|by apply safe_ok].
Qed.

(** At most [n] steps, without a limit of their own. *)
Fixpoint rounds (n : nat) (st : Walk) : M S Ext4Error Walk :=
  match n, w_todo st with
  | Datatypes.S n, w :: todo => let! st := walk_step ops follow st w todo in rounds n st
  | _, _ => mok st
  end.

Lemma loop_outcome n : ∀ st s, ops_ok → good s → known (w_inode st) → walk_ok st → w_rounds st + Z.of_nat n = MAX_ITERATIONS → 0 ≤ w_rounds st →
  let '(r, s') := walk_loop ops follow st (Datatypes.S n) s in
  good s' ∧ match r with
            | Ok st' => known (w_inode st') ∧ walk_ok st'
            | Err _ => True
            | Panic => ∃ st' s2, rounds n st s = (Ok st', s2) ∧ w_todo st' ≠ []
            | Hang => False
            end.
Proof using.
  induction n as [|n IH]; intros st s Hops Hs Hkn Hok Hit H0; cbn [walk_loop]; (destruct (w_todo st) as [|w todo] eqn:Et; [done|]).
  - unfold walk_step. cbv zeta. rewrite (proj2 (Z.leb_gt _ _)) by lia. split; [done|]. exists st, s. cbn [rounds]. by rewrite Et.
  - pose proof (wk_todo _ Hok) as Ht. rewrite Et in Ht. apply Forall_cons in Ht as [Hw _].
    destruct (walk_step_safe st w todo Hops Hkn Hw ltac:(lia) s Hs) as [Hs1 Hr]. unfold mbindM at 1. destruct (walk_step ops follow st w todo s) as [[st1|e| |] s1] eqn:E; cbn [fst snd] in *; [|done..].
    destruct Hr as (Hkn1 & Hit1). specialize (IH st1 s1 Hops Hs1 Hkn1 (step_ok ops follow (oo_valid Hops) _ _ _ _ _ _ Hok Et E) ltac:(lia) ltac:(lia)). cbn [walk_loop] in IH.
    match type of IH with (let '(_, _) := ?m in _) => change m with (walk_loop ops follow st1 (Datatypes.S n) s1) in IH end.
    match goal with |- (let '(_, _) := ?m in _) => change m with (walk_loop ops follow st1 (Datatypes.S n) s1) end.
    destruct (walk_loop ops follow st1 (Datatypes.S n) s1) as [r s2]. destruct IH as [Hs2 IH]. split; [done|].
    destruct r as [st'|e| |]; try done. destruct IH as (st' & s3 & Hro & Hun). exists st', s3. split; [|done]. cbn [rounds]. rewrite Et. unfold mbindM. by rewrite E.
Qed.

(** What resolution gives. *)
Definition outcome (path : list Z) (s : S) : Prop :=
  let '(r, s') := resolve_path ops follow path s in
  good s' ∧ match r with
            | Ok (inode, p) => known inode ∧ canonical p
            | Err _ => True
            | Panic => ∃ root s1 st s2, op_root ops s = (Ok root, s1) ∧
                rounds (Z.to_nat MAX_ITERATIONS) (mkWalk [] (names path) (ends_sep path) root 0 0) s1 = (Ok st, s2) ∧ w_todo st ≠ []
            | Hang => False
            end.

Lemma resolve_outcome path s : ops_ok → valid_path path → good s → outcome path s.
Proof using.
  intros Hops Hv Hs. unfold outcome. rewrite resolve_walk by (done || apply (oo_valid Hops)). unfold walk_path. destruct (is_absolute path) eqn:Ha; [|done]. cbn [negb].
  destruct (MAX_PATH_LEN <? zlen path); [done|]. unfold mbindM. destruct (oo_root Hops s Hs) as [Hs1 Hroot].
  destruct (op_root ops s) as [[root|e| |] s1] eqn:Er; cbn [fst snd] in *; [|done..]. pose proof (loop_outcome 1000 (mkWalk [] (names path) (ends_sep path) root 0 0) s1 Hops Hs1 Hroot (proj1 (start_ok path root Hv Ha)) eq_refl ltac:(cbn; lia)) as Hl.
  change (Z.to_nat (MAX_ITERATIONS + 1)) with 1001%nat. change (Z.to_nat MAX_ITERATIONS) with 1000%nat. destruct (walk_loop _ _ _ 1001 s1) as [r s2]. destruct Hl as [Hs2 Hl].
  destruct r as [st|e| |]; try done.
  - destruct Hl as (Hkn & Hok). destruct (w_slash st && _ && _); [done|]. split; [done|]. split; [done|]. exists (w_done st). split; [|done]. apply (done_good _ Hok).
  - split; [done|]. destruct Hl as (st & s3 & Hr & Hun). by exists root, s1, st, s3.
Qed.
End outcome.

(** ** Filesystems in order *)
Section healthy.
Context `{Crc} (fs : Ext4) (disk : list Z).

(** Directories and symbolic links that can be read, whose entries are among the inodes known. *)
Record healthy_inode (known : list Inode) (i : Inode) : Prop := {
  hi_dir : is_dir (metadata i) = true → ∃ bl rss, dir_ok fs disk i bl rss ∧
    (contains (flags i) DIRECTORY_HTREE = true → ∃ leaf, htree_ok fs disk i bl rss leaf) ∧
    Forall (λ e, ∃ j, j ∈ known ∧ inode_at (fs := fs) (disk := disk) (de_inode e) j) (omap (entry_of []) (mjoin rss));
  hi_size : 0 ≤ size_in_bytes (metadata i);
  hi_inline : length (inline_data i) = 60%nat;
  hi_link : is_symlink (metadata i) = true → MAX_INLINE_SYMLINK_LEN < size_in_bytes (metadata i) → ∃ bl, file_ok fs disk i bl;
}.

Record healthy (known : list Inode) : Prop := {
  he_root : ∃ root, root ∈ known ∧ inode_at (fs := fs) (disk := disk) 2 root;
  he_inodes : Forall (healthy_inode known) known;
}.
End healthy.

Lemma common_fuel {A} (P : A → nat → Prop) l : Forall (λ a, ∃ N, ∀ fuel, (N ≤ fuel)%nat → P a fuel) l → ∃ N, ∀ fuel, (N ≤ fuel)%nat → Forall (λ a, P a fuel) l.
Proof.
  induction 1 as [|a l (N1 & H1) _ (N2 & H2)]; [by exists 0%nat|]. exists (N1 + N2)%nat. intros fuel Hf. constructor; [apply H1|apply H2]; lia.
Qed.

Section fs_ops.
Context `{Crc} {S : Type} `{BlockReaderLaws S fs disk good} (good_disk : disk_ok fs disk) (bytes : bytes_ok disk).

Lemma yields_safe {A} (Q : A → Prop) (m : M S Ext4Error A) r : yields good m r → match r with Ok a => Q a | Err _ => True | _ => False end → safe good Q m.
Proof using. intros Hm Hq s Hs. destruct (Hm s Hs) as (s' & E & Hs'). by rewrite E. Qed.

Lemma lookup_safe known i : healthy_inode fs disk known i → is_dir (metadata i) = true →
  ∃ N, ∀ fuel, (N ≤ fuel)%nat → ∀ name, name_try_from name = Ok name → safe good (λ j, j ∈ known) (get_dir_entry_inode_by_name fs fuel i name).
Proof using All.
  intros Hh Hdir. destruct (hi_dir _ _ _ _ Hh Hdir) as (bl & rss & Hok & Hht & Hent). destruct (any_lookup i bl rss good_disk bytes Hok Hht) as (N & HN).
  exists N. intros fuel Hf name Hname. specialize (HN fuel Hf name Hname). unfold lookup_spec in HN. destruct (dir_find name _) as [e|] eqn:Ef.
  - apply find_Some_prop in Ef as [Hin _]. rewrite Forall_forall in Hent. destruct (Hent e Hin) as (j & Hj & Hat). eapply yields_safe; [apply HN, (inode_read_ok _ _ good_disk Hat)|done].
  - eapply yields_safe; [exact HN|done].
Qed.

Lemma target_safe known i : healthy_inode fs disk known i → is_symlink (metadata i) = true →
  ∃ N, ∀ fuel, (N ≤ fuel)%nat → safe good (λ _, True) (symlink_target fs fuel i).
Proof using All.
  intros Hh Hlink. set (size := size_in_bytes (metadata i)). assert (0 ≤ size) as Hsz by apply (hi_size _ _ _ _ Hh). pose proof (hi_inline _ _ _ _ Hh) as Hin.
  assert (∀ t, safe (E := Ext4Error) good (λ _, True) (mlift (match path_try_from t with Ok p => Ok p | _ => Err (Corrupt (SymlinkTarget (index i))) end))) as Hpath.
  { intros t. destruct (path_try_from t) as [p|e| |]; [by apply safe_lift|apply safe_err..]. }
  unfold symlink_target. cbv zeta. fold size. rewrite Hlink. cbn [negb].
  destruct (Z.eqb_spec size 0) as [Hz|Hz]; [exists 0%nat; intros fuel _; apply safe_err|]. destruct (Z.leb_spec size MAX_INLINE_SYMLINK_LEN) as [Hle|Hgt].
  - exists 0%nat. intros fuel _. unfold MAX_INLINE_SYMLINK_LEN in Hle. rewrite slice_ok by (unfold zlen; lia). eapply (safe_bind _ (λ _, True)); [by apply safe_lift|by intros].
  - destruct (hi_link _ _ _ _ Hh Hlink Hgt) as (bl & Hfile). destruct (read_inode_file_yields i bl good_disk bytes Hfile) as (N & HN).
    exists N. intros fuel Hf. eapply (safe_bind _ (λ _, True)); [|by intros]. by eapply yields_safe; [exact (HN fuel Hf)|].
Qed.
End fs_ops.

Lemma symlink_target_valid `{Crc} {S} `{BlockReader S} fs fuel i s t s' : symlink_target fs fuel i s = (Ok t, s') → valid_path t.
Proof.
  unfold symlink_target. cbv zeta. destruct (negb (is_symlink (metadata i))); [done|]. destruct (_ =? 0); [done|].
  assert (∀ d (s1 : S), mlift (match path_try_from d with Ok p => Ok p | _ => Err (Corrupt (SymlinkTarget (index i))) end) s1 = (Ok t, s') → valid_path t) as Hp.
  { intros d s1. unfold mlift. destruct (path_try_from d) as [p|e| |] eqn:E; try done. intros [= <- _]. apply path_try_from_ok.
    assert (p = d) as ->; [|done]. unfold path_try_from in E. destruct (existsb _ d); [done|]. destruct (existsb _ (split_sep d)); [done|]. by injection E as ->. }
  destruct (_ <=? MAX_INLINE_SYMLINK_LEN); unfold mbindM at 1.
  - unfold mlift at 1. destruct (slice 0 _ _) as [d|e| |]; [apply Hp|done..].
  - destruct (read_inode_file fs fuel i s) as [[d|e| |] s1]; [apply Hp|done..].
Qed.

Section fs_resolve.
Context `{Crc} {S : Type} `{BlockReaderLaws S fs disk good} (good_disk : disk_ok fs disk) (bytes : bytes_ok disk).

(** The operations of a filesystem in order are those that resolution relies on. *)
Lemma fs_ops_ok known : healthy fs disk known → ∃ N, ∀ fuel, (N ≤ fuel)%nat → ops_ok good (λ i, i ∈ known) (fs_ops fs fuel).
Proof using All.
  intros [(root & Hroot & Hat) Hin]. destruct (common_fuel (λ i fuel, (is_dir (metadata i) = true → ∀ name, name_try_from name = Ok name →
      safe good (λ j, j ∈ known) (get_dir_entry_inode_by_name fs fuel i name)) ∧
    (is_symlink (metadata i) = true → safe good (λ _, True) (symlink_target fs fuel i))) known) as (N & HN).
  { eapply Forall_impl; [exact Hin|]. intros i Hi.
    destruct (is_dir (metadata i)) eqn:Hd, (is_symlink (metadata i)) eqn:Hl.
    - destruct (lookup_safe good_disk bytes known i Hi Hd) as (N1 & H1'), (target_safe good_disk bytes known i Hi Hl) as (N2 & H2'). exists (N1 + N2)%nat. split; intros; [apply H1'|apply H2']; done || lia.
    - destruct (lookup_safe good_disk bytes known i Hi Hd) as (N1 & H1'). exists N1. split; [intros; by apply H1'|done].
    - destruct (target_safe good_disk bytes known i Hi Hl) as (N2 & H2'). exists N2. split; [done|intros; by apply H2'].
    - by exists 0%nat. }
  exists N. intros fuel Hf. specialize (HN fuel Hf). rewrite Forall_forall in HN. split.
  - eapply yields_safe; [exact (inode_read_ok _ _ good_disk Hat)|exact Hroot].
  - intros i name Hi Hdir Hname. by apply HN.
  - intros i Hi Hl. by apply HN.
  - intros i s t s'. apply symlink_target_valid.
Qed.
End fs_resolve.

(** C4: Resolution edits the text of a path; it computes what the walk along the names of the path computes, result, error
    or panic, with the same reads, on every filesystem. *)
Theorem resolve_path_walks `{Crc} {S} `{BlockReader S} fs fuel follow path (s : S) : valid_path path →
  resolve_path (fs_ops fs fuel) follow path s = walk_path (fs_ops fs fuel) follow path s.
Proof. apply resolve_walk. intros i s1 t s2. apply symlink_target_valid. Qed.

(** C24: On a filesystem in order, resolution of every path ends within its bound, without an index, an assertion or a
    conversion that fails, unless 1000 rounds leave components to visit. A result is an inode of the filesystem with a
    path that starts with a separator, has single separators and neither dots nor an end separator. *)
Theorem resolve_on_healthy `{Crc} {S} `{BlockReaderLaws S fs disk good} known : disk_ok fs disk → bytes_ok disk → healthy fs disk known →
  ∃ N, ∀ fuel, (N ≤ fuel)%nat → ∀ follow path s, valid_path path → good s → outcome good (λ i, i ∈ known) (fs_ops fs fuel) follow path s.
Proof.
  intros Hd Hb Hh. destruct (fs_ops_ok Hd Hb known Hh) as (N & HN). exists N. intros fuel Hf follow path s Hv Hs. by apply resolve_outcome; [apply HN|..].
Qed.

(** ** Paths without links, and paths that are too long *)
Section plain.
Context `{Crc} {S : Type} `{BlockReader S} (good : S → Prop) (fs : Ext4) (fuel : nat) (follow : FollowSymlinks).

(** The inode that the names lead to from [i], lookup by lookup, none of them a symbolic link. *)
Inductive plain_walk : Inode → list (list Z) → Inode → Prop :=
  | plain_nil i : plain_walk i [] i
  | plain_cons i w j ns k : is_dir (metadata i) = true → yields good (get_dir_entry_inode_by_name fs fuel i w) (Ok j) → is_symlink (metadata j) = false →
      plain_walk j ns k → plain_walk i (w :: ns) k.

(** Names that lead to an inode are visited one by one. *)
Lemma walk_prefix i ns k : plain_walk i ns k → ∀ d n f todo r, Forall good_name ns → 0 ≤ n → n + zlen ns ≤ MAX_ITERATIONS →
  yields good (walk_loop (fs_ops fs fuel) follow (mkWalk (d ++ ns) todo false k 0 (n + zlen ns)) f) r →
  yields good (walk_loop (fs_ops fs fuel) follow (mkWalk d (ns ++ todo) false i 0 n) (length ns + f)) r.
Proof using.
  induction 1 as [i|i w j ns k Hdir Hlook Hlink _ IH]; intros d n f todo r Hns Hn Hmax Hr.
  - by rewrite app_nil_r, Z.add_0_r in Hr.
  - apply Forall_cons in Hns as [(Hw & Hs & Hd1 & Hd2) Hns]. unfold zlen in Hmax. cbn [length] in Hmax. cbn [length app Nat.add walk_loop w_todo].
    eapply yields_bind; [|apply (IH (d ++ [w]) (n + 1)); unfold zlen; [done|lia|lia|]].
    + unfold walk_step. cbv zeta. cbn [w_done w_todo w_slash w_inode w_symlinks w_rounds]. rewrite (proj2 (Z.leb_le _ _)) by lia. eapply yields_bind; [apply yields_lift|]. cbv beta.
      rewrite Hdir. cbn [negb]. eapply yields_bind; [exact Hlook|]. cbv beta. rewrite !(bool_decide_eq_false_2 (w = _)) by done. rewrite Hlink. apply yields_ok.
    + rewrite <- app_assoc. replace (n + 1 + Z.of_nat (length ns)) with (n + zlen (w :: ns)) by (unfold zlen; cbn [length]; lia). exact Hr.
Qed.

(** Resolution of a plain path from the root directory. *)
Lemma resolve_path_of root ns r : Forall (λ w, word w ∧ good_name w) ns → ns ≠ [] → zlen (path_of ns) ≤ MAX_PATH_LEN → yields good (read_root_inode fs) (Ok root) →
  yields good (let! st := walk_loop (fs_ops fs fuel) follow (mkWalk [] ns false root 0 0) 1001 in
    if w_slash st && bool_decide (w_done st ≠ []) && negb (is_dir (metadata (w_inode st))) then merr NotADirectory else mok (w_inode st, path_of (w_done st))) r →
  yields good (resolve_path (fs_ops fs fuel) follow (path_of ns)) r.
Proof using.
  intros Hns Hne Hlen Hroot Hr s Hs. assert (Forall word ns ∧ Forall good_name ns) as [Hw Hg] by (split; (eapply Forall_impl; [exact Hns|]); by intros w []).
  rewrite resolve_walk by (apply valid_path_of || apply symlink_target_valid; done). revert s Hs. fold (yields good (walk_path (fs_ops fs fuel) follow (path_of ns)) r).
  unfold walk_path. assert (is_absolute (path_of ns) = true) as -> by (by destruct ns). cbn [negb]. rewrite (proj2 (Z.ltb_ge _ _)) by lia. eapply yields_bind; [exact Hroot|]. cbv beta.
  assert (names (path_of ns) = ns ∧ ends_sep (path_of ns) = false) as [-> ->]; [|exact Hr].
  destruct ns as [|n ns _] using rev_ind; [done|]. rewrite <- pre_path_of. apply Forall_app in Hg as [Hg Hn]. apply Forall_cons in Hn as [(Hn1 & Hn2 & _) _]. split.
  - rewrite names_pre, names_word by done. done.
  - destruct (pre_last ns) as (a & ->). rewrite <- app_assoc. cbn [app]. rewrite ends_sep_middle. by apply ends_sep_word.
Qed.

Lemma plain_path_yields root ns inode : Forall (λ w, word w ∧ good_name w) ns → ns ≠ [] → zlen ns ≤ MAX_ITERATIONS → zlen (path_of ns) ≤ MAX_PATH_LEN →
  yields good (read_root_inode fs) (Ok root) → plain_walk root ns inode → yields good (resolve_path (fs_ops fs fuel) follow (path_of ns)) (Ok (inode, path_of ns)).
Proof using.
  intros Hns Hne Hmax Hlen Hroot Hl. apply (resolve_path_of root); [done..|]. assert (Forall good_name ns) as Hg by (eapply Forall_impl; [exact Hns|]; by intros w []).
  eapply (yields_bind _ _ (mkWalk ns [] false inode 0 (zlen ns))); [|apply yields_ok]. unfold zlen, MAX_ITERATIONS in Hmax.
  replace 1001%nat with (length ns + (1001 - length ns))%nat by lia. rewrite <- (app_nil_r ns) at 1. apply (walk_prefix root ns inode Hl []); [done|lia|unfold zlen, MAX_ITERATIONS; lia|].
  destruct (1001 - length ns)%nat; apply yields_ok.
Qed.

(** A name that its directory does not have. *)
Lemma missing_path_yields root ns dir w : Forall (λ w, word w ∧ good_name w) (ns ++ [w]) → zlen (ns ++ [w]) ≤ MAX_ITERATIONS → zlen (path_of (ns ++ [w])) ≤ MAX_PATH_LEN →
  yields good (read_root_inode fs) (Ok root) → plain_walk root ns dir → is_dir (metadata dir) = true → yields good (get_dir_entry_inode_by_name fs fuel dir w) (Err NotFound) →
  yields good (resolve_path (fs_ops fs fuel) follow (path_of (ns ++ [w]))) (Err NotFound).
Proof using.
  intros Hns Hmax Hlen Hroot Hl Hdir Hlook. apply (resolve_path_of root); [done|by destruct ns|done..|]. assert (Forall good_name ns) as Hg.
  { apply Forall_app in Hns as [Hns _]. eapply Forall_impl; [exact Hns|]. by intros v []. }
  apply yields_bind_err. rewrite zlen_app in Hmax. unfold zlen, MAX_ITERATIONS in Hmax. cbn [length] in Hmax. replace 1001%nat with (length ns + Datatypes.S (1000 - length ns))%nat by lia.
  apply (walk_prefix root ns dir Hl []); [done|lia|unfold zlen, MAX_ITERATIONS; lia|]. cbn [walk_loop w_todo]. apply yields_bind_err. unfold walk_step. cbv zeta. cbn [w_rounds w_inode].
  rewrite (proj2 (Z.leb_le _ _)) by (unfold zlen, MAX_ITERATIONS; lia). eapply yields_bind; [apply yields_lift|]. cbv beta. rewrite Hdir. cbn [negb]. by apply yields_bind_err.
Qed.

(** The path "/./././…" *)
Definition dots (n : nat) : list Z := mjoin (replicate n (SEPARATOR :: DOT)).

Lemma names_dots n : names (dots n) = replicate n DOT.
Proof using.
  induction n as [|n IH]; [done|]. change (dots (Datatypes.S n)) with (SEPARATOR :: DOT ++ dots n). change (replicate (Datatypes.S n) DOT) with (DOT :: replicate n DOT). rewrite names_sep, <- IH.
  destruct n; [done|]. change (dots (Datatypes.S n)) with (SEPARATOR :: DOT ++ dots n). by rewrite names_middle, names_sep.
Qed.

Lemma walk_dots root c : is_dir (metadata root) = true → yields good (get_dir_entry_inode_by_name fs fuel root DOT) (Ok c) → ∀ n slash k, k + Z.of_nat n = MAX_ITERATIONS → 0 ≤ k →
  yields good (walk_loop (fs_ops fs fuel) follow (mkWalk [] (replicate (Datatypes.S n) DOT) slash root 0 k) (Datatypes.S n)) Panic.
Proof using.
  intros Hdir Hlook. induction n as [|n IH]; intros slash k Hk H0'.
  - intros s Hs. exists s. split; [|done]. cbn [replicate walk_loop w_todo]. unfold mbindM, walk_step. cbv zeta. cbn [w_rounds]. by rewrite (proj2 (Z.leb_gt _ _)) by lia.
  - cbn [walk_loop w_todo]. change (replicate (Datatypes.S (Datatypes.S n)) DOT) with (DOT :: replicate (Datatypes.S n) DOT). cbv beta iota. eapply yields_bind; [|apply (IH (bool_decide (replicate (Datatypes.S n) DOT = []) || slash) (k + 1)); lia].
    unfold walk_step. cbv zeta. cbn [w_done w_todo w_slash w_inode w_symlinks w_rounds]. rewrite (proj2 (Z.leb_le _ _)) by lia. eapply yields_bind; [apply yields_lift|]. cbv beta.
    rewrite Hdir. cbn [negb]. eapply yields_bind; [exact Hlook|]. cbv beta. rewrite bool_decide_eq_true_2 by done. apply yields_ok.
Qed.
End plain.

(** A path of at most 1000 plain names, none of which is a symbolic link, resolves to the inode that the directory
    entries lead to one after the other, and to itself. *)
Theorem plain_path_resolves `{Crc} {S} `{BlockReader S} (good : S → Prop) fs fuel follow root ns inode : Forall (λ w, word w ∧ good_name w) ns → ns ≠ [] →
  zlen ns ≤ MAX_ITERATIONS → zlen (path_of ns) ≤ MAX_PATH_LEN → yields good (read_root_inode fs) (Ok root) → plain_walk good fs fuel root ns inode →
  yields good (resolve_path (fs_ops fs fuel) follow (path_of ns)) (Ok (inode, path_of ns)).
Proof. intros. by eapply plain_path_yields. Qed.

(** C37: The path "/./././…" of 1001 dots has 2002 bytes, fewer than the limit of 4096, and makes resolution panic at the
    assertion that [resolve.rs] takes for unreachable, on every filesystem whose root directory can be read. *)
Theorem long_path_panics `{Crc} {S} `{BlockReader S} (good : S → Prop) fs fuel follow root c : yields good (read_root_inode fs) (Ok root) → is_dir (metadata root) = true →
  yields good (get_dir_entry_inode_by_name fs fuel root DOT) (Ok c) →
  zlen (dots 1001) = 2002 ∧ path_try_from (dots 1001) = Ok (dots 1001) ∧ yields good (resolve_path (fs_ops fs fuel) follow (dots 1001)) Panic.
Proof.
  intros Hroot Hdir Hlook. split; [done|]. assert (path_try_from (dots 1001) = Ok (dots 1001)) as Hv by (vm_compute; reflexivity). split; [done|]. intros s Hs.
  rewrite resolve_walk by (done || apply symlink_target_valid || by apply path_try_from_ok). revert s Hs. fold (yields good (walk_path (fs_ops fs fuel) follow (dots 1001)) Panic).
  unfold walk_path. change (is_absolute (dots 1001)) with true. change (MAX_PATH_LEN <? zlen (dots 1001)) with false. cbn [negb]. eapply yields_bind; [exact Hroot|]. cbv beta.
  rewrite names_dots. intros s Hs. unfold mbindM. destruct (walk_dots good fs fuel follow root c Hdir Hlook 1000 (ends_sep (dots 1001)) 0 eq_refl ltac:(lia) s Hs) as (s' & E & Hs').
  exists s'. split; [|done]. change (Z.to_nat (MAX_ITERATIONS + 1)) with 1001%nat. by rewrite E.
Qed.

(** ** An image with a directory, a file and a link *)
Module tree_demo.
#[local] Existing Instance crc32c.
Definition rss : list (list RawEntry) := [[mkRaw 2 DOT 2 (zeros 3); mkRaw 2 DOTDOT 2 (zeros 2); mkRaw 3 [102] 1 (zeros 3); mkRaw 4 [108] 7 (zeros 979)]].
Definition root_data : list Z := le_bytes 2 0xf30a ++ le_bytes 2 1 ++ le_bytes 2 4 ++ le_bytes 2 0 ++ zeros 4 ++ le_bytes 4 0 ++ le_bytes 2 1 ++ le_bytes 2 0 ++ le_bytes 4 3 ++ zeros 36.
Definition link_data : list Z := [47; 46; 47; 102] ++ zeros 56.
Definition raw (mode size fl : Z) (data : list Z) : list Z := le_bytes 2 mode ++ zeros 2 ++ le_bytes 4 size ++ zeros 24 ++ le_bytes 4 fl ++ zeros 4 ++ data ++ zeros 156.
Definition table : list Z := zeros 256 ++ raw 0x4000 1024 EXTENTS root_data ++ raw 0x8000 0 EXTENTS (zeros 60) ++ raw 0xa000 4 0 link_data.
Definition disk : list Z := zeros 3072 ++ mjoin (encode_entry <$> mjoin rss) ++ zeros 2048 ++ table ++ zeros 1024.
Definition fs : Ext4 := mkExt4 (demo_sb 1024 8) [mkBgd 6 0] ∅.
Definition base (idx : Z) : @Digest crc32c := update_u32_le (update_u32_le (checksum_with_seed 0) idx) 0.
Definition root : Inode := mkInode 2 root_data (mkMeta 1024 0x4000 Directory 0 0) EXTENTS (base 2) 1.
Definition file : Inode := mkInode 3 (zeros 60) (mkMeta 0 0x8000 Regular 0 0) EXTENTS (base 3) 0.
Definition link : Inode := mkInode 4 link_data (mkMeta 4 0xa000 Symlink 0 0) 0 (base 4) 1.
Definition known : list Inode := [root; file; link].

Lemma tree_disk_ok : disk_ok fs disk.
Proof. split; [vm_compute; done..|]. apply map_Forall_empty. Defined.

Lemma tree_bytes_ok : bytes_ok disk.
Proof. apply bytes_ok_forallb. vm_compute. reflexivity. Defined.

(** Inode [n] is in block 6. *)
Definition parse (n : Z) : XR (Inode * Z) := inode_from_bytes fs n (field (Z.to_nat ((n - 1) * 256)) 256 (fs_block fs disk 6)).

Lemma block_demo : real_block fs 6.
Proof. vm_compute. intuition congruence. Defined.

Definition fields (r : XR (Inode * Z)) : option (Z * list Z * Metadata * Z * Z * Z * Z) :=
  match r with Ok (i, s) => Some (index i, inline_data i, metadata i, flags i, checksum_base i, file_size_in_blocks i, s) | _ => None end.

Lemma parse_at n i : get_inode_location fs n = Ok (6, (n - 1) * 256) → (n - 1) * 256 + 256 ≤ 1024 → fields (parse n) = fields (Ok (i, 0)) → inode_at (fs := fs) (disk := disk) n i.
Proof.
  intros Hloc Hn Hp. exists 6, ((n - 1) * 256), 0. split; [exact Hloc|]. split; [exact block_demo|]. split; [exact Hn|]. split; [reflexivity|].
  split; [|intros E; vm_compute in E; discriminate]. change (parse n = Ok (i, 0)). destruct (parse n) as [[j sum]|e| |]; [|discriminate..].
  destruct i, j. unfold fields in Hp. cbn in Hp. congruence.
Defined.

Lemma at_demo : inode_at (fs := fs) (disk := disk) 2 root ∧ inode_at (fs := fs) (disk := disk) 3 file ∧ inode_at (fs := fs) (disk := disk) 4 link.
Proof. split; [|split]; (apply parse_at; [vm_compute; reflexivity|lia|vm_compute; reflexivity]). Defined.

Lemma dir_demo_ok : dir_ok fs disk root [3] rss.
Proof.
  split; [done|done| |cbn; lia|].
  - apply (blocks_by_extents fs disk root [mkExtent 0 3 1]); [done| |vm_compute; intuition congruence].
    exists (take 24 root_data), 0. split; [split; try done; [apply bytes_ok_forallb; by vm_compute|by vm_compute..]|].
    apply (subtree_leaf _ _ _ (field 12 12 root_data)), subtree_nil.
  - assert (Forall raw_ok (mjoin rss)) as Hr by (repeat constructor; cbn; try lia; try done; vm_compute; intuition congruence).
    eapply db_cons; [vm_compute; intuition congruence|vm_compute; reflexivity|exact Hr|done|]. constructor.
Defined.

Lemma healthy_demo : healthy fs disk known.
Proof.
  destruct at_demo as (H2 & H3 & H4). split; [exists root; split; [apply elem_of_cons; by left|exact H2]|].
  assert (root ∈ known ∧ file ∈ known ∧ link ∈ known) as (K2 & K3 & K4) by (unfold known; rewrite !elem_of_cons; tauto).
  constructor; [|constructor; [|constructor; [|constructor]]]; (split; [|cbn; lia|reflexivity|discriminate]); [|discriminate..].
  intros _. exists [3], rss. split; [apply dir_demo_ok|]. split; [discriminate|].
  constructor; [exists root; split; [exact K2|exact H2]|]. constructor; [exists root; split; [exact K2|exact H2]|]. constructor; [exists file; split; [exact K3|exact H3]|].
  constructor; [exists link; split; [exact K4|exact H4]|constructor].
Defined.

(** The root directory, with what its entries name. *)
Lemma lookup_demo : ∃ N, ∀ fuel, (N ≤ fuel)%nat →
  yields (@cache_ok vec_reader vec_reader_laws fs disk) (get_dir_entry_inode_by_name fs fuel root DOT) (Ok root) ∧
  yields (@cache_ok vec_reader vec_reader_laws fs disk) (get_dir_entry_inode_by_name fs fuel root [102]) (Ok file).
Proof.
  destruct (any_lookup (S := @FsState vec_reader) (H1 := cached_reader_laws (H0 := vec_reader_laws) fs disk tree_disk_ok) root [3] rss tree_disk_ok tree_bytes_ok dir_demo_ok ltac:(discriminate)) as (N & HN).
  exists N. intros fuel Hf. assert (∀ w n i, name_try_from w = Ok w → de_inode <$> dir_find w (omap (entry_of []) (mjoin rss)) = Some n → inode_at (fs := fs) (disk := disk) n i →
    yields (@cache_ok vec_reader vec_reader_laws fs disk) (get_dir_entry_inode_by_name fs fuel root w) (Ok i)) as Hlook.
  { intros w n i Hw Hfind Hi. specialize (HN fuel Hf w Hw). unfold lookup_spec in HN. destruct (dir_find w _) as [e|]; [|discriminate]. injection Hfind as <-. apply HN.
    exact (inode_read_ok (H1 := cached_reader_laws (H0 := vec_reader_laws) fs disk tree_disk_ok) _ _ tree_disk_ok Hi). }
  destruct at_demo as (H2 & H3 & _).
  split; [apply (Hlook DOT 2); [reflexivity|vm_compute; reflexivity|exact H2]|apply (Hlook [102] 3); [reflexivity|vm_compute; reflexivity|exact H3]].
Defined.
End tree_demo.

#[local] Existing Instance crc32c.

Lemma resolve_path_walks_witness : ∃ c, cache_new 1024 8 = Ok c ∧
  resolve_path (fs_ops tree_demo.fs 100) All [47; 46; 47; 47; 108; 47] (mkFs (H := vec_reader) c tree_demo.disk) =
  walk_path (fs_ops tree_demo.fs 100) All [47; 46; 47; 47; 108; 47] (mkFs (H := vec_reader) c tree_demo.disk).
Proof.
  destruct (cache_new_eq 1024 8 ltac:(lia)) as (m & E & _). eexists. split; [exact E|].
  apply (resolve_path_walks (S := @FsState vec_reader)). apply path_try_from_ok. reflexivity.
Defined.

Lemma resolve_on_healthy_witness : ∃ N, ∀ fuel, (N ≤ fuel)%nat → ∀ s, @cache_ok vec_reader vec_reader_laws tree_demo.fs tree_demo.disk s →
  outcome (@cache_ok vec_reader vec_reader_laws tree_demo.fs tree_demo.disk) (λ i, i ∈ tree_demo.known) (fs_ops tree_demo.fs fuel) All [47; 108] s.
Proof.
  destruct (resolve_on_healthy (S := @FsState vec_reader) (H1 := cached_reader_laws (H0 := vec_reader_laws) tree_demo.fs tree_demo.disk tree_demo.tree_disk_ok)
    tree_demo.known tree_demo.tree_disk_ok tree_demo.tree_bytes_ok tree_demo.healthy_demo) as (N & HN).
  exists N. intros fuel Hf s Hs. apply (HN fuel Hf All [47; 108] s); [apply path_try_from_ok; reflexivity|exact Hs].
Defined.

Lemma plain_path_resolves_witness : ∃ N, ∀ fuel, (N ≤ fuel)%nat →
  yields (@cache_ok vec_reader vec_reader_laws tree_demo.fs tree_demo.disk) (resolve_path (fs_ops tree_demo.fs fuel) All [47; 102]) (Ok (tree_demo.file, [47; 102])).
Proof.
  destruct tree_demo.lookup_demo as (N & HN). exists N. intros fuel Hf. destruct (HN fuel Hf) as [_ Hlook].
  apply (plain_path_resolves (S := @FsState vec_reader) _ tree_demo.fs fuel All tree_demo.root [[102]] tree_demo.file); [|discriminate|vm_compute; discriminate|vm_compute; discriminate|..].
  - constructor; [|constructor]. split; (split; [discriminate|]); (split; [reflexivity|]); [split; [vm_compute; discriminate|]; by repeat constructor|split; discriminate].
  - exact (inode_read_ok (H1 := cached_reader_laws (H0 := vec_reader_laws) tree_demo.fs tree_demo.disk tree_demo.tree_disk_ok) _ _ tree_demo.tree_disk_ok (proj1 tree_demo.at_demo)).
  - eapply plain_cons; [reflexivity|exact Hlook|reflexivity|apply plain_nil].
Defined.

Lemma long_path_panics_witness : ∃ N, ∀ fuel, (N ≤ fuel)%nat →
  yields (@cache_ok vec_reader vec_reader_laws tree_demo.fs tree_demo.disk) (resolve_path (fs_ops tree_demo.fs fuel) All (dots 1001)) Panic.
Proof.
  destruct tree_demo.lookup_demo as (N & HN). exists N. intros fuel Hf. destruct (HN fuel Hf) as [Hlook _].
  apply (long_path_panics (S := @FsState vec_reader) _ tree_demo.fs fuel All tree_demo.root tree_demo.root); [|reflexivity|exact Hlook].
  exact (inode_read_ok (H1 := cached_reader_laws (H0 := vec_reader_laws) tree_demo.fs tree_demo.disk tree_demo.tree_disk_ok) _ _ tree_demo.tree_disk_ok (proj1 tree_demo.at_demo)).
Defined.
