(* ===== verification/Ext4Journal.v ===== *)
(** The journal of [ext4-view-rs] ([journal.rs] and [journal/*.rs]).

    The journal is a file whose blocks hold transactions: descriptor blocks with the blocks that replace blocks of the
    filesystem, revocation blocks, and a commit block at the end. [load_block_map] gives the replacements. *)
From S2P Require Import Prelude Ext4Base Ext4Cache Ext4Inode Ext4Extents Ext4BlockMap Ext4File.

(** ** [block_header.rs] *)
Record JournalBlockHeader := mkHeader { jh_block_type : Z; jh_sequence : Z }.

Definition JOURNAL_MAGIC : Z := 0xc03b3998.
Definition HEADER_SIZE : Z := 12.
Definition DESCRIPTOR : Z := 1.
Definition COMMIT : Z := 2.
Definition SUPERBLOCK_V2 : Z := 4.
Definition REVOCATION : Z := 5.

Definition header_read_bytes (bytes : list Z) : XR (option JournalBlockHeader) :=
  let? h_magic := read_u32be bytes 0x0 in
  if negb (h_magic =? JOURNAL_MAGIC) then Ok None else
  let? h_blocktype := read_u32be bytes 0x4 in
  let? h_sequence := read_u32be bytes 0x8 in
  Ok (Some (mkHeader h_blocktype h_sequence)).

(** ** [superblock.rs] *)
Record JournalSuperblock := mkJsb { js_block_size : Z; js_sequence : Z; js_start_block : Z; js_uuid : list Z }.

Definition JOURNAL_SUPERBLOCK_SIZE : Z := 1024.
Definition REQUIRED_JOURNAL_FEATURES : Z := Z.lor 0x2 0x10.
Definition ALLOWED_JOURNAL_FEATURES : Z := 0x1.

Definition check_journal_features (s_feature_incompat : Z) : XR unit :=
  let present_required := Z.land s_feature_incompat REQUIRED_JOURNAL_FEATURES in
  if negb (present_required =? REQUIRED_JOURNAL_FEATURES)
  then Err (Incompatible (MissingRequiredJournalFeatures (Z.ldiff REQUIRED_JOURNAL_FEATURES s_feature_incompat))) else
  let unsupported := Z.ldiff (Z.ones 32) (Z.lor REQUIRED_JOURNAL_FEATURES ALLOWED_JOURNAL_FEATURES) in
  let present_unsupported := Z.land s_feature_incompat unsupported in
  if negb (present_unsupported =? 0) then Err (Incompatible (UnsupportedJournalFeatures present_unsupported)) else Ok tt.

Section journal_blocks.
Context `{Crc}.

Definition journal_superblock_read_bytes (bytes : list Z) : XR JournalSuperblock :=
  let? _ := assert (zlen bytes =? JOURNAL_SUPERBLOCK_SIZE) in
  let? header := header_read_bytes bytes in
  let? header := ok_or (Corrupt JournalMagic) header in
  if negb (jh_block_type header =? SUPERBLOCK_V2) then Err (Incompatible (JournalSuperblockType (jh_block_type header))) else
  let? s_blocksize := read_u32be bytes 0xc in
  let? s_sequence := read_u32be bytes 0x18 in
  let? s_start := read_u32be bytes 0x1c in
  let? s_feature_incompat := read_u32be bytes 0x28 in
  let? s_uuid := slice 0x30 (0x30 + 16) bytes in
  let? s_checksum_type := unwrap (bytes !! Z.to_nat 0x50) in
  let? s_checksum := read_u32be bytes 0xfc in
  let? _ := check_journal_features s_feature_incompat in
  if negb (s_checksum_type =? 4) then Err (Incompatible (JournalChecksumType s_checksum_type)) else
  let? a := slice 0 0xfc bytes in
  let? b := slice (0xfc + 4) JOURNAL_SUPERBLOCK_SIZE bytes in
  let checksum := update (update_u32_le (update checksum_new a) 0) b in
  if negb (finalize checksum =? s_checksum) then Err (Corrupt JournalSuperblockChecksum) else
  Ok (mkJsb s_blocksize s_sequence s_start s_uuid).

(** A block with its checksum in the last four bytes. *)
Definition tail_checksum (err : CorruptKind) (sb : JournalSuperblock) (block : list Z) : XR unit :=
  let? checksum_offset := unwrap (checked 64 (zlen block - 4)) in
  let? expected_checksum := read_u32be block checksum_offset in
  let? covered := slice 0 checksum_offset block in
  let checksum := update_u32_be (update (update checksum_new (js_uuid sb)) covered) 0 in
  if finalize checksum =? expected_checksum then Ok tt else Err (Corrupt err).

(** [commit_block.rs] *)
Definition validate_commit_block_checksum (sb : JournalSuperblock) (block : list Z) : XR unit :=
  let? expected_checksum := read_u32be block 16 in
  let? a := slice 0 16 block in
  let? b := slice (16 + 4) (zlen block) block in
  let checksum := update (update (update (update checksum_new (js_uuid sb)) a) (zeros 4)) b in
  if finalize checksum =? expected_checksum then Ok tt else Err (Corrupt JournalCommitBlockChecksum).

(** [revocation_block.rs] *)
Definition validate_revocation_block_checksum : JournalSuperblock → list Z → XR unit := tail_checksum JournalRevocationBlockChecksum.

(** The loop over the table; [n] bounds its rounds. *)
Fixpoint read_table (n : nat) (data table : list Z) : XR (list Z) :=
  if bool_decide (data = []) then Ok table else
  match n with
  | O => Hang
  | S n => let? b := slice 0 8 data in
           let? data := slice 8 (zlen data) data in
           read_table n data (table ++ [le_dec (reverse b)])
  end.

Definition read_revocation_block_table (block table : list Z) : XR (list Z) :=
  let? end_ := unwrap (checked 64 (zlen block - 4)) in
  let? data := slice HEADER_SIZE end_ block in
  let? num_bytes := read_u32be data 0 in
  if negb (num_bytes `mod` 8 =? 0) then Err (Corrupt (JournalRevocationBlockInvalidTableSize num_bytes)) else
  let? data := slice 4 (zlen data) data in
  let? data := ok_or (Corrupt (JournalRevocationBlockInvalidTableSize num_bytes)) (get_range 0 num_bytes data) in
  read_table (length data) data table.

(** [descriptor_block.rs] *)
Definition validate_descriptor_block_checksum : JournalSuperblock → list Z → XR unit := tail_checksum JournalDescriptorBlockChecksum.

Record DescriptorBlockTag := mkTag { tag_block_index : Z; tag_checksum : Z; tag_flags : Z }.

Definition ESCAPED : Z := 0x1.
Definition UUID_OMITTED : Z := 0x2.
Definition LAST_TAG : Z := 0x8.

Definition encoded_size (tag : DescriptorBlockTag) : Z := if contains (tag_flags tag) UUID_OMITTED then 16 else 32.

Definition tag_read_bytes (bytes : list Z) : XR (option DescriptorBlockTag) :=
  if zlen bytes <? 16 then Ok None else
  let? t_blocknr := read_u32be bytes 0 in
  let? t_flags := read_u32be bytes 4 in
  let? t_blocknr_high := read_u32be bytes 8 in
  let? t_checksum := read_u32be bytes 12 in
  if negb (contains t_flags UUID_OMITTED) && (zlen bytes <? 32) then Ok None else
  Ok (Some (mkTag (u64_from_hilo t_blocknr_high t_blocknr) t_checksum t_flags)).

(** [DescriptorBlockTagIter::next], the bytes of the next call with the tag. *)
Definition tag_next (bytes : list Z) : XR (DescriptorBlockTag * option (list Z)) :=
  let? tag := tag_read_bytes bytes in
  let? tag := ok_or (Corrupt JournalDescriptorBlockTruncated) tag in
  if contains (tag_flags tag) ESCAPED then Err (Incompatible JournalBlockEscaped) else
  if contains (tag_flags tag) LAST_TAG then Ok (tag, None) else
  let? rest := slice (encoded_size tag) (zlen bytes) bytes in
  Ok (tag, Some rest).
End journal_blocks.

(** ** [block_map.rs] *)
Section loader.
Context `{Crc} {S : Type} `{BlockReader S} (fs : Ext4) (fuel : nat).

(** The loader, with the number of items that its iterator still skips. The buffers are values of the functions. *)
Record BlockMapLoader := mkLoader {
  lo_block_map : gmap Z Z; lo_uncommitted : gmap Z Z; lo_revoked : list Z; lo_iter : FileBlocks; lo_skip : nat; lo_sequence : Z; lo_is_done : bool;
}.
Definition set_lo_iter (x : FileBlocks) (l : BlockMapLoader) : BlockMapLoader :=
  mkLoader (lo_block_map l) (lo_uncommitted l) (lo_revoked l) x (lo_skip l) (lo_sequence l) (lo_is_done l).
Definition set_lo_skip (n : nat) (l : BlockMapLoader) : BlockMapLoader :=
  mkLoader (lo_block_map l) (lo_uncommitted l) (lo_revoked l) (lo_iter l) n (lo_sequence l) (lo_is_done l).
Definition set_lo_done (l : BlockMapLoader) : BlockMapLoader :=
  mkLoader (lo_block_map l) (lo_uncommitted l) (lo_revoked l) (lo_iter l) (lo_skip l) (lo_sequence l) true.
Definition set_lo_revoked (r : list Z) (l : BlockMapLoader) : BlockMapLoader :=
  mkLoader (lo_block_map l) (lo_uncommitted l) r (lo_iter l) (lo_skip l) (lo_sequence l) (lo_is_done l).
Definition insert_uncommitted (k v : Z) (l : BlockMapLoader) : BlockMapLoader :=
  mkLoader (lo_block_map l) (<[k:=v]> (lo_uncommitted l)) (lo_revoked l) (lo_iter l) (lo_skip l) (lo_sequence l) (lo_is_done l).

Abbreviation L := (M (BlockMapLoader * S) Ext4Error).

Definition loader_new (sb : JournalSuperblock) (journal_inode : Inode) : XR BlockMapLoader :=
  let? it := file_blocks_new journal_inode in
  Ok (mkLoader ∅ ∅ [] it (Z.to_nat (js_start_block sb)) (js_sequence sb) false).

(** [Skip]: [n] items go by, errors among them; [false] when the iterator ends before. *)
Definition file_block_next : L (option Z) := on_sub lo_iter set_lo_iter (file_blocks_next fs fuel).
Fixpoint advance_by (n : nat) : L bool := λ p,
  match n with
  | O => (Ok true, p)
  | Datatypes.S n =>
      match file_block_next p with
      | (Ok None, p) => (Ok false, p)
      | (Ok (Some _), p) | (Err _, p) => advance_by n p
      | (Panic, p) => (Panic, p)
      | (Hang, p) => (Hang, p)
      end
  end.
Definition journal_block_next : L (option Z) :=
  let! l := it_get in
  if (lo_skip l =? 0)%nat then file_block_next else
  let! _ := it_put (set_lo_skip 0 l) in
  let! all := advance_by (lo_skip l) in
  if all then file_block_next else mok None.

(** The loop over the tags of a descriptor block; [n] bounds its rounds. *)
Fixpoint process_tags (sb : JournalSuperblock) (n : nat) (bytes : list Z) : L unit :=
  match n with
  | O => mlift Hang
  | Datatypes.S n =>
      let! (tag, rest) := mlift (tag_next bytes) in
      let! o := journal_block_next in
      let! block_index := mlift (ok_or (Corrupt JournalTruncated) o) in
      let! l := it_get in
      let! data_block := on_fs (block_read fs block_index 0 (block_size (superblock fs))) in
      let checksum := update (update_u32_be (update checksum_new (js_uuid sb)) (lo_sequence l)) data_block in
      if negb (finalize checksum =? tag_checksum tag) then merr (Corrupt JournalDescriptorTagChecksum) else
      let! _ := it_put (insert_uncommitted (tag_block_index tag) block_index l) in
      match rest with None => mok tt | Some bytes => process_tags sb n bytes end
  end.

Definition process_descriptor_block (sb : JournalSuperblock) (block : list Z) : L unit :=
  let! _ := mlift (validate_descriptor_block_checksum sb block) in
  let! bytes := mlift (slice HEADER_SIZE (zlen block) block) in
  process_tags sb (length bytes) bytes.

Definition process_revocation_block (sb : JournalSuperblock) (block : list Z) : L unit :=
  let! _ := mlift (validate_revocation_block_checksum sb block) in
  let! l := it_get in
  let! table := mlift (read_revocation_block_table block (lo_revoked l)) in
  it_put (set_lo_revoked table l).

(** The revoked blocks leave the transaction, which then moves to the map. *)
Definition commit_map (revoked : list Z) (uncommitted block_map : gmap Z Z) : gmap Z Z :=
  foldl (λ m k, delete k m) uncommitted revoked ∪ block_map.

Definition process_commit_block (sb : JournalSuperblock) (block : list Z) : L unit :=
  let! _ := mlift (validate_commit_block_checksum sb block) in
  let! l := it_get in
  let block_map := commit_map (lo_revoked l) (lo_uncommitted l) (lo_block_map l) in
  let! _ := it_put (mkLoader block_map ∅ [] (lo_iter l) (lo_skip l) (lo_sequence l) (lo_is_done l)) in
  let! sequence := mlift (ok_or (Corrupt JournalSequenceOverflow) (checked 32 (lo_sequence l + 1))) in
  it_put (mkLoader block_map ∅ [] (lo_iter l) (lo_skip l) sequence (lo_is_done l)).

Definition process_next (sb : JournalSuperblock) (block_index : Z) : L unit :=
  let! block := on_fs (block_read fs block_index 0 (block_size (superblock fs))) in
  let! header := mlift (header_read_bytes block) in
  let! l := it_get in
  match header with
  | None => it_put (set_lo_done l)
  | Some header =>
      if negb (jh_sequence header =? lo_sequence l) then merr (Corrupt JournalSequence) else
      if jh_block_type header =? DESCRIPTOR then process_descriptor_block sb block
      else if jh_block_type header =? REVOCATION then process_revocation_block sb block
      else if jh_block_type header =? COMMIT then process_commit_block sb block
      else merr (Incompatible (JournalBlockType (jh_block_type header)))
  end.

(** The loop of [load_block_map]; [n] bounds its rounds. *)
Fixpoint load_loop (sb : JournalSuperblock) (n : nat) : L unit :=
  match n with
  | O => mlift Hang
  | Datatypes.S n =>
      let! o := journal_block_next in
      match o with
      | None => mok tt
      | Some block_index => λ p,
          match process_next sb block_index p with
          | (Ok _, p) => if lo_is_done p.1 then (Ok tt, p) else load_loop sb n p
          | (Err (Corrupt _), p) => (Ok tt, p)
          | (Err e, p) => (Err e, p)
          | (Panic, p) => (Panic, p)
          | (Hang, p) => (Hang, p)
          end
      end
  end.

(** A program on a value that ends with it. *)
Definition on_local {T A} (r : XR T) (m : M (T * S) Ext4Error A) : M S Ext4Error A := let! t := mlift r in λ s, let '(x, (_, s)) := m (t, s) in (x, s).

Definition load_block_map (sb : JournalSuperblock) (journal_inode : Inode) : M S Ext4Error (gmap Z Z) :=
  on_local (loader_new sb journal_inode) (let! _ := load_loop sb fuel in let! l := it_get in mok (lo_block_map l)).

(** [JournalSuperblock::load] *)
Definition journal_superblock_load (journal_inode : Inode) : M S Ext4Error JournalSuperblock :=
  on_local (file_blocks_new journal_inode) (
    let! o := file_blocks_next fs fuel in
    let! block_index := mlift (ok_or (Corrupt JournalSize) o) in
    let! block := on_fs (block_read fs block_index 0 JOURNAL_SUPERBLOCK_SIZE) in
    let! sb := mlift (journal_superblock_read_bytes block) in
    if negb (js_block_size sb =? block_size (superblock fs)) then merr (Corrupt JournalBlockSize) else mok sb).

(** [Journal::load]: the map of the journal. *)
Definition journal_load : M S Ext4Error (gmap Z Z) :=
  match journal_inode (superblock fs) with
  | None => mok ∅
  | Some i =>
      let! inode := inode_read fs i in
      let! sb := journal_superblock_load inode in
      load_block_map sb inode
  end.
End loader.

(** A value of the unit test of [commit_block.rs]. *)
Example commit_checksum_test :
  validate_commit_block_checksum (H := crc32c) (mkJsb 1024 0 0 (zeros 16)) (replicate 16 0xab ++ [0x66; 0x51; 0x5e; 0x6f] ++ replicate 1004 0xab) = Ok tt.
Proof. vm_compute. reflexivity. Qed.

(** ** Transactions *)
Inductive JournalItem := Replace (tags : list (Z * Z)) | Revoke (blocks : list Z).

Definition tags_of (it : JournalItem) : list (Z * Z) := match it with Replace l => l | Revoke _ => [] end.
Definition revoked_of (it : JournalItem) : list Z := match it with Replace _ => [] | Revoke l => l end.

(** The block that a transaction puts in the place of block [k]: the last one, unless [k] is revoked. *)
Definition replaces (tx : list JournalItem) (k : Z) : option Z :=
  if bool_decide (k ∈ mjoin (revoked_of <$> tx)) then None
  else snd <$> last (filter (λ t, t.1 = k) (mjoin (tags_of <$> tx))).

(** The last transaction that replaces the block counts. *)
Fixpoint replacement (txs : list (list JournalItem)) (k : Z) : option Z :=
  match txs with [] => None | tx :: txs => match replacement txs k with Some v => Some v | None => replaces tx k end end.

Definition insert_tags (unc : gmap Z Z) (l : list (Z * Z)) : gmap Z Z := foldl (λ m t, <[t.1 := t.2]> m) unc l.

Lemma insert_tags_lookup l : ∀ m k, insert_tags m l !! k = match snd <$> last (filter (λ t, t.1 = k) l) with Some v => Some v | None => m !! k end.
Proof.
  induction l as [|[a v] l IH] using rev_ind; intros m k; [done|]. unfold insert_tags in *. rewrite foldl_app, filter_app. cbn [foldl fst snd]. rewrite filter_cons. cbn [fst].
  destruct (decide (a = k)) as [->|Hne].
  - rewrite lookup_insert_eq, filter_nil, last_snoc. done.
  - by rewrite lookup_insert_ne, filter_nil, app_nil_r, IH.
Qed.

Lemma delete_all_lookup l : ∀ (m : gmap Z Z) k, foldl (λ m k, delete k m) m l !! k = if bool_decide (k ∈ l) then None else m !! k.
Proof.
  induction l as [|a l IH]; intros m k; [by rewrite bool_decide_eq_false_2 by apply not_elem_of_nil|]. cbn [foldl]. rewrite IH. repeat case_bool_decide; try done.
  - exfalso. apply H0. by apply elem_of_cons; right.
  - apply elem_of_cons in H0 as [->|]; [|done]. apply lookup_delete_eq.
  - apply lookup_delete_ne. intros ->. apply H0. by apply elem_of_cons; left.
Qed.

(** The map after some transactions. *)
Definition apply_tx (m : gmap Z Z) (tx : list JournalItem) : gmap Z Z :=
  commit_map (mjoin (revoked_of <$> tx)) (insert_tags ∅ (mjoin (tags_of <$> tx))) m.

Lemma apply_txs_lookup txs : ∀ m k, foldl apply_tx m txs !! k = match replacement txs k with Some v => Some v | None => m !! k end.
Proof.
  induction txs as [|tx txs IH]; intros m k; [done|]. cbn [foldl replacement]. rewrite IH. destruct (replacement txs k); [done|].
  unfold apply_tx, commit_map, replaces. rewrite lookup_union, delete_all_lookup, insert_tags_lookup, lookup_empty.
  case_bool_decide; [by destruct (m !! k)|]. destruct (snd <$> last _) as [v|]; by destruct (m !! k).
Qed.

(** ** Journals on the storage *)
Section replay.
Context `{Crc} {S : Type} `{BlockReaderLaws S fs disk good} (good_disk : disk_ok fs disk) (sb : JournalSuperblock).
Let block (b : Z) : list Z := fs_block fs disk b.

(** Block [d] holds what the tag announces. *)
Definition data_at (seq : Z) (tag : DescriptorBlockTag) (d : Z) : Prop :=
  real_block fs d ∧ finalize (update (update_u32_be (update checksum_new (js_uuid sb)) seq) (block d)) = tag_checksum tag.

Inductive tags_at (seq : Z) : list Z → list Z → list (Z * Z) → Prop :=
  | tags_last bytes tag d : tag_next bytes = Ok (tag, None) → data_at seq tag d → tags_at seq bytes [d] [(tag_block_index tag, d)]
  | tags_cons bytes tag rest d ds l : tag_next bytes = Ok (tag, Some rest) → data_at seq tag d → tags_at seq rest ds l →
      tags_at seq bytes (d :: ds) ((tag_block_index tag, d) :: l).

Definition header_at (b type seq : Z) : Prop := real_block fs b ∧ header_read_bytes (block b) = Ok (Some (mkHeader type seq)).

(** The blocks of a descriptor or a revocation, of a transaction before its commit, and of a log. *)
Inductive item_at (seq : Z) : list Z → JournalItem → Prop :=
  | item_tags b ds l : header_at b DESCRIPTOR seq → validate_descriptor_block_checksum sb (block b) = Ok tt →
      tags_at seq (drop 12 (block b)) ds l → item_at seq (b :: ds) (Replace l)
  | item_revoke b l : header_at b REVOCATION seq → validate_revocation_block_checksum sb (block b) = Ok tt →
      read_revocation_block_table (block b) [] = Ok l → item_at seq [b] (Revoke l).

Inductive tx_at (seq : Z) : list Z → list JournalItem → Prop :=
  | tx_nil : tx_at seq [] []
  | tx_cons bs it bs' tx : item_at seq bs it → tx_at seq bs' tx → tx_at seq (bs ++ bs') (it :: tx).

(** The tags of a descriptor block fail: after tags whose data blocks are as announced comes one that cannot be read, one
    whose data block the journal no longer has, or one whose data block has another checksum. *)
Inductive tags_fail (seq : Z) : list Z → list Z → Ext4Error → Prop :=
  | fail_tag bytes ds e : tag_next bytes = Err e → tags_fail seq bytes ds e
  | fail_short bytes next : tag_next bytes = Ok next → tags_fail seq bytes [] (Corrupt JournalTruncated)
  | fail_data bytes tag rest d ds : tag_next bytes = Ok (tag, rest) → real_block fs d →
      finalize (update (update_u32_be (update checksum_new (js_uuid sb)) seq) (block d)) ≠ tag_checksum tag →
      tags_fail seq bytes (d :: ds) (Corrupt JournalDescriptorTagChecksum)
  | fail_later bytes tag rest d ds e : tag_next bytes = Ok (tag, Some rest) → data_at seq tag d → tags_fail seq rest ds e →
      tags_fail seq bytes (d :: ds) e.

(** The ways in which the block [b], with the blocks [ds] behind it, is no part of a transaction. *)
Inductive block_fails (seq b : Z) (ds : list Z) : Ext4Error → Prop :=
  | fail_sequence type seq' : header_at b type seq' → seq' ≠ seq → block_fails seq b ds (Corrupt JournalSequence)
  | fail_descriptor e : header_at b DESCRIPTOR seq → validate_descriptor_block_checksum sb (block b) = Err e → block_fails seq b ds e
  | fail_tags e : header_at b DESCRIPTOR seq → validate_descriptor_block_checksum sb (block b) = Ok tt →
      tags_fail seq (drop 12 (block b)) ds e → block_fails seq b ds e
  | fail_revocation e : header_at b REVOCATION seq → validate_revocation_block_checksum sb (block b) = Err e → block_fails seq b ds e
  | fail_table e : header_at b REVOCATION seq → validate_revocation_block_checksum sb (block b) = Ok tt →
      read_revocation_block_table (block b) [] = Err e → block_fails seq b ds e
  | fail_commit e : header_at b COMMIT seq → validate_commit_block_checksum sb (block b) = Err e → block_fails seq b ds e
  | fail_type type : header_at b type seq → type ≠ DESCRIPTOR → type ≠ REVOCATION → type ≠ COMMIT →
      block_fails seq b ds (Incompatible (JournalBlockType type)).

(** What ends the journal: no block, one without a header, or damage. *)
Definition stops_at (seq : Z) (rest : list Z) : Prop :=
  match rest with
  | [] => True
  | b :: ds => real_block fs b ∧ header_read_bytes (block b) = Ok None ∨ ∃ k, block_fails seq b ds (Corrupt k)
  end.

Definition commit_at (seq c : Z) : Prop := header_at c COMMIT seq ∧ validate_commit_block_checksum sb (block c) = Ok tt.

(** Transactions with their commits, then what is left of one without; nothing comes after the last sequence number. *)
Inductive log_at : Z → list Z → list (list JournalItem) → Prop :=
  | log_end seq bs tx rest : tx_at seq bs tx → stops_at seq rest → log_at seq (bs ++ rest) []
  | log_full seq bs tx c rest : tx_at seq bs tx → commit_at seq c → seq + 1 = 2 ^ 32 → log_at seq (bs ++ c :: rest) [tx]
  | log_commit seq bs tx c rest txs : tx_at seq bs tx → commit_at seq c →
      0 ≤ seq → seq + 1 < 2 ^ 32 → log_at (seq + 1) rest txs → log_at seq (bs ++ c :: rest) (tx :: txs).

(** A journal that needs something the reader does not know: a type of block or an escaped data block. *)
Inductive foreign_at : Z → list Z → IncompatibleKind → Prop :=
  | foreign_end seq bs tx b ds k : tx_at seq bs tx → block_fails seq b ds (Incompatible k) → foreign_at seq (bs ++ b :: ds) k
  | foreign_commit seq bs tx c rest k : tx_at seq bs tx → commit_at seq c →
      0 ≤ seq → seq + 1 < 2 ^ 32 → foreign_at (seq + 1) rest k → foreign_at seq (bs ++ c :: rest) k.

Context (fuel : nat).
Abbreviation gen := (generates good (file_blocks_next fs fuel)).

Lemma next_some m unc rev it seq b bl : gen it (b :: bl) → ∃ it',
  run_to good (journal_block_next fs fuel) (mkLoader m unc rev it 0 seq false) (Ok (Some b)) (mkLoader m unc rev it' 0 seq false) ∧ gen it' bl.
Proof using.
  intros (it' & Hr & Hg). exists it'. split; [|done]. intros s Hs. destruct (Hr s Hs) as (s' & E & Hs'). exists s'. split; [|done].
  unfold journal_block_next, mbindM, it_get, file_block_next, on_sub, zoom. cbn [fst snd lo_skip Nat.eqb lo_iter]. by rewrite E.
Qed.

Lemma next_none m unc rev it seq : gen it [] → ∃ it',
  run_to good (journal_block_next fs fuel) (mkLoader m unc rev it 0 seq false) (Ok None) (mkLoader m unc rev it' 0 seq false).
Proof using.
  intros (it' & Hr). exists it'. intros s Hs. destruct (Hr s Hs) as (s' & E & Hs'). exists s'. split; [|done].
  unfold journal_block_next, mbindM, it_get, file_block_next, on_sub, zoom. cbn [fst snd lo_skip Nat.eqb lo_iter]. by rewrite E.
Qed.

(** The blocks before the start go by. *)
Lemma advance_ok n : ∀ m unc rev it seq bl, gen it bl → (n ≤ length bl)%nat → ∃ it',
  run_to good (advance_by fs fuel n) (mkLoader m unc rev it 0 seq false) (Ok true) (mkLoader m unc rev it' 0 seq false) ∧ gen it' (drop n bl).
Proof using.
  induction n as [|n IH]; intros m unc rev it seq bl Hg Hn; [exists it; split; [apply run_ok|done]|]. destruct bl as [|b bl]; [cbn in Hn; lia|]. destruct Hg as (it1 & Hr & Hg).
  destruct (IH m unc rev it1 seq bl Hg) as (it2 & Hr2 & Hg2); [cbn in Hn; lia|]. exists it2. split; [|done]. intros s Hs. destruct (Hr s Hs) as (s1 & E & Hs1).
  destruct (Hr2 s1 Hs1) as (s2 & E2 & Hs2). exists s2. split; [|done]. cbn [advance_by]. unfold file_block_next at 1, on_sub, zoom. cbn [fst snd lo_iter]. rewrite E. exact E2.
Qed.

Lemma skip_ok n m unc rev it seq bl : gen it bl → (n ≤ length bl)%nat → ∃ it', gen it' (drop n bl) ∧ ∀ s, good s → ∃ s',
  good s' ∧ journal_block_next fs fuel (mkLoader m unc rev it n seq false, s) = journal_block_next fs fuel (mkLoader m unc rev it' 0 seq false, s').
Proof using.
  intros Hg Hn. destruct (decide (n = 0%nat)) as [->|Hne]; [exists it; split; [done|]; intros s Hs; by exists s|]. destruct (advance_ok n m unc rev it seq bl Hg Hn) as (it' & Hr & Hg').
  exists it'. split; [done|]. intros s Hs. destruct (Hr s Hs) as (s1 & E & Hs1). exists s1. split; [done|]. unfold journal_block_next at 1. unfold mbindM, it_get, it_put.
  cbn [fst snd lo_skip]. rewrite (proj2 (Nat.eqb_neq _ _) Hne). cbv beta iota. cbn [fst snd lo_skip]. unfold set_lo_skip.
  cbn [lo_block_map lo_uncommitted lo_revoked lo_iter lo_sequence lo_is_done]. by rewrite E.
Qed.

Lemma whole_block b : real_block fs b → yields good (block_read fs b 0 (block_size (superblock fs))) (Ok (block b)) ∧ zlen (block b) = block_size (superblock fs) ∧ 1024 ≤ zlen (block b).
Proof using good_disk H1.
  intros Hb. pose proof (dk_bsize _ _ good_disk) as Hbs. pose proof (length_fs_block good_disk b Hb) as Hl. fold (block b) in Hl.
  split; [|unfold zlen; lia]. rewrite <- (field_full (Z.to_nat (block_size (superblock fs))) (block b)) by done. apply (block_read_ok good_disk b 0); lia || done.
Qed.

Lemma tag_next_len bytes tag rest : tag_next bytes = Ok (tag, rest) → (16 ≤ length bytes)%nat ∧ match rest with Some r => (length r + 16 ≤ length bytes)%nat | None => True end.
Proof using.
  unfold tag_next, tag_read_bytes. destruct (Z.ltb_spec (zlen bytes) 16) as [|Hl]; [done|]. unfold zlen in Hl.
  destruct (read_u32be bytes 0) as [n|e| |]; try done. destruct (read_u32be bytes 4) as [f|e| |]; try done. destruct (read_u32be bytes 8) as [h|e| |]; try done.
  destruct (read_u32be bytes 12) as [c|e| |]; try done. cbn [rbind]. destruct (negb _ && _); [done|]. cbn [ok_or rbind]. set (tag' := mkTag _ c f).
  destruct (contains _ ESCAPED); [done|]. destruct (contains _ LAST_TAG); [intros [= <- <-]; split; [lia|done]|].
  destruct (slice (encoded_size tag') (zlen bytes) bytes) as [r|e| |] eqn:E; try done. cbn [rbind]. intros [= <- <-]. split; [lia|].
  unfold slice in E. case_bool_decide as Hc; [|done]. injection E as <-. unfold field. rewrite length_take, length_drop. unfold encoded_size in *. destruct (contains _ UUID_OMITTED); unfold zlen in *; lia.
Qed.

Lemma tags_len seq bytes ds l : tags_at seq bytes ds l → (length ds ≤ length bytes)%nat.
Proof using. induction 1 as [bytes tag d Hn _|bytes tag rest d ds l Hn _ _ IH]; apply tag_next_len in Hn as [? ?]; cbn; lia. Qed.

Lemma tags_ok seq bytes ds l : tags_at seq bytes ds l → ∀ m unc rev it rest n, gen it (ds ++ rest) → (length ds ≤ n)%nat → ∃ it',
  run_to good (process_tags fs fuel sb n bytes) (mkLoader m unc rev it 0 seq false) (Ok tt) (mkLoader m (insert_tags unc l) rev it' 0 seq false) ∧ gen it' rest.
Proof using good_disk H1.
  induction 1 as [bytes tag d Hn [Hr Hsum]|bytes tag more d ds l Hn [Hr Hsum] _ IH]; intros m unc rev it rest n Hg Hle; (destruct n as [|n]; [cbn in Hle; lia|]);
    destruct (next_some m unc rev it seq d _ Hg) as (it1 & Hnext & Hg1); destruct (whole_block d Hr) as [Hread _].
  - exists it1. split; [|done]. eapply run_lift; [exact Hn|]. cbv beta iota. eapply run_bind; [exact Hnext|]. eapply run_lift; [done|]. apply run_get. eapply run_fs; [exact Hread|].
    cbv zeta. cbn [lo_sequence]. rewrite Hsum, Z.eqb_refl. apply run_put, run_ok.
  - destruct (IH m (<[tag_block_index tag:=d]> unc) rev it1 rest n Hg1) as (it2 & Hrun & Hg2); [cbn in Hle; lia|]. exists it2. split; [|done].
    eapply run_lift; [exact Hn|]. cbv beta iota. eapply run_bind; [exact Hnext|]. eapply run_lift; [done|]. apply run_get. eapply run_fs; [exact Hread|].
    cbv zeta. cbn [lo_sequence]. rewrite Hsum, Z.eqb_refl. apply run_put. exact Hrun.
Qed.

(** An error ends a program. *)
Lemma run_lift_err {T A B} (x : XR A) e (k : A → M (T * S) Ext4Error B) t : x = Err e → run_to good (mbindM (mlift x) k) t (Err e) t.
Proof using. intros -> s Hs. by exists s. Qed.

Lemma tags_fail_ok seq bytes ds e : tags_fail seq bytes ds e → ∀ m unc rev it n, gen it ds → (length bytes ≤ n)%nat → (0 < n)%nat → ∃ l',
  run_to good (process_tags fs fuel sb n bytes) (mkLoader m unc rev it 0 seq false) (Err e) l' ∧ lo_block_map l' = m.
Proof using good_disk H1.
  induction 1 as [bytes ds e Hn|bytes [tag next] Hn|bytes tag next d ds Hn Hr Hsum|bytes tag next d ds e Hn [Hr Hsum] _ IH];
    intros m unc rev it n Hg Hle Hpos; (destruct n as [|n]; [lia|]); cbn [process_tags].
  - eexists. split; [by apply run_lift_err|done].
  - destruct (next_none m unc rev it seq Hg) as (it1 & Hnext). eexists. split; [|shelve]. eapply run_lift; [exact Hn|]. cbv beta iota.
    eapply run_bind; [exact Hnext|]. by apply run_lift_err. Unshelve. done.
  - destruct (next_some m unc rev it seq d _ Hg) as (it1 & Hnext & _). destruct (whole_block d Hr) as [Hread _]. eexists. split; [|shelve].
    eapply run_lift; [exact Hn|]. cbv beta iota. eapply run_bind; [exact Hnext|]. eapply run_lift; [done|]. apply run_get. eapply run_fs; [exact Hread|].
    cbv zeta. cbn [lo_sequence]. rewrite (proj2 (Z.eqb_neq _ _) Hsum). apply run_err. Unshelve. done.
  - destruct (next_some m unc rev it seq d _ Hg) as (it1 & Hnext & Hg1). destruct (whole_block d Hr) as [Hread _]. pose proof (tag_next_len _ _ _ Hn) as [Hl1 Hl2].
    destruct (IH m (<[tag_block_index tag:=d]> unc) rev it1 n Hg1) as (l' & Hrun & Hm); [lia..|]. exists l'. split; [|done].
    eapply run_lift; [exact Hn|]. cbv beta iota. eapply run_bind; [exact Hnext|]. eapply run_lift; [done|]. apply run_get. eapply run_fs; [exact Hread|].
    cbv zeta. cbn [lo_sequence]. rewrite Hsum, Z.eqb_refl. apply run_put. exact Hrun.
Qed.

Lemma read_table_app n : ∀ data table l, read_table n data [] = Ok l → read_table n data table = Ok (table ++ l).
Proof using.
  assert (∀ n data t1 t2, read_table n data (t1 ++ t2) = let? l := read_table n data t2 in Ok (t1 ++ l)) as Happ.
  { clear n. induction n as [|n IH]; intros data t1 t2; cbn [read_table]; (case_bool_decide; [done|]); [done|].
    destruct (slice 0 8 data) as [b|e| |]; try done. cbn [rbind]. destruct (slice 8 _ data) as [r|e| |]; try done. cbn [rbind]. by rewrite <- app_assoc, IH. }
  intros data table l Hl. rewrite <- (app_nil_r table), Happ, Hl. cbn [rbind]. by rewrite app_nil_r.
Qed.

Lemma revocations_app b table l : read_revocation_block_table b [] = Ok l → read_revocation_block_table b table = Ok (table ++ l).
Proof using.
  unfold read_revocation_block_table. destruct (unwrap _) as [e|?| |]; try done. cbn [rbind]. destruct (slice _ e b) as [d|?| |]; try done. cbn [rbind].
  destruct (read_u32be d 0) as [n|?| |]; try done. cbn [rbind]. destruct (negb _); [done|]. destruct (slice 4 _ d) as [d'|?| |]; try done. cbn [rbind].
  destruct (ok_or _ _) as [d''|?| |]; try done. cbn [rbind]. apply read_table_app.
Qed.

Lemma revocations_err b table e : read_revocation_block_table b [] = Err e → read_revocation_block_table b table = Err e.
Proof using.
  assert (∀ n data t, read_table n data t = Err e → False) as Hno.
  { induction n as [|n IH]; intros data t; cbn [read_table]; (case_bool_decide; [done|]); [done|].
    unfold slice. repeat (case_bool_decide; [|done]). apply IH. }
  unfold read_revocation_block_table. destruct (unwrap _) as [x|?| |]; try done. cbn [rbind]. destruct (slice _ x b) as [d|?| |]; try done. cbn [rbind].
  destruct (read_u32be d 0) as [n|?| |]; try done. cbn [rbind]. destruct (negb _); [done|]. destruct (slice 4 _ d) as [d'|?| |]; try done. cbn [rbind].
  destruct (ok_or _ _) as [d''|?| |]; try done. cbn [rbind]. intros E. by apply Hno in E.
Qed.

(** An item of a transaction. *)
Lemma item_ok seq bs it : item_at seq bs it → ∃ b ds, bs = b :: ds ∧ ∀ m unc rev x rest, gen x (ds ++ rest) → ∃ x',
  run_to good (process_next fs fuel sb b) (mkLoader m unc rev x 0 seq false) (Ok tt) (mkLoader m (insert_tags unc (tags_of it)) (rev ++ revoked_of it) x' 0 seq false) ∧ gen x' rest.
Proof using good_disk H1.
  intros [b ds l [Hb Hh] Hsum Htags|b l [Hb Hh] Hsum Htab]; destruct (whole_block b Hb) as (Hread & _ & Hlen).
  - exists b, ds. split; [done|]. intros m unc rev x rest Hg. pose proof (tags_len _ _ _ _ Htags) as Hl.
    destruct (tags_ok seq _ ds l Htags m unc rev x rest (length (drop 12 (block b))) Hg Hl) as (x' & Hr & Hg'). exists x'. split; [|done].
    eapply run_fs; [exact Hread|]. eapply run_lift; [exact Hh|]. apply run_get. cbn [jh_sequence jh_block_type lo_sequence]. rewrite Z.eqb_refl. cbn [negb].
    change (DESCRIPTOR =? DESCRIPTOR) with true. cbv iota. eapply run_lift; [exact Hsum|]. cbn [revoked_of]. rewrite app_nil_r.
    eapply run_lift; [|exact Hr]. unfold HEADER_SIZE. rewrite slice_ok by (unfold zlen in *; lia). f_equal. unfold field. apply take_ge. rewrite length_drop. unfold zlen. lia.
  - exists b, []. split; [done|]. intros m unc rev x rest Hg. exists x. split; [|done].
    eapply run_fs; [exact Hread|]. eapply run_lift; [exact Hh|]. apply run_get. cbn [jh_sequence jh_block_type lo_sequence]. rewrite Z.eqb_refl. cbn [negb].
    change (REVOCATION =? DESCRIPTOR) with false. change (REVOCATION =? REVOCATION) with true. cbv iota. eapply run_lift; [exact Hsum|]. apply run_get.
    eapply run_lift; [by apply revocations_app|]. intros s Hs. by exists s.
Qed.

(** One round. *)
Lemma loop_round n l b l1 l2 r l3 : run_to good (journal_block_next fs fuel) l (Ok (Some b)) l1 → run_to good (process_next fs fuel sb b) l1 (Ok tt) l2 → lo_is_done l2 = false →
  run_to good (load_loop fs fuel sb n) l2 r l3 → run_to good (load_loop fs fuel sb (Datatypes.S n)) l r l3.
Proof using.
  intros Hn Hp Hd Hr. eapply run_bind; [exact Hn|]. intros s Hs. destruct (Hp s Hs) as (s1 & E & Hs1). cbv beta iota. rewrite E. cbn [fst]. rewrite Hd. by apply Hr.
Qed.

(** The rounds of the items of a transaction. *)
Lemma tx_ok seq bs tx : tx_at seq bs tx → ∀ m unc rev x rest n k (Q : BlockMapLoader → Prop) r, gen x (bs ++ rest) → (length bs + k ≤ n)%nat →
  (∀ x' n', gen x' rest → (k ≤ n')%nat → ∃ l', run_to good (load_loop fs fuel sb n')
     (mkLoader m (insert_tags unc (mjoin (tags_of <$> tx))) (rev ++ mjoin (revoked_of <$> tx)) x' 0 seq false) r l' ∧ Q l') →
  ∃ l', run_to good (load_loop fs fuel sb n) (mkLoader m unc rev x 0 seq false) r l' ∧ Q l'.
Proof using good_disk H1.
  induction 1 as [|bs it bs' tx Hit Htx IH]; intros m unc rev x rest n k Q r Hg Hn Hk.
  - rewrite app_nil_r in Hk. by apply Hk.
  - destruct (item_ok seq bs it Hit) as (b & ds & -> & Hp). rewrite <- app_assoc in Hg. cbn [app] in Hg. destruct (next_some m unc rev x seq b _ Hg) as (x1 & Hnext & Hg1).
    destruct (Hp m unc rev x1 (bs' ++ rest) Hg1) as (x2 & Hproc & Hg2). cbn [length app] in Hn. rewrite length_app in Hn. destruct n as [|n]; [lia|].
    destruct (IH m (insert_tags unc (tags_of it)) (rev ++ revoked_of it) x2 rest n k Q r Hg2) as (l' & Hrun & HQ); [lia| |exists l'; split; [by eapply loop_round|done]].
    intros x' n' Hg' Hn'. destruct (Hk x' n' Hg' Hn') as (l' & Hl & HQ). exists l'. split; [|done].
    unfold insert_tags in *. rewrite <- foldl_app, <- app_assoc. exact Hl.
Qed.

(** A block that is no part of a transaction. *)
Lemma block_fails_ok seq b ds e : block_fails seq b ds e → ∀ m unc rev x, gen x ds → ∃ l',
  run_to good (process_next fs fuel sb b) (mkLoader m unc rev x 0 seq false) (Err e) l' ∧ lo_block_map l' = m.
Proof using good_disk H1.
  intros Hf m unc rev x Hg.
  assert (∀ type seq' l', header_at b type seq' → run_to good (
      if negb (seq' =? seq) then merr (Corrupt JournalSequence) else
      if type =? DESCRIPTOR then process_descriptor_block fs fuel sb (block b)
      else if type =? REVOCATION then process_revocation_block sb (block b)
      else if type =? COMMIT then process_commit_block sb (block b) else merr (Incompatible (JournalBlockType type)))
      (mkLoader m unc rev x 0 seq false) (Err e) l' → run_to good (process_next fs fuel sb b) (mkLoader m unc rev x 0 seq false) (Err e) l') as Hstart.
  { intros type seq' l' [Hb Hh] Hr. destruct (whole_block b Hb) as (Hread & _). eapply run_fs; [exact Hread|]. eapply run_lift; [exact Hh|]. by apply run_get. }
  destruct Hf as [type seq' Hh Hne|e Hh Hv|e Hh Hv Ht|e Hh Hv|e Hh Hv Ht|e Hh Hv|type Hh H1' H2' H3'].
  - eexists. split; [apply (Hstart _ _ _ Hh); rewrite (proj2 (Z.eqb_neq _ _) Hne); apply run_err|done].
  - eexists. split; [apply (Hstart _ _ _ Hh); rewrite Z.eqb_refl; by apply run_lift_err|done].
  - destruct Hh as [Hb Hh]. destruct (whole_block b Hb) as (_ & _ & Hlen). unfold zlen in Hlen.
    destruct (tags_fail_ok seq _ ds e Ht m unc rev x (length (drop 12 (block b))) Hg) as (l' & Hr & Hm); [lia|rewrite length_drop; lia|].
    exists l'. split; [|done]. apply (Hstart _ _ _ (conj Hb Hh)). rewrite Z.eqb_refl. eapply run_lift; [exact Hv|]. eapply run_lift; [|exact Hr].
    unfold HEADER_SIZE. rewrite slice_ok by (unfold zlen in *; lia). f_equal. unfold field. apply take_ge. rewrite length_drop. unfold zlen. lia.
  - eexists. split; [apply (Hstart _ _ _ Hh); rewrite Z.eqb_refl; by apply run_lift_err|done].
  - eexists. split; [apply (Hstart _ _ _ Hh); rewrite Z.eqb_refl; eapply run_lift; [exact Hv|]; apply run_get, run_lift_err; by apply revocations_err|done].
  - eexists. split; [apply (Hstart _ _ _ Hh); rewrite Z.eqb_refl; by apply run_lift_err|done].
  - eexists. split; [apply (Hstart _ _ _ Hh); rewrite Z.eqb_refl, (proj2 (Z.eqb_neq _ _) H1'), (proj2 (Z.eqb_neq _ _) H2'), (proj2 (Z.eqb_neq _ _) H3'); apply run_err|done].
Qed.

Lemma fail_round n m unc rev x seq b ds e : gen x (b :: ds) → block_fails seq b ds e →
  ∃ l', run_to good (load_loop fs fuel sb (Datatypes.S n)) (mkLoader m unc rev x 0 seq false) (match e with Corrupt _ => Ok tt | _ => Err e end) l' ∧ lo_block_map l' = m.
Proof using good_disk H1.
  intros Hg Hf. destruct (next_some m unc rev x seq b ds Hg) as (x1 & Hnext & Hg1). destruct (block_fails_ok seq b ds e Hf m unc rev x1 Hg1) as (l' & Hr & Hm).
  exists l'. split; [|done]. eapply run_bind; [exact Hnext|]. intros s Hs. destruct (Hr s Hs) as (s1 & E & Hs1). exists s1. cbv beta iota. rewrite E. by destruct e.
Qed.

(** What ends the journal. *)
Lemma stop_ok n m unc rev x seq rest : gen x rest → stops_at seq rest →
  ∃ l', run_to good (load_loop fs fuel sb (Datatypes.S n)) (mkLoader m unc rev x 0 seq false) (Ok tt) l' ∧ lo_block_map l' = m.
Proof using good_disk H1.
  destruct rest as [|b ds]; intros Hg Hst.
  { destruct (next_none m unc rev x seq Hg) as (x2 & Hnext). eexists. split; [eapply run_bind; [exact Hnext|apply run_ok]|done]. }
  destruct Hst as [[Hb Hh]|[k Hf]]; [|by apply (fail_round n m unc rev x seq b ds (Corrupt k))].
  destruct (next_some m unc rev x seq b ds Hg) as (x1 & Hnext & _). destruct (whole_block b Hb) as (Hread & _).
  exists (mkLoader m unc rev x1 0 seq true). split; [|done]. eapply run_bind; [exact Hnext|]. intros s Hs. destruct (Hread s Hs) as (s1 & E & Hs1). exists s1. split; [|done].
  unfold process_next, mbindM, on_fs, zoom, mlift, it_get, it_put. cbn [fst snd]. rewrite E, Hh. done.
Qed.

(** The commit block of a transaction, up to the new sequence number. *)
Lemma commit_ok m tx x seq c r l' : commit_at seq c →
  run_to good (let! sequence := mlift (ok_or (Corrupt JournalSequenceOverflow) (checked 32 (seq + 1))) in
    it_put (mkLoader (apply_tx m tx) ∅ [] x 0 sequence false)) (mkLoader (apply_tx m tx) ∅ [] x 0 seq false) r l' →
  run_to good (process_next fs fuel sb c) (mkLoader m (insert_tags ∅ (mjoin (tags_of <$> tx))) ([] ++ mjoin (revoked_of <$> tx)) x 0 seq false) r l'.
Proof using good_disk H1.
  intros [[Hc Hh] Hsum] Hr. destruct (whole_block c Hc) as (Hread & _).
  eapply run_fs; [exact Hread|]. eapply run_lift; [exact Hh|]. apply run_get. cbn [jh_sequence jh_block_type lo_sequence]. rewrite Z.eqb_refl. cbn [negb].
  change (COMMIT =? DESCRIPTOR) with false. change (COMMIT =? REVOCATION) with false. change (COMMIT =? COMMIT) with true. cbv iota.
  eapply run_lift; [exact Hsum|]. apply run_get. cbv zeta. apply run_put. exact Hr.
Qed.

(** A committed transaction. *)
Lemma commit_round seq bs tx c rest m x n (Q : BlockMapLoader → Prop) r : tx_at seq bs tx → commit_at seq c → 0 ≤ seq → seq + 1 < 2 ^ 32 →
  gen x (bs ++ c :: rest) → (length (bs ++ c :: rest) < n)%nat →
  (∀ x' n', gen x' rest → (length rest < n')%nat → ∃ l', run_to good (load_loop fs fuel sb n') (mkLoader (apply_tx m tx) ∅ [] x' 0 (seq + 1) false) r l' ∧ Q l') →
  ∃ l', run_to good (load_loop fs fuel sb n) (mkLoader m ∅ [] x 0 seq false) r l' ∧ Q l'.
Proof using good_disk H1.
  intros Htx Hc H0s Hlt Hg Hn IH. rewrite length_app in Hn. cbn [length] in Hn.
  apply (tx_ok seq bs tx Htx m ∅ [] x (c :: rest) n (Datatypes.S (Datatypes.S (length rest))) _ r Hg); [lia|]. intros x' n' Hg' Hn'. destruct n' as [|n']; [lia|].
  destruct (next_some m (insert_tags ∅ (mjoin (tags_of <$> tx))) ([] ++ mjoin (revoked_of <$> tx)) x' seq c rest Hg') as (x2 & Hnext & Hg2).
  destruct (IH x2 n' Hg2) as (l' & Hrun & HQ); [lia|]. exists l'. split; [|done]. eapply (loop_round _ _ _ _ _ _ _ Hnext); cycle 2; [exact Hrun| |reflexivity].
  apply (commit_ok m tx x2 seq c _ _ Hc). eapply run_lift; [by rewrite checked_ok by lia|]. intros s Hs. by exists s.
Qed.

(** The whole log. *)
Lemma log_ok seq bs txs : log_at seq bs txs → ∀ m x n, gen x bs → (length bs < n)%nat →
  ∃ l', run_to good (load_loop fs fuel sb n) (mkLoader m ∅ [] x 0 seq false) (Ok tt) l' ∧ lo_block_map l' = foldl apply_tx m txs.
Proof using good_disk H1.
  induction 1 as [seq bs tx rest Htx Hst|seq bs tx c rest Htx Hc Hmax|seq bs tx c rest txs Htx Hc H0s Hlt _ IH]; intros m x n Hg Hn.
  - rewrite length_app in Hn. apply (tx_ok seq bs tx Htx m ∅ [] x rest n (Datatypes.S (length rest)) _ _ Hg); [lia|]. intros x' n' Hg' Hn'. destruct n' as [|n']; [lia|].
    by apply stop_ok with (rest := rest).
  - rewrite length_app in Hn. cbn [length] in Hn. apply (tx_ok seq bs tx Htx m ∅ [] x (c :: rest) n (Datatypes.S (length rest)) _ _ Hg); [lia|]. intros x' n' Hg' Hn'. destruct n' as [|n']; [lia|].
    destruct (next_some m (insert_tags ∅ (mjoin (tags_of <$> tx))) ([] ++ mjoin (revoked_of <$> tx)) x' seq c rest Hg') as (x2 & Hnext & _).
    eexists. split; [|shelve]. eapply run_bind; [exact Hnext|].
    assert (run_to good (process_next fs fuel sb c) (mkLoader m (insert_tags ∅ (mjoin (tags_of <$> tx))) ([] ++ mjoin (revoked_of <$> tx)) x2 0 seq false)
      (Err (Corrupt JournalSequenceOverflow)) (mkLoader (apply_tx m tx) ∅ [] x2 0 seq false)) as Hr.
    { apply (commit_ok m tx x2 seq c _ _ Hc). apply run_lift_err. unfold checked. by rewrite bool_decide_eq_false_2 by lia. }
    intros s Hs. destruct (Hr s Hs) as (s1 & E & Hs1). exists s1. cbv beta iota. rewrite E. by split. Unshelve. done.
  - apply (commit_round seq bs tx c rest m x n _ _ Htx Hc H0s Hlt Hg Hn). intros x' n' Hg' Hn'. by apply IH.
Qed.

Lemma foreign_ok seq bs k : foreign_at seq bs k → ∀ m x n, gen x bs → (length bs < n)%nat →
  ∃ l', run_to good (load_loop fs fuel sb n) (mkLoader m ∅ [] x 0 seq false) (Err (Incompatible k)) l' ∧ True.
Proof using good_disk H1.
  induction 1 as [seq bs tx b ds k Htx Hf|seq bs tx c rest k Htx Hc H0s Hlt _ IH]; intros m x n Hg Hn.
  - rewrite length_app in Hn. cbn [length] in Hn. apply (tx_ok seq bs tx Htx m ∅ [] x (b :: ds) n (Datatypes.S (length ds)) _ _ Hg); [lia|]. intros x' n' Hg' Hn'. destruct n' as [|n']; [lia|].
    destruct (fail_round n' m (insert_tags ∅ (mjoin (tags_of <$> tx))) ([] ++ mjoin (revoked_of <$> tx)) x' seq b ds _ Hg' Hf) as (l' & Hr & _). by exists l'.
  - apply (commit_round seq bs tx c rest m x n _ _ Htx Hc H0s Hlt Hg Hn). intros x' n' Hg' Hn'. by apply IH.
Qed.

(** ** Every journal is a log or a foreign one *)
Definition damage (e : Ext4Error) : Prop := (∃ k, e = Corrupt k) ∨ ∃ k, e = Incompatible k.

Lemma read_u32be_total {E} bytes o : 0 ≤ o → o + 4 ≤ zlen bytes → o + 4 < 2 ^ 64 → ∃ v, read_u32be (E := E) bytes o = Ok v.
Proof using. intros ???. unfold read_u32be. rewrite checked_ok by lia. cbn [unwrap rbind]. rewrite get_range_ok by lia. by eexists. Qed.

Lemma tag_next_total bytes : (∃ p, tag_next bytes = Ok p) ∨ ∃ e, tag_next bytes = Err e ∧ damage e.
Proof using.
  unfold tag_next, tag_read_bytes. destruct (Z.ltb_spec (zlen bytes) 16) as [|Hl]; [right; eexists; split; [done|left; by eexists]|].
  destruct (read_u32be_total (E := Ext4Error) bytes 0) as [n ->]; [lia..|]. destruct (read_u32be_total (E := Ext4Error) bytes 4) as [f ->]; [lia..|].
  destruct (read_u32be_total (E := Ext4Error) bytes 8) as [h ->]; [lia..|]. destruct (read_u32be_total (E := Ext4Error) bytes 12) as [c ->]; [lia..|].
  cbn [rbind]. destruct (negb (contains f UUID_OMITTED) && (zlen bytes <? 32)) eqn:Eo; [right; eexists; split; [done|left; by eexists]|]. cbn [ok_or rbind tag_flags].
  destruct (contains _ ESCAPED); [right; eexists; split; [done|right; by eexists]|]. destruct (contains _ LAST_TAG); [left; by eexists|].
  unfold encoded_size. cbn [tag_flags]. left. destruct (contains f UUID_OMITTED); cbn [negb andb] in Eo; (rewrite slice_ok; [by eexists|lia..]).
Qed.

Lemma tags_cases seq n : ∀ bytes ds, (length bytes ≤ n)%nat → Forall (real_block fs) ds →
  (∃ ds1 rest l, ds = ds1 ++ rest ∧ tags_at seq bytes ds1 l) ∨ ∃ e, tags_fail seq bytes ds e ∧ damage e.
Proof using.
  induction n as [|n IH]; intros bytes ds Hn Hds; (destruct (tag_next_total bytes) as [[[tag next] E]|(e & E & He)]; [|right; exists e; split; [by apply fail_tag|done]]);
    pose proof (tag_next_len _ _ _ E) as [Hl1 Hl2]; [lia|].
  destruct Hds as [|d ds Hd Hds]; [right; eexists; split; [by eapply fail_short|left; by eexists]|].
  destruct (decide (finalize (update (update_u32_be (update checksum_new (js_uuid sb)) seq) (block d)) = tag_checksum tag)) as [Hsum|Hsum].
  2: { right. eexists. split; [by eapply fail_data|left; by eexists]. }
  destruct next as [bytes'|]; [|left; exists [d], ds, [(tag_block_index tag, d)]; split; [done|by apply tags_last]].
  destruct (IH bytes' ds ltac:(lia) Hds) as [(ds1 & rest & l & -> & Ht)|(e & Ht & He)].
  - left. exists (d :: ds1), rest, ((tag_block_index tag, d) :: l). split; [done|]. by eapply tags_cons.
  - right. exists e. split; [by eapply fail_later|done].
Qed.

Lemma tail_checksum_total k b : real_block fs b → tail_checksum k sb (block b) = Ok tt ∨ tail_checksum k sb (block b) = Err (Corrupt k).
Proof using good_disk H1.
  intros Hb. destruct (whole_block b Hb) as (_ & Hl & Hlen). pose proof (dk_bsize _ _ good_disk) as Hbs. unfold tail_checksum.
  rewrite checked_ok by lia. cbn [unwrap rbind]. destruct (read_u32be_total (E := Ext4Error) (block b) (zlen (block b) - 4)) as [v ->]; [lia..|]. cbn [rbind].
  rewrite slice_ok by lia. cbn [rbind]. destruct (_ =? v); tauto.
Qed.

Lemma commit_checksum_total b : real_block fs b →
  validate_commit_block_checksum sb (block b) = Ok tt ∨ validate_commit_block_checksum sb (block b) = Err (Corrupt JournalCommitBlockChecksum).
Proof using good_disk H1.
  intros Hb. destruct (whole_block b Hb) as (_ & _ & Hlen). unfold validate_commit_block_checksum.
  destruct (read_u32be_total (E := Ext4Error) (block b) 16) as [v ->]; [lia..|]. cbn [rbind]. rewrite !slice_ok by lia. cbn [rbind]. destruct (_ =? v); tauto.
Qed.

Lemma read_table_total n : ∀ data t, (length data ≤ n)%nat → zlen data `mod` 8 = 0 → ∃ l, read_table n data t = Ok l.
Proof using.
  induction n as [|n IH]; intros data t Hn Hm; cbn [read_table]; (case_bool_decide as Hd; [by eexists|]); (destruct data as [|x data]; [done|]); [cbn in Hn; lia|].
  unfold zlen in Hm. apply Z.mod_divide in Hm as [q Hq]; [|done]. assert (8 ≤ Z.of_nat (length (x :: data))) by (cbn [length] in *; lia).
  rewrite !slice_ok by (unfold zlen; lia). cbn [rbind]. apply IH; unfold zlen, field; rewrite length_take, length_drop; unfold zlen; [lia|].
  replace (Z.of_nat _) with ((q - 1) * 8) by lia. by apply Z.mod_mul.
Qed.

Lemma revocations_total b : real_block fs b → (∃ l, read_revocation_block_table (block b) [] = Ok l) ∨ ∃ k, read_revocation_block_table (block b) [] = Err (Corrupt k).
Proof using good_disk H1.
  intros Hb. destruct (whole_block b Hb) as (_ & Hl & Hlen). pose proof (dk_bsize _ _ good_disk) as Hbs. unfold read_revocation_block_table, HEADER_SIZE.
  rewrite checked_ok by lia. cbn [unwrap rbind]. rewrite slice_ok by lia. cbn [rbind]. set (data := field _ _ _).
  assert (zlen data = zlen (block b) - 16) as Hd by (unfold data, zlen, field in *; rewrite length_take, length_drop; lia).
  destruct (read_u32be_total (E := Ext4Error) data 0) as [v ->]; [lia..|]. cbn [rbind]. destruct (Z.eqb_spec (v `mod` 8) 0) as [Hm|]; [|right; by eexists]. cbn [negb].
  rewrite slice_ok by lia. cbn [rbind]. unfold get_range. case_bool_decide as Hr; [|right; by eexists]. cbn [ok_or rbind]. left. apply read_table_total; [lia|].
  rewrite <- Hm. f_equal. set (d := field _ _ data) in *. unfold zlen, field in *. rewrite length_take, length_drop. lia.
Qed.

(** What a block of the journal can be. *)
Lemma block_cases seq b ds : real_block fs b → Forall (real_block fs) ds →
  header_read_bytes (block b) = Ok None ∨ commit_at seq b ∨ (∃ e, block_fails seq b ds e ∧ damage e) ∨
  ∃ ds1 rest it, ds = ds1 ++ rest ∧ item_at seq (b :: ds1) it.
Proof using good_disk H1.
  intros Hb Hds. destruct (whole_block b Hb) as (_ & _ & Hlen).
  assert (header_read_bytes (block b) = Ok None ∨ ∃ h, header_read_bytes (block b) = Ok (Some h)) as [Hh|[[type seq'] Hh]].
  { unfold header_read_bytes. destruct (read_u32be_total (E := Ext4Error) (block b) 0) as [? ->]; [lia..|]. destruct (read_u32be_total (E := Ext4Error) (block b) 4) as [? ->]; [lia..|].
    destruct (read_u32be_total (E := Ext4Error) (block b) 8) as [? ->]; [lia..|]. cbn [rbind]. destruct (negb _); [by left|right; by eexists]. }
  { by left. }
  assert (header_at b type seq') as Hat by done. right.
  destruct (decide (seq' = seq)) as [->|Hne]; [|right; left; eexists; split; [by eapply fail_sequence|left; by eexists]].
  destruct (decide (type = DESCRIPTOR)) as [->|H1']; [|destruct (decide (type = REVOCATION)) as [->|H2']; [|destruct (decide (type = COMMIT)) as [->|H3']]].
  - destruct (tail_checksum_total JournalDescriptorBlockChecksum b Hb) as [Hv|Hv]; [|right; left; eexists; split; [by apply fail_descriptor|left; by eexists]].
    destruct (tags_cases seq (length (drop 12 (block b))) (drop 12 (block b)) ds ltac:(lia) Hds) as [(ds1 & rest & l & -> & Ht)|(e & Ht & He)].
    + right. right. exists ds1, rest, (Replace l). split; [done|by apply item_tags].
    + right. left. exists e. split; [by apply fail_tags|done].
  - destruct (tail_checksum_total JournalRevocationBlockChecksum b Hb) as [Hv|Hv]; [|right; left; eexists; split; [by apply fail_revocation|left; by eexists]].
    destruct (revocations_total b Hb) as [[l Ht]|[k Ht]]; [|right; left; eexists; split; [by apply fail_table|left; by eexists]].
    right. right. exists [], ds, (Revoke l). split; [done|by apply item_revoke].
  - destruct (commit_checksum_total b Hb) as [Hv|Hv]; [by left; split|right; left; eexists; split; [by apply fail_commit|left; by eexists]].
  - right. left. eexists. split; [by apply (fail_type _ _ _ type)|right; by eexists].
Qed.

Lemma log_cases n : ∀ seq bs, (length bs ≤ n)%nat → Forall (real_block fs) bs → in_u 32 seq →
  ∃ bs1 tx rest, bs = bs1 ++ rest ∧ tx_at seq bs1 tx ∧
    (stops_at seq rest ∨ (∃ b ds k, rest = b :: ds ∧ block_fails seq b ds (Incompatible k)) ∨ ∃ c rest', rest = c :: rest' ∧ commit_at seq c).
Proof using good_disk H1.
  induction n as [|n IH]; intros seq bs Hn Hbs Hs; (destruct Hbs as [|b ds Hb Hds]; [exists [], [], []; split; [done|]; split; [apply tx_nil|by left]|]); [cbn in Hn; lia|].
  cbn [length] in Hn. destruct (block_cases seq b ds Hb Hds) as [Hh|[Hc|[(e & Hf & [[k ->]|[k ->]])|(ds1 & rest & it & -> & Hit)]]].
  - exists [], [], (b :: ds). split; [done|]. split; [apply tx_nil|]. left. by left.
  - exists [], [], (b :: ds). split; [done|]. split; [apply tx_nil|]. right. right. by exists b, ds.
  - exists [], [], (b :: ds). split; [done|]. split; [apply tx_nil|]. left. right. by exists k.
  - exists [], [], (b :: ds). split; [done|]. split; [apply tx_nil|]. right. left. by exists b, ds, k.
  - rewrite length_app in Hn. apply Forall_app in Hds as [_ Hrest]. destruct (IH seq rest ltac:(lia) Hrest Hs) as (bs1 & tx & rest' & -> & Htx & Hend).
    exists ((b :: ds1) ++ bs1), (it :: tx), rest'. split; [by rewrite <- app_assoc|]. split; [by apply tx_cons|done].
Qed.

Lemma log_total n : ∀ seq bs, (length bs ≤ n)%nat → Forall (real_block fs) bs → in_u 32 seq → (∃ txs, log_at seq bs txs) ∨ ∃ k, foreign_at seq bs k.
Proof using good_disk H1.
  induction n as [|n IH]; intros seq bs Hn Hbs Hs; destruct (log_cases (length bs) seq bs ltac:(lia) Hbs Hs) as (bs1 & tx & rest & -> & Htx & [Hst|[(b & ds & k & -> & Hf)|(c & rest' & -> & Hc)]]).
  all: try (left; exists []; by eapply log_end). all: try (right; exists k; by eapply foreign_end). all: rewrite length_app in Hn; cbn [length] in Hn; try lia.
  apply Forall_app in Hbs as [_ Hbs]. inversion Hbs as [|?? _ Hrest]; subst. unfold in_u in Hs.
  destruct (decide (seq + 1 = 2 ^ 32)) as [Hmax|Hmax]; [left; exists [tx]; by apply log_full|].
  destruct (IH (seq + 1) rest' ltac:(lia) Hrest) as [[txs Hl]|[k Hf]]; [unfold in_u; lia|left; exists (tx :: txs); apply log_commit; done || lia|].
  right. exists k. apply (foreign_commit _ _ tx); done || lia.
Qed.
End replay.

(** The blocks before the start are skipped; what the loop makes of the others is the result. *)
Lemma load_block_map_run `{Crc} {S} `{BlockReaderLaws S fs disk good} sb inode bl r (Q : BlockMapLoader → Prop) : disk_ok fs disk → bytes_ok disk → has_blocks fs disk inode bl →
  0 ≤ file_size_in_blocks inode < 2 ^ 32 → (Z.to_nat (js_start_block sb) ≤ length bl)%nat →
  (∀ fuel x n, generates good (file_blocks_next fs fuel) x (drop (Z.to_nat (js_start_block sb)) bl) → (length (drop (Z.to_nat (js_start_block sb)) bl) < n)%nat →
     ∃ l', run_to good (load_loop fs fuel sb n) (mkLoader ∅ ∅ [] x 0 (js_sequence sb) false) r l' ∧ Q l') →
  ∃ N, ∀ fuel, (N ≤ fuel)%nat → ∃ l', Q l' ∧
    yields good (load_block_map fs fuel sb inode) (match r with Ok _ => Ok (lo_block_map l') | Err e => Err e | Panic => Panic | Hang => Hang end).
Proof.
  intros Hd Hb Hbl Hsz Hstart Hloop. destruct (file_blocks_generate Hd Hb inode bl Hbl Hsz) as (it & n & Hnew & Hg). exists (n + length bl + 2)%nat. intros fuel Hf.
  destruct (skip_ok fuel (Z.to_nat (js_start_block sb)) ∅ ∅ [] it (js_sequence sb) bl (Hg fuel ltac:(lia)) Hstart) as (it' & Hg' & Hskip). destruct fuel as [|fuel]; [lia|].
  destruct (Hloop (Datatypes.S fuel) it' (Datatypes.S fuel) Hg') as (l' & Hrun & HQ); [rewrite length_drop; lia|]. exists l'. split; [done|].
  unfold load_block_map, on_local, loader_new. rewrite Hnew. cbn [rbind]. intros s Hs. destruct (Hskip s Hs) as (s1 & Hs1 & E). destruct (Hrun s1 Hs1) as (s2 & E2 & Hs2). exists s2.
  split; [|done]. unfold mlift, mbindM at 1 2. cbn [load_loop] in E2 |- *. unfold mbindM at 1 in E2. unfold mbindM at 1. rewrite E, E2. unfold mbindM, it_get, mok. by destruct r.
Qed.

(** The journal is the file of inode [i], and [P] holds of its superblock and of its blocks from the start on. *)
Definition journal_on `{Crc} (fs : Ext4) (disk : list Z) (i : Z) (P : JournalSuperblock → list Z → Prop) : Prop :=
  ∃ inode bl b0 sb, inode_at (fs := fs) (disk := disk) i inode ∧ has_blocks fs disk inode bl ∧ 0 ≤ file_size_in_blocks inode < 2 ^ 32 ∧
    bl !! 0%nat = Some b0 ∧ real_block fs b0 ∧ journal_superblock_read_bytes (field 0 1024 (fs_block fs disk b0)) = Ok sb ∧
    js_block_size sb = block_size (superblock fs) ∧ (Z.to_nat (js_start_block sb) ≤ length bl)%nat ∧ P sb (drop (Z.to_nat (js_start_block sb)) bl).

(** A filesystem without a journal, or with one that holds the transactions. *)
Definition journal_at `{Crc} (fs : Ext4) (disk : list Z) (txs : list (list JournalItem)) : Prop :=
  match journal_inode (superblock fs) with
  | None => txs = []
  | Some i => journal_on fs disk i (λ sb bs, log_at (fs := fs) (disk := disk) sb (js_sequence sb) bs txs)
  end.

(** A journal that needs something the reader does not know, and one whose blocks are all on the storage. *)
Definition journal_foreign `{Crc} (fs : Ext4) (disk : list Z) (k : IncompatibleKind) : Prop :=
  ∃ i, journal_inode (superblock fs) = Some i ∧ journal_on fs disk i (λ sb bs, foreign_at (fs := fs) (disk := disk) sb (js_sequence sb) bs k).
Definition journal_present `{Crc} (fs : Ext4) (disk : list Z) : Prop :=
  ∃ i, journal_inode (superblock fs) = Some i ∧ journal_on fs disk i (λ _ bs, Forall (real_block fs) bs).

(** The replacements are blocks of the filesystem. *)
Section real.
Context `{Crc} (fs : Ext4) (disk : list Z) (sb : JournalSuperblock).

Lemma tags_real seq bytes ds l : tags_at (fs := fs) (disk := disk) sb seq bytes ds l → Forall (λ t, real_block fs t.2) l.
Proof using. induction 1 as [bytes tag d _ [Hr _]|bytes tag rest d ds l _ [Hr _] _ IH]; constructor; [exact Hr|constructor|exact Hr|exact IH]. Qed.

Lemma tx_real seq bs tx : tx_at (fs := fs) (disk := disk) sb seq bs tx → Forall (λ t, real_block fs t.2) (mjoin (tags_of <$> tx)).
Proof using.
  induction 1 as [|bs it bs' tx Hit _ IH]; [done|]. change (mjoin (tags_of <$> it :: tx)) with (tags_of it ++ mjoin (tags_of <$> tx)). apply Forall_app. split; [|done].
  destruct Hit as [b ds l _ _ Ht|]; [by eapply tags_real|done].
Qed.

Lemma log_real seq bs txs k v : log_at (fs := fs) (disk := disk) sb seq bs txs → replacement txs k = Some v → real_block fs v.
Proof using.
  intros Hlog. assert (∀ tx bs seq, tx_at (fs := fs) (disk := disk) sb seq bs tx → replaces tx k = Some v → real_block fs v) as Htx'.
  2: { induction Hlog as [|seq bs tx c rest Htx _ _|seq bs tx c rest txs Htx _ _ _ _ IH]; [done|by eapply Htx'|].
    cbn [replacement]. destruct (replacement txs k) as [w|]; [done|]. by eapply Htx'. }
  clear. intros tx bs seq Htx. unfold replaces. case_bool_decide; [done|].
  destruct (last (filter _ _)) as [[a d]|] eqn:E; [|done]. intros [= <-]. apply tx_real in Htx. rewrite Forall_forall in Htx.
  apply last_Some in E as (l' & E). assert ((a, d) ∈ filter (λ t, t.1 = k) (mjoin (tags_of <$> tx))) as Hin by (rewrite E; apply elem_of_app; right; by apply elem_of_cons; left).
  apply list_elem_of_filter in Hin as [_ Hin]. exact (Htx _ Hin).
Qed.
End real.

Lemma journal_load_run `{Crc} {S} `{BlockReaderLaws S fs disk good} i P r (Q : BlockMapLoader → Prop) : disk_ok fs disk → bytes_ok disk →
  journal_inode (superblock fs) = Some i → journal_on fs disk i P →
  (∀ sb bs fuel x n, P sb bs → generates good (file_blocks_next fs fuel) x bs → (length bs < n)%nat →
     ∃ l', run_to good (load_loop fs fuel sb n) (mkLoader ∅ ∅ [] x 0 (js_sequence sb) false) r l' ∧ Q l') →
  ∃ N, ∀ fuel, (N ≤ fuel)%nat → ∃ l', Q l' ∧
    yields good (journal_load fs fuel) (match r with Ok _ => Ok (lo_block_map l') | Err e => Err e | Panic => Panic | Hang => Hang end).
Proof.
  intros Hd Hb Hi0 (inode & bl & b0 & sb & Hi & Hbl & Hsz & H0' & Hreal & Hsb & Hbs & Hstart & HP) Hloop. unfold journal_load. rewrite Hi0.
  destruct (load_block_map_run sb inode bl r Q Hd Hb Hbl Hsz Hstart) as (N1 & HN1); [intros fuel x n Hx Hn; by apply (Hloop sb _ fuel x n HP Hx Hn)|].
  destruct (file_blocks_generate Hd Hb inode bl Hbl Hsz) as (it & N2 & Hnew & Hg). exists (N1 + N2)%nat. intros fuel Hf. destruct (HN1 fuel ltac:(lia)) as (l' & HQ & Hm).
  exists l'. split; [done|].
  eapply yields_bind; [by apply (inode_read_ok i inode Hd)|]. eapply yields_bind; [|exact Hm]. unfold journal_superblock_load, on_local. rewrite Hnew. eapply yields_bind; [apply yields_lift|].
  specialize (Hg fuel ltac:(lia)). destruct bl as [|b bl]; [done|]. injection H0' as ->. destruct Hg as (it' & Hr & _). pose proof (dk_bsize _ _ Hd) as Hbs'.
  intros s Hs. destruct (Hr s Hs) as (s1 & E & Hs1). destruct (block_read_ok Hd b0 0 1024 Hreal ltac:(lia) ltac:(lia) ltac:(lia) s1 Hs1) as (s2 & E2 & Hs2). exists s2. split; [|done].
  unfold mbindM, mlift, on_fs, zoom, JOURNAL_SUPERBLOCK_SIZE. rewrite E. cbn [ok_or fst snd]. rewrite E2. change (Z.to_nat 0) with 0%nat. change (Z.to_nat 1024) with 1024%nat.
  rewrite Hsb, Hbs, Z.eqb_refl. done.
Qed.

Lemma journal_load_ok `{Crc} {S} `{BlockReaderLaws S fs disk good} txs : disk_ok fs disk → bytes_ok disk → journal_at fs disk txs →
  ∃ N, ∀ fuel, (N ≤ fuel)%nat → ∃ m, yields good (journal_load fs fuel) (Ok m) ∧ (∀ k, m !! k = replacement txs k) ∧ map_Forall (λ _ v, real_block fs v) m.
Proof.
  intros Hd Hb. unfold journal_at. destruct (journal_inode (superblock fs)) as [i|] eqn:Ei.
  - intros Hj. assert (∀ k v, replacement txs k = Some v → real_block fs v) as Hreal by (destruct Hj as (? & ? & ? & sb & Hj); intros k v; eapply log_real; apply Hj).
    destruct (journal_load_run i _ (Ok tt) (λ l', lo_block_map l' = foldl apply_tx ∅ txs) Hd Hb Ei Hj) as (N & HN).
    { intros sb bs fuel x n Hl Hg Hn. by apply (log_ok Hd sb fuel (js_sequence sb) bs txs Hl). }
    exists N. intros fuel Hf. destruct (HN fuel Hf) as (l' & -> & Hy).
    assert (∀ k, foldl apply_tx ∅ txs !! k = replacement txs k) as Hk by (intros k; rewrite apply_txs_lookup, lookup_empty; by destruct (replacement txs k)).
    eexists. split; [exact Hy|]. split; [exact Hk|]. intros k v. rewrite Hk. apply Hreal.
  - intros ->. exists 0%nat. intros fuel _. exists ∅. unfold journal_load. rewrite Ei. split; [apply yields_ok|]. split; [intros k; apply lookup_empty|apply map_Forall_empty].
Qed.

Lemma journal_sequence `{Crc} bytes sb : bytes_ok bytes → journal_superblock_read_bytes bytes = Ok sb → in_u 32 (js_sequence sb).
Proof.
  intros Hb. unfold journal_superblock_read_bytes. destruct (assert _) as [?|?| |]; try done. cbn [rbind]. destruct (header_read_bytes bytes) as [[h|]|?| |]; try done. cbn [ok_or rbind].
  destruct (negb _); [done|]. destruct (read_u32be bytes 0xc) as [?|?| |]; try done. cbn [rbind]. destruct (read_u32be bytes 0x18) as [q|?| |] eqn:Eq; try done.
  assert (in_u 32 q) as Hq.
  { unfold read_u32be, get_range in Eq. rewrite checked_ok in Eq by lia. cbn [unwrap rbind] in Eq. case_bool_decide as Hr; [|done]. cbn [unwrap rbind] in Eq. injection Eq as <-.
    unfold zlen in Hr. set (b := field _ _ bytes). assert (length b = 4%nat) as Hl by (unfold b, field; rewrite length_take, length_drop; lia).
    pose proof (le_dec_bound (reverse b)) as Hd. unfold zlen in Hd. rewrite length_reverse, Hl in Hd. apply Hd. apply Forall_reverse. unfold b, field. by apply Forall_take, Forall_drop. }
  cbn [rbind]. repeat (match goal with |- context [rbind ?x _] => destruct x; [|done..]; cbn [rbind] end). destruct (negb _); [done|].
  repeat (match goal with |- context [rbind ?x _] => destruct x; [|done..]; cbn [rbind] end). destruct (negb _); [done|]. by intros [= <-].
Qed.

(** C6: The map of a journal has the replacement of each block by the last committed transaction that writes it and does
    not revoke it. Transactions count as a whole: what comes after the last commit does not count, and the log ends at
    the first block that is damaged, be it a block of another run, one with a wrong checksum or a broken table, or a
    descriptor with a data block that is missing or whose checksum is not that of its tag. A journal with a type of
    block or an escaped data block that the reader does not know is refused. Every journal whose blocks are all on the
    storage is of one of the two kinds. *)
Theorem journal_replay `{Crc} {S} `{BlockReaderLaws S fs disk good} : disk_ok fs disk → bytes_ok disk →
  (∀ txs, journal_at fs disk txs → ∃ N, ∀ fuel, (N ≤ fuel)%nat → ∃ m, yields good (journal_load fs fuel) (Ok m) ∧ ∀ k, m !! k = replacement txs k) ∧
  (∀ k, journal_foreign fs disk k → ∃ N, ∀ fuel, (N ≤ fuel)%nat → yields good (journal_load fs fuel) (Err (Incompatible k))) ∧
  (journal_present fs disk → (∃ txs, journal_at fs disk txs) ∨ ∃ k, journal_foreign fs disk k).
Proof.
  intros Hd Hb. split; [|split].
  - intros txs Hj. destruct (journal_load_ok txs Hd Hb Hj) as (N & HN). exists N. intros fuel Hf. destruct (HN fuel Hf) as (m & Hm & Hk & _). by exists m.
  - intros k (i & Ei & Hj). destruct (journal_load_run i _ (Err (Incompatible k)) (λ _, True) Hd Hb Ei Hj) as (N & HN).
    { intros sb bs fuel x n Hl Hg Hn. by apply (foreign_ok Hd sb fuel (js_sequence sb) bs k Hl). }
    exists N. intros fuel Hf. by destruct (HN fuel Hf) as (l' & _ & Hy).
  - intros (i & Ei & inode & bl & b0 & sb & Hi & Hbl & Hsz & H0' & Hreal & Hsb & Hbs & Hstart & Hall).
    pose proof (journal_sequence _ _ ltac:(by apply field_bytes_ok, field_bytes_ok) Hsb) as Hseq.
    destruct (log_total Hd sb _ (js_sequence sb) _ (le_n _) Hall Hseq) as [[txs Hl]|[k Hl]]; [left; exists txs; unfold journal_at; rewrite Ei|right; exists k, i; split; [done|]];
      by exists inode, bl, b0, sb.
Qed.

(** ** Errors on the way to the start of the journal *)
(** The [j] first blocks of a file can be found, the next one not. *)
Inductive fails_after `{Crc} {S} `{BlockReader S} (fs : Ext4) (fuel : nat) : nat → FileBlocks * S → FileBlocks * S → Prop :=
  | fails_now p e p' : file_blocks_next fs fuel p = (Err e, p') → fails_after fs fuel 0 p p'
  | fails_later j p b p' p'' : file_blocks_next fs fuel p = (Ok (Some b), p') → fails_after fs fuel j p' p'' → fails_after fs fuel (Datatypes.S j) p p''.

Lemma advance_fails `{Crc} {S} `{BlockReader S} fs fuel j p p' : fails_after fs fuel j p p' → ∀ n m unc rev seq, (j < n)%nat → ∃ b,
  advance_by fs fuel n (mkLoader m unc rev p.1 0 seq false, p.2) = (Ok b, (mkLoader m unc rev p'.1 0 seq false, p'.2)) ∧
  file_blocks_next fs fuel p' = (Ok None, p').
Proof.
  induction 1 as [[x s] e [x' s'] E|j [x s] b [x' s'] [x'' s''] E _ IH]; intros n m unc rev seq Hn; (destruct n as [|n]; [lia|]); cbn [advance_by fst snd];
    unfold file_block_next at 1, on_sub, zoom; cbn [fst snd lo_iter]; rewrite E; cbn [set_lo_iter lo_block_map lo_uncommitted lo_revoked lo_skip lo_sequence lo_is_done fst snd].
  - pose proof (file_blocks_next_err fs fuel x s e x' s' E) as Hnone. destruct n as [|n]; [by exists true|]. exists false. split; [|done].
    cbn [advance_by]. unfold file_block_next at 1, on_sub, zoom. cbn [fst snd lo_iter]. by rewrite Hnone.
  - apply IH. lia.
Qed.

(** When the blocks of the journal before its start cannot be found, for instance because the storage fails, the error
    is dropped: the journal counts as empty, and its transactions are lost for this reader. *)
Theorem journal_errors_dropped `{Crc} {S} `{BlockReader S} fs fuel sb inode it s j it' s' : file_blocks_new inode = Ok it →
  fails_after fs fuel j (it, s) (it', s') → Z.of_nat j < js_start_block sb → (0 < fuel)%nat → load_block_map fs fuel sb inode s = (Ok ∅, s').
Proof.
  intros Hnew Hfail Hj Hf. destruct fuel as [|fuel]; [lia|]. unfold load_block_map, on_local, loader_new. rewrite Hnew. cbn [rbind].
  destruct (advance_fails fs _ j _ _ Hfail (Z.to_nat (js_start_block sb)) ∅ ∅ [] (js_sequence sb) ltac:(lia)) as (b & E & Hnone). cbn [fst snd] in E, Hnone.
  unfold mbindM, mlift. cbn [load_loop]. unfold journal_block_next at 1, mbindM, it_get, it_put. cbn [fst snd lo_skip]. rewrite (proj2 (Nat.eqb_neq _ _)) by lia. cbv beta iota.
  unfold set_lo_skip. cbn [fst snd lo_block_map lo_uncommitted lo_revoked lo_iter lo_sequence lo_is_done lo_skip]. rewrite E. destruct b; [|done].
  unfold file_block_next, on_sub, zoom. cbn [fst snd lo_iter]. by rewrite Hnone.
Qed.

(** A storage that fails, and a journal whose blocks are found through a node of the extent tree. *)
Module failing.
Definition reader : BlockReader unit := λ _ _ _ _ s, (Err (Io None), s).
Definition crc : Crc := {| Digest := unit; digest_with_initial _ := tt; digest_update _ _ := tt; digest_finalize _ := 0 |}.
Definition fs : Ext4 := mkExt4 (demo_sb 1024 8) [] ∅.
Definition inode : Inode := mkInode (H := crc) 8 (demo.pad 60 demo.root) (mkMeta 4096 0x8000 Regular 0 0) EXTENTS tt 4.
Definition sb : JournalSuperblock := mkJsb 1024 7 1 (zeros 16).
End failing.

Lemma journal_errors_dropped_witness : load_block_map (H0 := failing.reader) failing.fs 5 failing.sb failing.inode tt = (Ok ∅, tt).
Proof.
  assert (∃ it it', file_blocks_new failing.inode = Ok it ∧ file_blocks_next (H0 := failing.reader) failing.fs 5 (it, tt) = (Err (Io None), (it', tt))) as (it & it' & Hnew & Hnext).
  { eexists _, _. split; [vm_compute; reflexivity|vm_compute; reflexivity]. }
  apply (journal_errors_dropped (H0 := failing.reader) failing.fs 5 failing.sb failing.inode it tt 0 it' tt Hnew); [|reflexivity|lia].
  eapply fails_now. exact Hnext.
Defined.
