(* ===== verification/Ext4Fs.v ===== *)
(** The filesystem of [ext4-view-rs] as its users see it ([lib.rs], [File::open] of [file.rs]): loading, and the operations
    on paths. *)
From S2P Require Import Prelude Utf8 Ext4Base Ext4Cache Ext4Inode Ext4Extents Ext4BlockMap Ext4File Ext4Path Ext4Dir Ext4Resolve Ext4Journal.

(** ** [Ext4::load] *)
Section load.
Context `{Crc} `{Ext4Read}.

(** The superblock, an empty cache and the block group descriptors. *)
Definition load_base : M Reader Ext4Error (Superblock * BlockCache * list BlockGroupDescriptor) :=
  let! data := io_read 1024 SUPERBLOCK_SIZE in
  let! sb := mlift (superblock_from_bytes data) in
  let! cache := mlift (cache_new (block_size sb) (blocks_count sb)) in
  let! bgds := bgd_read_all sb in
  mok (sb, cache, bgds).

(** The journal is read through a filesystem with an empty one. *)
Definition load (fuel : nat) (reader : Reader) : XR (Ext4 * FsState) :=
  let (r, reader) := load_base reader in
  let? (sb, cache, bgds) := r in
  let (j, s) := journal_load (mkExt4 sb bgds ∅) fuel (mkFs cache reader) in
  let? journal := j in
  Ok (mkExt4 sb bgds journal, s).
End load.

(** ** Operations on paths *)
Section api.
Context `{Crc} {S : Type} `{BlockReader S} (fs : Ext4) (fuel : nat).

(** The conversion of the argument. *)
Definition to_path (path : list Z) : XR (list Z) := match path_try_from path with Ok p => Ok p | _ => Err MalformedPath end.

Definition path_to_inode (path : list Z) (follow : FollowSymlinks) : M S Ext4Error Inode :=
  let! v := resolve_path (fs_ops fs fuel) follow path in mok v.1.

Definition canonicalize (path : list Z) : M S Ext4Error (list Z) :=
  let! path := mlift (to_path path) in
  let! v := resolve_path (fs_ops fs fuel) All path in mok v.2.

(** The inode of a regular file. *)
Definition regular_inode (path : list Z) : M S Ext4Error Inode :=
  let! inode := path_to_inode path All in
  if is_dir (metadata inode) then merr IsADirectory else
  if negb (is_regular_file (file_type (metadata inode))) then merr IsASpecialFile else mok inode.

Definition open (path : list Z) : M S Ext4Error File :=
  let! path := mlift (to_path path) in
  let! inode := regular_inode path in
  mlift (open_inode inode).

Definition read (path : list Z) : M S Ext4Error (list Z) :=
  let! path := mlift (to_path path) in
  let! inode := regular_inode path in
  read_inode_file fs fuel inode.

Definition read_to_string (path : list Z) : M S Ext4Error (list Z) :=
  let! path := mlift (to_path path) in
  let! content := read path in
  mlift (ok_or NotUtf8 (from_utf8 content)).

Definition read_link (path : list Z) : M S Ext4Error (list Z) :=
  let! path := mlift (to_path path) in
  let! inode := path_to_inode path ExcludeFinalComponent in
  symlink_target fs fuel inode.

Definition read_dir (path : list Z) : M S Ext4Error ReadDir :=
  let! path := mlift (to_path path) in
  let! inode := path_to_inode path All in
  if negb (is_dir (metadata inode)) then merr NotADirectory else
  mlift (read_dir_new fs inode path).

Definition exists_ (path : list Z) : M S Ext4Error bool :=
  let! path := mlift (to_path path) in λ s,
  match path_to_inode path All s with
  | (Ok _, s) => (Ok true, s)
  | (Err NotFound, s) => (Ok false, s)
  | (Err e, s) => (Err e, s)
  | (Panic, s) => (Panic, s)
  | (Hang, s) => (Hang, s)
  end.

Definition path_metadata (path : list Z) : M S Ext4Error Metadata :=
  let! path := mlift (to_path path) in
  let! inode := path_to_inode path All in mok (metadata inode).

Definition symlink_metadata (path : list Z) : M S Ext4Error Metadata :=
  let! path := mlift (to_path path) in
  let! inode := path_to_inode path ExcludeFinalComponent in mok (metadata inode).

(** [DirEntry::metadata] *)
Definition entry_metadata (e : DirEntry) : M S Ext4Error Metadata :=
  let! inode := inode_read fs (de_inode e) in mok (metadata inode).

(** [Seek] for [File]: [None] is the error for a position that is not a [u64]. *)
Inductive SeekFrom := FromStart (pos : Z) | FromEnd (offset : Z) | FromCurrent (offset : Z).
Definition checked_i64 (z : Z) : option Z := if bool_decide (-2 ^ 63 ≤ z < 2 ^ 63) then Some z else None.
Definition seek_target (f : File) (pos : SeekFrom) : option Z :=
  match pos with
  | FromStart pos => Some pos
  | FromEnd offset => n ← checked_i64 (size_in_bytes (metadata (f_inode f))); n ← checked_i64 (n + offset); checked 64 n
  | FromCurrent offset => n ← checked_i64 (position f); n ← checked_i64 (n + offset); checked 64 n
  end.
Definition seek (pos : SeekFrom) : M (File * S) (option Ext4Error) Z := λ p,
  match seek_target p.1 pos with
  | None => (Err None, p)
  | Some n => let (r, p) := seek_to fs fuel n p in
              (let? _ := map_err Some r in Ok (position p.1), p)
  end.
End api.

(** ** The storage of a filesystem *)
Definition bgd_at `{Crc} (sb : Superblock) (disk : list Z) (i : Z) (bgd : BlockGroupDescriptor) : Prop :=
  ∃ start, get_start_byte sb i = Some start ∧ 0 ≤ start ∧ start + block_group_descriptor_size sb ≤ zlen disk ∧ start + block_group_descriptor_size sb < 2 ^ 64 ∧
    let data := field (Z.to_nat start) (Z.to_nat (block_group_descriptor_size sb)) disk in
    bgd_from_bytes sb data = Ok bgd ∧ (contains (read_only_compatible_features sb) METADATA_CHECKSUMS = true → check_bgd sb i data bgd = Ok tt).

(** The filesystem with the transactions of its journal. *)
Definition fs_of (sb : Superblock) (bgds : list BlockGroupDescriptor) (txs : list (list JournalItem)) : Ext4 := mkExt4 sb bgds (foldl apply_tx ∅ txs).

Record image_ok `{Crc} (disk : list Z) (sb : Superblock) (bgds : list BlockGroupDescriptor) (txs : list (list JournalItem)) : Prop := {
  im_bytes : bytes_ok disk;
  im_superblock : superblock_from_bytes (field 1024 1024 disk) = Ok sb;
  im_start : 2048 ≤ zlen disk;
  im_len : blocks_count sb * block_size sb ≤ zlen disk;
  im_64 : blocks_count sb * block_size sb < 2 ^ 64;
  im_groups : Forall2 (bgd_at sb disk) (seqZ 0 (num_block_groups sb)) bgds;
  im_journal : journal_at (mkExt4 sb bgds ∅) disk txs;
}.

Ltac inv_bind H :=
  repeat match type of H with
         | rbind ?m _ = Ok _ => let a := fresh "a" in let E := fresh "E" in destruct m as [a|?| |] eqn:E; try done; cbn [rbind] in H
         | (if ?c then _ else _) = Ok _ => let E := fresh "E" in destruct c eqn:E; try done
         end.

Lemma read_le_nonneg {E} n bytes off z : bytes_ok bytes → @read_le E n bytes off = Ok z → 0 ≤ z.
Proof.
  intros Hb Hr. unfold read_le in Hr. inv_bind Hr. injection Hr as <-. apply le_dec_bound. unfold unwrap, get_range in E1. case_bool_decide; [|done]. injection E1 as <-. by apply field_bytes_ok.
Qed.

(** A superblock that can be read has a block size from 1024 up. *)
Lemma superblock_sizes `{Crc} bytes sb : bytes_ok bytes → superblock_from_bytes bytes = Ok sb →
  1024 ≤ block_size sb < 2 ^ 32 ∧ 0 ≤ blocks_count sb ∧ 0 ≤ block_group_descriptor_size sb.
Proof.
  intros Hb Hsb. unfold superblock_from_bytes in Hsb. cbv zeta in Hsb. inv_bind Hsb. injection Hsb as <-. cbn [block_size blocks_count block_group_descriptor_size].
  split; [|split].
  - assert (0 ≤ a2) as H2 by (by eapply read_le_nonneg). unfold from_superblock_value, checked in E21. case_bool_decide; [|done]. cbn in E21. case_bool_decide as Hp; [|done].
    injection E21 as <-. split; [|lia]. change 1024 with (2 ^ 10). apply Z.pow_le_mono_r; lia.
  - unfold u64_from_hilo. rewrite Z.lor_nonneg, Z.shiftl_nonneg. split; by eapply read_le_nonneg.
  - destruct (contains a22 IS_64BIT); [by eapply read_le_nonneg|lia].
Qed.

(** ** Loading *)
Section ext4_load_ok.
Context `{Crc} `{Ext4ReadLaws} (disk : list Z).

Lemma io_read_ok r start n : serves r disk → 0 ≤ start → 0 ≤ n → start + n ≤ zlen disk → start + n < 2 ^ 64 →
  ∃ r', io_read start n r = (Ok (field (Z.to_nat start) (Z.to_nat n) disk), r') ∧ serves r' disk.
Proof using.
  intros Hr Hs Hn Hl H64. destruct (serves_read r disk start n Hr Hs Hn Hl H64) as (r' & E & Hr'). exists r'. split; [|done]. unfold io_read. by rewrite E.
Qed.

Lemma bgds_ok sb ids bgds : 0 ≤ block_group_descriptor_size sb → Forall2 (bgd_at sb disk) ids bgds → ∀ r, serves r disk →
  ∃ r', bgd_read_from sb ids r = (Ok bgds, r') ∧ serves r' disk.
Proof using.
  intros Hsz. induction 1 as [|i bgd ids bgds (start & Hst & H0' & Hl & H64 & Hfrom & Hsum) _ IH]; intros r Hr; [by exists r|]. cbn [bgd_read_from].
  destruct (io_read_ok r start _ Hr H0' Hsz Hl H64) as (r1 & E1 & Hr1). destruct (IH r1 Hr1) as (r2 & E2 & Hr2). exists r2. split; [|done].
  unfold mbindM at 1, bgd_read, mbindM at 1, mlift at 1. rewrite Hst. cbn [ok_or]. unfold mbindM at 1. rewrite E1. unfold mbindM at 1, mlift at 1. rewrite Hfrom. unfold mbindM, mlift.
  destruct (contains _ METADATA_CHECKSUMS); [rewrite Hsum by done|]; unfold mok at 1; by rewrite E2.
Qed.

Lemma ext4_load_ok r sb bgds txs : serves r disk → image_ok disk sb bgds txs → disk_ok (fs_of sb bgds txs) disk ∧
  ∃ N, ∀ fuel, (N ≤ fuel)%nat → ∃ s, load fuel r = Ok (fs_of sb bgds txs, s) ∧ cache_ok (fs_of sb bgds txs) disk s.
Proof using.
  intros Hr [Hb Hsb Hst Hl H64 Hg Hj]. destruct (superblock_sizes _ sb (field_bytes_ok 1024 1024 disk Hb) Hsb) as (Hbs & Hbl & Hds).
  assert (disk_ok (mkExt4 sb bgds ∅) disk) as Hd by (split; [done..|apply map_Forall_empty]).
  destruct (cache_new_eq (block_size sb) (blocks_count sb) Hbs) as (mx & Hc & _). set (cache := mkCache _ _ _ _ _) in Hc.
  assert (∃ r', load_base r = (Ok (sb, cache, bgds), r') ∧ serves r' disk) as (r' & Hbase & Hr').
  { destruct (io_read_ok r 1024 1024 Hr ltac:(lia) ltac:(lia) ltac:(lia) ltac:(lia)) as (r1 & E1 & Hr1). destruct (bgds_ok sb _ bgds Hds Hg r1 Hr1) as (r2 & E2 & Hr2). exists r2. split; [|done].
    unfold load_base, bgd_read_all, mbindM, mlift. change SUPERBLOCK_SIZE with 1024. rewrite E1. change (Z.to_nat 1024) with 1024%nat. rewrite Hsb, Hc, E2. done. }
  pose proof (fresh_cache_ok (mkExt4 sb bgds ∅) disk cache r' Hd Hr' Hc) as Hcache.
  destruct (journal_load_ok (S := FsState) (H1 := cached_reader_laws (mkExt4 sb bgds ∅) disk Hd) txs Hd Hb Hj) as (N & HN).
  assert (∀ m, (∀ k, m !! k = replacement txs k) → m = foldl apply_tx ∅ txs) as Hmap.
  { intros m Hm. apply map_eq. intros k. rewrite Hm, apply_txs_lookup, lookup_empty. by destruct (replacement txs k). }
  split.
  - destruct (HN N ltac:(lia)) as (m & _ & Hk & Hv). rewrite (Hmap m Hk) in Hv. split; [done..|]. intros k v Hkv. specialize (Hv k v Hkv) as [Hv _]. lia.
  - exists N. intros fuel Hf. destruct (HN fuel Hf) as (m & Hm & Hk & _). destruct (Hm _ Hcache) as (s & E & Hs). exists s. unfold load. rewrite Hbase. cbn [rbind]. rewrite E. cbn [rbind].
    rewrite (Hmap m Hk). split; [done|]. destruct Hs. by split.
Qed.
End ext4_load_ok.

(** ** Trees of directories *)
Section tree.
Context `{Crc} (fs : Ext4) (disk : list Z).

(** A directory that can be read, with its entries. *)
Definition dir_at (i : Inode) (es : list DirEntry) : Prop := ∃ bl rss, dir_ok fs disk i bl rss ∧
  (contains (flags i) DIRECTORY_HTREE = true → ∃ leaf, htree_ok fs disk i bl rss leaf) ∧ es = omap (entry_of []) (mjoin rss).

(** The names lead from one inode to another, by the first entries with these names, none of them a symbolic link. *)
Inductive tree_walk : Inode → list (list Z) → Inode → Prop :=
  | tree_nil i : tree_walk i [] i
  | tree_cons i es w e j ns k : dir_at i es → dir_find w es = Some e → inode_at (fs := fs) (disk := disk) (de_inode e) j → is_symlink (metadata j) = false →
      tree_walk j ns k → tree_walk i (w :: ns) k.
End tree.

Section tree_ok.
Context `{Crc} {S : Type} `{BlockReaderLaws S fs disk good} (good_disk : disk_ok fs disk) (bytes : bytes_ok disk).

Lemma tree_plain i ns k : tree_walk fs disk i ns k → Forall word ns → ∃ N, ∀ fuel, (N ≤ fuel)%nat → plain_walk good fs fuel i ns k.
Proof using All.
  induction 1 as [i|i es w e j ns k (bl & rss & Hok & Hht & ->) Hfind Hj Hlink _ IH]; intros Hns; [exists 0%nat; intros; constructor|].
  apply Forall_cons in Hns as [Hw Hns]. destruct (IH Hns) as (N1 & H1'). destruct (any_lookup i bl rss good_disk bytes Hok Hht) as (N2 & H2'). exists (N1 + N2)%nat. intros fuel Hf.
  specialize (H2' fuel ltac:(lia) w (word_name w Hw)). unfold lookup_spec in H2'. rewrite Hfind in H2'.
  econstructor; [exact (do_dir _ _ _ _ _ Hok)|apply H2', (inode_read_ok _ _ good_disk Hj)|done|]. apply H1'. lia.
Qed.
End tree_ok.

(** The names of a path, as an absolute path within the limits of the library. *)
Definition plain_names (ns : list (list Z)) : Prop := Forall (λ w, word w ∧ good_name w) ns ∧ ns ≠ [] ∧ zlen ns ≤ MAX_ITERATIONS ∧ zlen (path_of ns) ≤ MAX_PATH_LEN.

Lemma plain_words ns : plain_names ns → Forall word ns ∧ Forall good_name ns.
Proof. intros [Hns _]. split; (eapply Forall_impl; [exact Hns|]); by intros w []. Qed.

Lemma to_path_ok ns : plain_names ns → to_path (path_of ns) = Ok (path_of ns).
Proof. intros Hns. unfold to_path. by rewrite (proj2 (path_try_from_ok _) (valid_path_of _ (proj1 (plain_words _ Hns)))). Qed.

Section read_ok.
Context `{Crc} {S : Type} `{BlockReaderLaws S fs disk good} (good_disk : disk_ok fs disk) (bytes : bytes_ok disk).

Lemma resolve_tree root ns inode : plain_names ns → inode_at (fs := fs) (disk := disk) 2 root → tree_walk fs disk root ns inode → ∃ N, ∀ fuel, (N ≤ fuel)%nat → ∀ follow,
  yields good (path_to_inode fs fuel (path_of ns) follow) (Ok inode).
Proof using All.
  intros Hns Hroot Hw. destruct (tree_plain good_disk bytes root ns inode Hw (proj1 (plain_words _ Hns))) as (N & HN). exists N. intros fuel Hf follow.
  eapply (yields_bind _ _ (inode, path_of ns)); [|apply yields_ok]. destruct Hns as (Hns & Hne & Hmax & Hlen).
  apply (plain_path_yields good fs fuel follow root ns inode Hns Hne Hmax Hlen (inode_read_ok _ _ good_disk Hroot) (HN fuel Hf)).
Qed.

Lemma read_tree root ns inode bl : plain_names ns → inode_at (fs := fs) (disk := disk) 2 root → tree_walk fs disk root ns inode →
  file_type (metadata inode) = Regular → file_ok fs disk inode bl → ∃ N, ∀ fuel, (N ≤ fuel)%nat → yields good (read fs fuel (path_of ns)) (Ok (file_content fs disk inode bl)).
Proof using All.
  intros Hns Hroot Hw Hreg Hfile. destruct (resolve_tree root ns inode Hns Hroot Hw) as (N1 & H1'). destruct (read_inode_file_yields inode bl good_disk bytes Hfile) as (N2 & H2').
  exists (N1 + N2)%nat. intros fuel Hf. unfold read. rewrite to_path_ok by done. eapply yields_bind; [apply yields_lift|]. eapply yields_bind; [|apply H2'; lia].
  eapply yields_bind; [apply H1'; lia|]. cbv beta. unfold is_dir. rewrite Hreg. apply yields_ok.
Qed.
End read_ok.

(** C2: Reading a file by its path from a storage: for every storage with a superblock, block group descriptors and a
    journal that can be read, for every reader that delivers its bytes, [load] followed by [read] gives the content of the
    file that the directories lead to, the blocks that the journal replaces read from the journal. *)
Theorem load_and_read `{Crc} `{Ext4ReadLaws} disk r sb bgds txs root ns inode bl (fs := fs_of sb bgds txs) :
  serves r disk → image_ok disk sb bgds txs → plain_names ns → inode_at (fs := fs) (disk := disk) 2 root → tree_walk fs disk root ns inode →
  file_type (metadata inode) = Regular → file_ok fs disk inode bl →
  ∃ N, ∀ fuel, (N ≤ fuel)%nat → ∃ s s', load fuel r = Ok (fs, s) ∧ read fs fuel (path_of ns) s = (Ok (file_content fs disk inode bl), s').
Proof.
  intros Hr Him Hns Hroot Hw Hreg Hfile. destruct (ext4_load_ok disk r sb bgds txs Hr Him) as (Hd & N1 & H1').
  destruct (read_tree (H1 := cached_reader_laws fs disk Hd) Hd (im_bytes _ _ _ _ Him) root ns inode bl Hns Hroot Hw Hreg Hfile) as (N2 & H2').
  exists (N1 + N2)%nat. intros fuel Hf. destruct (H1' fuel ltac:(lia)) as (s & Hload & Hs). destruct (H2' fuel ltac:(lia) s Hs) as (s' & E & _). by exists s, s'.
Qed.

(** C35: For a path whose last name its directory does not have, [exists] gives [false], and [read], [read_dir] and
    [metadata] fail with [NotFound]. *)
Theorem missing_path_not_found `{Crc} {S} `{BlockReaderLaws S fs disk good} root ns dir es w : disk_ok fs disk → bytes_ok disk → plain_names (ns ++ [w]) →
  inode_at (fs := fs) (disk := disk) 2 root → tree_walk fs disk root ns dir → dir_at fs disk dir es → dir_find w es = None → ∃ N, ∀ fuel, (N ≤ fuel)%nat →
  let p := path_of (ns ++ [w]) in
  yields good (exists_ fs fuel p) (Ok false) ∧ yields good (read fs fuel p) (Err NotFound) ∧ yields good (read_dir fs fuel p) (Err NotFound) ∧
  yields good (path_metadata fs fuel p) (Err NotFound).
Proof.
  intros Hd Hb Hns Hroot Hw (bl & rss & Hok & Hht & ->) Hfind. destruct (plain_words _ Hns) as [Hwd _]. apply Forall_app in Hwd as [Hwd Hww]. apply Forall_cons in Hww as [Hww _].
  destruct (tree_plain Hd Hb root ns dir Hw Hwd) as (N1 & H1'). destruct (any_lookup dir bl rss Hd Hb Hok Hht) as (N2 & H2'). exists (N1 + N2)%nat. intros fuel Hf p.
  specialize (H2' fuel ltac:(lia) w (word_name w Hww)). unfold lookup_spec in H2'. rewrite Hfind in H2'.
  assert (∀ follow, yields good (path_to_inode fs fuel p follow) (Err NotFound)) as Hp.
  { intros follow. apply yields_bind_err. destruct Hns as (Hns & _ & Hmax & Hlen).
    apply (missing_path_yields good fs fuel follow root ns dir w Hns Hmax Hlen (inode_read_ok _ _ Hd Hroot) (H1' fuel ltac:(lia)) (do_dir _ _ _ _ _ Hok) H2'). }
  subst p. unfold exists_, read, read_dir, path_metadata. rewrite to_path_ok by done.
  split; [|split; [|split]]; (eapply yields_bind; [apply yields_lift|]); [|apply yields_bind_err, yields_bind_err, Hp|apply yields_bind_err, Hp..].
  intros s Hs. destruct (Hp All s Hs) as (s' & E & Hs'). exists s'. cbv beta. by rewrite E.
Qed.
