(* ===== verification/Ext4Image.v ===== *)
(** An example of an ext4 storage, on which the theorems about loading are applied: sixteen blocks with a superblock, a
    block group descriptor, an inode table, a file, and a journal. The block of the root directory is only in the journal;
    the last transaction of the journal has no commit. *)
From S2P Require Import Prelude Ext4Base Ext4Cache Ext4Inode Ext4Extents Ext4BlockMap Ext4File Ext4Path Ext4Dir Ext4Resolve Ext4Journal Ext4Fs.

#[local] Existing Instance crc32c.

Module image.
Definition be (z : Z) : list Z := reverse (le_bytes 4 z).
Definition uuid : list Z := zeros 16.
Definition seq : Z := 7.

Definition superblock_bytes : list Z :=
  zeros 4 ++ le_bytes 4 16 ++ zeros 12 ++ le_bytes 4 1 ++ le_bytes 4 0 ++ zeros 4 ++ le_bytes 4 8192 ++ zeros 4 ++ le_bytes 4 16 ++ zeros 12 ++ le_bytes 2 0xef53 ++
  zeros 30 ++ le_bytes 2 256 ++ zeros 2 ++ le_bytes 4 4 ++ le_bytes 4 0x46 ++ zeros 124 ++ le_bytes 4 8 ++ zeros 796.
Definition descriptor_bytes : list Z := zeros 8 ++ le_bytes 4 6 ++ zeros 1012.

(** A node with one extent. *)
Definition extent (first len : Z) : list Z :=
  le_bytes 2 0xf30a ++ le_bytes 2 1 ++ le_bytes 2 4 ++ le_bytes 2 0 ++ zeros 4 ++ le_bytes 4 0 ++ le_bytes 2 len ++ le_bytes 2 0 ++ le_bytes 4 first ++ zeros 36.
Definition table : list Z :=
  zeros 256 ++ tree_demo.raw 0x4000 1024 EXTENTS (extent 3 1) ++ tree_demo.raw 0x8000 5 EXTENTS (extent 4 1) ++ zeros 1024 ++ tree_demo.raw 0x8000 6144 EXTENTS (extent 8 6).

Definition dir_bytes : list Z := mjoin (encode_entry <$> [mkRaw 2 DOT 2 (zeros 3); mkRaw 2 DOTDOT 2 (zeros 2); mkRaw 3 [102] 1 (zeros 991)]).
Definition rss : list (list RawEntry) := [[mkRaw 2 DOT 2 (zeros 3); mkRaw 2 DOTDOT 2 (zeros 2); mkRaw 3 [102] 1 (zeros 991)]].
Definition file_bytes : list Z := [104; 101; 108; 108; 111] ++ zeros 1019.

(** ** The blocks of the journal *)
Definition journal_head : list Z :=
  be JOURNAL_MAGIC ++ be 4 ++ be 0 ++ be 1024 ++ zeros 8 ++ be seq ++ be 1 ++ zeros 8 ++ be 0x12 ++ zeros 4 ++ uuid ++ zeros 16 ++ [4] ++ zeros 171.
Definition journal_superblock : list Z := journal_head ++ be (finalize (update (update_u32_le (update checksum_new journal_head) 0) (zeros 768))) ++ zeros 768.

Definition tag_sum (data : list Z) : Z := finalize (update (update_u32_be (update checksum_new uuid) seq) data).
Definition descriptor_head (target : Z) (data : list Z) : list Z :=
  be JOURNAL_MAGIC ++ be DESCRIPTOR ++ be seq ++ be target ++ be (Z.lor UUID_OMITTED LAST_TAG) ++ be 0 ++ be (tag_sum data) ++ zeros 992.
Definition descriptor (target : Z) (data : list Z) : list Z :=
  descriptor_head target data ++ be (finalize (update_u32_be (update (update checksum_new uuid) (descriptor_head target data)) 0)).

Definition commit_head : list Z := be JOURNAL_MAGIC ++ be COMMIT ++ be seq ++ zeros 4.
Definition commit : list Z := commit_head ++ be (finalize (update (update (update (update checksum_new uuid) commit_head) (zeros 4)) (zeros 1004))) ++ zeros 1004.

(** The descriptor behind the commit is of the transaction before, and so ends the journal. *)
Definition disk : list Z :=
  zeros 1024 ++ superblock_bytes ++ descriptor_bytes ++ zeros 1024 ++ file_bytes ++ zeros 1024 ++ table ++
  journal_superblock ++ descriptor 3 dir_bytes ++ dir_bytes ++ commit ++ descriptor 4 (zeros 1024) ++ zeros 1024 ++ zeros 2048.

Definition sb : Superblock := mkSb 1024 16 256 16 32 1 0x46 0 (finalize (update checksum_new uuid)) [0; 0; 0; 0] (Some 8) (zeros 16) uuid.
Definition bgds : list BlockGroupDescriptor := [mkBgd 6 0].
Definition txs : list (list JournalItem) := [[Replace [(3, 10)]]].
Definition bare : Ext4 := mkExt4 sb bgds ∅.
Definition fs : Ext4 := fs_of sb bgds txs.
Definition jsb : JournalSuperblock := mkJsb 1024 seq 1 uuid.

Definition base (i : Z) : @Digest crc32c := update_u32_le (update_u32_le (checksum_with_seed (checksum_seed sb)) i) 0.
Definition root : Inode := mkInode 2 (extent 3 1) (mkMeta 1024 0x4000 Directory 0 0) EXTENTS (base 2) 1.
Definition file : Inode := mkInode 3 (extent 4 1) (mkMeta 5 0x8000 Regular 0 0) EXTENTS (base 3) 1.
Definition log_inode : Inode := mkInode 8 (extent 8 6) (mkMeta 6144 0x8000 Regular 0 0) EXTENTS (base 8) 6.

Lemma image_bytes_ok : bytes_ok disk.
Proof. apply bytes_ok_forallb. vm_compute. reflexivity. Defined.

Lemma superblock_demo : superblock_from_bytes (field 1024 1024 disk) = Ok sb.
Proof. vm_compute. reflexivity. Defined.

Lemma groups_demo : Forall2 (bgd_at sb disk) (seqZ 0 (num_block_groups sb)) bgds.
Proof.
  constructor; [|constructor]. exists 2048. split; [reflexivity|]. split; [lia|]. split; [vm_compute; congruence|]. split; [reflexivity|].
  split; [vm_compute; reflexivity|discriminate].
Defined.

(** Inode [n] of [f], in the block [blk]. *)
Lemma inode_demo (f : Ext4) n i blk off : superblock f = sb → get_inode_location f n = Ok (blk, off) → real_block f blk → off + 256 ≤ 1024 →
  tree_demo.fields (inode_from_bytes f n (field (Z.to_nat off) 256 (fs_block f disk blk))) = tree_demo.fields (Ok (i, 0)) → inode_at (fs := f) (disk := disk) n i.
Proof.
  intros Hsb Hloc Hb Hoff Hp. exists blk, off, 0. rewrite Hsb. split; [exact Hloc|]. split; [exact Hb|]. split; [exact Hoff|]. split; [reflexivity|].
  split; [|unfold has_metadata_checksums; rewrite Hsb; discriminate]. change (Z.to_nat (inode_size sb)) with 256%nat.
  destruct (inode_from_bytes f n _) as [[j sum]|e| |]; [|discriminate..]. destruct i, j. unfold tree_demo.fields in Hp. cbn in Hp. congruence.
Defined.

Lemma inodes_demo : inode_at (fs := bare) (disk := disk) 8 log_inode ∧ inode_at (fs := fs) (disk := disk) 2 root ∧ inode_at (fs := fs) (disk := disk) 3 file.
Proof.
  split; [|split].
  - apply (inode_demo bare 8 log_inode 7 768); [reflexivity|vm_compute; reflexivity|vm_compute; intuition congruence|lia|vm_compute; reflexivity].
  - apply (inode_demo fs 2 root 6 256); [reflexivity|vm_compute; reflexivity|vm_compute; intuition congruence|lia|vm_compute; reflexivity].
  - apply (inode_demo fs 3 file 6 512); [reflexivity|vm_compute; reflexivity|vm_compute; intuition congruence|lia|vm_compute; reflexivity].
Defined.

(** The blocks of an inode with one extent. *)
Ltac one_extent f i x :=
  apply (blocks_by_extents f disk i [x]);
  [done
  |exists (take 24 (inline_data i)), 0; split; [split; try done; [apply bytes_ok_forallb; by vm_compute|by vm_compute..]|apply (subtree_leaf _ _ _ (field 12 12 (inline_data i))), subtree_nil]
  |vm_compute; intuition congruence].

Lemma blocks_demo : has_blocks bare disk log_inode [8; 9; 10; 11; 12; 13] ∧ has_blocks fs disk root [3] ∧ has_blocks fs disk file [4].
Proof. split; [|split]; [one_extent bare log_inode (mkExtent 0 8 6)|one_extent fs root (mkExtent 0 3 1)|one_extent fs file (mkExtent 0 4 1)]. Defined.

Lemma log_demo : log_at (fs := bare) (disk := disk) jsb seq [9; 10; 11; 12; 13] txs.
Proof.
  assert (∀ b, 8 ≤ b < 14 → real_block bare b) as Hreal by (intros b Hb; unfold real_block, map_block_index, bare; cbn [journal]; rewrite lookup_empty; cbn; lia).
  apply (log_commit _ _ [9; 10] [Replace [(3, 10)]] 11 [12; 13] []).
  - apply (tx_cons _ _ [9; 10] (Replace [(3, 10)]) [] []); [|apply tx_nil]. apply item_tags; [split; [apply Hreal; lia|vm_compute; reflexivity]|vm_compute; reflexivity|].
    apply (tags_last _ _ _ (mkTag 3 (tag_sum dir_bytes) (Z.lor UUID_OMITTED LAST_TAG)) 10); [vm_compute; reflexivity|]. split; [apply Hreal; lia|vm_compute; reflexivity].
  - split; [split; [apply Hreal; lia|vm_compute; reflexivity]|vm_compute; reflexivity].
  - done.
  - done.
  - apply (log_end _ _ [] [] [12; 13]); [apply tx_nil|]. right. exists JournalSequence. apply (fail_sequence _ _ _ _ DESCRIPTOR seq); [|done].
    split; [apply Hreal; lia|vm_compute; reflexivity].
Defined.

Lemma journal_demo : journal_at bare disk txs.
Proof.
  unfold journal_at. change (journal_inode (superblock bare)) with (Some 8). cbv iota. exists log_inode, [8; 9; 10; 11; 12; 13], 8, jsb.
  split; [exact (proj1 inodes_demo)|]. split; [exact (proj1 blocks_demo)|]. split; [cbn; lia|]. split; [reflexivity|].
  split; [vm_compute; intuition congruence|]. split; [vm_compute; reflexivity|]. split; [reflexivity|]. split; [cbn; lia|]. apply log_demo.
Defined.

Lemma bare_ok : disk_ok bare disk.
Proof. split; [vm_compute; done..|]. apply map_Forall_empty. Defined.

Lemma image_demo : image_ok disk sb bgds txs.
Proof.
  split; [apply image_bytes_ok|apply superblock_demo|vm_compute; congruence|vm_compute; congruence|vm_compute; reflexivity|apply groups_demo|apply journal_demo].
Defined.

Lemma dir_demo_at : dir_at fs disk root (omap (entry_of []) (mjoin rss)).
Proof.
  exists [3], rss. split; [|split; [discriminate|reflexivity]]. split; [reflexivity|reflexivity|exact (proj1 (proj2 blocks_demo))|cbn; lia|].
  assert (Forall raw_ok (mjoin rss)) as Hr by (repeat constructor; cbn; try lia; try done; vm_compute; intuition congruence).
  eapply db_cons; [vm_compute; intuition congruence|vm_compute; reflexivity|exact Hr|done|]. constructor.
Defined.

Lemma walk_demo : tree_walk fs disk root [[102]] file.
Proof.
  apply (tree_cons fs disk root _ [102] (mkDirEntry 3 [102] [] Regular) file [] file dir_demo_at); [vm_compute; reflexivity|exact (proj2 (proj2 inodes_demo))|reflexivity|apply tree_nil].
Defined.

Lemma image_file_ok : file_ok fs disk file [4].
Proof. split; [exact (proj2 (proj2 blocks_demo))|constructor; [right; vm_compute; intuition congruence|constructor]|cbn; lia|cbn; lia|reflexivity]. Defined.

Lemma names_demo w : word w → good_name w → zlen w ≤ 100 → plain_names [w].
Proof. intros Hw Hg Hl. split; [by constructor|]. split; [done|]. split; [done|]. unfold path_of, MAX_PATH_LEN, zlen in *. cbn. rewrite length_app. cbn. lia. Defined.
End image.

Lemma journal_replay_witness : ∃ N, ∀ fuel, (N ≤ fuel)%nat → ∃ m,
  yields (@cache_ok vec_reader vec_reader_laws image.bare image.disk) (journal_load image.bare fuel) (Ok m) ∧ m !! 3 = Some 10 ∧ m !! 4 = None.
Proof.
  destruct (journal_replay (S := @FsState vec_reader) (H1 := cached_reader_laws (H0 := vec_reader_laws) image.bare image.disk image.bare_ok)
    image.bare_ok image.image_bytes_ok) as [Hlog _]. destruct (Hlog image.txs image.journal_demo) as (N & HN).
  exists N. intros fuel Hf. destruct (HN fuel Hf) as (m & Hm & Hk). exists m. split; [exact Hm|]. split; rewrite Hk; reflexivity.
Defined.

Lemma load_and_read_witness : ∃ N, ∀ fuel, (N ≤ fuel)%nat → ∃ s s',
  load (H0 := vec_reader) fuel image.disk = Ok (image.fs, s) ∧ read image.fs fuel [47; 102] s = (Ok [104; 101; 108; 108; 111], s').
Proof.
  destruct (load_and_read (H1 := vec_reader_laws) image.disk image.disk image.sb image.bgds image.txs image.root [[102]] image.file [4]) as (N & HN); try reflexivity.
  - exact image.image_demo.
  - apply image.names_demo; [|split; [discriminate|split; [reflexivity|split; discriminate]]|vm_compute; congruence].
    split; [discriminate|]. split; [reflexivity|]. split; [vm_compute; congruence|]. by repeat constructor.
  - exact (proj1 (proj2 image.inodes_demo)).
  - exact image.walk_demo.
  - exact image.image_file_ok.
  - exists N. intros fuel Hf. destruct (HN fuel Hf) as (s & s' & Hload & Hread). exists s, s'. split; [exact Hload|].
    replace (file_content _ _ _ _) with [104; 101; 108; 108; 111] in Hread by (vm_compute; reflexivity). exact Hread.
Defined.

Lemma missing_path_not_found_witness : ∃ N, ∀ fuel, (N ≤ fuel)%nat →
  yields (@cache_ok vec_reader vec_reader_laws image.fs image.disk) (exists_ image.fs fuel [47; 103]) (Ok false).
Proof.
  destruct (ext4_load_ok (H1 := vec_reader_laws) image.disk image.disk image.sb image.bgds image.txs eq_refl image.image_demo) as [Hd _].
  destruct (missing_path_not_found (S := @FsState vec_reader) (H1 := cached_reader_laws (H0 := vec_reader_laws) image.fs image.disk Hd)
    image.root [] image.root (omap (entry_of []) (mjoin image.rss)) [103] Hd image.image_bytes_ok) as (N & HN).
  - apply image.names_demo; [|split; [discriminate|split; [reflexivity|split; discriminate]]|vm_compute; congruence].
    split; [discriminate|]. split; [reflexivity|]. split; [vm_compute; congruence|]. by repeat constructor.
  - exact (proj1 (proj2 image.inodes_demo)).
  - apply tree_nil.
  - exact image.dir_demo_at.
  - vm_compute. reflexivity.
  - exists N. intros fuel Hf. exact (proj1 (HN fuel Hf)).
Defined.
